(* ===== verification/_CoqProject ===== *)
-Q . S2P
Prelude.v
Text.v
Bytes.v
BTree.v
Json.v
Session.v
Acr.v
Roles.v
Grants.v
Locale.v
Users.v
Claims.v
ClaimsStored.v
ClaimsLaws.v
PolicyRequest.v
PolicyDocument.v
PolicyDocumentLaws.v
PolicyRuleSet.v
PolicyEngine.v
PolicyEngineLaws.v
PolicyConditional.v
PolicySearch.v
AuditChain.v
RateLimit.v
RateOverrides.v
Throttle.v
Refresh.v
Codes.v
GrantStore.v
GrantAuthority.v
Device.v
Keys.v
KeysLaws.v
Signer.v
Jose.v
JoseLaws.v
Dpop.v
DpopLaws.v
Federation.v
FederationLaws.v
FederationPolicy.v
Mtls.v
MtlsLaws.v
Decision.v
ConsentMemory.v
Requests.v
Interaction.v
InteractionLaws.v
WebAuthn.v
WebAuthnLaws.v
Passkeys.v
PasskeyLaws.v
PasskeyCounters.v
Programs.v
Sessions.v
SessionLaws.v
ClientKeys.v
ClientKeysLaws.v
ClientAuth.v
ClientAuthLaws.v
