(* ===== verification/Prelude.v ===== *)
(** * Asterius IdP: a verification development

    Asterius is an OpenID Connect provider and authorization server written in
    Rust. Its rules live in [crates/domain] (entities, policies, ports) and
    [crates/oidc] (protocol values); [crates/store-pg] keeps them in PostgreSQL;
    [crates/server] and [crates/admin-api] are the handlers that compose them.
    This library models the rules that decide who is let in and for how long, and
    the repositories whose statements make those decisions final.  All paths below
    are under [src/crates/].

    ** How the parts fit together

    A browser logs in under the login limiter ([Throttle], over the counters of
    [RateLimit] and a tenant's [RateOverrides]); the session it gets ([Session]) is
    assigned an [acr] by the tenant's ladder ([Acr]).  Consent makes a grant
    ([Grants]), a grant makes an authorization code ([Codes]), and redeeming the
    code makes refresh and access tokens ([Refresh]).  A token request and a
    decision request may ask the policy engine ([PolicyEngine], [PolicyConditional])
    about a subject with roles ([Roles]) and grants; a search asks it about
    candidates ([PolicySearch]).  Who asks is a client that authenticated
    ([ClientAuth], over its keys in [ClientKeys]).  What happened is appended to the audit chain
    ([AuditChain]).

    Calls between files follow the calls between crates: [Codes] runs over the
    grants and refresh tokens of [Refresh], and a replayed code revokes both;
    the limiters of [Throttle] are written and proved against the class
    [RateLimit.RateLimitStore], which PostgreSQL's counters discharge as
    [Throttle.pg_rate_limit_store]; the engine's remedies read the ladder of
    [Acr]; scopes of a policy are kept by the ordered collections of [BTree].

    ** Files

    - [Prelude]: [Result] with [?], loops that may fail, Rust's [str] and integer
      operations, shared lemmas, automation.
    - [Text]: [str] operations on one separator, case and blanks. [Bytes]: integers as
      bytes.
    - [BTree]: [BTreeSet] and [BTreeMap] as sorted sequences over the class [Ord].
    - [Json]: [serde_json::Value] and its accessors.
    - [Session], [Acr], [Roles], [Grants]: [domain/src/entities/]'s [session.rs],
      [acr_policy.rs], [application_role.rs], [grant.rs].
    - [Locale], [Users]: [domain/src/locale.rs], [entities/user.rs],
      [json_sentinel.rs], [entities/identity_assurance.rs]. [Claims]:
      [oidc/src/claims.rs] and [claims/asc.rs]; its laws are in [ClaimsStored] and
      [ClaimsLaws].
    - [PolicyRequest], [PolicyDocument], [PolicyEngine], [PolicyConditional],
      [PolicySearch]: [domain/src/policy/]'s [request.rs], [document.rs],
      [engine.rs] with [explanation.rs], [conditional.rs], [search.rs]. The laws
      of the longer ones are in [PolicyDocumentLaws], [PolicyRuleSet] and
      [PolicyEngineLaws].
    - [AuditChain]: [domain/src/audit/chain.rs] and the event of [audit/mod.rs].
    - [RateLimit]: [domain/src/rate_limit.rs]. [RateOverrides]:
      [domain/src/tenant_rate_limits.rs].
    - [Throttle]: [admin-api/src/throttle.rs], [server/src/http/limits.rs],
      [server/src/http/throttle.rs], [store-pg/src/rate_limits.rs].
    - [Refresh]: [oidc/src/refresh.rs], [store-pg/src/refresh.rs],
      [store-pg/src/cutoffs.rs], the refresh policy of [entities/tenant.rs], and
      from [server/src/http/] the rotation of [refresh.rs], the cutoff check
      of [access_token.rs], the lookup of withdrawals of [introspection.rs] and the grant
      [userinfo.rs] reads a token's claims from.
    - [Codes]: [oidc/src/pkce.rs], [oidc/src/code.rs], [store-pg/src/codes.rs],
      [server/src/http/authorization_code.rs] up to the pinned-key check, and what takes
      the device proof of a code away: its retention sweep and the removal of a device.
    - [GrantStore]: the repository of [store-pg/src/grants.rs], with the triggers of
      migration 0171 it relies on. [GrantAuthority]: the issuance fence of the same
      file, statement by statement.
    - [Device]: [oidc/src/device.rs], [store-pg/src/device_codes.rs], and from
      [server/src/http/] the redemption of [device_code.rs] up to the claim and the
      answer of [device.rs].
    - [Keys]: [domain/src/keys.rs], [store-pg/src/keys.rs], [store-pg/src/key_store.rs];
      its laws are in [KeysLaws]. [Signer]: [server/src/signing.rs] over it.
    - [Jose]: from [jose/src/] the files [jws.rs], [verify.rs], [client_keys.rs] without its
      cache, and the thumbprint of [store.rs]; its laws are in [JoseLaws]. [Dpop]:
      [jose/src/dpop.rs], [server/src/http/dpop.rs], [store-pg/src/replay.rs]; its laws are
      in [DpopLaws]. [Federation]: [jose/src/federation.rs] with [federation/policy.rs] and
      [domain/src/issuer.rs]; its laws are in [FederationLaws] and, for the metadata,
      [FederationPolicy]. [Mtls]: [oidc/src/mtls.rs]; its laws are in [MtlsLaws].
    - [Decision]: [oidc/src/decision.rs]. [ConsentMemory]:
      [oidc/src/consent_memory.rs], [entities/authorization_details.rs] and from
      [server/src/http/interaction.rs] the grant an approval makes.
    - [Requests]: [store-pg/src/auth_requests.rs] and the challenge of a passkey
      sign-in in [store-pg/src/passkeys.rs]. [Interaction]: [web/src/interaction.rs],
      the handlers of [server/src/http/interaction.rs], the end of the passkey
      sign-in, where [authorize.rs] begins an interaction, and all of them
      interleaved over [Requests]; its laws are in [InteractionLaws].
    - [WebAuthn]: [crates/webauthn/src/], every file of it, and the relying party of a
      tenant; its laws are in [WebAuthnLaws]. [Passkeys]: [store-pg/src/passkeys.rs]
      and the two ceremonies of [server/src/http/passkeys.rs] over it, interleaved;
      its laws are in [PasskeyLaws] and, for the signature counter, [PasskeyCounters].
    - [Programs]: programs of statements, run alone or in turns. [Sessions]:
      [store-pg/src/sessions.rs] with the triggers and cascades of migrations 0166, 0167
      and 0170, the lookup by a browser of [domain/src/ports.rs], and
      [server/src/http/step_up.rs]; its laws are in [SessionLaws].
    - [ClientKeys]: the cache of [jose/src/client_keys.rs] and
      [store-pg/src/client_key_fetches.rs]; its laws are in [ClientKeysLaws].
      [ClientAuth]: [oidc/src/client_auth.rs], [server/src/client_auth.rs], the anchors of
      [server/src/mtls.rs] and [store-pg/src/client_usage.rs]; its laws are in
      [ClientAuthLaws].

    A definition has the name of the function, method or type it models, in a
    [Module] named after the type where Rust has an [impl] block.  State is a
    record per repository (a [gmap] per table, keyed as the table's primary key
    is), and an operation takes it and returns it with a [result].  Several calls
    at once are step relations ([Codes.sys_step], the steps of [Refresh], the
    histories of [Throttle]), with every order of their statements, failed
    statements, and answers lost on the way.  A handler of [Sessions] and of [ClientAuth] is a program, a
    value of [Programs.Prog] whose next statement depends on the answers so far: run
    alone it is a function, and in turns with others it is a process.

    ** What the theorems show

    - Policy. Parsing bounds a document and loses nothing but one degenerate
      matcher ([from_json_bounded], [ruleset_round_trip],
      [null_grant_does_not_round_trip]); evaluation is the declarative "a permit
      and no deny" with a definite choice of rule ([permit_iff],
      [evaluate_is_reference]), independent of caller-written properties where the
      policy is ([decision_ignores_properties]); a conditional scope fails closed
      on missing evidence, is the only one that applies, and offers only remedies
      that work ([conditional_permit_is_grounded], [at_most_one_scope_applies],
      [remedy_sound]); explanations are the bounded prefix of the trace and hold no
      policy or request text; searches lose nothing below their cap.
    - Codes and refresh tokens. Whatever interleaves, a code is redeemed at most
      once per issue with the bindings it was issued with, short of a device proof
      that was swept or removed ([code_single_use], [redeem_code_binds]); a replay has
      revoked the grant of the code and its tokens by the time it is answered
      ([replay_revokes]); rotation never widens a token and revocation is final, for
      access tokens as far as they name their grant ([refresh_never_widens],
      [revocation_is_final]); PKCE is S256 only ([pkce_s256_only]).
    - Claims. What a client is given stays within what was asked for or granted, and
      never under a name the server issues itself ([release_stays_within_consent]);
      a request means the same after it was stored, within the bounds of its stored
      form, which are not those it was accepted within, floating-point numbers apart
      ([stored_request_reads_back],
      [accepted_request_unreadable]); spellings follow the preferences
      ([language_preference]); subjects do not connect sectors
      ([pairwise_subjects_apart]); verified claims go no further than asked
      ([verified_release_is_limited]).
    - Authorization. [decide] is the table of its documentation ([decide_is_table]),
      silent exactly when nothing is owed ([silent_iff]), and [prompt=none] refuses
      where a page would be shown ([prompt_none_mirrors_pages]). A remembered consent
      covers what it should ([covered_iff]) and never widens ([memory_never_widens]);
      its window renews and role claims pass it by ([offline_window_renews],
      [role_claims_slip_past_consent]).
    - Interactions. However tabs, handlers and sweeps interleave, a pushed request is
      answered once ([one_answer_per_push]), by a person on its row, with what the
      form ticked of what was asked or what that person's grants cover
      ([answers_are_grounded], [stages_follow_proof]); an id
      replaced is dead ([replaced_interaction_is_inert]); conditional requirements
      only narrow ([conditional_only_narrows]). What the handlers do otherwise than
      they say: [sign_up_is_unreachable], [pending_totp_outlives_passkey],
      [passkey_leaves_token], [refused_decision_keeps_token].
    - Passkeys. The parsers of authenticator data stay within it and accept exactly
      its layout ([authenticator_data_never_panics], [registration_data_exact]); an
      assertion is accepted exactly where it proves possession
      ([assertion_proves_possession]). However ceremonies interleave a passkey signs
      in the account of the session that enrolled it, each ceremony over a challenge of
      its own ([passkey_signs_in_its_enroller]), a challenge is good for
      one ceremony ([challenge_answered_once]) and a blocked passkey is final
      ([blocked_passkey_is_final]). Counters increase where ceremonies take turns
      ([serial_counters_increase]) and not where they overlap
      ([counter_accepted_twice]); keys are accepted under which nothing verifies
      ([accepted_key_may_never_verify]).
    - Sessions. However lookups, logins, step-ups, revocations and sweeps take turns, a
      session has one id at a time and keeps its person and its end
      ([replaced_id_is_dead]), a revoked one changes no more
      ([revoked_session_is_frozen]), and what it or a grant of it says of how the person
      was authenticated rests on what they proved ([assurance_is_grounded]); what a login or
      a step-up leaves is exact ([establish_leaves]).
    - The grant repository. A stamped row lasts and a revocation is final for
      what was issued under the grant, and stops its claims ([stamped_grants_last],
      [grant_revocation_is_final]); its claim refines the entity's
      ([claim_refines_entity]); a live grant can always be revoked
      ([live_grant_is_revocable]). The issuance fence holds what it decided against
      every interleaving its locks allow ([fence_is_held],
      [fence_decides_authority]), so a revoked or amended ancestor stops issuance
      below it ([revocation_blocks_descendants],
      [amendment_withdraws_derived_authority]).
    - Device codes. One redemption per issue, by the approval and the client it was
      issued to ([device_code_redeemed_once], [device_code_answers]); the polling
      interval the device and the server keep is one
      ([obedient_device_never_slowed]); the user code is one string however it is
      typed ([user_code_round_trip]); the ceiling on failed confirmations has no
      effect ([failure_ceiling_never_reached]).
    - Signing keys. An algorithm that can sign never stops being able to
      ([signing_never_interrupted]); a key only moves forward
      ([key_history_one_way]), is published before it signs
      ([new_signer_was_published]) and is gone for good once purged
      ([purge_is_final]); a pass repeated changes nothing ([pass_settles]); the key
      set served is exact ([published_keys_exact]); one algorithm's grace period
      ends another's ([grace_of_another_schedule]). The histories are those of a tenant
      that stays; [KeysLaws.life_reach] adds its deletion, which the server never does.
      Over every interleaving of the
      signer's cache with the repository a token is signed with a key that is
      published at that instant, whose private half its own row held when it was read
      ([signed_with_published_key]).
    - Tokens and proofs of possession. A token is accepted exactly where it is genuine
      ([token_accepted_iff]); a thumbprint names one key ([thumbprint_names_one_key]). A
      request accepted with a proof has shown possession of the key it is bound to
      ([proof_binds]), once ([proof_used_once]) but for one instant
      ([proof_accepted_twice]); a nonce lives as long as it should ([nonce_lifetime]) and
      spellings of one path are one ([same_path_iff]).
    - Federation. A trust chain is accepted exactly where each statement is signed by who it
      was delegated to, from the pinned anchor down ([chain_accepted_iff],
      [intermediates_accepted_iff]), and the metadata it leaves obeys every superior
      ([metadata_obeys_superiors]).
    - Clients. Whatever interleaves, a request is let in only as a client registered and
      active since it was received, with proof by the one method it offered
      ([client_let_in_proved_itself]); an assertion is used once ([assertion_used_once]). What
      the code does otherwise than it says: [wrong_audience_panics],
      [withdrawn_keys_linger], [adopted_keys_of_another_url].
    - Client certificates. The names a registered distinguished name matches are one name,
      types compared as object identifiers ([registered_name_is_one]); where the reader
      departs from its comments is
      [der_read_otherwise].
    - Grants, sessions, roles, [acr]. Statuses change only as the code's own
      transition table says ([grant_lifecycle]); stored forms read back
      ([acr_policy_roundtrip], [validated_grant_scope_claim]); a session policy
      only shortens; role projections keep clients apart.
    - Rate limits. Windows tile time, buckets of different kinds never coincide
      (and of one kind only when the addresses or the hashes do), the admin limiter's bound holds over
      every interleaving and over any store that keeps the class's laws, a guard
      spends one bucket, overrides apply as validated.
    - Audit. The encoding is injective, verification names the first fault, and
      two verified trails that end in one hash are equal unless SHA-256 collides.

    ** What is a parameter

    Code outside the repository is an argument of the definitions that use it:
    SHA-256, base64 and hex, UUID parsing, [url::Url], [ipnet::IpNet], the JSON
    text reader and the length of JSON text, derived (de)serializers, the Unicode
    table of case folding beyond ASCII, the matching of a redemption's key, the stored form of an
    interaction's state, the check of a device's proof, the CBOR reader, the
    deserializers of client data and of entity statements, HMAC, form decoding, the path
    validation of [webpki] and the signature verifications of [aws-lc-rs].  What a handler of
    [Interaction] asks of a service is a field of [Interaction.World].  A theorem that relies on such code says so as a hypothesis
    (a UUID's canonical form parses to itself, a stored scope is read as the fields
    it was written from, a document fits in the length bound, JSON without floating-point
    numbers reads back as it was written), and its witness
    instantiates it.  No theorem assumes a hash is injective where it
    could not be: [tamper_evident] returns the collision instead.

    ** Numbers, bounds and fuel

    Instants and durations of the [time] crate are whole nanoseconds in [Z];
    where the code compares unix seconds, the definition converts.  Counters and maxima
    are [Z] with the code's saturation or range checks written out.  Strings are
    UTF-8 bytes, so [len] is [String.length] and [chars] is decoded where the code
    counts characters.

    Recursion over JSON, conditions and properties is structural, with the code's
    own budgets as arguments (nodes, depth 8, 64 conditions, 256 trace entries),
    so none of them is fuel.  Where the code loops over an explicit stack
    ([literals], [zones_defined]) the fuel is the number of nodes and the lemmas
    show that it empties the stack.  An uninterrupted redemption takes at most four
    statements; [redeem_outcomes] shows that the fallback of [Codes.redeem] for a
    fifth is never reached.

    ** What is not modelled

    Left out because it is I/O or presentation: HTTP routing and rendering, the pages and the
    admin console, metrics and logs, configuration, the outbound fetches, mail.
    Left out although it decides something: the issuance of tokens after a code or refresh
    token is accepted and the refresh handler around the rotation, the authorization response,
    JWE, shared signals and the outbox, the CIBA and token exchange grants, grant management
    and introspection, TOTP, and the handlers of the admin API.  SQL is modelled as the effect of its statements on
    the rows they name, under the isolation the code relies on (one statement is
    atomic, a transaction is one step); the migration triggers of agent tasks and
    of native SSO are left out, so [Refresh] and [Codes] speak of grants that have
    neither. *)

From Stdlib Require Export ZArith Lia Bool List.
From stdpp Require Export base strings list gmap sets pretty.
From Stdlib Require Ascii String.
From Stdlib Require Import Sorted.
Export Ascii.AsciiSyntax.

Export ListNotations.
#[export] Set Warnings "-deprecated".
#[export] Set Default Goal Selector "!".

(** ** The error type of fallible code *)

(** Rust's [Result]: every fallible operation of the modelled crates returns
    one. *)
Inductive result (A E : Type) : Type :=
| Ok (a : A)
| Err (e : E).
Arguments Ok {A E} a.
Arguments Err {A E} e.

Declare Scope idp_scope.
Delimit Scope idp_scope with idp.

(** The [?] operator. *)
Definition rbind {A B E} (r : result A E) (k : A -> result B E) : result B E :=
  match r with Ok a => k a | Err e => Err e end.

Notation "'let?' x ':=' r 'in' k" := (rbind r (fun x => k))
  (at level 10, x pattern, r at level 100, k at level 200) : idp_scope.
Notation "'guard?' b 'else' e 'in' k" := (if b : bool then k else Err e)
  (at level 10, b at level 100, e at level 100, k at level 200) : idp_scope.
Open Scope idp_scope.

(** [ok_or] / [ok_or_else]. *)
Definition ok_or {A E} (o : option A) (e : E) : result A E :=
  match o with Some a => Ok a | None => Err e end.

(** [map_err]. *)
Definition map_err {A E F} (f : E -> F) (r : result A E) : result A F :=
  match r with Ok a => Ok a | Err e => Err (f e) end.

(** A loop whose body may fail: the state is threaded from item to item. *)
Definition try_fold {A S E} (f : A -> S -> result S E) : list A -> S -> result S E :=
  fix go (l : list A) (s : S) : result S E :=
    match l with [] => Ok s | x :: r => rbind (f x s) (go r) end.

(** [collect::<Result<Vec<_>, _>>] over an enumerated iterator. *)
Definition try_mapi {A B E} (f : nat -> A -> result B E) : nat -> list A -> result (list B) E :=
  fix go (i : nat) (l : list A) : result (list B) E :=
    match l with
    | [] => Ok []
    | x :: r => rbind (f i x) (fun y => rbind (go (S i) r) (fun ys => Ok (y :: ys)))
    end.

(** The same with a state threaded from item to item. *)
Definition try_mapi_st {A B S E} (f : nat -> A -> S -> result (B * S) E)
  : nat -> list A -> S -> result (list B * S) E :=
  fix go (i : nat) (l : list A) (s : S) : result (list B * S) E :=
    match l with
    | [] => Ok ([], s)
    | x :: r =>
        rbind (f i x s) (fun '(y, s) =>
        rbind (go (Datatypes.S i) r s) (fun '(ys, s) => Ok (y :: ys, s)))
    end.

(** A loop over an enumerated iterator that threads its state. *)
Definition foldi {A S} (f : nat -> A -> S -> S) : nat -> list A -> S -> S :=
  fix go (i : nat) (l : list A) (s : S) : S :=
    match l with [] => s | x :: r => go (Datatypes.S i) r (f i x s) end.

(** [order by]: an insertion sort on the order of the clause. *)
Definition insert_by {A} (le : A -> A -> bool) (a : A) : list A -> list A :=
  fix go (l : list A) : list A :=
    match l with [] => [a] | b :: r => if le a b then a :: l else b :: go r end.
Definition sort_by {A} (le : A -> A -> bool) (l : list A) : list A :=
  fold_right (insert_by le) [] l.

Definition is_ok {A E} (r : result A E) : bool :=
  match r with Ok _ => true | Err _ => false end.

(** [Option::is_none_or] and [Option::is_some_and]. *)
Definition is_none_or {A} (p : A -> bool) (o : option A) : bool :=
  match o with None => true | Some a => p a end.
Definition is_some_and {A} (p : A -> bool) (o : option A) : bool :=
  match o with None => false | Some a => p a end.

Lemma Ok_inj {A E} (a b : A) : @Ok A E a = Ok b -> a = b.
Proof. by intros [= ->]. Qed.

Lemma rbind_Ok {A B E} (r : result A E) (k : A -> result B E) b :
  rbind r k = Ok b <-> exists a, r = Ok a /\ k a = Ok b.
Proof. destruct r; cbn; naive_solver. Qed.

Lemma ok_or_Ok {A E} (o : option A) (e : E) a : ok_or o e = Ok a <-> o = Some a.
Proof. destruct o; cbn; naive_solver. Qed.

Lemma map_err_Ok {A E F} (f : E -> F) (r : result A E) a :
  map_err f r = Ok a <-> r = Ok a.
Proof. destruct r; cbn; naive_solver. Qed.

Lemma try_mapi_all {A B E} (f : nat -> A -> result B E) (g : A -> B) i (l : list A) :
  (forall j x, In x l -> f j x = Ok (g x)) -> try_mapi f i l = Ok (map g l).
Proof.
  revert i. induction l as [|x l IH]; intros i H; [done|]. cbn.
  rewrite H by (by left). cbn. rewrite IH; [done|]. intros j y Hy. apply H. by right.
Qed.

(** A filter that keeps all or nothing. *)
Lemma filter_all {A} (p : A -> bool) b l : Forall (fun a => p a = b) l -> List.filter p l = if b then l else [].
Proof. induction 1 as [|a l Ha Hl IH]; cbn; [by destruct b|]. rewrite Ha, IH. by destruct b. Qed.

(** A loop that keeps a property of its state. *)
Lemma try_fold_invariant_In {A S E} (P : S -> Prop) (f : A -> S -> result S E) l s s' :
  (forall a s s', In a l -> P s -> f a s = Ok s' -> P s') ->
  P s -> try_fold f l s = Ok s' -> P s'.
Proof.
  revert s. induction l as [|a l IH]; intros s Hf Hs H; cbn in H; [by injection H as <-|].
  apply rbind_Ok in H as (t & Ht & H). eapply IH; [|eapply Hf; [by left|exact Hs|exact Ht]|exact H].
  intros b u u' Hb. apply Hf. by right.
Qed.

Lemma try_fold_invariant {A S E} (P : S -> Prop) (f : A -> S -> result S E) l s s' :
  (forall a s s', P s -> f a s = Ok s' -> P s') ->
  P s -> try_fold f l s = Ok s' -> P s'.
Proof. intros Hf. apply try_fold_invariant_In. intros a t t' _. apply Hf. Qed.

Lemma try_mapi_Forall2 {A B X} (f : A -> result B X) i l l' :
  try_mapi (fun _ a => f a) i l = Ok l' <-> Forall2 (fun a b => f a = Ok b) l l'.
Proof.
  revert i l'. induction l as [|a l IH]; intros i l'; cbn.
  - split; [intros [= <-]; constructor|by inversion 1].
  - rewrite rbind_Ok. split.
    + intros (b & Hb & H). apply rbind_Ok in H as (bs & Hbs & [= <-]). constructor; [done|]. by apply (IH (S i)).
    + inversion 1; subst. eexists. split; [done|]. apply rbind_Ok. eexists. split; [by apply (IH (S i))|done].
Qed.

Lemma guard_Ok {A X} (b : bool) (e : X) (k : result A X) a : (guard? b else e in k) = Ok a <-> b = true /\ k = Ok a.
Proof. destruct b; naive_solver. Qed.

Lemma rbind_unit {X B} (r : result unit X) (k : result B X) b : (let? _ := r in k) = Ok b <-> r = Ok tt /\ k = Ok b.
Proof. rewrite rbind_Ok. split; [by intros ([] & ? & ?)|intros [? ?]; by exists tt]. Qed.

(** What one item brings about and every item keeps. *)
Lemma try_fold_reaches {A S X} (P : S -> Prop) (f : A -> S -> result S X) l s s' a :
  In a l -> (forall s s', f a s = Ok s' -> P s') -> (forall b s s', P s -> f b s = Ok s' -> P s') ->
  try_fold f l s = Ok s' -> P s'.
Proof.
  intros Hin Ha Hk. revert s. induction l as [|b l IH]; intros s H; [done|]. cbn in H.
  apply rbind_Ok in H as (t & Ht & H). destruct Hin as [->|Hin]; [|by eapply IH].
  eapply try_fold_invariant; [exact Hk|eapply Ha, Ht|exact H].
Qed.

(** What one entry of a map brings about and the others keep. *)
Lemma try_fold_keyed {K V S X} (P : S -> Prop) (f : K * V -> S -> result S X) l s s' k v :
  NoDup (map fst l) -> In (k, v) l -> (forall s s', f (k, v) s = Ok s' -> P s') ->
  (forall k' v' s s', k' <> k -> P s -> f (k', v') s = Ok s' -> P s') ->
  try_fold f l s = Ok s' -> P s'.
Proof.
  intros Hnd Hin Ha Hk. revert s. induction l as [|[k' v'] l IH]; intros s H; [done|]. cbn in H, Hnd.
  apply rbind_Ok in H as (t & Ht & H). apply NoDup_cons in Hnd as [Hni Hnd]. destruct Hin as [[= -> ->]|Hin]; [|by eapply IH].
  eapply (try_fold_invariant_In P f l); [|eapply Ha, Ht|exact H]. intros [k2 v2] u u' Hin2 Hu Hu'.
  eapply Hk; [|exact Hu|exact Hu']. intros ->. apply Hni. rewrite list_elem_of_In. by apply (in_map fst) in Hin2.
Qed.

(** A loop whose body does not fail. *)
(** What a sequence of events loses, one of them loses. *)
Lemma fold_left_loses {S Ev} (f : S -> Ev -> S) (has : S -> Prop) (loses : Ev -> Prop) `{!forall s, Decision (has s)} :
  (forall s ev, has s -> ~ has (f s ev) -> loses ev) ->
  forall evs s, has s -> ~ has (fold_left f evs s) -> exists ev, In ev evs /\ loses ev.
Proof.
  intros Hf. induction evs as [|ev evs IH]; intros s Hs Hn; cbn in Hn; [done|].
  destruct (decide (has (f s ev))) as [Hk|Hk].
  - destruct (IH _ Hk Hn) as (ev' & Hin & Hl). exists ev'. split; [by right|done].
  - exists ev. split; [by left|by eapply Hf].
Qed.

Lemma try_fold_ok {A S E} (f : A -> S -> result S E) (g : S -> A -> S) l s :
  (forall a s, In a l -> f a s = Ok (g s a)) -> try_fold f l s = Ok (fold_left g l s).
Proof.
  revert s. induction l as [|a l IH]; intros s Hf; [done|]. cbn. rewrite Hf by by left. cbn.
  apply IH. intros b t Hb. apply Hf. by right.
Qed.

Lemma insert_by_Permutation {A} (le : A -> A -> bool) a l : insert_by le a l ≡ₚ a :: l.
Proof.
  induction l as [|b l IH]; cbn; [done|]. destruct (le a b); [done|]. rewrite IH. apply perm_swap.
Qed.

Lemma sort_by_Permutation {A} (le : A -> A -> bool) l : sort_by le l ≡ₚ l.
Proof. induction l as [|a l IH]; cbn; [done|]. by rewrite insert_by_Permutation, IH. Qed.

Lemma In_sort_by {A} (le : A -> A -> bool) l a : In a (sort_by le l) <-> In a l.
Proof. rewrite <- !list_elem_of_In. by rewrite sort_by_Permutation. Qed.

(** Sorted by any preorder that the clause refines and decides. *)
Section Sorting.
Context {A : Type} (le : A -> A -> bool) (R : A -> A -> Prop) `{!Transitive R}.
Hypothesis le_true : forall a b, le a b = true -> R a b.
Hypothesis le_false : forall a b, le a b = false -> R b a.

Lemma insert_by_sorted a l : StronglySorted R l -> StronglySorted R (insert_by le a l).
Proof using All.
  induction l as [|b l IH]; cbn; intros Hs; [by repeat constructor|].
  apply StronglySorted_inv in Hs as [Hl Hb]. destruct (le a b) eqn:Hab.
  - constructor; [by constructor|]. constructor; [auto|].
    eapply Forall_impl; [exact Hb|]. intros c Hc. etrans; eauto.
  - constructor; [by apply IH|]. rewrite insert_by_Permutation. constructor; auto.
Qed.

Lemma sort_by_sorted l : StronglySorted R (sort_by le l).
Proof using All. induction l as [|a l IH]; cbn; [constructor|by apply insert_by_sorted]. Qed.
End Sorting.

(** ** Automation *)

(** Peels a successful computation: every [let?], [ok_or], [guard?] and match
    on the way to an [Ok] becomes an equation about the value it produced. *)
Ltac ok_step :=
  match goal with
  | H : rbind _ _ = Ok _ |- _ =>
      apply rbind_Ok in H; let a := fresh "a" in let E := fresh "E" in
      destruct H as (a & E & H)
  | H : ok_or _ _ = Ok _ |- _ => apply ok_or_Ok in H
  | H : map_err _ _ = Ok _ |- _ => apply map_err_Ok in H
  | H : Ok _ = Ok _ |- _ => apply Ok_inj in H
  | H : Err _ = Ok _ |- _ => discriminate H
  | H : Ok _ = Err _ |- _ => discriminate H
  | H : (if ?b then Err _ else _) = Ok _ |- _ => destruct b eqn:?; [discriminate H|]
  | H : (if ?b then _ else Err _) = Ok _ |- _ => destruct b eqn:?; [|discriminate H]
  end.
Ltac ok_inv := repeat ok_step.

(** Rewrites the conditions of the goal's [if]s with the hypotheses that decide
    them. *)
Ltac rewrite_conds :=
  repeat match goal with H : ?b = _ |- context [if ?b then _ else _] => rewrite H end.

(** The check a successful computation starts with has passed. *)
Ltac passed H Hc := match type of H with (if ?b then Err _ else _) = Ok _ => destruct b eqn:Hc; [discriminate H|] end.

(** Turns boolean hypotheses into propositions. *)
Ltac bool_hyps :=
  repeat match goal with
  | H : _ && _ = true |- _ => apply andb_true_iff in H; destruct H
  | H : _ || _ = false |- _ => apply orb_false_iff in H; destruct H
  | H : negb _ = true |- _ => apply negb_true_iff in H
  | H : negb _ = false |- _ => apply negb_false_iff in H
  | H : (_ <? _)%Z = true |- _ => apply Z.ltb_lt in H
  | H : (_ <? _)%Z = false |- _ => apply Z.ltb_ge in H
  | H : (_ <=? _)%Z = true |- _ => apply Z.leb_le in H
  | H : (_ <=? _)%Z = false |- _ => apply Z.leb_gt in H
  | H : (_ =? _)%Z = true |- _ => apply Z.eqb_eq in H
  | H : (_ =? _)%Z = false |- _ => apply Z.eqb_neq in H
  | H : (_ <? _)%nat = true |- _ => apply Nat.ltb_lt in H
  | H : (_ <? _)%nat = false |- _ => apply Nat.ltb_ge in H
  | H : (_ <=? _)%nat = true |- _ => apply Nat.leb_le in H
  | H : (_ <=? _)%nat = false |- _ => apply Nat.leb_gt in H
  | H : (_ =? _)%nat = true |- _ => apply Nat.eqb_eq in H
  | H : (_ =? _)%nat = false |- _ => apply Nat.eqb_neq in H
  | H : String.eqb _ _ = true |- _ => apply String.eqb_eq in H
  | H : String.eqb _ _ = false |- _ => apply String.eqb_neq in H
  | H : bool_decide _ = true |- _ => apply bool_decide_eq_true in H
  | H : bool_decide _ = false |- _ => apply bool_decide_eq_false in H
  end.

Create HintDb idp discriminated.
#[export] Hint Constructors StronglySorted : idp.

Delimit Scope char_scope with char.

(** ** Strings: a Rust [str] is its UTF-8 bytes *)

(** [str::len]: bytes. *)
Definition slen (s : string) : Z := Z.of_nat (String.length s).

Fixpoint bytes_of (s : string) : list Z :=
  match s with
  | EmptyString => []
  | String.String c r => Z.of_N (Ascii.N_of_ascii c) :: bytes_of r
  end.

(** [str::chars] over the bytes of a valid UTF-8 string: the lead byte says how
    many continuation bytes follow. *)
Fixpoint decode_utf8 (bs : list Z) : list Z :=
  match bs with
  | [] => []
  | b0 :: r0 =>
      if (b0 <? 0x80)%Z then b0 :: decode_utf8 r0
      else match r0 with
      | [] => [b0]
      | b1 :: r1 =>
          if (b0 <? 0xE0)%Z
          then Z.lor (Z.shiftl (Z.land b0 0x1F) 6) (Z.land b1 0x3F) :: decode_utf8 r1
          else match r1 with
          | [] => [b0]
          | b2 :: r2 =>
              if (b0 <? 0xF0)%Z
              then Z.lor (Z.shiftl (Z.land b0 0x0F) 12)
                     (Z.lor (Z.shiftl (Z.land b1 0x3F) 6) (Z.land b2 0x3F))
                   :: decode_utf8 r2
              else match r2 with
              | [] => [b0]
              | b3 :: r3 =>
                  Z.lor (Z.shiftl (Z.land b0 0x07) 18)
                    (Z.lor (Z.shiftl (Z.land b1 0x3F) 12)
                       (Z.lor (Z.shiftl (Z.land b2 0x3F) 6) (Z.land b3 0x3F)))
                  :: decode_utf8 r3
              end
          end
      end
  end.

Definition chars (s : string) : list Z := decode_utf8 (bytes_of s).

Definition in_range (lo hi c : Z) : bool := (lo <=? c)%Z && (c <=? hi)%Z.

(** [char::is_control]: general category Cc. *)
Definition is_control (c : Z) : bool := in_range 0 0x1F c || in_range 0x7F 0x9F c.

(** [char::is_whitespace]: the White_Space property. *)
Definition is_whitespace (c : Z) : bool :=
  in_range 9 13 c || (c =? 0x20)%Z || (c =? 0x85)%Z || (c =? 0xA0)%Z
  || (c =? 0x1680)%Z || in_range 0x2000 0x200A c || (c =? 0x2028)%Z
  || (c =? 0x2029)%Z || (c =? 0x202F)%Z || (c =? 0x205F)%Z || (c =? 0x3000)%Z.

Definition is_ascii_lower (c : Z) : bool := in_range 97 122 c.
Definition is_ascii_upper (c : Z) : bool := in_range 65 90 c.
Definition is_ascii_digit (c : Z) : bool := in_range 48 57 c.
Definition is_ascii_alphanumeric (c : Z) : bool :=
  is_ascii_lower c || is_ascii_upper c || is_ascii_digit c.

Definition has_control (s : string) : bool := existsb is_control (chars s).

Definition is_empty (s : string) : bool :=
  match s with EmptyString => true | _ => false end.

(** [str::starts_with] on a literal. *)
Definition starts_with (p s : string) : bool := String.prefix p s.

Fixpoint in_strings (x : string) (l : list string) : bool :=
  match l with [] => false | y :: r => String.eqb x y || in_strings x r end.

Lemma in_strings_In x l : in_strings x l = true <-> In x l.
Proof.
  induction l as [|y r IH]; cbn; [naive_solver|].
  rewrite orb_true_iff, String.eqb_eq, IH. naive_solver.
Qed.

Lemma is_empty_true s : is_empty s = true <-> s = EmptyString.
Proof. destruct s; naive_solver. Qed.

(** [str::split] on a one-byte separator: always at least one piece. *)
Fixpoint split_on (sep : Ascii.ascii) (s : string) : list string :=
  match s with
  | EmptyString => [EmptyString]
  | String.String c r =>
      if Ascii.eqb c sep then EmptyString :: split_on sep r
      else match split_on sep r with
           | [] => [String.String c EmptyString]
           | p :: ps => String.String c p :: ps
           end
  end.

(** [[String]::join]. *)
Fixpoint join (sep : string) (l : list string) : string :=
  match l with
  | [] => EmptyString
  | [x] => x
  | x :: r => String.append x (String.append sep (join sep r))
  end.

(** [str::bytes().all(..)] *)
Definition all_bytes (p : Z -> bool) (s : string) : bool := forallb p (bytes_of s).

Lemma all_bytes_cons p c s :
  all_bytes p (String.String c s) = p (Z.of_N (Ascii.N_of_ascii c)) && all_bytes p s.
Proof. done. Qed.

Definition free_of (sep : Ascii.ascii) (s : string) : Prop :=
  all_bytes (fun b => negb (b =? Z.of_N (Ascii.N_of_ascii sep))%Z) s = true.

Lemma free_of_cons sep c s :
  free_of sep (String.String c s) <-> Ascii.eqb c sep = false /\ free_of sep s.
Proof.
  unfold free_of. rewrite all_bytes_cons, andb_true_iff, negb_true_iff.
  assert (Z.of_N (Ascii.N_of_ascii c) =? Z.of_N (Ascii.N_of_ascii sep) =
          Ascii.eqb c sep)%Z as ->; [|done].
  destruct (Ascii.eqb_spec c sep) as [->|Hne]; [by rewrite Z.eqb_refl|].
  apply Z.eqb_neq. intros E. apply Hne. apply N2Z.inj in E.
  by rewrite <- (Ascii.ascii_N_embedding c), E, Ascii.ascii_N_embedding.
Qed.

Lemma split_on_free sep s : free_of sep s -> split_on sep s = [s].
Proof.
  induction s as [|c s IH]; cbn; [done|]. intros [Hc Hs]%free_of_cons.
  rewrite Hc. by rewrite IH.
Qed.

Lemma split_on_app sep x r :
  free_of sep x ->
  split_on sep (String.append x (String.append (String.String sep EmptyString) r)) =
  x :: split_on sep r.
Proof.
  induction x as [|c x IH]; intros Hx.
  - change (split_on sep (String.append EmptyString
      (String.append (String.String sep EmptyString) r)))
      with (if Ascii.eqb sep sep then EmptyString :: split_on sep r
            else match split_on sep r with
                 | [] => [String.String sep EmptyString]
                 | p :: ps => String.String sep p :: ps
                 end).
    by rewrite Ascii.eqb_refl.
  - apply free_of_cons in Hx as [Hc Hx].
    change (String.append (String.String c x) ?t) with (String.String c (String.append x t)).
    cbn [split_on]. rewrite Hc, IH by done. done.
Qed.

(** Joining pieces that do not contain the separator is undone by splitting. *)
Lemma split_join sep l :
  l <> [] -> Forall (free_of sep) l ->
  split_on sep (join (String.String sep EmptyString) l) = l.
Proof.
  intros Hne Hl. induction Hl as [|x r Hx Hr IH]; [done|].
  destruct r as [|y r]; [by apply split_on_free|].
  cbn [join]. rewrite split_on_app by done. f_equal. by apply IH.
Qed.

Lemma split_on_spec sep s :
  split_on sep s <> [] /\ Forall (free_of sep) (split_on sep s) /\
  join (String.String sep EmptyString) (split_on sep s) = s.
Proof.
  induction s as [|c s (Hne & Hf & Hj)]; cbn [split_on]; [by repeat constructor|].
  destruct (split_on sep s) as [|p ps] eqn:Hs; [done|]. destruct (Ascii.eqb c sep) eqn:Hc.
  - apply Ascii.eqb_eq in Hc as ->. split; [done|]. split; [by constructor|].
    change (join ?d (?a :: ?b :: ?l)) with (a +:+ d +:+ join d (b :: l))%string. by rewrite Hj.
  - apply Forall_cons in Hf as [Hp Hps]. split; [done|]. split; [constructor; [by apply free_of_cons|done]|].
    destruct ps; cbn in *; by rewrite <- Hj.
Qed.

(** The pieces of a text are the texts without the separator it is joined of. *)
Lemma split_on_iff sep s l :
  split_on sep s = l <-> l <> [] /\ Forall (free_of sep) l /\ join (String.String sep EmptyString) l = s.
Proof.
  split; [intros <-; apply split_on_spec|]. intros (Hne & Hf & <-). by apply split_join.
Qed.

Lemma length_bytes_of s : length (bytes_of s) = String.length s.
Proof. induction s; cbn; congruence. Qed.

Lemma bytes_of_inj a b : bytes_of a = bytes_of b -> a = b.
Proof.
  revert b. induction a as [|c a IH]; intros [|d b]; cbn; try done.
  intros [= Hc H]. apply N2Z.inj in Hc. f_equal; [|by apply IH].
  by rewrite <- (Ascii.ascii_N_embedding c), Hc, Ascii.ascii_N_embedding.
Qed.

(** ** [str::split_whitespace]

    On the bytes of valid UTF-8: the length of the white-space character a
    string starts with, zero where it starts with another. *)

Definition white_space_len (s : string) : nat :=
  match bytes_of (String.substring 0 3 s) with
  | (9 | 10 | 11 | 12 | 13 | 32)%Z :: _ => 1
  | 0xC2%Z :: (0x85 | 0xA0)%Z :: _ => 2
  | 0xE1%Z :: 0x9A%Z :: 0x80%Z :: _ => 3
  | 0xE2%Z :: 0x80%Z :: b :: _ =>
      if in_range 0x80 0x8A b || (b =? 0xA8)%Z || (b =? 0xA9)%Z || (b =? 0xAF)%Z then 3 else 0
  | 0xE2%Z :: 0x81%Z :: 0x9F%Z :: _ => 3
  | 0xE3%Z :: 0x80%Z :: 0x80%Z :: _ => 3
  | _ => 0
  end.

(** The pieces between white-space characters, empty ones included; [skip] bytes
    of the character being passed are left. *)
Fixpoint white_space_pieces (skip : nat) (s : string) : list string :=
  match s with
  | EmptyString => [EmptyString]
  | String c r =>
      match skip with
      | S skip => white_space_pieces skip r
      | O =>
          match white_space_len s with
          | S skip => EmptyString :: white_space_pieces skip r
          | O =>
              match white_space_pieces 0 r with
              | p :: rest => String c p :: rest
              | [] => [String c EmptyString]
              end
          end
      end
  end.

Definition split_whitespace (s : string) : list string :=
  List.filter (fun p => negb (is_empty p)) (white_space_pieces 0 s).

(** [secret::ct_eq]: equality of byte strings, in constant time. *)
Definition ct_eq (left right : list Z) : bool := bool_decide (left = right).

Lemma ct_eq_strings a b : ct_eq (bytes_of a) (bytes_of b) = true <-> a = b.
Proof. unfold ct_eq. rewrite bool_decide_eq_true. split; [apply bytes_of_inj|naive_solver]. Qed.

(** ** Instants and durations

    [OffsetDateTime] and [Duration], in nanoseconds. [whole_seconds] truncates towards zero;
    [unix_timestamp] is the floor. *)

Definition NANOS : Z := 1000000000.
Definition seconds (n : Z) : Z := (n * NANOS)%Z.
Definition minutes (n : Z) : Z := seconds (60 * n)%Z.
Definition hours (n : Z) : Z := minutes (60 * n)%Z.
Definition days (n : Z) : Z := hours (24 * n)%Z.
Definition whole_seconds (d : Z) : Z := Z.quot d NANOS.
Definition unix_timestamp (now : Z) : Z := (now / NANOS)%Z.
