(* ===== verification/Text.v ===== *)
(** * Rust's [str] methods

    What the modelled crates use of the standard library's strings, over the UTF-8 bytes
    of a [str]. *)

From S2P Require Import Prelude.

(** [str::contains], of a character and of a string. *)
Fixpoint contains_char (c : Ascii.ascii) (s : string) : bool :=
  match s with
  | EmptyString => false
  | String.String d r => Ascii.eqb d c || contains_char c r
  end.
Fixpoint contains (p s : string) : bool :=
  starts_with p s || match s with EmptyString => false | String.String _ r => contains p r end.

(** [&s[n..]]. *)
Fixpoint skip (n : nat) (s : string) : string :=
  match n, s with
  | S n, String.String _ r => skip n r
  | _, _ => s
  end.

Definition ends_with (p s : string) : bool :=
  (String.length p <=? String.length s)%nat
  && String.eqb (skip (String.length s - String.length p) s) p.

(** [str::strip_prefix], of a character. *)
Definition strip_char (c : Ascii.ascii) (s : string) : option string :=
  match s with
  | String.String d r => if Ascii.eqb d c then Some r else None
  | EmptyString => None
  end.

Fixpoint split_once (sep : Ascii.ascii) (s : string) : option (string * string) :=
  match s with
  | EmptyString => None
  | String.String c r =>
      if Ascii.eqb c sep then Some (""%string, r)
      else match split_once sep r with
           | Some (a, b) => Some (String.String c a, b)
           | None => None
           end
  end.

(** [str::eq_ignore_ascii_case]. *)
Definition to_ascii_lowercase (b : Z) : Z := if is_ascii_upper b then (b + 32)%Z else b.
Definition eq_ignore_ascii_case (s t : string) : bool :=
  bool_decide (map to_ascii_lowercase (bytes_of s) = map to_ascii_lowercase (bytes_of t)).

(** [str::trim]. *)
Definition is_blank (s : string) : bool := forallb is_empty (white_space_pieces 0 s).
Fixpoint trim_start_from (fuel : nat) (s : string) : string :=
  match fuel with
  | O => s
  | S fuel => match white_space_len s with O => s | n => trim_start_from fuel (skip n s) end
  end.
Definition trim_start (s : string) : string := trim_start_from (String.length s) s.
Fixpoint trim_end (s : string) : string :=
  if is_blank s then EmptyString
  else match s with EmptyString => EmptyString | String.String c r => String.String c (trim_end r) end.
Definition trim (s : string) : string := trim_end (trim_start s).

Example trim_cuts_both_ends : trim "	 a b  " = "a b"%string.
Proof. reflexivity. Qed.

(** ** Laws *)

Lemma append_assoc (a b c : string) : (a +:+ (b +:+ c) = (a +:+ b) +:+ c)%string.
Proof. induction a as [|x a IH]; [done|]. exact (f_equal (String.String x) IH). Qed.

Lemma append_empty_r (s : string) : (s +:+ "")%string = s.
Proof. induction s as [|c s IH]; [done|]. change (String.String c (s +:+ "") = String.String c s)%string. by rewrite IH. Qed.

Lemma ends_with_app p s : ends_with p s = true -> exists q, s = (q ++ p)%string.
Proof.
  unfold ends_with. intros [Hl%Nat.leb_le He%String.eqb_eq]%andb_true_iff.
  revert He. generalize (String.length s - String.length p)%nat as n. clear Hl.
  induction s as [|c s IH]; intros n He.
  - exists EmptyString. destruct n; cbn in He; by subst.
  - destruct n as [|n]; [exists EmptyString; cbn in He; by subst|].
    destruct (IH n He) as [q ->]. by exists (String.String c q).
Qed.

Lemma strip_char_Some c s r : strip_char c s = Some r <-> s = String.String c r.
Proof.
  destruct s as [|d s]; cbn; [done|]. destruct (Ascii.eqb_spec d c) as [->|Hne]; cbn; split; congruence.
Qed.

Lemma split_once_Some sep s a b :
  split_once sep s = Some (a, b) <-> s = (a ++ String.String sep b)%string /\ contains_char sep a = false.
Proof.
  revert a b. induction s as [|c s IH]; intros a b; cbn [split_once].
  { split; [done|]. intros [H _]. by destruct a. }
  destruct (Ascii.eqb_spec c sep) as [->|Hne].
  - split; [by intros [= <- <-]|]. intros [H Ha]. destruct a as [|d a]; [by injection H as ->|injection H as Hd Hs].
    subst d. cbn in Ha. by rewrite Ascii.eqb_refl in Ha.
  - transitivity (exists a', a = String.String c a' /\ split_once sep s = Some (a', b)).
    { destruct (split_once sep s) as [[a0 b0]|]; [|split; [done|by intros (? & _ & ?)]].
      split; [intros [= <- <-]; by exists a0|]. intros (a' & -> & [= -> ->]). done. }
    split.
    + intros (a' & -> & [-> Ha]%IH). split; [done|]. cbn. rewrite Ha. by apply Ascii.eqb_neq in Hne as ->.
    + intros [H Ha]. destruct a as [|d a]; [by injection H as ->|injection H as Hd Hs]. subst d. exists a.
      split; [done|]. apply IH. cbn in Ha. apply orb_false_iff in Ha as [_ Ha]. done.
Qed.

Lemma split_once_None sep s : split_once sep s = None <-> contains_char sep s = false.
Proof.
  induction s as [|c s IH]; cbn [split_once contains_char]; [done|]. destruct (Ascii.eqb c sep); [done|].
  rewrite orb_false_l, <- IH. by destruct (split_once sep s) as [[]|].
Qed.

Lemma eq_ignore_ascii_case_refl s : eq_ignore_ascii_case s s = true.
Proof. by apply bool_decide_eq_true. Qed.
