(* ===== verification/Bytes.v ===== *)
(** * Integers as bytes

    [to_be_bytes] and [from_be_bytes] of Rust's integers: the encoding, its inverse, and what
    determines the number it was written from. *)

From S2P Require Import Prelude.
Open Scope Z_scope.

Definition byte_of (c : Ascii.ascii) : Z := Z.of_N (Ascii.N_of_ascii c).
Definition char_of (b : Z) : Ascii.ascii := Ascii.ascii_of_N (Z.to_N b).
Definition string_of_bytes (b : list Z) : string := String.string_of_list_ascii (map char_of b).

Definition is_byte (z : Z) : Prop := 0 <= z < 256.

(** [to_be_bytes] of a [k]-byte integer, in two's complement. *)
Fixpoint be_bytes (k : nat) (z : Z) : list Z :=
  match k with
  | O => []
  | S k => be_bytes k (z / 256) ++ [z mod 256]
  end.
Definition from_be_bytes (b : list Z) : Z := fold_left (fun acc x => acc * 256 + x) b 0.

Lemma from_be_snoc b x : from_be_bytes (b ++ [x]) = from_be_bytes b * 256 + x.
Proof. unfold from_be_bytes. by rewrite fold_left_app. Qed.

Lemma be_bytes_length n z : length (be_bytes n z) = n.
Proof. revert z. induction n as [|n IH]; intros z; cbn [be_bytes]; [done|]. rewrite length_app, IH. cbn. lia. Qed.

Lemma from_to_be n z : 0 <= z < 256 ^ Z.of_nat n -> from_be_bytes (be_bytes n z) = z.
Proof.
  revert z. induction n as [|n IH]; intros z Hz; [cbn in *; lia|].
  cbn [be_bytes]. rewrite from_be_snoc. rewrite Nat2Z.inj_succ, Z.pow_succ_r in Hz by lia.
  rewrite IH by (split; [apply Z.div_pos; lia|apply Z.div_lt_upper_bound; lia]).
  pose proof (Z.div_mod z 256). lia.
Qed.

Lemma to_from_be b : Forall is_byte b -> be_bytes (length b) (from_be_bytes b) = b.
Proof.
  induction b as [|b x IH] using rev_ind; [done|]. intros [Hb [Hx _]%Forall_cons]%Forall_app.
  rewrite length_app, Nat.add_comm, from_be_snoc. cbn [Nat.add be_bytes length]. unfold is_byte in Hx.
  rewrite Z.div_add_l, Z.div_small, Z.add_0_r, IH by (done || lia).
  f_equal. f_equal. rewrite Z.add_comm, Z.mod_add, Z.mod_small by lia. done.
Qed.

Lemma from_be_range b : Forall is_byte b -> 0 <= from_be_bytes b < 256 ^ Z.of_nat (length b).
Proof.
  induction b as [|b x IH] using rev_ind; [done|]. intros [Hb [Hx _]%Forall_cons]%Forall_app.
  specialize (IH Hb). unfold is_byte in Hx. rewrite length_app, from_be_snoc. cbn [length].
  rewrite Nat2Z.inj_add, Z.pow_add_r by lia. change (256 ^ Z.of_nat 1) with 256. lia.
Qed.

Lemma be_bytes_inj k n m :
  be_bytes k n = be_bytes k m -> n mod 256 ^ Z.of_nat k = m mod 256 ^ Z.of_nat k.
Proof.
  revert n m. induction k as [|k IH]; intros n m; cbn [be_bytes].
  - intros _. by rewrite !Z.mod_1_r.
  - intros [Hr%IH H0]%app_inj_tail.
    rewrite Nat2Z.inj_succ, Z.pow_succ_r by lia.
    by rewrite !Z.rem_mul_r, H0, Hr by (try apply Z.pow_pos_nonneg; lia).
Qed.

(** A signed integer of [k] bytes is determined by its encoding. *)
Lemma be_bytes_signed k n m :
  (- 2 ^ (8 * Z.of_nat k - 1) <= n < 2 ^ (8 * Z.of_nat k - 1))%Z ->
  (- 2 ^ (8 * Z.of_nat k - 1) <= m < 2 ^ (8 * Z.of_nat k - 1))%Z ->
  (0 < k)%nat -> be_bytes k n = be_bytes k m -> n = m.
Proof.
  intros Hn Hm Hk H%be_bytes_inj.
  change 256%Z with (2 ^ 8)%Z in H. rewrite <- Z.pow_mul_r in H by lia.
  replace (8 * Z.of_nat k)%Z with (Z.succ (8 * Z.of_nat k - 1)) in H by lia.
  rewrite Z.pow_succ_r in H by lia.
  set (h := (2 ^ (8 * Z.of_nat k - 1))%Z) in *.
  assert (0 < h)%Z by (apply Z.pow_pos_nonneg; lia).
  pose proof (Z.div_mod n (2 * h) ltac:(lia)). pose proof (Z.div_mod m (2 * h) ltac:(lia)).
  assert (n / (2 * h) - m / (2 * h) = 0)%Z; [|nia].
  assert (n - m = (2 * h) * (n / (2 * h) - m / (2 * h)))%Z by nia.
  nia.
Qed.

Lemma be_bytes_unsigned k n m :
  (0 <= n < 256 ^ Z.of_nat k)%Z -> (0 <= m < 256 ^ Z.of_nat k)%Z ->
  be_bytes k n = be_bytes k m -> n = m.
Proof. intros Hn Hm H%be_bytes_inj. by rewrite !Z.mod_small in H. Qed.
