(* ===== verification/BTree.v ===== *)
(** * Ordered collections

    Rust's [BTreeSet] and [BTreeMap] as strictly sorted lists, over a class of
    totally ordered keys. Iteration order is observable in the modelled code
    (canonical JSON, candidate lists cut at a bound), so the collections are
    kept as the sequences the iterators produce. *)

From S2P Require Import Prelude.
From Stdlib Require Ascii String.
From Stdlib Require Import Sorted.

(** Rust's [Ord]: a total order whose equality is [=]. *)
Class Ord (K : Type) := {
  cmp : K -> K -> comparison;
  cmp_eq : forall a b, cmp a b = Eq <-> a = b;
  cmp_antisym : forall a b, cmp b a = CompOpp (cmp a b);
  cmp_trans : forall a b c, cmp a b = Lt -> cmp b c = Lt -> cmp a c = Lt
}.

Section OrdFacts.
Context {K : Type} `{Ord K}.
Implicit Types a b c : K.

Lemma cmp_refl a : cmp a a = Eq.
Proof. by apply cmp_eq. Qed.

Lemma cmp_gt a b : cmp a b = Gt <-> cmp b a = Lt.
Proof. rewrite (cmp_antisym a b). destruct (cmp a b); cbn; naive_solver. Qed.

Lemma cmp_lt_ne a b : cmp a b = Lt -> a <> b.
Proof. intros Hlt ->. rewrite cmp_refl in Hlt. discriminate. Qed.

#[export] Instance ord_eq_dec : EqDecision K | 100.
Proof.
  intros a b. destruct (cmp a b) eqn:E.
  - left. by apply cmp_eq.
  - right. by apply cmp_lt_ne.
  - right. apply cmp_gt in E. apply not_eq_sym. by apply cmp_lt_ne.
Defined.
End OrdFacts.

(** ** Orders of the key types in use *)

(** [str]'s order is the order of its bytes. *)
#[export] Instance string_ord : Ord string.
Proof.
  refine {| cmp := String.compare |}.
  - intros a b. split; [apply String.compare_eq_iff|].
    intros ->. induction b as [|c b IH]; cbn; [done|].
    unfold Ascii.compare. by rewrite N.compare_refl.
  - intros a b. apply String.compare_antisym.
  - intros a. induction a as [|x a IH]; intros [|y b] [|z c]; cbn; try done.
    unfold Ascii.compare. intros H1 H2.
    destruct (N.compare_spec (Ascii.N_of_ascii x) (Ascii.N_of_ascii y)) as [E|E|E]; [| |done];
    destruct (N.compare_spec (Ascii.N_of_ascii y) (Ascii.N_of_ascii z)) as [F|F|F]; try done;
    destruct (N.compare_spec (Ascii.N_of_ascii x) (Ascii.N_of_ascii z)) as [G|G|G];
      try lia; eauto.
Defined.

(** An order transported along an injection, as [derive(Ord)] gives a newtype
    or a C-like enum. *)
Definition ord_via {A B} `{Ord B} (f : A -> B)
    (inj : forall x y, f x = f y -> x = y) : Ord A.
Proof.
  refine {| cmp x y := cmp (f x) (f y) |}.
  - intros x y. rewrite cmp_eq. naive_solver.
  - intros x y. apply cmp_antisym.
  - intros x y z. apply cmp_trans.
Defined.

#[export] Instance nat_ord : Ord nat.
Proof.
  refine {| cmp := Nat.compare |}.
  - intros a b. apply Nat.compare_eq_iff.
  - intros a b. apply Nat.compare_antisym.
  - intros a b c. rewrite !Nat.compare_lt_iff. lia.
Defined.

#[export] Instance Z_ord : Ord Z.
Proof.
  refine {| cmp := Z.compare |}.
  - intros a b. apply Z.compare_eq_iff.
  - intros a b. apply Z.compare_antisym.
  - intros a b c. rewrite !Z.compare_lt_iff. lia.
Defined.

(** ** [BTreeSet] *)

Section BSet.
Context {K : Type} `{Ord K}.
Implicit Types (x y : K) (s t : list K).

Definition klt (a b : K) : Prop := cmp a b = Lt.

(** The invariant: iteration is strictly ascending. *)
Definition bset_ok (s : list K) : Prop := StronglySorted klt s.

Fixpoint bset_insert (x : K) (s : list K) : list K :=
  match s with
  | [] => [x]
  | y :: r =>
      match cmp x y with
      | Eq => s
      | Lt => x :: s
      | Gt => y :: bset_insert x r
      end
  end.

Definition keqb (a b : K) : bool := match cmp a b with Eq => true | _ => false end.

Definition bset_mem (x : K) (s : list K) : bool := existsb (keqb x) s.

(** [FromIterator]. *)
Definition bset_of_list (l : list K) : list K :=
  fold_left (fun s x => bset_insert x s) l [].

Lemma keqb_eq a b : keqb a b = true <-> a = b.
Proof. unfold keqb. rewrite <- cmp_eq. destruct (cmp a b); naive_solver. Qed.

Lemma keqb_refl a : keqb a a = true.
Proof. by apply keqb_eq. Qed.

Lemma bset_mem_In x s : bset_mem x s = true <-> In x s.
Proof.
  unfold bset_mem. rewrite existsb_exists. split.
  - intros (y & Hin & ->%keqb_eq). done.
  - intros Hin. exists x. by rewrite keqb_refl.
Qed.

Lemma bset_mem_false x s : bset_mem x s = false <-> ~ In x s.
Proof. rewrite <- bset_mem_In. destruct (bset_mem x s); naive_solver. Qed.

Lemma In_bset_insert x y s : In y (bset_insert x s) <-> y = x \/ In y s.
Proof.
  induction s as [|z r IH]; cbn; [naive_solver|].
  destruct (cmp x z) eqn:E; cbn.
  - apply cmp_eq in E as ->. naive_solver.
  - naive_solver.
  - rewrite IH. naive_solver.
Qed.

Lemma bset_insert_ok x s : bset_ok s -> bset_ok (bset_insert x s).
Proof.
  induction 1 as [|y r Hr IH Hy]; cbn; [by repeat constructor|].
  destruct (cmp x y) eqn:E.
  - by constructor.
  - constructor; [by constructor|]. constructor; [done|].
    eapply Forall_impl; [exact Hy|]. intros z Hz. by eapply cmp_trans.
  - constructor; [done|]. apply Forall_forall. intros z Hz.
    apply list_elem_of_In, In_bset_insert in Hz as [->|Hz].
    + by apply cmp_gt.
    + rewrite Forall_forall in Hy. apply Hy. by apply list_elem_of_In.
Qed.

Lemma bset_insert_length x s : (length (bset_insert x s) <= S (length s))%nat.
Proof.
  induction s as [|y r IH]; cbn; [done|]. destruct (cmp x y); cbn; lia.
Qed.

Lemma bset_ok_NoDup s : bset_ok s -> NoDup s.
Proof.
  induction 1 as [|y r Hr IH Hy]; constructor; [|done].
  rewrite Forall_forall in Hy. intros Hin. apply Hy, cmp_lt_ne in Hin. done.
Qed.

(** Two sorted sequences with the same elements are the same sequence. *)
Lemma bset_ext s t :
  bset_ok s -> bset_ok t -> (forall x, In x s <-> In x t) -> s = t.
Proof.
  intros Hs. revert t. induction Hs as [|a r Hr IH Ha]; intros t Ht Hext.
  - destruct t as [|b t]; [done|]. exfalso. apply (Hext b). by left.
  - destruct t as [|b t]; [exfalso; apply (Hext a); by left|].
    inversion Ht as [|? ? Ht' Hb]; subst.
    rewrite Forall_forall in Ha, Hb. setoid_rewrite list_elem_of_In in Ha.
    setoid_rewrite list_elem_of_In in Hb.
    assert (a = b) as ->.
    { destruct (proj1 (Hext a) (or_introl eq_refl)) as [->|Ha']; [done|].
      destruct (proj2 (Hext b) (or_introl eq_refl)) as [->|Hb']; [done|].
      exfalso. apply (cmp_lt_ne a a); [|done].
      exact (cmp_trans a b a (Ha b Hb') (Hb a Ha')). }
    f_equal. apply IH; [done|]. intros x.
    specialize (Hext x). cbn in Hext. split; intros Hx.
    + destruct (proj1 Hext (or_intror Hx)) as [->|]; [|done].
      exfalso. by apply (cmp_lt_ne x x (Ha x Hx)).
    + destruct (proj2 Hext (or_intror Hx)) as [->|]; [|done].
      exfalso. by apply (cmp_lt_ne x x (Hb x Hx)).
Qed.

Lemma bset_fold_spec (l s : list K) :
  bset_ok s ->
  bset_ok (fold_left (fun s x => bset_insert x s) l s) /\
  forall x, In x (fold_left (fun s x => bset_insert x s) l s) <-> In x l \/ In x s.
Proof.
  revert s. induction l as [|y l IH]; intros s Hs; cbn; [naive_solver|].
  destruct (IH _ (bset_insert_ok y s Hs)) as [Hok Hin]. split; [done|].
  intros x. rewrite Hin, In_bset_insert. naive_solver.
Qed.

Lemma bset_of_list_ok l : bset_ok (bset_of_list l).
Proof. apply bset_fold_spec. constructor. Qed.

Lemma In_bset_of_list x l : In x (bset_of_list l) <-> In x l.
Proof.
  unfold bset_of_list. destruct (bset_fold_spec l [] (SSorted_nil _)) as [_ ->].
  cbn. naive_solver.
Qed.

Lemma bset_of_list_id s : bset_ok s -> bset_of_list s = s.
Proof.
  intros Hs. apply bset_ext; [apply bset_of_list_ok|done|].
  intros x. apply In_bset_of_list.
Qed.

Lemma bset_of_list_length l : (length (bset_of_list l) <= length l)%nat.
Proof.
  unfold bset_of_list.
  enough (forall s, (length (fold_left (fun s x => bset_insert x s) l s) <= length l + length s)%nat)
    as Hl by (rewrite (Hl []); cbn; lia).
  induction l as [|x l IH]; intros s; cbn; [done|].
  rewrite IH. pose proof (bset_insert_length x s). lia.
Qed.

(** [BTreeSet::is_disjoint]. *)
Definition bset_disjoint (s t : list K) : bool :=
  forallb (fun x => negb (bset_mem x t)) s.

Lemma bset_disjoint_spec s t :
  bset_disjoint s t = true <-> forall x, In x s -> In x t -> False.
Proof.
  unfold bset_disjoint. rewrite forallb_forall.
  setoid_rewrite negb_true_iff. setoid_rewrite bset_mem_false. naive_solver.
Qed.
End BSet.

(** ** [BTreeMap] *)

Section BMap.
Context {K V : Type} `{Ord K}.
Implicit Types (k : K) (v : V) (m : list (K * V)).

Fixpoint bget (k : K) (m : list (K * V)) : option V :=
  match m with
  | [] => None
  | (k', v) :: r => if keqb k k' then Some v else bget k r
  end.

Fixpoint binsert (k : K) (v : V) (m : list (K * V)) : list (K * V) :=
  match m with
  | [] => [(k, v)]
  | (k', v') :: r =>
      match cmp k k' with
      | Eq => (k, v) :: r
      | Lt => (k, v) :: m
      | Gt => (k', v') :: binsert k v r
      end
  end.

Definition bkeys (m : list (K * V)) : list K := map fst m.
Definition bvalues (m : list (K * V)) : list V := map snd m.
Definition bmap_ok (m : list (K * V)) : Prop := bset_ok (bkeys m).

Definition bmap_of_list (l : list (K * V)) : list (K * V) :=
  fold_left (fun m kv => binsert (fst kv) (snd kv) m) l [].

Lemma bget_binsert_eq k v m : bget k (binsert k v m) = Some v.
Proof.
  induction m as [|[k' v'] r IH]; cbn; [by rewrite keqb_refl|].
  destruct (cmp k k') eqn:E; cbn; rewrite ?keqb_refl; [done|done|].
  unfold keqb at 1. by rewrite E.
Qed.

Lemma bget_binsert_ne k j v m : j <> k -> bget j (binsert k v m) = bget j m.
Proof.
  intros Hne. assert (keqb j k = false) as Hjk.
  { apply not_true_iff_false. by rewrite keqb_eq. }
  induction m as [|[k' v'] r IH]; cbn; [by rewrite Hjk|].
  destruct (cmp k k') eqn:E; cbn; rewrite ?Hjk; [|done|by rewrite IH].
  apply cmp_eq in E as <-. by rewrite Hjk.
Qed.

Lemma bkeys_binsert k v m : bkeys (binsert k v m) = bset_insert k (bkeys m).
Proof.
  induction m as [|[k' v'] r IH]; cbn; [done|].
  destruct (cmp k k') eqn:E; cbn; [|done|by f_equal].
  by apply cmp_eq in E as ->.
Qed.

Lemma binsert_ok k v m : bmap_ok m -> bmap_ok (binsert k v m).
Proof. unfold bmap_ok. rewrite bkeys_binsert. apply bset_insert_ok. Qed.

Lemma bget_In k v m : bget k m = Some v -> In (k, v) m.
Proof.
  induction m as [|[k' v'] r IH]; cbn; [done|].
  destruct (keqb k k') eqn:E; [|naive_solver].
  apply keqb_eq in E as ->. naive_solver.
Qed.

Lemma bget_None k m : bget k m = None <-> ~ In k (bkeys m).
Proof.
  induction m as [|[k' v'] r IH]; cbn; [naive_solver|].
  destruct (keqb k k') eqn:E.
  - apply keqb_eq in E as ->. naive_solver.
  - rewrite IH. assert (k <> k'); [|naive_solver].
    intros ->. by rewrite keqb_refl in E.
Qed.

Lemma bget_singleton k v : bget k [(k, v)] = Some v.
Proof. cbn. by rewrite keqb_refl. Qed.

Lemma In_bget k v m : bmap_ok m -> In (k, v) m -> bget k m = Some v.
Proof.
  unfold bmap_ok. induction m as [|[k' v'] r IH]; cbn; [done|].
  intros Hok. inversion Hok as [|? ? Hr Hk]; subst.
  intros [[= -> ->]|Hin]; [by rewrite keqb_refl|].
  destruct (keqb k k') eqn:E; [|by apply IH].
  apply keqb_eq in E as ->. exfalso. rewrite Forall_forall in Hk.
  apply (cmp_lt_ne k' k'); [|done]. apply Hk, list_elem_of_In.
  by apply (in_map fst) in Hin.
Qed.

Lemma bkeys_bmap_of_list (l : list (K * V)) :
  bkeys (bmap_of_list l) = bset_of_list (map fst l).
Proof.
  unfold bmap_of_list, bset_of_list.
  enough (forall m, bkeys (fold_left (fun m kv => binsert (fst kv) (snd kv) m) l m) =
                    fold_left (fun s x => bset_insert x s) (map fst l) (bkeys m))
    as E by apply (E []).
  induction l as [|[k v] r IH]; intros m; cbn; [done|].
  by rewrite IH, bkeys_binsert.
Qed.

Lemma bmap_of_list_ok (l : list (K * V)) : bmap_ok (bmap_of_list l).
Proof. unfold bmap_ok. rewrite bkeys_bmap_of_list. apply bset_of_list_ok. Qed.

(** Collecting pairs with distinct keys loses none of them. *)
Lemma bget_bmap_of_list k (l : list (K * V)) :
  NoDup (map fst l) -> bget k (bmap_of_list l) = bget k l.
Proof.
  unfold bmap_of_list.
  enough (forall m, NoDup (map fst l) ->
    bget k (fold_left (fun m kv => binsert (fst kv) (snd kv) m) l m) =
    match bget k l with Some v => Some v | None => bget k m end) as E.
  { intros Hnd. rewrite (E [] Hnd). by destruct (bget k l). }
  induction l as [|[j v] r IH]; intros m Hnd; cbn; [done|].
  inversion Hnd as [|? ? Hj Hr]; subst. rewrite IH by done. cbn.
  destruct (keqb k j) eqn:Ek.
  - apply keqb_eq in Ek as ->. rewrite list_elem_of_In in Hj.
    rewrite (proj2 (bget_None j r)) by done. apply bget_binsert_eq.
  - destruct (bget k r); [done|]. apply bget_binsert_ne.
    intros ->. by rewrite keqb_refl in Ek.
Qed.
Lemma binsert_Forall (P : K * V -> Prop) k v m : P (k, v) -> Forall P m -> Forall P (binsert k v m).
Proof.
  intros Hk Hm. induction Hm as [|[j w] m Hj Hm IH]; cbn; [by repeat constructor|].
  destruct (cmp k j); by repeat constructor.
Qed.

(** A map is the set of its entries. *)
Lemma binsert_Permutation k v m : ~ In k (bkeys m) -> Permutation (binsert k v m) ((k, v) :: m).
Proof.
  induction m as [|[j w] r IH]; cbn; intros Hk; [done|]. destruct (cmp k j) eqn:E; [|done|].
  - apply cmp_eq in E. exfalso. apply Hk. by left.
  - rewrite IH by (intros ?; apply Hk; by right). apply perm_swap.
Qed.

Lemma bmap_fold_Permutation (l m : list (K * V)) :
  NoDup (map fst l ++ bkeys m) ->
  Permutation (fold_left (fun m kv => binsert (fst kv) (snd kv) m) l m) (l ++ m).
Proof.
  revert m. induction l as [|[k v] l IH]; intros m Hnd; cbn; [done|].
  cbn in Hnd. apply NoDup_cons in Hnd as [Hk Hnd].
  assert (Hkm : ~ In k (bkeys m)) by (rewrite <- list_elem_of_In; intros ?; apply Hk, elem_of_app; by right).
  assert (Hp : Permutation (bkeys (binsert k v m)) (k :: bkeys m)).
  { unfold bkeys. rewrite (binsert_Permutation k v m Hkm). done. }
  rewrite IH.
  - rewrite (binsert_Permutation k v m Hkm). symmetry. apply Permutation_middle.
  - rewrite Hp. rewrite <- Permutation_middle. by apply NoDup_cons.
Qed.

Lemma bmap_of_list_Permutation (l : list (K * V)) : NoDup (map fst l) -> Permutation (bmap_of_list l) l.
Proof. intros Hnd. unfold bmap_of_list. rewrite bmap_fold_Permutation; rewrite app_nil_r; done. Qed.

Lemma bmap_ok_NoDup m : bmap_ok m -> NoDup (map fst m).
Proof. apply bset_ok_NoDup. Qed.

Lemma bmap_ext m1 m2 : bmap_ok m1 -> bmap_ok m2 -> Permutation m1 m2 -> m1 = m2.
Proof.
  unfold bmap_ok, bkeys. revert m2. induction m1 as [|[k v] m1 IH]; intros m2 H1 H2 Hp.
  - by apply Permutation_nil in Hp as ->.
  - destruct m2 as [|[j w] m2]; [by apply Permutation_sym, Permutation_nil in Hp|].
    inversion H1 as [|? ? Hm1 Hk]; inversion H2 as [|? ? Hm2 Hj]; subst.
    assert (k = j) as <-.
    { rewrite !Forall_forall in *.
      assert (Hin : In k (j :: map fst m2)) by (apply (Permutation_in _ (Permutation_map fst Hp)); by left).
      assert (Hin' : In j (k :: map fst m1))
        by (apply (Permutation_in _ (Permutation_map fst (Permutation_sym Hp))); by left).
      destruct Hin as [->|Hin]; [done|]. destruct Hin' as [->|Hin']; [done|].
      rewrite <- list_elem_of_In in Hin, Hin'. apply Hj in Hin. apply Hk in Hin'.
      exfalso. apply (cmp_lt_ne k k); [|done]. by eapply cmp_trans. }
    assert (v = w) as <-.
    { pose proof (In_bget k v ((k, v) :: m1) H1 (or_introl eq_refl)) as E1.
      assert (Hin : In (k, w) ((k, v) :: m1)) by (apply (Permutation_in _ (Permutation_sym Hp)); by left).
      apply (In_bget k w _ H1) in Hin. congruence. }
    f_equal. apply IH; [done|done|]. by apply Permutation_cons_inv in Hp.
Qed.

Lemma bmap_of_list_perm_id (l m : list (K * V)) : bmap_ok m -> Permutation l m -> bmap_of_list l = m.
Proof.
  intros Hm Hp. apply bmap_ext; [apply bmap_of_list_ok|done|]. rewrite bmap_of_list_Permutation; [done|].
  rewrite Hp. by apply bmap_ok_NoDup.
Qed.

Lemma bmap_of_list_app (l1 l2 : list (K * V)) :
  bmap_of_list (l1 ++ l2) = fold_left (fun m kv => binsert (fst kv) (snd kv) m) l2 (bmap_of_list l1).
Proof. apply fold_left_app. Qed.
End BMap.

#[export] Hint Resolve bset_insert_ok bset_of_list_ok binsert_ok : idp.
#[export] Hint Rewrite @bget_binsert_eq @In_bset_insert @In_bset_of_list : idp.

(** Lookup by a string, with the comparison of strings. *)
Lemma bget_cons_string {V} k j (v : V) m :
  bget (K := string) k ((j, v) :: m) = if String.eqb k j then Some v else bget k m.
Proof.
  cbn. destruct (String.eqb_spec k j) as [->|Hne]; [by rewrite keqb_refl|].
  destruct (keqb k j) eqn:E; [by apply keqb_eq in E|done].
Qed.
