(* ===== verification/Json.v ===== *)
(** * JSON values

    The [serde_json::Value] the policy and metadata documents are made of.
    Objects are sequences sorted by member name: [serde_json] is built without
    [preserve_order], so its [Map] is a [BTreeMap]. *)

From S2P Require Import Prelude BTree.
From Stdlib Require Import SpecFloat.

(** [serde_json::Number]: an unsigned, a negative or a floating number. *)
Inductive number : Type :=
| PosInt (n : Z)
| NegInt (n : Z)
| Float (f : spec_float).

Inductive value : Type :=
| VNull
| VBool (b : bool)
| VNumber (n : number)
| VString (s : string)
| VArray (items : list value)
| VObject (members : list (string * value)).

Abbreviation object := (list (string * value)).

(** Induction through the array items and the object members. *)
Section ValueInd.
Variable P : value -> Prop.
Hypothesis Hnull : P VNull.
Hypothesis Hbool : forall b, P (VBool b).
Hypothesis Hnumber : forall n, P (VNumber n).
Hypothesis Hstring : forall s, P (VString s).
Hypothesis Harray : forall l, Forall P l -> P (VArray l).
Hypothesis Hobject : forall m, Forall P (bvalues m) -> P (VObject m).

Fixpoint value_ind' (v : value) : P v :=
  match v with
  | VNull => Hnull
  | VBool b => Hbool b
  | VNumber n => Hnumber n
  | VString s => Hstring s
  | VArray l =>
      Harray l ((fix go (l : list value) : Forall P l :=
        match l with
        | [] => Forall_nil_2 P
        | x :: r => Forall_cons_2 P x r (value_ind' x) (go r)
        end) l)
  | VObject m =>
      Hobject m ((fix go (m : list (string * value)) : Forall P (bvalues m) :=
        match m with
        | [] => Forall_nil_2 P
        | (k, x) :: r => Forall_cons_2 P x (bvalues r) (value_ind' x) (go r)
        end) m)
  end.
End ValueInd.

(** ** Accessors *)

Definition as_object (v : value) : option object :=
  match v with VObject m => Some m | _ => None end.
Definition as_array (v : value) : option (list value) :=
  match v with VArray l => Some l | _ => None end.
Definition as_str (v : value) : option string :=
  match v with VString s => Some s | _ => None end.
(** [Number::as_u64]: only the unsigned representation. *)
Definition as_u64 (v : value) : option Z :=
  match v with VNumber (PosInt n) => Some n | _ => None end.
(** [Value::get]: a member of an object, nothing of anything else. *)
Definition vget (k : string) (v : value) : option value :=
  match v with VObject m => bget k m | _ => None end.

(** [Value::as_i64]: the unsigned representation when it fits, and the negative
    one. *)
Definition as_i64 (v : value) : option Z :=
  match v with
  | VNumber (PosInt n) => if (n <=? 0x7FFFFFFFFFFFFFFF)%Z then Some n else None
  | VNumber (NegInt n) => Some n
  | _ => None
  end.

(** [Value::as_f64]: the nearest double. *)
Definition as_f64 (v : value) : option spec_float :=
  match v with
  | VNumber (PosInt n) | VNumber (NegInt n) => Some (binary_normalize 53 1024 n 0 false)
  | VNumber (Float f) => Some f
  | _ => None
  end.

(** [Value] from an [i64]. *)
Definition json_i64 (n : Z) : value := VNumber (if (n <? 0)%Z then NegInt n else PosInt n).
(** [value[key]]: [Null] where there is no such member. *)
Definition vindex (k : string) (v : value) : value :=
  match vget k v with Some v => v | None => VNull end.

(** ** Equality: [derive(PartialEq)], with IEEE equality on floats *)

Definition number_eqb (a b : number) : bool :=
  match a, b with
  | PosInt x, PosInt y => (x =? y)%Z
  | NegInt x, NegInt y => (x =? y)%Z
  | Float x, Float y => SFeqb x y
  | _, _ => false
  end.

Fixpoint value_eqb (a b : value) {struct a} : bool :=
  match a, b with
  | VNull, VNull => true
  | VBool x, VBool y => Bool.eqb x y
  | VNumber x, VNumber y => number_eqb x y
  | VString x, VString y => String.eqb x y
  | VArray x, VArray y =>
      (fix go (x y : list value) : bool :=
         match x, y with
         | [], [] => true
         | u :: x', w :: y' => value_eqb u w && go x' y'
         | _, _ => false
         end) x y
  | VObject x, VObject y =>
      (fix go (x y : list (string * value)) : bool :=
         match x, y with
         | [], [] => true
         | (k, u) :: x', (j, w) :: y' =>
             String.eqb k j && value_eqb u w && go x' y'
         | _, _ => false
         end) x y
  | _, _ => false
  end.

(** [Vec::contains] at [Value]. *)
Definition value_in (v : value) (l : list value) : bool := existsb (value_eqb v) l.

(** [Map::remove]. *)
Definition bremove (name : string) (m : object) : object := List.filter (fun '(k, _) => negb (String.eqb k name)) m.

Lemma bget_filter {V} (p : string -> bool) (m : list (string * V)) k :
  bget k (List.filter (fun '(j, _) => p j) m) = if p k then bget k m else None.
Proof.
  induction m as [|[j v] m IH]; [by destruct (p k)|]. cbn [List.filter]. rewrite bget_cons_string.
  destruct (p j) eqn:Hj; rewrite ?bget_cons_string, IH; destruct (String.eqb_spec k j) as [->|Hne]; rewrite ?Hj; done.
Qed.

Lemma bget_bremove k n m : bget k (bremove n m) = if String.eqb k n then None else bget k m.
Proof. unfold bremove. rewrite (bget_filter (fun j => negb (String.eqb j n))). by destruct (String.eqb k n). Qed.

(** The [json!] macro on an object literal: members are inserted in a map. *)
Definition jobj (members : list (string * value)) : value :=
  VObject (bmap_of_list members).

(** A document built member by member, the absent ones left out. *)
Definition fields (l : list (string * option value)) : list (string * value) :=
  omap (fun '(k, o) => pair k <$> o) l.
Definition jfields (l : list (string * option value)) : value := jobj (fields l).

Lemma fields_cons k o l :
  fields ((k, o) :: l) =
  match o with Some v => (k, v) :: fields l | None => fields l end.
Proof. by destruct o. Qed.

Lemma fields_keys k l : In k (map fst (fields l)) -> In k (map fst l).
Proof.
  induction l as [|[j [v|]] r IH]; cbn; [done| |]; naive_solver.
Qed.

Lemma fields_NoDup l : NoDup (map fst l) -> NoDup (map fst (fields l)).
Proof.
  induction l as [|[j [v|]] r IH]; cbn; intros Hnd; [constructor| |];
    inversion Hnd as [|? ? Hj Hr]; subst; [|by apply IH].
  constructor; [|by apply IH]. rewrite list_elem_of_In in Hj |- *.
  intros Hin. by apply Hj, fields_keys.
Qed.

Lemma bget_fields_raw k l :
  NoDup (map fst l) ->
  bget k (fields l) = match bget k l with Some o => o | None => None end.
Proof.
  induction l as [|[j o] r IH]; intros Hnd; [done|].
  inversion Hnd as [|? ? Hj Hr]; subst. rewrite list_elem_of_In in Hj.
  rewrite fields_cons. cbn [bget]. destruct (keqb k j) eqn:E.
  - apply keqb_eq in E as ->. destruct o as [v|]; cbn [bget]; [by rewrite keqb_refl|].
    rewrite IH by done. by rewrite (proj2 (bget_None j r)).
  - destruct o as [v|]; cbn [bget]; rewrite ?E; by apply IH.
Qed.

(** Reading back a member of a document under construction. *)
Lemma bget_fields k l :
  NoDup (map fst l) ->
  bget k (bmap_of_list (fields l)) = match bget k l with Some o => o | None => None end.
Proof.
  intros Hnd. rewrite bget_bmap_of_list by by apply fields_NoDup.
  by apply bget_fields_raw.
Qed.

(** Evaluates the map operations of documents whose member names are literal,
    leaving the member values alone. *)
Ltac json_cbv :=
  cbv [jobj bmap_of_list fold_left binsert bget keqb cmp string_ord
       String.compare Ascii.compare Ascii.N_of_ascii Ascii.N_of_digits
       N.compare Pos.compare Pos.compare_cont N.add N.mul Pos.add Pos.mul
       Pos.succ fst snd as_object as_array as_str vget app
       mbind option_bind rbind ok_or];
  cbn [bkeys map fst List.length].
Tactic Notation "json_cbv" "in" hyp(H) :=
  cbv [jobj bmap_of_list fold_left binsert bget keqb cmp string_ord
       String.compare Ascii.compare Ascii.N_of_ascii Ascii.N_of_digits
       N.compare Pos.compare Pos.compare_cont N.add N.mul Pos.add Pos.mul
       Pos.succ fst snd as_object as_array as_str vget app
       mbind option_bind rbind ok_or] in H;
  cbn [bkeys map fst List.length] in H.

(** Decides the tests on literal member names that a reader makes. *)
Ltac lit_bool t :=
  let r := eval vm_compute in t in
  match r with true => idtac | false => idtac end;
  change t with r.
Ltac lits :=
  repeat match goal with
  | |- context [in_strings ?a ?l] => lit_bool (in_strings a l)
  | |- context [String.eqb ?a ?b] => lit_bool (String.eqb a b)
  | |- context [keqb ?a ?b] => lit_bool (keqb a b)
  end; cbn [negb orb andb].
(** Distinctness of literal keys. *)
Ltac nodup_keys := cbn [map fst]; apply (bool_decide_unpack _); vm_compute; exact I.
(** Reads a member of [fields]. *)
Ltac read_fields :=
  rewrite ?bget_fields by nodup_keys; cbn [bget]; lits.
