(* ===== verification/Session.v ===== *)
(** * Sessions and authentication methods

    [crates/domain/src/entities/session.rs]: the authentication method
    vocabulary, the session record with its status, and the tenant's session
    policy. Instants and durations are nanoseconds. *)

From S2P Require Import Prelude BTree Json.
Open Scope Z_scope.

(** [time::Duration::seconds] and [minutes], in nanoseconds. *)


Inductive AuthenticationMethod : Type :=
| Password | Passkey | OneTimeCode | FederatedOidc | UserVerified | ExistingSession.

#[export] Instance method_eq_dec : EqDecision AuthenticationMethod.
Proof. solve_decision. Defined.

Module AuthenticationMethod.
Definition as_str (m : AuthenticationMethod) : string :=
  match m with
  | Password => "pwd"
  | Passkey => "pop"
  | OneTimeCode => "otp"
  | FederatedOidc => "federated_oidc"
  | UserVerified => "user"
  | ExistingSession => "session"
  end.

Definition iana_amr (m : AuthenticationMethod) : option string :=
  match m with
  | Password => Some "pwd"
  | Passkey => Some "pop"
  | OneTimeCode => Some "otp"
  | FederatedOidc | ExistingSession => None
  | UserVerified => Some "user"
  end%string.

Definition parse (v : string) : option AuthenticationMethod :=
  if String.eqb v "swk" then Some Passkey
  else List.find (fun m => String.eqb (as_str m) v)
         [Password; Passkey; OneTimeCode; FederatedOidc; UserVerified; ExistingSession].

(** [derive(Ord)]: declaration order. *)
Definition index (m : AuthenticationMethod) : nat :=
  match m with
  | Password => 0 | Passkey => 1 | OneTimeCode => 2 | FederatedOidc => 3
  | UserVerified => 4 | ExistingSession => 5
  end.

Lemma parse_as_str m : parse (as_str m) = Some m.
Proof. by destruct m. Qed.
End AuthenticationMethod.

#[export] Instance method_ord : Ord AuthenticationMethod :=
  ord_via AuthenticationMethod.index
    ltac:(intros [] []; cbn; intros; first [reflexivity | discriminate]).

(** ** Revocation reasons and status *)

Inductive SessionRevocation : Type :=
| UserLogout | Administrative | CredentialChange | Rotated | AccountClosed | Suspicious.

Module SessionRevocation.
Definition as_str (r : SessionRevocation) : string :=
  match r with
  | UserLogout => "user_logout"
  | Administrative => "administrative"
  | CredentialChange => "credential_change"
  | Rotated => "rotated"
  | AccountClosed => "account_closed"
  | Suspicious => "suspicious"
  end.

Definition parse (v : string) : option SessionRevocation :=
  List.find (fun r => String.eqb (as_str r) v)
    [UserLogout; Administrative; CredentialChange; Rotated; AccountClosed; Suspicious].
End SessionRevocation.

Inductive SessionStatus : Type :=
| SActive | SIdle | SExpired | SRevoked (r : SessionRevocation).

Definition is_usable (s : SessionStatus) : bool :=
  match s with SActive => true | _ => false end.

(** The session row. The opaque-token drawing of [Session::begin] is the
    caller's: the digest of the identifier and the public [sid] are arguments. *)
Record Session : Type := {
  s_tenant : string;
  s_id_digest : string;
  s_public_sid : string;
  s_user : string;
  s_created_at : Z;
  s_authenticated_at : Z;
  s_assurance_authenticated_at : option Z;
  s_assurance_policy_revision : option string;
  s_assurance_methods : list AuthenticationMethod;
  s_last_seen_at : Z;
  s_expires_at : Z;
  s_idle_expires_at : Z;
  s_acr : option string;
  s_amr : list AuthenticationMethod;
  s_revoked : option (Z * SessionRevocation)
}.

Record Lifetimes : Type := { idle : Z; absolute : Z }.

Definition DEFAULT_IDLE_TIMEOUT : Z := hours 1.
Definition DEFAULT_ABSOLUTE_LIFETIME : Z := hours 12.

Definition default_lifetimes : Lifetimes :=
  {| idle := DEFAULT_IDLE_TIMEOUT; absolute := DEFAULT_ABSOLUTE_LIFETIME |}.

Definition clamped (l : Lifetimes) : Lifetimes :=
  let absolute' := Z.max (absolute l) (minutes 1) in
  {| idle := Z.min (Z.max (idle l) (minutes 1)) absolute'; absolute := absolute' |}.

Module Session.
Definition begin (tenant id_digest public_sid user : string)
    (methods : list AuthenticationMethod) (now : Z) (limits : Lifetimes) : Session :=
  {| s_tenant := tenant; s_id_digest := id_digest; s_public_sid := public_sid;
     s_user := user; s_created_at := now; s_authenticated_at := now;
     s_assurance_authenticated_at := None; s_assurance_policy_revision := None;
     s_assurance_methods := []; s_last_seen_at := now;
     s_expires_at := now + absolute limits; s_idle_expires_at := now + idle limits;
     s_acr := None; s_amr := methods; s_revoked := None |}.

Definition status (s : Session) (now : Z) : SessionStatus :=
  match s_revoked s with
  | Some (_, reason) => SRevoked reason
  | None =>
      if s_expires_at s <=? now then SExpired
      else if s_idle_expires_at s <=? now then SIdle
      else SActive
  end.

Definition needs_reauthentication (s : Session) (max_age : option Z) (now : Z) : bool :=
  is_some_and (fun max_age => seconds max_age <? now - s_authenticated_at s) max_age.
End Session.

(** ** The tenant's session policy *)

Inductive SessionPolicyError : Type := PAbsolute | PIdle | PShape.

Module SessionPolicy.
Definition MAX_SECONDS : Z := 43200.

Definition validated (idle_s absolute_s : Z) : result Lifetimes SessionPolicyError :=
  guard? in_range 60 MAX_SECONDS absolute_s else PAbsolute in
  guard? in_range 60 absolute_s idle_s else PIdle in
  Ok {| idle := seconds idle_s; absolute := seconds absolute_s |}.

Definition from_json (v : option value) : result (option Lifetimes) SessionPolicyError :=
  match v with
  | None | Some VNull => Ok None
  | Some v =>
      let? object := ok_or (as_object v) PShape in
      guard? (Nat.eqb (length object) 2) else PShape in
      let? idle_s := ok_or (bget "idle_seconds" object ≫= as_i64) PIdle in
      let? absolute_s := ok_or (bget "absolute_seconds" object ≫= as_i64) PAbsolute in
      let? p := validated idle_s absolute_s in
      Ok (Some p)
  end.

Definition to_json (p : Lifetimes) : value :=
  jobj [("idle_seconds", json_i64 (whole_seconds (idle p)));
        ("absolute_seconds", json_i64 (whole_seconds (absolute p)))]%string.

Definition constrain (p : Lifetimes) (s : Session) : Session :=
  let expires := Z.min (s_expires_at s) (s_created_at s + absolute p) in
  {| s_tenant := s_tenant s; s_id_digest := s_id_digest s;
     s_public_sid := s_public_sid s; s_user := s_user s;
     s_created_at := s_created_at s; s_authenticated_at := s_authenticated_at s;
     s_assurance_authenticated_at := s_assurance_authenticated_at s;
     s_assurance_policy_revision := s_assurance_policy_revision s;
     s_assurance_methods := s_assurance_methods s;
     s_last_seen_at := s_last_seen_at s;
     s_expires_at := expires;
     s_idle_expires_at :=
       Z.min (Z.min (s_idle_expires_at s) (s_last_seen_at s + idle p)) expires;
     s_acr := s_acr s; s_amr := s_amr s; s_revoked := s_revoked s |}.
End SessionPolicy.

(** ** Theorems *)

Lemma status_active_iff s now :
  Session.status s now = SActive <->
  s_revoked s = None /\ now < s_expires_at s /\ now < s_idle_expires_at s.
Proof.
  unfold Session.status. destruct (s_revoked s) as [[]|]; [naive_solver|].
  destruct (Z.leb_spec (s_expires_at s) now), (Z.leb_spec (s_idle_expires_at s) now);
    naive_solver lia.
Qed.

(** Constraining a session to a tenant's policy only ever shortens it: a session
    usable afterwards was usable before, it ends within the policy's bounds, and
    its idle deadline never outlives its absolute one. *)
Theorem constrain_only_shortens p s now :
  let s' := SessionPolicy.constrain p s in
  (is_usable (Session.status s' now) = true ->
   is_usable (Session.status s now) = true /\
   now < s_created_at s + absolute p /\ now < s_last_seen_at s + idle p) /\
  s_idle_expires_at s' <= s_expires_at s' <= s_expires_at s /\
  SessionPolicy.constrain p s' = s'.
Proof.
  cbn zeta. split_and!.
  - intros Hu. destruct (Session.status _ now) eqn:E in Hu; try discriminate.
    apply status_active_iff in E as (Hr & He & Hi). cbn in Hr, He, Hi.
    assert (Session.status s now = SActive) as ->.
    { apply status_active_iff. split_and!; [done|lia|lia]. }
    split; [done|lia].
  - cbn. lia.
  - cbn. lia.
  - unfold SessionPolicy.constrain. cbn. f_equal; lia.
Qed.

#[local] Arguments SessionPolicy.validated : simpl never.

Lemma validated_Ok i a p :
  SessionPolicy.validated i a = Ok p <->
  (60 <= a <= SessionPolicy.MAX_SECONDS /\ 60 <= i <= a) /\
  p = {| idle := seconds i; absolute := seconds a |}.
Proof.
  unfold SessionPolicy.validated, in_range.
  destruct (Z.leb_spec 60 a), (Z.leb_spec a SessionPolicy.MAX_SECONDS),
    (Z.leb_spec 60 i), (Z.leb_spec i a); cbn; (split; [|intros [? ->]]);
    intros; ok_inv; subst; try done; lia.
Qed.

(** Every value [SessionPolicy::validated] accepts reads back from its stored
    JSON as the same policy, within the bounds the type promises. *)
Theorem session_policy_roundtrip i a p :
  SessionPolicy.validated i a = Ok p ->
  SessionPolicy.from_json (Some (SessionPolicy.to_json p)) = Ok (Some p) /\
  seconds 60 <= idle p <= absolute p /\
  absolute p <= seconds SessionPolicy.MAX_SECONDS.
Proof.
  intros Hv. pose proof Hv as [Hb ->]%validated_Ok. cbn in Hb. split.
  - unfold SessionPolicy.to_json, whole_seconds, seconds, NANOS.
    cbn [idle absolute]. rewrite !Z.quot_mul by lia.
    unfold SessionPolicy.from_json. json_cbv. cbn [Nat.eqb].
    unfold json_i64, SessionPolicy.MAX_SECONDS in *.
    rewrite !(proj2 (Z.ltb_ge _ _)) by lia. cbn [as_i64].
    rewrite !(proj2 (Z.leb_le _ _)) by lia. by rewrite Hv.
  - unfold seconds, NANOS, SessionPolicy.MAX_SECONDS in *. cbn. lia.
Qed.

Lemma session_policy_roundtrip_witness :
  SessionPolicy.validated 900 28800 = Ok {| idle := seconds 900; absolute := seconds 28800 |} /\
  SessionPolicy.from_json (Some (SessionPolicy.to_json
    {| idle := seconds 900; absolute := seconds 28800 |}))
  = Ok (Some {| idle := seconds 900; absolute := seconds 28800 |}).
Proof.
  split; [reflexivity|].
  exact (proj1 (session_policy_roundtrip 900 28800 _ eq_refl)).
Defined.

Lemma clamped_bounds l :
  minutes 1 <= idle (clamped l) <= absolute (clamped l).
Proof. unfold clamped. cbn. lia. Qed.
