(* ===== verification/Acr.v ===== *)
(** * Authentication contexts

    [crates/domain/src/entities/acr_policy.rs]: a tenant's ladder of [acr]
    levels, weakest first, the choice of the [acr] a session is assigned and the
    step-up a request asks for. *)

From S2P Require Import Prelude BTree Json Session.

Definition MAX_LEVELS : Z := 32.
Definition MAX_VALUE_LENGTH : Z := 255.

Inductive AcrPolicyError : Type :=
| AValue (why : string)
| ANoMethods
| ADuplicate (v : string)
| ATooManyLevels
| AMalformed (why : string).

Record AcrLevel : Type := {
  lvl_value : string;
  lvl_methods : list AuthenticationMethod  (** a [BTreeSet] *)
}.

Record AcrPolicy : Type := {
  levels : list AcrLevel;
  amr_in_id_token : bool
}.

Definition PASSWORD : string := "urn:asterius:acr:pwd".
Definition PHISHING_RESISTANT : string := "phr".
Definition PASSKEY : string := "urn:asterius:acr:passkey".
Definition PASSKEY_USER_VERIFIED : string := "urn:asterius:acr:passkey-uv".

(** [char::is_ascii]. *)
Definition is_ascii (c : Z) : bool := (c <? 128)%Z.

Module AcrLevel.
Definition new (value : string) (methods : list AuthenticationMethod)
    : result AcrLevel AcrPolicyError :=
  if is_empty value then Err (AValue "empty")
  else if (MAX_VALUE_LENGTH <? slen value)%Z then Err (AValue "longer than 255 bytes")
  else if existsb (fun c => is_whitespace c || is_control c || negb (is_ascii c))
            (chars value)
  then Err (AValue "carries whitespace, a control character or a non-ASCII byte")
  else
    let methods := bset_of_list methods in
    if Nat.eqb (length methods) 0 then Err ANoMethods
    else Ok {| lvl_value := value; lvl_methods := methods |}.

Definition is_met_by (l : AcrLevel) (used : list AuthenticationMethod) : bool :=
  forallb (fun m => bset_mem m used) (lvl_methods l).
End AcrLevel.

Module AcrPolicy.
(** The duplicate scan of [AcrPolicy::new]. *)
Fixpoint first_duplicate (seen : list string) (ls : list AcrLevel) : option string :=
  match ls with
  | [] => None
  | l :: r =>
      if bset_mem (lvl_value l) seen then Some (lvl_value l)
      else first_duplicate (bset_insert (lvl_value l) seen) r
  end.

Definition new (ls : list AcrLevel) : result AcrPolicy AcrPolicyError :=
  if (MAX_LEVELS <? Z.of_nat (length ls))%Z then Err ATooManyLevels
  else match first_duplicate [] ls with
  | Some v => Err (ADuplicate v)
  | None => Ok {| levels := ls; amr_in_id_token := true |}
  end.

Definition empty : AcrPolicy := {| levels := []; amr_in_id_token := true |}.

Definition releasing_amr (p : AcrPolicy) (release : bool) : AcrPolicy :=
  {| levels := levels p; amr_in_id_token := release |}.

(** The checks on one level of [validate_attainable]. *)
Definition level_attainable (l : AcrLevel) : result () AcrPolicyError :=
  let has m := bset_mem m (lvl_methods l) in
  if has ExistingSession || (has UserVerified && negb (has Passkey)) then
    Err (AMalformed "a level requires an unavailable authentication ceremony")
  else if String.eqb (lvl_value l) "phrh" then
    Err (AMalformed "hardware-protected authentication cannot be attested")
  else if in_strings (lvl_value l) [PHISHING_RESISTANT; PASSKEY; PASSKEY_USER_VERIFIED]
       && (negb (has Passkey)
           || (String.eqb (lvl_value l) PASSKEY_USER_VERIFIED && negb (has UserVerified)))
  then Err (AMalformed "a reserved passkey context cannot be weakened")
  else Ok ().

Fixpoint validate_levels (ls : list AcrLevel) : result () AcrPolicyError :=
  match ls with
  | [] => Ok ()
  | l :: r => let? _ := level_attainable l in validate_levels r
  end.
Definition validate_attainable (p : AcrPolicy) : result () AcrPolicyError :=
  validate_levels (levels p).

Definition supports_totp (p : AcrPolicy) : bool :=
  existsb (fun l => bset_mem OneTimeCode (lvl_methods l)) (levels p).

Definition supports_multiple_factors (p : AcrPolicy) : bool :=
  is_ok (validate_attainable p)
  && existsb (fun l =>
       let has m := bset_mem m (lvl_methods l) in
       (has Password && (has OneTimeCode || has Passkey))
       || (has Passkey && has UserVerified)) (levels p).

Definition supported_values (p : AcrPolicy) : list string :=
  map lvl_value (rev (levels p)).

Definition level (p : AcrPolicy) (v : string) : option AcrLevel :=
  List.find (fun l => String.eqb (lvl_value l) v) (levels p).

Definition can_produce (p : AcrPolicy) (v : string) : bool :=
  match level p v with Some _ => true | None => false end.

Definition achieved (p : AcrPolicy) (used : list AuthenticationMethod) : option AcrLevel :=
  List.find (fun l => AcrLevel.is_met_by l used) (rev (levels p)).

Definition strongest_met (p : AcrPolicy) (requested : list string)
    (used : list AuthenticationMethod) : option AcrLevel :=
  List.find (fun l => in_strings (lvl_value l) requested && AcrLevel.is_met_by l used)
    (rev (levels p)).

(** [Option::or_else]. *)
Definition or_else {A} (o : option A) (k : option A) : option A :=
  match o with Some a => Some a | None => k end.

Definition assign (p : AcrPolicy) (used : list AuthenticationMethod)
    (essential voluntary : list string) : option string :=
  lvl_value <$> or_else (strongest_met p essential used)
                  (or_else (strongest_met p voluntary used) (achieved p used)).

Definition can_satisfy (p : AcrPolicy) (requested : list string) : bool :=
  match requested with [] => true | _ => existsb (can_produce p) requested end.

Definition step_up_target (p : AcrPolicy) (requested : list string)
    (used : list AuthenticationMethod) : option AcrLevel :=
  match strongest_met p requested used with
  | Some _ => None
  | None => List.find (fun l => in_strings (lvl_value l) requested) (levels p)
  end.

(** ** The stored document *)

Fixpoint parse_methods (ms : list value) : result (list AuthenticationMethod) AcrPolicyError :=
  match ms with
  | [] => Ok []
  | m :: r =>
      let? name := ok_or (as_str m) (AMalformed "an amr value is not a string") in
      let? m := ok_or (AuthenticationMethod.parse name)
                  (AMalformed "an amr value is not recognised") in
      let? r := parse_methods r in
      Ok (m :: r)
  end.

Definition parse_level (entry : value) : result AcrLevel AcrPolicyError :=
  let? entry := ok_or (as_object entry) (AMalformed "a level is not an object") in
  guard? forallb (fun k => in_strings k ["value"; "amr"]%string) (bkeys entry)
    else AMalformed "an unknown level member" in
  let? v := ok_or (bget "value" entry ≫= as_str) (AMalformed "a level has no value") in
  let? ms := ok_or (bget "amr" entry ≫= as_array) (AMalformed "a level has no amr array") in
  let? parsed := parse_methods ms in
  guard? Nat.eqb (length (bset_of_list parsed)) (length parsed)
    else AMalformed "a level repeats an authentication method" in
  AcrLevel.new v parsed.

Fixpoint parse_levels (raw : list value) : result (list AcrLevel) AcrPolicyError :=
  match raw with
  | [] => Ok []
  | e :: r => let? l := parse_level e in let? ls := parse_levels r in Ok (l :: ls)
  end.

Definition from_json (document : value) : result AcrPolicy AcrPolicyError :=
  let? object := ok_or (as_object document) (AMalformed "not an object") in
  guard? forallb (fun k => in_strings k ["levels"; "amr_in_id_token"]%string) (bkeys object)
    else AMalformed "an unknown policy member" in
  let? amr := match bget "amr_in_id_token" object with
              | None => Ok true
              | Some (VBool flag) => Ok flag
              | Some _ => Err (AMalformed "amr_in_id_token is not a boolean")
              end in
  let? raw := ok_or (bget "levels" object) (AMalformed "no levels") in
  let? raw := ok_or (as_array raw) (AMalformed "levels is not an array") in
  guard? (Z.of_nat (length raw) <=? MAX_LEVELS)%Z else ATooManyLevels in
  let? ls := parse_levels raw in
  let? p := new ls in
  Ok (releasing_amr p amr).

Definition level_to_json (l : AcrLevel) : value :=
  jobj [("value", VString (lvl_value l));
        ("amr", VArray (map (fun m => VString (AuthenticationMethod.as_str m))
                          (lvl_methods l)))]%string.

Definition to_json (p : AcrPolicy) : value :=
  jobj [("amr_in_id_token", VBool (amr_in_id_token p));
        ("levels", VArray (map level_to_json (levels p)))]%string.

(** [AcrPolicy::default]: its [expect]s become the fallback below, which the
    lemma [default_levels_Ok] shows is not reached. *)
Definition default_levels : result (list AcrLevel) AcrPolicyError :=
  let? a := AcrLevel.new PASSWORD [Password] in
  let? b := AcrLevel.new PHISHING_RESISTANT [Passkey] in
  let? c := AcrLevel.new PASSKEY [Passkey] in
  let? d := AcrLevel.new PASSKEY_USER_VERIFIED [Passkey; UserVerified] in
  Ok [a; b; c; d].
Definition default : AcrPolicy :=
  match default_levels with
  | Ok ls => match new ls with Ok p => p | Err _ => empty end
  | Err _ => empty
  end.
End AcrPolicy.

Lemma default_levels_Ok :
  exists ls, AcrPolicy.default_levels = Ok ls /\ length ls = 4%nat /\
             AcrPolicy.new ls = Ok AcrPolicy.default.
Proof. eexists. by vm_compute. Qed.

(** ** Well-formed ladders *)

Definition level_ok (l : AcrLevel) : Prop :=
  bset_ok (lvl_methods l) /\ AcrLevel.new (lvl_value l) (lvl_methods l) = Ok l.

Definition policy_ok (p : AcrPolicy) : Prop :=
  Forall level_ok (levels p) /\
  (Z.of_nat (length (levels p)) <= MAX_LEVELS)%Z /\
  NoDup (map lvl_value (levels p)).

Lemma level_new_ok v ms l : AcrLevel.new v ms = Ok l -> level_ok l.
Proof.
  unfold AcrLevel.new, level_ok. intros H. ok_inv. subst l. cbn.
  split; [auto with idp|]. unfold AcrLevel.new.
  rewrite bset_of_list_id by auto with idp. by rewrite_conds.
Qed.

Lemma first_duplicate_None seen ls :
  bset_ok seen ->
  (AcrPolicy.first_duplicate seen ls = None <->
   NoDup (map lvl_value ls) /\ forall l, In l ls -> ~ In (lvl_value l) seen).
Proof.
  revert seen. induction ls as [|l r IH]; intros seen Hs; cbn.
  - split; [intros _|done]. split; [constructor|naive_solver].
  - destruct (bset_mem (lvl_value l) seen) eqn:E.
    + apply bset_mem_In in E. naive_solver.
    + apply bset_mem_false in E. rewrite IH by auto with idp.
      setoid_rewrite In_bset_insert. rewrite NoDup_cons, list_elem_of_In.
      setoid_rewrite in_map_iff. naive_solver.
Qed.

Lemma policy_new_ok ls p :
  AcrPolicy.new ls = Ok p <->
  p = {| levels := ls; amr_in_id_token := true |} /\
  (Z.of_nat (length ls) <= MAX_LEVELS)%Z /\ NoDup (map lvl_value ls).
Proof.
  unfold AcrPolicy.new.
  pose proof (first_duplicate_None [] ls ltac:(constructor)) as Hd.
  destruct (Z.ltb_spec MAX_LEVELS (Z.of_nat (length ls))); [split; [done|intros (_ & ? & _); lia]|].
  destruct (AcrPolicy.first_duplicate [] ls); naive_solver.
Qed.

Lemma parse_levels_ok raw ls :
  AcrPolicy.parse_levels raw = Ok ls -> Forall level_ok ls.
Proof.
  revert ls. induction raw as [|e r IH]; cbn; intros ls H; ok_inv; subst; constructor.
  - unfold AcrPolicy.parse_level in E. ok_inv. by eapply level_new_ok.
  - by apply IH.
Qed.

(** ** Round trip *)

Lemma parse_methods_as_str ms :
  AcrPolicy.parse_methods
    (map (fun m => VString (AuthenticationMethod.as_str m)) ms) = Ok ms.
Proof.
  induction ms as [|m r IH]; cbn [map AcrPolicy.parse_methods as_str ok_or rbind]; [done|].
  rewrite AuthenticationMethod.parse_as_str. cbn. by rewrite IH.
Qed.

Lemma parse_level_to_json l :
  level_ok l -> AcrPolicy.parse_level (AcrPolicy.level_to_json l) = Ok l.
Proof.
  intros [Hs Hn]. unfold AcrPolicy.level_to_json, AcrPolicy.parse_level.
  json_cbv. rewrite parse_methods_as_str. cbn [forallb in_strings].
  rewrite bset_of_list_id, Nat.eqb_refl by done. exact Hn.
Qed.

Lemma parse_levels_to_json ls :
  Forall level_ok ls ->
  AcrPolicy.parse_levels (map AcrPolicy.level_to_json ls) = Ok ls.
Proof.
  induction 1 as [|l r Hl _ IH]; [done|].
  cbn [map AcrPolicy.parse_levels]. rewrite parse_level_to_json by done.
  cbn [rbind]. by rewrite IH.
Qed.

(** A stored ladder reads back as itself, whatever [amr] it releases, so a policy
    read and written back loses nothing; and only well-formed ladders are read. *)
Theorem acr_policy_roundtrip p :
  (policy_ok p -> AcrPolicy.from_json (AcrPolicy.to_json p) = Ok p) /\
  (forall doc, AcrPolicy.from_json doc = Ok p -> policy_ok p).
Proof.
  split.
  - intros (Hl & Hn & Hd). unfold AcrPolicy.to_json, AcrPolicy.from_json. json_cbv.
    cbn. rewrite length_map, (proj2 (Z.leb_le _ _)) by done.
    rewrite parse_levels_to_json by done. cbn [rbind].
    assert (AcrPolicy.new (levels p) = Ok {| levels := levels p; amr_in_id_token := true |})
      as -> by by apply policy_new_ok.
    by destruct p.
  - intros doc H. unfold AcrPolicy.from_json in H. ok_inv.
    apply parse_levels_ok in E3. apply policy_new_ok in E4 as (-> & Hn & Hd).
    subst p. split_and!; [exact E3|exact Hn|exact Hd].
Qed.

(** ** The choice of a session's [acr] *)

Lemma find_rev_strongest {A} (f : A -> bool) (l : list A) x :
  List.find f (rev l) = Some x ->
  exists l1 l2, l = l1 ++ x :: l2 /\ f x = true /\ forall y, In y l2 -> f y = false.
Proof.
  induction l as [|y r IH] using rev_ind; [done|].
  rewrite rev_app_distr. cbn. destruct (f y) eqn:E.
  - intros [= ->]. exists r, []. naive_solver.
  - intros (l1 & l2 & -> & Hx & Hl2)%IH. exists l1, (l2 ++ [y]).
    rewrite <- app_assoc. split_and!; [done..|].
    intros z [Hz|[->|[]]]%in_app_or; [by apply Hl2|done].
Qed.

Lemma find_None_iff {A} (f : A -> bool) l :
  List.find f l = None <-> forall x, In x l -> f x = false.
Proof.
  split; [apply List.find_none|]. intros H.
  destruct (List.find f l) as [x|] eqn:E; [|done].
  apply List.find_some in E as [Hin Hx]. by rewrite H in Hx.
Qed.

(** What the methods used really earn: the rung of the ladder assigned to a
    session is one its methods satisfy; when an essential request can be met the
    value returned is a requested one, and no stronger requested rung was
    available; and nothing is assigned only when no rung is satisfied at all. *)
Theorem assign_sound_and_strongest p used essential voluntary :
  match AcrPolicy.assign p used essential voluntary with
  | Some v =>
      (exists l, In l (levels p) /\ lvl_value l = v /\ AcrLevel.is_met_by l used = true) /\
      ((exists l, In l (levels p) /\ In (lvl_value l) essential /\
                  AcrLevel.is_met_by l used = true) ->
       In v essential /\
       exists l1 l l2, levels p = l1 ++ l :: l2 /\ lvl_value l = v /\
         forall l', In l' l2 -> In (lvl_value l') essential ->
                    AcrLevel.is_met_by l' used = false)
  | None => forall l, In l (levels p) -> AcrLevel.is_met_by l used = false
  end.
Proof.
  unfold AcrPolicy.assign, AcrPolicy.strongest_met, AcrPolicy.achieved.
  destruct (List.find _ (rev (levels p))) as [l|] eqn:E1; cbn.
  { pose proof (List.find_some _ _ E1) as [Hin [Hreq Hmet]%andb_true_iff].
    apply in_rev in Hin. apply in_strings_In in Hreq. split; [eauto|]. intros _.
    apply find_rev_strongest in E1 as (l1 & l2 & Heq & _ & Hl2). split; [done|].
    exists l1, l, l2. split_and!; [done..|]. intros l' Hl' Hess.
    specialize (Hl2 _ Hl'). cbv beta in Hl2. apply in_strings_In in Hess. by rewrite Hess in Hl2. }
  pose proof (proj1 (find_None_iff _ _) E1) as Hno.
  assert (forall l, In l (levels p) -> In (lvl_value l) essential ->
                    AcrLevel.is_met_by l used = false) as Hno'.
  { intros l Hl Hess. apply in_strings_In in Hess.
    specialize (Hno l (proj1 (in_rev _ _) Hl)). cbv beta in Hno. by rewrite Hess in Hno. }
  clear E1 Hno.
  destruct (List.find _ (rev (levels p))) as [l|] eqn:E2; cbn;
    [|destruct (List.find (fun l => AcrLevel.is_met_by l used) _) as [l|] eqn:E3; cbn].
  - apply List.find_some in E2 as [Hin [_ Hmet]%andb_true_iff]. apply in_rev in Hin.
    split; [eauto|]. intros (l' & ? & ? & Hm). by rewrite Hno' in Hm.
  - apply List.find_some in E3 as [Hin Hmet]. apply in_rev in Hin.
    split; [eauto|]. intros (l' & ? & ? & Hm). by rewrite Hno' in Hm.
  - intros l Hl. apply (proj1 (find_None_iff _ _) E3). by apply in_rev in Hl.
Qed.
