(* ===== verification/Roles.v ===== *)
(** * Application roles

    [crates/domain/src/entities/application_role.rs]: role names, role owners and
    the roles an account holds, with the temporary roles an activation lends. *)

From S2P Require Import Prelude BTree Json.

Abbreviation ClientId := string (only parsing).
Abbreviation TenantId := string (only parsing).

(** ** Names *)

Inductive RoleNameError : Type :=
| RLength (found : Z)
| RCharacter (c : Z)
| RStart.

(** [RoleName]: a parsed name; the newtype is its string. *)
Abbreviation RoleName := string (only parsing).

Module RoleName.
Definition MAX_LEN : Z := 64.

(** [matches!(character, 'a'..='z' | '0'..='9' | '-' | '_' | '.' | ':')]. *)
Definition role_char (c : Z) : bool :=
  is_ascii_lower c || is_ascii_digit c
  || (c =? 45)%Z || (c =? 95)%Z || (c =? 46)%Z || (c =? 58)%Z.

Definition parse (raw : string) : result RoleName RoleNameError :=
  if is_empty raw || (MAX_LEN <? slen raw)%Z then Err (RLength (slen raw))
  else match List.find (fun c => negb (role_char c)) (chars raw) with
  | Some c => Err (RCharacter c)
  | None =>
      match chars raw with
      | [] => Err (RLength 0)
      | first :: _ =>
          if is_ascii_alphanumeric first then Ok raw else Err RStart
      end
  end.
End RoleName.

Inductive RoleOwner : Type :=
| Tenant
| Client (c : ClientId).

Definition owner_client (o : RoleOwner) : option ClientId :=
  match o with Tenant => None | Client c => Some c end.

(** ** Catalogue entries *)

Definition MAX_ROLE_DESCRIPTION_LEN : Z := 200.

Inductive ApplicationRoleError : Type :=
| RoleNameRefused (e : RoleNameError)
| Description (found : Z)
| DescriptionCharacter (c : Z).

Record ApplicationRole : Type := {
  ar_tenant : TenantId;
  ar_owner : RoleOwner;
  ar_name : RoleName;
  ar_description : option string;
  ar_created_at : Z
}.

Module ApplicationRole.
Definition new (tenant : TenantId) (owner : RoleOwner) (name : string)
    (description : option string) (created_at : Z)
    : result ApplicationRole ApplicationRoleError :=
  let? name := map_err RoleNameRefused (RoleName.parse name) in
  let? _ := match description with
    | None => Ok ()
    | Some text =>
        let length := Z.of_nat (length (chars text)) in
        if (MAX_ROLE_DESCRIPTION_LEN <? length)%Z then Err (Description length)
        else match List.find is_control (chars text) with
        | Some c => Err (DescriptionCharacter c)
        | None => Ok ()
        end
    end in
  Ok {| ar_tenant := tenant; ar_owner := owner; ar_name := name;
        ar_description := description; ar_created_at := created_at |}.
End ApplicationRole.

(** ** Held roles *)

Record HeldRoles : Type := {
  tenant : list RoleName;                                   (** [BTreeSet] *)
  clients : list (ClientId * list RoleName);                (** [BTreeMap] *)
  temporary_deadlines : list (ClientId * list (RoleName * Z));
  temporary_proof_expires_at : option Z
}.

Inductive RoleClaim : Type := CRoles | CResourceAccess.

Module RoleClaim.
Definition as_str (c : RoleClaim) : string :=
  match c with CRoles => "roles" | CResourceAccess => "resource_access" end.
Definition parse (raw : string) : option RoleClaim :=
  List.find (fun c => String.eqb (as_str c) raw) [CRoles; CResourceAccess].
End RoleClaim.

Module HeldRoles.
Definition empty : HeldRoles :=
  {| tenant := []; clients := []; temporary_deadlines := [];
     temporary_proof_expires_at := None |}.

Definition is_nil {A} (l : list A) : bool := match l with [] => true | _ => false end.

Definition is_empty (h : HeldRoles) : bool :=
  is_nil (tenant h) && forallb is_nil (bvalues (clients h)).

(** [Option::filter]. *)
Definition ofilter {A} (p : A -> bool) (o : option A) : option A :=
  match o with Some a => if p a then Some a else None | None => None end.

Definition for_client (h : HeldRoles) (client : ClientId) : HeldRoles :=
  {| tenant := tenant h;
     clients := match ofilter (fun r => negb (is_nil r)) (bget client (clients h)) with
                | Some roles => [(client, roles)]
                | None => []
                end;
     temporary_proof_expires_at := temporary_proof_expires_at h;
     temporary_deadlines := match bget client (temporary_deadlines h) with
                            | Some deadlines => [(client, deadlines)]
                            | None => []
                            end |}.

Definition role_current_at (h : HeldRoles) (client : ClientId) (role : RoleName)
    (now : Z) : bool :=
  is_some_and (bset_mem role) (bget client (clients h))
  && is_none_or (fun deadline =>
       (now <? deadline)%Z
       && is_some_and (fun proof => (now <=? proof)%Z) (temporary_proof_expires_at h))
     (bget client (temporary_deadlines h) ≫= bget role).

(** [BTreeMap::get_mut] followed by [BTreeSet::retain]. *)
Fixpoint retain_in (client : ClientId) (keep : RoleName -> bool)
    (m : list (ClientId * list RoleName)) : list (ClientId * list RoleName) :=
  match m with
  | [] => []
  | (c, roles) :: r =>
      if keqb client c then (c, List.filter keep roles) :: r
      else (c, roles) :: retain_in client keep r
  end.

Definition retain_current_temporary_roles (h : HeldRoles) (now : Z) : HeldRoles :=
  let proof_current :=
    is_some_and (fun proof => (now <=? proof)%Z) (temporary_proof_expires_at h) in
  {| tenant := tenant h;
     clients :=
       fold_left (fun m cd =>
         retain_in (fst cd)
           (fun role => is_none_or (fun deadline => proof_current && (now <? deadline)%Z)
                          (bget role (snd cd))) m)
         (temporary_deadlines h) (clients h);
     temporary_deadlines := temporary_deadlines h;
     temporary_proof_expires_at := temporary_proof_expires_at h |}.

(** [Iterator::min]. *)
Definition list_min (l : list Z) : option Z :=
  fold_right (fun x o => Some (match o with None => x | Some y => Z.min x y end)) None l.

Definition temporary_expiry_for (h : HeldRoles) (client : ClientId) : option Z :=
  roles ← bget client (clients h);
  deadlines ← bget client (temporary_deadlines h);
  list_min (map snd (List.filter (fun rd => bset_mem (fst rd) roles) deadlines)).

(** Role names as the array a claim carries. *)
Definition as_json (roles : list RoleName) : list value := map VString roles.

Definition claim (h : HeldRoles) (c : RoleClaim) : option value :=
  match c with
  | CRoles =>
      if is_nil (tenant h) then None else Some (VArray (as_json (tenant h)))
  | CResourceAccess =>
      let members := bmap_of_list
        (map (fun cr => (fst cr, jobj [("roles"%string, VArray (as_json (snd cr)))]))
          (List.filter (fun cr => negb (is_nil (snd cr))) (clients h))) in
      if is_nil members then None else Some (VObject members)
  end.
End HeldRoles.

(** The server's answer on a subject's roles ([policy::request::Subject::holds_role]
    reads these maps). *)
Definition held_ok (h : HeldRoles) : Prop :=
  bset_ok (tenant h) /\ bmap_ok (clients h) /\ bmap_ok (temporary_deadlines h).

(** ** Theorems *)

Lemma decode_ascii bs :
  (forall b, In b bs -> (b < 128)%Z) -> decode_utf8 bs = bs.
Proof.
  induction bs as [|b r IH]; intros Hb; cbn; [done|].
  rewrite (proj2 (Z.ltb_lt b 128)) by (apply Hb; by left).
  rewrite IH; [done|]. intros; apply Hb; by right.
Qed.

Lemma role_char_ascii c : RoleName.role_char c = true -> (c < 128)%Z.
Proof.
  unfold RoleName.role_char, is_ascii_lower, is_ascii_digit, in_range.
  rewrite !orb_true_iff, !andb_true_iff, !Z.leb_le, !Z.eqb_eq. lia.
Qed.

Lemma role_name_Ok raw n :
  RoleName.parse raw = Ok n <->
  n = raw /\ (0 < slen raw <= RoleName.MAX_LEN)%Z /\
  Forall (fun c => RoleName.role_char c = true) (chars raw) /\
  exists c r, chars raw = c :: r /\ is_ascii_alphanumeric c = true.
Proof.
  unfold RoleName.parse, slen.
  assert (is_empty raw = false <-> (0 < Z.of_nat (String.length raw))%Z) as He.
  { destruct raw; cbn; [|lia]. split; [done|lia]. }
  destruct (is_empty raw) eqn:E0; cbn [orb].
  { split; [done|]. intros (_ & [Hl _] & _). by apply He in Hl. }
  destruct (Z.ltb_spec RoleName.MAX_LEN (Z.of_nat (String.length raw))).
  { split; [done|]. intros (_ & [_ Hl] & _). lia. }
  destruct (List.find _ (chars raw)) as [c|] eqn:E1.
  { apply List.find_some in E1 as [Hin Hc]. split; [done|].
    intros (_ & _ & Hall & _). rewrite Forall_forall in Hall.
    setoid_rewrite list_elem_of_In in Hall. by rewrite (Hall c Hin) in Hc. }
  assert (Forall (fun c => RoleName.role_char c = true) (chars raw)) as Hall.
  { apply Forall_forall. intros c Hc. apply list_elem_of_In in Hc.
    apply negb_false_iff. by apply (List.find_none _ _ E1). }
  clear E1. destruct (chars raw) as [|c r].
  { split; [done|]. by intros (_ & _ & _ & ? & ? & ? & _). }
  destruct (is_ascii_alphanumeric c) eqn:Ec.
  - split; [intros [= <-]|by intros (-> & _)]. split_and!; [done|by apply He|done|done|eauto].
  - split; [done|]. intros (_ & _ & _ & ? & ? & [= <- <-] & ?). congruence.
Qed.

(** A name is accepted exactly when it is 1 to 64 bytes of the alphabet with an
    alphanumeric first byte, and it is accepted unchanged. *)
Theorem role_name_parse_iff raw n :
  RoleName.parse raw = Ok n <->
  n = raw /\ (0 < slen raw <= RoleName.MAX_LEN)%Z /\
  Forall (fun c => RoleName.role_char c = true) (chars raw) /\
  exists c r, chars raw = c :: r /\ is_ascii_alphanumeric c = true.
Proof. apply role_name_Ok. Qed.

Lemma bget_retain_in c keep m c' :
  bget c' (HeldRoles.retain_in c keep m) =
  if keqb c' c then List.filter keep <$> bget c' m else bget c' m.
Proof.
  induction m as [|[k roles] r IH]; cbn; [by destruct (keqb c' c)|].
  destruct (keqb c k) eqn:E1; cbn.
  - apply keqb_eq in E1 as ->. by destruct (keqb c' k).
  - rewrite IH. destruct (keqb c' k) eqn:E2; [|done].
    apply keqb_eq in E2 as ->. destruct (keqb k c) eqn:E3; [|done].
    apply keqb_eq in E3 as ->. by rewrite keqb_refl in E1.
Qed.

Lemma bget_retain_fold (keep : ClientId -> list (RoleName * Z) -> RoleName -> bool)
    ds m c roles :
  bmap_ok ds ->
  bget c m = Some roles ->
  bget c (fold_left (fun m cd => HeldRoles.retain_in (fst cd)
                       (keep (fst cd) (snd cd)) m) ds m) =
  Some (match bget c ds with
        | Some d => List.filter (keep c d) roles
        | None => roles
        end).
Proof.
  unfold bmap_ok. revert m roles. induction ds as [|[k d] r IH]; intros m roles Hok Hm;
    cbn; [done|].
  inversion Hok as [|? ? Hr Hk]; subst.
  destruct (keqb c k) eqn:E.
  - apply keqb_eq in E as ->.
    rewrite (IH _ (List.filter (keep k d) roles)); [|done|].
    + assert (bget k r = None) as ->; [|done]. apply bget_None. intros Hin.
      rewrite Forall_forall in Hk. apply list_elem_of_In, Hk in Hin.
      by apply cmp_lt_ne in Hin.
    + by rewrite bget_retain_in, keqb_refl, Hm.
  - apply IH; [done|]. by rewrite bget_retain_in, E.
Qed.

(** The two ways the code reads a temporary role agree: the roles left by
    [retain_current_temporary_roles] at an instant are exactly those
    [role_current_at] reports at that instant, and dropping the lapsed ones
    keeps every role without a temporary deadline. *)
Theorem retain_agrees_with_role_current_at h client role now :
  held_ok h ->
  let h' := HeldRoles.retain_current_temporary_roles h now in
  is_some_and (bset_mem role) (bget client (clients h')) =
    HeldRoles.role_current_at h client role now /\
  (bget client (temporary_deadlines h) ≫= bget role = None ->
   is_some_and (bset_mem role) (bget client (clients h')) =
   is_some_and (bset_mem role) (bget client (clients h))).
Proof.
  intros (_ & _ & Hd) h'.
  assert (is_some_and (bset_mem role) (bget client (clients h')) =
          HeldRoles.role_current_at h client role now) as Heq.
  { unfold h', HeldRoles.retain_current_temporary_roles, HeldRoles.role_current_at. cbn.
    set (keep := fun (_ : ClientId) (d : list (RoleName * Z)) role => is_none_or
      (fun deadline => is_some_and (fun proof => (now <=? proof)%Z)
         (temporary_proof_expires_at h) && (now <? deadline)%Z) (bget role d)).
    change (fold_left _ _ _) with (fold_left (fun m cd => HeldRoles.retain_in (fst cd)
      (keep (fst cd) (snd cd)) m) (temporary_deadlines h) (clients h)).
    destruct (bget client (clients h)) as [roles|] eqn:Hc; cbn.
    - rewrite (bget_retain_fold keep _ _ _ roles Hd Hc). cbn.
      destruct (bget client (temporary_deadlines h)) as [d|]; cbn;
        [|by rewrite andb_true_r].
      apply eq_true_iff_eq. rewrite andb_true_iff, !bset_mem_In, filter_In.
      unfold keep. destruct (bget role d); cbn; [|reflexivity].
      rewrite (andb_comm (is_some_and _ _)). reflexivity.
    - generalize (temporary_deadlines h). intros ds.
      enough (forall m, bget client m = None -> bget client (fold_left (fun m cd =>
        HeldRoles.retain_in (fst cd) (keep (fst cd) (snd cd)) m) ds m) = None) as Hn
        by by rewrite Hn.
      induction ds as [|[k d] r IH]; cbn; [done|]. intros m Hm. apply IH.
      rewrite bget_retain_in, Hm. by destruct (keqb client k). }
  split; [done|]. intros Hnone. rewrite Heq. unfold HeldRoles.role_current_at.
  rewrite Hnone. cbn. by rewrite andb_true_r.
Qed.

(** A user with a tenant role and, at one client, a standing and a temporary role. *)
Definition sample_held : HeldRoles :=
  {| tenant := ["auditor"]; clients := [("billing", ["editor"; "viewer"])];
     temporary_deadlines := [("billing", [("editor", 100%Z)])];
     temporary_proof_expires_at := Some 50%Z |}%string.

Lemma retain_agrees_witness :
  held_ok sample_held /\
  is_some_and (bset_mem "editor"%string) (bget "billing"%string (clients
    (HeldRoles.retain_current_temporary_roles sample_held 60))) = false.
Proof.
  assert (held_ok sample_held) as Hok.
  { split_and!; repeat constructor. }
  split; [exact Hok|].
  destruct (retain_agrees_with_role_current_at sample_held "billing" "editor" 60 Hok)
    as [Heq _].
  exact (eq_trans Heq eq_refl).
Defined.

(** A token issued to one client is told nothing about the roles of another. *)
Theorem for_client_hides_others h client other :
  client <> other ->
  bget other (clients (HeldRoles.for_client h client)) = None /\
  bget other (temporary_deadlines (HeldRoles.for_client h client)) = None /\
  tenant (HeldRoles.for_client h client) = tenant h /\
  (forall role now,
     HeldRoles.role_current_at (HeldRoles.for_client h client) client role now =
     HeldRoles.role_current_at h client role now).
Proof.
  intros Hne. assert (keqb other client = false) as Hk.
  { apply not_true_iff_false. rewrite keqb_eq. congruence. }
  unfold HeldRoles.for_client, HeldRoles.role_current_at.
  cbn [clients temporary_deadlines tenant temporary_proof_expires_at]. split_and!.
  - destruct (HeldRoles.ofilter _ _); cbn; [by rewrite Hk|done].
  - destruct (bget client (temporary_deadlines h)); cbn; [by rewrite Hk|done].
  - done.
  - intros role now.
    destruct (bget client (temporary_deadlines h)) as [d|];
    destruct (bget client (clients h)) as [[|r rs]|];
    cbn [HeldRoles.ofilter HeldRoles.is_nil negb]; rewrite ?bget_singleton; reflexivity.
Qed.

Lemma for_client_hides_others_witness :
  "billing"%string <> "crm"%string /\
  bget "billing"%string (clients (HeldRoles.for_client sample_held "crm")) = None.
Proof.
  assert ("crm" <> "billing")%string as Hne by discriminate.
  split; [discriminate|]. exact (proj1 (for_client_hides_others sample_held _ _ Hne)).
Defined.
