(* ===== verification/Grants.v ===== *)
(** * Grants

    [crates/domain/src/entities/grant.rs]: the grant every token traces back to,
    its computed status, the claim of a credential, and the validation of a
    stored row. *)

From S2P Require Import Prelude BTree Json Session.
Open Scope Z_scope.

(** ** Status *)

Inductive GrantStatus : Type := Pending | Active | Revoked | Expired.

#[export] Instance status_eq_dec : EqDecision GrantStatus.
Proof. solve_decision. Defined.

Module GrantStatus.
Definition ALL : list GrantStatus := [Pending; Active; Revoked; Expired].

Definition as_str (s : GrantStatus) : string :=
  match s with
  | Pending => "pending"
  | Active => "active"
  | Revoked => "revoked"
  | Expired => "expired"
  end.

Definition parse (v : string) : option GrantStatus :=
  List.find (fun s => String.eqb (as_str s) v) ALL.

Definition may_issue (s : GrantStatus) : bool :=
  match s with Pending | Active => true | _ => false end.

Definition may_become (s next : GrantStatus) : bool :=
  match s, next with
  | Pending, (Active | Revoked | Expired) => true
  | Active, (Revoked | Expired) => true
  | Expired, Revoked => true
  | _, _ => false
  end.
End GrantStatus.

Inductive RevocationReason : Type :=
| UserRevoked | ClientRevoked | AdminRevoked | CodeReplayed | SessionEnded
| KeyCompromise | Superseded.

Module RevocationReason.
Definition ALL : list RevocationReason :=
  [UserRevoked; ClientRevoked; AdminRevoked; CodeReplayed; SessionEnded;
   KeyCompromise; Superseded].

Definition as_str (r : RevocationReason) : string :=
  match r with
  | UserRevoked => "user_revoked"
  | ClientRevoked => "client_revoked"
  | AdminRevoked => "admin_revoked"
  | CodeReplayed => "code_replayed"
  | SessionEnded => "session_ended"
  | KeyCompromise => "key_compromise"
  | Superseded => "superseded"
  end.

Definition parse (v : string) : option RevocationReason :=
  List.find (fun r => String.eqb (as_str r) v) ALL.
End RevocationReason.

Inductive GrantError : Type :=
| NotIssuable (s : GrantStatus)
| IncoherentRevocation
| UnknownRevocationReason
| ExpiryPrecedesCreation
| ScopeToken
| ScopeSize
| EResource
| ResourceSize
| ClaimsShape
| ClaimsLocale
| AuthorizationDetailsShape
| ActorChainShape
| Jti
| IncoherentAuthentication.

(** ** The grant *)

Record GrantAuthentication : Type := {
  ga_authenticated_at : Z;
  ga_assurance_authenticated_at : option Z;
  ga_assurance_policy_revision : option string;
  ga_assurance_methods : list AuthenticationMethod;
  ga_acr : option string;
  ga_amr : list AuthenticationMethod
}.

(** Identifiers and UUIDs are the strings and numbers they are stored as;
    [task], the agent-task binding the task preparer resolves, is opaque here. *)
Record ParentDerivation : Type := { pd_parent : string; pd_revision : Z }.

Record Grant {Task : Type} : Type := {
  g_tenant : string;
  g_id : string;
  g_client : string;
  g_user : option string;
  g_subject : option string;
  g_scopes : list string;                   (** a [BTreeSet] *)
  g_claims : value;
  g_claims_locales : list string;
  g_authorization_details : list value;
  g_resources : list string;                (** a [BTreeSet] *)
  g_actor_chain : list value;
  g_parent : option string;
  g_parent_derivation : option ParentDerivation;
  g_task : option Task;
  g_session : option string;
  g_authentication : option GrantAuthentication;
  g_created_at : Z;
  g_updated_at : Z;
  g_authority_revision : Z;
  g_expires_at : option Z;
  g_revoked_at : option Z;
  g_revocation_reason : option RevocationReason;
  g_claimed_at : option Z
}.
Arguments Grant : clear implicits.

(** The authority to mint one credential. *)
Record ClaimedGrant : Type := {
  cg_tenant : string;
  cg_grant : string;
  cg_client : string;
  cg_subject : option string
}.

Record LiveAccessToken : Type := { lat_jti : string; lat_expires_at : Z }.

Definition MAX_SCOPES : Z := 64.
Definition MAX_SCOPE_LEN : Z := 128.
Definition MAX_RESOURCES : Z := 32.
Definition MAX_CLAIMS_LOCALES : Z := 8.
Definition MAX_LOCALE_LEN : Z := 35.
Definition MAX_JTI_LEN : Z := 255.

Module ParentDerivation.
Definition from_grant {Task} (parent : Grant Task) : ParentDerivation :=
  {| pd_parent := g_id parent; pd_revision := g_authority_revision parent |}.
End ParentDerivation.

Module Grant.
Section Grant.
Context {Task : Type}.

(** [Grant::new]; the two drawn UUIDs are arguments. *)
Definition new (id : string) (revision : Z) (tenant client : string) (created_at : Z)
    : Grant Task :=
  {| g_tenant := tenant; g_id := id; g_client := client; g_user := None;
     g_subject := None; g_scopes := []; g_claims := VObject [];
     g_claims_locales := []; g_authorization_details := []; g_resources := [];
     g_actor_chain := []; g_parent := None; g_parent_derivation := None;
     g_task := None; g_session := None; g_authentication := None;
     g_created_at := created_at; g_updated_at := created_at;
     g_authority_revision := revision; g_expires_at := None;
     g_revoked_at := None; g_revocation_reason := None; g_claimed_at := None |}.

Definition status (g : Grant Task) (now : Z) : GrantStatus :=
  match g_revoked_at g with
  | Some _ => Revoked
  | None =>
      if is_some_and (fun expiry => expiry <=? now) (g_expires_at g) then Expired
      else match g_claimed_at g with Some _ => Active | None => Pending end
  end.

Definition claim (g : Grant Task) (now : Z) : result ClaimedGrant GrantError :=
  let st := status g now in
  guard? GrantStatus.may_issue st else NotIssuable st in
  Ok {| cg_tenant := g_tenant g; cg_grant := g_id g; cg_client := g_client g;
        cg_subject := g_subject g |}.
End Grant.
End Grant.

Module LiveAccessToken.
Definition new (jti : string) (expires_at : Z) : result LiveAccessToken GrantError :=
  if is_empty jti || (MAX_JTI_LEN <? slen jti) then Err Jti
  else if negb (all_bytes (in_range 0x21 0x7e) jti) then Err Jti
  else Ok {| lat_jti := jti; lat_expires_at := expires_at |}.
End LiveAccessToken.

(** ** The stored row *)

Record GrantRecord : Type := {
  r_id : string;
  r_client : string;
  r_user : option string;
  r_subject : option string;
  r_scopes : list string;
  r_claims : value;
  r_claims_locales : list string;
  r_authorization_details : value;
  r_resources : list string;
  r_actor_chain : value;
  r_parent : option string;
  r_session : option string;
  r_authenticated_at : option Z;
  r_acr : option string;
  r_amr : list string;
  r_created_at : Z;
  r_updated_at : Z;
  r_expires_at : option Z;
  r_claimed_at : option Z;
  r_revoked_at : option Z;
  r_revocation_reason : option string
}.

Definition is_scope_token (scope : string) : bool :=
  all_bytes (fun b => (b =? 0x21) || in_range 0x23 0x5b b || in_range 0x5d 0x7e b) scope.

Fixpoint validate_scopes_go (scopes acc : list string) : result (list string) GrantError :=
  match scopes with
  | [] => Ok acc
  | scope :: r =>
      if is_empty scope || (MAX_SCOPE_LEN <? slen scope) then Err ScopeSize
      else if negb (is_scope_token scope) then Err ScopeToken
      else validate_scopes_go r (bset_insert scope acc)
  end.
Definition validate_scopes (scopes : list string) : result (list string) GrantError :=
  if MAX_SCOPES <? Z.of_nat (length scopes) then Err ScopeSize
  else validate_scopes_go scopes [].

Definition is_ascii_alphabetic (b : Z) : bool := is_ascii_lower b || is_ascii_upper b.

Definition subtag_len (s : string) : bool := in_range 1 8 (slen s).

Definition locale_tag_ok (tag : string) : bool :=
  (slen tag <=? MAX_LOCALE_LEN)
  && match split_on "-"%char tag with
     | [] => false
     | primary :: subtags =>
         subtag_len primary && all_bytes is_ascii_alphabetic primary
         && forallb (fun s => subtag_len s && all_bytes is_ascii_alphanumeric s) subtags
     end.

Definition validate_claims_locales (locales : list string) : result () GrantError :=
  if MAX_CLAIMS_LOCALES <? Z.of_nat (length locales) then Err ClaimsLocale
  else if forallb locale_tag_ok locales then Ok () else Err ClaimsLocale.

Section Validate.
(** The [url] crate: whether the string parses, and the two facts read of the
    result. *)
Variable Url : Type.
Variable url_parse : string -> option Url.
Variable url_has_fragment : Url -> bool.
Variable url_cannot_be_a_base : Url -> bool.
Context {Task : Type}.

Fixpoint validate_resources_go (resources acc : list string)
    : result (list string) GrantError :=
  match resources with
  | [] => Ok acc
  | resource :: r =>
      let? parsed := ok_or (url_parse resource) EResource in
      if url_has_fragment parsed || url_cannot_be_a_base parsed then Err EResource
      else validate_resources_go r (bset_insert resource acc)
  end.
Definition validate_resources (resources : list string) : result (list string) GrantError :=
  if MAX_RESOURCES <? Z.of_nat (length resources) then Err ResourceSize
  else validate_resources_go resources [].

Definition validate_revocation (r : GrantRecord) : result (option RevocationReason) GrantError :=
  match r_revoked_at r, r_revocation_reason r with
  | Some _, Some reason =>
      let? reason := ok_or (RevocationReason.parse reason) UnknownRevocationReason in
      Ok (Some reason)
  | None, None => Ok None
  | _, _ => Err IncoherentRevocation
  end.

Definition validate_authentication (r : GrantRecord)
    : result (option GrantAuthentication) GrantError :=
  match r_authenticated_at r with
  | Some authenticated_at =>
      Ok (Some {| ga_assurance_authenticated_at := None;
                  ga_assurance_policy_revision := None;
                  ga_assurance_methods := [];
                  ga_authenticated_at := authenticated_at;
                  ga_acr := r_acr r;
                  ga_amr := omap AuthenticationMethod.parse (r_amr r) |})
  | None =>
      match r_acr r, r_amr r with
      | None, [] => Ok None
      | _, _ => Err IncoherentAuthentication
      end
  end.

(** [GrantRecord::validate]. *)
Definition validate (r : GrantRecord) (tenant : string) : result (Grant Task) GrantError :=
  let? revocation_reason := validate_revocation r in
  if is_some_and (fun expiry => expiry <=? r_created_at r) (r_expires_at r)
  then Err ExpiryPrecedesCreation else
  let? authentication := validate_authentication r in
  let? scopes := validate_scopes (r_scopes r) in
  let? resources := validate_resources (r_resources r) in
  let? _ := ok_or (as_object (r_claims r)) ClaimsShape in
  let? _ := validate_claims_locales (r_claims_locales r) in
  let? details := ok_or (as_array (r_authorization_details r)) AuthorizationDetailsShape in
  let? actors := ok_or (as_array (r_actor_chain r)) ActorChainShape in
  Ok {| g_tenant := tenant; g_id := r_id r; g_client := r_client r;
        g_user := r_user r; g_subject := r_subject r; g_scopes := scopes;
        g_claims := r_claims r; g_claims_locales := r_claims_locales r;
        g_authorization_details := details; g_resources := resources;
        g_actor_chain := actors; g_parent := r_parent r;
        g_parent_derivation := None; g_task := None; g_session := r_session r;
        g_authentication := authentication; g_created_at := r_created_at r;
        g_updated_at := r_updated_at r; g_authority_revision := 0;
        g_expires_at := r_expires_at r; g_revoked_at := r_revoked_at r;
        g_revocation_reason := revocation_reason; g_claimed_at := r_claimed_at r |}.
End Validate.

(** ** Theorems *)

Lemma claim_Ok {Task} (g : Grant Task) now c :
  Grant.claim g now = Ok c <->
  (Grant.status g now = Pending \/ Grant.status g now = Active) /\
  c = {| cg_tenant := g_tenant g; cg_grant := g_id g; cg_client := g_client g;
         cg_subject := g_subject g |}.
Proof.
  unfold Grant.claim. destruct (Grant.status g now); cbn; split;
    try (intros; naive_solver); intros [[|] _]; discriminate.
Qed.

Lemma status_pending_or_active {Task} (g : Grant Task) now :
  (Grant.status g now = Pending \/ Grant.status g now = Active) <->
  g_revoked_at g = None /\ forall e, g_expires_at g = Some e -> now < e.
Proof.
  unfold Grant.status. destruct (g_revoked_at g) as [r|]; [naive_solver|].
  destruct (g_expires_at g) as [e|]; cbn.
  - destruct (Z.leb_spec e now).
    + split; [naive_solver|]. intros [_ He]. specialize (He e eq_refl). lia.
    + destruct (g_claimed_at g); naive_solver lia.
  - destruct (g_claimed_at g); naive_solver.
Qed.

(** The stamps a grant can acquire: nothing clears one, and the expiry does not
    move. *)
Definition stamps_grow {Task} (g g' : Grant Task) : Prop :=
  g_expires_at g' = g_expires_at g /\
  (forall t, g_claimed_at g = Some t -> g_claimed_at g' = Some t) /\
  (forall t, g_revoked_at g = Some t -> g_revoked_at g' = Some t).

(** The status is a function of the stamps and the clock, and it moves only along
    the lifecycle's arrows (or along two of them): as long as stamps are only ever
    set and the clock only moves forward, every later status is the same or a
    permitted successor, a revoked grant stays revoked, and a grant that can no
    longer issue never issues again. *)
Theorem grant_lifecycle {Task} (g g' : Grant Task) now now' :
  stamps_grow g g' -> now <= now' ->
  (Grant.status g' now' = Grant.status g now \/
   GrantStatus.may_become (Grant.status g now) (Grant.status g' now') = true) /\
  (Grant.status g now = Revoked -> Grant.status g' now' = Revoked) /\
  (GrantStatus.may_issue (Grant.status g now) = false ->
   forall c, Grant.claim g' now' <> Ok c).
Proof.
  intros (He & Hc & Hr) Hnow.
  assert (Hlife : Grant.status g' now' = Grant.status g now \/
    GrantStatus.may_become (Grant.status g now) (Grant.status g' now') = true).
  { unfold Grant.status. rewrite He.
    destruct (g_revoked_at g) as [t|]; [rewrite (Hr t eq_refl); by left|].
    destruct (g_expires_at g) as [e|]; cbn;
    [destruct (Z.leb_spec e now), (Z.leb_spec e now'); try lia|];
    destruct (g_revoked_at g'); cbn; auto;
    (destruct (g_claimed_at g) as [t|]; [rewrite ?(Hc t eq_refl)|]); cbn; auto;
    destruct (g_claimed_at g'); cbn; auto. }
  split; [done|]. split.
  - intros Hrev. rewrite Hrev in Hlife. destruct Hlife as [|Hb]; [done|].
    by destruct (Grant.status g' now').
  - intros Hni c [Hst _]%claim_Ok.
    destruct Hlife as [Heq|Hb]; [rewrite Heq in Hst|];
      destruct (Grant.status g now); try done;
      destruct Hst as [Hst|Hst]; rewrite Hst in *; done.
Qed.

Lemma grant_lifecycle_witness :
  let g := Grant.new (Task := ()) "g" 1 "t" "c" 10 in
  (stamps_grow g g /\ 10 <= 20) /\
  (Grant.status g 20 = Grant.status g 10 \/
   GrantStatus.may_become (Grant.status g 10) (Grant.status g 20) = true).
Proof.
  split; [unfold stamps_grow; cbn; split; [tauto|lia]|].
  apply (grant_lifecycle (Task := ()) (Grant.new "g" 1 "t" "c" 10) (Grant.new "g" 1 "t" "c" 10) 10 20);
    [unfold stamps_grow; cbn; tauto|lia].
Defined.

(** A row is read with the vocabulary it was written with. *)
Lemma status_parse_as_str s : GrantStatus.parse (GrantStatus.as_str s) = Some s.
Proof. by destruct s. Qed.
Lemma reason_parse_as_str r : RevocationReason.parse (RevocationReason.as_str r) = Some r.
Proof. by destruct r. Qed.

(** *** What a validated row guarantees *)

Lemma scope_token_free s : is_scope_token s = true -> free_of " "%char s.
Proof.
  unfold is_scope_token, free_of, all_bytes. rewrite !forallb_forall.
  intros H b Hb. specialize (H b Hb). unfold in_range in H.
  rewrite negb_true_iff, Z.eqb_neq.
  change (Z.of_N (Ascii.N_of_ascii " "%char)) with 32.
  rewrite !orb_true_iff, !andb_true_iff, !Z.leb_le, Z.eqb_eq in H. lia.
Qed.

Lemma validate_scopes_go_Ok scopes acc out :
  bset_ok acc ->
  validate_scopes_go scopes acc = Ok out ->
  bset_ok out /\
  (forall s, In s out <-> In s scopes \/ In s acc) /\
  Forall (fun s => is_empty s = false /\ is_scope_token s = true) scopes /\
  (length out <= length scopes + length acc)%nat.
Proof.
  revert acc. induction scopes as [|s r IH]; cbn; intros acc Hacc H.
  - injection H as <-. split_and!; [done|naive_solver|constructor|lia].
  - destruct (is_empty s) eqn:Es; [done|]. cbn in H. ok_inv. bool_hyps.
    destruct (IH _ (bset_insert_ok s acc Hacc) H) as (Hok & Hin & Hall & Hlen).
    split_and!; [done| |by constructor|].
    + intros x. rewrite Hin, In_bset_insert. naive_solver.
    + pose proof (bset_insert_length s acc). lia.
Qed.

(** A row's revocation is coherent, its expiry follows its creation, and the
    [scope] claim minted from it names exactly the row's scopes: joined with
    spaces and split again at a resource server, they come back unchanged, so no
    stored scope can turn into two. *)
Theorem validated_grant_scope_claim Url parse frag base Task r t (g : Grant Task) :
  validate Url parse frag base r t = Ok g ->
  (is_Some (g_revoked_at g) <-> is_Some (g_revocation_reason g)) /\
  (forall e, g_expires_at g = Some e -> g_created_at g < e) /\
  Z.of_nat (length (g_scopes g)) <= MAX_SCOPES /\
  (forall s, In s (g_scopes g) <-> In s (r_scopes r)) /\
  (g_scopes g <> [] -> split_on " "%char (join " " (g_scopes g)) = g_scopes g).
Proof.
  unfold validate. intros H. ok_inv. subst g. cbn. split_and!.
  - unfold validate_revocation in E.
    destruct (r_revoked_at r), (r_revocation_reason r); ok_inv; subst; try done;
      split; intros _; eauto.
  - intros e He. rewrite He in Heqb. cbn in Heqb. bool_hyps. lia.
  - unfold validate_scopes in E1. ok_inv. bool_hyps.
    apply validate_scopes_go_Ok in E1 as (_ & _ & _ & Hl); [|constructor].
    cbn in Hl. lia.
  - unfold validate_scopes in E1. ok_inv.
    apply validate_scopes_go_Ok in E1 as (_ & Hin & _); [|constructor].
    intros s. rewrite Hin. cbn. naive_solver.
  - unfold validate_scopes in E1. ok_inv.
    apply validate_scopes_go_Ok in E1 as (_ & Hin & Hall & _); [|constructor].
    intros Hne. apply split_join; [done|]. apply Forall_forall. intros s Hs.
    apply list_elem_of_In, Hin in Hs as [Hs|[]]. rewrite Forall_forall in Hall.
    by apply scope_token_free, Hall, list_elem_of_In.
Qed.

Definition sample_row : GrantRecord :=
  {| r_id := "g1"; r_client := "c1"; r_user := Some "u1"; r_subject := Some "s1";
     r_scopes := ["openid"; "email"; "openid"]; r_claims := VObject [];
     r_claims_locales := ["fr-CH"]; r_authorization_details := VArray [];
     r_resources := ["https://api"]; r_actor_chain := VArray []; r_parent := None;
     r_session := None; r_authenticated_at := Some 5; r_acr := Some "phr";
     r_amr := ["pop"; "unknown"]; r_created_at := 5; r_updated_at := 5;
     r_expires_at := Some 100; r_claimed_at := None; r_revoked_at := Some 7;
     r_revocation_reason := Some "user_revoked" |}.

Definition sample_validated : result (Grant ()) GrantError :=
  validate () (fun _ => Some ()) (fun _ => false) (fun _ => false) sample_row "t".

Lemma validated_grant_scope_claim_witness :
  exists g, sample_validated = Ok g /\
    split_on " "%char (join " " (g_scopes g)) = ["email"; "openid"].
Proof.
  destruct sample_validated as [g|] eqn:E; [|vm_compute in E; discriminate].
  exists g. split; [done|].
  rewrite (proj2 (proj2 (proj2 (proj2
    (validated_grant_scope_claim () _ _ _ () sample_row "t" g E)))));
    vm_compute in E; injection E as <-; [reflexivity|discriminate].
Defined.
