(* ===== verification/Locale.v ===== *)
(** * Which language a page is in

    [crates/domain/src/locale.rs]: the languages of this build, the preferences of a
    client, and the choice between them, the browser's and the tenant's. *)

From S2P Require Import Prelude Text Grants.
Open Scope Z_scope.

Inductive Locale : Type := English | French.
#[export] Instance locale_eq_dec : EqDecision Locale.
Proof. solve_decision. Defined.

Module Locale.
Definition SUPPORTED : list Locale := [English; French].
Definition as_tag (l : Locale) : string := match l with English => "en" | French => "fr" end.
(** [tag.split('-').next()], which [split] always has. *)
Definition matching (tag : string) : option Locale :=
  let primary := match split_on "-"%char tag with p :: _ => p | [] => tag end in
  List.find (fun l => eq_ignore_ascii_case primary (as_tag l)) SUPPORTED.
End Locale.

Definition subtag_ok (p : Z -> bool) (s : string) : bool :=
  (1 <=? slen s) && (slen s <=? 8) && all_bytes p s.

Definition is_language_tag (tag : string) : bool :=
  match split_on "-"%char tag with
  | primary :: subtags =>
      subtag_ok is_ascii_alphabetic primary && forallb (subtag_ok is_ascii_alphanumeric) subtags
  | [] => false
  end.

(** ** [ui_locales] *)

Module UiLocales.
Definition MAX : nat := 8.
Definition MAX_TAG_BYTES : Z := 64.
Definition kept (tag : string) : bool := (slen tag <=? MAX_TAG_BYTES) && is_language_tag tag.
Definition from_tags (tags : list string) : list string := take MAX (List.filter kept tags).
Definition parse (raw : option string) : list string :=
  take MAX (List.filter kept (split_whitespace (from_option id ""%string raw))).
Definition as_parameter (tags : list string) : option string :=
  match tags with [] => None | _ => Some (join " " tags) end.
End UiLocales.

(** ** [Accept-Language] *)

Definition MAX_ACCEPT_LANGUAGE_ELEMENTS : nat := 32.

(** The digits of a fraction, read into a [u16]. *)
Definition digits_of (s : string) : Z := fold_left (fun acc b => acc * 10 + (b - 48)) (bytes_of s) 0.

Definition thousandths (v : string) : option Z :=
  let '(whole, fraction) := from_option id (v, ""%string) (split_once "."%char v) in
  whole ← (if String.eqb whole "0" then Some 0 else if String.eqb whole "1" then Some 1000 else None);
  if is_empty fraction then Some whole
  else if (3 <? slen fraction) || negb (all_bytes is_ascii_digit fraction) then None
  else
    let total := whole + digits_of fraction * 10 ^ (3 - slen fraction) in
    if total <=? 1000 then Some total else None.

(** The loop of [quality], from the weight so far. *)
Fixpoint quality_from (parameters : list string) (weight : Z) : option Z :=
  match parameters with
  | [] => Some weight
  | parameter :: rest =>
      match split_once "="%char parameter with
      | None => quality_from rest weight
      | Some (name, v) =>
          if negb (eq_ignore_ascii_case (trim name) "q") then quality_from rest weight
          else match thousandths (trim v) with
               | Some weight => quality_from rest weight
               | None => None
               end
      end
  end.
Definition quality (parameters : list string) : option Z := quality_from parameters 1000.

(** What one element of the field offers: a language and a weight above zero. *)
Definition offer (element : string) : option (Z * Locale) :=
  match split_on ";"%char element with
  | range :: parameters =>
      match Locale.matching (trim range) with
      | None => None
      | Some locale =>
          match quality parameters with
          | None => None
          | Some weight => if weight =? 0 then None else Some (weight, locale)
          end
      end
  | [] => None
  end.

(** One turn of the loop of [from_accept_language]. *)
Definition better (best : option (Z * Locale)) (element : string) : option (Z * Locale) :=
  match offer element with
  | None => best
  | Some (weight, locale) =>
      if is_none_or (fun '(best_weight, _) => best_weight <? weight) best then Some (weight, locale) else best
  end.

Definition from_accept_language (raw : string) : option Locale :=
  snd <$> fold_left better (take MAX_ACCEPT_LANGUAGE_ELEMENTS (split_on ","%char raw)) None.

Fixpoint first_matching (tags : list string) : option Locale :=
  match tags with
  | [] => None
  | tag :: rest => match Locale.matching tag with Some l => Some l | None => first_matching rest end
  end.

Definition negotiate (ui_locales : list string) (accept_language : option string) (tenant_default : Locale)
    : Locale :=
  match first_matching ui_locales with
  | Some locale => locale
  | None => from_option id tenant_default (accept_language ≫= from_accept_language)
  end.

(** ** Laws *)

#[local] Arguments Locale.matching : simpl never.
#[local] Arguments offer : simpl never.

Lemma first_matching_None tags : first_matching tags = None <-> Forall (fun t => Locale.matching t = None) tags.
Proof.
  induction tags as [|t tags IH]; cbn; [by split|]. rewrite Forall_cons, <- IH.
  destruct (Locale.matching t); split; [done|by intros [? _]|by split|by intros [_ ?]].
Qed.

Lemma first_matching_Some tags l :
  first_matching tags = Some l <->
  exists before t after, tags = before ++ t :: after /\ Locale.matching t = Some l /\
    Forall (fun t => Locale.matching t = None) before.
Proof.
  induction tags as [|t tags IH]; cbn.
  { split; [done|]. by intros ([] & ? & ? & ? & _). }
  destruct (Locale.matching t) as [m|] eqn:Hm.
  - split; [intros [= ->]; by exists [], t, tags|].
    intros ([|x before] & t' & after & [= -> ->] & Ht & Hb); [congruence|].
    apply Forall_cons in Hb as [Hb _]. congruence.
  - rewrite IH. split.
    + intros (before & t' & after & -> & Ht & Hb). exists (t :: before), t', after. auto.
    + intros ([|x before] & t' & after & [= -> ->] & Ht & Hb); [congruence|].
      apply Forall_cons in Hb as [_ Hb]. eauto 10.
Qed.

(** The best of a list of offers: the heaviest, the first of those. *)
Definition best_of (elements : list string) (w : Z) (l : Locale) : Prop :=
  exists before e after, elements = before ++ e :: after /\ offer e = Some (w, l) /\
    Forall (fun e' => forall w' l', offer e' = Some (w', l') -> w' < w) before /\
    Forall (fun e' => forall w' l', offer e' = Some (w', l') -> w' <= w) after.

Lemma fold_better elements :
  match fold_left better elements None with
  | Some (w, l) => best_of elements w l
  | None => Forall (fun e => offer e = None) elements
  end.
Proof.
  induction elements as [|e elements IH] using rev_ind; [by constructor|].
  rewrite fold_left_app. cbn. unfold better at 1. destruct (offer e) as [[w l]|] eqn:He.
  - destruct (fold_left better elements None) as [[w0 l0]|]; cbn.
    + destruct (w0 <? w) eqn:Hw; bool_hyps.
      * destruct IH as (b & x & a & -> & Hx & Hb & Ha). exists (b ++ x :: a), e, [].
        split; [done|]. split; [done|]. split; [|by constructor].
        rewrite Forall_app, Forall_cons. split; [|split].
        -- eapply Forall_impl; [exact Hb|]. intros y Hy w' l' E%Hy. lia.
        -- intros w' l' E. rewrite Hx in E. injection E as <- <-. done.
        -- eapply Forall_impl; [exact Ha|]. intros y Hy w' l' E%Hy. lia.
      * destruct IH as (b & x & a & -> & Hx & Hb & Ha). exists b, x, (a ++ [e]).
        rewrite <- app_assoc. split; [done|]. split; [done|]. split; [done|].
        rewrite Forall_app, Forall_singleton. split; [done|]. intros w' l' E. rewrite He in E. by injection E as <- <-.
    + exists elements, e, []. split; [done|]. split; [done|]. split; [|by constructor].
      eapply Forall_impl; [exact IH|]. cbn. congruence.
  - destruct (fold_left better elements None) as [[w0 l0]|].
    + destruct IH as (b & x & a & -> & Hx & Hb & Ha). exists b, x, (a ++ [e]). rewrite <- app_assoc.
      split; [done|]. split; [done|]. split; [done|]. rewrite Forall_app, Forall_singleton.
      split; [done|]. congruence.
    + rewrite Forall_app, Forall_singleton. done.
Qed.

Lemma digits_of_nonneg s : all_bytes is_ascii_digit s = true -> 0 <= digits_of s.
Proof.
  unfold digits_of, all_bytes.
  enough (H : forall acc, 0 <= acc -> forallb is_ascii_digit (bytes_of s) = true ->
    0 <= fold_left (fun acc b => acc * 10 + (b - 48)) (bytes_of s) acc) by (by apply H).
  induction (bytes_of s) as [|b bs IH]; intros acc Hacc Hs; cbn; [done|].
  cbn in Hs. apply andb_true_iff in Hs as [Hb Hs]. unfold is_ascii_digit, in_range in Hb. bool_hyps.
  apply IH; [lia|done].
Qed.

Lemma thousandths_range v w : thousandths v = Some w -> 0 <= w <= 1000.
Proof.
  unfold thousandths. destruct (from_option _ _ _) as [whole fraction].
  intros (n & Hn & H)%bind_Some. assert (0 <= n <= 1000) by (repeat case_match; simplify_eq; lia).
  destruct (is_empty fraction); [by injection H as <-|]. destruct (_ || _) eqn:Hc; [done|]. bool_hyps.
  cbn zeta in H. destruct (_ <=? 1000) eqn:Hle in H; [|done]. injection H as <-. bool_hyps.
  pose proof (digits_of_nonneg fraction ltac:(done)). split; [|lia].
  assert (0 <= 10 ^ (3 - slen fraction)) by (apply Z.pow_nonneg; lia). nia.
Qed.

Lemma quality_range ps w : quality ps = Some w -> 0 <= w <= 1000.
Proof.
  unfold quality. enough (H : forall acc, 0 <= acc <= 1000 -> quality_from ps acc = Some w -> 0 <= w <= 1000)
    by (apply H; lia).
  induction ps as [|p ps IH]; intros acc Hacc; cbn; [by intros [= <-]|].
  destruct (split_once _ p) as [[name v]|]; [|by apply IH].
  destruct (negb _); [by apply IH|]. destruct (thousandths _) as [w'|] eqn:E; [|done].
  apply IH. by eapply thousandths_range.
Qed.

Lemma offer_weight e w l : offer e = Some (w, l) -> 0 < w <= 1000.
Proof.
  unfold offer. destruct (split_on _ e) as [|range ps]; [done|]. destruct (Locale.matching _); [|done].
  destruct (quality ps) as [w'|] eqn:E; [|done]. apply quality_range in E.
  destruct (w' =? 0) eqn:Hw; [done|]. intros [= <- <-]. bool_hyps. lia.
Qed.

(** The language of a page: the first preference of the client that this build has; else
    the heaviest of the browser's, the first of those of equal weight, a weight of zero being
    a refusal; else the tenant's. Nothing is refused. *)
Theorem negotiation_order ui accept default :
  (exists l before t after, ui = before ++ t :: after /\ Locale.matching t = Some l /\
     Forall (fun t => Locale.matching t = None) before /\ negotiate ui accept default = l) \/
  Forall (fun t => Locale.matching t = None) ui /\
  ((exists raw w, accept = Some raw /\ 0 < w <= 1000 /\
      best_of (take MAX_ACCEPT_LANGUAGE_ELEMENTS (split_on ","%char raw)) w (negotiate ui accept default)) \/
   negotiate ui accept default = default /\
   forall raw, accept = Some raw ->
     Forall (fun e => offer e = None) (take MAX_ACCEPT_LANGUAGE_ELEMENTS (split_on ","%char raw))).
Proof.
  unfold negotiate. destruct (first_matching ui) as [l|] eqn:Hui.
  { left. apply first_matching_Some in Hui as (b & t & a & Hui). exists l, b, t, a. tauto. }
  right. split; [by apply first_matching_None|]. destruct accept as [raw|]; cbn; [|right; by split].
  unfold from_accept_language. pose proof (fold_better (take MAX_ACCEPT_LANGUAGE_ELEMENTS (split_on ","%char raw))) as H.
  destruct (fold_left better _ None) as [[w l]|].
  - left. exists raw, w. split; [done|]. split; [|exact H].
    destruct H as (_ & e & _ & _ & He & _). by eapply offer_weight.
  - right. split; [done|]. by intros ? [= <-].
Qed.
