(* ===== verification/Users.v ===== *)
(** * People, and what is known of them

    [crates/domain/src/entities/user.rs]: the user, the names a claim may have, the set of
    claims, and the pairwise subject identifier; [entities/identity_assurance.rs]: what a
    verifier asserted; [json_sentinel.rs]: the member names no map may have.

    [serde_json]'s text of a value, the form of an instant, SHA-256 and base64 are
    parameters. *)

From S2P Require Import Prelude Text Bytes BTree Json Locale.
Open Scope Z_scope.

(** ** Reserved member names: [json_sentinel.rs] *)

Definition SERDE_JSON_SENTINELS : list string :=
  ["$serde_json::private::RawValue"; "$serde_json::private::Number"]%string.
Definition serde_json_sentinel (name : string) : option string :=
  List.find (fun sentinel => String.eqb sentinel name) SERDE_JSON_SENTINELS.
Definition is_serde_json_sentinel (name : string) : bool := bool_decide (is_Some (serde_json_sentinel name)).
Fixpoint names_a_serde_json_sentinel (v : value) : bool :=
  match v with
  | VArray items => existsb names_a_serde_json_sentinel items
  | VObject members =>
      existsb (fun '(name, member) => is_serde_json_sentinel name || names_a_serde_json_sentinel member) members
  | _ => false
  end.

(** ** The user *)

Inductive UserStatus : Type := Active | Disabled | Locked.
#[export] Instance user_status_eq_dec : EqDecision UserStatus.
Proof. solve_decision. Defined.

Module UserStatus.
Definition as_str (s : UserStatus) : string :=
  match s with Active => "active" | Disabled => "disabled" | Locked => "locked" end.
Definition parse (v : string) : option UserStatus :=
  if String.eqb v "active" then Some Active
  else if String.eqb v "disabled" then Some Disabled
  else if String.eqb v "locked" then Some Locked
  else None.
End UserStatus.

(** ** Claim names *)

Inductive ClaimError : Type :=
| NameLength (found : Z)
| NameCharacter (c : Z)
| LanguageTag
| Reserved (name : string)
| NullValue
| ReservedMemberName (name : string)
| ReservedMemberInValue.

Definition SERVER_ISSUED : list string :=
  ["acr"; "act"; "amr"; "at_hash"; "aud"; "auth_time"; "azp"; "c_hash"; "client_id"; "cnf"; "ds_hash";
   "exp"; "iat"; "iss"; "jti"; "may_act"; "nbf"; "nonce"; "s_hash"; "scope"; "session_expiry"; "sid";
   "sub"; "verified_claims"]%string.
Definition HELD_IN_A_COLUMN : list string := ["email"; "email_verified"; "updated_at"]%string.

Definition name_character (c : Z) : bool :=
  is_control c || is_whitespace c
  || in_range 0x200e 0x200f c || in_range 0x202a 0x202e c || in_range 0x2066 0x2069 c.

(** A [ClaimName] is the string [parse] accepted. *)
Abbreviation ClaimName := string (only parsing).

Module ClaimName.
Definition MAX_LEN : Z := 128.
Definition base (name : ClaimName) : string :=
  match split_once "#"%char name with Some (base, _) => base | None => name end.
Definition language_tag (name : ClaimName) : option string := snd <$> split_once "#"%char name.

Definition parse (raw : string) : result ClaimName ClaimError :=
  let length := Z.of_nat (length (chars raw)) in
  if (length =? 0) || (MAX_LEN <? length) then Err (NameLength length)
  else match List.find name_character (chars raw) with
  | Some bad => Err (NameCharacter bad)
  | None =>
      if is_empty (base raw) then Err (NameLength 0)
      else match serde_json_sentinel (base raw) with
      | Some sentinel => Err (ReservedMemberName sentinel)
      | None =>
          if is_some_and (fun tag => negb (is_language_tag tag)) (language_tag raw) then Err LanguageTag
          else match List.find (fun name => String.eqb name (base raw)) (SERVER_ISSUED ++ HELD_IN_A_COLUMN) with
          | Some reserved => Err (Reserved reserved)
          | None => Ok raw
          end
      end
  end.
End ClaimName.

(** ** Claims *)

Inductive ClaimSource : Type := Local | Admin | Import | Issuer (issuer : string).

Module ClaimSource.
Definition as_str (s : ClaimSource) : string :=
  match s with Local => "local" | Admin => "admin" | Import => "import" | Issuer issuer => issuer end.
End ClaimSource.

Record Claim : Type := { c_value : value; c_source : ClaimSource; c_verified_at : option Z }.

Module Claim.
Definition new (v : value) (source : ClaimSource) : result Claim ClaimError :=
  match v with
  | VNull => Err NullValue
  | _ => if names_a_serde_json_sentinel v then Err ReservedMemberInValue
         else Ok {| c_value := v; c_source := source; c_verified_at := None |}
  end.
Definition verified (c : Claim) (at_ : Z) : Claim :=
  {| c_value := c_value c; c_source := c_source c; c_verified_at := Some at_ |}.

(** [Claim]'s [Deserialize], of a row already split into its members. *)
Definition of_stored (v : value) (source : ClaimSource) (verified_at : option Z) : result Claim ClaimError :=
  let? claim := new v source in
  Ok (match verified_at with Some at_ => verified claim at_ | None => claim end).
End Claim.

(** A [BTreeMap] by name. *)
Abbreviation ClaimSet := (list (ClaimName * Claim)) (only parsing).

Module ClaimSet.
Definition new : ClaimSet := [].
Definition insert (name : ClaimName) (claim : Claim) (s : ClaimSet) : ClaimSet := binsert name claim s.
Definition remove (name : ClaimName) (s : ClaimSet) : ClaimSet :=
  List.filter (fun '(n, _) => negb (keqb name n)) s.
Definition get (name : ClaimName) (s : ClaimSet) : option Claim := bget name s.
Definition variants (base : string) (s : ClaimSet) : list (ClaimName * Claim) :=
  List.filter (fun '(name, _) => String.eqb (ClaimName.base name) base) s.

(** [ClaimSet]'s [Deserialize], of the map of the column. *)
Definition of_stored (stored : list (string * Claim)) : result ClaimSet ClaimError :=
  let? named := try_mapi (fun _ '(name, claim) => let? name := ClaimName.parse name in Ok (name, claim)) 0 stored in
  Ok (bmap_of_list named).
End ClaimSet.

Record User : Type := {
  u_tenant : string;
  u_id : list Z;  (** [UserId], its sixteen bytes *)
  u_username : string;
  u_email : option string;
  u_email_verified : bool;
  u_status : UserStatus;
  u_claims : ClaimSet;
  u_created_at : Z;
  u_updated_at : Z
}.

Definition can_authenticate (u : User) : bool := bool_decide (u_status u = Active).

(** ** Subject identifiers *)

(** The sector of a public subject. *)
Definition PUBLIC_SECTOR : string := "".

Inductive SubjectError : Type := Sector (why : string) | Salt.

Module PairwiseSalt.
Definition LEN : nat := 32.
(** [from_storage]: [material.try_into()]. *)
Definition from_storage (material : list Z) : result (list Z) SubjectError :=
  if (length material =? LEN)%nat then Ok material else Err Salt.

Definition SUBJECT_DOMAIN : list Z := bytes_of "asterius/pairwise-subject/v1".

(** [u64::try_from(n).unwrap_or(u64::MAX).to_be_bytes()] of a length. *)
Definition u64_be (n : nat) : list Z := be_bytes 8 (Z.min (Z.of_nat n) (2 ^ 64 - 1)).

(** What [derive_subject] hashes. *)
Definition subject_input (salt : list Z) (sector : string) (user : list Z) : list Z :=
  SUBJECT_DOMAIN ++ u64_be (String.length sector) ++ bytes_of sector ++ u64_be (length user) ++ user ++ salt.

Definition derive_subject (sha256 : list Z -> list Z) (base64url : list Z -> string)
    (salt : list Z) (sector : string) (user : list Z) : string :=
  base64url (sha256 (subject_input salt sector user)).
End PairwiseSalt.

(** ** Verified claims: [identity_assurance.rs] *)

Definition MAX_VERIFIED_CLAIMS : nat := 32.

Inductive VerifiedClaimsError : Type :=
| TrustFramework | ClaimCount | ClaimValue | BadClaimName | Size | VerificationProcess | Evidence.

(** A [VerifiedClaimName] is the string [parse] accepted. *)
Abbreviation VerifiedClaimName := string (only parsing).

Module VerifiedClaimName.
Definition parse (raw : string) : result VerifiedClaimName VerifiedClaimsError :=
  let? _ :=
    if in_strings raw ["email"; "email_verified"]%string then Ok raw
    else map_err (fun _ => BadClaimName) (ClaimName.parse raw) in
  if String.eqb raw "verified_claims" then Err BadClaimName else Ok raw.
End VerifiedClaimName.

Record Verification : Type := {
  v_trust_framework : string;
  v_verifier : string;
  v_time : Z;
  v_process : option string;
  v_evidence : list value
}.

Record VerifiedClaims : Type := {
  vc_verification : Verification;
  vc_claims : list (VerifiedClaimName * value)
}.

Definition is_identifier_byte (b : Z) : bool :=
  is_ascii_alphanumeric b || existsb (Z.eqb b) [45; 95; 46; 58; 47].
Definition is_identifier (max : Z) (s : string) : bool :=
  negb (is_empty s) && (slen s <=? max) && all_bytes is_identifier_byte s.

Definition EVIDENCE_TYPES : list string :=
  ["document"; "electronic_record"; "vouch"; "electronic_signature"]%string.
Definition evidence_type (entry : value) : option string := vget "type" entry ≫= as_str.

Fixpoint bounded_evidence (v : value) (depth : nat) : bool :=
  if (8 <? depth)%nat then false
  else match v with
  | VArray items => (length items <=? 32)%nat && forallb (fun item => bounded_evidence item (S depth)) items
  | VObject fields =>
      (length fields <=? 32)%nat
      && forallb (fun '(name, item) => (slen name <=? 128) && bounded_evidence item (S depth)) fields
  | VString text => slen text <=? 4096
  | _ => true
  end.

Module VerifiedClaims.
Section Text.
(** [serde_json]'s text, and an instant as RFC 3339 writes it. *)
Variable json_text : value -> string.
Variable rfc3339 : Z -> string.

Definition new (framework verifier : string) (time : Z) (claims : list (VerifiedClaimName * value))
    : result VerifiedClaims VerifiedClaimsError :=
  if negb (is_identifier 128 framework) then Err TrustFramework
  else if negb ((1 <=? length claims)%nat && (length claims <=? MAX_VERIFIED_CLAIMS)%nat) then Err ClaimCount
  else if existsb (fun v => match v with VNull => true | _ => names_a_serde_json_sentinel v end) (bvalues claims)
  then Err ClaimValue
  else if 64 * 1024 <? slen (json_text (VObject claims)) then Err Size
  else Ok {| vc_verification := {| v_trust_framework := framework; v_verifier := verifier; v_time := time;
                                   v_process := None; v_evidence := [] |};
             vc_claims := claims |}.

Definition from_storage (framework verifier : string) (time : Z) (claims : value)
    : result VerifiedClaims VerifiedClaimsError :=
  let? object := ok_or (as_object claims) ClaimValue in
  let? validated := try_mapi (fun _ '(raw, v) => let? name := VerifiedClaimName.parse raw in Ok (name, v)) 0 object in
  new framework verifier time (bmap_of_list validated).

Definition with_evidence (c : VerifiedClaims) (process : option string) (evidence : list value)
    : result VerifiedClaims VerifiedClaimsError :=
  if is_some_and (fun v => negb (is_identifier 256 v)) process then Err VerificationProcess
  else if (8 <? length evidence)%nat || (32 * 1024 <? slen (json_text (VArray evidence)))
     || existsb (fun entry => negb (is_some_and (fun kind => in_strings kind EVIDENCE_TYPES) (evidence_type entry))
                              || negb (bounded_evidence entry 0)) evidence
  then Err Evidence
  else
    let v := vc_verification c in
    Ok {| vc_verification := {| v_trust_framework := v_trust_framework v; v_verifier := v_verifier v;
                                v_time := v_time v; v_process := process; v_evidence := evidence |};
          vc_claims := vc_claims c |}.

(** The derived [Serialize]. *)
Definition verification_json (v : Verification) : value := jfields [
  ("trust_framework", Some (VString (v_trust_framework v)));
  ("time", Some (VString (rfc3339 (v_time v))));
  ("verification_process", VString <$> v_process v);
  ("evidence", match v_evidence v with [] => None | e => Some (VArray e) end)]%string.
Definition into_json (c : VerifiedClaims) : value :=
  jobj [("verification", verification_json (vc_verification c)); ("claims", VObject (vc_claims c))]%string.
End Text.
End VerifiedClaims.

(** ** Pairwise subjects *)

Lemma u64_be_inj n m : Z.of_nat n < 2 ^ 64 -> Z.of_nat m < 2 ^ 64 ->
  PairwiseSalt.u64_be n = PairwiseSalt.u64_be m -> n = m.
Proof.
  unfold PairwiseSalt.u64_be. intros Hn Hm H.
  apply be_bytes_unsigned in H; [lia|change (256 ^ Z.of_nat 8) with (2 ^ 64); lia..].
Qed.

(** A length and so many bytes, before anything else. *)
Lemma u64_field_inj a b r s : Z.of_nat (length a) < 2 ^ 64 -> Z.of_nat (length b) < 2 ^ 64 ->
  PairwiseSalt.u64_be (length a) ++ a ++ r = PairwiseSalt.u64_be (length b) ++ b ++ s -> a = b /\ r = s.
Proof.
  intros Ha Hb [Hl H]%app_inj_1; [|unfold PairwiseSalt.u64_be; by rewrite !be_bytes_length].
  apply u64_be_inj in Hl; [|done..]. by apply app_inj_1 in H.
Qed.

Lemma subject_input_inj salt salt' sector sector' user user' :
  Z.of_nat (String.length sector) < 2 ^ 64 -> Z.of_nat (String.length sector') < 2 ^ 64 ->
  Z.of_nat (length user) < 2 ^ 64 -> Z.of_nat (length user') < 2 ^ 64 ->
  PairwiseSalt.subject_input salt sector user = PairwiseSalt.subject_input salt' sector' user' ->
  salt = salt' /\ sector = sector' /\ user = user'.
Proof.
  unfold PairwiseSalt.subject_input. intros Hs Hs' Hu Hu' [_ H]%app_inj_1; [|done].
  rewrite <- (length_bytes_of sector), <- (length_bytes_of sector') in *.
  apply u64_field_inj in H as [Hsec H]; [|done..]. apply u64_field_inj in H as [Huser Hsalt]; [|done..].
  apply bytes_of_inj in Hsec. done.
Qed.

(** C25: Subjects do not connect sectors. Where two identifiers are the same, they were
    derived for one person in one sector under one salt - whatever the text of the sectors,
    no part can be moved into its neighbour - or two different inputs have been found with
    the same SHA-256. *)
Theorem pairwise_subjects_apart sha256 base64url salt salt' sector sector' user user' :
  (forall a b, base64url (sha256 a) = base64url (sha256 b) -> sha256 a = sha256 b) ->
  Z.of_nat (String.length sector) < 2 ^ 64 -> Z.of_nat (String.length sector') < 2 ^ 64 ->
  length user = 16%nat -> length user' = 16%nat ->
  PairwiseSalt.derive_subject sha256 base64url salt sector user =
    PairwiseSalt.derive_subject sha256 base64url salt' sector' user' ->
  (salt = salt' /\ sector = sector' /\ user = user') \/
  exists a b, a <> b /\ sha256 a = sha256 b /\
    a = PairwiseSalt.subject_input salt sector user /\ b = PairwiseSalt.subject_input salt' sector' user'.
Proof.
  intros Hb64 Hs Hs' Hu Hu' H%Hb64.
  destruct (decide (PairwiseSalt.subject_input salt sector user = PairwiseSalt.subject_input salt' sector' user'))
    as [E|E]; [left|right; by eexists _, _].
  apply subject_input_inj in E; [done|lia..].
Qed.

(** A digest of thirty-two bytes and a text of it, for a concrete instance. *)
Definition sum_digest (l : list Z) : list Z := repeat (fold_right Z.add 0 l mod 256) 32.
Definition first_byte (l : list Z) : string := pretty (from_option id 0 (head l)).

Lemma first_byte_inj a b : first_byte (sum_digest a) = first_byte (sum_digest b) -> sum_digest a = sum_digest b.
Proof. unfold first_byte. intros H%pretty_Z_inj. cbn in H. unfold sum_digest. by rewrite H. Qed.

Lemma pairwise_subjects_apart_witness :
  PairwiseSalt.derive_subject sum_digest first_byte (repeat 7 32) "a.example" (repeat 1 16) <>
  PairwiseSalt.derive_subject sum_digest first_byte (repeat 7 32) "b.example" (repeat 1 16) /\
  exists a b, a <> b /\ sum_digest a = sum_digest b.
Proof.
  split; [vm_compute; discriminate|].
  destruct (pairwise_subjects_apart sum_digest first_byte (repeat 7 32) (repeat 7 32) "ab" "ba" (repeat 1 16) (repeat 1 16))
    as [(_ & ? & _)|(a & b & ? & ? & _)]; [exact first_byte_inj
      |vm_compute; reflexivity..| |]; [discriminate|eauto].
Defined.
