(* ===== verification/Claims.v ===== *)
(** * Which claims a client receives

    [crates/oidc/src/claims.rs] and [claims/asc.rs]: the claims of the standard scopes, the
    names that may be released, the [claims] request parameter with its verified and its
    transformed claims, its stored form, and what it resolves to for a person.

    [serde_json]'s reader and writer of text are parameters. *)

From S2P Require Import Prelude Text BTree Json Roles Locale Users.
From Stdlib Require Import SpecFloat.
Open Scope Z_scope.

(** ** Scopes to claims *)

Definition PROFILE_CLAIMS : list string :=
  ["name"; "family_name"; "given_name"; "middle_name"; "nickname"; "preferred_username"; "profile";
   "picture"; "website"; "gender"; "birthdate"; "zoneinfo"; "locale"; "updated_at"]%string.
Definition EMAIL_CLAIMS : list string := ["email"; "email_verified"]%string.
Definition ADDRESS_CLAIMS : list string := ["address"]%string.
Definition PHONE_CLAIMS : list string := ["phone_number"; "phone_number_verified"]%string.
Definition SCOPE_CLAIMS : list (string * list string) :=
  [("profile", PROFILE_CLAIMS); ("email", EMAIL_CLAIMS); ("address", ADDRESS_CLAIMS); ("phone", PHONE_CLAIMS)]%string.

Definition claims_for_scope (scope : string) : list string :=
  match List.find (fun '(name, _) => String.eqb name scope) SCOPE_CLAIMS with
  | Some (_, claims) => claims
  | None => []
  end.

(** ** What may be released *)

Inductive UserAttribute : Type := Email | EmailVerified | UpdatedAt.
#[export] Instance user_attribute_eq_dec : EqDecision UserAttribute.
Proof. solve_decision. Defined.

Module UserAttribute.
Definition as_str (a : UserAttribute) : string :=
  match a with Email => "email" | EmailVerified => "email_verified" | UpdatedAt => "updated_at" end.
Definition ALL : list UserAttribute := [Email; EmailVerified; UpdatedAt].
Definition parse (raw : string) : option UserAttribute := List.find (fun a => String.eqb (as_str a) raw) ALL.
End UserAttribute.

(** [sort_unstable] and [dedup] of names. *)
Definition claims_from_scopes : list string := bset_of_list (concat (map snd SCOPE_CLAIMS)).
Definition claims_from_user_columns : list string := bset_of_list (map UserAttribute.as_str UserAttribute.ALL).

(** The claims an access token carries: [tokens/access.rs]. *)
Definition AUTHORISATION_CLAIMS : list string :=
  ["act"; "authorization_details"; "client_id"; "cnf"; "grant_id"; "scope"]%string.

Inductive ReleasableClaim : Type := Attribute (a : UserAttribute) | Stored (name : ClaimName).

Definition base_name (raw : string) : string :=
  match split_once "#"%char raw with Some (base, _) => base | None => raw end.

Module ReleasableClaim.
Definition parse (raw : string) : option ReleasableClaim :=
  if is_serde_json_sentinel raw then None
  else if bool_decide (is_Some (RoleClaim.parse (base_name raw))) then None
  else if in_strings (base_name raw) AUTHORISATION_CLAIMS then None
  else if in_strings (base_name raw) ["_claim_names"; "_claim_sources"]%string then None
  else match UserAttribute.parse raw with
  | Some a => Some (Attribute a)
  | None => match ClaimName.parse raw with Ok name => Some (Stored name) | Err _ => None end
  end.
Definition as_str (c : ReleasableClaim) : string :=
  match c with Attribute a => UserAttribute.as_str a | Stored name => name end.
End ReleasableClaim.

(** The derived order: the attributes first. *)
Definition claim_rank (c : ReleasableClaim) : string :=
  match c with
  | Attribute Email => "00" | Attribute EmailVerified => "01" | Attribute UpdatedAt => "02"
  | Stored name => String.String "1"%char name
  end.
#[export] Instance releasable_ord : Ord ReleasableClaim.
Proof. apply (ord_via claim_rank). intros [[]|n] [[]|m]; cbn; congruence. Defined.

(** ** [claims_locales] *)

Module ClaimsLocales.
Definition MAX : nat := 8.
Definition parse (raw : option string) : list string :=
  take MAX (List.filter is_language_tag (split_whitespace (from_option id ""%string raw))).
Definition from_tags (tags : list string) : list string := take MAX (List.filter is_language_tag tags).
End ClaimsLocales.

Definition primary_subtag (tag : string) : string :=
  match split_once "-"%char tag with Some (primary, _) => primary | None => tag end.

(** ** The [claims] request parameter *)

Inductive ClaimsRequestError : Type :=
| TooLarge | Malformed | NotAnObject | SectionNotAnObject (section : string) | EntryNotAnObject | TooDeep
| ReservedMember | TooManyClaims | UnsupportedIdentityAssurance | UnsupportedAdvancedClaims
| AdvancedClaimsAborted.

Abbreviation parsed A := (result A ClaimsRequestError).
Definition has (name : string) (members : object) : bool := bool_decide (is_Some (bget name members)).

Record IdaRequest : Type := {
  ida_framework : option string;
  ida_claims : list (VerifiedClaimName * bool);
  ida_evidence_types : list string;
  ida_verification_process : bool
}.

Module IdaRequest.
Definition bad {A} : parsed A := Err UnsupportedIdentityAssurance.
Definition need {A} (o : option A) : parsed A := ok_or o UnsupportedIdentityAssurance.

(** [{"value": text}] and nothing else. *)
Definition only_value (constraint : object) : parsed string :=
  if negb (length constraint =? 1)%nat then bad else need (bget "value"%string constraint ≫= as_str).

Definition parse_evidence_entry (entry : value) (kinds : list string) : parsed (list string) :=
  let? object := need (as_object entry) in
  if negb (length object =? 1)%nat then bad
  else
    let? constraint := need (bget "type"%string object ≫= as_object) in
    let? kind := only_value constraint in
    if in_strings kind EVIDENCE_TYPES then Ok (bset_insert kind kinds) else bad.

Definition parse_evidence (verification : object) : parsed (list string) :=
  match bget "evidence"%string verification with
  | None => Ok []
  | Some evidence =>
      let? entries := need (as_array evidence) in
      if (length entries =? 0)%nat || (4 <? length entries)%nat then bad
      else try_fold parse_evidence_entry entries []
  end.

Definition parse_framework (verification : object) : parsed (option string) :=
  match bget "trust_framework"%string verification with
  | Some VNull => Ok None
  | Some (VObject constraint) =>
      let? framework := only_value constraint in
      if is_identifier 128 framework then Ok (Some framework) else bad
  | _ => bad
  end.

Definition parse_claim (entry : string * value) (claims : list (VerifiedClaimName * bool))
    : parsed (list (VerifiedClaimName * bool)) :=
  let '(raw, entry) := entry in
  let? name := map_err (fun _ => UnsupportedIdentityAssurance) (VerifiedClaimName.parse raw) in
  let? essential := match entry with
    | VNull => Ok false
    | VObject [] => Ok false
    | VObject [(key, v)] =>
        need (match bget "essential"%string [(key, v)] with Some (VBool b) => Some b | _ => None end)
    | _ => bad
    end in
  Ok (binsert name essential claims).

Definition parse (v : value) : parsed IdaRequest :=
  let? object := need (as_object v) in
  if negb (length object =? 2)%nat || negb (has "verification" object) || negb (has "claims" object) then bad
  else
    let? verification := need (bget "verification"%string object ≫= as_object) in
    if negb ((1 <=? length verification)%nat && (length verification <=? 3)%nat)
       || existsb (fun key => negb (in_strings key ["trust_framework"; "evidence"; "verification_process"]%string))
            (bkeys verification)
    then bad
    else
      let? process := match bget "verification_process"%string verification with
        | None => Ok false | Some VNull => Ok true | _ => bad end in
      let? kinds := parse_evidence verification in
      let? framework := parse_framework verification in
      let? requested := need (bget "claims"%string object ≫= as_object) in
      if (length requested =? 0)%nat || (32 <? length requested)%nat then bad
      else
        let? claims := try_fold parse_claim requested [] in
        Ok {| ida_framework := framework; ida_claims := claims; ida_evidence_types := kinds;
              ida_verification_process := process |}.

Definition claim_json (essential : bool) : value :=
  if essential then jobj [("essential"%string, VBool true)] else VNull.
Definition evidence_json (kind : string) : value :=
  jobj [("type", jobj [("value", VString kind)])]%string.

Definition to_json (r : IdaRequest) : value := jobj [
  ("verification", jfields [
     ("trust_framework", Some (match ida_framework r with
                               | Some framework => jobj [("value", VString framework)] | None => VNull end));
     ("verification_process", if ida_verification_process r then Some VNull else None);
     ("evidence", match ida_evidence_types r with
                  | [] => None | kinds => Some (VArray (map evidence_json kinds)) end)]);
  ("claims", jobj (map (fun '(name, essential) => (name, claim_json essential)) (ida_claims r)))]%string.
End IdaRequest.

(** [project_verified_claims] *)
Definition eligible (request : IdaRequest) (allowed : list string) (bundle : VerifiedClaims) : bool :=
  let verification := vc_verification bundle in
  in_strings (v_trust_framework verification) allowed
  && is_none_or (fun wanted => String.eqb wanted (v_trust_framework verification)) (ida_framework request)
  && existsb (fun name => bool_decide (is_Some (bget name (vc_claims bundle)))) (bkeys (ida_claims request))
  && (match ida_evidence_types request with [] => true | _ => false end
      || existsb (fun entry => is_some_and (fun kind => in_strings kind (ida_evidence_types request))
                                 (evidence_type entry)) (v_evidence verification)).

Definition projected_evidence (request : IdaRequest) (bundle : VerifiedClaims) : option value :=
  match ida_evidence_types request with
  | [] => None
  | kinds =>
      match omap (fun entry => kind ← evidence_type entry;
                    if in_strings kind kinds then Some (jobj [("type"%string, VString kind)]) else None)
              (v_evidence (vc_verification bundle)) with
      | [] => None
      | evidence => Some (VArray evidence)
      end
  end.

Definition project_verified_claims (rfc3339 : Z -> string) (request : IdaRequest) (bundles : list VerifiedClaims)
    (allowed_frameworks : list string) : option value :=
  bundle ← List.find (eligible request allowed_frameworks) bundles;
  let verification := vc_verification bundle in
  Some (jobj [
    ("verification", jfields [
       ("trust_framework", Some (VString (v_trust_framework verification)));
       ("time", Some (VString (rfc3339 (v_time verification))));
       ("verification_process",
          if ida_verification_process request then VString <$> v_process verification else None);
       ("evidence", projected_evidence request bundle)]);
    ("claims", jobj (omap (fun name => v ← bget name (vc_claims bundle); Some (name, v))
                       (bkeys (ida_claims request))))]%string).

(** ** One entry, one section *)

Record ClaimRequest : Type := { essential : bool; accepted_values : list value }.
Definition default_claim : ClaimRequest := {| essential := false; accepted_values := [] |}.

Definition claim_request_json (r : ClaimRequest) : value := jfields [
  ("essential", if essential r then Some (VBool true) else None);
  ("values", match accepted_values r with [] => None | vs => Some (VArray vs) end)]%string.

Definition parse_entry (entry : value) : parsed ClaimRequest :=
  match entry with
  | VNull => Ok default_claim
  | VObject members => Ok {|
      essential := match bget "essential"%string members with Some (VBool b) => b | _ => false end;
      accepted_values :=
        match bget "value"%string members with Some v => [v] | None => [] end
        ++ match bget "values"%string members with Some (VArray listed) => listed | _ => [] end |}
  | _ => Err EntryNotAnObject
  end.

Definition MAX_LEN : Z := 4096.
Definition MAX_JSON_DEPTH : nat := 8.
Definition MAX_CLAIMS : nat := 64.

(** The order of [RoleClaim] as derived. *)
#[export] Instance role_claim_ord : Ord RoleClaim.
Proof.
  apply (ord_via (fun c => match c with CRoles => 0 | CResourceAccess => 1 end)%nat).
  by intros [] [].
Defined.

(** What the loop of [parse_section] holds. *)
Record Section : Type := {
  sec_claims : list (ReleasableClaim * ClaimRequest);
  sec_acr : option ClaimRequest;
  sec_roles : list RoleClaim
}.

Definition parse_member (member : string * value) (s : Section) : parsed Section :=
  let '(name, entry) := member in
  if String.eqb name "verified_claims" then Ok s
  else if starts_with ":" name then Ok s
  else
    let? entry := parse_entry entry in
    if String.eqb name "acr" then Ok {|
      sec_claims := sec_claims s;
      sec_acr := match sec_acr s with Some acr => Some acr | None => Some entry end;
      sec_roles := sec_roles s |}
    else match RoleClaim.parse name with
    | Some claim => Ok {| sec_claims := sec_claims s; sec_acr := sec_acr s;
                          sec_roles := bset_insert claim (sec_roles s) |}
    | None =>
        match ReleasableClaim.parse name with
        | Some claim => Ok {| sec_claims := binsert claim entry (sec_claims s); sec_acr := sec_acr s;
                              sec_roles := sec_roles s |}
        | None => Ok s
        end
    end.

(** The claims of a section, with [acr] and the role claims as they are afterwards. *)
Definition parse_section (root : object) (member : string) (acr : option ClaimRequest) (roles : list RoleClaim)
    : parsed Section :=
  let none := {| sec_claims := []; sec_acr := acr; sec_roles := roles |} in
  match bget member root with
  | None | Some VNull => Ok none
  | Some (VObject section) =>
      if (MAX_CLAIMS <? length section)%nat then Err TooManyClaims
      else try_fold parse_member section none
  | Some _ => Err (SectionNotAnObject member)
  end.

Definition parse_ida_section (root : object) (member : string) : parsed (option IdaRequest) :=
  match bget member root with
  | Some (VObject section) =>
      match bget "verified_claims"%string section with
      | Some v => let? r := IdaRequest.parse v in Ok (Some r)
      | None => Ok None
      end
  | _ => Ok None
  end.

Fixpoint json_depth (v : value) : nat :=
  match v with
  | VArray items => S (fold_right (fun item d => Nat.max (json_depth item) d) 0%nat items)
  | VObject members => S (fold_right (fun '(_, member) d => Nat.max (json_depth member) d) 0%nat members)
  | _ => 1
  end.

(** ** Advanced claims: [claims/asc.rs] *)

Definition FUNCTIONS : list string :=
  ["eq"; "contains"; "starts_with"; "ends_with"; "gt"; "gte"; "lt"; "lte"]%string.
Definition MAX_COUNT : nat := 8.
Definition MAX_FUNCTIONS : nat := 2.
Definition MAX_RULES : nat := 8.

Record Function_ : Type := { f_name : string; f_argument : value }.
Record Definition_ : Type := { df_base : ReleasableClaim; df_functions : list Function_ }.
Record Rule : Type := { ru_loc : string; ru_expected : option (list value); ru_omit : option (list string) }.

Record AscRequest : Type := {
  as_definitions : list (string * Definition_);
  as_id_token : list (string * ClaimRequest);
  as_userinfo : list (string * ClaimRequest);
  as_id_rules : list Rule;
  as_user_rules : list Rule
}.

Definition invalid {A} : parsed A := Err UnsupportedAdvancedClaims.
Definition want {A} (o : option A) : parsed A := ok_or o UnsupportedAdvancedClaims.

Definition is_string (v : value) : bool := match v with VString _ => true | _ => false end.
Definition is_boolean (v : value) : bool := match v with VBool _ => true | _ => false end.
Definition is_number (v : value) : bool := match v with VNumber _ => true | _ => false end.
Definition scalar (v : value) : bool := is_string v || is_boolean v || is_number v.

Definition direct_pointer (raw : string) : parsed string :=
  let? name := want (strip_char "/"%char raw) in
  if is_empty name || contains_char "/"%char name || contains_char "~"%char name
     || (negb (bool_decide (is_Some (ReleasableClaim.parse name))) && negb (starts_with ":" name))
  then invalid else Ok name.

Definition parse_function (index : nat) (function : value) : parsed Function_ :=
  let? call := want (as_array function) in
  match call with
  | [name; argument] =>
      let? name := want (as_str name) in
      let valid :=
        if String.eqb name "eq" then scalar argument
        else if in_strings name ["contains"; "starts_with"; "ends_with"]%string then is_string argument
        else if in_strings name ["gt"; "gte"; "lt"; "lte"]%string then is_number argument
        else false in
      if negb valid then invalid
      else if (0 <? index)%nat && (negb (String.eqb name "eq") || negb (is_boolean argument)) then invalid
      else Ok {| f_name := name; f_argument := argument |}
  | _ => invalid
  end.

Definition alias_ok (alias : string) : bool :=
  negb (is_empty alias) && (slen alias <=? 64)
  && all_bytes (fun b => is_ascii_alphanumeric b || (b =? 95)) alias.

Definition parse_definition (entry : string * value) (definitions : list (string * Definition_))
    : parsed (list (string * Definition_)) :=
  let '(alias, raw) := entry in
  if negb (alias_ok alias) then invalid
  else
    let? definition := want (as_object raw) in
    if negb (length definition =? 2)%nat || negb (has "claim" definition) || negb (has "fn" definition) then invalid
    else
      let? base := want (claim ← bget "claim"%string definition; claim ← as_str claim; ReleasableClaim.parse claim) in
      let? functions := want (bget "fn"%string definition ≫= as_array) in
      if (length functions =? 0)%nat || (MAX_FUNCTIONS <? length functions)%nat then invalid
      else
        let? fs := try_mapi parse_function 0 functions in
        Ok (binsert alias {| df_base := base; df_functions := fs |} definitions).

Definition parse_definitions (raw : option value) : parsed (list (string * Definition_)) :=
  match raw with
  | None => Ok []
  | Some raw =>
      let? values := want (as_object raw) in
      if (length values =? 0)%nat || (MAX_COUNT <? length values)%nat then invalid
      else try_fold parse_definition values []
  end.

Definition parse_alias (definitions : list (string * Definition_)) (member : string * value)
    (aliases : list (string * ClaimRequest)) : parsed (list (string * ClaimRequest)) :=
  let '(name, entry) := member in
  match strip_char ":"%char name with
  | None => Ok aliases
  | Some alias =>
      if starts_with ":" alias || negb (bool_decide (is_Some (bget alias definitions))) || (MAX_COUNT <=? length aliases)%nat then invalid
      else if is_some_and (fun members =>
                existsb (fun key => negb (String.eqb key "essential")) (bkeys members)
                || is_some_and (fun v => negb (is_boolean v)) (bget "essential"%string members))
             (as_object entry)
      then invalid
      else let? entry := parse_entry entry in Ok (binsert alias entry aliases)
  end.

Definition parse_aliases (root : object) (section : string) (definitions : list (string * Definition_))
    : parsed (list (string * ClaimRequest)) :=
  match bget section root ≫= as_object with
  | Some members => try_fold (parse_alias definitions) members []
  | None => Ok []
  end.

Definition parse_expected (fields : object) : parsed (option (list value)) :=
  let? method := match bget "method"%string fields with
    | None => Ok "exists"%string | Some (VString method) => Ok method | Some _ => invalid end in
  if String.eqb method "exists" && negb (has "value" fields) && negb (has "values" fields) then Ok None
  else if String.eqb method "simple" && negb (Bool.eqb (has "value" fields) (has "values" fields)) then
    let? values := match bget "value"%string fields with
      | Some v => Ok [v]
      | None => want (bget "values"%string fields ≫= as_array)
      end in
    if (length values =? 0)%nat || (MAX_COUNT <? length values)%nat || negb (forallb scalar values) then invalid
    else Ok (Some values)
  else invalid.

Definition parse_omit (fields : object) (loc : string) : parsed (option (list string)) :=
  match bget "else"%string fields ≫= as_str with
  | Some action =>
      if String.eqb action "abort" && negb (has "what" fields) then Ok None
      else if String.eqb action "omit" then
        match bget "what"%string fields with
        | None => Ok (Some [loc])
        | Some (VArray paths) =>
            if negb (length paths =? 0)%nat && (length paths <=? MAX_COUNT)%nat then
              let? names := try_mapi (fun _ path => let? path := want (as_str path) in direct_pointer path) 0 paths in
              Ok (Some names)
            else invalid
        | Some _ => invalid
        end
      else invalid
  | None => invalid
  end.

Definition parse_rule (raw : value) : parsed Rule :=
  let? fields := want (as_object raw) in
  if existsb (fun key => negb (in_strings key ["loc"; "method"; "value"; "values"; "else"; "what"]%string))
       (bkeys fields)
  then invalid
  else
    let? loc := want (bget "loc"%string fields ≫= as_str) in
    let? loc := direct_pointer loc in
    let? expected := parse_expected fields in
    let? omit := parse_omit fields loc in
    Ok {| ru_loc := loc; ru_expected := expected; ru_omit := omit |}.

Definition parse_rules (raw : option value) : parsed (list Rule) :=
  match raw with
  | None => Ok []
  | Some raw =>
      let? rules := want (as_array raw) in
      if (length rules =? 0)%nat || (MAX_RULES <? length rules)%nat then invalid
      else try_mapi (fun _ => parse_rule) 0 rules
  end.

(** Whether an alias a rule names is one of its section. *)
Definition names_known_alias (aliases : list (string * ClaimRequest)) (name : string) : bool :=
  match strip_char ":"%char name with Some alias => bool_decide (is_Some (bget alias aliases)) | None => true end.
Definition rule_ok (aliases : list (string * ClaimRequest)) (r : Rule) : bool :=
  forallb (names_known_alias aliases) (ru_loc r :: from_option id [] (ru_omit r)).

Module AscRequest.
Definition aliases_present (root : object) : bool :=
  existsb (fun section => is_some_and (fun members => existsb (starts_with ":") (bkeys members))
                            (bget section root ≫= as_object)) ["id_token"; "userinfo"]%string.

Definition parse_sao (asc : object) : parsed (list Rule * list Rule) :=
  match bget "sao"%string asc with
  | None => Ok ([], [])
  | Some raw =>
      let? sections := want (as_object raw) in
      if (length sections =? 0)%nat
         || existsb (fun key => negb (in_strings key ["id_token"; "userinfo"]%string)) (bkeys sections)
      then invalid
      else
        let? id_rules := parse_rules (bget "id_token"%string sections) in
        let? user_rules := parse_rules (bget "userinfo"%string sections) in
        Ok (id_rules, user_rules)
  end.

Definition parse (root : object) : parsed (option AscRequest) :=
  match bget "_asc"%string root with
  | None => if aliases_present root then invalid else Ok None
  | Some raw =>
      let? asc := want (as_object raw) in
      if (length asc =? 0)%nat
         || existsb (fun key => negb (in_strings key ["transformed_claims"; "sao"]%string)) (bkeys asc)
      then invalid
      else
        let? definitions := parse_definitions (bget "transformed_claims"%string asc) in
        let? id_token := parse_aliases root "id_token" definitions in
        let? userinfo := parse_aliases root "userinfo" definitions in
        let? rules := parse_sao asc in
        if negb (forallb (rule_ok id_token) (fst rules)) || negb (forallb (rule_ok userinfo) (snd rules))
        then invalid
        else Ok (Some {| as_definitions := definitions; as_id_token := id_token; as_userinfo := userinfo;
                         as_id_rules := fst rules; as_user_rules := snd rules |})
  end.

Definition function_json (f : Function_) : value := VArray [VString (f_name f); f_argument f].
Definition definition_json (d : Definition_) : value :=
  jobj [("claim", VString (ReleasableClaim.as_str (df_base d)));
        ("fn", VArray (map function_json (df_functions d)))]%string.

Definition rule_json (r : Rule) : value := jfields [
  ("loc", Some (VString ("/" +:+ ru_loc r)));
  ("method", Some (VString (match ru_expected r with Some _ => "simple" | None => "exists" end)));
  ("values", VArray <$> ru_expected r);
  ("else", Some (VString (match ru_omit r with Some _ => "omit" | None => "abort" end)));
  ("what", (fun omit => VArray (map (fun name => VString ("/" +:+ name)) omit)) <$> ru_omit r)]%string.
Definition rules_json (rules : list Rule) : option value :=
  match rules with [] => None | _ => Some (VArray (map rule_json rules)) end.

Definition definitions_json (ds : list (string * Definition_)) : option value :=
  match ds with [] => None | _ => Some (jobj (map (fun '(name, d) => (name, definition_json d)) ds)) end.
Definition sao_json (id_rules user_rules : list Rule) : option value :=
  match rules_json id_rules, rules_json user_rules with
  | None, None => None
  | _, _ => Some (jfields [("id_token", rules_json id_rules); ("userinfo", rules_json user_rules)])
  end%string.

Definition asc_json (r : AscRequest) : value := jfields [
  ("transformed_claims", definitions_json (as_definitions r));
  ("sao", sao_json (as_id_rules r) (as_user_rules r))]%string.

Definition alias_members (aliases : list (string * ClaimRequest)) : list (string * value) :=
  map (fun '(name, entry) => (":" +:+ name, claim_request_json entry))%string aliases.

(** The aliases written into one section of [root], where it is an object. *)
Definition add_aliases (section : string) (aliases : list (string * ClaimRequest)) (root : object) : object :=
  match bget section root with
  | Some (VObject target) =>
      binsert section (VObject (fold_left (fun m '(k, v) => binsert k v m) (alias_members aliases) target)) root
  | _ => root
  end.

Definition add_json (r : AscRequest) (root : object) : object :=
  add_aliases "userinfo" (as_userinfo r)
    (add_aliases "id_token" (as_id_token r) (binsert "_asc"%string (asc_json r) root)).

Definition consent_surface (json_text : value -> string) (r : AscRequest) : string :=
  json_text (VObject (add_json r (bmap_of_list [("id_token", VObject []); ("userinfo", VObject [])]%string))).

Definition alias_line (r : AscRequest) (destination alias : string) : option string :=
  d ← bget alias (as_definitions r);
  Some (destination +:+ ": transformed " +:+ ReleasableClaim.as_str (df_base d) +:+ " as :" +:+ alias
        +:+ " (base claim consulted)")%string.
Definition rule_line (destination : string) (r : Rule) : string :=
  (destination +:+ ": conditional " +:+ (match ru_omit r with Some _ => "omission" | None => "release" end)
   +:+ " based on " +:+ ru_loc r)%string.
Definition consent_lines (r : AscRequest) : list string :=
  omap (alias_line r "ID token") (bkeys (as_id_token r)) ++ omap (alias_line r "UserInfo") (bkeys (as_userinfo r))
  ++ map (rule_line "ID token") (as_id_rules r) ++ map (rule_line "UserInfo") (as_user_rules r).
End AscRequest.

(** ** The whole request *)

Record ClaimsRequest : Type := {
  cr_id_token : list (ReleasableClaim * ClaimRequest);
  cr_userinfo : list (ReleasableClaim * ClaimRequest);
  cr_acr : option ClaimRequest;
  cr_role_claims : list RoleClaim;
  cr_ida_id_token : option IdaRequest;
  cr_ida_userinfo : option IdaRequest;
  cr_asc : option AscRequest
}.

Definition default_claims : ClaimsRequest := {|
  cr_id_token := []; cr_userinfo := []; cr_acr := None; cr_role_claims := [];
  cr_ida_id_token := None; cr_ida_userinfo := None; cr_asc := None |}.

Definition section_json (claims : list (ReleasableClaim * ClaimRequest)) : object :=
  bmap_of_list (map (fun '(claim, entry) => (ReleasableClaim.as_str claim, claim_request_json entry)) claims).

Module ClaimsRequest.
Definition is_empty (r : ClaimsRequest) : bool :=
  match cr_id_token r, cr_userinfo r, cr_acr r, cr_role_claims r, cr_ida_id_token r, cr_ida_userinfo r, cr_asc r with
  | [], [], None, [], None, None, None => true
  | _, _, _, _, _, _, _ => false
  end.
Definition has_advanced_claims (r : ClaimsRequest) : bool := bool_decide (is_Some (cr_asc r)).
Definition advanced_claims_consent_surface (json_text : value -> string) (r : ClaimsRequest) : option string :=
  AscRequest.consent_surface json_text <$> cr_asc r.
Definition advanced_claims_consent_lines (r : ClaimsRequest) : list string :=
  match cr_asc r with Some asc => AscRequest.consent_lines asc | None => [] end.

Definition insert_ida (ida : option IdaRequest) (section : object) : object :=
  match ida with Some r => binsert "verified_claims"%string (IdaRequest.to_json r) section | None => section end.

Definition id_token_json (r : ClaimsRequest) : object :=
  let section := section_json (cr_id_token r) in
  let section := match cr_acr r with
                 | Some acr => binsert "acr"%string (claim_request_json acr) section | None => section end in
  let section := fold_left (fun m claim => binsert (RoleClaim.as_str claim) (VObject []) m) (cr_role_claims r) section in
  insert_ida (cr_ida_id_token r) section.
Definition userinfo_json (r : ClaimsRequest) : object :=
  insert_ida (cr_ida_userinfo r) (section_json (cr_userinfo r)).

Definition to_json (r : ClaimsRequest) : value :=
  let root := bmap_of_list [("id_token", VObject (id_token_json r)); ("userinfo", VObject (userinfo_json r))]%string in
  VObject (match cr_asc r with Some asc => AscRequest.add_json asc root | None => root end).

(** [parse] of the document, up to the length of its canonical form. *)
Definition read (document : value) : parsed ClaimsRequest :=
  if (MAX_JSON_DEPTH <? json_depth document)%nat then Err TooDeep
  else if names_a_serde_json_sentinel document then Err ReservedMember
  else match document with
  | VObject root =>
      let? ida_id_token := parse_ida_section root "id_token" in
      let? ida_userinfo := parse_ida_section root "userinfo" in
      let? asc := AscRequest.parse root in
      let? id_token := parse_section root "id_token" None [] in
      let? userinfo := parse_section root "userinfo" (sec_acr id_token) [] in
      Ok {| cr_id_token := sec_claims id_token; cr_userinfo := sec_claims userinfo; cr_acr := sec_acr userinfo;
            cr_role_claims := sec_roles id_token; cr_ida_id_token := ida_id_token;
            cr_ida_userinfo := ida_userinfo; cr_asc := asc |}
  | _ => Err NotAnObject
  end.

Section Text.
Variable from_str : string -> option value.
Variable json_text : value -> string.

Definition parse (raw : string) : parsed ClaimsRequest :=
  if MAX_LEN <? slen raw then Err TooLarge
  else
    let? document := ok_or (from_str raw) Malformed in
    let? request := read document in
    if MAX_LEN <? slen (json_text (to_json request)) then Err TooLarge else Ok request.

Definition from_json (v : value) : parsed ClaimsRequest := parse (json_text v).
End Text.
End ClaimsRequest.

(** ** Resolution *)

(** [find] and [pick] over the stored spellings. *)
Definition pick_variant (p : string -> bool) (variants : list (ClaimName * Claim)) : option value :=
  (fun '(_, claim) => c_value claim)
    <$> List.find (fun '(name, _) => is_some_and p (ClaimName.language_tag name)) variants.

(** The loop over the preferences. *)
Fixpoint first_preferred (p : string -> string -> bool) (preferences : list string)
    (variants : list (ClaimName * Claim)) : option value :=
  match preferences with
  | [] => None
  | wanted :: rest =>
      match pick_variant (p wanted) variants with
      | Some v => Some v
      | None => first_preferred p rest variants
      end
  end.

Definition exact_tag (wanted tag : string) : bool := eq_ignore_ascii_case tag wanted.
Definition same_language (wanted tag : string) : bool :=
  eq_ignore_ascii_case (primary_subtag tag) (primary_subtag wanted).

Definition select (claims : ClaimSet) (name : ClaimName) (locales : list string) : option value :=
  match ClaimName.language_tag name with
  | Some _ => c_value <$> ClaimSet.get name claims
  | None =>
      let variants := ClaimSet.variants (ClaimName.base name) claims in
      match first_preferred exact_tag locales variants with
      | Some v => Some v
      | None =>
          match first_preferred same_language locales variants with
          | Some v => Some v
          | None => c_value <$> ClaimSet.get name claims
          end
      end
  end.

Definition project (user : User) (claim : ReleasableClaim) (locales : list string) : option value :=
  match claim with
  | Attribute Email => VString <$> u_email user
  | Attribute EmailVerified => (fun _ => VBool (u_email_verified user)) <$> u_email user
  | Attribute UpdatedAt => Some (json_i64 (u_updated_at user / 10 ^ 9))
  | Stored name => select (u_claims user) name locales
  end.

Record ResolvedClaims : Type := { rc_id_token : object; rc_userinfo : object }.

(** One claim of a loop of [resolve]: inserted where the person has it. *)
Definition insert_projected (user : User) (locales : list string) (target : object) (claim : ReleasableClaim) : object :=
  match project user claim locales with
  | Some v => binsert (ReleasableClaim.as_str claim) v target
  | None => target
  end.
Definition insert_named (user : User) (locales : list string) (target : object) (name : string) : object :=
  match ReleasableClaim.parse name with
  | Some claim =>
      match project user claim locales with Some v => binsert name v target | None => target end
  | None => target
  end.

Definition resolve (user : User) (scopes : list string) (requested : ClaimsRequest) (locales : list string)
    : ResolvedClaims :=
  let from_scopes := fold_left (insert_named user locales) (concat (map claims_for_scope scopes)) [] in
  {| rc_id_token := fold_left (insert_projected user locales) (bkeys (cr_id_token requested)) [];
     rc_userinfo := fold_left (insert_projected user locales) (bkeys (cr_userinfo requested)) from_scopes |}.

Definition same_kind (a b : value) : bool :=
  match a, b with
  | VNull, VNull | VBool _, VBool _ | VNumber _, VNumber _ | VString _, VString _ | VArray _, VArray _
  | VObject _, VObject _ => true
  | _, _ => false
  end.

(** [Function::apply] *)
Definition apply_function (f : Function_) (input : value) : option value :=
  let argument := f_argument f in
  let text (p : string -> string -> bool) := i ← as_str input; a ← as_str argument; Some (VBool (p i a)) in
  let numeric (p : spec_float -> spec_float -> bool) := i ← as_f64 input; a ← as_f64 argument; Some (VBool (p i a)) in
  if String.eqb (f_name f) "eq" then
    if scalar input && same_kind input argument then Some (VBool (value_eqb input argument)) else None
  else if String.eqb (f_name f) "contains" then text (fun i a => contains a i)
  else if String.eqb (f_name f) "starts_with" then text (fun i a => starts_with a i)
  else if String.eqb (f_name f) "ends_with" then text (fun i a => ends_with a i)
  else if String.eqb (f_name f) "gt" then numeric (fun i a => SFltb a i)
  else if String.eqb (f_name f) "gte" then numeric (fun i a => SFleb a i)
  else if String.eqb (f_name f) "lt" then numeric SFltb
  else if String.eqb (f_name f) "lte" then numeric SFleb
  else None.

(** The functions of a definition, one after the other; nothing where one has no answer. *)
Fixpoint apply_functions (fs : list Function_) (v : value) : option value :=
  match fs with
  | [] => Some v
  | f :: fs => v ← apply_function f v; apply_functions fs v
  end.

Definition transformed (r : AscRequest) (user : User) (locales : list string) (alias : string) : option value :=
  definition ← bget alias (as_definitions r);
  v ← project user (df_base definition) locales;
  apply_functions (df_functions definition) v.

Definition transform (r : AscRequest) (user : User) (locales : list string)
    (aliases : list (string * ClaimRequest)) (target : object) : object :=
  fold_left (fun target alias =>
      match transformed r user locales alias with
      | Some v => binsert (":" +:+ alias)%string v target
      | None => target
      end) (bkeys aliases) target.

Definition rule_matched (r : Rule) (target : object) : bool :=
  is_some_and (fun v => is_none_or (value_in v) (ru_expected r)) (bget (ru_loc r) target).
Definition apply_rule (r : Rule) (target : object) : parsed object :=
  if rule_matched r target then Ok target
  else match ru_omit r with
  | None => Err AdvancedClaimsAborted
  | Some omit => Ok (fold_left (fun m name => bremove name m) omit target)
  end.
Definition apply_rules (rules : list Rule) (target : object) : parsed object := try_fold apply_rule rules target.

Definition asc_apply (r : AscRequest) (user : User) (locales : list string) (resolved : ResolvedClaims)
    : parsed ResolvedClaims :=
  let id_token := transform r user locales (as_id_token r) (rc_id_token resolved) in
  let userinfo := transform r user locales (as_userinfo r) (rc_userinfo resolved) in
  let? id_token := apply_rules (as_id_rules r) id_token in
  let? userinfo := apply_rules (as_user_rules r) userinfo in
  Ok {| rc_id_token := id_token; rc_userinfo := userinfo |}.

Definition resolve_checked (user : User) (scopes : list string) (requested : ClaimsRequest) (locales : list string)
    : parsed ResolvedClaims :=
  let result := resolve user scopes requested locales in
  match cr_asc requested with
  | Some asc => asc_apply asc user locales result
  | None => Ok result
  end.

(** ** On a grant *)

Section Grant.
Variable from_str : string -> option value.
Variable json_text : value -> string.

(** [from_json(value).ok()] *)
Definition readable_request (v : value) : option ClaimsRequest :=
  match ClaimsRequest.from_json from_str json_text v with Ok r => Some r | Err _ => None end.

(** What [record_on_grant] writes: the claims and the locales. *)
Definition recorded_request (parameters : value) : ClaimsRequest :=
  from_option id default_claims (vget "claims" parameters ≫= readable_request).
Definition recorded_locales (parameters : value) : list string :=
  match vget "claims_locales" parameters ≫= as_array with
  | Some tags => ClaimsLocales.from_tags (omap as_str tags)
  | None => []
  end.

(** [resolve_for_grant], of what a grant holds. *)
Definition resolve_for_grant (user : User) (scopes : list string) (claims : value) (claims_locales : list string)
    : parsed ResolvedClaims :=
  let? requested := ClaimsRequest.from_json from_str json_text claims in
  resolve_checked user scopes requested (ClaimsLocales.from_tags claims_locales).
End Grant.
