(* ===== verification/ClaimsStored.v ===== *)
(** * The stored form of a claims request

    What [Claims.ClaimsRequest.read] accepts, part by part - names, entries, sections,
    verified claims, transformed claims - and what the stored form of it reads back as,
    floating-point numbers apart. *)

From S2P Require Import Prelude Text BTree Json Roles Locale Users Claims.
From Stdlib Require Import Sorted.
Open Scope Z_scope.

(** ** Names *)

Lemma find_Some_string {A} (f : A -> string) (l : list A) raw a :
  List.find (fun a => String.eqb (f a) raw) l = Some a -> f a = raw /\ In a l.
Proof. intros [Hin He%String.eqb_eq]%find_some. done. Qed.

Lemma role_parse_Some raw c : RoleClaim.parse raw = Some c <-> raw = RoleClaim.as_str c.
Proof.
  split; [by intros [<- _]%find_Some_string|]. intros ->. by destruct c.
Qed.

Lemma attribute_parse_Some raw a : UserAttribute.parse raw = Some a <-> raw = UserAttribute.as_str a.
Proof.
  split; [by intros [<- _]%find_Some_string|]. intros ->. by destruct a.
Qed.

Lemma sentinel_None name : serde_json_sentinel name = None <-> ~ In name SERDE_JSON_SENTINELS.
Proof.
  unfold serde_json_sentinel. split.
  - intros H Hin. by apply (find_none _ _ H), String.eqb_neq in Hin.
  - intros H. destruct (List.find _ _) as [s|] eqn:E; [|done]. by apply find_some in E as [? <-%String.eqb_eq].
Qed.

Lemma is_sentinel_true name : is_serde_json_sentinel name = true <-> In name SERDE_JSON_SENTINELS.
Proof.
  unfold is_serde_json_sentinel. rewrite bool_decide_eq_true, <- not_eq_None_Some, sentinel_None.
  rewrite <- (in_strings_In name). destruct (in_strings _ _); naive_solver.
Qed.

Lemma is_sentinel_false name : is_serde_json_sentinel name = false <-> ~ In name SERDE_JSON_SENTINELS.
Proof. rewrite <- is_sentinel_true. by destruct (is_serde_json_sentinel name). Qed.

(** What [ClaimName::parse] accepts, as far as the release of claims relies on it. *)
Lemma claim_name_Ok raw name : ClaimName.parse raw = Ok name ->
  name = raw /\ ~ In (ClaimName.base raw) SERDE_JSON_SENTINELS /\
  ~ In (ClaimName.base raw) (SERVER_ISSUED ++ HELD_IN_A_COLUMN).
Proof.
  unfold ClaimName.parse. destruct (_ || _); [done|]. destruct (List.find name_character _); [done|].
  destruct (is_empty _); [done|]. destruct (serde_json_sentinel _) eqn:Hs; [done|].
  destruct (is_some_and _ _); [done|]. destruct (List.find _ _) eqn:Hf; [done|].
  intros [= <-]. split; [done|]. split; [by apply sentinel_None|].
  intros Hin. by apply (find_none _ _ Hf), String.eqb_neq in Hin.
Qed.

(** The names whose claims the server itself issues, whatever their language tag. *)
Definition ISSUED_NAMES : list string :=
  SERVER_ISSUED ++ AUTHORISATION_CLAIMS ++ map RoleClaim.as_str [CRoles; CResourceAccess]
  ++ ["_claim_names"; "_claim_sources"]%string ++ SERDE_JSON_SENTINELS.
Definition issued_by_server (name : string) : Prop := In (base_name name) ISSUED_NAMES.

Lemma releasable_Some raw c : ReleasableClaim.parse raw = Some c ->
  ReleasableClaim.as_str c = raw /\ ~ issued_by_server raw /\
  match c with Attribute _ => True | Stored _ => ~ In (base_name raw) HELD_IN_A_COLUMN end.
Proof.
  unfold ReleasableClaim.parse. destruct (is_serde_json_sentinel raw) eqn:Hs; [done|].
  destruct (bool_decide _) eqn:Hr; [done|]. destruct (in_strings _ AUTHORISATION_CLAIMS) eqn:Ha; [done|].
  destruct (in_strings _ ["_claim_names"; _]%string) eqn:Hc; [done|].
  destruct (UserAttribute.parse raw) as [a|] eqn:Hat.
  - intros [= <-]. apply attribute_parse_Some in Hat as ->. split; [done|]. split; [|done].
    unfold issued_by_server. rewrite <- in_strings_In. by destruct a.
  - destruct (ClaimName.parse raw) as [name|] eqn:Hn; [|done]. intros [= <-].
    apply claim_name_Ok in Hn as (-> & Hsent & Hres). change (ClaimName.base raw) with (base_name raw) in *.
    rewrite in_app_iff in Hres. split; [done|]. split; [|intros ?; tauto].
    unfold issued_by_server, ISSUED_NAMES. rewrite !in_app_iff.
    apply bool_decide_eq_false in Hr.
    assert (Hroles : ~ In (base_name raw) (map RoleClaim.as_str [CRoles; CResourceAccess])).
    { intros (c & Hb & _)%in_map_iff. apply Hr. rewrite <- Hb. exists c. by apply role_parse_Some. }
    assert (Hauth : ~ In (base_name raw) AUTHORISATION_CLAIMS) by (rewrite <- in_strings_In; congruence).
    assert (Hclaim : ~ In (base_name raw) ["_claim_names"; "_claim_sources"]%string)
      by (rewrite <- in_strings_In; congruence).
    tauto.
Qed.

Lemma releasable_as_str raw c : ReleasableClaim.parse raw = Some c -> ReleasableClaim.as_str c = raw.
Proof. by intros []%releasable_Some. Qed.

Lemma releasable_not_issued raw c : ReleasableClaim.parse raw = Some c -> ~ issued_by_server raw.
Proof. by intros (_ & ? & _)%releasable_Some. Qed.

Lemma starts_with_char c p s : starts_with (String.String c p) s = true ->
  exists r, s = String.String c r /\ starts_with p r = true.
Proof.
  destruct s as [|d s]; [done|]. unfold starts_with. cbn. destruct (Ascii.ascii_dec c d) as [->|]; [|done].
  intros H. by exists s.
Qed.

Lemma starts_with_colon s : starts_with ":" s = true <-> exists r, s = String.String ":" r.
Proof.
  split; [intros (r & -> & _)%starts_with_char; by exists r|]. intros [r ->]. unfold starts_with. cbn.
  by destruct r.
Qed.

Lemma alias_not_issued alias : ~ issued_by_server (String.String ":" alias).
Proof.
  unfold issued_by_server. assert (Hb : starts_with ":" (base_name (String.String ":" alias)) = true).
  { unfold base_name. cbn [split_once Ascii.eqb]. apply starts_with_colon. cbn.
    destruct (split_once _ alias) as [[a b]|]; by eexists. }
  intros Hin. assert (Hno : forallb (fun n => negb (starts_with ":" n)) ISSUED_NAMES = true) by done.
  rewrite forallb_forall in Hno. apply Hno in Hin. by rewrite Hb in Hin.
Qed.

(** ** Documents without a reserved member name *)

Definition clean (v : value) : Prop := names_a_serde_json_sentinel v = false.
Definition clean_member (m : string * value) : Prop := is_serde_json_sentinel (fst m) = false /\ clean (snd m).

Lemma clean_array l : clean (VArray l) <-> Forall clean l.
Proof.
  unfold clean. cbn. induction l as [|v l IH]; cbn; [by split|]. rewrite orb_false_iff, Forall_cons. by rewrite <- IH.
Qed.

Lemma clean_object m : clean (VObject m) <-> Forall clean_member m.
Proof.
  unfold clean. cbn. induction m as [|[k v] m IH]; cbn; [by split|].
  rewrite !orb_false_iff, Forall_cons. unfold clean_member at 1. cbn. by rewrite <- IH.
Qed.

Lemma clean_get k m v : clean (VObject m) -> bget k m = Some v -> clean v.
Proof. rewrite clean_object, Forall_forall. intros Hm Hg%bget_In%list_elem_of_In%Hm. apply Hg. Qed.

Lemma bmap_fold_Forall {K V} `{Ord K} (P : K * V -> Prop) l m :
  Forall P m -> Forall P l -> Forall P (fold_left (fun m kv => binsert (fst kv) (snd kv) m) l m).
Proof.
  intros Hm Hl. revert m Hm. induction Hl as [|[k v] l Hk Hl IH]; intros m Hm; cbn; [done|].
  apply IH. by apply binsert_Forall.
Qed.

Lemma bmap_of_list_Forall {K V} `{Ord K} (P : K * V -> Prop) l : Forall P l -> Forall P (bmap_of_list l).
Proof. by apply bmap_fold_Forall. Qed.

Lemma clean_jobj l : Forall clean_member l -> clean (jobj l).
Proof. intros Hl. apply clean_object. by apply bmap_of_list_Forall. Qed.

Lemma clean_jfields l :
  Forall (fun '(k, o) => match o with Some v => clean_member (k, v) | None => True end) l -> clean (jfields l).
Proof.
  intros Hl. apply clean_jobj. induction Hl as [|[k [v|]] l Hk Hl IH]; cbn; [constructor|by constructor|done].
Qed.

(** ** Entries *)

Definition entry_ok (e : ClaimRequest) : Prop := Forall clean (accepted_values e).

Lemma parse_entry_ok v e : clean v -> parse_entry v = Ok e -> entry_ok e.
Proof.
  intros Hc. unfold parse_entry, entry_ok. destruct v as [| | | | |m]; try done; intros [= <-]; [constructor|].
  cbn. apply Forall_app. split.
  - destruct (bget "value" m) as [v|] eqn:Hv; repeat constructor. by eapply clean_get.
  - destruct (bget "values" m) as [[| | | |l|]|] eqn:Hv; try constructor.
    apply clean_array. by eapply clean_get.
Qed.

Lemma parse_entry_json e : parse_entry (claim_request_json e) = Ok e.
Proof.
  destruct e as [es vs]. unfold claim_request_json, jfields, jobj, parse_entry. cbn [essential accepted_values].
  rewrite !bget_fields by nodup_keys. destruct es, vs; done.
Qed.

Lemma entry_json_clean e : entry_ok e -> clean (claim_request_json e).
Proof.
  intros He. apply clean_jfields. repeat constructor; [by destruct (essential e)|].
  unfold entry_ok in He. destruct (accepted_values e) as [|v vs]; [done|]. by split; [|apply clean_array].
Qed.

(** ** Sections *)

Definition claim_member (m : ReleasableClaim * ClaimRequest) : string * value :=
  (ReleasableClaim.as_str (fst m), claim_request_json (snd m)).
Definition role_member (c : RoleClaim) : string * value := (RoleClaim.as_str c, VObject []).

(** A section as it is written: its members in groups. *)
Definition section_entries (claims : list (ReleasableClaim * ClaimRequest)) (acr : option ClaimRequest)
    (roles : list RoleClaim) (ida : option IdaRequest) (aliases : list (string * ClaimRequest)) : object :=
  map claim_member claims
  ++ match acr with Some a => [("acr"%string, claim_request_json a)] | None => [] end
  ++ map role_member roles
  ++ match ida with Some r => [("verified_claims"%string, IdaRequest.to_json r)] | None => [] end
  ++ AscRequest.alias_members aliases.

(** What a claim of a section is known to be. *)
Definition claim_ok (m : ReleasableClaim * ClaimRequest) : Prop :=
  ReleasableClaim.parse (ReleasableClaim.as_str (fst m)) = Some (fst m) /\
  starts_with ":" (ReleasableClaim.as_str (fst m)) = false /\ entry_ok (snd m).

Definition special (name : string) : bool := String.eqb name "verified_claims" || starts_with ":" name.
Definition entry_of (v : value) : option ClaimRequest := match parse_entry v with Ok e => Some e | Err _ => None end.
Definition acr_of (m : string * value) : option ClaimRequest :=
  if special (fst m) || negb (String.eqb (fst m) "acr") then None else entry_of (snd m).
Definition role_of (m : string * value) : option RoleClaim :=
  if special (fst m) || String.eqb (fst m) "acr" then None else RoleClaim.parse (fst m).
Definition claim_of (m : string * value) : option (ReleasableClaim * ClaimRequest) :=
  if special (fst m) || String.eqb (fst m) "acr" then None
  else match RoleClaim.parse (fst m) with
  | Some _ => None
  | None => c ← ReleasableClaim.parse (fst m); e ← entry_of (snd m); Some (c, e)
  end.

Definition binsert_pair {K V} `{Ord K} (m : list (K * V)) (kv : K * V) : list (K * V) := binsert (fst kv) (snd kv) m.

Definition after_members (s : Section) (ms : list (string * value)) : Section := {|
  sec_claims := fold_left binsert_pair (omap claim_of ms) (sec_claims s);
  sec_acr := match sec_acr s with Some a => Some a | None => head (omap acr_of ms) end;
  sec_roles := fold_left (fun s c => bset_insert c s) (omap role_of ms) (sec_roles s) |}.

Definition bad_member (m : string * value) : bool := negb (special (fst m)) && negb (is_ok (parse_entry (snd m))).

Lemma parse_member_spec m s :
  parse_member m s = if bad_member m then Err EntryNotAnObject else Ok (after_members s [m]).
Proof.
  destruct m as [name v], s as [cs acr rs]. unfold bad_member, after_members, claim_of, acr_of, role_of, parse_member.
  cbn [fst snd omap list_omap sec_claims sec_acr sec_roles]. fold (special name). unfold special.
  destruct (String.eqb name "verified_claims"); [by destruct acr|].
  destruct (starts_with ":" name); [by destruct acr|]. cbn [orb negb andb]. unfold entry_of.
  destruct (parse_entry v) as [e|err] eqn:He; cbn [rbind is_ok negb].
  2:{ by destruct v; try discriminate; injection He as <-. }
  destruct (String.eqb name "acr"); [by destruct acr|]. cbn [negb].
  destruct (RoleClaim.parse name); [by destruct acr|].
  destruct (ReleasableClaim.parse name); by destruct acr.
Qed.

Lemma after_members_cons s m ms : after_members (after_members s [m]) ms = after_members s (m :: ms).
Proof.
  unfold after_members. cbn [omap list_omap sec_claims sec_acr sec_roles].
  destruct (claim_of m), (acr_of m), (role_of m), (sec_acr s); done.
Qed.

(** The loop over a section, group by group. *)
Lemma parse_members ms s :
  try_fold parse_member ms s = if existsb bad_member ms then Err EntryNotAnObject else Ok (after_members s ms).
Proof.
  revert s. induction ms as [|m ms IH]; intros s; cbn [try_fold existsb].
  { unfold after_members. cbn. by destruct s as [c [a|] r]. }
  rewrite parse_member_spec. destruct (bad_member m); [done|]. cbn [rbind orb]. by rewrite IH, after_members_cons.
Qed.

(** The group a name is of. *)
Definition group (name : string) : nat :=
  if starts_with ":" name then 4
  else if String.eqb name "verified_claims" then 3
  else match RoleClaim.parse name with
  | Some _ => 2
  | None => if String.eqb name "acr" then 1 else 0
  end.

Lemma base_name_free name : contains_char "#"%char name = false -> base_name name = name.
Proof. unfold base_name. intros H. by apply split_once_None in H as ->. Qed.

Lemma claim_group raw c : ReleasableClaim.parse raw = Some c -> starts_with ":" raw = false -> group raw = 0%nat.
Proof.
  intros Hc%releasable_not_issued Hs. unfold group. rewrite Hs.
  assert (Hno : forall n, In n ISSUED_NAMES -> contains_char "#"%char n = false -> raw <> n).
  { intros n Hin Hf ->. apply Hc. unfold issued_by_server. by rewrite base_name_free. }
  destruct (String.eqb_spec raw "verified_claims") as [E|_].
  { exfalso. apply (Hno "verified_claims"%string); [by apply in_strings_In|done|done]. }
  destruct (RoleClaim.parse raw) as [r|] eqn:Hr.
  { apply role_parse_Some in Hr. exfalso. apply (Hno (RoleClaim.as_str r)); [|by destruct r|done].
    apply in_strings_In. by destruct r. }
  destruct (String.eqb_spec raw "acr") as [E|_]; [|done].
  exfalso. apply (Hno "acr"%string); [by apply in_strings_In|done|done].
Qed.

Lemma NoDup_groups (l k : list string) n :
  NoDup l -> NoDup k -> Forall (fun x => group x = n) l -> Forall (fun x => (n < group x)%nat) k -> NoDup (l ++ k).
Proof.
  intros Hl Hk Hln Hkn. apply NoDup_app. split; [done|]. split; [|done]. intros x Hx Hx'.
  rewrite Forall_forall in Hln, Hkn. apply Hln in Hx. apply Hkn in Hx'. lia.
Qed.

Lemma group_alias alias : group (":" +:+ alias) = 4%nat.
Proof. unfold group. by rewrite (proj2 (starts_with_colon _)); [|exists alias]. Qed.

Lemma NoDup_fmap_on {A B} (f : A -> B) (g : B -> option A) (l : list A) :
  Forall (fun a => g (f a) = Some a) l -> NoDup l -> NoDup (map f l).
Proof.
  intros Hg Hl. induction Hl as [|a l Ha Hl IH]; cbn; [constructor|].
  apply Forall_cons in Hg as [Hga Hg]. constructor; [|by apply IH].
  intros (b & Hb & Hin)%list_elem_of_fmap. rewrite Forall_forall in Hg. apply Ha.
  apply Hg in Hin as Hgb. rewrite <- Hb, Hga in Hgb. by injection Hgb as ->.
Qed.

Lemma alias_members_names aliases :
  map fst (AscRequest.alias_members aliases) = map (fun alias => ":" +:+ alias)%string (bkeys aliases).
Proof. unfold AscRequest.alias_members, bkeys. rewrite !map_map. apply map_ext. by intros []. Qed.

Lemma NoDup_alias_names l : NoDup l -> NoDup (map (fun alias => ":" +:+ alias)%string l).
Proof.
  intros Hl. apply (NoDup_fmap_on _ (strip_char ":"%char)); [|done]. apply Forall_forall. intros a _. by apply strip_char_Some.
Qed.

Lemma entries_NoDup claims acr roles ida aliases :
  bmap_ok claims -> Forall claim_ok claims -> NoDup roles -> NoDup (bkeys aliases) ->
  NoDup (map fst (section_entries claims acr roles ida aliases)).
Proof.
  intros Hm Hok Hr Ha. unfold section_entries. rewrite !map_app, alias_members_names.
  assert (Hgroups : Forall (fun x => group x = 4%nat) (map (fun alias => ":" +:+ alias)%string (bkeys aliases))).
  { apply Forall_map, Forall_forall. intros a _. apply group_alias. }
  assert (Hroles : Forall (fun x => group x = 2%nat) (map fst (map role_member roles))).
  { rewrite map_map. apply Forall_map, Forall_forall. by intros []. }
  assert (H3 : NoDup (map fst (match ida with Some r => [("verified_claims"%string, IdaRequest.to_json r)] | None => [] end)
      ++ map (fun alias => ":" +:+ alias)%string (bkeys aliases))).
  { apply (NoDup_groups _ _ 3); [destruct ida; repeat constructor; set_solver|by apply NoDup_alias_names| |].
    - destruct ida; repeat constructor.
    - eapply Forall_impl; [exact Hgroups|]. cbn. intros x ->. lia. }
  assert (G3 : Forall (fun x => (2 < group x)%nat)
      (map fst (match ida with Some r => [("verified_claims"%string, IdaRequest.to_json r)] | None => [] end)
      ++ map (fun alias => ":" +:+ alias)%string (bkeys aliases))).
  { apply Forall_app. split; [by destruct ida; repeat constructor|].
    eapply Forall_impl; [exact Hgroups|]. cbn. intros x ->. lia. }
  assert (H2 : NoDup (map fst (map role_member roles))).
  { rewrite map_map. apply (NoDup_fmap_on _ RoleClaim.parse); [|done]. apply Forall_forall. by intros []. }
  apply (NoDup_groups _ _ 0).
  - replace (map fst (map claim_member claims)) with (map ReleasableClaim.as_str (bkeys claims))
      by (unfold bkeys; by rewrite !map_map). apply (NoDup_fmap_on _ ReleasableClaim.parse).
    + unfold bkeys. apply Forall_map. eapply Forall_impl; [exact Hok|]. by intros ? [? _].
    + by apply bmap_ok_NoDup.
  - apply (NoDup_groups _ _ 1).
    + destruct acr; repeat constructor; set_solver.
    + apply (NoDup_groups _ _ 2); done.
    + by destruct acr; repeat constructor.
    + apply Forall_app. split; [eapply Forall_impl; [exact Hroles|]; cbn; intros x ->; lia|].
      eapply Forall_impl; [exact G3|]. cbn. lia.
  - rewrite map_map. apply Forall_map. eapply Forall_impl; [exact Hok|]. intros [c e] (Hc & Hs & _). cbn in *.
    by eapply claim_group.
  - rewrite !Forall_app. split; [by destruct acr; repeat constructor|]. split.
    + eapply Forall_impl; [exact Hroles|]. cbn. intros x ->. lia.
    + apply Forall_app in G3 as [G3 G4]. split; eapply Forall_impl; [exact G3| |exact G4|]; cbn; lia.
Qed.

Lemma group_0 name : group name = 0%nat ->
  special name = false /\ String.eqb name "acr" = false /\ RoleClaim.parse name = None.
Proof.
  unfold group, special. destruct (starts_with ":" name); [done|]. destruct (String.eqb name "verified_claims"); [done|].
  destruct (RoleClaim.parse name); [done|]. by destruct (String.eqb name "acr").
Qed.

Lemma omap_nil {A B} (f : A -> option B) l : Forall (fun a => f a = None) l -> omap f l = [].
Proof. induction 1 as [|a l Ha Hl IH]; cbn; [done|]. by rewrite Ha. Qed.

Lemma omap_section {A B} (g : B -> A) (f : A -> option B) (l : list B) :
  Forall (fun b => f (g b) = Some b) l -> omap f (map g l) = l.
Proof. induction 1 as [|b l Hb Hl IH]; cbn; [done|]. by rewrite Hb, IH. Qed.

(** What a member of each group is read as. *)
Lemma claim_member_read m : claim_ok m ->
  claim_of (claim_member m) = Some m /\ acr_of (claim_member m) = None /\ role_of (claim_member m) = None /\
  bad_member (claim_member m) = false.
Proof.
  intros (Hc & Hs & _). destruct (group_0 _ (claim_group _ _ Hc Hs)) as (Hsp & Ha & Hr).
  unfold claim_of, acr_of, role_of, bad_member, entry_of. destruct m as [c e]. cbn [fst snd claim_member] in *.
  rewrite Hsp, Ha, Hr, parse_entry_json, Hc. done.
Qed.

Lemma acr_member_read a :
  claim_of ("acr"%string, claim_request_json a) = None /\ acr_of ("acr"%string, claim_request_json a) = Some a /\
  role_of ("acr"%string, claim_request_json a) = None /\ bad_member ("acr"%string, claim_request_json a) = false.
Proof. unfold claim_of, acr_of, role_of, bad_member, entry_of. cbn [fst snd]. rewrite parse_entry_json. done. Qed.

Lemma role_member_read c :
  claim_of (role_member c) = None /\ acr_of (role_member c) = None /\ role_of (role_member c) = Some c /\
  bad_member (role_member c) = false.
Proof. by destruct c. Qed.

Lemma special_member_read name v : special name = true ->
  claim_of (name, v) = None /\ acr_of (name, v) = None /\ role_of (name, v) = None /\ bad_member (name, v) = false.
Proof. intros H. unfold claim_of, acr_of, role_of, bad_member. cbn [fst snd]. by rewrite H. Qed.

Lemma special_alias alias : special (":" +:+ alias) = true.
Proof. unfold special. rewrite (proj2 (starts_with_colon _)); [apply orb_true_r|by exists alias]. Qed.

(** What the loop finds in some members. *)
Definition found (ms : list (string * value)) cs acrs rs : Prop :=
  omap claim_of ms = cs /\ omap acr_of ms = acrs /\ omap role_of ms = rs /\ Forall (fun m => bad_member m = false) ms.

Lemma found_app ms ms' cs acrs rs cs' acrs' rs' :
  found ms cs acrs rs -> found ms' cs' acrs' rs' -> found (ms ++ ms') (cs ++ cs') (acrs ++ acrs') (rs ++ rs').
Proof.
  intros (<- & <- & <- & H) (<- & <- & <- & H'). unfold found. rewrite !omap_app. by rewrite Forall_app.
Qed.

Lemma found_map {A} (g : A -> string * value) l (cs : A -> option (ReleasableClaim * ClaimRequest)) acrs rs :
  Forall (fun a => claim_of (g a) = cs a /\ acr_of (g a) = acrs a /\ role_of (g a) = rs a /\
                   bad_member (g a) = false) l ->
  found (map g l) (omap cs l) (omap acrs l) (omap rs l).
Proof.
  unfold found. induction 1 as [|a l (Hc & Ha & Hr & Hb) Hl (IHc & IHa & IHr & IHb)]; [by repeat split|].
  cbn [map omap list_omap]. by rewrite Hc, Ha, Hr, IHc, IHa, IHr, Forall_cons.
Qed.

Lemma omap_Some_id {A} (l : list A) : omap Some l = l.
Proof. induction l as [|a l IH]; cbn; [done|]. by rewrite IH. Qed.
Lemma omap_None {A B} (l : list A) : omap (fun _ => @None B) l = [].
Proof. by induction l. Qed.

(** What the loop finds in a section as it is written. *)
Lemma entries_read claims acr roles ida aliases :
  Forall claim_ok claims -> found (section_entries claims acr roles ida aliases) claims (option_list acr) roles.
Proof.
  intros Hok.
  assert (Hc : found (map claim_member claims) claims [] []).
  { pose proof (found_map claim_member claims Some (fun _ => None) (fun _ => None)) as H.
    rewrite omap_Some_id, !omap_None in H. apply H. eapply Forall_impl; [exact Hok|]. apply claim_member_read. }
  assert (Hr : found (map role_member roles) [] [] roles).
  { pose proof (found_map role_member roles (fun _ => None) (fun _ => None) Some) as H.
    rewrite omap_Some_id, !omap_None in H. apply H, Forall_forall. intros c _. apply role_member_read. }
  assert (Ha : found (AscRequest.alias_members aliases) [] [] []).
  { pose proof (found_map (fun '(name, entry) => (":" +:+ name, claim_request_json entry)%string) aliases
      (fun _ => None) (fun _ => None) (fun _ => None)) as H.
    rewrite !omap_None in H. apply H, Forall_forall. intros [a e] _. apply special_member_read, special_alias. }
  assert (Hacr : found (match acr with Some a => [("acr"%string, claim_request_json a)] | None => [] end)
    [] (option_list acr) []).
  { destruct acr as [a|]; [|by repeat split]. destruct (acr_member_read a) as (H1 & H2 & H3 & H4).
    unfold found. cbn [omap list_omap option_list option_rect]. rewrite H1, H2, H3. by repeat constructor. }
  assert (Hi : found (match ida with Some r => [("verified_claims"%string, IdaRequest.to_json r)] | None => [] end)
    [] [] []) by (destruct ida; repeat split; repeat constructor).
  pose proof (found_app _ _ _ _ _ _ _ _ Hc (found_app _ _ _ _ _ _ _ _ Hacr (found_app _ _ _ _ _ _ _ _ Hr
    (found_app _ _ _ _ _ _ _ _ Hi Ha)))) as H.
  by rewrite !app_nil_r in H.
Qed.

Lemma bset_of_list_perm_id {K} `{Ord K} (l s : list K) : bset_ok s -> Permutation l s -> bset_of_list l = s.
Proof.
  intros Hs Hp. apply bset_ext; [apply bset_of_list_ok|done|]. intros x.
  rewrite In_bset_of_list, <- !list_elem_of_In. by rewrite Hp.
Qed.

Lemma head_perm_option {A} (l : list A) o : Permutation l (option_list o) -> head l = o.
Proof.
  destruct o as [a|]; cbn; intros Hp; [by apply Permutation_singleton_r in Hp as ->|].
  by apply Permutation_nil_r in Hp as ->.
Qed.

Lemma section_reads_back root member claims acr roles ida aliases acr0 :
  let entries := section_entries claims acr roles ida aliases in
  bmap_ok claims -> Forall claim_ok claims -> bset_ok roles -> NoDup (bkeys aliases) ->
  bget member root = Some (VObject (bmap_of_list entries)) ->
  parse_section root member acr0 [] =
  if (MAX_CLAIMS <? length entries)%nat then Err TooManyClaims
  else Ok {| sec_claims := claims; sec_acr := match acr0 with Some a => Some a | None => acr end; sec_roles := roles |}.
Proof.
  intros entries Hm Hok Hr Ha Hg. unfold parse_section. rewrite Hg.
  assert (Hp : Permutation (bmap_of_list entries) entries).
  { apply bmap_of_list_Permutation, entries_NoDup; [done|done|by apply bset_ok_NoDup|done]. }
  rewrite (Permutation_length Hp). destruct (_ <? _)%nat; [done|]. rewrite parse_members.
  destruct (entries_read claims acr roles ida aliases Hok) as (Hc & Hacr & Hro & Hbad).
  fold entries in Hc, Hacr, Hro, Hbad.
  assert (He : existsb bad_member (bmap_of_list entries) = false).
  { apply not_true_iff_false. intros (m & Hin & Hb)%existsb_exists. rewrite Forall_forall in Hbad.
    rewrite <- list_elem_of_In, Hp in Hin. apply Hbad in Hin. congruence. }
  rewrite He. unfold after_members. cbn [sec_claims sec_acr sec_roles]. do 2 f_equal.
  - apply (bmap_of_list_perm_id _ claims Hm). rewrite Hp. by rewrite Hc.
  - destruct acr0; [done|]. apply head_perm_option. rewrite Hp. by rewrite Hacr.
  - apply (bset_of_list_perm_id _ roles Hr). rewrite Hp. by rewrite Hro.
Qed.

(** ** What a section that is read is known to be *)

Definition plain_member (m : string * value) : bool := negb (special (fst m)).

Lemma omap_length_filter {A B} (f : A -> option B) (p : A -> bool) (l : list A) :
  (forall a, p a = false -> f a = None) -> (length (omap f l) <= length (List.filter p l))%nat.
Proof.
  intros Hp. induction l as [|a l IH]; cbn; [done|]. destruct (p a) eqn:E; [destruct (f a); cbn; lia|].
  rewrite (Hp a E). done.
Qed.

Lemma bmap_of_list_length {K V} `{Ord K} (l : list (K * V)) : (length (bmap_of_list l) <= length l)%nat.
Proof.
  rewrite <- (length_map fst (bmap_of_list l)), <- (length_map fst l). change (map fst (bmap_of_list l))
    with (bkeys (bmap_of_list l)). rewrite bkeys_bmap_of_list. apply bset_of_list_length.
Qed.

Lemma binsert_length {K V} `{Ord K} k (v : V) (m : list (K * V)) : (length (binsert k v m) <= S (length m))%nat.
Proof. induction m as [|[j w] m IH]; cbn; [done|]. destruct (cmp k j); cbn; lia. Qed.

Lemma claim_of_ok m c : clean (snd m) -> claim_of m = Some c -> claim_ok c.
Proof.
  unfold claim_of. intros Hv. destruct (special (fst m) || _) eqn:Hs; [done|]. apply orb_false_iff in Hs as [Hs _].
  destruct (RoleClaim.parse _); [done|]. intros (x & Hx & (e & He & [= <-])%bind_Some)%bind_Some.
  unfold claim_ok. cbn [fst snd]. rewrite (releasable_as_str _ _ Hx). split; [done|].
  unfold special in Hs. apply orb_false_iff in Hs as [_ Hs]. split; [done|].
  unfold entry_of in He. destruct (parse_entry (snd m)) eqn:Hp; [|done]. injection He as ->. by eapply parse_entry_ok.
Qed.

Lemma parse_section_facts root member acr roles s :
  clean (VObject root) -> parse_section root member acr roles = Ok s ->
  (forall a, acr = Some a -> entry_ok a) -> bset_ok roles ->
  bmap_ok (sec_claims s) /\ Forall claim_ok (sec_claims s) /\ (forall a, sec_acr s = Some a -> entry_ok a) /\
  bset_ok (sec_roles s) /\
  (length (sec_claims s) <= match bget member root ≫= as_object with
                            | Some ms => length (List.filter plain_member ms) | None => 0 end)%nat /\
  (forall ms, bget member root = Some (VObject ms) -> (length ms <= MAX_CLAIMS)%nat).
Proof.
  intros Hc Hp Hacr Hroles. unfold parse_section in Hp.
  assert (Hnone : Ok (E := ClaimsRequestError) {| sec_claims := []; sec_acr := acr; sec_roles := roles |} = Ok s ->
    bmap_ok (sec_claims s) /\ Forall claim_ok (sec_claims s) /\ (forall a, sec_acr s = Some a -> entry_ok a) /\
    bset_ok (sec_roles s) /\ length (sec_claims s) = 0%nat).
  { intros [= <-]. repeat split; [constructor|constructor|done|done]. }
  destruct (bget member root) as [[| | | | |ms]|] eqn:Hg; try done; cbn.
  1,3: destruct (Hnone Hp) as (? & ? & ? & ? & ->); repeat split; try done; lia.
  destruct (MAX_CLAIMS <? length ms)%nat eqn:Hlen; [done|]. rewrite parse_members in Hp.
  destruct (existsb _ ms); [done|]. injection Hp as <-. cbn [after_members sec_claims sec_acr sec_roles].
  assert (Hms : clean (VObject ms)) by by eapply clean_get.
  apply clean_object in Hms. rewrite Forall_forall in Hms.
  split; [apply bmap_of_list_ok|]. split.
  { apply (bmap_fold_Forall claim_ok); [constructor|]. apply Forall_forall. intros c (m & Hin & Hm)%list_elem_of_omap.
    eapply claim_of_ok; [|exact Hm]. by apply Hms. }
  split; [|split; [by apply bset_fold_spec|split]].
  - destruct acr as [a|]; [exact Hacr|]. intros a Ha.
    destruct (omap acr_of ms) as [|b l] eqn:Ho; [done|]. injection Ha as ->.
    assert (Hin : a ∈ omap acr_of ms) by (rewrite Ho; left). apply list_elem_of_omap in Hin as (m & Hin & Hm).
    unfold acr_of in Hm. destruct (_ || _); [done|]. unfold entry_of in Hm.
    destruct (parse_entry (snd m)) eqn:Hpe; [|done]. injection Hm as ->. eapply parse_entry_ok; [|exact Hpe]. by apply Hms.
  - etransitivity; [apply bmap_of_list_length|]. apply omap_length_filter. intros m Hpl.
    unfold plain_member in Hpl. apply negb_false_iff in Hpl. unfold claim_of. by rewrite Hpl.
  - intros ms' [= <-]. by apply Nat.ltb_ge in Hlen.
Qed.

(** ** Loops over the members of an object *)

Lemma try_fold_entries {A B S E} (f : A -> S -> result S E) (g : A -> option B) (h : S -> B -> S) e l s :
  (forall a s, f a s = match g a with Some b => Ok (h s b) | None => Err e end) ->
  try_fold f l s = match mapM g l with Some bs => Ok (fold_left h bs s) | None => Err e end.
Proof.
  intros Hf. revert s. induction l as [|a l IH]; intros s; [done|]. cbn [try_fold mapM]. rewrite Hf.
  destruct (g a) as [b|]; cbn; [|done]. rewrite IH. by destruct (mapM g l).
Qed.

Lemma mapM_perm_map {A B} (f : B -> A) (g : A -> option B) l xs :
  Permutation l (map f xs) -> Forall (fun x => g (f x) = Some x) xs ->
  exists ys, mapM g l = Some ys /\ Permutation ys xs.
Proof.
  intros Hp Hg. apply Permutation_map_inv in Hp as (ys & -> & Hys). exists ys. split; [|by symmetry].
  rewrite Hys in Hg. clear Hys. induction Hg as [|y ys Hy Hg IH]; cbn; [done|]. rewrite Hy. cbn. by rewrite IH.
Qed.

Lemma mapM_length_Some {A B} (g : A -> option B) l bs : mapM g l = Some bs -> length bs = length l.
Proof. intros H%mapM_Some. symmetry. by eapply Forall2_length. Qed.

Lemma mapM_In {A B} (g : A -> option B) l bs b : mapM g l = Some bs -> b ∈ bs -> exists a, a ∈ l /\ g a = Some b.
Proof.
  intros H%mapM_Some [i Hi]%list_elem_of_lookup. eapply Forall2_lookup_r in H as (a & Ha & Hg); [|exact Hi].
  exists a. split; [|done]. by eapply list_elem_of_lookup_2.
Qed.

(** ** Verified claims *)

Definition verified_name (raw : string) : Prop := VerifiedClaimName.parse raw = Ok raw.

Lemma verified_name_Ok raw name : VerifiedClaimName.parse raw = Ok name ->
  name = raw /\ verified_name raw /\ is_serde_json_sentinel raw = false.
Proof.
  intros H. assert (Hn : name = raw).
  { unfold VerifiedClaimName.parse in H. ok_inv. done. }
  subst name. split; [done|]. split; [exact H|]. unfold VerifiedClaimName.parse in H. apply is_sentinel_false.
  destruct (in_strings raw _) eqn:Hin.
  - apply in_strings_In in Hin. intros Hs. destruct Hin as [<-|[<-|[]]]; by apply is_sentinel_true in Hs.
  - apply rbind_Ok in H as (x & Hx & _). apply map_err_Ok, claim_name_Ok in Hx as (_ & Hs & _).
    intros Hin'. apply Hs.
    change (ClaimName.base raw) with (base_name raw). rewrite base_name_free; [done|].
    by destruct Hin' as [<-|[<-|[]]].
Qed.

Record ida_ok (r : IdaRequest) : Prop := {
  ida_framework_ok : forall f, ida_framework r = Some f -> is_identifier 128 f = true;
  ida_claims_ok : bmap_ok (ida_claims r);
  ida_names_ok : Forall (fun c => verified_name (fst c)) (ida_claims r);
  ida_count_ok : (1 <= length (ida_claims r) <= 32)%nat;
  ida_kinds_ok : bset_ok (ida_evidence_types r);
  ida_kinds_known : Forall (fun k => in_strings k EVIDENCE_TYPES = true) (ida_evidence_types r)
}.

Definition ida_entry (m : string * value) : option (VerifiedClaimName * bool) :=
  match VerifiedClaimName.parse (fst m) with
  | Ok name =>
      match snd m with
      | VNull | VObject [] => Some (name, false)
      | VObject [(key, v)] =>
          match bget "essential"%string [(key, v)] with Some (VBool b) => Some (name, b) | _ => None end
      | _ => None
      end
  | Err _ => None
  end.

Lemma parse_claim_spec m cs :
  IdaRequest.parse_claim m cs =
  match ida_entry m with Some c => Ok (binsert_pair cs c) | None => Err UnsupportedIdentityAssurance end.
Proof.
  destruct m as [raw v]. unfold IdaRequest.parse_claim, ida_entry, binsert_pair. cbn [fst snd].
  destruct (VerifiedClaimName.parse raw) as [name|]; cbn [map_err rbind]; [|done].
  destruct v as [| | | | |[|[k w] [|]]]; cbn [rbind]; try done.
  destruct (bget "essential" [(k, w)]) as [[]|]; done.
Qed.

Definition evidence_kind (entry : value) : option string :=
  match entry with
  | VObject [(key, VObject [(key', VString kind)])] =>
      if String.eqb "type" key && String.eqb "value" key' && in_strings kind EVIDENCE_TYPES then Some kind else None
  | _ => None
  end.

Lemma only_value_spec c :
  IdaRequest.only_value c = match c with
    | [(key, VString s)] => if String.eqb "value" key then Ok s else Err UnsupportedIdentityAssurance
    | _ => Err UnsupportedIdentityAssurance
    end.
Proof.
  unfold IdaRequest.only_value. destruct c as [|[k v] [|? ?]]; [done| |by destruct v]. cbn [length Nat.eqb negb].
  rewrite bget_cons_string. destruct (String.eqb "value" k); [by destruct v|]. by destruct v.
Qed.

Lemma parse_evidence_entry_spec entry kinds :
  IdaRequest.parse_evidence_entry entry kinds =
  match evidence_kind entry with
  | Some kind => Ok (bset_insert kind kinds) | None => Err UnsupportedIdentityAssurance end.
Proof.
  unfold IdaRequest.parse_evidence_entry, evidence_kind. destruct entry as [| | | | |[|[k v] [|? ?]]]; try done.
  2:{ by destruct v as [| | | | |[|[? []] []]]. }
  cbn [as_object IdaRequest.need ok_or rbind length Nat.eqb negb]. rewrite bget_cons_string.
  destruct (String.eqb "type" k); cbn [mbind option_bind IdaRequest.need ok_or rbind andb].
  2:{ by destruct v as [| | | | |[|[? []] []]]. }
  destruct v as [| | | | |c]; try done. cbn [as_object IdaRequest.need ok_or rbind]. rewrite only_value_spec.
  destruct c as [|[k' [| | |s| |]] [|]]; try done. cbn [rbind].
  destruct (String.eqb "value" k'); cbn [rbind andb]; [|done]. by destruct (in_strings s _).
Qed.

Lemma evidence_json_read kind : in_strings kind EVIDENCE_TYPES = true ->
  evidence_kind (IdaRequest.evidence_json kind) = Some kind.
Proof. intros H. unfold evidence_kind. cbn. cbn in H. by rewrite H. Qed.

Lemma ida_entry_facts m c : ida_entry m = Some c -> verified_name (fst c) /\ is_serde_json_sentinel (fst c) = false.
Proof.
  unfold ida_entry. destruct (VerifiedClaimName.parse (fst m)) as [name|] eqn:Hn; [|done]. intros H.
  apply verified_name_Ok in Hn as (-> & Hn & Hs).
  enough (fst c = fst m) as -> by done.
  destruct (snd m) as [| | | | |[|[k v] [|? ?]]]; try done; try by injection H as <-.
  destruct (bget _ _) as [[]|]; try done. by injection H as <-.
Qed.

Lemma evidence_kind_known entry k : evidence_kind entry = Some k -> in_strings k EVIDENCE_TYPES = true.
Proof.
  unfold evidence_kind. destruct entry as [| | | | |[|[? v] [|? ?]]]; try done; destruct v as [| | | | |[|[? []] []]]; try done.
  destruct (_ && _) eqn:H; [|done]. intros [= <-]. by apply andb_true_iff in H as [_ ?].
Qed.

Lemma parse_evidence_facts verification kinds : IdaRequest.parse_evidence verification = Ok kinds ->
  bset_ok kinds /\ Forall (fun k => in_strings k EVIDENCE_TYPES = true) kinds.
Proof.
  unfold IdaRequest.parse_evidence. destruct (bget _ _) as [v|]; [|intros [= <-]; by repeat constructor].
  unfold IdaRequest.need, IdaRequest.bad. intros H. ok_inv.
  rewrite (try_fold_entries _ evidence_kind (fun s k => bset_insert k s) UnsupportedIdentityAssurance) in H
    by (intros; apply parse_evidence_entry_spec).
  destruct (mapM evidence_kind _) as [ks|] eqn:Hks; [|done]. injection H as <-.
  destruct (bset_fold_spec ks [] (SSorted_nil _)) as [Hok Hin]. split; [exact Hok|].
  apply Forall_forall. intros k [Hk|[]]%list_elem_of_In%Hin. apply list_elem_of_In in Hk.
  destruct (mapM_In _ _ _ _ Hks Hk) as (e & _ & He). by eapply evidence_kind_known.
Qed.

Lemma parse_framework_facts verification f :
  IdaRequest.parse_framework verification = Ok (Some f) -> is_identifier 128 f = true.
Proof.
  unfold IdaRequest.parse_framework. destruct (bget _ _) as [[| | | | |c]|]; try done. intros H.
  apply rbind_Ok in H as (g & _ & H). destruct (is_identifier 128 g) eqn:E; [|done]. by injection H as <-.
Qed.

Lemma ida_parse_ok v r : IdaRequest.parse v = Ok r -> ida_ok r.
Proof.
  unfold IdaRequest.parse, IdaRequest.need. intros H.
  apply rbind_Ok in H as (object & _ & H). destruct (_ || _ || _); [done|].
  apply rbind_Ok in H as (verification & _ & H). destruct (_ || _); [done|].
  apply rbind_Ok in H as (process & _ & H). apply rbind_Ok in H as (kinds & Hkinds & H).
  apply rbind_Ok in H as (framework & Hf & H). apply rbind_Ok in H as (requested & _ & H).
  destruct (_ || _) eqn:Hlen; [done|]. apply rbind_Ok in H as (claims & Hc & H). injection H as <-.
  rewrite (try_fold_entries _ ida_entry binsert_pair UnsupportedIdentityAssurance) in Hc
    by (intros; apply parse_claim_spec).
  destruct (mapM ida_entry requested) as [cs|] eqn:Hcs; [|done]. injection Hc as <-.
  change (fold_left binsert_pair cs []) with (bmap_of_list cs).
  apply orb_false_iff in Hlen as [H0%Nat.eqb_neq H32%Nat.ltb_ge]. apply mapM_length_Some in Hcs as Hl.
  destruct (parse_evidence_facts _ _ Hkinds) as [Hk1 Hk2].
  constructor; cbn [ida_framework ida_claims ida_evidence_types]; [|apply bmap_of_list_ok| | |done|done].
  - intros f ->. by eapply parse_framework_facts.
  - apply bmap_of_list_Forall, Forall_forall. intros c Hin. destruct (mapM_In _ _ _ _ Hcs Hin) as (m & _ & Hm).
    by eapply ida_entry_facts.
  - pose proof (bmap_of_list_length cs). split; [|lia].
    destruct cs as [|[k b] cs]; [cbn in Hl; lia|]. destruct (bmap_of_list _) as [|] eqn:E; [|cbn; lia].
    exfalso. assert (In k (bkeys (bmap_of_list ((k, b) :: cs)))) as Hin; [|by rewrite E in Hin].
    rewrite bkeys_bmap_of_list. apply In_bset_of_list. by left.
Qed.

(** ** Reading verified claims back *)

Lemma ida_entry_json name b : verified_name name -> ida_entry (name, IdaRequest.claim_json b) = Some (name, b).
Proof. intros H. unfold ida_entry. cbn [fst snd]. rewrite H. by destruct b. Qed.

Lemma NoDup_known_kinds kinds : NoDup kinds -> Forall (fun k => in_strings k EVIDENCE_TYPES = true) kinds ->
  (length kinds <= 4)%nat.
Proof.
  intros Hnd Hk. change 4%nat with (length EVIDENCE_TYPES). apply NoDup_incl_length; [by apply NoDup_ListNoDup|].
  intros k Hin. rewrite Forall_forall in Hk. by apply in_strings_In, Hk, list_elem_of_In.
Qed.

Definition verification_members (r : IdaRequest) : list (string * option value) := [
  ("trust_framework", Some (match ida_framework r with
                            | Some framework => jobj [("value", VString framework)] | None => VNull end));
  ("verification_process", if ida_verification_process r then Some VNull else None);
  ("evidence", match ida_evidence_types r with
               | [] => None | kinds => Some (VArray (map IdaRequest.evidence_json kinds)) end)]%string.
Definition claims_members (r : IdaRequest) : object :=
  bmap_of_list (map (fun '(name, essential) => (name, IdaRequest.claim_json essential)) (ida_claims r)).

Lemma ida_to_json r : IdaRequest.to_json r =
  VObject [("claims", VObject (claims_members r)); ("verification", jfields (verification_members r))]%string.
Proof. reflexivity. Qed.

Lemma parse_evidence_back r : ida_ok r ->
  IdaRequest.parse_evidence (bmap_of_list (fields (verification_members r))) = Ok (ida_evidence_types r).
Proof.
  intros Hr. unfold IdaRequest.parse_evidence, verification_members. read_fields.
  pose proof (ida_kinds_ok r Hr) as Hs. pose proof (ida_kinds_known r Hr) as Hk.
  pose proof (NoDup_known_kinds _ (bset_ok_NoDup _ Hs) Hk) as Hl.
  destruct (ida_evidence_types r) as [|k ks] eqn:E; [done|]. cbn [as_array IdaRequest.need ok_or rbind].
  rewrite length_map. destruct (Nat.eqb_spec (length (k :: ks)) 0) as [?|_]; [done|].
  destruct (Nat.ltb_spec 4 (length (k :: ks))) as [?|_]; [lia|]. cbn [orb].
  rewrite (try_fold_entries _ evidence_kind (fun s k => bset_insert k s) UnsupportedIdentityAssurance)
    by (intros; apply parse_evidence_entry_spec).
  destruct (mapM_perm_map IdaRequest.evidence_json evidence_kind (map IdaRequest.evidence_json (k :: ks)) (k :: ks))
    as (ys & -> & Hys); [done|eapply Forall_impl; [exact Hk|]; apply evidence_json_read|].
  f_equal. by apply bset_of_list_perm_id.
Qed.

Lemma parse_framework_back r : ida_ok r ->
  IdaRequest.parse_framework (bmap_of_list (fields (verification_members r))) = Ok (ida_framework r).
Proof.
  intros Hr. unfold IdaRequest.parse_framework, verification_members. read_fields.
  pose proof (ida_framework_ok r Hr) as Hf. destruct (ida_framework r) as [f|]; [|done].
  change (jobj [("value"%string, VString f)]) with (VObject [("value"%string, VString f)]). cbv iota.
  rewrite only_value_spec. cbn [String.eqb Ascii.eqb Bool.eqb rbind]. by rewrite Hf.
Qed.

Lemma has_cons k j v m : has k ((j, v) :: m) = String.eqb k j || has k m.
Proof. unfold has. rewrite bget_cons_string. by destruct (String.eqb k j). Qed.

Lemma verification_shape r :
  let verification := bmap_of_list (fields (verification_members r)) in
  negb ((1 <=? length verification)%nat && (length verification <=? 3)%nat)
  || existsb (fun key => negb (in_strings key ["trust_framework"; "evidence"; "verification_process"]%string))
       (bkeys verification) = false.
Proof. unfold verification_members. by destruct (ida_framework r), (ida_verification_process r), (ida_evidence_types r). Qed.

Lemma claims_members_Permutation r : ida_ok r ->
  Permutation (claims_members r) (map (fun '(name, essential) => (name, IdaRequest.claim_json essential)) (ida_claims r)).
Proof.
  intros Hr. apply bmap_of_list_Permutation. rewrite map_map.
  replace (map _ (ida_claims r)) with (map fst (ida_claims r)) by (apply map_ext; by intros []).
  apply bmap_ok_NoDup, Hr.
Qed.

Lemma ida_reads_back r : ida_ok r -> IdaRequest.parse (IdaRequest.to_json r) = Ok r.
Proof.
  intros Hr. rewrite ida_to_json. unfold IdaRequest.parse. cbn [as_object IdaRequest.need ok_or rbind length Nat.eqb].
  rewrite !has_cons, !bget_cons_string. cbn [String.eqb Ascii.eqb Bool.eqb negb orb mbind option_bind].
  cbn [as_object jfields jobj IdaRequest.need ok_or rbind]. rewrite verification_shape, parse_evidence_back,
    parse_framework_back by done.
  cbn [rbind]. pose proof (claims_members_Permutation r Hr) as Hp. pose proof (ida_count_ok r Hr) as Hc.
  rewrite (Permutation_length Hp), length_map.
  destruct (Nat.eqb_spec (length (ida_claims r)) 0) as [?|_]; [lia|].
  destruct (Nat.ltb_spec 32 (length (ida_claims r))) as [?|_]; [lia|]. cbn [orb].
  rewrite (try_fold_entries _ ida_entry binsert_pair UnsupportedIdentityAssurance) by (intros; apply parse_claim_spec).
  destruct (mapM_perm_map _ ida_entry _ _ Hp) as (ys & -> & Hys).
  { eapply Forall_impl; [apply Hr|]. intros [n b] Hn. by apply ida_entry_json. }
  cbn [rbind]. change (fold_left binsert_pair ys []) with (bmap_of_list ys).
  rewrite (bmap_of_list_perm_id ys (ida_claims r)) by (try apply Hr; done).
  assert (Hpr : match bget "verification_process"%string (bmap_of_list (fields (verification_members r))) with
    | Some VNull => Ok true | None => Ok false | _ => IdaRequest.bad end = Ok (ida_verification_process r)).
  { unfold verification_members. read_fields. by destruct (ida_verification_process r). }
  rewrite Hpr. by destruct r.
Qed.

Lemma ida_json_clean r : ida_ok r -> clean (IdaRequest.to_json r).
Proof.
  intros Hr. rewrite ida_to_json. apply clean_object. repeat constructor; cbn [fst snd].
  - apply clean_object. apply bmap_of_list_Forall, Forall_map, Forall_forall. intros [n b] Hin. split; cbn [fst snd].
    + pose proof (ida_names_ok r Hr) as Hn. rewrite Forall_forall in Hn. apply Hn in Hin.
      by apply verified_name_Ok in Hin as (_ & _ & ?).
    + by destruct b.
  - apply clean_jfields. repeat constructor; cbn [fst snd].
    + by destruct (ida_framework r).
    + by destruct (ida_verification_process r).
    + destruct (ida_evidence_types r) as [|k ks]; [done|]. split; [done|]. apply clean_array, Forall_map, Forall_forall.
      by intros x _.
Qed.

(** ** Transformed claims *)

(** A parsed function is written as it was read. *)
Lemma parse_function_json i v f : parse_function i v = Ok f -> AscRequest.function_json f = v /\ clean v.
Proof.
  unfold parse_function, want, invalid. destruct v as [| | | |l|]; try done. cbn [as_array ok_or rbind].
  destruct l as [|name [|argument [|]]]; try done. intros H. apply rbind_Ok in H as (n & Hn & H).
  apply ok_or_Ok in Hn. destruct name as [| | |n'| |]; try done. injection Hn as <-.
  cbn zeta in H. destruct (negb _) eqn:Hv; [done|]. destruct (_ && _); [done|]. injection H as <-.
  split; [done|]. apply clean_array. repeat constructor. unfold clean.
  destruct argument as [| | | |l|m]; try done; exfalso; apply negb_false_iff in Hv;
    repeat match type of Hv with context [if ?b then _ else _] => destruct b; [done|] end; done.
Qed.

Lemma parse_functions_json i vs fs : try_mapi parse_function i vs = Ok fs ->
  map AscRequest.function_json fs = vs /\ Forall clean vs.
Proof.
  revert i fs. induction vs as [|v vs IH]; intros i fs H; cbn in H; [by injection H as <-|].
  apply rbind_Ok in H as (f & Hf & H). apply rbind_Ok in H as (fs' & Hfs & H). injection H as <-.
  destruct (parse_function_json _ _ _ Hf), (IH _ _ Hfs). cbn. split; [congruence|by constructor].
Qed.

Record definition_ok (d : string * Definition_) : Prop := {
  df_alias_ok : alias_ok (fst d) = true;
  df_base_ok : ReleasableClaim.parse (ReleasableClaim.as_str (df_base (snd d))) = Some (df_base (snd d));
  df_functions_ok : try_mapi parse_function 0 (map AscRequest.function_json (df_functions (snd d)))
                    = Ok (df_functions (snd d));
  df_count_ok : (1 <= length (df_functions (snd d)) <= MAX_FUNCTIONS)%nat
}.

Definition definition_entry (m : string * value) : option (string * Definition_) :=
  if negb (alias_ok (fst m)) then None
  else
    definition ← as_object (snd m);
    if negb (length definition =? 2)%nat || negb (has "claim" definition) || negb (has "fn" definition) then None
    else
      claim ← bget "claim"%string definition; claim ← as_str claim; base ← ReleasableClaim.parse claim;
      functions ← bget "fn"%string definition; functions ← as_array functions;
      if (length functions =? 0)%nat || (MAX_FUNCTIONS <? length functions)%nat then None
      else match try_mapi parse_function 0 functions with
           | Ok fs => Some (fst m, {| df_base := base; df_functions := fs |}) | Err _ => None end.

Lemma parse_function_error i v e : parse_function i v = Err e -> e = UnsupportedAdvancedClaims.
Proof.
  unfold parse_function, want, invalid. destruct (as_array v) as [l|]; cbn; [|congruence].
  destruct l as [|n [|a [|]]]; try congruence. destruct (as_str n); cbn; [|congruence].
  destruct (negb _); [congruence|]. destruct (_ && _); congruence.
Qed.

Lemma parse_functions_error i vs e : try_mapi parse_function i vs = Err e -> e = UnsupportedAdvancedClaims.
Proof.
  revert i. induction vs as [|v vs IH]; intros i; cbn; [done|].
  destruct (parse_function i v) eqn:Hf; cbn; [|intros [= <-]; by eapply parse_function_error].
  destruct (try_mapi parse_function (S i) vs) eqn:Hfs; cbn; [done|]. intros [= <-]. by eapply IH.
Qed.

Lemma parse_definition_spec m ds :
  parse_definition m ds =
  match definition_entry m with Some d => Ok (binsert_pair ds d) | None => Err UnsupportedAdvancedClaims end.
Proof.
  destruct m as [alias raw]. unfold parse_definition, definition_entry, want, invalid, binsert_pair. cbn [fst snd].
  destruct (negb (alias_ok alias)); [done|]. destruct (as_object raw) as [d|]; cbn [ok_or rbind mbind option_bind]; [|done].
  destruct (_ || _); [done|]. destruct (bget "claim" d) as [c|]; cbn [ok_or rbind mbind option_bind]; [|done].
  destruct (as_str c) as [s|]; cbn [ok_or rbind mbind option_bind]; [|done].
  destruct (ReleasableClaim.parse s) as [b|]; cbn [ok_or rbind mbind option_bind]; [|done].
  destruct (bget "fn" d) as [f|]; cbn [ok_or rbind mbind option_bind]; [|done].
  destruct (as_array f) as [l|]; cbn [ok_or rbind mbind option_bind]; [|done].
  destruct (_ || _); [done|]. destruct (try_mapi _ _ _) eqn:Hfs; cbn; [done|].
  by apply parse_functions_error in Hfs as ->.
Qed.

Lemma definition_entry_ok m d : definition_entry m = Some d -> definition_ok d.
Proof.
  unfold definition_entry. destruct (alias_ok (fst m)) eqn:Ha; [|done]. cbn [negb].
  intros (def & _ & H)%bind_Some. destruct (_ || _); [done|].
  apply bind_Some in H as (c & _ & H). apply bind_Some in H as (s & _ & H). apply bind_Some in H as (b & Hb & H).
  apply bind_Some in H as (f & _ & H). apply bind_Some in H as (l & _ & H).
  destruct (_ || _) eqn:Hl; [done|]. destruct (try_mapi _ _ _) as [fs|] eqn:Hfs; [|done]. injection H as <-.
  apply orb_false_iff in Hl as [H0%Nat.eqb_neq H2%Nat.ltb_ge]. destruct (parse_functions_json _ _ _ Hfs) as [Hj _].
  constructor; cbn [fst snd df_base df_functions]; [done|by rewrite (releasable_as_str _ _ Hb)|by rewrite Hj|].
  rewrite <- (length_map AscRequest.function_json fs), Hj. lia.
Qed.

Lemma definition_json_read alias d : definition_ok (alias, d) ->
  definition_entry (alias, AscRequest.definition_json d) = Some (alias, d).
Proof.
  intros [Ha Hb Hf Hc]. cbn [fst snd] in *. unfold definition_entry. cbn [fst snd]. rewrite Ha.
  change (AscRequest.definition_json d) with (VObject [("claim", VString (ReleasableClaim.as_str (df_base d)));
    ("fn", VArray (map AscRequest.function_json (df_functions d)))]%string).
  cbn [negb as_object mbind option_bind length Nat.eqb]. rewrite !has_cons, !bget_cons_string.
  cbn [String.eqb Ascii.eqb Bool.eqb negb orb mbind option_bind as_str as_array]. rewrite Hb. cbn [mbind option_bind].
  rewrite length_map. destruct (Nat.eqb_spec (length (df_functions d)) 0) as [?|_]; [lia|].
  destruct (Nat.ltb_spec MAX_FUNCTIONS (length (df_functions d))) as [?|_]; [lia|]. cbn [orb].
  rewrite Hf. by destruct d.
Qed.

Lemma alias_ok_bytes alias : alias_ok alias = true ->
  starts_with ":" alias = false /\ is_serde_json_sentinel alias = false.
Proof.
  unfold alias_ok. rewrite !andb_true_iff. intros [_ Hb]. split.
  - apply not_true_iff_false. intros [r ->]%starts_with_colon. by rewrite all_bytes_cons in Hb.
  - apply is_sentinel_false. intros [<-|[<-|[]]]; by vm_compute in Hb.
Qed.

Lemma definition_json_clean d : definition_ok d -> clean_member (fst d, AscRequest.definition_json (snd d)).
Proof.
  intros [Ha Hb Hf Hc]. split; cbn [fst snd]; [by apply alias_ok_bytes|]. apply clean_jobj. repeat constructor.
  cbn [snd]. apply clean_array. by apply parse_functions_json in Hf as [_ ?].
Qed.

(** *** Aliases *)

Definition alias_entry_ok (ds : list (string * Definition_)) (p : string * ClaimRequest) : Prop :=
  accepted_values (snd p) = [] /\ is_Some (bget (fst p) ds) /\ starts_with ":" (fst p) = false.

Definition alias_member (p : string * ClaimRequest) : string * value :=
  (":" +:+ fst p, claim_request_json (snd p))%string.

Lemma alias_members_map aliases : AscRequest.alias_members aliases = map alias_member aliases.
Proof. unfold AscRequest.alias_members. apply map_ext. by intros []. Qed.

Lemma parse_alias_facts ds m s s' : parse_alias ds m s = Ok s' ->
  s' = s /\ starts_with ":" (fst m) = false \/
  exists p, s' = binsert_pair s p /\ alias_entry_ok ds p /\ (length s < MAX_COUNT)%nat /\ starts_with ":" (fst m) = true.
Proof.
  destruct m as [name v]. unfold parse_alias. cbn [fst]. destruct (strip_char ":"%char name) as [alias|] eqn:Hn.
  2:{ intros [= <-]. left. split; [done|]. apply not_true_iff_false. intros [r ->]%starts_with_colon. done. }
  apply strip_char_Some in Hn as ->. destruct (_ || _) eqn:Hc; [done|].
  rewrite !orb_false_iff, negb_false_iff, bool_decide_eq_true in Hc. destruct Hc as [[Hs Hd] Hl%Nat.leb_gt].
  destruct (is_some_and _ _) eqn:Ho; [done|]. intros H. apply rbind_Ok in H as (e & He & H). injection H as <-.
  right. exists (alias, e). split; [done|]. split; [|by split; [|apply starts_with_colon; eexists]].
  split; [|by split]. destruct v as [| | | | |ms]; try done; cbn in He; injection He as <-; [done|]. cbn.
  cbn in Ho. apply orb_false_iff in Ho as [Hk _].
  assert (Hno : forall k, k <> "essential"%string -> bget k ms = None).
  { intros k Hk'. apply bget_None. intros Hin. apply not_true_iff_false in Hk. apply Hk. apply existsb_exists.
    exists k. split; [done|]. by apply negb_true_iff, String.eqb_neq. }
  by rewrite !Hno.
Qed.

Definition alias_named (m : string * value) : bool := starts_with ":" (fst m).

Lemma parse_aliases_facts root section ds aliases : parse_aliases root section ds = Ok aliases ->
  bmap_ok aliases /\ Forall (alias_entry_ok ds) aliases /\ (length aliases <= MAX_COUNT)%nat /\
  (length aliases <= match bget section root ≫= as_object with
                     | Some ms => length (List.filter alias_named ms) | None => 0 end)%nat.
Proof.
  unfold parse_aliases. destruct (_ ≫= _) as [ms|]; [|intros [= <-]; repeat split; cbn; try lia; constructor].
  enough (H : forall s, bmap_ok s -> Forall (alias_entry_ok ds) s -> (length s <= MAX_COUNT)%nat ->
    try_fold (parse_alias ds) ms s = Ok aliases ->
    bmap_ok aliases /\ Forall (alias_entry_ok ds) aliases /\ (length aliases <= MAX_COUNT)%nat /\
    (length aliases <= length s + length (List.filter alias_named ms))%nat).
  { intros Hf. apply H in Hf; [done|constructor|constructor|cbn; lia]. }
  induction ms as [|m ms IH]; intros s Hm Hok Hl Hf; cbn in Hf.
  { injection Hf as <-. repeat split; [done|done|done|cbn; lia]. }
  apply rbind_Ok in Hf as (s' & Hs & Hf). cbn [List.filter]. unfold alias_named at 1.
  apply parse_alias_facts in Hs as [[-> ->]|(p & -> & Hp & Hlt & ->)].
  - by apply IH.
  - assert (Hlen : (length (binsert_pair s p) <= S (length s))%nat) by apply binsert_length.
    destruct (IH (binsert_pair s p)) as (H1 & H2 & H3 & H4); [by apply binsert_ok| |lia|done|].
    + apply binsert_Forall; [by destruct p|done].
    + repeat split; [done|done|done|]. cbn. lia.
Qed.

Lemma parse_alias_member ds p s : alias_entry_ok ds p -> (length s < MAX_COUNT)%nat ->
  parse_alias ds (alias_member p) s = Ok (binsert_pair s p).
Proof.
  destruct p as [alias e]. intros (Hv & Hd & Hs) Hl. cbn [fst snd] in *. unfold parse_alias, alias_member. cbn [fst snd].
  change (strip_char ":"%char (":" +:+ alias)) with (Some alias). cbv iota. rewrite Hs, bool_decide_eq_true_2 by done.
  destruct (Nat.leb_spec MAX_COUNT (length s)) as [?|_]; [lia|]. cbn [negb orb].
  rewrite parse_entry_json. unfold claim_request_json. rewrite Hv. by destruct (essential e).
Qed.

Lemma parse_aliases_back ds aliases ms s :
  Forall (alias_entry_ok ds) aliases -> (length s + length aliases <= MAX_COUNT)%nat ->
  Permutation (List.filter alias_named ms) (map alias_member aliases) ->
  exists ps, Permutation ps aliases /\ try_fold (parse_alias ds) ms s = Ok (fold_left binsert_pair ps s).
Proof.
  revert aliases s. induction ms as [|m ms IH]; intros aliases s Hok Hl Hp; cbn [List.filter] in Hp.
  { apply Permutation_nil_l in Hp. destruct aliases; [|done]. exists []. by split. }
  unfold alias_named at 1 in Hp. destruct (starts_with ":" (fst m)) eqn:Hm.
  - apply Permutation_map_inv in Hp as (l & Hl' & Hpl). destruct l as [|p l]; [done|]. injection Hl' as -> Hms.
    rewrite Hpl in Hok. apply Forall_cons in Hok as [Hp Hok]. apply Permutation_length in Hpl as Hlen. cbn in Hlen.
    destruct (IH l (binsert_pair s p)) as (ps & Hps & Hf); [done| |by rewrite Hms|].
    + unfold binsert_pair. pose proof (binsert_length (fst p) (snd p) s). lia.
    + exists (p :: ps). split; [by rewrite Hps, Hpl|]. cbn [try_fold]. rewrite parse_alias_member by (done || lia). exact Hf.
  - destruct (IH aliases s Hok Hl Hp) as (ps & Hps & Hf). exists ps. split; [done|]. cbn [try_fold].
    destruct m as [name v]. unfold parse_alias at 1. destruct (strip_char ":"%char name) as [a|] eqn:Hn; [|exact Hf].
    apply strip_char_Some in Hn as ->. cbn [fst] in Hm. by rewrite (proj2 (starts_with_colon _)) in Hm by by eexists.
Qed.

(** *** Rules *)

Definition pointer (name : string) : Prop := direct_pointer ("/" +:+ name)%string = Ok name.

Record rule_shape (r : Rule) : Prop := {
  ru_loc_ok : pointer (ru_loc r);
  ru_expected_ok : forall vs, ru_expected r = Some vs ->
    (1 <= length vs <= MAX_COUNT)%nat /\ forallb scalar vs = true;
  ru_omit_ok : forall ns, ru_omit r = Some ns -> (1 <= length ns <= MAX_COUNT)%nat /\ Forall pointer ns
}.

Lemma direct_pointer_Ok raw name : direct_pointer raw = Ok name -> pointer name.
Proof.
  intros H. unfold pointer. replace ("/" +:+ name)%string with raw; [done|].
  unfold direct_pointer, want in H. apply rbind_Ok in H as (n & Hn & H). apply ok_or_Ok, strip_char_Some in Hn as ->.
  destruct (_ || _); [done|]. by injection H as <-.
Qed.

Lemma length_bounds n m : (n =? 0)%nat || (m <? n)%nat = false -> (1 <= n <= m)%nat.
Proof. rewrite orb_false_iff, Nat.eqb_neq, Nat.ltb_ge. lia. Qed.

Lemma length_bounds_back n m : (1 <= n <= m)%nat -> (n =? 0)%nat || (m <? n)%nat = false.
Proof. rewrite orb_false_iff, Nat.eqb_neq, Nat.ltb_ge. lia. Qed.

Lemma parse_expected_facts fields vs : parse_expected fields = Ok (Some vs) ->
  (1 <= length vs <= MAX_COUNT)%nat /\ forallb scalar vs = true.
Proof.
  unfold parse_expected, want, invalid. intros H. apply rbind_Ok in H as (method & _ & H).
  destruct (_ && _ && _); [done|]. destruct (_ && _); [|done]. apply rbind_Ok in H as (ws & _ & H).
  destruct (_ || _) eqn:Hc; [done|]. injection H as ->. apply orb_false_iff in Hc as [Hl Hs%negb_false_iff].
  split; [by apply length_bounds|done].
Qed.

Lemma pointers_facts paths i names :
  try_mapi (fun _ path => let? path := want (as_str path) in direct_pointer path) i paths = Ok names ->
  length names = length paths /\ Forall pointer names.
Proof.
  revert i names. induction paths as [|p paths IH]; intros i names H; cbn in H; [by injection H as <-|].
  apply rbind_Ok in H as (n & Hn & H). apply rbind_Ok in H as (ns & Hns & H). injection H as <-.
  destruct (IH _ _ Hns) as [Hl Hp]. apply rbind_Ok in Hn as (s & _ & Hn). cbn. split; [by rewrite Hl|].
  constructor; [by eapply direct_pointer_Ok|done].
Qed.

Lemma parse_omit_facts fields loc ns : pointer loc -> parse_omit fields loc = Ok (Some ns) ->
  (1 <= length ns <= MAX_COUNT)%nat /\ Forall pointer ns.
Proof.
  unfold parse_omit, invalid. intros Hloc. destruct (_ ≫= _) as [action|]; [|done].
  destruct (_ && _); [done|]. destruct (String.eqb action "omit"); [|done].
  destruct (bget "what" fields) as [[| | | |paths|]|]; try done.
  - destruct (_ && _) eqn:Hl; [|done]. intros H. apply rbind_Ok in H as (names & Hn & H). injection H as <-.
    apply pointers_facts in Hn as [Hlen Hp]. rewrite Hlen. split; [|done].
    apply andb_true_iff in Hl as [H0%negb_true_iff%Nat.eqb_neq H8%Nat.leb_le]. lia.
  - intros [= <-]. split; [cbn; unfold MAX_COUNT; lia|by repeat constructor].
Qed.

Lemma parse_rule_facts raw r : parse_rule raw = Ok r -> rule_shape r.
Proof.
  unfold parse_rule, want, invalid. intros H. apply rbind_Ok in H as (fields & _ & H).
  destruct (existsb _ _); [done|]. apply rbind_Ok in H as (l & _ & H). apply rbind_Ok in H as (loc & Hloc & H).
  apply rbind_Ok in H as (expected & He & H). apply rbind_Ok in H as (omit & Ho & H). injection H as <-.
  apply direct_pointer_Ok in Hloc. constructor; cbn [ru_loc ru_expected ru_omit]; [done| |].
  - intros vs ->. by eapply parse_expected_facts.
  - intros ns ->. by eapply parse_omit_facts.
Qed.

Lemma pointers_back names i : Forall pointer names ->
  try_mapi (fun _ path => let? path := want (as_str path) in direct_pointer path) i
    (map (fun name => VString ("/" +:+ name)) names) = Ok names.
Proof.
  intros H. revert i. induction H as [|n names Hn H IH]; intros i; cbn [map try_mapi]; [done|].
  cbn [as_str want ok_or rbind]. unfold pointer in Hn. rewrite Hn. cbn [rbind]. by rewrite IH.
Qed.

Lemma rule_json_read r : rule_shape r -> parse_rule (AscRequest.rule_json r) = Ok r.
Proof.
  destruct r as [loc expected omit]. intros [Hloc He Ho]. cbn [ru_loc ru_expected ru_omit] in *.
  unfold parse_rule, AscRequest.rule_json, jfields, jobj. cbn [as_object want ok_or rbind ru_loc ru_expected ru_omit].
  set (l := [("loc", _); _; _; _; _]%string).
  assert (Hkeys : existsb (fun key => negb (in_strings key ["loc"; "method"; "value"; "values"; "else"; "what"]%string))
      (bkeys (bmap_of_list (fields l))) = false).
  { apply not_true_iff_false. intros (k & Hk & Hn)%existsb_exists. rewrite bkeys_bmap_of_list in Hk.
    apply In_bset_of_list, fields_keys in Hk. apply negb_true_iff in Hn. cbn in Hk.
    repeat (destruct Hk as [<-|Hk]; [done|]). done. }
  rewrite Hkeys.
  assert (Hexp : parse_expected (bmap_of_list (fields l)) = Ok expected).
  { unfold parse_expected, has. subst l. read_fields. destruct expected as [vs|]; [|done].
    destruct (He vs eq_refl) as [Hl Hs]. unfold want.
    cbn [fmap option_fmap option_map rbind String.eqb Ascii.eqb Bool.eqb andb mbind option_bind as_array ok_or].
    rewrite length_bounds_back by done. by rewrite Hs. }
  assert (Hom : parse_omit (bmap_of_list (fields l)) loc = Ok omit).
  { unfold parse_omit, has. subst l. read_fields. destruct omit as [ns|]; cbn [mbind option_bind as_str fmap option_fmap option_map].
    - destruct (Ho ns eq_refl) as [Hl Hp]. cbn [String.eqb Ascii.eqb Bool.eqb andb]. rewrite length_map.
      destruct (Nat.eqb_spec (length ns) 0) as [?|_]; [lia|].
      destruct (Nat.leb_spec (length ns) MAX_COUNT) as [_|?]; [|lia]. cbn [negb andb]. by rewrite pointers_back.
    - done. }
  assert (Hl : bget "loc"%string (bmap_of_list (fields l)) = Some (VString ("/" +:+ loc))) by (subst l; by read_fields).
  rewrite Hl. cbn [mbind option_bind as_str want ok_or rbind]. unfold pointer in Hloc. rewrite Hloc. cbn [rbind].
  rewrite Hexp. cbn [rbind]. by rewrite Hom.
Qed.

Lemma scalar_clean v : scalar v = true -> clean v.
Proof. by destruct v. Qed.

Lemma rule_json_clean r : rule_shape r -> clean (AscRequest.rule_json r).
Proof.
  intros [_ He _]. apply clean_jfields. repeat constructor; cbn [fst snd].
  - destruct (ru_expected r) as [vs|]; [|done]. split; [done|]. apply clean_array, Forall_forall. intros v Hv.
    destruct (He vs eq_refl) as [_ Hs]. rewrite forallb_forall in Hs. by apply scalar_clean, Hs, list_elem_of_In.
  - destruct (ru_omit r) as [ns|]; [|done]. split; [done|]. apply clean_array, Forall_map, Forall_forall. by intros x _.
Qed.

(** *** The whole of it *)

Definition rules_ok (aliases : list (string * ClaimRequest)) (rules : list Rule) : Prop :=
  Forall rule_shape rules /\ (length rules <= MAX_RULES)%nat /\ forallb (rule_ok aliases) rules = true.
Definition aliases_ok (ds : list (string * Definition_)) (aliases : list (string * ClaimRequest)) : Prop :=
  bmap_ok aliases /\ Forall (alias_entry_ok ds) aliases /\ (length aliases <= MAX_COUNT)%nat.

Record asc_ok (a : AscRequest) : Prop := {
  as_definitions_ok : bmap_ok (as_definitions a) /\ Forall definition_ok (as_definitions a) /\
                      (length (as_definitions a) <= MAX_COUNT)%nat;
  as_id_ok : aliases_ok (as_definitions a) (as_id_token a);
  as_user_ok : aliases_ok (as_definitions a) (as_userinfo a);
  as_id_rules_ok : rules_ok (as_id_token a) (as_id_rules a);
  as_user_rules_ok : rules_ok (as_userinfo a) (as_user_rules a);
  as_something : as_definitions a <> [] \/ as_id_rules a <> [] \/ as_user_rules a <> []
}.

Lemma parse_rules_facts raw rules : parse_rules raw = Ok rules ->
  Forall rule_shape rules /\ (length rules <= MAX_RULES)%nat /\ (is_Some raw -> rules <> []).
Proof.
  unfold parse_rules, want, invalid. destruct raw as [raw|].
  2:{ intros [= <-]. repeat split; [constructor|cbn; lia|by intros []]. }
  intros H. apply rbind_Ok in H as (l & _ & H). destruct (_ || _) eqn:Hl; [done|]. apply length_bounds in Hl.
  assert (Hr : length rules = length l /\ Forall rule_shape rules).
  { clear Hl. revert rules H. generalize 0%nat as i. induction l as [|v l IH]; intros i rules H; cbn in H; [by injection H as <-|].
    apply rbind_Ok in H as (r & Hr & H). apply rbind_Ok in H as (rs & Hrs & H). injection H as <-.
    destruct (IH _ _ Hrs) as [Hlen Hs]. cbn. split; [by rewrite Hlen|]. constructor; [by eapply parse_rule_facts|done]. }
  destruct Hr as [Hlen Hs]. repeat split; [done|lia|]. intros _ ->. cbn in Hlen. lia.
Qed.

Lemma parse_definitions_facts raw ds : parse_definitions raw = Ok ds ->
  bmap_ok ds /\ Forall definition_ok ds /\ (length ds <= MAX_COUNT)%nat /\ (is_Some raw -> ds <> []).
Proof.
  unfold parse_definitions, want, invalid. destruct raw as [raw|].
  2:{ intros [= <-]. repeat split; [constructor|constructor|cbn; lia|by intros []]. }
  intros H. apply rbind_Ok in H as (l & _ & H). destruct (_ || _) eqn:Hl; [done|]. apply length_bounds in Hl.
  rewrite (try_fold_entries _ definition_entry binsert_pair UnsupportedAdvancedClaims) in H
    by (intros; apply parse_definition_spec).
  destruct (mapM definition_entry l) as [es|] eqn:Hes; [|done]. injection H as <-.
  change (fold_left binsert_pair es []) with (bmap_of_list es). apply mapM_length_Some in Hes as Hlen.
  split; [apply bmap_of_list_ok|]. split.
  { apply bmap_of_list_Forall, Forall_forall. intros d Hd. destruct (mapM_In _ _ _ _ Hes Hd) as (m & _ & Hm).
    by eapply definition_entry_ok. }
  pose proof (bmap_of_list_length es). split; [lia|]. intros _ Hnil.
  destruct es as [|[k d] es]; [cbn in Hlen; lia|].
  assert (In k (bkeys (bmap_of_list ((k, d) :: es)))) as Hin; [|by rewrite Hnil in Hin].
  rewrite bkeys_bmap_of_list. apply In_bset_of_list. by left.
Qed.

(** An object that has a member, all of them of two names, has one of the two. *)
Lemma one_of_two (m : object) k1 k2 :
  (length m =? 0)%nat || existsb (fun key => negb (in_strings key [k1; k2])) (bkeys m) = false ->
  is_Some (bget k1 m) \/ is_Some (bget k2 m).
Proof.
  rewrite orb_false_iff, Nat.eqb_neq. intros [Hl Hk]. destruct m as [|[k v] m]; [done|].
  cbn [bkeys map existsb fst] in Hk. apply orb_false_iff in Hk as [Hk _]. rewrite negb_false_iff, in_strings_In in Hk.
  destruct Hk as [<-|[<-|[]]]; [left|right]; rewrite bget_cons_string, String.eqb_refl; by eexists.
Qed.

Lemma asc_parse_ok root a : AscRequest.parse root = Ok (Some a) -> asc_ok a.
Proof.
  unfold AscRequest.parse, want, invalid. destruct (bget "_asc" root) as [raw|]; [|by destruct (AscRequest.aliases_present root)].
  intros H. apply rbind_Ok in H as (asc & _ & H). destruct (_ || _) eqn:Hkeys; [done|].
  apply rbind_Ok in H as (ds & Hds & H). apply rbind_Ok in H as (ids & Hids & H). apply rbind_Ok in H as (us & Hus & H).
  apply rbind_Ok in H as (rules & Hrules & H). passed H Hr. injection H as <-.
  apply orb_false_iff in Hr as [Hri%negb_false_iff Hru%negb_false_iff].
  apply parse_definitions_facts in Hds as (Hd1 & Hd2 & Hd3 & Hd4).
  apply parse_aliases_facts in Hids as (Hi1 & Hi2 & Hi3 & _). apply parse_aliases_facts in Hus as (Hu1 & Hu2 & Hu3 & _).
  assert (Hrs : Forall rule_shape (fst rules) /\ (length (fst rules) <= MAX_RULES)%nat /\
    Forall rule_shape (snd rules) /\ (length (snd rules) <= MAX_RULES)%nat /\
    (is_Some (bget "sao"%string asc) -> fst rules <> [] \/ snd rules <> [])).
  { unfold AscRequest.parse_sao, want, invalid in Hrules. destruct (bget "sao" asc) as [sao|].
    2:{ injection Hrules as <-. cbn. repeat split; try constructor; try lia. by intros []. }
    apply rbind_Ok in Hrules as (sections & _ & Hrules). passed Hrules Hs.
    apply rbind_Ok in Hrules as (r1 & Hr1 & Hrules). apply rbind_Ok in Hrules as (r2 & Hr2 & Hrules).
    injection Hrules as <-. cbn [fst snd].
    apply parse_rules_facts in Hr1 as (H1 & H2 & H3). apply parse_rules_facts in Hr2 as (H4 & H5 & H6).
    repeat split; [done..|]. intros _. destruct (one_of_two _ _ _ Hs); auto. }
  destruct Hrs as (Hr1 & Hr2 & Hr3 & Hr4 & Hr5).
  constructor; cbn [as_definitions as_id_token as_userinfo as_id_rules as_user_rules]; [done| | |done|done|].
  - by split.
  - by split.
  - destruct (one_of_two _ _ _ Hkeys) as [Ht|Hs]; [left; by apply Hd4|right; by apply Hr5].
Qed.

(** ** Reading it back *)

Lemma rules_back rules : Forall rule_shape rules -> (length rules <= MAX_RULES)%nat ->
  parse_rules (AscRequest.rules_json rules) = Ok rules.
Proof.
  intros Hs Hl. destruct rules as [|r rules]; [done|]. unfold parse_rules, AscRequest.rules_json.
  cbn [as_array want ok_or rbind]. rewrite length_map, length_bounds_back by (cbn in *; lia). clear Hl.
  generalize 0%nat as i. induction Hs as [|x l Hx Hl IH]; intros i; [done|]. cbn [map try_mapi].
  rewrite rule_json_read by done. cbn [rbind]. by rewrite IH.
Qed.

Lemma definitions_back ds : bmap_ok ds -> Forall definition_ok ds -> (length ds <= MAX_COUNT)%nat ->
  parse_definitions (AscRequest.definitions_json ds) = Ok ds.
Proof.
  intros Hm Hok Hl. assert (Hp : Permutation (bmap_of_list (map (fun '(n, d) => (n, AscRequest.definition_json d)) ds))
    (map (fun '(n, d) => (n, AscRequest.definition_json d)) ds)).
  { apply bmap_of_list_Permutation. rewrite map_map. replace (map _ ds) with (map fst ds) by (apply map_ext; by intros []).
    by apply bmap_ok_NoDup. }
  destruct ds as [|d0 ds0]; [done|]. remember (d0 :: ds0) as ds eqn:Eds.
  unfold parse_definitions. replace (AscRequest.definitions_json ds) with
    (Some (jobj (map (fun '(n, d) => (n, AscRequest.definition_json d)) ds))) by (by rewrite Eds). unfold jobj.
  cbn [as_object want ok_or rbind]. rewrite (Permutation_length Hp), length_map.
  rewrite length_bounds_back by (rewrite Eds in *; cbn in *; lia).
  rewrite (try_fold_entries _ definition_entry binsert_pair UnsupportedAdvancedClaims)
    by (intros; apply parse_definition_spec).
  destruct (mapM_perm_map _ definition_entry _ _ Hp) as (ys & -> & Hys).
  { eapply Forall_impl; [exact Hok|]. intros [n d] Hd. by apply definition_json_read. }
  f_equal. by apply (bmap_of_list_perm_id ys).
Qed.

Definition asc_members (a : AscRequest) : list (string * option value) := [
  ("transformed_claims", AscRequest.definitions_json (as_definitions a));
  ("sao", AscRequest.sao_json (as_id_rules a) (as_user_rules a))]%string.

Lemma sao_back a : asc_ok a ->
  AscRequest.parse_sao (bmap_of_list (fields (asc_members a))) = Ok (as_id_rules a, as_user_rules a).
Proof.
  intros Ha. unfold AscRequest.parse_sao.
  destruct (as_id_rules_ok a Ha) as (H1 & H2 & _). destruct (as_user_rules_ok a Ha) as (H3 & H4 & _).
  unfold asc_members. read_fields. clear Ha. revert H1 H2 H3 H4. generalize (as_id_rules a) (as_user_rules a).
  intros rs1 rs2 H1 H2 H3 H4. unfold AscRequest.sao_json.
  destruct (match rs1, rs2 with [], [] => true | _, _ => false end) eqn:Hb; [by destruct rs1, rs2|].
  replace (match AscRequest.rules_json rs1 with Some _ => _ | None => _ end)
    with (Some (jfields [("id_token", AscRequest.rules_json rs1); ("userinfo", AscRequest.rules_json rs2)]%string))
    by (by destruct rs1, rs2).
  unfold jfields, jobj. cbn [as_object want ok_or rbind].
  assert (Hkeys : (length (bmap_of_list (fields [("id_token", AscRequest.rules_json rs1);
      ("userinfo", AscRequest.rules_json rs2)]%string)) =? 0)%nat
    || existsb (fun key => negb (in_strings key ["id_token"; "userinfo"]%string))
         (bkeys (bmap_of_list (fields [("id_token", AscRequest.rules_json rs1);
           ("userinfo", AscRequest.rules_json rs2)]%string))) = false) by (by destruct rs1, rs2).
  rewrite Hkeys. read_fields. rewrite !rules_back by done. done.
Qed.

Lemma asc_reads_back a root m1 m2 : asc_ok a ->
  bget "_asc"%string root = Some (AscRequest.asc_json a) ->
  bget "id_token"%string root = Some (VObject m1) -> bget "userinfo"%string root = Some (VObject m2) ->
  Permutation (List.filter alias_named m1) (map alias_member (as_id_token a)) ->
  Permutation (List.filter alias_named m2) (map alias_member (as_userinfo a)) ->
  AscRequest.parse root = Ok (Some a).
Proof.
  intros Ha Hasc Hid Hus Hp1 Hp2. unfold AscRequest.parse. rewrite Hasc.
  change (AscRequest.asc_json a) with (VObject (bmap_of_list (fields (asc_members a)))).
  cbn [as_object want ok_or rbind].
  destruct (as_definitions_ok a Ha) as (Hd1 & Hd2 & Hd3). destruct (as_id_ok a Ha) as (Hi1 & Hi2 & Hi3).
  destruct (as_user_ok a Ha) as (Hu1 & Hu2 & Hu3). destruct (as_id_rules_ok a Ha) as (_ & _ & Hr1).
  destruct (as_user_rules_ok a Ha) as (_ & _ & Hr2).
  assert (Hkeys : (length (bmap_of_list (fields (asc_members a))) =? 0)%nat
    || existsb (fun key => negb (in_strings key ["transformed_claims"; "sao"]%string))
         (bkeys (bmap_of_list (fields (asc_members a)))) = false).
  { unfold asc_members. pose proof (as_something a Ha) as Hs.
    destruct (as_definitions a), (as_id_rules a), (as_user_rules a); try done. tauto. }
  rewrite Hkeys.
  assert (Hds : bget "transformed_claims"%string (bmap_of_list (fields (asc_members a))) =
    AscRequest.definitions_json (as_definitions a)) by (unfold asc_members; by read_fields).
  rewrite Hds, definitions_back by done. cbn [rbind]. unfold parse_aliases. rewrite Hid, Hus.
  cbn [mbind option_bind as_object].
  destruct (parse_aliases_back (as_definitions a) (as_id_token a) m1 []) as (ps1 & Hps1 & ->); [done|cbn; lia|done|].
  destruct (parse_aliases_back (as_definitions a) (as_userinfo a) m2 []) as (ps2 & Hps2 & ->); [done|cbn; lia|done|].
  cbn [rbind]. change (fold_left binsert_pair ps1 []) with (bmap_of_list ps1).
  change (fold_left binsert_pair ps2 []) with (bmap_of_list ps2).
  rewrite (bmap_of_list_perm_id ps1 _ Hi1 Hps1), (bmap_of_list_perm_id ps2 _ Hu1 Hps2), sao_back by done.
  cbn [rbind fst snd]. rewrite Hr1, Hr2. by destruct a.
Qed.

Lemma asc_json_clean a : asc_ok a -> clean (AscRequest.asc_json a).
Proof.
  intros Ha. destruct (as_definitions_ok a Ha) as (_ & Hd & _). destruct (as_id_rules_ok a Ha) as (H1 & _).
  destruct (as_user_rules_ok a Ha) as (H2 & _).
  assert (Hr : forall rules, Forall rule_shape rules -> match AscRequest.rules_json rules with Some v => clean v | None => True end).
  { intros [|r rules] Hs; [done|]. apply clean_array, Forall_map. eapply Forall_impl; [exact Hs|]. apply rule_json_clean. }
  apply Hr in H1, H2. apply clean_jfields. repeat constructor.
  - destruct (as_definitions a) as [|d ds]; [done|]. split; [done|]. apply clean_jobj, Forall_map.
    eapply Forall_impl; [exact Hd|]. intros [n x]. apply definition_json_clean.
  - assert (Hc : clean (jfields [("id_token", AscRequest.rules_json (as_id_rules a));
      ("userinfo", AscRequest.rules_json (as_user_rules a))]%string)).
    { apply clean_jfields. repeat constructor.
      - destruct (AscRequest.rules_json (as_id_rules a)); [by split|done].
      - destruct (AscRequest.rules_json (as_user_rules a)); [by split|done]. }
    destruct (as_id_rules a), (as_user_rules a); done.
Qed.

(** ** A request and its stored form *)

Definition aliases_of (sel : AscRequest -> list (string * ClaimRequest)) (r : ClaimsRequest)
    : list (string * ClaimRequest) := match cr_asc r with Some a => sel a | None => [] end.
Definition id_entries (r : ClaimsRequest) : object :=
  section_entries (cr_id_token r) (cr_acr r) (cr_role_claims r) (cr_ida_id_token r) (aliases_of as_id_token r).
Definition user_entries (r : ClaimsRequest) : object :=
  section_entries (cr_userinfo r) None [] (cr_ida_userinfo r) (aliases_of as_userinfo r).

Lemma fold_roles roles m :
  fold_left (fun m claim => binsert (RoleClaim.as_str claim) (VObject []) m) roles m =
  fold_left (fun m kv => binsert (fst kv) (snd kv) m) (map role_member roles) m.
Proof. revert m. induction roles as [|c roles IH]; intros m; cbn; [done|]. apply IH. Qed.

Lemma section_json_entries claims : section_json claims = bmap_of_list (map claim_member claims).
Proof. unfold section_json. f_equal. apply map_ext. by intros []. Qed.

Lemma fold_pairs (l : list (string * value)) m :
  fold_left (fun m '(k, v) => binsert k v m) l m = fold_left (fun m kv => binsert (fst kv) (snd kv) m) l m.
Proof. revert m. induction l as [|[k v] l IH]; intros m; cbn; [done|]. apply IH. Qed.

Lemma id_token_json_entries r :
  fold_left (fun m '(k, v) => binsert k v m) (AscRequest.alias_members (aliases_of as_id_token r))
    (ClaimsRequest.id_token_json r) = bmap_of_list (id_entries r).
Proof.
  unfold id_entries, section_entries. rewrite !bmap_of_list_app, !fold_left_app. rewrite fold_pairs. f_equal.
  unfold ClaimsRequest.id_token_json, ClaimsRequest.insert_ida. rewrite fold_roles, section_json_entries.
  by destruct (cr_ida_id_token r), (cr_acr r).
Qed.

Lemma userinfo_json_entries r :
  fold_left (fun m '(k, v) => binsert k v m) (AscRequest.alias_members (aliases_of as_userinfo r))
    (ClaimsRequest.userinfo_json r) = bmap_of_list (user_entries r).
Proof.
  unfold user_entries, section_entries. rewrite !bmap_of_list_app, !fold_left_app. rewrite fold_pairs. f_equal.
  unfold ClaimsRequest.userinfo_json, ClaimsRequest.insert_ida. rewrite section_json_entries.
  by destruct (cr_ida_userinfo r).
Qed.

Lemma to_json_shape r : ClaimsRequest.to_json r = VObject (
  match cr_asc r with Some a => [("_asc"%string, AscRequest.asc_json a)] | None => [] end
  ++ [("id_token", VObject (bmap_of_list (id_entries r))); ("userinfo", VObject (bmap_of_list (user_entries r)))]%string).
Proof.
  rewrite <- id_token_json_entries, <- userinfo_json_entries. unfold ClaimsRequest.to_json, aliases_of.
  by destruct (cr_asc r).
Qed.

Record request_ok (r : ClaimsRequest) : Prop := {
  rq_id_ok : bmap_ok (cr_id_token r) /\ Forall claim_ok (cr_id_token r);
  rq_user_ok : bmap_ok (cr_userinfo r) /\ Forall claim_ok (cr_userinfo r);
  rq_acr_ok : forall a, cr_acr r = Some a -> entry_ok a;
  rq_roles_ok : bset_ok (cr_role_claims r);
  rq_ida_ok : forall i, cr_ida_id_token r = Some i \/ cr_ida_userinfo r = Some i -> ida_ok i;
  rq_asc_ok : forall a, cr_asc r = Some a -> asc_ok a;
  rq_user_small : (length (user_entries r) <= MAX_CLAIMS)%nat
}.

Lemma parse_ida_facts root member o : parse_ida_section root member = Ok o ->
  (forall i, o = Some i -> ida_ok i) /\
  (length (option_list o) <= match bget member root ≫= as_object with
     | Some ms => length (List.filter (fun m => String.eqb (fst m) "verified_claims") ms) | None => 0 end)%nat.
Proof.
  unfold parse_ida_section.
  destruct (bget member root) as [[| | | | |ms]|]; cbn [mbind option_bind as_object];
    try (intros [= <-]; split; [done|cbn; lia]).
  destruct (bget "verified_claims" ms) as [v|] eqn:Hv; [|intros [= <-]; split; [done|cbn; lia]].
  intros H. apply rbind_Ok in H as (r & Hr & H). injection H as <-. split; [intros i [= <-]; by eapply ida_parse_ok|].
  cbn. apply bget_In in Hv. assert (Hin : In ("verified_claims"%string, v)
    (List.filter (fun m => String.eqb (fst m) "verified_claims") ms)) by (apply filter_In; by split).
  destruct (List.filter _ ms); [done|cbn; lia].
Qed.

Lemma filters_length (ms : list (string * value)) :
  (length (List.filter plain_member ms) + length (List.filter (fun m => String.eqb (fst m) "verified_claims") ms)
   + length (List.filter alias_named ms) <= length ms)%nat.
Proof.
  induction ms as [|m ms IH]; [done|]. cbn [List.filter length].
  assert (Hm : plain_member m = negb (String.eqb (fst m) "verified_claims" || alias_named m)) by done.
  assert (Hv : String.eqb (fst m) "verified_claims" = true -> alias_named m = false).
  { unfold alias_named. by intros ->%String.eqb_eq. }
  destruct (plain_member m), (String.eqb (fst m) "verified_claims"), (alias_named m); cbn in Hm; try done; cbn [length];
    lia.
Qed.

Lemma accepted_entries_length claims acr roles ida aliases :
  length (section_entries claims acr roles ida aliases) =
  (length claims + length (option_list acr) + length roles + length (option_list ida) + length aliases)%nat.
Proof.
  unfold section_entries. rewrite !length_app, alias_members_map, !length_map. destruct acr, ida; cbn; lia.
Qed.

Lemma asc_parse_counts root o : AscRequest.parse root = Ok o ->
  (length (match o with Some a => as_userinfo a | None => [] end) <= match bget "userinfo"%string root ≫= as_object with
     | Some ms => length (List.filter alias_named ms) | None => 0 end)%nat.
Proof.
  unfold AscRequest.parse, want, invalid. destruct (bget "_asc" root) as [raw|].
  2:{ destruct (AscRequest.aliases_present root); [done|]. intros [= <-]. cbn. lia. }
  intros H. apply rbind_Ok in H as (asc & _ & H). passed H Hk. apply rbind_Ok in H as (ds & _ & H).
  apply rbind_Ok in H as (ids & _ & H). apply rbind_Ok in H as (us & Hus & H). apply rbind_Ok in H as (rules & _ & H).
  passed H Hr. injection H as <-. by apply parse_aliases_facts in Hus as (_ & _ & _ & ?).
Qed.

(** What every request that is read is known to be. *)
Lemma read_ok document r : ClaimsRequest.read document = Ok r -> request_ok r.
Proof.
  unfold ClaimsRequest.read. destruct (_ <? _)%nat; [done|].
  destruct (names_a_serde_json_sentinel document) eqn:Hc; [done|]. destruct document as [| | | | |root]; try done.
  change (names_a_serde_json_sentinel (VObject root) = false) with (clean (VObject root)) in Hc. intros H.
  apply rbind_Ok in H as (i1 & Hi1 & H). apply rbind_Ok in H as (i2 & Hi2 & H). apply rbind_Ok in H as (asc & Hasc & H).
  apply rbind_Ok in H as (s1 & Hs1 & H). apply rbind_Ok in H as (s2 & Hs2 & H). injection H as <-.
  destruct (parse_section_facts _ _ _ _ _ Hc Hs1) as (H1 & H2 & H3 & H4 & _); [done|constructor|].
  destruct (parse_section_facts _ _ _ _ _ Hc Hs2) as (H5 & H6 & H7 & _ & H8 & H9); [done|constructor|].
  apply parse_ida_facts in Hi1 as [Hi1 _]. apply parse_ida_facts in Hi2 as [Hi2 Hl2].
  constructor; cbn [cr_id_token cr_userinfo cr_acr cr_role_claims cr_ida_id_token cr_ida_userinfo cr_asc].
  - done.
  - done.
  - done.
  - done.
  - intros i [->| ->]; auto.
  - intros a ->. by eapply asc_parse_ok.
  - unfold user_entries, aliases_of. rewrite accepted_entries_length.
    cbn [cr_userinfo cr_ida_userinfo cr_asc option_list option_rect length].
    apply asc_parse_counts in Hasc as Hl3. destruct (bget "userinfo" root) as [[| | | | |ms]|] eqn:Hu;
      cbn [mbind option_bind as_object] in *; unfold MAX_CLAIMS; try lia.
    specialize (H9 ms eq_refl). unfold MAX_CLAIMS in H9. pose proof (filters_length ms).
    lia.
Qed.

Lemma section_entries_clean claims acr roles ida aliases :
  Forall claim_ok claims -> (forall a, acr = Some a -> entry_ok a) -> (forall i, ida = Some i -> ida_ok i) ->
  Forall (fun p => accepted_values (snd p) = []) aliases ->
  clean (VObject (bmap_of_list (section_entries claims acr roles ida aliases))).
Proof.
  intros Hc Ha Hi Hal. apply clean_object, bmap_of_list_Forall. unfold section_entries. rewrite !Forall_app. repeat split.
  - apply Forall_map. eapply Forall_impl; [exact Hc|]. intros [c e] (Hp & _ & He). split; [|by apply entry_json_clean].
    unfold ReleasableClaim.parse in Hp. cbn [fst claim_member] in *. by destruct (is_serde_json_sentinel _).
  - destruct acr as [a|]; [|constructor]. repeat constructor. by apply entry_json_clean, Ha.
  - apply Forall_map, Forall_forall. intros [] _; by split.
  - destruct ida as [i|]; [|constructor]. repeat constructor. by apply ida_json_clean, Hi.
  - rewrite alias_members_map. apply Forall_map. eapply Forall_impl; [exact Hal|]. intros [a e] He. split.
    + apply is_sentinel_false. intros [Hb|[Hb|[]]]; discriminate.
    + apply entry_json_clean. unfold entry_ok. cbn in *. by rewrite He.
Qed.

Lemma filter_perm {A} (p : A -> bool) l k : Permutation l k -> Permutation (List.filter p l) (List.filter p k).
Proof.
  induction 1 as [|a l k H IH|a b l|l k m H1 IH1 H2 IH2]; cbn; [done| | |by etransitivity].
  - destruct (p a); [by constructor|done].
  - destruct (p a), (p b); try done. apply perm_swap.
Qed.

Lemma entries_aliases claims acr roles ida aliases : Forall claim_ok claims ->
  List.filter alias_named (section_entries claims acr roles ida aliases) = map alias_member aliases.
Proof.
  intros Hc. unfold section_entries. rewrite !List.filter_app, alias_members_map.
  rewrite (filter_all alias_named false (map claim_member claims)).
  2:{ apply Forall_map. eapply Forall_impl; [exact Hc|]. by intros m (_ & ? & _). }
  rewrite (filter_all alias_named false (map role_member roles)) by (apply Forall_map, Forall_forall; by intros []).
  rewrite (filter_all alias_named true (map alias_member aliases)).
  2:{ apply Forall_map, Forall_forall. intros [a e] _. apply starts_with_colon. by exists a. }
  by destruct acr, ida.
Qed.

Lemma ida_section_back claims acr roles ida aliases root member :
  bget member root = Some (VObject (bmap_of_list (section_entries claims acr roles ida aliases))) ->
  NoDup (map fst (section_entries claims acr roles ida aliases)) -> Forall claim_ok claims ->
  (forall i, ida = Some i -> ida_ok i) -> parse_ida_section root member = Ok ida.
Proof.
  intros Hg Hnd Hc Hi. unfold parse_ida_section. rewrite Hg, (bget_bmap_of_list _ _ Hnd).
  assert (Hb : bget "verified_claims"%string (section_entries claims acr roles ida aliases) = IdaRequest.to_json <$> ida).
  { destruct (IdaRequest.to_json <$> ida) as [v|] eqn:Hv.
    - rewrite <- (bget_bmap_of_list _ _ Hnd). apply In_bget; [apply bmap_of_list_ok|].
      apply list_elem_of_In. rewrite (bmap_of_list_Permutation _ Hnd). destruct ida as [i|]; [|done].
      injection Hv as <-. unfold section_entries. set_solver.
    - apply bget_None. destruct ida; [done|]. unfold bkeys, section_entries.
      rewrite !map_app, !in_app_iff, alias_members_names. intros [H|[H|[H|[H|H]]]].
      + apply in_map_iff in H as ([k v] & Hk & Hin). apply in_map_iff in Hin as ([c e] & Hm & Hin).
        apply list_elem_of_In in Hin. rewrite Forall_forall in Hc. destruct (Hc _ Hin) as (Hp & Hs & _).
        cbn [fst snd claim_member] in *. injection Hm as Hn <-. cbn in Hk. subst k.
        apply claim_group in Hp; [|done]. rewrite Hn in Hp. discriminate.
      + destruct acr; cbn in H; [|done]. by destruct H as [H|[]].
      + rewrite map_map in H. apply in_map_iff in H as ([] & H & _); discriminate.
      + done.
      + apply in_map_iff in H as (a & H & _). discriminate. }
  rewrite Hb. destruct ida as [i|]; cbn [fmap option_fmap option_map]; [|done]. by rewrite ida_reads_back; [|apply Hi].
Qed.

Lemma no_alias m : Permutation (List.filter alias_named m) [] -> existsb (starts_with ":") (bkeys m) = false.
Proof.
  intros Hp%Permutation_nil_r. apply not_true_iff_false. intros (k & Hk & Hs)%existsb_exists.
  unfold bkeys in Hk. apply in_map_iff in Hk as ([k' v] & Hkk & Hin). cbn in Hkk. subst k'.
  assert (Hf : In (k, v) (List.filter alias_named m)) by (apply filter_In; by split). by rewrite Hp in Hf.
Qed.

(** The facts about a request's sections that reading them back needs. *)
Lemma section_facts r : request_ok r ->
  NoDup (bkeys (aliases_of as_id_token r)) /\ NoDup (bkeys (aliases_of as_userinfo r)) /\
  NoDup (map fst (id_entries r)) /\ NoDup (map fst (user_entries r)) /\
  clean (VObject (bmap_of_list (id_entries r))) /\ clean (VObject (bmap_of_list (user_entries r))).
Proof.
  intros Hr. destruct (rq_id_ok r Hr) as [Hid1 Hid2]. destruct (rq_user_ok r Hr) as [Hus1 Hus2].
  assert (Hal : forall sel, sel = as_id_token \/ sel = as_userinfo ->
    NoDup (bkeys (aliases_of sel r)) /\ Forall (fun p => accepted_values (snd p) = []) (aliases_of sel r)).
  { intros sel Hsel. unfold aliases_of. destruct (cr_asc r) as [a|] eqn:Ha; [|by split; constructor].
    pose proof (rq_asc_ok r Hr a Ha) as Hok. assert (Hx : aliases_ok (as_definitions a) (sel a))
      by (destruct Hsel as [->| ->]; apply Hok).
    destruct Hx as (Hm & Hf & _). split; [by apply bset_ok_NoDup|]. eapply Forall_impl; [exact Hf|]. by intros ? [? _]. }
  destruct (Hal as_id_token) as [Hal1 Hal2]; [by left|]. destruct (Hal as_userinfo) as [Hal3 Hal4]; [by right|].
  split; [done|]. split; [done|]. split; [apply entries_NoDup; [done|done|apply bset_ok_NoDup, Hr|done]|].
  split; [apply entries_NoDup; [done|done|constructor|done]|]. split.
  - apply section_entries_clean; [done|apply Hr| |done]. intros i Hi. apply Hr. by left.
  - apply section_entries_clean; [done|done| |done]. intros i Hi. apply Hr. by right.
Qed.

Lemma id_section_aliases r : request_ok r ->
  Permutation (List.filter alias_named (bmap_of_list (id_entries r))) (map alias_member (aliases_of as_id_token r)) /\
  Permutation (List.filter alias_named (bmap_of_list (user_entries r))) (map alias_member (aliases_of as_userinfo r)).
Proof.
  intros Hr. destruct (section_facts r Hr) as (_ & _ & Hnd1 & Hnd2 & _).
  rewrite (filter_perm _ _ _ (bmap_of_list_Permutation _ Hnd1)), (filter_perm _ _ _ (bmap_of_list_Permutation _ Hnd2)).
  unfold id_entries, user_entries. by rewrite !entries_aliases by apply Hr.
Qed.

Lemma asc_back r root : request_ok r ->
  bget "_asc"%string root = AscRequest.asc_json <$> cr_asc r ->
  bget "id_token"%string root = Some (VObject (bmap_of_list (id_entries r))) ->
  bget "userinfo"%string root = Some (VObject (bmap_of_list (user_entries r))) ->
  AscRequest.parse root = Ok (cr_asc r).
Proof.
  intros Hr Ha Hg1 Hg2. destruct (id_section_aliases r Hr) as [Hp1 Hp2]. unfold aliases_of in Hp1, Hp2.
  destruct (cr_asc r) as [a|] eqn:E.
  - eapply asc_reads_back; [by apply (rq_asc_ok r Hr)|exact Ha|exact Hg1|exact Hg2|exact Hp1|exact Hp2].
  - unfold AscRequest.parse. rewrite Ha. replace (AscRequest.aliases_present root) with false; [done|].
    symmetry. unfold AscRequest.aliases_present. cbn [existsb fmap option_fmap option_map]. rewrite Hg1, Hg2.
    cbn [mbind option_bind as_object is_some_and]. by rewrite !no_alias.
Qed.

(** Reading back what was read. *)
Lemma request_reads_back r : request_ok r ->
  ClaimsRequest.read (ClaimsRequest.to_json r) =
  if (MAX_JSON_DEPTH <? json_depth (ClaimsRequest.to_json r))%nat then Err TooDeep
  else if (MAX_CLAIMS <? length (id_entries r))%nat then Err TooManyClaims
  else Ok r.
Proof.
  intros Hr. unfold ClaimsRequest.read. destruct (_ <? json_depth _)%nat; [done|].
  destruct (rq_id_ok r Hr) as [Hid1 Hid2]. destruct (rq_user_ok r Hr) as [Hus1 Hus2].
  destruct (section_facts r Hr) as (Hal1 & Hal2 & Hnd1 & Hnd2 & Hc1 & Hc2). rewrite to_json_shape.
  assert (Hclean : clean (VObject (match cr_asc r with Some a => [("_asc"%string, AscRequest.asc_json a)] | None => [] end
    ++ [("id_token", VObject (bmap_of_list (id_entries r))); ("userinfo", VObject (bmap_of_list (user_entries r)))]%string))).
  { apply clean_object, Forall_app. split; [|by repeat constructor].
    destruct (cr_asc r) as [a|] eqn:Ha; [|constructor]. repeat constructor. by apply asc_json_clean, (rq_asc_ok r Hr). }
  unfold clean in Hclean. rewrite Hclean. cbv iota. set (root := _ ++ _) in *.
  assert (Hg1 : bget "id_token"%string root = Some (VObject (bmap_of_list (id_entries r)))) by (subst root; by destruct (cr_asc r)).
  assert (Hg2 : bget "userinfo"%string root = Some (VObject (bmap_of_list (user_entries r)))) by (subst root; by destruct (cr_asc r)).
  rewrite (ida_section_back (cr_id_token r) (cr_acr r) (cr_role_claims r) (cr_ida_id_token r) (aliases_of as_id_token r) root _ Hg1),
    (ida_section_back (cr_userinfo r) None [] (cr_ida_userinfo r) (aliases_of as_userinfo r) root _ Hg2)
    by (try done; intros i Hi; apply Hr; auto).
  cbn [rbind]. rewrite (asc_back r root Hr) by (try done; subst root; by destruct (cr_asc r)). cbn [rbind].
  rewrite (section_reads_back _ _ _ _ _ _ _ None Hid1 Hid2 (rq_roles_ok r Hr) Hal1 Hg1). fold (id_entries r).
  destruct (_ <? length (id_entries r))%nat; [done|]. cbn [rbind sec_acr sec_claims sec_roles].
  rewrite (section_reads_back root "userinfo" (cr_userinfo r) None [] (cr_ida_userinfo r) (aliases_of as_userinfo r)
    (cr_acr r) Hus1 Hus2 (SSorted_nil _) Hal2 Hg2). fold (user_entries r).
  destruct (Nat.ltb_spec MAX_CLAIMS (length (user_entries r))) as [H|_]; [pose proof (rq_user_small r Hr); lia|].
  cbn [rbind sec_acr sec_claims sec_roles]. destruct r as [c1 c2 [a|] rs i1 i2 asc]; done.
Qed.

(** The section of the ID token in the stored form. *)
Definition stored_id_section (r : ClaimsRequest) : object :=
  from_option id [] (vget "id_token" (ClaimsRequest.to_json r) ≫= as_object).

Lemma stored_id_section_length r : request_ok r -> length (stored_id_section r) = length (id_entries r).
Proof.
  intros Hr. destruct (section_facts r Hr) as (_ & _ & Hnd & _). unfold stored_id_section.
  rewrite to_json_shape. replace (vget _ _) with (Some (VObject (bmap_of_list (id_entries r)))) by (by destruct (cr_asc r)).
  cbn. apply Permutation_length, bmap_of_list_Permutation, Hnd.
Qed.

(** A document [serde_json] writes and reads back exactly: its integers are of 64 bits, its
    objects are maps, and it holds no floating-point number. Read without the feature
    [float_roundtrip], a floating-point number may come back as a neighbour of itself. *)
Definition held_number (n : number) : bool :=
  match n with
  | PosInt n => in_range 0 (2 ^ 64 - 1) n
  | NegInt n => in_range (- 2 ^ 63) (-1) n
  | Float _ => false
  end.

Fixpoint storable (v : value) : bool :=
  match v with
  | VNumber n => held_number n
  | VArray items => forallb storable items
  | VObject members =>
      bool_decide (bset_of_list (bkeys members) = bkeys members) && forallb (fun '(_, v) => storable v) members
  | _ => true
  end.

(** How deep [serde_json] reads. *)
Definition READABLE_DEPTH : nat := 127.

Section Stored.
Variable from_str : string -> option value.
Variable json_text : value -> string.
Abbreviation parse := (ClaimsRequest.parse from_str json_text).
Abbreviation from_json := (ClaimsRequest.from_json from_str json_text).

(** C24: A request accepted at the door whose stored form holds no floating-point number
    reads back from that form as itself, with its verified and its transformed claims,
    unless the form is out of the bounds the request was within: nested deeper, because a
    single accepted value is written as a list, or with more members in the section of the
    ID token, because [acr] is written there. Of the text of a document the proof uses
    that [serde_json] reads what it writes, floating-point numbers and nesting past its
    recursion limit apart. *)
Theorem stored_request_reads_back raw r :
  (forall v, storable v = true -> (json_depth v <= READABLE_DEPTH)%nat -> from_str (json_text v) = Some v) ->
  parse raw = Ok r ->
  storable (ClaimsRequest.to_json r) = true -> (json_depth (ClaimsRequest.to_json r) <= READABLE_DEPTH)%nat ->
  from_json (ClaimsRequest.to_json r) =
  if (MAX_JSON_DEPTH <? json_depth (ClaimsRequest.to_json r))%nat then Err TooDeep
  else if (MAX_CLAIMS <? length (stored_id_section r))%nat then Err TooManyClaims
  else Ok r.
Proof.
  unfold ClaimsRequest.parse. intros Hserde H Hst Hdeep. pose proof (Hserde _ Hst Hdeep) as Htext.
  passed H Hlen. apply rbind_Ok in H as (document & _ & H).
  apply rbind_Ok in H as (r' & Hr & H). passed H Hout. injection H as ->. apply read_ok in Hr as Hok.
  unfold ClaimsRequest.from_json, ClaimsRequest.parse. rewrite Hout, Htext. cbn [ok_or rbind].
  rewrite request_reads_back, stored_id_section_length by done.
  destruct (_ <? json_depth _)%nat; [done|]. destruct (_ <? _)%nat; [done|]. cbn [rbind]. by rewrite Hout.
Qed.
End Stored.

(** ** A text of values that reads back *)

Fixpoint string_text (s rest : string) : string :=
  match s with
  | EmptyString => String "."%char rest
  | String c s => String "_"%char (String c (string_text s rest))
  end.
Fixpoint bits_text (p : positive) (rest : string) : string :=
  match p with
  | xH => String "."%char rest
  | xO p => String "0"%char (bits_text p rest)
  | xI p => String "1"%char (bits_text p rest)
  end.
Definition int_text (n : Z) (rest : string) : string :=
  match n with
  | Z0 => String "z"%char rest
  | Zpos p => String "+"%char (bits_text p rest)
  | Zneg p => String "-"%char (bits_text p rest)
  end.

Fixpoint value_text (v : value) (rest : string) : string :=
  match v with
  | VNull => String "n"%char rest
  | VBool true => String "t"%char rest
  | VBool false => String "f"%char rest
  | VNumber (PosInt n) => String "u"%char (int_text n rest)
  | VNumber (NegInt n) => String "i"%char (int_text n rest)
  | VNumber (Float _) => String "x"%char rest
  | VString s => String "s"%char (string_text s rest)
  | VArray l => String "["%char (fold_right (fun v t => String ","%char (value_text v t)) (String "]"%char rest) l)
  | VObject m =>
      String "{"%char
        (fold_right (fun '(k, v) t => String ","%char (string_text k (value_text v t))) (String "}"%char rest) m)
  end.

Fixpoint read_string (t : string) : option (string * string) :=
  match t with
  | String "." t => Some (EmptyString, t)
  | String "_" (String c t) => '(s, t) ← read_string t; Some (String c s, t)
  | _ => None
  end%char.
Fixpoint read_bits (t : string) : option (positive * string) :=
  match t with
  | String "." t => Some (xH, t)
  | String "0" t => '(p, t) ← read_bits t; Some (xO p, t)
  | String "1" t => '(p, t) ← read_bits t; Some (xI p, t)
  | _ => None
  end%char.
Definition read_int (t : string) : option (Z * string) :=
  match t with
  | String "z" t => Some (0, t)
  | String "+" t => '(p, t) ← read_bits t; Some (Zpos p, t)
  | String "-" t => '(p, t) ← read_bits t; Some (Zneg p, t)
  | _ => None
  end%char.

Fixpoint read_value (fuel : nat) (t : string) : option (value * string) :=
  match fuel with
  | O => None
  | S fuel =>
      match t with
      | String "n" t => Some (VNull, t)
      | String "t" t => Some (VBool true, t)
      | String "f" t => Some (VBool false, t)
      | String "u" t => '(n, t) ← read_int t; Some (VNumber (PosInt n), t)
      | String "i" t => '(n, t) ← read_int t; Some (VNumber (NegInt n), t)
      | String "s" t => '(s, t) ← read_string t; Some (VString s, t)
      | String "[" t => '(l, t) ← read_items fuel t; Some (VArray l, t)
      | String "{" t => '(m, t) ← read_members fuel t; Some (VObject m, t)
      | _ => None
      end
  end%char
with read_items (fuel : nat) (t : string) : option (list value * string) :=
  match fuel with
  | O => None
  | S fuel =>
      match t with
      | String "]" t => Some ([], t)
      | String "," t => '(v, t) ← read_value fuel t; '(l, t) ← read_items fuel t; Some (v :: l, t)
      | _ => None
      end
  end%char
with read_members (fuel : nat) (t : string) : option (object * string) :=
  match fuel with
  | O => None
  | S fuel =>
      match t with
      | String "}" t => Some ([], t)
      | String "," t =>
          '(k, t) ← read_string t; '(v, t) ← read_value fuel t; '(m, t) ← read_members fuel t;
          Some ((k, v) :: m, t)
      | _ => None
      end
  end%char.

(** Enough fuel for a value. *)
Fixpoint value_size (v : value) : nat :=
  match v with
  | VArray l => S (fold_right (fun v n => S (value_size v + n)) 1 l)%nat
  | VObject m => S (fold_right (fun '(_, v) n => S (value_size v + n)) 1 m)%nat
  | _ => 1
  end.

Lemma read_string_text s rest : read_string (string_text s rest) = Some (s, rest).
Proof. induction s as [|c s IH]; [done|]. cbn. by rewrite IH. Qed.
Lemma read_bits_text p rest : read_bits (bits_text p rest) = Some (p, rest).
Proof. induction p as [p IH|p IH|]; [cbn; by rewrite IH..|done]. Qed.
Lemma read_int_text n rest : read_int (int_text n rest) = Some (n, rest).
Proof. destruct n; [done|cbn; by rewrite read_bits_text..]. Qed.

Lemma read_value_text v : storable v = true ->
  forall fuel rest, (value_size v <= fuel)%nat -> read_value fuel (value_text v rest) = Some (v, rest).
Proof.
  induction v as [|b|n|s|l IH|m IH] using value_ind'; intros Hst fuel rest Hf;
    (destruct fuel as [|fuel]; [cbn in Hf; lia|]).
  - done.
  - by destruct b.
  - destruct n; [cbn; by rewrite read_int_text..|done].
  - cbn. by rewrite read_string_text.
  - cbn in Hst, Hf |- *.
    assert (Hl : forall fuel, (fold_right (fun v n => S (value_size v + n)) 1 l <= fuel)%nat ->
      read_items fuel (fold_right (fun v t => String ","%char (value_text v t)) (String "]"%char rest) l)
      = Some (l, rest)); [|by rewrite Hl by lia].
    clear fuel Hf. induction IH as [|v l Hv _ IHl]; intros fuel Hf; (destruct fuel as [|fuel]; [cbn in Hf; lia|]); [done|].
    cbn in Hst, Hf |- *. apply andb_true_iff in Hst as [Hst1 Hst2].
    rewrite Hv by (done || lia). cbn. by rewrite IHl by (done || lia).
  - cbn in Hst, Hf |- *. apply andb_true_iff in Hst as [_ Hst].
    assert (Hl : forall fuel, (fold_right (fun '(_, v) n => S (value_size v + n)) 1 m <= fuel)%nat ->
      read_members fuel (fold_right (fun '(k, v) t => String ","%char (string_text k (value_text v t)))
        (String "}"%char rest) m) = Some (m, rest)); [|by rewrite Hl by lia].
    clear fuel Hf. induction m as [|[k v] m IHl]; intros fuel Hf; (destruct fuel as [|fuel]; [cbn in Hf; lia|]); [done|].
    cbn in Hst, Hf, IH |- *. apply Forall_cons in IH as [Hv IH]. apply andb_true_iff in Hst as [Hst1 Hst2].
    rewrite read_string_text. cbn. rewrite Hv by (done || lia). cbn. by rewrite IHl by (done || lia).
Qed.

Lemma text_length_value v rest : (value_size v + String.length rest <= String.length (value_text v rest))%nat.
Proof.
  assert (Hs : forall s rest, (String.length rest < String.length (string_text s rest))%nat).
  { induction s as [|c s IH]; intros r; cbn; [lia|]. specialize (IH r). lia. }
  assert (Hb : forall p rest, (String.length rest < String.length (bits_text p rest))%nat).
  { induction p as [p IH|p IH|]; intros r; cbn; [specialize (IH r); lia..|lia]. }
  assert (Hn : forall n rest, (String.length rest < String.length (int_text n rest))%nat).
  { intros [|p|p] r; cbn; [lia|specialize (Hb p r); lia..]. }
  revert rest. induction v as [|b|n|s|l IH|m IH] using value_ind'; intros rest.
  - cbn. lia.
  - destruct b; cbn; lia.
  - destruct n as [n|n|f]; cbn; [specialize (Hn n rest); lia..|lia].
  - cbn. specialize (Hs s rest). lia.
  - cbn. apply le_n_S. induction IH as [|v l Hv _ IHl]; cbn; [lia|].
    specialize (Hv (fold_right (fun v t => String ","%char (value_text v t)) (String "]"%char rest) l)). lia.
  - cbn. apply le_n_S. induction m as [|[k v] m IHl]; cbn in *; [lia|]. apply Forall_cons in IH as [Hv IH].
    specialize (IHl IH).
    match goal with |- context [string_text k (value_text v ?t)] =>
      specialize (Hv t); specialize (Hs k (value_text v t)) end. lia.
Qed.

Definition sample_json_text (v : value) : string := value_text v "".
Definition sample_from_str (t : string) : option value :=
  match read_value (String.length t) t with Some (v, EmptyString) => Some v | _ => None end.

Lemma sample_text_reads v : storable v = true -> sample_from_str (sample_json_text v) = Some v.
Proof.
  intros Hst. unfold sample_from_str, sample_json_text. rewrite read_value_text; [done|done|].
  pose proof (text_length_value v ""). cbn in H. lia.
Qed.

(** A request with a value, a class, verified and transformed claims. *)
Definition sent_document : value := jobj [
  ("_asc", jobj [("transformed_claims", jobj [
     ("adult", jobj [("claim", VString "birthdate"); ("fn", VArray [VArray [VString "lte"; VNumber (PosInt 2000)]])])])]);
  ("id_token", jobj [("given_name", jobj [("essential", VBool true); ("value", VString "Ada")]);
     (":adult", VNull);
     ("verified_claims", jobj [("verification", jobj [("trust_framework", VNull)]);
                               ("claims", jobj [("family_name", VNull)])])]);
  ("userinfo", jobj [("acr", jobj [("values", VArray [VString "gold"])])])]%string.
Definition sent_request : ClaimsRequest :=
  match ClaimsRequest.read sent_document with Ok r => r | Err _ => default_claims end.
Lemma stored_request_reads_back_witness :
  ClaimsRequest.is_empty sent_request = false /\
  ClaimsRequest.from_json sample_from_str sample_json_text (ClaimsRequest.to_json sent_request) = Ok sent_request.
Proof.
  split; [by vm_compute|].
  rewrite (stored_request_reads_back sample_from_str sample_json_text (sample_json_text sent_document) sent_request
    (fun v Hv _ => sample_text_reads v Hv) ltac:(vm_compute; reflexivity) ltac:(vm_compute; reflexivity)
    ltac:(apply Nat.leb_le; vm_compute; reflexivity)).
  vm_compute. reflexivity.
Defined.
