(* ===== verification/ClaimsLaws.v ===== *)
(** * What the claims of a client are worth

    Laws of [Claims]: what a request resolves to exactly, that nothing is released but what
    was consented to and nothing the server asserts itself, the choice of a language, and
    what is projected of verified claims. *)

From S2P Require Import Prelude Text BTree Json Roles Locale Users Claims ClaimsStored.
Open Scope Z_scope.

(** ** What is released *)

Definition projected (user : User) (locales : list string) (name : string) : option value :=
  c ← ReleasableClaim.parse name; project user c locales.

Lemma insert_named_fold user locales names name m :
  bget name (fold_left (insert_named user locales) names m) =
  if in_strings name names then match projected user locales name with Some v => Some v | None => bget name m end
  else bget name m.
Proof.
  revert m. induction names as [|n names IH]; intros m; [done|]. cbn [fold_left in_strings]. rewrite IH.
  assert (Hins : bget name (insert_named user locales m n) =
    if String.eqb name n then match projected user locales name with Some v => Some v | None => bget name m end
    else bget name m).
  { unfold insert_named, projected. destruct (String.eqb_spec name n) as [->|Hne].
    - destruct (ReleasableClaim.parse n) as [c|]; cbn; [|done]. destruct (project user c locales); [|done].
      apply bget_binsert_eq.
    - destruct (ReleasableClaim.parse n) as [c|]; [|done]. destruct (project user c locales); [|done].
      by apply bget_binsert_ne. }
  rewrite Hins. destruct (String.eqb name n), (in_strings name names), (projected user locales name); done.
Qed.

Lemma insert_projected_fold user locales claims m : Forall claim_ok claims ->
  fold_left (insert_projected user locales) (bkeys claims) m =
  fold_left (insert_named user locales) (map ReleasableClaim.as_str (bkeys claims)) m.
Proof.
  intros Hc. revert m. induction Hc as [|[c e] claims (Hp & _) Hc IH]; intros m; [done|].
  cbn [bkeys map fold_left fst] in *. rewrite IH. f_equal. unfold insert_projected, insert_named. by rewrite Hp.
Qed.

Definition requested_names (claims : list (ReleasableClaim * ClaimRequest)) : list string :=
  map ReleasableClaim.as_str (bkeys claims).

Lemma resolve_facts r user scopes locales name : request_ok r ->
  bget name (rc_id_token (resolve user scopes r locales)) =
    (if in_strings name (requested_names (cr_id_token r)) then projected user locales name else None) /\
  bget name (rc_userinfo (resolve user scopes r locales)) =
    (if in_strings name (requested_names (cr_userinfo r)) || in_strings name (concat (map claims_for_scope scopes))
     then projected user locales name else None).
Proof.
  intros Hr. unfold resolve. cbn [rc_id_token rc_userinfo]. rewrite !insert_projected_fold by apply Hr.
  rewrite !insert_named_fold. fold (requested_names (cr_id_token r)) (requested_names (cr_userinfo r)). cbn [bget].
  destruct (in_strings name (requested_names (cr_id_token r))), (in_strings name (requested_names (cr_userinfo r))),
    (in_strings name (concat _)), (projected user locales name); done.
Qed.

(** What a request without transformed claims resolves to, exactly. The ID token has the
    claims asked for there and UserInfo those asked for there or of a granted scope, each
    with what the person's record projects to, and none the person does not have. *)
Theorem resolve_exact document r user scopes locales name :
  ClaimsRequest.read document = Ok r ->
  bget name (rc_id_token (resolve user scopes r locales)) =
    (if in_strings name (requested_names (cr_id_token r)) then projected user locales name else None) /\
  bget name (rc_userinfo (resolve user scopes r locales)) =
    (if in_strings name (requested_names (cr_userinfo r)) || in_strings name (concat (map claims_for_scope scopes))
     then projected user locales name else None).
Proof. intros Hr%read_ok. by apply resolve_facts. Qed.

(** *** Transformed claims and rules *)

Lemma apply_rules_only_remove rules m m' name v :
  apply_rules rules m = Ok m' -> bget name m' = Some v -> bget name m = Some v.
Proof.
  unfold apply_rules. revert m. induction rules as [|r rules IH]; intros m H Hv; cbn in H; [by injection H as ->|].
  apply rbind_Ok in H as (m1 & Hm1 & H). apply (IH _ H) in Hv. clear IH H. unfold apply_rule in Hm1.
  destruct (rule_matched r m); [by injection Hm1 as ->|]. destruct (ru_omit r) as [omit|]; [|done].
  injection Hm1 as <-. revert m Hv. induction omit as [|n omit IH]; intros m Hv; [done|]. cbn in Hv.
  apply IH in Hv. rewrite bget_bremove in Hv. by destruct (String.eqb name n).
Qed.

Lemma apply_function_boolean f v w : apply_function f v = Some w -> exists b, w = VBool b.
Proof.
  unfold apply_function. intros H. repeat case_match; simplify_eq; try done;
    repeat match goal with K : _ ≫= _ = Some _ |- _ => apply bind_Some in K as (? & ? & K) end; simplify_eq; eauto.
Qed.

Lemma apply_functions_boolean fs v w : fs <> [] -> apply_functions fs v = Some w -> exists b, w = VBool b.
Proof.
  revert v. induction fs as [|f fs IH]; intros v Hne H; [done|]. cbn in H.
  apply bind_Some in H as (u & Hu & H). destruct fs as [|g fs]; [|by eapply IH].
  injection H as <-. by eapply apply_function_boolean.
Qed.

(** An answer to a transformed claim: true or false, under the name of its alias. *)
Definition answers (r : ClaimsRequest) (sel : AscRequest -> list (string * ClaimRequest)) (user : User)
    (locales : list string) (name : string) (v : value) : Prop :=
  exists a alias b, cr_asc r = Some a /\ In alias (bkeys (sel a)) /\ name = (":" +:+ alias)%string /\
    transformed a user locales alias = Some v /\ v = VBool b.

Lemma transform_adds a user locales aliases m name v :
  bget name (transform a user locales aliases m) = Some v ->
  bget name m = Some v \/
  exists alias, In alias (bkeys aliases) /\ name = (":" +:+ alias)%string /\ transformed a user locales alias = Some v.
Proof.
  unfold transform. generalize (bkeys aliases) as names. intros names. revert m.
  induction names as [|n names IH]; intros m H; cbn [fold_left] in H; [by left|].
  apply IH in H as [H|(alias & Hin & Ha)]; [|right; exists alias; split; [by right|done]].
  destruct (transformed a user locales n) as [w|] eqn:Hw; [|by left].
  destruct (decide (name = (":" +:+ n)%string)) as [->|Hne].
  - rewrite bget_binsert_eq in H. injection H as ->. right. exists n. split; [by left|done].
  - rewrite bget_binsert_ne in H by done. by left.
Qed.

Lemma transformed_boolean a user locales alias v : asc_ok a -> transformed a user locales alias = Some v ->
  exists b, v = VBool b.
Proof.
  intros Ha. unfold transformed. intros (d & Hd & (w & _ & H)%bind_Some)%bind_Some.
  eapply apply_functions_boolean; [|exact H]. destruct (as_definitions_ok a Ha) as (_ & Hok & _).
  apply bget_In, list_elem_of_In in Hd. rewrite Forall_forall in Hok. apply Hok in Hd.
  destruct Hd as [_ _ _ Hc]. cbn in Hc. by destruct (df_functions d); cbn in *; [lia|].
Qed.

Lemma projected_not_issued user locales name v : projected user locales name = Some v -> ~ issued_by_server name.
Proof. intros (c & Hc & _)%bind_Some. by eapply releasable_not_issued. Qed.

(** What may appear under a name: what the person's record projects to, where the name was
    asked for or is of a granted scope; or the answer to a transformed claim. *)
Definition covered (r : ClaimsRequest) (user : User) (locales : list string) (names : list string)
    (sel : AscRequest -> list (string * ClaimRequest)) (name : string) (v : value) : Prop :=
  ~ issued_by_server name /\
  (In name names /\ projected user locales name = Some v \/ answers r sel user locales name v).

Lemma resolve_covered r user scopes locales name v : request_ok r ->
  (bget name (rc_id_token (resolve user scopes r locales)) = Some v ->
     covered r user locales (requested_names (cr_id_token r)) as_id_token name v) /\
  (bget name (rc_userinfo (resolve user scopes r locales)) = Some v ->
     covered r user locales (requested_names (cr_userinfo r) ++ concat (map claims_for_scope scopes)) as_userinfo name v).
Proof.
  intros Hr. destruct (resolve_facts r user scopes locales name Hr) as [-> ->]. split.
  - destruct (in_strings _ _) eqn:Hin; [|done]. intros Hv. split; [by eapply projected_not_issued|]. left.
    split; [by apply in_strings_In|done].
  - destruct (_ || _) eqn:Hin; [|done]. intros Hv. split; [by eapply projected_not_issued|]. left.
    split; [|done]. rewrite in_app_iff, <- !in_strings_In. by apply orb_true_iff.
Qed.

(** C23: What a client receives stays within what was consented to. Every claim delivered is
    one the stored request names for that place, or for UserInfo one of a granted scope, with
    exactly what the person's record projects to; or the answer, true or false, to a
    transformed claim of the request, under the name of its alias. Rules only take claims
    away, and no name the server itself issues claims under - subject, audience, roles,
    authorization details, the binding of a token - is ever among them, with or without a
    language tag. *)
Theorem release_stays_within_consent document r user scopes locales res name v :
  ClaimsRequest.read document = Ok r -> resolve_checked user scopes r locales = Ok res ->
  (bget name (rc_id_token res) = Some v ->
     covered r user locales (requested_names (cr_id_token r)) as_id_token name v) /\
  (bget name (rc_userinfo res) = Some v ->
     covered r user locales (requested_names (cr_userinfo r) ++ concat (map claims_for_scope scopes)) as_userinfo name v).
Proof.
  intros Hr%read_ok Hres. unfold resolve_checked in Hres.
  destruct (cr_asc r) as [a|] eqn:Ha; [|injection Hres as <-; by apply resolve_covered].
  pose proof (rq_asc_ok r Hr a Ha) as Hok. unfold asc_apply in Hres.
  apply rbind_Ok in Hres as (i & Hi & Hres). apply rbind_Ok in Hres as (u & Hu & Hres). injection Hres as <-.
  cbn [rc_id_token rc_userinfo]. destruct (resolve_covered r user scopes locales name v Hr) as [H1 H2].
  assert (Hans : forall sel alias, In alias (bkeys (sel a)) -> transformed a user locales alias = Some v ->
    ~ issued_by_server (":" +:+ alias)%string /\ answers r sel user locales (":" +:+ alias)%string v).
  { intros sel alias Hin Ht. split; [apply alias_not_issued|]. destruct (transformed_boolean _ _ _ _ _ Hok Ht) as [b ->].
    by exists a, alias, b. }
  split; intros Hv.
  - eapply apply_rules_only_remove in Hv; [|exact Hi]. apply transform_adds in Hv as [Hv|(alias & Hin & -> & Ht)]; [by apply H1|].
    destruct (Hans as_id_token alias Hin Ht). split; [done|by right].
  - eapply apply_rules_only_remove in Hv; [|exact Hu]. apply transform_adds in Hv as [Hv|(alias & Hin & -> & Ht)]; [by apply H2|].
    destruct (Hans as_userinfo alias Hin Ht). split; [done|by right].
Qed.

(** ** The choice of a language *)

Definition tagged (p : string -> bool) (m : ClaimName * Claim) : bool := is_some_and p (ClaimName.language_tag (fst m)).

(** The first preference that some spelling answers, with the first spelling that does. *)
Definition first_answer (p : string -> string -> bool) (preferences : list string) (variants : list (ClaimName * Claim))
    (v : value) : Prop :=
  exists before wanted after pre name claim post,
    preferences = before ++ wanted :: after /\ variants = pre ++ (name, claim) :: post /\ v = c_value claim /\
    Forall (fun w => Forall (fun m => tagged (p w) m = false) variants) before /\
    Forall (fun m => tagged (p wanted) m = false) pre /\ tagged (p wanted) (name, claim) = true.
Definition no_answer (p : string -> string -> bool) (preferences : list string) (variants : list (ClaimName * Claim))
    : Prop := Forall (fun w => Forall (fun m => tagged (p w) m = false) variants) preferences.

Lemma find_split {A} (p : A -> bool) l :
  match List.find p l with
  | Some a => exists pre post, l = pre ++ a :: post /\ Forall (fun b => p b = false) pre /\ p a = true
  | None => Forall (fun b => p b = false) l
  end.
Proof.
  induction l as [|a l IH]; cbn; [constructor|]. destruct (p a) eqn:Ha; [by exists [], l|].
  destruct (List.find p l) as [b|]; [|by constructor]. destruct IH as (pre & post & -> & Hpre & Hb).
  exists (a :: pre), post. split; [done|]. split; [by constructor|done].
Qed.

Lemma pick_variant_spec p variants :
  match pick_variant p variants with
  | Some v => exists pre name claim post, variants = pre ++ (name, claim) :: post /\ v = c_value claim /\
      Forall (fun m => tagged p m = false) pre /\ tagged p (name, claim) = true
  | None => Forall (fun m => tagged p m = false) variants
  end.
Proof.
  unfold pick_variant. pose proof (find_split (tagged p) variants) as H.
  replace (List.find _ variants) with (List.find (tagged p) variants)
    by (clear; induction variants as [|[n c] vs IH]; cbn; [done|]; unfold tagged at 1; cbn; by rewrite IH).
  destruct (List.find (tagged p) variants) as [[n c]|]; cbn; [|done].
  destruct H as (pre & post & -> & Hpre & Hn). by exists pre, n, c, post.
Qed.

Lemma first_preferred_spec p preferences variants :
  match first_preferred p preferences variants with
  | Some v => first_answer p preferences variants v
  | None => no_answer p preferences variants
  end.
Proof.
  induction preferences as [|w ws IH]; cbn; [constructor|]. pose proof (pick_variant_spec (p w) variants) as Hw.
  destruct (pick_variant (p w) variants) as [v|].
  - destruct Hw as (pre & n & c & post & -> & -> & Hpre & Hn).
    exists [], w, ws, pre, n, c, post. by repeat split.
  - destruct (first_preferred p ws variants) as [v|]; [|by constructor].
    destruct IH as (b & w' & a & pre & n & c & post & -> & Hv & Hc & Hb & Hpre & Hn).
    exists (w :: b), w', a, pre, n, c, post. repeat split; try done. by constructor.
Qed.

(** The spelling of a claim a client is given. One asked for in a language is given in
    that language or not at all. Otherwise the preferences are tried in order for the exact
    tag, then in order for the language, each taking the first spelling in the order of the
    names; then the untagged one is given, and nothing where there is none. *)
Theorem language_preference claims name locales :
  let variants := ClaimSet.variants (ClaimName.base name) claims in
  match ClaimName.language_tag name with
  | Some _ => select claims name locales = c_value <$> ClaimSet.get name claims
  | None =>
      (exists v, select claims name locales = Some v /\ first_answer exact_tag locales variants v) \/
      no_answer exact_tag locales variants /\
      ((exists v, select claims name locales = Some v /\ first_answer same_language locales variants v) \/
       no_answer same_language locales variants /\ select claims name locales = c_value <$> ClaimSet.get name claims)
  end.
Proof.
  cbn zeta. unfold select. destruct (ClaimName.language_tag name); [done|].
  set (variants := ClaimSet.variants _ _). pose proof (first_preferred_spec exact_tag locales variants) as H1.
  destruct (first_preferred exact_tag locales variants) as [v|]; [left; by exists v|right; split; [done|]].
  pose proof (first_preferred_spec same_language locales variants) as H2.
  destruct (first_preferred same_language locales variants) as [v|]; [left; by exists v|right; by split].
Qed.

(** ** Verified claims *)

Lemma omap_keys_NoDup {A} (f : string -> option A) l : NoDup l ->
  NoDup (map fst (omap (fun name => v ← f name; Some (name, v)) l)).
Proof.
  induction 1 as [|n l Hn Hl IH]; cbn; [constructor|]. destruct (f n) as [v|]; cbn; [|done]. constructor; [|done].
  intros (m & Hm & Hin)%list_elem_of_fmap. apply list_elem_of_omap in Hin as (k & Hk & Hf).
  apply bind_Some in Hf as (w & _ & [= <-]). cbn in Hm. by subst.
Qed.

Lemma bget_omap {A} (f : string -> option A) l name : NoDup l ->
  bget name (bmap_of_list (omap (fun name => v ← f name; Some (name, v)) l)) = if in_strings name l then f name else None.
Proof.
  intros Hl. rewrite bget_bmap_of_list by by apply omap_keys_NoDup. clear Hl.
  induction l as [|n l IH]; cbn [omap list_omap in_strings]; [done|]. destruct (f n) as [v|] eqn:Hf; cbn [mbind option_bind].
  - rewrite bget_cons_string, IH. destruct (String.eqb_spec name n) as [->|]; [done|]. done.
  - rewrite IH. destruct (String.eqb_spec name n) as [->|]; cbn; [|done]. rewrite Hf. by destruct (in_strings n l).
Qed.

(** What is released of verified claims. It is the newest bundle the request and the
    tenant's policy admit: of an allowed framework, the one asked for if one was, with a
    claim that was asked for and, where evidence was asked for, evidence of such a type. Of
    it go the claims that were asked for, the types of evidence that were, the process
    where it was, and nothing else. *)
Theorem verified_release_is_limited rfc3339 doc request bundles allowed v :
  IdaRequest.parse doc = Ok request -> project_verified_claims rfc3339 request bundles allowed = Some v ->
  exists newer bundle older vm cm,
    bundles = newer ++ bundle :: older /\ Forall (fun b => eligible request allowed b = false) newer /\
    eligible request allowed bundle = true /\
    v = VObject [("claims", VObject cm); ("verification", VObject vm)]%string /\
    (forall name, bget name cm =
       if in_strings name (bkeys (ida_claims request)) then bget name (vc_claims bundle) else None) /\
    bget "trust_framework"%string vm = Some (VString (v_trust_framework (vc_verification bundle))) /\
    bget "verification_process"%string vm =
      (if ida_verification_process request then VString <$> v_process (vc_verification bundle) else None) /\
    (forall e, bget "evidence"%string vm = Some e -> exists l, e = VArray l /\
       Forall (fun x => exists kind entry, x = jobj [("type"%string, VString kind)] /\
         In kind (ida_evidence_types request) /\ In entry (v_evidence (vc_verification bundle)) /\
         evidence_type entry = Some kind) l) /\
    (forall key, In key (bkeys vm) ->
       In key ["trust_framework"; "time"; "verification_process"; "evidence"]%string).
Proof.
  intros Hp%ida_parse_ok. unfold project_verified_claims. intros (bundle & Hb & [= <-])%bind_Some.
  pose proof (find_split (eligible request allowed) bundles) as Hs. rewrite Hb in Hs.
  destruct Hs as (newer & older & -> & Hn & He).
  exists newer, bundle, older, (bmap_of_list (fields [
    ("trust_framework", Some (VString (v_trust_framework (vc_verification bundle))));
    ("time", Some (VString (rfc3339 (v_time (vc_verification bundle)))));
    ("verification_process",
       if ida_verification_process request then VString <$> v_process (vc_verification bundle) else None);
    ("evidence", projected_evidence request bundle)]%string)),
    (bmap_of_list (omap (fun name => v ← bget name (vc_claims bundle); Some (name, v)) (bkeys (ida_claims request)))).
  split; [done|]. split; [done|]. split; [done|]. split; [done|].
  split; [intros name; apply (bget_omap (fun name => bget name (vc_claims bundle))), bmap_ok_NoDup, Hp|]. split; [by read_fields|]. split; [by read_fields|]. split.
  - intros e. read_fields. unfold projected_evidence. intros H.
    destruct (ida_evidence_types request) as [|k ks] eqn:Ek; [done|]. rewrite <- Ek in *.
    destruct (omap _ _) as [|x l] eqn:Hl in H; [done|]. injection H as <-. exists (x :: l). split; [done|].
    rewrite <- Hl. apply Forall_forall. intros y (entry & Hin & Hy)%list_elem_of_omap.
    apply bind_Some in Hy as (kind & Hk & Hy). destruct (in_strings kind _) eqn:Hks; [|done]. injection Hy as <-.
    exists kind, entry. split; [done|]. split; [by apply in_strings_In|]. split; [by apply list_elem_of_In|done].
  - intros key. rewrite bkeys_bmap_of_list. intros H%In_bset_of_list%fields_keys. exact H.
Qed.

(** ** A person and what a client asks for *)

Definition claim_of (v : value) : Claim := {| c_value := v; c_source := Admin; c_verified_at := None |}.
Definition ada : User := {|
  u_tenant := "t"; u_id := [1]; u_username := "ada"; u_email := Some "ada@example.org"%string;
  u_email_verified := true; u_status := Active;
  u_claims := bmap_of_list [("birthdate", claim_of (VString "1815-12-10")); ("given_name", claim_of (VString "Ada"));
                            ("given_name#fr", claim_of (VString "Adèle")); ("nickname", claim_of (VString "A"))]%string;
  u_created_at := 0; u_updated_at := 0 |}.

Definition plain_document : value := jobj [
  ("id_token", jobj [("given_name", VNull); ("sub", VNull)]); ("userinfo", jobj [("nickname", VNull)])]%string.
Definition plain_request : ClaimsRequest :=
  match ClaimsRequest.read plain_document with Ok r => r | Err _ => default_claims end.

Lemma resolve_exact_witness :
  bget "given_name"%string (rc_id_token (resolve ada ["email"%string] plain_request ["fr"%string]))
    = Some (VString "Adèle") /\
  bget "sub"%string (rc_id_token (resolve ada ["email"%string] plain_request [])) = None /\
  bget "email"%string (rc_userinfo (resolve ada ["email"%string] plain_request []))
    = Some (VString "ada@example.org").
Proof.
  assert (Hr : ClaimsRequest.read plain_document = Ok plain_request) by (vm_compute; reflexivity).
  rewrite (proj1 (resolve_exact _ _ ada ["email"%string] ["fr"%string] "given_name" Hr)).
  rewrite (proj1 (resolve_exact _ _ ada ["email"%string] [] "sub" Hr)).
  rewrite (proj2 (resolve_exact _ _ ada ["email"%string] [] "email" Hr)).
  split; [|split]; vm_compute; reflexivity.
Defined.

(** Whether the name starts with an A is asked; the name is withheld if the nickname is
    not one of two. *)
Definition derived_document : value := jobj [
  ("_asc", jobj [
     ("sao", jobj [("id_token", VArray [jobj [("loc", VString "/nickname"); ("method", VString "simple");
        ("values", VArray [VString "B"; VString "C"]); ("else", VString "omit");
        ("what", VArray [VString "/given_name"])]])]);
     ("transformed_claims", jobj [("initial", jobj [("claim", VString "given_name");
        ("fn", VArray [VArray [VString "starts_with"; VString "A"]])])])]);
  ("id_token", jobj [(":initial", VNull); ("given_name", VNull); ("nickname", VNull)])]%string.
Definition derived_request : ClaimsRequest :=
  match ClaimsRequest.read derived_document with Ok r => r | Err _ => default_claims end.
Definition derived : ResolvedClaims :=
  match resolve_checked ada [] derived_request [] with Ok r => r | Err _ => {| rc_id_token := []; rc_userinfo := [] |} end.

Lemma release_stays_within_consent_witness :
  bkeys (rc_id_token derived) = [":initial"; "nickname"]%string /\
  covered derived_request ada [] (requested_names (cr_id_token derived_request)) as_id_token
    ":initial" (VBool true).
Proof.
  split; [vm_compute; reflexivity|].
  apply (proj1 (release_stays_within_consent derived_document derived_request ada [] [] derived ":initial" (VBool true)
    ltac:(vm_compute; reflexivity) ltac:(vm_compute; reflexivity))). vm_compute. reflexivity.
Defined.

Definition verified_document : value := jobj [
  ("verification", jobj [("trust_framework", jobj [("value", VString "de_aml")]);
                         ("evidence", VArray [jobj [("type", jobj [("value", VString "document")])]])]);
  ("claims", jobj [("family_name", VNull); ("given_name", VNull)])]%string.
Definition verified_request : IdaRequest :=
  match IdaRequest.parse verified_document with
  | Ok r => r
  | Err _ => {| ida_framework := None; ida_claims := []; ida_evidence_types := []; ida_verification_process := false |}
  end.
Definition bundle_of (framework : string) : VerifiedClaims := {|
  vc_verification := {| v_trust_framework := framework; v_verifier := "bank"; v_time := 0; v_process := Some "p"%string;
    v_evidence := [jobj [("number", VString "X1"); ("type", VString "document")]]%string |};
  vc_claims := [("birthdate", VString "1815-12-10"); ("family_name", VString "Lovelace")]%string |}.
Definition no_instant (_ : Z) : string := "".
Definition released : value := jobj [
  ("verification", jobj [("trust_framework", VString "de_aml"); ("time", VString "");
     ("evidence", VArray [jobj [("type", VString "document")]])]);
  ("claims", jobj [("family_name", VString "Lovelace")])]%string.

Lemma verified_release_is_limited_witness :
  project_verified_claims no_instant verified_request [bundle_of "eidas"; bundle_of "de_aml"]
    ["de_aml"; "eidas"]%string = Some released /\
  exists cm, vget "claims" released = Some (VObject cm) /\ bget "birthdate"%string cm = None.
Proof.
  assert (H : project_verified_claims no_instant verified_request [bundle_of "eidas"; bundle_of "de_aml"]
    ["de_aml"; "eidas"]%string = Some released) by (vm_compute; reflexivity).
  split; [exact H|].
  destruct (verified_release_is_limited no_instant verified_document verified_request _ _ _
    ltac:(vm_compute; reflexivity) H) as (newer & bundle & older & vm & cm & _ & _ & _ & Hv & Hc & _).
  exists cm. split; [by rewrite Hv|]. rewrite Hc. vm_compute. reflexivity.
Defined.
