(* ===== verification/PolicyRequest.v ===== *)
(** * What a decision is about

    [crates/domain/src/policy/request.rs] and the server-owned facts of
    [crates/domain/src/policy/conditional.rs]: bounded property bags, the
    subject, action, resource and context of a request, and the trusted snapshot
    a caller cannot write. *)

From S2P Require Import Prelude BTree Json Roles Grants.

Definition MAX_PROPERTIES : Z := 64.
Definition MAX_PROPERTY_NAME : Z := 128.
Definition MAX_PROPERTY_DEPTH : nat := 8.
Definition MAX_PROPERTY_NODES : nat := 256.
Definition MAX_IDENTIFIER : Z := 256.
Definition MAX_GRANTS : Z := 64.

Inductive RequestError : Type :=
| TooManyProperties
| PropertyName
| PropertyDepth (name : string)
| PropertySize (name : string)
| Identifier (field : string)
| TooManyGrants.

(** ** Property bags *)

Inductive Overrun : Type := ODepth | OSize.

Definition overrun_named (o : Overrun) (property : string) : RequestError :=
  match o with ODepth => PropertyDepth property | OSize => PropertySize property end.

(** [measure]: the running node count is threaded through the walk. *)
Fixpoint measure (v : value) (depth nodes : nat) : result nat Overrun :=
  let nodes := S nodes in
  if (MAX_PROPERTY_NODES <? nodes)%nat then Err OSize
  else match v with
  | VArray items =>
      if (MAX_PROPERTY_DEPTH <=? depth)%nat then Err ODepth
      else try_fold (fun x => measure x (S depth)) items nodes
  | VObject members =>
      if (MAX_PROPERTY_DEPTH <=? depth)%nat then Err ODepth
      else try_fold (fun '(_, x) => measure x (S depth)) members nodes
  | _ => Ok nodes
  end.

Abbreviation Properties := (list (string * value)) (only parsing).

Module Properties.
Definition empty : Properties := [].

Definition name_refused (name : string) : bool :=
  is_empty name || (MAX_PROPERTY_NAME <? slen name)%Z
  || String.eqb name "trusted" || starts_with "trusted." name
  || starts_with "asterius.trusted." name.

Fixpoint validate_members (m : Properties) : result () RequestError :=
  match m with
  | [] => Ok ()
  | (name, v) :: r =>
      if name_refused name then Err PropertyName
      else
        let? _ := map_err (fun o => overrun_named o name) (measure v 1 0) in
        validate_members r
  end.

Definition validate (m : Properties) : result () RequestError :=
  if (MAX_PROPERTIES <? Z.of_nat (length m))%Z then Err TooManyProperties
  else validate_members m.

Definition new (members : list (string * value)) : result Properties RequestError :=
  let members := bmap_of_list members in
  let? _ := validate members in
  Ok members.

Definition from_json (v : value) : result Properties RequestError :=
  match as_object v with Some members => new members | None => Ok empty end.

Definition get (p : Properties) (name : string) : option value := bget name p.
Definition to_json (p : Properties) : value := VObject p.
End Properties.

Definition identifier (field raw : string) : result string RequestError :=
  if is_empty raw || (MAX_IDENTIFIER <? slen raw)%Z then Err (Identifier field)
  else Ok raw.

(** ** The facts of a grant *)

Record DetailFact : Type := {
  detail_type : string;
  d_actions : list string;
  d_locations : list string
}.

Module DetailFact.
Definition strings (element : value) (member : string) : list string :=
  match vget member element ≫= as_array with
  | Some items => bset_of_list (omap as_str items)
  | None => []
  end.

Definition of_value (element : value) : DetailFact :=
  {| detail_type := match vget "type" element ≫= as_str with
                    | Some t => t | None => EmptyString end;
     d_actions := strings element "actions";
     d_locations := strings element "locations" |}.
End DetailFact.

Record ActiveGrant : Type := {
  ag_client : ClientId;
  ag_scopes : list string;
  ag_resources : list string;
  ag_details : list DetailFact
}.

Module ActiveGrant.
Definition of_grant {Task} (g : Grant Task) (now : Z) : option ActiveGrant :=
  if decide (Grant.status g now = Active) then
    Some {| ag_client := g_client g; ag_scopes := g_scopes g;
            ag_resources := g_resources g;
            ag_details := map DetailFact.of_value (g_authorization_details g) |}
  else None.
End ActiveGrant.

(** ** Trusted facts *)

Inductive FactName : Type :=
| Assurance | AuthenticationAge | ApplicationSensitivity | NetworkZone
| DeviceCompliance | Groups | Roles | Grants.

#[export] Instance fact_name_eq_dec : EqDecision FactName.
Proof. solve_decision. Defined.

Definition fact_index (n : FactName) : nat :=
  match n with
  | Assurance => 0 | AuthenticationAge => 1 | ApplicationSensitivity => 2
  | NetworkZone => 3 | DeviceCompliance => 4 | Groups => 5 | Roles => 6 | Grants => 7
  end.

#[export] Instance fact_name_ord : Ord FactName :=
  ord_via fact_index
    ltac:(intros [] []; cbn; intros; first [reflexivity | discriminate]).

Inductive Availability : Type := Known | Absent | Stale | Unavailable | Invalid.

#[export] Instance availability_eq_dec : EqDecision Availability.
Proof. solve_decision. Defined.

Inductive FactValue : Type :=
| FText (s : string)
| FNames (names : list string)           (** a [BTreeSet] *)
| FAuthenticationTime (at_ : Z)
| FResolved.

Record Fact : Type := {
  availability : Availability;
  fact_value : option FactValue;
  source : string;
  observed_at : option Z;
  expires_at : option Z
}.

Module Fact.
Definition missing (a : Availability) (src : string) : Fact :=
  {| availability := a; fact_value := None; source := src;
     observed_at := None; expires_at := None |}.

Definition known (v : FactValue) (src : string) (observed expires : Z) : Fact :=
  {| availability := Known; fact_value := Some v; source := src;
     observed_at := Some observed; expires_at := Some expires |}.

Definition at_ (f : Fact) (now : Z) : Availability :=
  match availability f with
  | Known =>
      match observed_at f, expires_at f, fact_value f with
      | Some observed, Some expires, Some _ =>
          if (observed <=? now)%Z && (now <? expires)%Z then Known
          else if (observed <=? now)%Z && (expires <=? now)%Z then Stale
          else Invalid
      | _, _, _ => Invalid
      end
  | a => a
  end.
End Fact.

Record TrustedAccessContext : Type := {
  t_tenant : TenantId;
  t_subject : option string;
  t_client : ClientId;
  t_action : string;
  evaluated_at : Z;
  policy_revision : string;
  acr_revision : string;
  client_revision : string;
  facts : list (FactName * Fact)          (** a [BTreeMap] *)
}.

Module TrustedAccessContext.
Definition value_valid (evaluated : Z) (name : FactName) (v : option FactValue) : bool :=
  match name, v with
  | Assurance, Some (FText s) => negb (is_empty s) && (slen s <=? 256)%Z
  | AuthenticationAge, Some (FAuthenticationTime t) => (t <=? evaluated)%Z
  | ApplicationSensitivity, Some (FText s) =>
      in_strings s ["standard"; "sensitive"; "critical"]
  | DeviceCompliance, Some (FText s) =>
      in_strings s ["compliant"; "non_compliant"; "unknown"]
  | NetworkZone, Some (FNames names) =>
      (Z.of_nat (length names) <=? 64)%Z
      && forallb (fun s => negb (is_empty s) && (slen s <=? 128)%Z) names
  | (Groups | Roles | Grants), Some FResolved => true
  | _, _ => false
  end%string.

Definition availability (t : TrustedAccessContext) (name : FactName) : Availability :=
  match bget name (facts t) with
  | None => Absent
  | Some fact =>
      match Fact.at_ fact (evaluated_at t) with
      | Known =>
          if value_valid (evaluated_at t) name (fact_value fact)
             && negb (is_empty (source fact)) && (slen (source fact) <=? 128)%Z
          then Known else Invalid
      | a => a
      end
  end.

Definition value (t : TrustedAccessContext) (name : FactName) : option FactValue :=
  match availability t name with
  | Known => bget name (facts t) ≫= fact_value
  | _ => None
  end.
End TrustedAccessContext.

(** ** The four parts of a request *)

Record Subject : Type := {
  sub_kind : string;
  sub_id : string;
  sub_properties : Properties;
  sub_groups : list string;                (** a [BTreeSet] *)
  sub_roles : HeldRoles;
  sub_grants : list ActiveGrant
}.

Module Subject.
Definition new (kind id : string) (properties : Properties) : result Subject RequestError :=
  let? kind := identifier "subject.type" kind in
  let? id := identifier "subject.id" id in
  Ok {| sub_kind := kind; sub_id := id; sub_properties := properties;
        sub_groups := []; sub_roles := HeldRoles.empty; sub_grants := [] |}.

Definition with_groups (s : Subject) (groups : list string) : Subject :=
  {| sub_kind := sub_kind s; sub_id := sub_id s; sub_properties := sub_properties s;
     sub_groups := bset_of_list groups; sub_roles := sub_roles s;
     sub_grants := sub_grants s |}.

Definition with_roles (s : Subject) (roles : HeldRoles) : Subject :=
  {| sub_kind := sub_kind s; sub_id := sub_id s; sub_properties := sub_properties s;
     sub_groups := sub_groups s; sub_roles := roles; sub_grants := sub_grants s |}.

Definition with_grants (s : Subject) (grants : list ActiveGrant) : result Subject RequestError :=
  if (MAX_GRANTS <? Z.of_nat (length grants))%Z then Err TooManyGrants
  else Ok {| sub_kind := sub_kind s; sub_id := sub_id s;
             sub_properties := sub_properties s; sub_groups := sub_groups s;
             sub_roles := sub_roles s; sub_grants := grants |}.

Definition holds_role (s : Subject) (owner : option RoleOwner) (name : RoleName) : bool :=
  match owner with
  | Some Tenant => bset_mem name (tenant (sub_roles s))
  | Some (Client client) =>
      is_some_and (bset_mem name) (bget client (clients (sub_roles s)))
  | None =>
      bset_mem name (tenant (sub_roles s))
      || existsb (bset_mem name) (bvalues (clients (sub_roles s)))
  end.
End Subject.

Record Action : Type := { act_name : string; act_properties : Properties }.
Module Action.
Definition new (name : string) (properties : Properties) : result Action RequestError :=
  let? name := identifier "action.name" name in
  Ok {| act_name := name; act_properties := properties |}.
End Action.

Record Resource : Type := {
  res_kind : string; res_id : string; res_properties : Properties
}.
Module Resource.
Definition new (kind id : string) (properties : Properties) : result Resource RequestError :=
  let? kind := identifier "resource.type" kind in
  let? id := identifier "resource.id" id in
  Ok {| res_kind := kind; res_id := id; res_properties := properties |}.
End Resource.

Record Context : Type := {
  trusted : option TrustedAccessContext;
  acr : option string;
  ladder : list string;
  ctx_properties : Properties
}.

(** [Iterator::position]. *)
Fixpoint position (v : string) (l : list string) : option nat :=
  match l with
  | [] => None
  | x :: r => if String.eqb x v then Some 0%nat else S <$> position v r
  end.

Module Context.
Definition new (properties : Properties) : Context :=
  {| trusted := None; acr := None; ladder := []; ctx_properties := properties |}.

Definition with_trusted (c : Context) (t : TrustedAccessContext) : Context :=
  {| trusted := Some t; acr := acr c; ladder := ladder c;
     ctx_properties := ctx_properties c |}.

Definition with_acr (c : Context) (a : option string) (l : list string) : Context :=
  {| trusted := trusted c; acr := a; ladder := l; ctx_properties := ctx_properties c |}.

(** The snapshot's assurance must be the [acr] the context carries. *)
Definition assurance_agrees (c : Context) (t : TrustedAccessContext) : bool :=
  match TrustedAccessContext.value t Assurance, acr c with
  | Some (FText v), Some a => String.eqb v a
  | _, _ => false
  end.

Definition acr_at_least (c : Context) (required : string) : bool :=
  if is_some_and (fun t => negb (assurance_agrees c t)) (trusted c) then false
  else match acr c ≫= (fun a => position a (ladder c)), position required (ladder c) with
  | Some held, Some wanted => (wanted <=? held)%nat
  | _, _ => false
  end.
End Context.

Record EvaluationRequest : Type := {
  subject : Subject;
  action : Action;
  resource : Resource;
  context : Context
}.

(** ** Theorems *)

(** The reference measures of a JSON value: how many nodes it holds and how deep
    it nests, an empty container nesting one level. *)
Fixpoint node_count (v : value) : nat :=
  match v with
  | VArray items => S (fold_right (fun x n => node_count x + n)%nat 0%nat items)
  | VObject members => S (fold_right (fun kx n => node_count (snd kx) + n)%nat 0%nat members)
  | _ => 1%nat
  end.
Fixpoint nesting (v : value) : nat :=
  match v with
  | VArray items => S (fold_right (fun x n => Nat.max (nesting x) n) 1%nat items)
  | VObject members => S (fold_right (fun kx n => Nat.max (nesting (snd kx)) n) 1%nat members)
  | _ => 1%nat
  end.

Lemma node_count_pos v : (0 < node_count v)%nat.
Proof. destruct v; cbn; lia. Qed.


Definition measured (v : value) : Prop :=
  forall d n n', (d <= MAX_PROPERTY_DEPTH)%nat ->
    measure v d n = Ok n' <->
    n' = (n + node_count v)%nat /\ (n' <= MAX_PROPERTY_NODES)%nat /\
    (d + nesting v <= S MAX_PROPERTY_DEPTH)%nat.

Lemma measure_list (l : list value) d n n' :
  Forall measured l ->
  (n <= MAX_PROPERTY_NODES)%nat -> (S d <= MAX_PROPERTY_DEPTH)%nat ->
  try_fold (fun x => measure x (S d)) l n = Ok n' <->
  n' = (n + fold_right (fun x n => node_count x + n) 0 l)%nat /\
  (n' <= MAX_PROPERTY_NODES)%nat /\
  (d + S (fold_right (fun x n => Nat.max (nesting x) n) 1 l) <= S MAX_PROPERTY_DEPTH)%nat.
Proof.
  intros Hall. revert n. induction Hall as [|x r Hx Hr IH]; intros n Hn Hd.
  - cbn [fold_right try_fold]. split; [intros [= <-]; lia|intros (-> & _ & _); f_equal; lia].
  - cbn [fold_right try_fold]. rewrite rbind_Ok. split.
    + intros (n1 & (-> & Hb & Hdep)%Hx & (-> & ? & ?)%IH); lia.
    + intros (-> & Hb & Hdep). exists (n + node_count x)%nat. split.
      * apply Hx; lia.
      * apply IH; lia.
Qed.

Lemma measure_members (m : list (string * value)) d n :
  try_fold (fun '(_, x) => measure x (S d)) m n =
  try_fold (fun x => measure x (S d)) (bvalues m) n.
Proof.
  revert n. induction m as [|[k x] r IH]; intros n; [done|].
  cbn [bvalues map snd try_fold]. destruct (measure x (S d) n); cbn [rbind]; [apply IH|done].
Qed.

Lemma fold_right_values {A} (f : value -> A -> A) (m : list (string * value)) a :
  fold_right (fun kx n => f (snd kx) n) a m = fold_right f a (bvalues m).
Proof. induction m as [|[k x] r IH]; cbn; [done|]. by rewrite IH. Qed.

Lemma foldr_max_ge {A} (f : A -> nat) l :
  (1 <= fold_right (fun x n => Nat.max (f x) n) 1 l)%nat.
Proof. induction l; cbn; lia. Qed.

Lemma measure_measured v : measured v.
Proof.
  induction v as [|b|x|s|l IH|m IH] using value_ind'; intros d n n' Hd;
    cbn [measure node_count nesting];
    destruct (Nat.ltb_spec MAX_PROPERTY_NODES (S n));
    try (split; [intros [= <-]|intros (-> & ? & ?); try f_equal]; lia);
    try (split; [done|intros (-> & ? & ?); lia]);
    destruct (Nat.leb_spec MAX_PROPERTY_DEPTH d);
    try (split; [done|intros (_ & _ & Hn)];
         match type of Hn with context [fold_right (fun x n => Nat.max (@?f x) n) _ ?l] =>
           pose proof (foldr_max_ge f l) end; cbv beta in *; lia).
  - rewrite measure_list by (done || lia). split; intros (-> & ? & ?); split_and!; lia.
  - rewrite measure_members, measure_list by (done || lia).
    rewrite (fold_right_values (fun x n => node_count x + n)%nat).
    rewrite (fold_right_values (fun x n => Nat.max (nesting x) n)).
    split; intros (-> & ? & ?); split_and!; lia.
Qed.

(** The walk that bounds a property is exact: it accepts precisely the values of
    at most 256 nodes nested at most eight deep, and counts their nodes. *)
Theorem measure_exact v n :
  measure v 1%nat 0%nat = Ok n <->
  n = node_count v /\ (node_count v <= MAX_PROPERTY_NODES)%nat /\
  (nesting v <= MAX_PROPERTY_DEPTH)%nat.
Proof.
  rewrite (measure_measured v 1%nat 0%nat n) by (unfold MAX_PROPERTY_DEPTH; lia).
  cbn [Nat.add]. split; [intros (-> & ? & ?)|intros (-> & ? & ?)]; split_and!; lia.
Qed.
