(* ===== verification/PolicyDocument.v ===== *)
(** * The rule language

    [crates/domain/src/policy/document.rs] and the predicates and scopes of
    [crates/domain/src/policy/conditional.rs]: a tenant's policy as data, the
    parser that bounds it and the document it is stored as. *)

From S2P Require Import Prelude BTree Json Roles PolicyRequest.

Definition VERSION : Z := 1.
Definition MAX_RULES : Z := 128.
Definition MAX_CONDITIONS : nat := 64.
Definition MAX_DEPTH : nat := 8.
Definition MAX_VALUES : Z := 64.
Definition MAX_ACTIONS : Z := 32.
Definition MAX_ACR_HINTS : Z := 8.
Definition MAX_STRING : Z := 256.
Definition MAX_REASON : Z := 512.
Definition MAX_DOCUMENT_BYTES : Z := 64 * 1024.

Inductive PolicyDocumentError : Type :=
| TooLarge
| NotJson (e : string)
| Malformed (why : string)
| Version (v : Z)
| TooManyRules
| DuplicateRule (id : string)
| EValue (path reason : string)
| EEffect (path : string)
| ECondition (path reason : string)
| TooDeep (path : string)
| TooManyConditions (path : string).

Abbreviation PolicyRuleId := string (only parsing).

Module PolicyRuleId.
Definition parse (path raw : string) : result PolicyRuleId PolicyDocumentError :=
  if is_empty raw || (MAX_STRING <? slen raw)%Z then
    Err (EValue path "a rule id is empty or over-long")
  else if existsb (fun c => is_control c || is_whitespace c) (chars raw) then
    Err (EValue path "a rule id carries whitespace or a control character")
  else Ok raw.
End PolicyRuleId.

Inductive Effect : Type := Permit | Deny.
#[export] Instance effect_eq_dec : EqDecision Effect.
Proof. solve_decision. Defined.

Module Effect.
Definition as_str (e : Effect) : string :=
  match e with Permit => "permit" | Deny => "deny" end.
End Effect.

Inductive Source : Type := SSubject | SResource | SAction | SContext.

Module Source.
Definition as_str (s : Source) : string :=
  match s with
  | SSubject => "subject" | SResource => "resource"
  | SAction => "action" | SContext => "context"
  end.
Definition parse (raw : string) : option Source :=
  if String.eqb raw "subject" then Some SSubject
  else if String.eqb raw "resource" then Some SResource
  else if String.eqb raw "action" then Some SAction
  else if String.eqb raw "context" then Some SContext
  else None.
End Source.

Inductive AttributeTest : Type :=
| Equals (v : value)
| In_ (vs : list value).

Inductive GrantResource : Type :=
| Literal (raw : string)
| TheResource.

Record GrantMatch : Type := {
  gm_resource : option GrantResource;
  gm_scope : option string;
  gm_detail_type : option string;
  gm_action : option string;
  gm_client : option ClientId
}.

(** ** Predicates over the trusted snapshot *)

Inductive TrustedPredicate : Type :=
| PSensitivity (s : string)
| PNetworkZone (zone : string)
| PAuthenticationAgeAtMost (secs : Z)
| PDeviceCompliance (s : string).

Module TrustedPredicate.
Definition invalid : PolicyDocumentError := Malformed "invalid trusted conditional predicate".

(** [byte.is_ascii_alphanumeric() || matches!(byte, b'-' | b'_' | b'.')]. *)
Definition zone_byte (b : Z) : bool :=
  is_ascii_alphanumeric b || (b =? 45)%Z || (b =? 95)%Z || (b =? 46)%Z.

Definition parse (name : string) (v : value)
    : result (option TrustedPredicate) PolicyDocumentError :=
  if String.eqb name "application_sensitivity" then
    match as_str v with
    | Some s => if in_strings s ["standard"; "sensitive"; "critical"]
                then Ok (Some (PSensitivity s)) else Err invalid
    | None => Err invalid
    end
  else if String.eqb name "network_zone" then
    match as_str v with
    | Some s =>
        if negb (is_empty s) && (slen s <=? 128)%Z && all_bytes zone_byte s
        then Ok (Some (PNetworkZone s)) else Err invalid
    | None => Err invalid
    end
  else if String.eqb name "authentication_age_at_most" then
    match as_u64 v with
    | Some n => if in_range 60 86400 n
                then Ok (Some (PAuthenticationAgeAtMost n)) else Err invalid
    | None => Err invalid
    end
  else if String.eqb name "device_compliance" then
    match as_str v with
    | Some s => if in_strings s ["compliant"; "non_compliant"; "unknown"]
                then Ok (Some (PDeviceCompliance s)) else Err invalid
    | None => Err invalid
    end
  else Ok None.

Definition fact (p : TrustedPredicate) : FactName :=
  match p with
  | PSensitivity _ => ApplicationSensitivity
  | PNetworkZone _ => NetworkZone
  | PAuthenticationAgeAtMost _ => AuthenticationAge
  | PDeviceCompliance _ => DeviceCompliance
  end.

Definition holds (p : TrustedPredicate) (t : TrustedAccessContext) : bool :=
  match p, TrustedAccessContext.value t (fact p) with
  | (PSensitivity expected | PDeviceCompliance expected), Some (FText actual) =>
      String.eqb expected actual
  | PNetworkZone expected, Some (FNames names) => bset_mem expected names
  | PAuthenticationAgeAtMost limit, Some (FAuthenticationTime authenticated) =>
      let age := (evaluated_at t - authenticated)%Z in
      (0 <=? age)%Z && (age <=? seconds limit)%Z
  | _, _ => false
  end.

Definition to_json (p : TrustedPredicate) : value :=
  match p with
  | PSensitivity s => jobj [("application_sensitivity", VString s)]
  | PNetworkZone s => jobj [("network_zone", VString s)]
  | PAuthenticationAgeAtMost n => jobj [("authentication_age_at_most", VNumber (PosInt n))]
  | PDeviceCompliance s => jobj [("device_compliance", VString s)]
  end%string.
End TrustedPredicate.

(** ** Conditions, rules and rule sets *)

Inductive Condition : Type :=
| All (children : list Condition)
| Any (children : list Condition)
| Not (child : Condition)
| Attribute (src : Source) (name : string) (test : AttributeTest)
| Group (name : string)
| Role (owner : option RoleOwner) (name : RoleName)
| GrantCond (m : GrantMatch)
| AcrAtLeast (required : string)
| Trusted (p : TrustedPredicate).

Section ConditionInd.
Variable P : Condition -> Prop.
Hypothesis Hall : forall l, Forall P l -> P (All l).
Hypothesis Hany : forall l, Forall P l -> P (Any l).
Hypothesis Hnot : forall c, P c -> P (Not c).
Hypothesis Hattr : forall s n t, P (Attribute s n t).
Hypothesis Hgroup : forall n, P (Group n).
Hypothesis Hrole : forall o n, P (Role o n).
Hypothesis Hgrant : forall m, P (GrantCond m).
Hypothesis Hacr : forall r, P (AcrAtLeast r).
Hypothesis Htrusted : forall p, P (Trusted p).

Fixpoint Condition_ind' (c : Condition) : P c :=
  let go := fix go (l : list Condition) : Forall P l :=
    match l with
    | [] => Forall_nil_2 P
    | x :: r => Forall_cons_2 P x r (Condition_ind' x) (go r)
    end in
  match c with
  | All l => Hall l (go l)
  | Any l => Hany l (go l)
  | Not c => Hnot c (Condition_ind' c)
  | Attribute s n t => Hattr s n t
  | Group n => Hgroup n
  | Role o n => Hrole o n
  | GrantCond m => Hgrant m
  | AcrAtLeast r => Hacr r
  | Trusted p => Htrusted p
  end.
End ConditionInd.

Record Rule : Type := {
  rule_id : PolicyRuleId;
  effect : Effect;
  subject_type : option string;
  resource_type : option string;
  actions : list string;                   (** a [BTreeSet] *)
  when_ : option Condition;
  reason_admin : option string;
  reason_user : option string;
  acr_values : list string
}.

Inductive EnforcementMode : Type := EnfActive | EnfReportOnly.

(** A policy holds scopes and a scope holds a policy: the two types are mutual.
    [IpNet] is the [ipnet] crate's network type. *)
Inductive RuleSet {IpNet : Type} : Type :=
| mkRuleSet (rs : list Rule) (scopes : list (ConditionalScope (IpNet := IpNet)))
with ConditionalScope {IpNet : Type} : Type :=
| mkScope (mode : EnforcementMode) (id : string) (clients : list ClientId)
    (acts : list string) (required_facts : list FactName)
    (rs : RuleSet (IpNet := IpNet)) (assurance_remedy : option string)
    (network_zones : list (string * list IpNet)).
Arguments RuleSet : clear implicits.
Arguments ConditionalScope : clear implicits.

(** ** The condition parser *)

Definition bounded_string (v : value) (path : string) : result string PolicyDocumentError :=
  let? raw := ok_or (as_str v) (EValue path "it is not a string") in
  if is_empty raw || (MAX_STRING <? slen raw)%Z then
    Err (EValue path "it is empty or longer than the bound")
  else if has_control raw then Err (EValue path "it carries a control character")
  else Ok raw.

Definition bounded_literal (v : value) (path : string) : result () PolicyDocumentError :=
  match v with
  | VString raw =>
      if (MAX_STRING <? slen raw)%Z then Err (EValue path "a literal is over-long")
      else if has_control raw then
        Err (EValue path "a literal carries a control character")
      else Ok ()
  | VBool _ | VNumber _ | VNull => Ok ()
  | VArray _ | VObject _ =>
      Err (EValue path "a literal must be a string, a number, a boolean or null")
  end.

Definition parse_attribute (body : value) (path : string)
    : result Condition PolicyDocumentError :=
  let? object := ok_or (as_object body) (ECondition path "attribute takes an object") in
  let? src := ok_or ((bget "of" object ≫= as_str) ≫= Source.parse)
      (ECondition path "of must be subject, resource, action or context") in
  let? name := ok_or (bget "name" object) (ECondition path "attribute names no name") in
  let? name := bounded_string name (path +:+ ".name") in
  let? test :=
    match bget "equals" object, bget "in" object with
    | Some expected, None =>
        let? _ := bounded_literal expected (path +:+ ".equals") in
        Ok (Equals expected)
    | None, Some values =>
        let? items := ok_or (as_array values) (ECondition path "in takes an array of values") in
        if (MAX_VALUES <? Z.of_nat (length items))%Z then
          Err (ECondition path "in lists more values than the bound allows")
        else
          let? _ := try_mapi (fun index item =>
              bounded_literal item (path +:+ ".in[" +:+ pretty index +:+ "]")) 0%nat items in
          Ok (In_ items)
    | _, _ => Err (ECondition path "attribute takes exactly one of equals and in")
    end in
  Ok (Attribute src name test).

Definition parse_role (body : value) (path : string) : result Condition PolicyDocumentError :=
  let? object := ok_or (as_object body) (ECondition path "role takes an object") in
  let? raw := ok_or (bget "name" object) (ECondition path "role names no name") in
  let? raw := bounded_string raw (path +:+ ".name") in
  let? name := map_err (fun _ => EValue (path +:+ ".name") "it is not an application role name")
                 (RoleName.parse raw) in
  let? owner :=
    match bget "owner" object with
    | None | Some VNull => Ok None
    | Some v =>
        if is_some_and (fun raw => String.eqb raw "tenant") (as_str v)
        then Ok (Some Tenant) else
        let? client := bounded_string v (path +:+ ".owner") in
        Ok (Some (Client client))
    end in
  Ok (Role owner name).

Definition grant_members : list string :=
  ["resource"; "scope"; "detail_type"; "action"; "client"].

Definition grant_member (object : object) (path name : string)
    : result (option string) PolicyDocumentError :=
  match bget name object with
  | None | Some VNull => Ok None
  | Some v => let? s := bounded_string v (path +:+ "." +:+ name) in Ok (Some s)
  end.

Definition grant_resource (raw : string) : GrantResource :=
  if String.eqb raw "$resource.id" then TheResource else Literal raw.

Definition parse_grant (body : value) (path : string) : result Condition PolicyDocumentError :=
  let? object := ok_or (as_object body) (ECondition path "grant takes an object") in
  guard? negb (HeldRoles.is_nil object)
    else ECondition path "grant names nothing to match" in
  guard? forallb (fun k => in_strings k grant_members) (bkeys object)
    else ECondition path "grant takes resource, scope, detail_type, action and client" in
  let? resource := grant_member object path "resource" in
  let? scope := grant_member object path "scope" in
  let? dtype := grant_member object path "detail_type" in
  let? action := grant_member object path "action" in
  let? client := grant_member object path "client" in
  Ok (GrantCond {| gm_resource := grant_resource <$> resource;
                   gm_scope := scope; gm_detail_type := dtype;
                   gm_action := action; gm_client := client |}).

(** The parser descends at most [MAX_DEPTH] levels and spends one unit of
    [budget] per node; what is left of the budget is returned. *)
Fixpoint parse_condition (v : value) (path : string) (depth budget : nat)
    : result (Condition * nat) PolicyDocumentError :=
  if (MAX_DEPTH <? depth)%nat then Err (TooDeep path)
  else match budget with
  | O => Err (TooManyConditions path)
  | S budget =>
    match v with
    | VObject [(name, body)] =>
        if in_strings name ["all"; "any"] then
          match body with
          | VArray items =>
              let? (children, budget) := try_mapi_st (fun index item budget =>
                  parse_condition item
                    (path +:+ "." +:+ name +:+ "[" +:+ pretty index +:+ "]")
                    (S depth) budget) 0%nat items budget in
              Ok (if String.eqb name "all" then All children else Any children, budget)
          | _ => Err (ECondition path "all and any take an array of conditions")
          end
        else if String.eqb name "not" then
          let? (child, budget) :=
            parse_condition body (path +:+ ".not") (S depth) budget in
          Ok (Not child, budget)
        else if String.eqb name "attribute" then
          let? c := parse_attribute body (path +:+ ".attribute") in Ok (c, budget)
        else if String.eqb name "group" then
          let? s := bounded_string body (path +:+ ".group") in Ok (Group s, budget)
        else if String.eqb name "role" then
          let? c := parse_role body (path +:+ ".role") in Ok (c, budget)
        else if String.eqb name "grant" then
          let? c := parse_grant body (path +:+ ".grant") in Ok (c, budget)
        else if String.eqb name "acr_at_least" then
          let? s := bounded_string body (path +:+ ".acr_at_least") in
          Ok (AcrAtLeast s, budget)
        else
          let? p := TrustedPredicate.parse name body in
          let? p := ok_or p (ECondition path "no condition of that name exists") in
          Ok (Trusted p, budget)
    | VObject _ => Err (ECondition path "a condition object names exactly one condition")
    | _ => Err (ECondition path "a condition is not an object")
    end
  end.

(** ** The rule parser *)

Definition optional_string (object : object) (member path : string)
    : result (option string) PolicyDocumentError :=
  match bget member object with
  | None | Some VNull => Ok None
  | Some v => let? s := bounded_string v (path +:+ "." +:+ member) in Ok (Some s)
  end.

Definition optional_reason (object : object) (member path : string)
    : result (option string) PolicyDocumentError :=
  match bget member object with
  | None | Some VNull => Ok None
  | Some (VString raw) =>
      if is_empty raw || (MAX_REASON <? slen raw)%Z then
        Err (EValue (path +:+ "." +:+ member) "a reason is empty or longer than the bound")
      else if has_control raw then
        Err (EValue (path +:+ "." +:+ member) "a reason carries a control character")
      else Ok (Some raw)
  | Some _ => Err (EValue (path +:+ "." +:+ member) "a reason is not a string")
  end.

Definition parse_rule (index : nat) (entry : value) : result Rule PolicyDocumentError :=
  let path := "rules[" +:+ pretty index +:+ "]" in
  let? object := ok_or (as_object entry) (EValue path "a rule is not an object") in
  let? id := match bget "id" object with
             | Some (VString raw) => PolicyRuleId.parse (path +:+ ".id") raw
             | _ => Err (EValue path "a rule carries no string id")
             end in
  let? effect := match bget "effect" object ≫= as_str with
                 | Some raw =>
                     if String.eqb raw "permit" then Ok Permit
                     else if String.eqb raw "deny" then Ok Deny
                     else Err (EEffect path)
                 | None => Err (EEffect path)
                 end in
  let? subject_type := optional_string object "subject_type" path in
  let? resource_type := optional_string object "resource_type" path in
  let? actions := match bget "actions" object with
    | None | Some VNull => Ok []
    | Some (VArray items) =>
        if (MAX_ACTIONS <? Z.of_nat (length items))%Z then
          Err (EValue (path +:+ ".actions") "more action names than a rule may name")
        else
          let? names := try_mapi (fun position item =>
            bounded_string item (path +:+ ".actions[" +:+ pretty position +:+ "]")) 0%nat items in
          Ok (bset_of_list names)
    | Some _ => Err (EValue (path +:+ ".actions") "actions is not an array")
    end in
  let? when_ := match bget "when" object with
    | None | Some VNull => Ok None
    | Some v =>
        let? (c, _) := parse_condition v (path +:+ ".when") 1%nat MAX_CONDITIONS in
        Ok (Some c)
    end in
  let? reason_admin := optional_reason object "reason_admin" path in
  let? reason_user := optional_reason object "reason_user" path in
  let? acr_values := match bget "acr_values" object with
    | None | Some VNull => Ok []
    | Some (VArray items) =>
        if (MAX_ACR_HINTS <? Z.of_nat (length items))%Z then
          Err (EValue (path +:+ ".acr_values") "more step-up hints than a rule may carry")
        else try_mapi (fun position item =>
            bounded_string item (path +:+ ".acr_values[" +:+ pretty position +:+ "]")) 0%nat items
    | Some _ => Err (EValue (path +:+ ".acr_values") "acr_values is not an array")
    end in
  Ok {| rule_id := id; effect := effect; subject_type := subject_type;
        resource_type := resource_type; actions := actions; when_ := when_;
        reason_admin := reason_admin; reason_user := reason_user;
        acr_values := acr_values |}.

(** ** The stored form *)

Definition strings_json (l : list string) : value := VArray (map VString l).

Definition resource_to_json (r : GrantResource) : value :=
  match r with TheResource => VString "$resource.id" | Literal raw => VString raw end.

Definition grant_to_json (m : GrantMatch) : value :=
  jfields [("resource", resource_to_json <$> gm_resource m);
           ("scope", VString <$> gm_scope m);
           ("detail_type", VString <$> gm_detail_type m);
           ("action", VString <$> gm_action m);
           ("client", VString <$> gm_client m)].

Definition owner_to_json (o : RoleOwner) : value :=
  match o with Tenant => VString "tenant" | Client client => VString client end.

Definition attribute_to_json (src : Source) (name : string) (test : AttributeTest) : value :=
  jfields [("of", Some (VString (Source.as_str src))); ("name", Some (VString name));
           ("equals", match test with Equals v => Some v | _ => None end);
           ("in", match test with In_ vs => Some (VArray vs) | _ => None end)].

Fixpoint condition_to_json (c : Condition) : value :=
  match c with
  | All children => jobj [("all", VArray (map condition_to_json children))]
  | Any children => jobj [("any", VArray (map condition_to_json children))]
  | Not child => jobj [("not", condition_to_json child)]
  | Attribute src name test => jobj [("attribute", attribute_to_json src name test)]
  | Group name => jobj [("group", VString name)]
  | Role owner name =>
      jobj [("role", jfields [("name", Some (VString name));
                              ("owner", owner_to_json <$> owner)])]
  | GrantCond m => jobj [("grant", grant_to_json m)]
  | AcrAtLeast v => jobj [("acr_at_least", VString v)]
  | Trusted p => TrustedPredicate.to_json p
  end.

Definition nonempty_json (l : list string) : option value :=
  if HeldRoles.is_nil l then None else Some (strings_json l).

Definition rule_to_json (r : Rule) : value :=
  jfields [("id", Some (VString (rule_id r)));
           ("effect", Some (VString (Effect.as_str (effect r))));
           ("subject_type", VString <$> subject_type r);
           ("resource_type", VString <$> resource_type r);
           ("actions", nonempty_json (actions r));
           ("when", condition_to_json <$> when_ r);
           ("reason_admin", VString <$> reason_admin r);
           ("reason_user", VString <$> reason_user r);
           ("acr_values", nonempty_json (acr_values r))].

(** ** Rule sets and conditional scopes *)

Section RuleSets.
Context {IpNet : Type} `{!Ord IpNet}.
Abbreviation RuleSet := (RuleSet IpNet).
Abbreviation ConditionalScope := (ConditionalScope IpNet).

Definition rules (s : RuleSet) : list Rule := let 'mkRuleSet rs _ := s in rs.
Definition conditional_scopes (s : RuleSet) : list ConditionalScope :=
  let 'mkRuleSet _ scopes := s in scopes.

Definition deny_all : RuleSet := mkRuleSet [] [].
Definition ruleset_is_empty (s : RuleSet) : bool := HeldRoles.is_nil (rules s).

Definition scope_mode (s : ConditionalScope) :=
  let 'mkScope mode _ _ _ _ _ _ _ := s in mode.
Definition scope_id (s : ConditionalScope) : string :=
  let 'mkScope _ id _ _ _ _ _ _ := s in id.
Definition scope_clients (s : ConditionalScope) : list ClientId :=
  let 'mkScope _ _ clients _ _ _ _ _ := s in clients.
Definition scope_actions (s : ConditionalScope) : list string :=
  let 'mkScope _ _ _ acts _ _ _ _ := s in acts.
Definition scope_required_facts (s : ConditionalScope) : list FactName :=
  let 'mkScope _ _ _ _ required _ _ _ := s in required.
Definition scope_rules (s : ConditionalScope) : RuleSet :=
  let 'mkScope _ _ _ _ _ rs _ _ := s in rs.
Definition scope_assurance_remedy (s : ConditionalScope) : option string :=
  let 'mkScope _ _ _ _ _ _ remedy _ := s in remedy.
Definition scope_network_zones (s : ConditionalScope) : list (string * list IpNet) :=
  let 'mkScope _ _ _ _ _ _ _ zones := s in zones.

Fixpoint contains_trusted (c : Condition) : bool :=
  match c with
  | All children | Any children => existsb contains_trusted children
  | Not child => contains_trusted child
  | Trusted _ => true
  | _ => false
  end.

(** [Iterator::filter_map(|rule| rule.when.as_ref())]. *)
Definition whens (rs : list Rule) : list Condition := omap when_ rs.

(** The serializer and parser of [serde_json], and the [Deserialize] derived for
    the wire form of a scope. *)
Variable encoded_len : value -> option Z.
Variable json_from_str : string -> result value string.

Record Wire : Type := {
  w_mode : EnforcementMode;
  w_id : string;
  w_clients : list string;
  w_actions : list string;
  w_required_facts : list FactName;
  w_rules : list value;
  w_assurance_remedy : option string;
  w_network_zones : list (string * list IpNet)
}.
Variable wire_of_value : value -> option Wire.

(** One rule of the document's array: it must parse, and its id be new. *)
Definition add_rule (index : nat) (entry : value) (seen : list string)
    : result (Rule * list string) PolicyDocumentError :=
  let? rule := parse_rule index entry in
  guard? negb (bset_mem (rule_id rule) seen) else DuplicateRule (rule_id rule) in
  Ok (rule, bset_insert (rule_id rule) seen).

Definition scopes_overlap (other scope : ConditionalScope) : bool :=
  String.eqb (scope_id other) (scope_id scope)
  || (negb (bset_disjoint (scope_clients other) (scope_clients scope))
      && negb (bset_disjoint (scope_actions other) (scope_actions scope))).

Definition add_scope (parse_scope : value -> result ConditionalScope PolicyDocumentError)
    (v : value) (scopes : list ConditionalScope)
    : result (list ConditionalScope) PolicyDocumentError :=
  let? scope := parse_scope v in
  guard? negb (existsb (fun other => scopes_overlap other scope) scopes)
    else Malformed "conditional scopes overlap or repeat identities" in
  Ok (scopes ++ [scope]).

Definition check_version (object : object) : result () PolicyDocumentError :=
  match bget "version" object with
  | Some (VNumber number) =>
      let? version := ok_or (as_u64 (VNumber number))
                        (Malformed "version is not an integer") in
      guard? (version =? VERSION)%Z else Version version in
      Ok ()
  | Some _ => Err (Malformed "version is not a number")
  | None => Err (Malformed "it declares no version")
  end.

Definition total_rules (rs : list Rule) (scopes : list ConditionalScope) : nat :=
  length rs + list_sum (map (fun s => length (rules (scope_rules s))) scopes).

(** [RuleSet::from_json_inner]. The scope parser it calls calls it back only for
    a document without scopes, so it is an argument here and the knot is tied
    below. *)
Definition from_json_with
    (parse_scope : value -> result ConditionalScope PolicyDocumentError)
    (document : value) (conditional : bool) : result RuleSet PolicyDocumentError :=
  let? size := ok_or (encoded_len document) (Malformed "unencodable document") in
  guard? (size <=? MAX_DOCUMENT_BYTES)%Z else TooLarge in
  let? object := ok_or (as_object document) (Malformed "it is not an object") in
  let? _ := check_version object in
  let? entries := ok_or (bget "rules" object ≫= as_array)
                    (Malformed "rules is not an array") in
  guard? (Z.of_nat (length entries) <=? MAX_RULES)%Z else TooManyRules in
  let? (rs, _) := try_mapi_st add_rule 0%nat entries [] in
  guard? (conditional || negb (existsb contains_trusted (whens rs)))
    else Malformed "trusted predicates require an explicit conditional scope" in
  let? scopes :=
    match bget "conditional_scopes" object with
    | None => Ok []
    | Some v =>
        guard? negb conditional else Malformed "nested conditional scopes are forbidden" in
        let? vs := ok_or (HeldRoles.ofilter (fun l => (Z.of_nat (length l) <=? 64)%Z)
                            (as_array v))
              (Malformed "conditional_scopes must be an array of at most 64 scopes") in
        try_fold (add_scope parse_scope) vs []
    end in
  guard? (Z.of_nat (total_rules rs scopes) <=? MAX_RULES)%Z else TooManyRules in
  Ok (mkRuleSet rs scopes).

(** A conditional scope's own rules: with [conditional] set, a document carrying
    scopes is refused before any of them is parsed. *)
Definition conditional_rules (document : value) : result RuleSet PolicyDocumentError :=
  from_json_with
    (fun _ => Err (Malformed "nested conditional scopes are forbidden")) document true.

Definition ENFORCEMENT_ACTIONS : list string :=
  ["authorize"; "authorization_code"; "refresh_token"; "device_code"; "ciba";
   "token_exchange"; "client_credentials"; "jwt_bearer"; "access_evaluation"].

(** [iter().collect::<BTreeSet<_>>().len() == len()]: no value twice. *)
Definition distinct {A} `{Ord A} (l : list A) : bool :=
  Nat.eqb (length (bset_of_list l)) (length l).

Definition bounded (values : list string) (max : Z) : bool :=
  negb (HeldRoles.is_nil values)
  && (Z.of_nat (length values) <=? max)%Z
  && forallb (fun v => negb (is_empty v) && (slen v <=? 256)%Z && negb (has_control v)) values
  && distinct values.

Definition zone_ok (z : string * list IpNet) : bool :=
  negb (is_empty (fst z)) && (slen (fst z) <=? 128)%Z
  && all_bytes TrustedPredicate.zone_byte (fst z)
  && negb (HeldRoles.is_nil (snd z)) && (Z.of_nat (length (snd z)) <=? 16)%Z
  && distinct (snd z).

(** The zones a condition names, collected with the source's explicit stack; the
    fuel is the number of nodes. *)
Fixpoint condition_nodes (c : Condition) : nat :=
  match c with
  | All children | Any children =>
      S (fold_right (fun c n => condition_nodes c + n)%nat 0%nat children)
  | Not child => S (condition_nodes child)
  | _ => 1
  end.

Fixpoint zones_defined (fuel : nat) (zones : list (string * list IpNet))
    (pending : list Condition) : bool :=
  match fuel, pending with
  | _, [] => true
  | O, _ => false
  | S fuel, condition :: pending =>
      match condition with
      | All children | Any children => zones_defined fuel zones (rev children ++ pending)
      | Not child => zones_defined fuel zones (child :: pending)
      | Trusted (PNetworkZone name) =>
          match bget name zones with
          | None => false
          | Some _ => zones_defined fuel zones pending
          end
      | _ => zones_defined fuel zones pending
      end
  end.

Definition rule_zones_defined (zones : list (string * list IpNet)) (r : Rule) : bool :=
  match when_ r with
  | None => true
  | Some c => zones_defined (condition_nodes c) zones [c]
  end.

(** [ConditionalScope::parse]. *)
Definition scope_parse (v : value) : result ConditionalScope PolicyDocumentError :=
  let? wire := ok_or (wire_of_value v) (Malformed "invalid conditional scope") in
  if is_empty (w_id wire) || (128 <? slen (w_id wire))%Z || has_control (w_id wire)
     || negb (bounded (w_clients wire) 64) || negb (bounded (w_actions wire) 32)
     || (32 <? Z.of_nat (length (w_required_facts wire)))%Z
     || negb (distinct (w_required_facts wire))
     || is_some_and (fun s => is_empty s || (256 <? slen s)%Z || has_control s)
          (w_assurance_remedy wire)
  then Err (Malformed "conditional scope exceeds bounds or repeats values")
  else if existsb (fun a => negb (in_strings a ENFORCEMENT_ACTIONS)) (w_actions wire)
  then Err (Malformed "unsupported conditional enforcement action")
  else if (64 <? Z.of_nat (length (w_network_zones wire)))%Z
          || existsb (fun z => negb (zone_ok z)) (w_network_zones wire)
  then Err (Malformed "invalid bounded network zones")
  else
    let? rs := conditional_rules
        (jobj [("version", VNumber (PosInt 1)); ("rules", VArray (w_rules wire))]%string) in
    guard? forallb (rule_zones_defined (w_network_zones wire)) (rules rs)
      else Malformed "network predicate references an undefined zone" in
    Ok (mkScope (w_mode wire) (w_id wire) (bset_of_list (w_clients wire))
          (bset_of_list (w_actions wire)) (bset_of_list (w_required_facts wire)) rs
          (w_assurance_remedy wire) (w_network_zones wire)).

Definition from_json (document : value) : result RuleSet PolicyDocumentError :=
  from_json_with scope_parse document false.

Definition parse (raw : string) : result RuleSet PolicyDocumentError :=
  if (MAX_DOCUMENT_BYTES <? slen raw)%Z then Err TooLarge
  else
    let? v := map_err NotJson (json_from_str raw) in
    from_json v.

(** The serializers derived for the scope's enums and networks. *)
Variable mode_json : EnforcementMode -> value.
Variable fact_json : FactName -> value.
Variable net_json : IpNet -> value.

Definition opt_json {A} (f : A -> value) (o : option A) : value :=
  match o with Some a => f a | None => VNull end.

Definition scope_to_json (s : ConditionalScope) : value :=
  jobj [("mode", mode_json (scope_mode s)); ("id", VString (scope_id s));
        ("clients", strings_json (scope_clients s));
        ("actions", strings_json (scope_actions s));
        ("required_facts", VArray (map fact_json (scope_required_facts s)));
        ("rules", VArray (map rule_to_json (rules (scope_rules s))));
        ("assurance_remedy", opt_json VString (scope_assurance_remedy s));
        ("network_zones",
         VObject (map (fun z => (fst z, VArray (map net_json (snd z))))
                    (scope_network_zones s)))]%string.

Definition to_json (s : RuleSet) : value :=
  jfields [("version", Some (VNumber (PosInt VERSION)));
           ("rules", Some (VArray (map rule_to_json (rules s))));
           ("conditional_scopes",
            if HeldRoles.is_nil (conditional_scopes s) then None
            else Some (VArray (map scope_to_json (conditional_scopes s))))].
End RuleSets.
