(* ===== verification/PolicyDocumentLaws.v ===== *)
(** * Laws of the rule language

    What the parser accepts is bounded and well formed, and the stored form of
    an accepted document reads back as itself. *)

From S2P Require Import Prelude BTree Json Roles PolicyRequest PolicyDocument.

(** ** Well-formed conditions *)

Definition bstr (s : string) : Prop :=
  is_empty s = false /\ (slen s <= MAX_STRING)%Z /\ has_control s = false.

Definition literal_ok (v : value) : Prop := bounded_literal v "" = Ok ().

Definition test_ok (t : AttributeTest) : Prop :=
  match t with
  | Equals v => literal_ok v
  | In_ vs => (Z.of_nat (length vs) <= MAX_VALUES)%Z /\ Forall literal_ok vs
  end.

Definition role_name_ok (n : RoleName) : Prop := bstr n /\ RoleName.parse n = Ok n.

Definition owner_ok (o : option RoleOwner) : Prop :=
  match o with Some (Client c) => bstr c /\ c <> "tenant"%string | _ => True end.

Definition opt_ok {A} (P : A -> Prop) (o : option A) : Prop :=
  match o with Some a => P a | None => True end.

Definition grant_resource_ok (r : GrantResource) : Prop :=
  match r with TheResource => True | Literal raw => bstr raw /\ raw <> "$resource.id"%string end.

Definition grant_match_ok (m : GrantMatch) : Prop :=
  opt_ok grant_resource_ok (gm_resource m) /\ opt_ok bstr (gm_scope m) /\
  opt_ok bstr (gm_detail_type m) /\ opt_ok bstr (gm_action m) /\ opt_ok bstr (gm_client m).

(** A matcher naming nothing: the document can carry one, written with [null]
    members. *)
Definition grant_match_empty (m : GrantMatch) : bool :=
  match gm_resource m, gm_scope m, gm_detail_type m, gm_action m, gm_client m with
  | None, None, None, None, None => true
  | _, _, _, _, _ => false
  end.

Definition pred_ok (p : TrustedPredicate) : Prop :=
  match p with
  | PSensitivity s => In s ["standard"; "sensitive"; "critical"]%string
  | PNetworkZone s =>
      is_empty s = false /\ (slen s <= 128)%Z /\ all_bytes TrustedPredicate.zone_byte s = true
  | PAuthenticationAgeAtMost n => (60 <= n <= 86400)%Z
  | PDeviceCompliance s => In s ["compliant"; "non_compliant"; "unknown"]%string
  end.

Fixpoint cond_wf (c : Condition) : Prop :=
  match c with
  | All l | Any l => fold_right (fun c P => cond_wf c /\ P) True l
  | Not c => cond_wf c
  | Attribute _ name t => bstr name /\ test_ok t
  | Group n => bstr n
  | Role o n => owner_ok o /\ role_name_ok n
  | GrantCond m => grant_match_ok m
  | AcrAtLeast v => bstr v
  | Trusted p => pred_ok p
  end.

(** Every [grant] condition names something to match. *)
Fixpoint grants_named (c : Condition) : bool :=
  match c with
  | All l | Any l => forallb grants_named l
  | Not c => grants_named c
  | GrantCond m => negb (grant_match_empty m)
  | _ => true
  end.

Fixpoint cond_depth (c : Condition) : nat :=
  match c with
  | All l | Any l => S (fold_right (fun c n => Nat.max (cond_depth c) n) 0 l)
  | Not c => S (cond_depth c)
  | _ => 1
  end.

Definition nodes_list (l : list Condition) : nat :=
  fold_right (fun c n => condition_nodes c + n)%nat 0%nat l.
Definition depth_list (l : list Condition) : nat :=
  fold_right (fun c n => Nat.max (cond_depth c) n) 0%nat l.

Lemma cond_wf_list l : fold_right (fun c P => cond_wf c /\ P) True l <-> Forall cond_wf l.
Proof. induction l; cbn; rewrite ?Forall_cons; [|tauto]. split; [constructor|done]. Qed.

(** ** Scalars *)

Lemma bounded_string_Ok v p s : bounded_string v p = Ok s <-> v = VString s /\ bstr s.
Proof.
  unfold bounded_string, bstr. split.
  - intros H. ok_inv. bool_hyps. subst. destruct v; try discriminate.
    injection E as ->. done.
  - intros (-> & He & Hl & Hc). cbn. rewrite He, Hc.
    by rewrite (proj2 (Z.ltb_ge _ _)).
Qed.

Lemma bounded_literal_Ok v p : bounded_literal v p = Ok () <-> literal_ok v.
Proof.
  unfold literal_ok. destruct v; cbn; try done; try (split; intros; discriminate).
  by destruct (_ <? _)%Z, (has_control s).
Qed.

Lemma try_mapi_Ok {A B E} (f : nat -> A -> result B E) (Q : A -> B -> Prop) :
  (forall i x y, f i x = Ok y <-> Q x y) ->
  forall l i ys, try_mapi f i l = Ok ys <-> Forall2 Q l ys.
Proof.
  intros Hf. induction l as [|x r IH]; intros i ys; cbn [try_mapi].
  - split; [intros [= <-]; constructor|by inversion 1].
  - rewrite rbind_Ok. split.
    + intros (y & Hy%Hf & (zs & Hz%IH & [= <-])%rbind_Ok). by constructor.
    + inversion 1 as [|? y ? zs Hy Hz]; subst. exists y. split; [by apply Hf|].
      apply rbind_Ok. exists zs. split; [by apply IH|done].
Qed.

Lemma Forall2_strings l ys :
  Forall2 (fun v s => v = VString s /\ bstr s) l ys <-> l = map VString ys /\ Forall bstr ys.
Proof.
  split.
  - induction 1 as [|? ? ? ? [-> Hb] _ [-> IH]]; [done|]. by split; [|constructor].
  - intros [-> Hf]. induction Hf; cbn; constructor; done.
Qed.

Lemma try_mapi_strings (path : nat -> string) l i ys :
  try_mapi (fun i v => bounded_string v (path i)) i l = Ok ys <->
  l = map VString ys /\ Forall bstr ys.
Proof.
  rewrite <- Forall2_strings. apply try_mapi_Ok. intros. apply bounded_string_Ok.
Qed.

Lemma try_mapi_literals (path : nat -> string) l i us :
  try_mapi (fun i v => bounded_literal v (path i)) i l = Ok us ->
  Forall literal_ok l.
Proof.
  rewrite (try_mapi_Ok _ (fun v (_ : ()) => literal_ok v)).
  - induction 1; by constructor.
  - intros ? ? []. apply bounded_literal_Ok.
Qed.

Lemma try_mapi_literals_Ok (path : nat -> string) l i :
  Forall literal_ok l ->
  exists us, try_mapi (fun i v => bounded_literal v (path i)) i l = Ok us.
Proof.
  intros Hl. exists (map (fun _ => ()) l).
  rewrite (try_mapi_Ok _ (fun v (_ : ()) => literal_ok v)).
  - induction Hl; cbn; by constructor.
  - intros ? ? []. apply bounded_literal_Ok.
Qed.

(** ** What a parsed condition satisfies *)

Lemma parse_attribute_wf body p c :
  parse_attribute body p = Ok c -> cond_wf c /\ condition_nodes c = 1%nat /\ cond_depth c = 1%nat.
Proof.
  unfold parse_attribute. intros H. ok_inv. subst c. cbn [cond_wf condition_nodes cond_depth].
  split; [|done]. split; [by apply bounded_string_Ok in E2 as [_ ?]|].
  destruct (bget "equals" a), (bget "in" a); ok_inv; subst; cbn [test_ok].
  - match goal with u : () |- _ => destruct u end. eapply (proj1 (bounded_literal_Ok _ _)); eassumption.
  - bool_hyps. split; [done|].
    by apply (try_mapi_literals (fun i => p +:+ ".in[" +:+ pretty i +:+ "]")) in E5.
Qed.

Lemma parse_role_wf body p c :
  parse_role body p = Ok c -> cond_wf c /\ condition_nodes c = 1%nat /\ cond_depth c = 1%nat.
Proof.
  unfold parse_role. intros H. ok_inv. subst c. cbn [cond_wf condition_nodes cond_depth].
  split; [|done]. apply bounded_string_Ok in E1 as [-> Hb].
  pose proof E2 as Hn. apply role_name_Ok in Hn as (-> & _). split; [|by split].
  destruct (bget "owner" a) as [v|]; [|by injection E3 as <-].
  destruct v as [| | |raw| |]; try (injection E3 as <-; exact I);
    cbn [as_str is_some_and] in E3; try (apply rbind_Ok in E3 as (? & ? & ?));
    try discriminate.
  destruct (String.eqb_spec raw "tenant") as [_|Hne]; [by injection E3 as <-|].
  apply rbind_Ok in E3 as (s & E3 & [= <-]).
  by apply bounded_string_Ok in E3 as [[= <-] ?].
Qed.

Lemma grant_member_Ok object p name o :
  grant_member object p name = Ok o -> opt_ok bstr o.
Proof.
  unfold grant_member. destruct (bget name object) as [[]|]; intros H; ok_inv; subst;
    cbn; try done; by apply bounded_string_Ok in E as [_ ?].
Qed.

Lemma parse_grant_wf body p c :
  parse_grant body p = Ok c -> cond_wf c /\ condition_nodes c = 1%nat /\ cond_depth c = 1%nat.
Proof.
  unfold parse_grant. intros H. ok_inv. subst c. cbn [cond_wf condition_nodes cond_depth].
  split; [|done]. unfold grant_match_ok. cbn.
  split_and!; try by eapply grant_member_Ok.
  apply grant_member_Ok in E0. destruct a0 as [raw|]; [|done]. cbn in *.
  unfold grant_resource. destruct (String.eqb_spec raw "$resource.id"); done.
Qed.

Lemma parse_predicate_ok name v p :
  TrustedPredicate.parse name v = Ok (Some p) -> pred_ok p.
Proof.
  unfold TrustedPredicate.parse, in_range. intros H.
  repeat match type of H with
  | (if String.eqb name ?s then _ else _) = _ => destruct (String.eqb name s)
  end; try done; (destruct v; try done);
    cbn [as_str as_u64] in H; try (destruct n; try done); ok_inv;
    injection H as <-; cbn [pred_ok]; try by apply in_strings_In.
  - bool_hyps. done.
  - bool_hyps. lia.
Qed.

Definition parse_sound (v : value) : Prop :=
  forall p d b c b', parse_condition v p d b = Ok (c, b') ->
  cond_wf c /\ (condition_nodes c + b' = b)%nat /\ (d + cond_depth c <= S MAX_DEPTH)%nat.

Lemma parse_children_sound items (path : nat -> string) d i b cs b' :
  Forall parse_sound items ->
  try_mapi_st (fun index item b => parse_condition item (path index) d b) i items b
    = Ok (cs, b') ->
  Forall cond_wf cs /\ (nodes_list cs + b' = b)%nat /\
  (cs = [] \/ d + depth_list cs <= S MAX_DEPTH)%nat.
Proof.
  intros Hall. revert i b cs. induction Hall as [|x r Hx _ IH]; intros i b cs; cbn.
  - intros [= <- <-]. split_and!; [constructor|done|by left].
  - intros H. ok_inv. destruct a as [c b1]. cbn in H. ok_inv. destruct a as [cs1 b2].
    injection H as <- <-. apply Hx in E as (Hc & Hn & Hd).
    apply IH in E0 as (Hcs & Hns & Hds). unfold nodes_list, depth_list in *.
    cbn. split_and!; [by constructor|lia|right].
    destruct Hds as [->|]; cbn; lia.
Qed.

(** What the parser accepts is well formed, has spent exactly its nodes of the
    budget and nests within the bound. *)
Lemma parse_condition_sound v : parse_sound v.
Proof.
  enough (parse_sound v /\ forall items, v = VArray items -> Forall parse_sound items) by tauto.
  induction v as [|x|x|s|l IH|m IH] using value_ind';
    (split; [|try (intros ? [=]; fail)]);
    try (intros p d b c b'; cbn [parse_condition];
         destruct (Nat.ltb_spec MAX_DEPTH d); [done|]; by destruct b).
  { intros ? [= <-]. by eapply Forall_impl; [exact IH|]; intros ? []. }
  intros p d b c b'. cbn [parse_condition].
  destruct (Nat.ltb_spec MAX_DEPTH d); [done|]. destruct b as [|b]; [done|].
  destruct m as [|[name body] [|]]; try done.
  cbn in IH. apply Forall_cons in IH as [[IHb IHi] _].
  destruct (in_strings name ["all"; "any"]).
  { destruct body as [| | | |items|]; try done. intros Hp. ok_inv. destruct a as [cs b1].
    apply (parse_children_sound _ (fun i => p +:+ "." +:+ name +:+ "[" +:+ pretty i +:+ "]"))
      in E as (Hcs & Hn & Hd); [|by apply IHi].
    apply cond_wf_list in Hcs. unfold nodes_list, depth_list in *.
    destruct (String.eqb name "all"); injection Hp as <- <-;
      cbn [cond_wf condition_nodes cond_depth]; (split_and!; [done|lia|]);
      destruct Hd as [->|]; cbn; lia. }
  repeat match goal with
  | |- (if String.eqb name ?s then _ else _) = _ -> _ => destruct (String.eqb name s)
  end; intros Hp; ok_inv.
  - destruct a as [child b1]. injection Hp as <- <-. apply IHb in E as (? & ? & ?).
    cbn. split_and!; [done|lia|lia].
  - injection Hp as <- <-. apply parse_attribute_wf in E as (? & -> & ->). split_and!; [done|lia|lia].
  - injection Hp as <- <-. apply bounded_string_Ok in E as [_ ?]. cbn. split_and!; [done|lia|lia].
  - injection Hp as <- <-. apply parse_role_wf in E as (? & -> & ->). split_and!; [done|lia|lia].
  - injection Hp as <- <-. apply parse_grant_wf in E as (? & -> & ->). split_and!; [done|lia|lia].
  - injection Hp as <- <-. apply bounded_string_Ok in E as [_ ?]. cbn. split_and!; [done|lia|lia].
  - injection Hp as <- <-. subst. apply parse_predicate_ok in E. cbn. split_and!; [done|lia|lia].
Qed.

(** ** The stored form reads back *)

#[local] Arguments bounded_string : simpl never.

Lemma bounded_string_bstr s p : bstr s -> bounded_string (VString s) p = Ok s.
Proof. intros Hs. by apply bounded_string_Ok. Qed.

Lemma parse_attribute_to_json src name t p :
  bstr name -> test_ok t ->
  parse_attribute (attribute_to_json src name t) p = Ok (Attribute src name t).
Proof.
  intros Hn Ht. unfold parse_attribute, attribute_to_json, jfields, jobj.
  cbn [as_object ok_or rbind]. read_fields. cbn [mbind option_bind as_str ok_or rbind].
  assert (Source.parse (Source.as_str src) = Some src) as -> by by destruct src.
  cbn [ok_or rbind]. rewrite (bounded_string_bstr name) by done. cbn [rbind].
  destruct t as [v|vs]; cbn [test_ok] in Ht; cbn [mbind option_bind as_array ok_or rbind].
  - by rewrite (proj2 (bounded_literal_Ok v _)).
  - destruct Ht as [Hl Hv]. rewrite (proj2 (Z.ltb_ge _ _)) by done.
    destruct (try_mapi_literals_Ok (fun i => p +:+ ".in[" +:+ pretty i +:+ "]") vs 0%nat Hv)
      as [us ->]. done.
Qed.

Lemma parse_role_to_json o n p :
  owner_ok o -> role_name_ok n ->
  parse_role (jfields [("name", Some (VString n)); ("owner", owner_to_json <$> o)]%string) p
    = Ok (Role o n).
Proof.
  intros Ho [Hn Hp]. unfold parse_role, jfields, jobj.
  cbn [as_object ok_or rbind]. read_fields. cbn [ok_or rbind].
  rewrite (bounded_string_bstr n) by done. cbn [rbind]. rewrite Hp. cbn [map_err rbind].
  destruct o as [[|c]|]; cbn [fmap option_fmap option_map owner_to_json as_str is_some_and];
    lits; [done| |done].
  destruct Ho as [Hb Hne]. rewrite (proj2 (String.eqb_neq _ _)) by done.
  by rewrite (bounded_string_bstr c).
Qed.

Lemma grant_keys m :
  forallb (fun k => in_strings k grant_members)
    (bkeys (bmap_of_list (fields
       [("resource", resource_to_json <$> gm_resource m); ("scope", VString <$> gm_scope m);
        ("detail_type", VString <$> gm_detail_type m); ("action", VString <$> gm_action m);
        ("client", VString <$> gm_client m)])))%string = true.
Proof.
  apply forallb_forall. intros k Hk. rewrite bkeys_bmap_of_list, In_bset_of_list in Hk.
  apply fields_keys in Hk. by apply in_strings_In.
Qed.

Lemma is_nil_bmap_of_list {V} (l : list (string * V)) :
  HeldRoles.is_nil (bmap_of_list l) = HeldRoles.is_nil l.
Proof.
  destruct l as [|[k v] r]; [done|]. cbn [HeldRoles.is_nil].
  assert (In k (bkeys (bmap_of_list ((k, v) :: r)))) as Hin.
  { rewrite bkeys_bmap_of_list, In_bset_of_list. by left. }
  by destruct (bmap_of_list ((k, v) :: r)).
Qed.

Lemma grant_member_fields p k (o : option string) l :
  NoDup (map fst l) -> bget k l = Some (VString <$> o) -> opt_ok bstr o ->
  grant_member (bmap_of_list (fields l)) p k = Ok o.
Proof.
  intros Hnd Hk Ho. unfold grant_member. rewrite bget_fields, Hk by done.
  destruct o as [s|]; cbn; [|done]. by rewrite bounded_string_bstr.
Qed.

Lemma parse_grant_to_json m p :
  grant_match_ok m -> grant_match_empty m = false ->
  parse_grant (grant_to_json m) p = Ok (GrantCond m).
Proof.
  intros (Hr & Hs & Hd & Ha & Hc) Hne.
  unfold parse_grant, grant_to_json, jfields, jobj. cbn [as_object ok_or rbind].
  rewrite grant_keys, is_nil_bmap_of_list.
  match goal with |- context [HeldRoles.is_nil ?l] => assert (HeldRoles.is_nil l = false) as -> end.
  { unfold grant_match_empty in Hne. destruct m as [[] [] [] [] []]; cbn in *; done. }
  cbn [negb].
  rewrite (grant_member_fields p "resource"
    ((fun r => match r with TheResource => "$resource.id"%string | Literal raw => raw end)
       <$> gm_resource m)) by
    (first [nodup_keys | by destruct (gm_resource m) as [[]|]
           | destruct (gm_resource m) as [[raw|]|]; cbn in *; [tauto| |done];
             by split_and!; vm_compute]).
  cbn [rbind].
  rewrite (grant_member_fields p "scope" (gm_scope m)) by (done || nodup_keys). cbn [rbind].
  rewrite (grant_member_fields p "detail_type" (gm_detail_type m)) by (done || nodup_keys).
  cbn [rbind].
  rewrite (grant_member_fields p "action" (gm_action m)) by (done || nodup_keys). cbn [rbind].
  rewrite (grant_member_fields p "client" (gm_client m)) by (done || nodup_keys). cbn [rbind].
  destruct m as [[[raw|]|] sc dt ac cl]; cbn; unfold grant_resource; [|done|done].
  cbn in Hr. by rewrite (proj2 (String.eqb_neq _ _)) by apply Hr.
Qed.

Lemma parse_predicate_to_json p :
  pred_ok p -> exists name body,
    TrustedPredicate.to_json p = VObject [(name, body)] /\
    TrustedPredicate.parse name body = Ok (Some p) /\
    ~ In name ["all"; "any"; "not"; "attribute"; "group"; "role"; "grant"; "acr_at_least"]%string.
Proof.
  destruct p as [s|s|n|s]; cbn [pred_ok]; intros Hp; eexists _, _;
    (split; [reflexivity|]); (split; [|by vm_compute; intuition discriminate]).
  - destruct Hp as [<-|[<-|[<-|[]]]]; reflexivity.
  - unfold TrustedPredicate.parse. lits. cbn [snd as_str].
    destruct Hp as (He & Hl & Hz). by rewrite He, Hz, (proj2 (Z.leb_le _ _)).
  - unfold TrustedPredicate.parse, in_range. lits. cbn [snd as_u64].
    by rewrite !(proj2 (Z.leb_le _ _)) by lia.
  - destruct Hp as [<-|[<-|[<-|[]]]]; reflexivity.
Qed.

Definition parse_complete (c : Condition) : Prop :=
  cond_wf c -> grants_named c = true -> forall p d b,
  (condition_nodes c <= b)%nat -> (d + cond_depth c <= S MAX_DEPTH)%nat ->
  parse_condition (condition_to_json c) p d b = Ok (c, b - condition_nodes c)%nat.

Lemma parse_children_complete cs (path : nat -> string) d i b :
  Forall parse_complete cs -> Forall cond_wf cs -> forallb grants_named cs = true ->
  (nodes_list cs <= b)%nat -> (d + depth_list cs <= S MAX_DEPTH)%nat ->
  try_mapi_st (fun index item b => parse_condition item (path index) d b) i
    (map condition_to_json cs) b = Ok (cs, b - nodes_list cs)%nat.
Proof.
  unfold nodes_list, depth_list.
  intros Hall. revert i b. induction Hall as [|c r Hc _ IH]; intros i b Hwf Hg; cbn.
  - intros _ _. by rewrite Nat.sub_0_r.
  - inversion Hwf; subst. apply andb_true_iff in Hg as [Hgc Hgr]. intros Hb Hd.
    rewrite Hc by (done || lia). cbn [rbind]. rewrite IH by (done || lia).
    cbn [rbind]. do 2 f_equal. lia.
Qed.

Lemma parse_condition_complete c : parse_complete c.
Proof.
  induction c as [l IH|l IH|c IH|src n t|n|o n|m|r|pr] using Condition_ind';
    intros Hwf Hg p d b; cbn [condition_nodes cond_depth];
    intros Hb Hd; (destruct b as [|b]; [lia|]); cbn [cond_wf grants_named] in *.
  all: cbn [condition_to_json]; unfold jobj, bmap_of_list; cbn [fold_left binsert fst snd].
  1-8: cbn [parse_condition]; rewrite (proj2 (Nat.ltb_ge MAX_DEPTH d)) by (cbn in *; lia); lits.
  - apply cond_wf_list in Hwf.
    rewrite (parse_children_complete l (fun i => p +:+ "." +:+ "all" +:+ "[" +:+ pretty i +:+ "]"))
      by (done || unfold nodes_list, depth_list; lia). done.
  - apply cond_wf_list in Hwf.
    rewrite (parse_children_complete l (fun i => p +:+ "." +:+ "any" +:+ "[" +:+ pretty i +:+ "]"))
      by (done || unfold nodes_list, depth_list; lia). done.
  - rewrite IH by (done || lia). done.
  - rewrite parse_attribute_to_json by apply Hwf. cbn [rbind]. by rewrite Nat.sub_succ, Nat.sub_0_r.
  - rewrite bounded_string_bstr by done. cbn [rbind]. by rewrite Nat.sub_succ, Nat.sub_0_r.
  - rewrite parse_role_to_json by apply Hwf. cbn [rbind]. by rewrite Nat.sub_succ, Nat.sub_0_r.
  - rewrite parse_grant_to_json by (done || by apply negb_true_iff). cbn [rbind].
    by rewrite Nat.sub_succ, Nat.sub_0_r.
  - rewrite bounded_string_bstr by done. cbn [rbind]. by rewrite Nat.sub_succ, Nat.sub_0_r.
  - destruct (parse_predicate_to_json pr Hwf) as (name & body & -> & Hp & Hn).
    cbn [parse_condition]. rewrite (proj2 (Nat.ltb_ge MAX_DEPTH d)) by (cbn in *; lia).
    destruct (in_strings name ["all"; "any"]) eqn:E.
    { apply in_strings_In in E. cbn in E, Hn. tauto. }
    cbn [In] in Hn.
    rewrite !(proj2 (String.eqb_neq name _)) by (intros ->; apply Hn; tauto).
    rewrite Hp. cbn [ok_or rbind]. by rewrite Nat.sub_succ, Nat.sub_0_r.
Qed.

(** ** Rules *)

Definition rule_id_ok (id : string) : Prop :=
  is_empty id = false /\ (slen id <= MAX_STRING)%Z /\
  existsb (fun c => is_control c || is_whitespace c) (chars id) = false.

Definition reason_ok (s : string) : Prop :=
  is_empty s = false /\ (slen s <= MAX_REASON)%Z /\ has_control s = false.

Definition when_ok (c : Condition) : Prop :=
  cond_wf c /\ (condition_nodes c <= MAX_CONDITIONS)%nat /\ (cond_depth c <= MAX_DEPTH)%nat.

Record rule_wf (r : Rule) : Prop := {
  wf_id : rule_id_ok (rule_id r);
  wf_subject_type : opt_ok bstr (subject_type r);
  wf_resource_type : opt_ok bstr (resource_type r);
  wf_actions_set : bset_ok (actions r);
  wf_actions_count : (Z.of_nat (length (actions r)) <= MAX_ACTIONS)%Z;
  wf_actions : Forall bstr (actions r);
  wf_when : opt_ok when_ok (when_ r);
  wf_reason_admin : opt_ok reason_ok (reason_admin r);
  wf_reason_user : opt_ok reason_ok (reason_user r);
  wf_acr_count : (Z.of_nat (length (acr_values r)) <= MAX_ACR_HINTS)%Z;
  wf_acr_values : Forall bstr (acr_values r)
}.

Definition rule_named (r : Rule) : bool := is_none_or grants_named (when_ r).

Lemma rule_id_Ok p raw id :
  PolicyRuleId.parse p raw = Ok id <-> id = raw /\ rule_id_ok raw.
Proof.
  unfold PolicyRuleId.parse, rule_id_ok. split.
  - intros H. ok_inv. bool_hyps. done.
  - intros (-> & -> & Hl & ->). by rewrite (proj2 (Z.ltb_ge _ _)).
Qed.

Lemma optional_string_Ok object k p o :
  optional_string object k p = Ok o -> opt_ok bstr o.
Proof.
  unfold optional_string. destruct (bget k object) as [[]|]; intros H; ok_inv; subst;
    cbn; try done; by apply bounded_string_Ok in E as [_ ?].
Qed.

Lemma optional_reason_Ok object k p o :
  optional_reason object k p = Ok o -> opt_ok reason_ok o.
Proof.
  unfold optional_reason. destruct (bget k object) as [[]|]; intros H; ok_inv; subst;
    cbn; try done. unfold reason_ok. by bool_hyps.
Qed.

Lemma In_Forall {A} (P : A -> Prop) l : (forall x, In x l -> P x) <-> Forall P l.
Proof. rewrite Forall_forall. by setoid_rewrite list_elem_of_In. Qed.

Lemma actions_parsed (path : nat -> string) items names :
  (Z.of_nat (length items) <= MAX_ACTIONS)%Z ->
  try_mapi (fun i v => bounded_string v (path i)) 0%nat items = Ok names ->
  bset_ok (bset_of_list names) /\
  (Z.of_nat (length (bset_of_list names)) <= MAX_ACTIONS)%Z /\ Forall bstr (bset_of_list names).
Proof.
  intros Hlen [-> Hb]%try_mapi_strings. rewrite length_map in Hlen. split_and!.
  - apply bset_of_list_ok.
  - pose proof (bset_of_list_length names). lia.
  - apply In_Forall. intros x Hx. rewrite In_bset_of_list in Hx.
    exact (proj2 (In_Forall bstr names) Hb x Hx).
Qed.

#[local] Arguments parse_condition : simpl never.

Definition actions_ok (l : list string) : Prop :=
  bset_ok l /\ (Z.of_nat (length l) <= MAX_ACTIONS)%Z /\ Forall bstr l.

Lemma actions_ok_nil : actions_ok [].
Proof. split_and!; [constructor|done|constructor]. Qed.

Lemma parse_rule_sound i entry r : parse_rule i entry = Ok r -> rule_wf r.
Proof.
  unfold parse_rule. intros H. ok_inv. subst r.
  apply optional_string_Ok in E2, E3. apply optional_reason_Ok in E6, E7.
  assert (actions_ok a4) as (? & ? & ?).
  { destruct (bget "actions" a) as [[]|]; ok_inv; subst; try apply actions_ok_nil.
    eapply (actions_parsed (fun i => _)); [by bool_hyps|done]. }
  assert ((Z.of_nat (length a8) <= MAX_ACR_HINTS)%Z /\ Forall bstr a8) as [? ?].
  { destruct (bget "acr_values" a) as [[]|]; ok_inv; subst; try done.
    bool_hyps. apply (try_mapi_strings (fun i => _)) in E8 as [-> ?].
    by rewrite length_map in *. }
  constructor; cbn; try done.
  - destruct (bget "id" a) as [[]|]; try done. by apply rule_id_Ok in E0 as [-> ?].
  - destruct (bget "when" a) as [v|]; [|by injection E5 as <-].
    destruct v; try (by injection E5 as <-);
      apply rbind_Ok in E5 as ([cc bb] & E5 & [= <-]); cbn;
      apply parse_condition_sound in E5 as (? & ? & ?); unfold when_ok; (split_and!; [done|lia..]).
Qed.

Lemma optional_string_fields p k (o : option string) l :
  NoDup (map fst l) -> bget k l = Some (VString <$> o) -> opt_ok bstr o ->
  optional_string (bmap_of_list (fields l)) k p = Ok o.
Proof.
  intros Hnd Hk Ho. unfold optional_string. rewrite bget_fields, Hk by done.
  destruct o as [s|]; cbn; [|done]. by rewrite bounded_string_bstr.
Qed.

Lemma optional_reason_fields p k (o : option string) l :
  NoDup (map fst l) -> bget k l = Some (VString <$> o) -> opt_ok reason_ok o ->
  optional_reason (bmap_of_list (fields l)) k p = Ok o.
Proof.
  intros Hnd Hk Ho. unfold optional_reason. rewrite bget_fields, Hk by done.
  destruct o as [s|]; cbn; [|done]. destruct Ho as (-> & Hl & ->).
  by rewrite (proj2 (Z.ltb_ge _ _)).
Qed.

Lemma condition_to_json_object c : exists m, condition_to_json c = VObject m.
Proof. destruct c as [| | | | | | | |[]]; eexists; reflexivity. Qed.

Lemma nonempty_json_cases l :
  (l = [] /\ nonempty_json l = None) \/ nonempty_json l = Some (VArray (map VString l)).
Proof. destruct l; [by left|by right]. Qed.

Lemma strings_read (path : nat -> string) l :
  Forall bstr l ->
  try_mapi (fun i v => bounded_string v (path i)) 0%nat (map VString l) = Ok l.
Proof. intros Hl. by apply try_mapi_strings. Qed.

#[local] Arguments PolicyRuleId.parse : simpl never.
#[local] Arguments bmap_of_list : simpl never.

Lemma parse_rule_complete i r :
  rule_wf r -> rule_named r = true -> parse_rule i (rule_to_json r) = Ok r.
Proof.
  intros [Hid Hst Hrt Has Hac Hab Hw Hra Hru Hhc Hhb] Hn.
  unfold parse_rule, rule_to_json, jfields, jobj. cbn [as_object ok_or rbind].
  match goal with |- context [fields ?l] => set (ms := l) end.
  rewrite (optional_string_fields _ "subject_type" (subject_type r) ms) by (done || nodup_keys).
  rewrite (optional_string_fields _ "resource_type" (resource_type r) ms) by (done || nodup_keys).
  rewrite (optional_reason_fields _ "reason_admin" (reason_admin r) ms) by (done || nodup_keys).
  rewrite (optional_reason_fields _ "reason_user" (reason_user r) ms) by (done || nodup_keys).
  subst ms. read_fields.
  rewrite (proj2 (rule_id_Ok _ (rule_id r) (rule_id r))) by done. cbn [rbind mbind option_bind as_str].
  replace (if String.eqb (Effect.as_str (effect r)) "permit" then Ok Permit
           else if String.eqb (Effect.as_str (effect r)) "deny" then Ok Deny
           else Err (EEffect ("rules[" +:+ pretty i +:+ "]")))
    with (@Ok _ PolicyDocumentError (effect r)) by by destruct (effect r).
  cbn [rbind].
  set (when_result := match condition_to_json <$> when_ r with
                      | None | Some VNull => Ok None | _ => _ end).
  assert (when_result = Ok (when_ r)) as ->.
  { subst when_result. unfold rule_named in Hn. destruct (when_ r) as [c|]; [|done]. cbn [fmap option_fmap option_map].
    destruct Hw as (Hc & Hb & Hd).
    destruct (condition_to_json_object c) as [m Hm].
    pose proof (parse_condition_complete c Hc) as Hp. rewrite Hm in *. cbv iota beta.
    rewrite Hp; [done|..]; unfold MAX_DEPTH, MAX_CONDITIONS in *; (done || lia). }
  destruct (nonempty_json_cases (actions r)) as [[Ha ->]| ->];
    destruct (nonempty_json_cases (acr_values r)) as [[Hv ->]| ->]; cbn [rbind];
    rewrite ?length_map, ?(proj2 (Z.ltb_ge _ _)) by done;
    rewrite ?(strings_read (fun i => _)) by done; cbn [rbind];
    rewrite ?bset_of_list_id by done; destruct r; cbn in *; by subst.
Qed.

(** ** Walks over a condition

    The operations that collect something from a condition keep an explicit stack
    of the conditions still to read; the number of nodes on it is fuel enough. *)

Inductive part_of : Condition -> Condition -> Prop :=
| part_refl c : part_of c c
| part_all d c l : In c l -> part_of d c -> part_of d (All l)
| part_any d c l : In c l -> part_of d c -> part_of d (Any l)
| part_not d c : part_of d c -> part_of d (Not c).

Definition nodes_of (l : list Condition) : nat :=
  fold_right (fun c n => condition_nodes c + n)%nat 0%nat l.

Lemma condition_nodes_pos c : (0 < condition_nodes c)%nat.
Proof. destruct c; cbn; lia. Qed.

Lemma nodes_of_app l k : nodes_of (l ++ k) = (nodes_of l + nodes_of k)%nat.
Proof. unfold nodes_of. induction l; cbn; lia. Qed.

Lemma nodes_of_rev l : nodes_of (rev l) = nodes_of l.
Proof. induction l; cbn; [done|]. rewrite nodes_of_app, IHl. unfold nodes_of. cbn. lia. Qed.

Section Zones.
Context {IpNet : Type}.
Implicit Types zones : list (string * list IpNet).

(** Every zone named somewhere in [c] is defined. *)
Definition names_zones zones (c : Condition) : Prop :=
  forall zone, part_of (Trusted (PNetworkZone zone)) c -> is_Some (bget zone zones).

Lemma names_zones_children zones l :
  (names_zones zones (All l) <-> forall c, In c l -> names_zones zones c) /\
  (names_zones zones (Any l) <-> forall c, In c l -> names_zones zones c).
Proof.
  unfold names_zones. split; split; intros H.
  1,3: intros c Hc zone Hp; apply H; by econstructor.
  all: intros zone Hp; inversion Hp; subst; by eapply H.
Qed.

Lemma names_zones_not zones c : names_zones zones (Not c) <-> names_zones zones c.
Proof.
  unfold names_zones. split; intros H zone Hp; apply H; [by constructor|by inversion Hp].
Qed.

Lemma names_zones_leaf zones c :
  (forall d, part_of d c -> d = c) ->
  names_zones zones c <->
  forall zone, c = Trusted (PNetworkZone zone) -> is_Some (bget zone zones).
Proof.
  intros Hl. split.
  - intros H zone ->. apply H. constructor.
  - intros H zone Hp%Hl. by apply H.
Qed.

Lemma zones_defined_iff fuel zones pending :
  (nodes_of pending <= fuel)%nat ->
  zones_defined fuel zones pending = true <-> forall c, In c pending -> names_zones zones c.
Proof.
  revert pending. induction fuel as [|fuel IH]; intros [|c r] Hf.
  1,3: cbn; naive_solver.
  { unfold nodes_of in Hf. cbn [fold_right] in Hf. pose proof (condition_nodes_pos c). lia. }
  assert ((forall d, In d (c :: r) -> names_zones zones d) <->
      names_zones zones c /\ forall d, In d r -> names_zones zones d) as -> by
    (cbn; naive_solver).
  unfold nodes_of in Hf. cbn [fold_right] in Hf. fold (nodes_of r) in Hf.
  destruct c as [l|l|c|src name t|g|o name|m|a|[s|zone|n|s]]; cbn [zones_defined condition_nodes] in *.
  1-2: rewrite IH by (rewrite nodes_of_app, nodes_of_rev; unfold nodes_of in *; lia);
    rewrite ?(proj1 (names_zones_children zones l)), ?(proj2 (names_zones_children zones l));
    setoid_rewrite in_app_iff; setoid_rewrite <- in_rev; naive_solver.
  - rewrite IH by (cbn; unfold nodes_of in *; lia). rewrite names_zones_not. cbn. naive_solver.
  - rewrite IH, names_zones_leaf by (lia || by inversion 1). naive_solver.
  - rewrite IH, names_zones_leaf by (lia || by inversion 1). naive_solver.
  - rewrite IH, names_zones_leaf by (lia || by inversion 1). naive_solver.
  - rewrite IH, names_zones_leaf by (lia || by inversion 1). naive_solver.
  - rewrite IH, names_zones_leaf by (lia || by inversion 1). naive_solver.
  - rewrite IH, names_zones_leaf by (lia || by inversion 1). naive_solver.
  - rewrite names_zones_leaf by (by inversion 1).
    destruct (bget zone zones) eqn:Ez; rewrite ?IH by lia; [naive_solver|].
    split; [done|]. intros [H _]. specialize (H zone eq_refl). rewrite Ez in H. by destruct H.
  - rewrite IH, names_zones_leaf by (lia || by inversion 1). naive_solver.
  - rewrite IH, names_zones_leaf by (lia || by inversion 1). naive_solver.
Qed.

Lemma rule_zones_defined_iff zones r :
  rule_zones_defined zones r = true <-> forall c, when_ r = Some c -> names_zones zones c.
Proof.
  unfold rule_zones_defined. destruct (when_ r) as [c|]; [|naive_solver].
  rewrite zones_defined_iff by (unfold nodes_of; cbn; lia). cbn. naive_solver.
Qed.

End Zones.
