(* ===== verification/PolicyRuleSet.v ===== *)
(** * Laws of rule sets

    What [RuleSet::from_json] accepts: bounded, well-formed rules with distinct
    ids, trusted predicates confined to conditional scopes, and scopes that never
    claim the same client and action.  What it accepts, [RuleSet::to_json] writes
    back to the same value. *)

From S2P Require Import Prelude BTree Json Roles PolicyRequest PolicyDocument PolicyDocumentLaws.

#[local] Arguments rule_to_json : simpl never.
#[local] Arguments parse_rule : simpl never.

(** ** The rules array *)

Lemma add_rules_sound entries i seen rs seen' :
  try_mapi_st add_rule i entries seen = Ok (rs, seen') ->
  Forall rule_wf rs /\ length rs = length entries /\
  NoDup (map rule_id rs) /\ forall id, In id (map rule_id rs) -> ~ In id seen.
Proof.
  revert i seen rs. induction entries as [|e es IH]; intros i seen rs; cbn.
  - intros [= <- <-]. split_and!; [constructor|done|constructor|done].
  - intros ([r seen1] & Hr & ([rs1 seen2] & Ht & [= <- <-])%rbind_Ok)%rbind_Ok.
    unfold add_rule in Hr. ok_inv. injection Hr as -> <-.
    apply IH in Ht as (Hwf & Hlen & Hnd & Hnew). bool_hyps.
    match goal with Hs : bset_mem _ _ = false |- _ => apply bset_mem_false in Hs end.
    setoid_rewrite In_bset_insert in Hnew. cbn. split_and!.
    + constructor; [by eapply parse_rule_sound|done].
    + lia.
    + constructor; [|done]. rewrite list_elem_of_In. naive_solver.
    + intros id [<-|Hin]; [done|]. naive_solver.
Qed.

Lemma add_rules_complete rs i seen :
  Forall rule_wf rs -> forallb rule_named rs = true -> NoDup (map rule_id rs) ->
  (forall id, In id (map rule_id rs) -> ~ In id seen) ->
  exists seen', try_mapi_st add_rule i (map rule_to_json rs) seen = Ok (rs, seen').
Proof.
  intros Hwf. revert i seen. induction Hwf as [|r rs Hr _ IH]; intros i seen Hn Hnd Hnew; cbn.
  - eauto.
  - cbn in Hn. apply andb_true_iff in Hn as [Hn Hns]. inversion Hnd as [|? ? Hni Hnd']; subst.
    rewrite list_elem_of_In in Hni. unfold add_rule at 1.
    rewrite parse_rule_complete by done. cbn [rbind].
    rewrite (proj2 (bset_mem_false _ _)) by (apply Hnew; by left). cbn [negb rbind].
    destruct (IH (S i) (bset_insert (rule_id r) seen) Hns Hnd') as [seen' ->].
    { intros id Hin. rewrite In_bset_insert. intros [->|]; [done|].
      by apply (Hnew id); [right|]. }
    cbn. eauto.
Qed.

(** ** Scopes *)

Section RuleSets.
Context {IpNet : Type} `{!Ord IpNet}.
Variable encoded_len : value -> option Z.
Variable wire_of_value : value -> option (Wire (IpNet := IpNet)).
Variable mode_json : EnforcementMode -> value.
Variable fact_json : FactName -> value.
Variable net_json : IpNet -> value.
Abbreviation RuleSet := (RuleSet IpNet).
Abbreviation ConditionalScope := (ConditionalScope IpNet).
Abbreviation from_json := (from_json encoded_len wire_of_value).
Abbreviation to_json := (to_json mode_json fact_json net_json).

Record rules_wf (rs : list Rule) : Prop := {
  rules_each : Forall rule_wf rs;
  rules_ids : NoDup (map rule_id rs);
  rules_count : (Z.of_nat (length rs) <= MAX_RULES)%Z
}.

(** Every network zone a rule of the scope names, however deep, is defined. *)
Definition zones_ok (s : ConditionalScope) : Prop :=
  forall r c, In r (rules (scope_rules s)) -> when_ r = Some c ->
  names_zones (scope_network_zones s) c.

Lemma zones_ok_iff s :
  forallb (rule_zones_defined (scope_network_zones s)) (rules (scope_rules s)) = true <-> zones_ok s.
Proof.
  unfold zones_ok. rewrite forallb_forall. setoid_rewrite rule_zones_defined_iff. naive_solver.
Qed.

Record scope_wf (s : ConditionalScope) : Prop := {
  scope_rules_wf : rules_wf (rules (scope_rules s));
  scope_flat : conditional_scopes (scope_rules s) = [];
  scope_id_ok : is_empty (scope_id s) = false /\ (slen (scope_id s) <= 128)%Z /\
                has_control (scope_id s) = false;
  scope_clients_set : bset_ok (scope_clients s);
  scope_clients_ok : bounded (scope_clients s) 64 = true;
  scope_actions_set : bset_ok (scope_actions s);
  scope_actions_ok : bounded (scope_actions s) 32 = true;
  scope_actions_known : Forall (fun a => In a ENFORCEMENT_ACTIONS) (scope_actions s);
  scope_facts_set : bset_ok (scope_required_facts s);
  scope_facts_count : (Z.of_nat (length (scope_required_facts s)) <= 32)%Z;
  scope_remedy_ok : opt_ok bstr (scope_assurance_remedy s);
  scope_zones_count : (Z.of_nat (length (scope_network_zones s)) <= 64)%Z;
  scope_zones_ok : forallb zone_ok (scope_network_zones s) = true;
  scope_zones_defined : zones_ok s
}.

(** No two scopes of the list share an id, or a client and an action. *)
Definition separated (l : list ConditionalScope) : Prop :=
  forall i j a b, (i < j)%nat -> l !! i = Some a -> l !! j = Some b ->
  scopes_overlap a b = false.

Record ruleset_wf (s : RuleSet) : Prop := {
  set_rules : rules_wf (rules s);
  set_untrusted : existsb contains_trusted (whens (rules s)) = false;
  set_scopes : Forall scope_wf (conditional_scopes s);
  set_scopes_count : (Z.of_nat (length (conditional_scopes s)) <= 64)%Z;
  set_separated : separated (conditional_scopes s);
  set_total : (Z.of_nat (total_rules (rules s) (conditional_scopes s)) <= MAX_RULES)%Z
}.

Lemma from_json_with_rules ps doc conditional (s : RuleSet) :
  from_json_with encoded_len ps doc conditional = Ok s ->
  rules_wf (rules s) /\
  (conditional || negb (existsb contains_trusted (whens (rules s)))) = true /\
  (Z.of_nat (total_rules (rules s) (conditional_scopes s)) <= MAX_RULES)%Z /\
  (conditional_scopes s = [] \/
   conditional = false /\ exists vs, (Z.of_nat (length vs) <= 64)%Z /\
     try_fold (add_scope ps) vs [] = Ok (conditional_scopes s)).
Proof.
  unfold from_json_with. intros H. ok_inv. destruct a3 as [rs seen]. ok_inv. subst s.
  cbn [rules conditional_scopes]. apply add_rules_sound in E3 as (Hwf & Hlen & Hnd & _).
  bool_hyps. split_and!; [constructor; [done|done|lia]|done|done|].
  destruct (bget "conditional_scopes" a0) as [v|]; ok_inv; [|by left].
  right. split; [by destruct conditional|]. exists a4. split; [|done].
  unfold HeldRoles.ofilter in *. destruct (as_array v); [|done].
  destruct (_ <=? 64)%Z eqn:Hle; [|done]. match goal with He : Some _ = Some _ |- _ => injection He as -> end.
  by bool_hyps.
Qed.

Lemma separated_snoc l s :
  separated l -> existsb (fun other => scopes_overlap other s) l = false ->
  separated (l ++ [s]).
Proof.
  intros Hsep Hnew i j a b Hij Ha Hb.
  apply lookup_app_Some in Hb as [Hb|[Hlen Hb]].
  - rewrite lookup_app_l in Ha by (apply lookup_lt_Some in Hb; lia). by eapply Hsep.
  - destruct (j - length l)%nat eqn:Ej; [|done]. injection Hb as <-.
    rewrite lookup_app_l in Ha by lia.
    apply not_true_iff_false. intros Ho. apply not_true_iff_false in Hnew. apply Hnew.
    apply existsb_exists. exists a. split; [|done].
    by apply list_elem_of_In, (list_elem_of_lookup_2 _ i).
Qed.

Lemma add_scopes_sound ps (P : ConditionalScope -> Prop) vs acc scopes :
  (forall v s, ps v = Ok s -> P s) ->
  try_fold (add_scope ps) vs acc = Ok scopes ->
  Forall P acc -> separated acc ->
  Forall P scopes /\ separated scopes /\ length scopes = (length acc + length vs)%nat.
Proof.
  intros Hps. revert acc. induction vs as [|v vs IH]; intros acc; cbn.
  - intros [= <-] ? ?. split_and!; [done..|lia].
  - intros (acc' & Ha & H)%rbind_Ok Hp Hsep. unfold add_scope in Ha. ok_inv. bool_hyps. subst acc'.
    apply IH in H as (? & ? & Hlen).
    + rewrite length_app in Hlen. cbn in Hlen. split_and!; [done..|lia].
    + apply Forall_app. split; [done|]. constructor; [by eapply Hps|constructor].
    + by apply separated_snoc.
Qed.

Lemma bset_nil_iff {K} `{Ord K} (l : list K) :
  HeldRoles.is_nil (bset_of_list l) = HeldRoles.is_nil l.
Proof.
  destruct l as [|x l]; [done|]. cbn [HeldRoles.is_nil].
  assert (In x (bset_of_list (x :: l))) as Hin by (apply In_bset_of_list; by left).
  by destruct (bset_of_list (x :: l)).
Qed.

Lemma distinct_bset {K} `{Ord K} (s : list K) : bset_ok s -> distinct s = true.
Proof. intros Hs. unfold distinct. rewrite bset_of_list_id by done. apply Nat.eqb_refl. Qed.

Lemma bounded_bset l n : bounded l n = true -> bounded (bset_of_list l) n = true.
Proof.
  unfold bounded. intros Hb. bool_hyps. rewrite bset_nil_iff, !andb_true_iff. split_and!.
  - by apply negb_true_iff.
  - apply Z.leb_le. pose proof (bset_of_list_length l). lia.
  - apply forallb_forall. intros x Hx. rewrite In_bset_of_list in Hx.
    match goal with Hf : forallb _ l = true |- _ => exact (proj1 (forallb_forall _ l) Hf x Hx) end.
  - apply distinct_bset, bset_of_list_ok.
Qed.

Lemma existsb_negb {A} (f : A -> bool) l : existsb (fun x => negb (f x)) l = false -> forallb f l = true.
Proof.
  intros H. apply forallb_forall. intros x Hx. destruct (f x) eqn:E; [done|].
  apply not_true_iff_false in H. destruct H. apply existsb_exists. exists x. by rewrite E.
Qed.

Lemma scope_parse_sound v s :
  scope_parse encoded_len wire_of_value v = Ok s -> scope_wf s.
Proof.
  unfold scope_parse, conditional_rules. intros H. ok_inv. subst s. bool_hyps.
  apply from_json_with_rules in E0 as (Hr & _ & Hn & [Hflat|[? _]]); [|done].
  constructor; cbn -[In ENFORCEMENT_ACTIONS]; try done; try apply bset_of_list_ok; try by apply bounded_bset.
  - apply In_Forall. intros x Hx. rewrite In_bset_of_list in Hx.
    apply (in_strings_In x ENFORCEMENT_ACTIONS).
    match goal with He : existsb _ (w_actions a) = false |- _ =>
      exact (proj1 (forallb_forall _ _) (existsb_negb _ _ He) x Hx) end.
  - pose proof (bset_of_list_length (w_required_facts a)). lia.
  - destruct (w_assurance_remedy a) as [r|]; [|done]. cbn in *. by bool_hyps.
  - by apply existsb_negb.
  - by apply zones_ok_iff.
Qed.

(** Everything [from_json] accepts is within the bounds of the language. *)
Lemma from_json_wf doc s : from_json doc = Ok s -> ruleset_wf s.
Proof.
  unfold PolicyDocument.from_json. intros H.
  apply from_json_with_rules in H as (Hr & Hu & Hn & Hs). cbn in Hu. bool_hyps.
  destruct Hs as [Hs|(_ & vs & Hlen & Hs)].
  - constructor; rewrite ?Hs in *; done.
  - apply (add_scopes_sound _ scope_wf) in Hs as (Hwf & Hsep & Hl);
      [|apply scope_parse_sound|constructor|by intros i j a b _ [=]].
    constructor; try done. by rewrite Hl.
Qed.

(** ** The stored form reads back *)

Definition fits (doc : value) : Prop :=
  exists n, encoded_len doc = Some n /\ (n <= MAX_DOCUMENT_BYTES)%Z.

(** What the derived deserializer of [Wire] reads out of a stored scope. *)
Definition wire_of_scope (s : ConditionalScope) : Wire (IpNet := IpNet) :=
  {| w_mode := scope_mode s; w_id := scope_id s; w_clients := scope_clients s;
     w_actions := scope_actions s; w_required_facts := scope_required_facts s;
     w_rules := map rule_to_json (rules (scope_rules s));
     w_assurance_remedy := scope_assurance_remedy s;
     w_network_zones := scope_network_zones s |}.

Definition scope_doc (s : ConditionalScope) : value :=
  jobj [("version", VNumber (PosInt 1));
        ("rules", VArray (map rule_to_json (rules (scope_rules s))))]%string.

Definition named (rs : list Rule) : bool := forallb rule_named rs.

Lemma from_json_with_complete ps obj conditional rs (scopes : list ConditionalScope) :
  fits (VObject obj) ->
  bget "version"%string obj = Some (VNumber (PosInt 1)) ->
  bget "rules"%string obj = Some (VArray (map rule_to_json rs)) ->
  rules_wf rs -> named rs = true ->
  (conditional || negb (existsb contains_trusted (whens rs))) = true ->
  (Z.of_nat (total_rules rs scopes) <= MAX_RULES)%Z ->
  (bget "conditional_scopes"%string obj = None /\ scopes = [] \/
   conditional = false /\ exists vs, bget "conditional_scopes"%string obj = Some (VArray vs) /\
     (Z.of_nat (length vs) <= 64)%Z /\ try_fold (add_scope ps) vs [] = Ok scopes) ->
  from_json_with encoded_len ps (VObject obj) conditional = Ok (mkRuleSet rs scopes).
Proof.
  intros (n & Hn & Hfit) Hv Hr [Hwf Hnd Hlen] Hnm Hc Ht Hs. unfold from_json_with, check_version.
  rewrite Hn. cbn [ok_or rbind as_object]. rewrite (proj2 (Z.leb_le _ _)) by done.
  rewrite Hv, Hr. cbn [ok_or rbind as_u64 mbind option_bind as_array].
  change (1 =? VERSION)%Z with true. cbn [rbind].
  rewrite length_map, (proj2 (Z.leb_le _ _)) by done.
  destruct (add_rules_complete rs 0 [] Hwf Hnm Hnd) as [seen ->]; [by intros ? _ []|].
  cbn [rbind]. rewrite Hc.
  destruct Hs as [[-> ->]|(-> & vs & -> & Hvs & Hf)]; cbn [negb rbind as_array].
  - by rewrite (proj2 (Z.leb_le _ _)).
  - unfold HeldRoles.ofilter. rewrite (proj2 (Z.leb_le _ _)) by done.
    cbn [ok_or rbind]. rewrite Hf. cbn [rbind]. by rewrite (proj2 (Z.leb_le _ _)).
Qed.

Lemma conditional_rules_complete s :
  scope_wf s -> named (rules (scope_rules s)) = true -> fits (scope_doc s) ->
  conditional_rules encoded_len (scope_doc s) = Ok (scope_rules s).
Proof.
  intros [Hr Hflat] Hnm Hfit. unfold conditional_rules, scope_doc, jobj in *.
  rewrite (from_json_with_complete _ _ true (rules (scope_rules s)) []); try done.
  - destruct (scope_rules s) as [rs scopes]. cbn in *. by subst.
  - unfold total_rules. cbn. rewrite Nat.add_0_r. by destruct Hr.
  - by left.
Qed.

Lemma forallb_existsb {A} (f : A -> bool) l : forallb f l = true -> existsb (fun x => negb (f x)) l = false.
Proof.
  intros H. apply not_true_iff_false. intros (x & Hx & Hf)%existsb_exists.
  eapply (proj1 (forallb_forall f l) H) in Hx. by rewrite Hx in Hf.
Qed.

Lemma scope_parse_complete s v :
  scope_wf s -> named (rules (scope_rules s)) = true -> fits (scope_doc s) ->
  wire_of_value v = Some (wire_of_scope s) ->
  scope_parse encoded_len wire_of_value v = Ok s.
Proof.
  intros Hwf Hnm Hfit Hv. pose proof (conditional_rules_complete s Hwf Hnm Hfit) as Hcr.
  unfold scope_parse. rewrite Hv. cbn [ok_or rbind wire_of_scope w_mode w_id w_clients w_actions
    w_required_facts w_rules w_assurance_remedy w_network_zones].
  fold (scope_doc s). rewrite Hcr. clear Hcr.
  destruct Hwf as [_ _ (Hi & Hil & Hic) Hcs Hcb Has Hab Hak Hfs Hfc Hrem Hzc Hzk Hzd].
  rewrite Hi, Hic, Hcb, Hab, (distinct_bset _ Hfs).
  rewrite !(proj2 (Z.ltb_ge _ _)) by done. cbn [negb orb].
  rewrite (forallb_existsb _ _ Hzk), forallb_existsb.
  - cbn [rbind negb orb]. rewrite (proj2 (zones_ok_iff s) Hzd).
    rewrite !bset_of_list_id by done.
    destruct (scope_assurance_remedy s) as [r|] eqn:Er; cbn [is_some_and opt_ok] in *.
    + destruct Hrem as (-> & Hl & ->). rewrite (proj2 (Z.ltb_ge _ _)) by done.
      destruct s; cbn in *. by subst.
    + destruct s; cbn in *. by subst.
  - apply forallb_forall. intros x Hx. apply (in_strings_In x ENFORCEMENT_ACTIONS).
    by apply (proj2 (In_Forall _ _) Hak).
Qed.

Lemma add_scopes_complete ps (vs : list value) scopes acc :
  Forall2 (fun v s => ps v = Ok s) vs scopes ->
  separated (acc ++ scopes) ->
  try_fold (add_scope ps) vs acc = Ok (acc ++ scopes).
Proof.
  intros Hf. revert acc. induction Hf as [|v s vs scopes Hv _ IH]; intros acc Hsep; cbn.
  - by rewrite app_nil_r.
  - unfold add_scope at 1. rewrite Hv. cbn [rbind].
    assert (existsb (fun other => scopes_overlap other s) acc = false) as ->.
    { apply not_true_iff_false. intros (o & Ho & Hov)%existsb_exists.
      apply list_elem_of_In, list_elem_of_lookup in Ho as [i Hi].
      rewrite (Hsep i (length acc) o s) in Hov; [done|by apply lookup_lt_Some in Hi| |].
      - rewrite lookup_app_l; [done|by apply lookup_lt_Some in Hi].
      - rewrite lookup_app_r, Nat.sub_diag; done. }
    cbn [negb rbind]. rewrite IH; rewrite <- app_assoc; done.
Qed.

(** A scope as stored: named matchers, a rules array within the size bound, and
    the derived (de)serializers inverse on it. *)
Definition storable (s : ConditionalScope) : Prop :=
  named (rules (scope_rules s)) = true /\ fits (scope_doc s) /\
  wire_of_value (scope_to_json mode_json fact_json net_json s) = Some (wire_of_scope s).

Lemma scopes_read scopes :
  Forall scope_wf scopes -> Forall storable scopes -> separated scopes ->
  try_fold (add_scope (scope_parse encoded_len wire_of_value))
    (map (scope_to_json mode_json fact_json net_json) scopes) [] = Ok scopes.
Proof.
  intros Hwf Hst Hsep. apply (add_scopes_complete _ _ scopes []); [|done].
  clear Hsep. induction scopes as [|s r IH]; [constructor|].
  apply Forall_cons in Hwf as [Hs Hr], Hst as [(? & ? & ?) Hst].
  cbn [map]. constructor; [by apply scope_parse_complete|by apply IH].
Qed.

(** Reading back what [to_json] writes gives the same rule set: nothing the
    parser understood is dropped or changed by a read-modify-write. *)
Theorem ruleset_round_trip (doc : value) (s : RuleSet) :
  from_json doc = Ok s ->
  fits (to_json s) ->
  named (rules s) = true -> Forall storable (conditional_scopes s) ->
  from_json (to_json s) = Ok s.
Proof.
  intros Hwf%from_json_wf Hfit Hnm Hst. destruct Hwf as [Hr Hu Hs Hsc Hsep Ht].
  unfold PolicyDocument.from_json, to_json, jfields, jobj in *.
  rewrite (from_json_with_complete _ _ false (rules s) (conditional_scopes s)); try done.
  - by destruct s.
  - by read_fields.
  - by read_fields.
  - cbn. by rewrite Hu.
  - destruct (conditional_scopes s) as [|sc r] eqn:Esc; cbn [HeldRoles.is_nil].
    + left. split; [|done]. by read_fields.
    + right. split; [done|]. eexists. split_and!; [by read_fields|by rewrite length_map|].
      by apply scopes_read.
Qed.

(** Whatever the document, an accepted policy stays within the language's bounds:
    at most 128 rules, scopes' rules included, with ids distinct in each array;
    conditions of at most 64 nodes and 8 levels; no trusted predicate outside a
    scope; at most 64 scopes, no two claiming the same client and action, each for
    actions that are enforced, and with every network zone its rules name defined. *)
Theorem from_json_bounded (doc : value) (s : RuleSet) :
  from_json doc = Ok s ->
  (Z.of_nat (total_rules (rules s) (conditional_scopes s)) <= MAX_RULES)%Z /\
  NoDup (map rule_id (rules s)) /\
  Forall rule_wf (rules s) /\
  (forall r c, In r (rules s) -> when_ r = Some c -> contains_trusted c = false) /\
  (Z.of_nat (length (conditional_scopes s)) <= 64)%Z /\
  separated (conditional_scopes s) /\
  Forall (fun sc => Forall rule_wf (rules (scope_rules sc)) /\
                    NoDup (map rule_id (rules (scope_rules sc))) /\
                    conditional_scopes (scope_rules sc) = [] /\
                    Forall (fun a => In a ENFORCEMENT_ACTIONS) (scope_actions sc) /\
                    zones_ok sc) (conditional_scopes s).
Proof.
  intros [Hr Hu Hs Hsc Hsep Ht]%from_json_wf.
  destruct Hr as [Hwf Hnd _]. split_and!; try done.
  - intros r c Hin Hw. apply not_true_iff_false. intros Hct.
    apply not_true_iff_false in Hu. apply Hu, existsb_exists. exists c. split; [|done].
    apply list_elem_of_In, list_elem_of_omap. exists r. by rewrite list_elem_of_In.
  - eapply Forall_impl; [exact Hs|]. intros sc [[Hrs Hids _] Hflat _ _ _ _ _ Hk _ _ _ _ _ Hz].
    by split_and!.
Qed.

(** A policy whose one rule holds for a subject with any grant at all: the matcher
    names a member and gives it no value. *)
Definition null_grant_document : value :=
  VObject [("rules", VArray [VObject
             [("effect", VString "permit"); ("id", VString "any-grant");
              ("when", VObject [("grant", VObject [("resource", VNull)])])]]);
           ("version", VNumber (PosInt 1))]%string.

Definition any_grant : GrantMatch :=
  {| gm_resource := None; gm_scope := None; gm_detail_type := None; gm_action := None;
     gm_client := None |}.

Definition any_grant_set : RuleSet :=
  mkRuleSet [{| rule_id := "any-grant"%string; effect := Permit; subject_type := None;
                resource_type := None; actions := []; when_ := Some (GrantCond any_grant);
                reason_admin := None; reason_user := None; acr_values := [] |}] [].

(** The parser takes a grant matcher whose only member is [null], as a matcher
    that constrains nothing; what [to_json] writes for it, the parser refuses. *)
Theorem null_grant_does_not_round_trip :
  fits null_grant_document -> fits (to_json any_grant_set) ->
  from_json null_grant_document = Ok any_grant_set /\
  exists path, from_json (to_json any_grant_set)
    = Err (ECondition path "grant names nothing to match").
Proof.
  intros (n & Hn & Hb) (m & Hm & Hc). unfold PolicyDocument.from_json, from_json_with.
  rewrite Hn, Hm. cbn [ok_or rbind]. rewrite !(proj2 (Z.leb_le _ _)) by done.
  split; [vm_compute; reflexivity|]. eexists. vm_compute. reflexivity.
Qed.
End RuleSets.

(** ** A policy to read and write back *)

(** Functions for the parameters: a size, and the reading of a stored scope whose
    networks are numbers. *)
Fixpoint sample_len (v : value) : Z :=
  match v with
  | VString s => slen s + 2
  | VArray l => 2 + fold_right (fun x n => sample_len x + 1 + n)%Z 0%Z l
  | VObject m => 2 + fold_right (fun kx n => slen (fst kx) + 4 + sample_len (snd kx) + n)%Z 0%Z m
  | _ => 5
  end%Z.

Definition sample_mode_json (m : EnforcementMode) : value :=
  VString match m with EnfActive => "active" | EnfReportOnly => "report_only" end.
Definition sample_fact_json (n : FactName) : value := VNumber (PosInt (Z.of_nat (fact_index n))).
Definition sample_net_json (n : nat) : value := VNumber (PosInt (Z.of_nat n)).

Definition sample_fact (v : value) : option FactName :=
  n ← as_u64 v;
  List.find (fun f => (Z.of_nat (fact_index f) =? n)%Z)
    [Assurance; AuthenticationAge; ApplicationSensitivity; NetworkZone; DeviceCompliance; Groups;
     Roles; PolicyRequest.Grants].

Definition sample_wire (v : value) : option (Wire (IpNet := nat)) :=
  mode ← vget "mode"%string v ≫= as_str; id ← vget "id"%string v ≫= as_str;
  clients ← vget "clients"%string v ≫= as_array; acts ← vget "actions"%string v ≫= as_array;
  facts ← vget "required_facts"%string v ≫= as_array; rs ← vget "rules"%string v ≫= as_array;
  remedy ← vget "assurance_remedy"%string v; zones ← vget "network_zones"%string v ≫= as_object;
  Some {| w_mode := if String.eqb mode "active" then EnfActive else EnfReportOnly; w_id := id;
          w_clients := omap as_str clients; w_actions := omap as_str acts;
          w_required_facts := omap sample_fact facts; w_rules := rs;
          w_assurance_remedy := as_str remedy;
          w_network_zones := map (fun z => (fst z, match as_array (snd z) with
            | Some ns => omap (fun n => Z.to_nat <$> as_u64 n) ns | None => [] end)) zones |}.

Definition sample_document : value :=
  jobj [("version", VNumber (PosInt 1));
        ("rules", VArray [
           jobj [("id", VString "finance-read"); ("effect", VString "permit");
                 ("resource_type", VString "document");
                 ("actions", VArray [VString "read"; VString "list"; VString "read"]);
                 ("when", jobj [("all", VArray [
                    jobj [("group", VString "finance")];
                    jobj [("not", jobj [("acr_at_least", VString "urn:acr:none")])]])]);
                 ("acr_values", VArray [VString "phr"])];
           jobj [("id", VString "no-guests"); ("effect", VString "deny");
                 ("subject_type", VString "guest"); ("reason_user", VString "Guests may not.")]]);
        ("conditional_scopes", VArray [
           jobj [("mode", VString "active"); ("id", VString "crown-jewels");
                 ("clients", VArray [VString "billing"]);
                 ("actions", VArray [VString "refresh_token"; VString "authorize"]);
                 ("required_facts", VArray [VNumber (PosInt 3)]);
                 ("rules", VArray [
                    jobj [("id", VString "on-net"); ("effect", VString "permit");
                          ("when", jobj [("network_zone", VString "office")])]]);
                 ("assurance_remedy", VNull);
                 ("network_zones", VObject [("office", VArray [VNumber (PosInt 10)])])]])]%string.

Definition sample_set : RuleSet nat :=
  match from_json (fun v => Some (sample_len v)) sample_wire sample_document with
  | Ok s => s
  | Err _ => deny_all
  end.

Lemma sample_accepted :
  from_json (fun v => Some (sample_len v)) sample_wire sample_document = Ok sample_set.
Proof. vm_compute. reflexivity. Qed.

Lemma from_json_bounded_witness :
  length (rules sample_set) = 2%nat /\ length (conditional_scopes sample_set) = 1%nat /\
  separated (conditional_scopes sample_set).
Proof.
  split; [vm_compute; reflexivity|]. split; [vm_compute; reflexivity|].
  pose proof (from_json_bounded _ sample_wire sample_document sample_set sample_accepted)
    as (_ & _ & _ & _ & _ & Hs & _).
  exact Hs.
Defined.

Lemma ruleset_round_trip_witness :
  from_json (fun v => Some (sample_len v)) sample_wire
    (to_json sample_mode_json sample_fact_json sample_net_json sample_set) = Ok sample_set.
Proof.
  apply (ruleset_round_trip (fun v => Some (sample_len v)) sample_wire sample_mode_json
           sample_fact_json sample_net_json sample_document sample_set sample_accepted).
  - eexists. split; [reflexivity|]. vm_compute. discriminate.
  - vm_compute. reflexivity.
  - constructor; [|constructor]. split_and!.
    + vm_compute. reflexivity.
    + eexists. split; [reflexivity|]. vm_compute. discriminate.
    + vm_compute. reflexivity.
Defined.

Lemma null_grant_does_not_round_trip_witness :
  (exists path, from_json (fun v => Some (sample_len v)) sample_wire
     (to_json sample_mode_json sample_fact_json sample_net_json any_grant_set)
     = Err (ECondition path "grant names nothing to match")).
Proof.
  apply (null_grant_does_not_round_trip (fun v => Some (sample_len v)) sample_wire
           sample_mode_json sample_fact_json sample_net_json);
    (eexists; split; [reflexivity|]; vm_compute; discriminate).
Defined.
