(* ===== verification/PolicyEngine.v ===== *)
(** * The decision engine

    [crates/domain/src/policy/engine.rs] and
    [crates/domain/src/policy/explanation.rs]: from a rule set and a request to a
    decision, and the bounded diagnostics of that decision. *)

From S2P Require Import Prelude BTree Json Roles Grants PolicyRequest PolicyDocument.

Definition MAX_TRACE_NODES : nat := 256.

(** ** Decisions *)

Record ConditionExplanation : Type := {
  ce_path : string;
  ce_kind : string;
  ce_matched : bool;
  ce_missing : bool
}.

Record RuleExplanation : Type := {
  re_id : string;
  re_effect : string;
  re_applicable : bool;
  re_matched : bool;
  re_conditions : list ConditionExplanation
}.

Record DecisionExplanation : Type := {
  de_policy_revision : option string;
  de_policy_updated_at : option string;
  de_enforcement_point : string;
  de_rules : list RuleExplanation;
  de_truncated : bool
}.

Record DecisionContext : Type := {
  dc_rule : option PolicyRuleId;
  dc_reason_admin : option string;
  dc_reason_user : option string;
  dc_acr_values : list string
}.

Record Decision : Type := {
  permit : bool;
  decision_context : DecisionContext;
  explanation : option DecisionExplanation
}.

Module Decision.
Definition with_explanation (d : Decision) (e : DecisionExplanation) : Decision :=
  {| permit := permit d; decision_context := decision_context d; explanation := Some e |}.

Definition default_deny (reason_admin : string) : Decision :=
  {| permit := false; explanation := None;
     decision_context := {| dc_rule := None; dc_reason_admin := Some reason_admin;
                            dc_reason_user := None; dc_acr_values := [] |} |}.

Definition from_rule (rule : Rule) : Decision :=
  {| permit := bool_decide (effect rule = Permit); explanation := None;
     decision_context := {| dc_rule := Some (rule_id rule);
                            dc_reason_admin := reason_admin rule;
                            dc_reason_user := reason_user rule;
                            dc_acr_values := acr_values rule |} |}.
End Decision.

Module DecisionContext.
Definition to_json (c : DecisionContext) : value :=
  jfields [("id", VString <$> dc_rule c);
           ("reason_admin", (fun reason => jobj [("en", VString reason)]) <$> dc_reason_admin c);
           ("reason_user", (fun reason => jobj [("en", VString reason)]) <$> dc_reason_user c);
           ("acr_values", nonempty_json (dc_acr_values c))]%string.
End DecisionContext.

(** ** Conditions *)

Definition compare (v : value) (test : AttributeTest) : bool :=
  match test with
  | Equals expected => value_eqb v expected
  | In_ expected =>
      match v with
      | VArray items => existsb (fun item => value_in item expected) items
      | scalar => value_in scalar expected
      end
  end.

(** The source's two early returns: what a matcher names and the grant lacks. *)
Definition grant_matches (m : GrantMatch) (g : ActiveGrant) (req : EvaluationRequest) : bool :=
  if is_some_and (fun client => negb (String.eqb (ag_client g) client)) (gm_client m) then false
  else if is_some_and (fun r =>
            let wanted := match r with
                          | Literal raw => raw
                          | TheResource => res_id (resource req)
                          end in
            negb (existsb (fun held => String.eqb held wanted) (ag_resources g)))
          (gm_resource m) then false
  else if is_some_and (fun scope => negb (in_strings scope (ag_scopes g))) (gm_scope m) then false
  else match gm_detail_type m, gm_action m with
  | None, None => true
  | Some dt, None => existsb (fun d => String.eqb (detail_type d) dt) (ag_details g)
  | None, Some action => existsb (fun d => bset_mem action (d_actions d)) (ag_details g)
  | Some dt, Some action =>
      existsb (fun d => String.eqb (detail_type d) dt && bset_mem action (d_actions d))
        (ag_details g)
  end.

Definition bag_of (req : EvaluationRequest) (src : Source) : list (string * value) :=
  match src with
  | SSubject => sub_properties (subject req)
  | SResource => res_properties (resource req)
  | SAction => act_properties (action req)
  | SContext => ctx_properties (context req)
  end.

Fixpoint holds (c : Condition) (req : EvaluationRequest) : bool :=
  match c with
  | All children => forallb (fun child => holds child req) children
  | Any children => existsb (fun child => holds child req) children
  | Not child => negb (holds child req)
  | Attribute src name test =>
      is_some_and (fun v => compare v test) (Properties.get (bag_of req src) name)
  | Group group => bset_mem group (sub_groups (subject req))
  | Role owner name => Subject.holds_role (subject req) owner name
  | GrantCond matcher =>
      existsb (fun grant => grant_matches matcher grant req) (sub_grants (subject req))
  | AcrAtLeast required => Context.acr_at_least (context req) required
  | Trusted predicate =>
      is_some_and (TrustedPredicate.holds predicate) (trusted (context req))
  end.

Definition matches (rule : Rule) (req : EvaluationRequest) : bool :=
  if is_some_and (fun kind => negb (String.eqb kind (sub_kind (subject req))))
       (subject_type rule) then false
  else if is_some_and (fun kind => negb (String.eqb kind (res_kind (resource req))))
            (resource_type rule) then false
  else if negb (HeldRoles.is_nil (actions rule))
          && negb (bset_mem (act_name (action req)) (actions rule)) then false
  else is_none_or (fun condition => holds condition req) (when_ rule).

(** ** Evaluation *)

(** The loop of [RuleSet::evaluate]: [permit] is the first permit seen so far. *)
Fixpoint evaluate_rules (rs : list Rule) (req : EvaluationRequest) (permit : option Rule)
    : Decision :=
  match rs with
  | [] => match permit with
          | None => Decision.default_deny "no rule of this tenant's policy matched the request"
          | Some rule => Decision.from_rule rule
          end
  | rule :: rs =>
      if negb (matches rule req) then evaluate_rules rs req permit
      else match effect rule with
      | Deny => Decision.from_rule rule
      | Permit =>
          evaluate_rules rs req (match permit with None => Some rule | Some p => Some p end)
      end
  end.

Section Engine.
Context {IpNet : Type}.
Abbreviation RuleSet := (RuleSet IpNet).

Definition evaluate (s : RuleSet) (req : EvaluationRequest) : Decision :=
  evaluate_rules (rules s) req None.

Record StoredPolicy : Type := { sp_rules : RuleSet; sp_updated_at : Z }.

(** ** Explanations *)

(** The mutable state of one explanation: the entries, the nodes left, and
    whether any was left out. *)
Record TraceState : Type := {
  ts_out : list ConditionExplanation;
  ts_remaining : nat;
  ts_truncated : bool
}.

Definition kind_missing (c : Condition) (req : EvaluationRequest) : string * bool :=
  match c with
  | All _ => ("all", false)
  | Any _ => ("any", false)
  | Not _ => ("not", false)
  | Attribute src name _ =>
      ("attribute", match Properties.get (bag_of req src) name with
                    | None => true | Some _ => false end)
  | Trusted predicate =>
      ("trusted_fact",
       is_none_or (fun t => negb (bool_decide
           (TrustedAccessContext.availability t (TrustedPredicate.fact predicate) = Known)))
         (trusted (context req)))
  | Group _ => ("group", false)
  | Role _ _ => ("role", false)
  | GrantCond _ => ("grant", false)
  | AcrAtLeast required =>
      ("acr_at_least",
       is_none_or (fun held => negb (existsb (fun v => String.eqb v held) (ladder (context req))))
         (acr (context req))
       || negb (in_strings required (ladder (context req))))
  end%string.

Fixpoint trace (c : Condition) (req : EvaluationRequest) (path : string) (st : TraceState)
    : TraceState :=
  match ts_remaining st with
  | O => {| ts_out := ts_out st; ts_remaining := 0; ts_truncated := true |}
  | S remaining =>
      let '(kind, missing) := kind_missing c req in
      let st := {| ts_out := ts_out st ++ [{| ce_path := path; ce_kind := kind;
                     ce_matched := holds c req; ce_missing := missing |}];
                   ts_remaining := remaining; ts_truncated := ts_truncated st |} in
      match c with
      | All children | Any children =>
          foldi (fun index child st =>
            trace child req (path +:+ "." +:+ pretty index) st) 0%nat children st
      | Not child => trace child req (path +:+ ".0") st
      | _ => st
      end
  end.

(** Whether a rule's selectors admit the request. *)
Definition rule_applicable (rule : Rule) (req : EvaluationRequest) : bool :=
  is_none_or (fun kind => String.eqb kind (sub_kind (subject req))) (subject_type rule)
  && is_none_or (fun kind => String.eqb kind (res_kind (resource req))) (resource_type rule)
  && (HeldRoles.is_nil (actions rule) || bset_mem (act_name (action req)) (actions rule)).

(** One rule of the explanation's loop. *)
Definition explain_rule (req : EvaluationRequest) (rule : Rule)
    (acc : list RuleExplanation * nat * bool) : list RuleExplanation * nat * bool :=
  let '(out, remaining, truncated) := acc in
  let applicable := rule_applicable rule req in
  let st := {| ts_out := []; ts_remaining := remaining; ts_truncated := truncated |} in
  let st := match when_ rule with
            | Some condition => if applicable then trace condition req "when" st else st
            | None => st
            end in
  (out ++ [{| re_id := rule_id rule; re_effect := Effect.as_str (effect rule);
              re_applicable := applicable; re_matched := matches rule req;
              re_conditions := ts_out st |}], ts_remaining st, ts_truncated st).

(** The digest and the text of a document: [sha2] with [hex], and [serde_json]'s
    [Display]. *)
Variable sha256_hex : string -> string.
Variable json_string : value -> string.
Variable mode_json : EnforcementMode -> value.
Variable fact_json : FactName -> value.
Variable net_json : IpNet -> value.

Definition revision (s : RuleSet) : string :=
  "sha256:" +:+ sha256_hex (json_string (to_json mode_json fact_json net_json s)).

Definition explain (policy : option StoredPolicy) (req : EvaluationRequest) (point : string)
    : DecisionExplanation :=
  match policy with
  | None => {| de_policy_revision := None; de_policy_updated_at := None;
               de_enforcement_point := point; de_rules := []; de_truncated := false |}
  | Some policy =>
      let '(out, _, truncated) :=
        fold_left (fun acc rule => explain_rule req rule acc) (rules (sp_rules policy))
          ([], MAX_TRACE_NODES, false) in
      {| de_policy_revision := Some (revision (sp_rules policy));
         de_policy_updated_at := Some (pretty (sp_updated_at policy));
         de_enforcement_point := point; de_rules := out; de_truncated := truncated |}
  end.

(** [explanation::evaluate]. *)
Definition evaluate_stored (policy : option StoredPolicy) (req : EvaluationRequest) : Decision :=
  match policy with
  | None => Decision.default_deny "this tenant has no policy document"
  | Some stored => evaluate (sp_rules stored) req
  end.

Definition evaluate_explained (policy : option StoredPolicy) (req : EvaluationRequest)
    (point : string) : Decision :=
  Decision.with_explanation (evaluate_stored policy req) (explain policy req point).

(** [DeclarativeEngine]: a policy store, whose failures it passes on, and the
    enforcement point its explanations name, when it gives any. *)
Context {DomainError : Type}.

Record DeclarativeEngine : Type := {
  load : TenantId -> result (option StoredPolicy) DomainError;
  explanation_point : option string
}.

Definition engine_evaluate (engine : DeclarativeEngine) (tenant : TenantId)
    (req : EvaluationRequest) : result Decision DomainError :=
  let? stored := load engine tenant in
  let decision := evaluate_stored stored req in
  Ok (match explanation_point engine with
      | None => decision
      | Some point => Decision.with_explanation decision (explain stored req point)
      end).
End Engine.
