(* ===== verification/PolicyEngineLaws.v ===== *)
(** * Laws of the decision engine

    The order the rules are read in, against a declarative reference; what a
    caller's properties can and cannot change; what an explanation may hold. *)

From S2P Require Import Prelude BTree Json Roles Grants PolicyRequest PolicyDocument PolicyEngine.

(** ** Which rules decide *)

Definition denies (req : EvaluationRequest) (r : Rule) : bool :=
  bool_decide (effect r = Deny) && matches r req.
Definition permits (req : EvaluationRequest) (r : Rule) : bool :=
  bool_decide (effect r = Permit) && matches r req.

(** The reference: the first matching deny, else the first matching permit, else
    the default. *)
Definition reference_decision (rs : list Rule) (req : EvaluationRequest) : Decision :=
  match List.find (denies req) rs with
  | Some rule => Decision.from_rule rule
  | None =>
      match List.find (permits req) rs with
      | Some rule => Decision.from_rule rule
      | None => Decision.default_deny "no rule of this tenant's policy matched the request"
      end
  end.

Lemma evaluate_rules_reference rs req p :
  evaluate_rules rs req p =
  match List.find (denies req) rs, p with
  | Some rule, _ => Decision.from_rule rule
  | None, Some rule => Decision.from_rule rule
  | None, None => reference_decision rs req
  end.
Proof.
  revert p. unfold reference_decision, denies, permits.
  induction rs as [|r rs IH]; intros p; cbn; [by destruct p|].
  destruct (matches r req) eqn:Em; cbn; rewrite ?andb_false_r, ?andb_true_r; [|apply IH].
  destruct (effect r) eqn:Ee; rewrite ?bool_decide_eq_true_2, ?bool_decide_eq_false_2 by done; [|done].
  rewrite IH. by destruct p, (List.find _ rs).
Qed.

Lemma evaluate_reference {IpNet} (s : RuleSet IpNet) req :
  evaluate s req = reference_decision (rules s) req.
Proof.
  unfold evaluate. rewrite evaluate_rules_reference. unfold reference_decision.
  by destruct (List.find (denies req) (rules s)).
Qed.

Lemma permit_from_rule r : permit (Decision.from_rule r) = bool_decide (effect r = Permit).
Proof. done. Qed.

Lemma permit_rules rs req :
  permit (reference_decision rs req) = existsb (permits req) rs && negb (existsb (denies req) rs).
Proof.
  unfold reference_decision. destruct (List.find (denies req) rs) as [r|] eqn:Ed.
  - apply find_some in Ed as [Hin Hd].
    rewrite (proj2 (existsb_exists (denies req) rs)) by eauto. rewrite andb_false_r.
    unfold denies in Hd. bool_hyps. rewrite permit_from_rule.
    apply bool_decide_eq_false_2. congruence.
  - assert (existsb (denies req) rs = false) as ->.
    { apply not_true_iff_false. intros (x & Hx & Hd)%existsb_exists.
      by rewrite (find_none _ _ Ed x Hx) in Hd. }
    rewrite andb_true_r. destruct (List.find (permits req) rs) as [r|] eqn:Ep.
    + apply find_some in Ep as [Hin Hp].
      rewrite (proj2 (existsb_exists (permits req) rs)) by eauto.
      unfold permits in Hp. by bool_hyps; apply bool_decide_eq_true_2.
    + symmetry. apply not_true_iff_false. intros (x & Hx & Hp)%existsb_exists.
      by rewrite (find_none _ _ Ep x Hx) in Hp.
Qed.

Lemma existsb_Permutation {A} (f : A -> bool) l l' :
  Permutation l l' -> existsb f l = existsb f l'.
Proof.
  induction 1; cbn; [done|congruence| |congruence]. by destruct (f x), (f y).
Qed.

(** The engine walks the rules once, and decides as the reference does. *)
Theorem evaluate_is_reference {IpNet} (s : RuleSet IpNet) (req : EvaluationRequest) :
  evaluate s req = reference_decision (rules s) req.
Proof. apply evaluate_reference. Qed.

(** C2: A request is permitted exactly when some permit rule matches it and no deny
    rule does. *)
Theorem permit_iff {IpNet} (s : RuleSet IpNet) (req : EvaluationRequest) :
  permit (evaluate s req) = true <->
  (exists r, In r (rules s) /\ effect r = Permit /\ matches r req = true) /\
  (forall r, In r (rules s) -> effect r = Deny -> matches r req = false).
Proof.
  rewrite evaluate_reference, permit_rules, andb_true_iff, negb_true_iff, existsb_exists.
  rewrite <- not_true_iff_false, existsb_exists. unfold permits, denies.
  setoid_rewrite andb_true_iff. setoid_rewrite bool_decide_eq_true.
  split.
  - intros [(r & Hin & He & Hm) Hno]. split; [eauto|].
    intros d Hd Hde. destruct (matches d req) eqn:E; [|done]. exfalso. eauto.
  - intros [(r & Hin & He & Hm) Hno]. split; [eauto|].
    intros (d & Hd & Hde & E). by rewrite Hno in E.
Qed.

(** The permit bit does not depend on the order the rules are written in. *)
Theorem permit_order_independent {IpNet} (s t : RuleSet IpNet) (req : EvaluationRequest) :
  Permutation (rules s) (rules t) ->
  permit (evaluate s req) = permit (evaluate t req).
Proof.
  intros Hp. rewrite !evaluate_reference, !permit_rules.
  by rewrite (existsb_Permutation (permits req) _ _ Hp), (existsb_Permutation (denies req) _ _ Hp).
Qed.

(** A request, by subject and with a property bag for its context. *)
Definition sample_request (kind : string) (groups : list string) (bag : list (string * value))
    (c : Context) : EvaluationRequest :=
  {| subject := {| sub_kind := kind; sub_id := "u-1"; sub_properties := []; sub_groups := groups;
                   sub_roles := HeldRoles.empty; sub_grants := [] |};
     action := {| act_name := "read"; act_properties := [] |};
     resource := {| res_kind := "document"; res_id := "d-1"; res_properties := [] |};
     context := {| trusted := trusted c; acr := acr c; ladder := ladder c;
                   ctx_properties := bag |} |}%string.

Definition sample_rule (id : string) (e : Effect) (c : option Condition) : Rule :=
  {| rule_id := id; effect := e; subject_type := None; resource_type := None; actions := [];
     when_ := c; reason_admin := None; reason_user := None; acr_values := [] |}.

Definition sample_permit : Rule := sample_rule "staff" Permit (Some (Group "staff")).
Definition sample_deny : Rule := sample_rule "guests" Deny (Some (Group "guest")).
Definition sample_person : EvaluationRequest :=
  sample_request "user" ["staff"%string] [] (Context.new []).

Lemma permit_order_independent_witness :
  permit (evaluate (mkRuleSet (IpNet := nat) [sample_permit; sample_deny] []) sample_person) =
  permit (evaluate (mkRuleSet (IpNet := nat) [sample_deny; sample_permit] []) sample_person).
Proof.
  apply permit_order_independent. cbn. apply perm_swap.
Defined.

(** ** What the caller writes *)

(** Conditions that read no property bag. *)
Fixpoint attribute_free (c : Condition) : bool :=
  match c with
  | All l | Any l => forallb attribute_free l
  | Not c => attribute_free c
  | Attribute _ _ _ => false
  | _ => true
  end.

(** Two requests that differ at most in the property bags a caller supplies. *)
Definition same_facts (a b : EvaluationRequest) : Prop :=
  sub_kind (subject a) = sub_kind (subject b) /\ sub_id (subject a) = sub_id (subject b) /\
  sub_groups (subject a) = sub_groups (subject b) /\
  sub_roles (subject a) = sub_roles (subject b) /\
  sub_grants (subject a) = sub_grants (subject b) /\
  act_name (action a) = act_name (action b) /\
  res_kind (resource a) = res_kind (resource b) /\ res_id (resource a) = res_id (resource b) /\
  trusted (context a) = trusted (context b) /\ acr (context a) = acr (context b) /\
  ladder (context a) = ladder (context b).

Lemma forallb_ext_Forall {A} (f g : A -> bool) l :
  Forall (fun x => f x = g x) l -> forallb f l = forallb g l.
Proof. induction 1 as [|x l E _ IH]; cbn; congruence. Qed.

Lemma existsb_ext_Forall {A} (f g : A -> bool) l :
  Forall (fun x => f x = g x) l -> existsb f l = existsb g l.
Proof. induction 1 as [|x l E _ IH]; cbn; congruence. Qed.

Lemma Forall_forallb_mp {A} (p : A -> bool) (Q : A -> Prop) l :
  Forall (fun x => p x = true -> Q x) l -> forallb p l = true -> Forall Q l.
Proof.
  induction 1 as [|x l Hx _ IH]; cbn; [constructor|].
  intros [? ?]%andb_true_iff. constructor; auto.
Qed.

Lemma grant_matches_same m g a b : same_facts a b -> grant_matches m g a = grant_matches m g b.
Proof.
  intros (_ & _ & _ & _ & _ & _ & _ & Hid & _). unfold grant_matches. by rewrite Hid.
Qed.

Lemma holds_same c a b :
  same_facts a b -> attribute_free c = true -> holds c a = holds c b.
Proof.
  intros Hs. induction c as [l IH|l IH|c IH|src n t|n|o n|m|r|pr] using Condition_ind';
    cbn [attribute_free holds]; intros Hf; try done.
  - by apply forallb_ext_Forall, (Forall_forallb_mp attribute_free).
  - by apply existsb_ext_Forall, (Forall_forallb_mp attribute_free).
  - by rewrite IH.
  - destruct Hs as (_ & _ & -> & _). done.
  - destruct Hs as (_ & _ & _ & Hr & _). destruct o as [[|]|]; cbn; by rewrite Hr.
  - pose proof Hs as (_ & _ & _ & _ & Hg & _). rewrite Hg. apply existsb_ext_Forall.
    apply Forall_true. intros g. by apply grant_matches_same.
  - destruct Hs as (_ & _ & _ & _ & _ & _ & _ & _ & Ht & Ha & Hl).
    unfold Context.acr_at_least, Context.assurance_agrees. by rewrite Ht, Ha, Hl.
  - destruct Hs as (_ & _ & _ & _ & _ & _ & _ & _ & Ht & _). by rewrite Ht.
Qed.

Lemma matches_same r a b :
  same_facts a b -> is_none_or attribute_free (when_ r) = true -> matches r a = matches r b.
Proof.
  intros Hs Hf. unfold matches.
  pose proof Hs as (Hk & _ & _ & _ & _ & Ha & Hr & _). rewrite Hk, Ha, Hr.
  destruct (when_ r) as [c|]; [|done]. cbn [is_none_or] in *. by rewrite (holds_same c a b).
Qed.

(** A policy without [attribute] conditions gives the same decision whatever the
    caller puts in the four property bags. *)
Theorem decision_ignores_properties {IpNet} (s : RuleSet IpNet) (a b : EvaluationRequest) :
  same_facts a b ->
  forallb (fun r => is_none_or attribute_free (when_ r)) (rules s) = true ->
  evaluate s a = evaluate s b.
Proof.
  intros Hs Hf. unfold evaluate. generalize (@None Rule).
  induction (rules s) as [|r rs IH]; intros p; cbn; [done|].
  cbn in Hf. apply andb_true_iff in Hf as [Hr Hrs].
  rewrite (matches_same r a b) by done. rewrite !IH by done. done.
Qed.

Lemma decision_ignores_properties_witness :
  evaluate (mkRuleSet (IpNet := nat) [sample_deny; sample_permit] []) sample_person =
  evaluate (mkRuleSet (IpNet := nat) [sample_deny; sample_permit] [])
    (sample_request "user" ["staff"%string] [("role", VString "admin")]%string (Context.new [])).
Proof.
  apply decision_ignores_properties; [by split_and!|vm_compute; reflexivity].
Defined.

(** ** Explanations *)

(** [concat] of an enumerated map. *)
Definition flat_mapi {A B} (f : nat -> A -> list B) : nat -> list A -> list B :=
  fix go (i : nat) (l : list A) : list B :=
    match l with [] => [] | x :: r => f i x ++ go (S i) r end.

(** The reference: every node of a condition, parents first, unbounded. *)
Fixpoint entries (c : Condition) (req : EvaluationRequest) (path : string)
    : list ConditionExplanation :=
  {| ce_path := path; ce_kind := fst (kind_missing c req); ce_matched := holds c req;
     ce_missing := snd (kind_missing c req) |} ::
  match c with
  | All children | Any children =>
      flat_mapi (fun i child => entries child req (path +:+ "." +:+ pretty i)) 0%nat children
  | Not child => entries child req (path +:+ ".0")
  | _ => []
  end.

Lemma flat_mapi_length (f : nat -> Condition -> list ConditionExplanation) l i :
  Forall (fun c => forall i, length (f i c) = condition_nodes c) l ->
  length (flat_mapi f i l) = fold_right (fun c n => condition_nodes c + n)%nat 0%nat l.
Proof.
  intros Hl. revert i. induction Hl as [|c l Hc _ IH]; intros i; cbn; [done|].
  by rewrite length_app, Hc, IH.
Qed.

Lemma entries_length c req path : length (entries c req path) = condition_nodes c.
Proof.
  revert path. induction c as [l IH|l IH|c IH| | | | | |] using Condition_ind';
    intros path; cbn; try done; f_equal; try apply IH;
    apply flat_mapi_length; (eapply Forall_impl; [exact IH|]); cbn; auto.
Qed.

(** What a traversal that appends [es] leaves of the state. *)
Definition emitted (st : TraceState) (es : list ConditionExplanation) : TraceState :=
  {| ts_out := ts_out st ++ take (ts_remaining st) es;
     ts_remaining := ts_remaining st - length es;
     ts_truncated := ts_truncated st || (ts_remaining st <? length es)%nat |}.

Lemma emitted_nil st : emitted st [] = st.
Proof.
  destruct st as [out n t]. unfold emitted. cbn. rewrite take_nil, app_nil_r, Nat.sub_0_r.
  by rewrite orb_false_r.
Qed.

Lemma emitted_app st es fs : emitted (emitted st es) fs = emitted st (es ++ fs).
Proof.
  destruct st as [out n t]. unfold emitted. cbn [ts_out ts_remaining ts_truncated].
  rewrite length_app, <- app_assoc, take_app.
  f_equal; [lia|]. rewrite <- orb_assoc. f_equal.
  destruct (Nat.ltb_spec n (length es)), (Nat.ltb_spec (n - length es) (length fs)),
    (Nat.ltb_spec n (length es + length fs)); cbn; try done; lia.
Qed.

Definition trace_emits (req : EvaluationRequest) (c : Condition) : Prop :=
  forall path st, trace c req path st = emitted st (entries c req path).

Lemma trace_children req (path : nat -> string) l i st :
  Forall (trace_emits req) l ->
  foldi (fun index child st => trace child req (path index) st) i l st =
  emitted st (flat_mapi (fun i child => entries child req (path i)) i l).
Proof.
  intros Hl. revert i st. induction Hl as [|c l Hc _ IH]; intros i st; cbn.
  - by rewrite emitted_nil.
  - by rewrite IH, Hc, emitted_app.
Qed.

Lemma emitted_cons out n t e es :
  emitted {| ts_out := out; ts_remaining := S n; ts_truncated := t |} (e :: es) =
  emitted {| ts_out := out ++ [e]; ts_remaining := n; ts_truncated := t |} es.
Proof. unfold emitted. cbn. by rewrite <- app_assoc. Qed.

Lemma trace_spec req c : trace_emits req c.
Proof.
  induction c as [l IH|l IH|c IH| | | | | |] using Condition_ind'; intros path st;
    destruct st as [out [|rem] tr].
  all: try (cbn; unfold emitted; cbn; by rewrite app_nil_r, orb_true_r).
  all: cbn [entries]; rewrite emitted_cons; cbn [trace ts_remaining ts_out ts_truncated].
  - by apply (trace_children req (fun i => path +:+ "." +:+ pretty i)).
  - by apply (trace_children req (fun i => path +:+ "." +:+ pretty i)).
  - apply IH.
  - by rewrite emitted_nil.
  - by rewrite emitted_nil.
  - by rewrite emitted_nil.
  - by rewrite emitted_nil.
  - by rewrite emitted_nil.
  - by rewrite emitted_nil.
Qed.

Definition rule_entries (req : EvaluationRequest) (r : Rule) : list ConditionExplanation :=
  match when_ r with
  | Some c => if rule_applicable r req then entries c req "when" else []
  | None => []
  end.

Definition all_entries (req : EvaluationRequest) (rs : list Rule) : list ConditionExplanation :=
  concat (map (rule_entries req) rs).

(** The parts of a rule's explanation that no truncation touches. *)
Definition verdict_of (req : EvaluationRequest) (r : Rule) : string * string * bool * bool :=
  (rule_id r, Effect.as_str (effect r), rule_applicable r req, matches r req).
Definition verdict (e : RuleExplanation) : string * string * bool * bool :=
  (re_id e, re_effect e, re_applicable e, re_matched e).

Lemma explain_rules_spec req rs out n t out' n' t' :
  fold_left (fun acc rule => explain_rule req rule acc) rs (out, n, t) = (out', n', t') ->
  map verdict out' = map verdict out ++ map (verdict_of req) rs /\
  concat (map re_conditions out') =
    concat (map re_conditions out) ++ take n (all_entries req rs) /\
  t' = t || (n <? length (all_entries req rs))%nat.
Proof.
  revert out n t. induction rs as [|r rs IH]; intros out n t; cbn [fold_left].
  - intros [= <- <- <-]. unfold all_entries. cbn. by rewrite take_nil, !app_nil_r, orb_false_r.
  - unfold explain_rule at 2.
    assert (match when_ r with
            | Some c => if rule_applicable r req
                        then trace c req "when" {| ts_out := []; ts_remaining := n; ts_truncated := t |}
                        else {| ts_out := []; ts_remaining := n; ts_truncated := t |}
            | None => {| ts_out := []; ts_remaining := n; ts_truncated := t |}
            end = emitted {| ts_out := []; ts_remaining := n; ts_truncated := t |} (rule_entries req r))
      as ->.
    { unfold rule_entries. destruct (when_ r) as [c|], (rule_applicable r req);
        by rewrite ?trace_spec, ?emitted_nil. }
    intros (Hv & Hc & Ht)%IH. unfold all_entries in *. cbn [map concat].
    rewrite Hv, Hc, Ht. unfold emitted. cbn [ts_out ts_remaining ts_truncated].
    rewrite !map_app, concat_app, length_app, take_app. cbn -[Nat.ltb]. rewrite app_nil_r, <- !app_assoc.
    split_and!; [done|done|]. rewrite <- orb_assoc. f_equal.
    set (k := length (concat (map (rule_entries req) rs))).
    destruct (Nat.ltb_spec n (length (rule_entries req r))),
      (Nat.ltb_spec (n - length (rule_entries req r)) k),
      (Nat.ltb_spec n (length (rule_entries req r) + k)); cbn; try done; lia.
Qed.

(** The explanation names every rule with its verdict whatever is cut; its entries
    are the first [MAX_TRACE_NODES] of the full traversal, and it says whether
    anything was cut. *)
Theorem explanation_is_bounded_trace {IpNet} (hex : string -> string) (text : value -> string)
    (mode_json : EnforcementMode -> value) (fact_json : FactName -> value)
    (net_json : IpNet -> value) (p : StoredPolicy (IpNet := IpNet)) (req : EvaluationRequest)
    (point : string) :
  let e := explain hex text mode_json fact_json net_json (Some p) req point in
  let all := all_entries req (rules (sp_rules p)) in
  map verdict (de_rules e) = map (verdict_of req) (rules (sp_rules p)) /\
  concat (map re_conditions (de_rules e)) = take MAX_TRACE_NODES all /\
  (length (concat (map re_conditions (de_rules e))) <= MAX_TRACE_NODES)%nat /\
  (de_truncated e = true <-> (MAX_TRACE_NODES < length all)%nat).
Proof.
  cbv zeta. unfold explain.
  destruct (fold_left _ _ _) as [[out n] t] eqn:E.
  apply explain_rules_spec in E as (Hv & Hc & Ht). cbn [de_rules de_truncated].
  rewrite Hv, Hc, Ht. cbn [map concat app orb]. split_and!; [done|done| |apply Nat.ltb_lt].
  rewrite length_take. lia.
Qed.

(** Where an entry's path may point: positions below [when], nothing else. *)
Definition position_path (root : string) (l : list nat) : string :=
  fold_left (fun p i => p +:+ "." +:+ pretty i) l root.

Definition kinds : list string :=
  ["all"; "any"; "not"; "attribute"; "trusted_fact"; "group"; "role"; "grant"; "acr_at_least"].

Definition discloses_nothing (root : string) (e : ConditionExplanation) : Prop :=
  In (ce_kind e) kinds /\ exists l, ce_path e = position_path root l.

Lemma discloses_child root (i : nat) e :
  discloses_nothing (root +:+ "." +:+ pretty i) e -> discloses_nothing root e.
Proof. intros [Hk [l Hl]]. split; [done|]. by exists (i :: l). Qed.

Lemma flat_mapi_Forall {A B} (f : nat -> A -> list B) (P : B -> Prop) l i :
  Forall (fun x => forall i, Forall P (f i x)) l -> Forall P (flat_mapi f i l).
Proof.
  intros Hl. revert i. induction Hl as [|x l Hx _ IH]; intros i; cbn; [constructor|].
  apply Forall_app. split; [apply Hx|apply IH].
Qed.

Lemma entries_disclose c req root : Forall (discloses_nothing root) (entries c req root).
Proof.
  revert root. induction c as [l IH|l IH|c IH| | | | | |] using Condition_ind'; intros root;
    cbn [entries]; (constructor; [split; [vm_compute; tauto|by exists []]|]); try constructor.
  1-2: apply flat_mapi_Forall; (eapply Forall_impl; [exact IH|]); cbn; intros c Hc i;
    (eapply Forall_impl; [apply Hc|]); intros e; apply discloses_child.
  eapply Forall_impl; [apply IH|]. intros e He. by apply (discloses_child root 0%nat).
Qed.

(** No entry of an explanation carries anything of the request or of the policy
    beyond the kind of a condition and its position. *)
Theorem explanation_discloses_positions_only {IpNet} (hex : string -> string)
    (text : value -> string) (mode_json : EnforcementMode -> value) (fact_json : FactName -> value)
    (net_json : IpNet -> value) (p : option (StoredPolicy (IpNet := IpNet)))
    (req : EvaluationRequest) (point : string) :
  Forall (fun r => Forall (discloses_nothing "when") (re_conditions r))
    (de_rules (explain hex text mode_json fact_json net_json p req point)).
Proof.
  destruct p as [p|]; [|constructor]. unfold explain.
  destruct (fold_left _ _ _) as [[out n] t] eqn:E.
  apply explain_rules_spec in E as (_ & Hc & _). cbn [de_rules map concat app] in *.
  assert (Forall (discloses_nothing "when") (concat (map re_conditions out))) as Hall.
  { rewrite Hc. apply Forall_take. unfold all_entries. clear Hc.
    induction (rules (sp_rules p)) as [|r rs IH]; cbn; [constructor|].
    apply Forall_app. split; [|done]. unfold rule_entries.
    destruct (when_ r), (rule_applicable r req); try constructor. apply entries_disclose. }
  clear Hc. induction out as [|r out IH]; [constructor|]. cbn in Hall.
  apply Forall_app in Hall as [? ?]. constructor; [done|by apply IH].
Qed.

(** The engine's decision is the store's document applied to the request; a
    failing store is an error and an explanation changes nothing but itself. *)
Theorem engine_decides_by_stored_policy {IpNet DomainError} (hex : string -> string)
    (text : value -> string) (mode_json : EnforcementMode -> value) (fact_json : FactName -> value)
    (net_json : IpNet -> value)
    (engine : DeclarativeEngine (IpNet := IpNet) (DomainError := DomainError))
    (tenant : TenantId) (req : EvaluationRequest) :
  match load engine tenant with
  | Err e => engine_evaluate hex text mode_json fact_json net_json engine tenant req = Err e
  | Ok stored => exists d,
      engine_evaluate hex text mode_json fact_json net_json engine tenant req = Ok d /\
      permit d = is_some_and (fun p => permit (evaluate (sp_rules p) req)) stored /\
      decision_context d = decision_context (evaluate_stored stored req) /\
      (explanation d = None <-> explanation_point engine = None)
  end.
Proof.
  unfold engine_evaluate. destruct (load engine tenant) as [stored|e]; [|done]. cbn [rbind].
  eexists. split; [done|].
  assert (forall rs p, explanation (evaluate_rules rs req p) = None) as Hn.
  { induction rs as [|r rs IH]; intros p; cbn; [by destruct p|].
    destruct (negb _); [apply IH|]. destruct (effect r); [apply IH|done]. }
  destruct (explanation_point engine); cbn; destruct stored as [p|]; cbn; try done.
  split_and!; try done. unfold evaluate. by rewrite Hn.
Qed.
