(* ===== verification/PolicyConditional.v ===== *)
(** * Conditional access scopes

    The operations of [ConditionalScope] in
    [crates/domain/src/policy/conditional.rs]: which facts a scope requires, when
    it applies, its fail-closed evaluation and its assurance remedy. *)

From S2P Require Import Prelude BTree Json Session Acr Roles Grants PolicyRequest PolicyDocument.
From S2P Require Import PolicyDocumentLaws PolicyRuleSet PolicyEngine PolicyEngineLaws.

(** [referenced]: the facts a condition reads, inserted in [required]. *)
Fixpoint referenced (c : Condition) (required : list FactName) : list FactName :=
  match c with
  | All children | Any children =>
      fold_left (fun required child => referenced child required) children required
  | Not child => referenced child required
  | Trusted predicate => bset_insert (TrustedPredicate.fact predicate) required
  | AcrAtLeast _ => bset_insert Assurance required
  | Group _ => bset_insert Groups required
  | Role _ _ => bset_insert Roles required
  | GrantCond _ => bset_insert PolicyRequest.Grants required
  | Attribute _ _ _ => required
  end.

Section Scopes.
Context {IpNet : Type}.
Abbreviation ConditionalScope := (ConditionalScope IpNet).

Definition referenced_by (rule : Rule) (required : list FactName) : list FactName :=
  match when_ rule with
  | Some condition => referenced condition required
  | None => required
  end.

Definition required (s : ConditionalScope) : list FactName :=
  fold_left (fun required rule => referenced_by rule required)
    (rules (scope_rules s)) (scope_required_facts s).

Definition required_for (s : ConditionalScope) (req : EvaluationRequest) : list FactName :=
  fold_left (fun required rule => referenced_by rule required)
    (List.filter (fun rule => rule_applicable rule req) (rules (scope_rules s)))
    (scope_required_facts s).

Definition applies (s : ConditionalScope) (client : ClientId) (action : string) : bool :=
  bset_mem client (scope_clients s) && bset_mem action (scope_actions s).

Definition is_known (t : TrustedAccessContext) (name : FactName) : bool :=
  bool_decide (TrustedAccessContext.availability t name = Known).

(** [ConditionalScope::evaluate]. *)
Definition scope_evaluate (s : ConditionalScope) (req : EvaluationRequest) : Decision :=
  match trusted (context req) with
  | None => Decision.default_deny "conditional transaction evidence absent"
  | Some t =>
      if is_some_and (fun sub => negb (String.eqb sub (sub_id (subject req)))) (t_subject t)
         || negb (applies s (t_client t) (t_action t))
         || existsb (fun name => negb (is_known t name)) (required_for s req)
      then Decision.default_deny "conditional required facts unavailable"
      else evaluate (scope_rules s) req
  end.

(** The snapshot a fresh authentication at [target] would give. *)
Definition hypothetical (t : TrustedAccessContext) (target : string) : TrustedAccessContext :=
  let now := evaluated_at t in
  let expires := (now + seconds 1)%Z in
  {| t_tenant := t_tenant t; t_subject := t_subject t; t_client := t_client t;
     t_action := t_action t; evaluated_at := evaluated_at t;
     policy_revision := policy_revision t; acr_revision := acr_revision t;
     client_revision := client_revision t;
     facts := binsert AuthenticationAge
                (Fact.known (FAuthenticationTime now) "hypothetical_authentication" now expires)
                (binsert Assurance
                  (Fact.known (FText target) "hypothetical_authentication" now expires)
                  (facts t)) |}.

Definition candidate (req : EvaluationRequest) (t : TrustedAccessContext) (target : string)
    (acrs : AcrPolicy) : EvaluationRequest :=
  {| subject := subject req; action := action req; resource := resource req;
     context := Context.with_trusted
                  (Context.with_acr (context req) (Some target) (map lvl_value (levels acrs)))
                  (hypothetical t target) |}.

Definition reauthentication_fact (name : FactName) : bool :=
  match name with Assurance | AuthenticationAge => true | _ => false end.

(** [ConditionalScope::remedy]. *)
Definition remedy (s : ConditionalScope) (req : EvaluationRequest) (acrs : AcrPolicy)
    : option string :=
  if permit (scope_evaluate s req) then None
  else
    target ← scope_assurance_remedy s;
    if negb (AcrPolicy.can_produce acrs target) then None
    else
      t ← trusted (context req);
      if match t_subject t with None => true | Some _ => false end
         || negb (applies s (t_client t) (t_action t)) then None
      else
        let required := required_for s req in
        if negb (bset_mem Assurance required) && negb (bset_mem AuthenticationAge required)
        then None
        else if existsb (fun name => negb (reauthentication_fact name) && negb (is_known t name))
                  required
        then None
        else if permit (scope_evaluate s (candidate req t target acrs)) then Some target
        else None.

(** ** Which facts are required *)

(** The fact a condition reads itself. *)
Definition reads (c : Condition) : option FactName :=
  match c with
  | Trusted p => Some (TrustedPredicate.fact p)
  | AcrAtLeast _ => Some Assurance
  | Group _ => Some Groups
  | Role _ _ => Some Roles
  | GrantCond _ => Some PolicyRequest.Grants
  | _ => None
  end.

Definition mentions (c : Condition) (n : FactName) : Prop :=
  exists d, part_of d c /\ reads d = Some n.

Lemma In_fold_referenced {A} (f : A -> list FactName -> list FactName)
    (P : A -> FactName -> Prop) l acc n :
  (forall x acc, In x l -> In n (f x acc) <-> In n acc \/ P x n) ->
  In n (fold_left (fun acc x => f x acc) l acc) <-> In n acc \/ exists x, In x l /\ P x n.
Proof.
  revert acc. induction l as [|x l IH]; intros acc Hf; cbn; [naive_solver|].
  rewrite IH by (intros; apply Hf; by right). rewrite Hf by by left. naive_solver.
Qed.

Lemma mentions_leaf c n :
  (forall d, part_of d c -> d = c) -> mentions c n <-> reads c = Some n.
Proof.
  intros Hl. split; [by intros (d & ->%Hl & ?)|]. intros Hr. exists c. by split; [constructor|].
Qed.

Lemma mentions_children l n :
  (mentions (All l) n <-> exists x, In x l /\ mentions x n) /\
  (mentions (Any l) n <-> exists x, In x l /\ mentions x n).
Proof.
  split; split.
  1,3: intros (d & Hd & Hr); inversion Hd; subst; [done|]; eexists; split; [done|by exists d].
  all: intros (x & Hx & d & Hd & Hr); exists d; (split; [by econstructor|done]).
Qed.

Lemma In_referenced c acc n : In n (referenced c acc) <-> In n acc \/ mentions c n.
Proof.
  revert acc.
  induction c as [l IH|l IH|c IH|src name t|g|o name|m|r|p] using Condition_ind'; intros acc;
    cbn [referenced]; rewrite ?In_bset_insert.
  1-2: rewrite (In_fold_referenced referenced mentions), ?(proj1 (mentions_children l n)),
         ?(proj2 (mentions_children l n));
       [done|intros; rewrite <- In_Forall in IH; by apply IH].
  - rewrite IH. enough (mentions (Not c) n <-> mentions c n) as -> by done.
    split; intros (d & Hd & Hr).
    + inversion Hd; subst; [done|]. by exists d.
    + exists d. by split; [constructor|].
  - rewrite mentions_leaf by (by inversion 1). by intuition.
  - rewrite mentions_leaf by (by inversion 1). cbn. naive_solver.
  - rewrite mentions_leaf by (by inversion 1). cbn. naive_solver.
  - rewrite mentions_leaf by (by inversion 1). cbn. naive_solver.
  - rewrite mentions_leaf by (by inversion 1). cbn. naive_solver.
  - rewrite mentions_leaf by (by inversion 1). cbn. naive_solver.
Qed.

Lemma In_referenced_by rule acc n :
  In n (referenced_by rule acc) <-> In n acc \/ exists c, when_ rule = Some c /\ mentions c n.
Proof.
  unfold referenced_by. destruct (when_ rule) as [c|]; [rewrite In_referenced|]; naive_solver.
Qed.

(** A scope requires of a request the facts it lists and those that the rules
    whose selectors admit the request read. *)
Lemma In_required_for s req n :
  In n (required_for s req) <->
  In n (scope_required_facts s) \/
  exists r c, In r (rules (scope_rules s)) /\ rule_applicable r req = true /\
    when_ r = Some c /\ mentions c n.
Proof.
  unfold required_for.
  rewrite (In_fold_referenced referenced_by
    (fun r n => exists c, when_ r = Some c /\ mentions c n));
    [|intros; apply In_referenced_by].
  setoid_rewrite filter_In. naive_solver.
Qed.

Lemma known_iff t (l : list FactName) :
  existsb (fun name => negb (is_known t name)) l = false <->
  forall n, In n l -> TrustedAccessContext.availability t n = Known.
Proof.
  rewrite <- not_true_iff_false, existsb_exists. split.
  - intros H n Hn. destruct (is_known t n) eqn:E; [by unfold is_known in E; bool_hyps|].
    destruct H. exists n. by rewrite E.
  - intros H (n & Hn & Hk). unfold is_known in Hk. bool_hyps. by apply Hk, H.
Qed.

(** ** Theorems *)

(** The evidence a conditional permit stands on. *)
Definition grounded (s : ConditionalScope) (req : EvaluationRequest) (t : TrustedAccessContext)
    : Prop :=
  trusted (context req) = Some t /\
  (t_subject t = None \/ t_subject t = Some (sub_id (subject req))) /\
  In (t_client t) (scope_clients s) /\ In (t_action t) (scope_actions s) /\
  (forall n, In n (required_for s req) -> TrustedAccessContext.availability t n = Known).

Lemma applies_iff s client a :
  applies s client a = true <-> In client (scope_clients s) /\ In a (scope_actions s).
Proof. unfold applies. by rewrite andb_true_iff, !bset_mem_In. Qed.

(** A scope permits exactly when the request carries server evidence bound to its
    subject, for one of its clients and actions, every required fact is known,
    and its own rules permit. *)
Lemma scope_permit_iff s req :
  permit (scope_evaluate s req) = true <->
  (exists t, grounded s req t) /\ permit (evaluate (scope_rules s) req) = true.
Proof.
  unfold scope_evaluate, grounded. destruct (trusted (context req)) as [t|]; cbn.
  2:{ split; [done|]. by intros [(? & ? & _) _]. }
  destruct (_ || _ || _) eqn:E.
  - split; [done|]. intros [(t' & [= <-] & Hs & Hc & Ha & Hk) _].
    apply orb_true_iff in E as [E|E]; [apply orb_true_iff in E as [E|E]|].
    + destruct Hs as [Hs|Hs]; rewrite Hs in E; [done|]. cbn in E. by rewrite String.eqb_refl in E.
    + apply negb_true_iff, not_true_iff_false in E. by destruct E; apply applies_iff.
    + by rewrite (proj2 (known_iff _ _)) in E.
  - bool_hyps. split; [|by intros [_ ?]]. intros Hp. split; [|done].
    exists t. split; [done|]. split.
    { destruct (t_subject t) as [sub|]; [|by left]. right. cbn in *. bool_hyps. by subst. }
    match goal with Ha : applies _ _ _ = true |- _ => apply applies_iff in Ha as [??] end.
    split_and!; [done|done|]. by apply known_iff.
Qed.

(** C1: No fact the policy asks about can be absent, stale, unavailable or invalid in
    a permitted transaction: not one the scope lists, nor one read anywhere, under
    [not] included, in a rule that is about the request. *)
Theorem conditional_permit_is_grounded s req :
  permit (scope_evaluate s req) = true ->
  exists t, trusted (context req) = Some t /\
    (t_subject t = None \/ t_subject t = Some (sub_id (subject req))) /\
    In (t_client t) (scope_clients s) /\ In (t_action t) (scope_actions s) /\
    (forall n, In n (scope_required_facts s) -> TrustedAccessContext.availability t n = Known) /\
    (forall r c d n, In r (rules (scope_rules s)) -> matches r req = true ->
       when_ r = Some c -> part_of d c -> reads d = Some n ->
       TrustedAccessContext.availability t n = Known) /\
    permit (evaluate (scope_rules s) req) = true.
Proof.
  rewrite scope_permit_iff. intros [(t & Ht & Hs & Hc & Ha & Hk) Hp].
  exists t. split_and!; try done.
  - intros n Hn. apply Hk, In_required_for. by left.
  - intros r c d n Hr Hm Hw Hd Hn. apply Hk, In_required_for. right.
    exists r, c. split_and!; [done| |done|by exists d].
    unfold matches in Hm. unfold rule_applicable.
    destruct (subject_type r) as [k|], (resource_type r) as [k'|]; cbn in *;
      repeat match goal with
      | H : context [negb (String.eqb ?a ?b)] |- _ => destruct (String.eqb a b); cbn in *; try done
      end; destruct (HeldRoles.is_nil (actions r)), (bset_mem _ (actions r)); done.
Qed.

(** A remedy is offered only with a denial, to the authenticated subject of the
    evidence, when re-authentication is what the scope asks for, nothing else it
    requires is missing, and its own evaluation of a fresh authentication at the
    offered level permits. *)
Theorem remedy_sound s req acrs target :
  remedy s req acrs = Some target ->
  permit (scope_evaluate s req) = false /\
  scope_assurance_remedy s = Some target /\ AcrPolicy.can_produce acrs target = true /\
  exists t, trusted (context req) = Some t /\ t_subject t = Some (sub_id (subject req)) /\
    In (t_client t) (scope_clients s) /\ In (t_action t) (scope_actions s) /\
    (In Assurance (required_for s req) \/ In AuthenticationAge (required_for s req)) /\
    (forall n, In n (required_for s req) ->
       n = Assurance \/ n = AuthenticationAge \/ TrustedAccessContext.availability t n = Known) /\
    permit (scope_evaluate s (candidate req t target acrs)) = true.
Proof.
  unfold remedy. destruct (permit (scope_evaluate s req)); [done|].
  destruct (scope_assurance_remedy s) as [x|]; [cbn [mbind option_bind]|done].
  destruct (AcrPolicy.can_produce acrs x) eqn:Hcan; [cbn [negb]|done].
  destruct (trusted (context req)) as [t|] eqn:Ht; [cbn [mbind option_bind]|done].
  destruct (t_subject t) as [sub|] eqn:Hsub; [cbn [orb]|done].
  destruct (applies s _ _) eqn:Happ; [cbn [negb]|done].
  destruct (negb _ && negb _) eqn:Hreq; [done|].
  destruct (existsb _ _) eqn:Hk; [done|].
  destruct (permit (scope_evaluate s (candidate req t x acrs))) eqn:Hp; [|done].
  intros [= <-]. apply applies_iff in Happ as [Hc Ha].
  split_and!; try done. exists t. split_and!; try done.
  - apply scope_permit_iff in Hp as [(t' & [= <-] & Hs & _) _]. cbn in Hs.
    rewrite Hsub in *. by destruct Hs.
  - apply andb_false_iff in Hreq as [H|H]; apply negb_false_iff, bset_mem_In in H; auto.
  - intros n Hn. destruct (reauthentication_fact n) eqn:Er.
    { destruct n; (done || auto). }
    right; right. destruct (is_known t n) eqn:E; [by unfold is_known in E; bool_hyps|].
    apply not_true_iff_false in Hk. destruct Hk. apply existsb_exists. exists n. by rewrite Er, E.
Qed.

(** Of the scopes of an accepted policy, at most one applies to a client and an
    action: which scope decides does not depend on their order. *)
Theorem at_most_one_scope_applies `{!Ord IpNet} (encoded_len : value -> option Z)
    (wire_of_value : value -> option (Wire (IpNet := IpNet))) (doc : value) (set : RuleSet IpNet)
    (a b : ConditionalScope) (client : ClientId) (act : string) :
  from_json encoded_len wire_of_value doc = Ok set ->
  In a (conditional_scopes set) -> In b (conditional_scopes set) ->
  applies a client act = true -> applies b client act = true -> a = b.
Proof.
  intros Hwf%from_json_wf Ha Hb [Hac Haa]%applies_iff [Hbc Hba]%applies_iff.
  apply set_separated in Hwf.
  apply list_elem_of_In, list_elem_of_lookup in Ha as [i Hi], Hb as [j Hj].
  assert (forall i j x y, (i < j)%nat -> conditional_scopes set !! i = Some x ->
            conditional_scopes set !! j = Some y -> In client (scope_clients x) ->
            In act (scope_actions x) -> In client (scope_clients y) ->
            In act (scope_actions y) -> False) as Hno.
  { intros i' j' x y Hij Hx Hy Hxc Hxa Hyc Hya. specialize (Hwf _ _ _ _ Hij Hx Hy).
    unfold scopes_overlap in Hwf. apply orb_false_iff in Hwf as [_ Hwf].
    apply andb_false_iff in Hwf as [H|H]; apply negb_false_iff in H;
      [apply (proj1 (bset_disjoint_spec (scope_clients x) _)) in Hyc
      |apply (proj1 (bset_disjoint_spec (scope_actions x) _)) in Hya]; done. }
  destruct (Nat.lt_trichotomy i j) as [Hij|[->|Hij]]; [exfalso; eauto| |exfalso; eauto].
  congruence.
Qed.
End Scopes.

(** ** A transaction in the sample policy's scope *)

Definition sample_trusted (zones : list string) (auth : Z) : TrustedAccessContext :=
  {| t_tenant := "acme"; t_subject := Some "u-1"; t_client := "billing"; t_action := "authorize";
     evaluated_at := 1000; policy_revision := "1"; acr_revision := "1"; client_revision := "1";
     facts := bmap_of_list
       [(NetworkZone, Fact.known (FNames zones) "edge" 900 2000);
        (AuthenticationAge, Fact.known (FAuthenticationTime auth) "session" 900 2000)] |}%string.

Definition sample_transaction (zones : list string) (auth : Z) : EvaluationRequest :=
  sample_request "user" [] [] (Context.with_trusted (Context.new []) (sample_trusted zones auth)).

Definition sample_scope : ConditionalScope nat :=
  match conditional_scopes sample_set with
  | s :: _ => s
  | [] => mkScope EnfActive "none" [] [] [] deny_all None []
  end.

Lemma conditional_permit_is_grounded_witness :
  permit (scope_evaluate sample_scope (sample_transaction ["office"%string] 0)) = true /\
  exists t, trusted (context (sample_transaction ["office"%string] 0)) = Some t /\
    In (t_client t) (scope_clients sample_scope).
Proof.
  split; [vm_compute; reflexivity|].
  destruct (conditional_permit_is_grounded sample_scope (sample_transaction ["office"%string] 0))
    as (t & Ht & _ & Hc & _); [vm_compute; reflexivity|].
  exists t. split; [exact Ht|exact Hc].
Defined.

Lemma at_most_one_scope_applies_witness :
  In sample_scope (conditional_scopes sample_set) /\
  applies sample_scope "billing" "authorize" = true /\ sample_scope = sample_scope.
Proof.
  assert (In sample_scope (conditional_scopes sample_set)) as Hin by (vm_compute; auto).
  assert (applies sample_scope "billing" "authorize" = true) as Ha by (vm_compute; reflexivity).
  split; [exact Hin|]. split; [exact Ha|].
  exact (at_most_one_scope_applies _ sample_wire sample_document sample_set
           sample_scope sample_scope "billing" "authorize" sample_accepted Hin Hin Ha Ha).
Defined.

(** A scope that wants an authentication less than an hour old, and its remedy. *)
Definition fresh_scope : ConditionalScope nat :=
  mkScope EnfActive "fresh" ["billing"%string] ["authorize"%string] []
    (mkRuleSet [sample_rule "fresh" Permit (Some (Trusted (PAuthenticationAgeAtMost 3600)))] [])
    (Some PASSKEY) [].

Definition fresh_ladder : AcrPolicy :=
  {| levels := [{| lvl_value := PASSKEY; lvl_methods := [Passkey] |}];
     amr_in_id_token := true |}.

Lemma remedy_sound_witness :
  remedy fresh_scope (sample_transaction ["office"%string] (- seconds 7200)) fresh_ladder
    = Some PASSKEY /\
  permit (scope_evaluate fresh_scope (sample_transaction ["office"%string] (- seconds 7200)))
    = false.
Proof.
  split; [vm_compute; reflexivity|].
  exact (proj1 (remedy_sound fresh_scope
    (sample_transaction ["office"%string] (- seconds 7200)) fresh_ladder PASSKEY
    ltac:(vm_compute; reflexivity))).
Defined.
