(* ===== verification/PolicySearch.v ===== *)
(** * Search candidates

    [crates/domain/src/policy/search.rs]: the action names and resource ids a
    search proposes for evaluation, bounded by [MAX_CANDIDATES]. *)

From S2P Require Import Prelude BTree Json Roles Grants PolicyRequest PolicyDocument PolicyEngine.
From S2P Require Import PolicyDocumentLaws PolicyEngineLaws PolicyConditional.

Definition MAX_CANDIDATES : nat := 1024.

Definition head_admits (head asked : option string) : bool :=
  match head, asked with
  | None, _ | _, None => true
  | Some head, Some asked => String.eqb head asked
  end.

(** [literals]: the source's explicit stack, its top first; the fuel is the number
    of nodes. *)
Fixpoint literals_from (fuel : nat) (pending : list Condition) (found : list string)
    : list string :=
  match fuel, pending with
  | S fuel, condition :: pending =>
      match condition with
      | All children | Any children => literals_from fuel (rev children ++ pending) found
      | Not child => literals_from fuel (child :: pending) found
      | GrantCond matched =>
          match gm_resource matched with
          | Some (Literal resource) => literals_from fuel pending (found ++ [resource])
          | _ => literals_from fuel pending found
          end
      | _ => literals_from fuel pending found
      end
  | _, _ => found
  end.

Definition literals (c : Condition) : list string := literals_from (condition_nodes c) [c] [].

Section Search.
Context {IpNet : Type}.
Abbreviation RuleSet := (RuleSet IpNet).

Definition applicable (s : RuleSet) (subject_type_ resource_type_ : option string) : list Rule :=
  List.filter (fun rule =>
      bool_decide (effect rule = Permit)
      && head_admits (subject_type rule) subject_type_
      && head_admits (resource_type rule) resource_type_) (rules s).

(** Insertion with the early [return candidates] as the [Err] outcome. *)
Definition capped_insert (a : string) (candidates : list string)
    : result (list string) (list string) :=
  if (MAX_CANDIDATES <=? length candidates)%nat then Err candidates
  else Ok (bset_insert a candidates).

Definition candidate_actions (s : RuleSet) (subject_type_ resource_type_ : string)
    : list string :=
  match try_fold (fun rule candidates => try_fold capped_insert (actions rule) candidates)
          (applicable s (Some subject_type_) (Some resource_type_)) [] with
  | Ok candidates | Err candidates => candidates
  end.

Definition add (v : string) (candidates : list string) : list string :=
  if (length candidates <? MAX_CANDIDATES)%nat then bset_insert v candidates else candidates.

Definition add_all (vs : list string) (candidates : list string) : list string :=
  fold_left (fun candidates v => add v candidates) vs candidates.

Definition candidate_resources (s : RuleSet) (grants : list ActiveGrant)
    (resource_type_ : string) : list string :=
  let candidates :=
    fold_left (fun candidates rule =>
        match when_ rule with
        | Some condition => add_all (literals condition) candidates
        | None => candidates
        end) (applicable s None (Some resource_type_)) [] in
  fold_left (fun candidates grant =>
      fold_left (fun candidates detail => add_all (d_locations detail) candidates)
        (ag_details grant) (add_all (ag_resources grant) candidates)) grants candidates.

(** ** The walk over a condition *)

(** A resource some grant condition inside [c] names literally. *)
Definition names_literal (c : Condition) (x : string) : Prop :=
  exists m, part_of (GrantCond m) c /\ gm_resource m = Some (Literal x).

Lemma names_literal_children l x :
  (names_literal (All l) x <-> exists c, In c l /\ names_literal c x) /\
  (names_literal (Any l) x <-> exists c, In c l /\ names_literal c x).
Proof.
  split; split.
  1,3: intros (m & Hd & Hr); inversion Hd; subst; eexists; (split; [done|by exists m]).
  all: intros (c & Hc & m & Hd & Hr); exists m; (split; [by econstructor|done]).
Qed.

Lemma names_literal_not c x : names_literal (Not c) x <-> names_literal c x.
Proof.
  split; intros (m & Hd & Hr); exists m; [by inversion Hd; subst|by split; [constructor|]].
Qed.

Lemma names_literal_leaf c x :
  (forall d, part_of d c -> d = c) ->
  names_literal c x <-> exists m, c = GrantCond m /\ gm_resource m = Some (Literal x).
Proof.
  intros Hl. split; [intros (m & <-%Hl & Hr); by exists m|].
  intros (m & -> & Hr). exists m. by split; [constructor|].
Qed.

Lemma literals_from_spec fuel pending found x :
  (nodes_of pending <= fuel)%nat ->
  In x (literals_from fuel pending found) <->
  In x found \/ exists c, In c pending /\ names_literal c x.
Proof.
  revert pending found. induction fuel as [|fuel IH]; intros [|c r] found Hf.
  1,3: cbn; naive_solver.
  { unfold nodes_of in Hf. cbn [fold_right] in Hf. pose proof (condition_nodes_pos c). lia. }
  assert ((exists d, In d (c :: r) /\ names_literal d x) <->
      names_literal c x \/ exists d, In d r /\ names_literal d x) as -> by
    (cbn; naive_solver).
  destruct c as [l|l|c|src name t|g|o name|m|a|p]; cbn [literals_from];
    unfold nodes_of in Hf; cbn [fold_right condition_nodes] in Hf; fold (nodes_of r) in Hf.
  1-2: rewrite IH by (rewrite nodes_of_app, nodes_of_rev; unfold nodes_of in *; lia);
    rewrite ?(proj1 (names_literal_children l x)), ?(proj2 (names_literal_children l x));
    setoid_rewrite in_app_iff; setoid_rewrite <- in_rev; naive_solver.
  - rewrite IH by (cbn; unfold nodes_of in *; lia). rewrite names_literal_not. cbn. naive_solver.
  - rewrite IH, names_literal_leaf by (lia || by inversion 1). naive_solver.
  - rewrite IH, names_literal_leaf by (lia || by inversion 1). naive_solver.
  - rewrite IH, names_literal_leaf by (lia || by inversion 1). naive_solver.
  - rewrite names_literal_leaf by (by inversion 1).
    destruct (gm_resource m) as [[raw|]|] eqn:Em; rewrite IH by lia;
      rewrite ?in_app_iff; cbn; naive_solver.
  - rewrite IH, names_literal_leaf by (lia || by inversion 1). naive_solver.
  - rewrite IH, names_literal_leaf by (lia || by inversion 1). naive_solver.
Qed.

(** [literals] finds the literal resources of a condition, all of them, however
    deeply they are nested. *)
Lemma literals_spec c x : In x (literals c) <-> names_literal c x.
Proof.
  unfold literals. rewrite literals_from_spec by (unfold nodes_of; cbn; lia). cbn. naive_solver.
Qed.

(** ** Candidate actions *)

Definition capped (l : list string) : Prop := bset_ok l /\ (length l <= MAX_CANDIDATES)%nat.

(** The two outcomes of a capped loop over the names of [l]: it ran to the end and
    holds all of them, or stopped full. *)
Definition collected (P : string -> Prop) (start : list string)
    (r : result (list string) (list string)) : Prop :=
  match r with
  | Ok c => capped c /\ forall x, In x c <-> In x start \/ P x
  | Err c => capped c /\ length c = MAX_CANDIDATES /\ forall x, In x c -> In x start \/ P x
  end.

Lemma capped_insert_collected a c : capped c -> collected (eq a) c (capped_insert a c).
Proof.
  intros [Hok Hlen]. unfold capped_insert. destruct (Nat.leb_spec MAX_CANDIDATES (length c)); cbn.
  - split_and!; [done|lia|naive_solver].
  - split; [split; [by apply bset_insert_ok|pose proof (bset_insert_length a c); lia]|].
    intros x. rewrite In_bset_insert. naive_solver.
Qed.

Lemma collected_fold {A} (f : A -> list string -> result (list string) (list string))
    (P : A -> string -> Prop) l c :
  (forall a c, capped c -> collected (P a) c (f a c)) -> capped c ->
  collected (fun x => exists a, In a l /\ P a x) c (try_fold f l c).
Proof.
  intros Hf. revert c. induction l as [|a l IH]; intros c Hc; cbn.
  - split; [done|]. naive_solver.
  - specialize (Hf a c Hc). destruct (f a c) as [c'|c']; cbn in *.
    + destruct Hf as [Hc' Hin]. specialize (IH c' Hc').
      destruct (try_fold f l c') as [d|d]; cbn in *.
      * destruct IH as [Hd IH]. split; [done|]. intros x. rewrite IH, Hin. naive_solver.
      * destruct IH as (Hd & Hl & IH). split_and!; [done..|]. intros x Hx%IH.
        rewrite Hin in Hx. naive_solver.
    + destruct Hf as (Hc' & Hl & Hin). split_and!; [done..|]. intros x Hx%Hin. naive_solver.
Qed.

Lemma capped_nil : capped [].
Proof. split; [constructor|cbn; lia]. Qed.

Lemma In_applicable s st rt r :
  In r (applicable s st rt) <->
  In r (rules s) /\ effect r = Permit /\ head_admits (subject_type r) st = true /\
  head_admits (resource_type r) rt = true.
Proof.
  unfold applicable. rewrite filter_In, !andb_true_iff, bool_decide_eq_true. tauto.
Qed.

Lemma candidate_actions_spec s st rt :
  capped (candidate_actions s st rt) /\
  (forall a, In a (candidate_actions s st rt) ->
     exists r, In r (applicable s (Some st) (Some rt)) /\ In a (actions r)) /\
  ((length (candidate_actions s st rt) < MAX_CANDIDATES)%nat ->
   forall r a, In r (applicable s (Some st) (Some rt)) -> In a (actions r) ->
     In a (candidate_actions s st rt)).
Proof.
  pose proof (collected_fold (fun rule c => try_fold capped_insert (actions rule) c)
    (fun r x => exists a, In a (actions r) /\ a = x)
    (applicable s (Some st) (Some rt)) []) as H.
  unfold candidate_actions. specialize (H ltac:(intros; by apply collected_fold;
    [apply capped_insert_collected|]) capped_nil).
  destruct (try_fold _ _ _) as [c|c]; cbn in H.
  - destruct H as [Hc Hin]. split_and!; [done| |]; [intros a; rewrite Hin; naive_solver|].
    intros _ r a Hr Ha. apply Hin. naive_solver.
  - destruct H as (Hc & Hl & Hin). split_and!; [done| |lia].
    intros a Ha%Hin. naive_solver.
Qed.

Lemma matches_heads r req :
  matches r req = true ->
  head_admits (subject_type r) (Some (sub_kind (subject req))) = true /\
  head_admits (resource_type r) (Some (res_kind (resource req))) = true /\
  (actions r = [] \/ In (act_name (action req)) (actions r)).
Proof.
  unfold matches. intros Hm.
  destruct (subject_type r), (resource_type r); cbn in *;
    repeat match goal with
    | H : context [negb (String.eqb ?a ?b)] |- _ => destruct (String.eqb a b); cbn in *; try done
    end;
    (split_and!; [done|done|]);
    destruct (bset_mem _ (actions r)) eqn:E; try (right; by apply bset_mem_In);
    destruct (actions r); first [by left|done].
Qed.

(** Searching actions proposes at most [MAX_CANDIDATES] names, each written in a
    permit rule; and, when the cap was not reached, every permit rule that matches
    a request leaves its action open or has it among the proposals. *)
Theorem action_search_complete s (req : EvaluationRequest) :
  let found := candidate_actions s (sub_kind (subject req)) (res_kind (resource req)) in
  (length found <= MAX_CANDIDATES)%nat /\
  (forall a, In a found ->
     exists r, In r (rules s) /\ effect r = Permit /\ In a (actions r)) /\
  ((length found < MAX_CANDIDATES)%nat ->
   forall r, In r (rules s) -> effect r = Permit -> matches r req = true ->
     actions r = [] \/ In (act_name (action req)) found).
Proof.
  cbv zeta.
  destruct (candidate_actions_spec s (sub_kind (subject req)) (res_kind (resource req)))
    as ([_ Hlen] & Hsound & Hall).
  split_and!; [done| |].
  - intros a (r & (? & ? & _)%In_applicable & Ha)%Hsound. by exists r.
  - intros Hlt r Hr He Hm. apply matches_heads in Hm as (Hs & Hrt & [Ha|Ha]); [by left|].
    right. apply (Hall Hlt r); [|done]. by apply In_applicable.
Qed.

(** ** Candidate resources *)

(** A capped accumulation that cannot fail: it keeps what it has, adds nothing of
    its own, and adds everything while there is room. *)
Definition gathers (P : string -> Prop) (f : list string -> list string) : Prop :=
  forall c, capped c ->
  capped (f c) /\ (length c <= length (f c))%nat /\
  (forall x, In x (f c) -> In x c \/ P x) /\
  ((length (f c) < MAX_CANDIDATES)%nat -> forall x, In x c \/ P x -> In x (f c)).

Lemma gathers_id : gathers (fun _ => False) (fun c => c).
Proof. intros c Hc. split_and!; (done || naive_solver). Qed.

Lemma bset_insert_grows v (c : list string) : (length c <= length (bset_insert v c))%nat.
Proof. induction c as [|x c IH]; cbn; [lia|]. destruct (String.compare v x); cbn; lia. Qed.

Lemma gathers_add v : gathers (eq v) (add v).
Proof.
  intros c [Hok Hlen]. unfold add. destruct (Nat.ltb_spec (length c) MAX_CANDIDATES).
  - split_and!.
    + split; [by apply bset_insert_ok|]. pose proof (bset_insert_length v c). lia.
    + apply bset_insert_grows.
    + intros x. rewrite In_bset_insert. naive_solver.
    + intros _ x. rewrite In_bset_insert. naive_solver.
  - split_and!; [done|done|by left|lia].
Qed.

Lemma gathers_fold {A} (f : list string -> A -> list string) (P : A -> string -> Prop) l :
  (forall a, gathers (P a) (fun c => f c a)) ->
  gathers (fun x => exists a, In a l /\ P a x) (fun c => fold_left f l c).
Proof.
  intros Hf. induction l as [|a l IH]; intros c Hc; cbn.
  { split_and!; try done; naive_solver. }
  destruct (Hf a c Hc) as (H1 & L1 & S1 & C1). destruct (IH (f c a) H1) as (H2 & L2 & S2 & C2).
  split_and!; [done|lia| |].
  - intros x [Hx|Hx]%S2; [apply S1 in Hx|]; naive_solver.
  - intros Hlt x Hx. apply (C2 Hlt). assert (length (f c a) < MAX_CANDIDATES)%nat as Hm by lia.
    specialize (C1 Hm x). naive_solver.
Qed.

Lemma gathers_seq P Q f g : gathers P f -> gathers Q g ->
  gathers (fun x => P x \/ Q x) (fun c => g (f c)).
Proof.
  intros Hf Hg c Hc. destruct (Hf c Hc) as (H1 & L1 & S1 & C1).
  destruct (Hg (f c) H1) as (H2 & L2 & S2 & C2). split_and!; [done|lia| |].
  - intros x [Hx|Hx]%S2; [apply S1 in Hx|]; tauto.
  - intros Hlt x Hx. apply (C2 Hlt). assert (length (f c) < MAX_CANDIDATES)%nat as Hm by lia.
    specialize (C1 Hm x). tauto.
Qed.

Lemma gathers_iff (P Q : string -> Prop) f :
  (forall x, P x <-> Q x) -> gathers P f -> gathers Q f.
Proof.
  intros HPQ Hf c Hc. destruct (Hf c Hc) as (H1 & L1 & S1 & C1). setoid_rewrite HPQ in S1.
  setoid_rewrite HPQ in C1. done.
Qed.

Lemma gathers_add_all vs : gathers (fun x => In x vs) (add_all vs).
Proof.
  eapply gathers_iff; [|apply (gathers_fold (fun c v => add v c) (fun v x => v = x)); apply gathers_add].
  naive_solver.
Qed.

(** What a resource search may propose. *)
Definition proposable (s : RuleSet) (grants : list ActiveGrant) (rt : string) (x : string) : Prop :=
  (exists r c, In r (applicable s None (Some rt)) /\ when_ r = Some c /\ names_literal c x) \/
  (exists g, In g grants /\
     (In x (ag_resources g) \/ exists d, In d (ag_details g) /\ In x (d_locations d))).

Lemma gathers_candidate_resources s grants rt :
  gathers (proposable s grants rt) (fun start =>
    fold_left (fun candidates grant =>
      fold_left (fun candidates detail => add_all (d_locations detail) candidates)
        (ag_details grant) (add_all (ag_resources grant) candidates)) grants
    (fold_left (fun candidates rule =>
        match when_ rule with
        | Some condition => add_all (literals condition) candidates
        | None => candidates
        end) (applicable s None (Some rt)) start)).
Proof.
  eapply gathers_iff; [|eapply gathers_seq;
    [apply (gathers_fold _ (fun r x => exists c, when_ r = Some c /\ names_literal c x))
    |apply (gathers_fold _ (fun g x => In x (ag_resources g) \/
               exists d, In d (ag_details g) /\ In x (d_locations d)))]].
  - unfold proposable. naive_solver.
  - intros r. destruct (when_ r) as [c|].
    + eapply gathers_iff; [|apply gathers_add_all]. intros x. rewrite literals_spec. naive_solver.
    + eapply gathers_iff; [|apply gathers_id]. naive_solver.
  - intros g. apply (gathers_seq _ _ (add_all (ag_resources g))
      (fun c => fold_left (fun c d => add_all (d_locations d) c) (ag_details g) c)).
    + apply gathers_add_all.
    + apply (gathers_fold (fun c d => add_all (d_locations d) c)). intros d. apply gathers_add_all.
Qed.

(** Searching resources proposes at most [MAX_CANDIDATES] ids, only ones that a
    rule names or a live grant holds; and all of those, when the cap was not
    reached: in particular the resource of every request that a
    ["$resource.id"] matcher holds for. *)
Theorem resource_search_complete s (grants : list ActiveGrant) rt :
  let found := candidate_resources s grants rt in
  (length found <= MAX_CANDIDATES)%nat /\
  (forall x, In x found -> proposable s grants rt x) /\
  ((length found < MAX_CANDIDATES)%nat ->
   (forall x, proposable s grants rt x -> In x found) /\
   forall (req : EvaluationRequest) m,
     sub_grants (subject req) = grants -> gm_resource m = Some TheResource ->
     holds (GrantCond m) req = true -> In (res_id (resource req)) found).
Proof.
  destruct (gathers_candidate_resources s grants rt [] capped_nil) as ([_ Hl] & _ & Hs & Hc).
  split_and!; [done|intros x Hx; by destruct (Hs x Hx)|].
  intros Hlt. specialize (Hc Hlt).
  assert (forall x, proposable s grants rt x -> In x (candidate_resources s grants rt)) as Hall
    by (intros x Hx; apply Hc; by right).
  split; [done|]. intros req m <- Hm (g & Hg & Hgm)%existsb_exists. apply Hall. right.
  exists g. split; [done|left]. unfold grant_matches in Hgm. rewrite Hm in Hgm. cbn in Hgm.
  destruct (is_some_and _ (gm_client m)); [done|].
  destruct (existsb _ (ag_resources g)) eqn:E; [|done].
  apply existsb_exists in E as (x & Hx & ->%String.eqb_eq). done.
Qed.
End Search.
