(* ===== verification/AuditChain.v ===== *)
(** * The audit chain

    [crates/domain/src/audit/chain.rs] and the event it covers
    ([crates/domain/src/audit/mod.rs]): the length-prefixed encoding, the hash of
    a record, and the verification of a run of records. *)

From S2P Require Import Prelude Bytes BTree.

(** ** Events *)

Inductive Outcome : Type := Success | Failure.

Module Outcome.
Definition as_str (o : Outcome) : string :=
  match o with Success => "success" | Failure => "failure" end.
End Outcome.

Inductive Actor : Type :=
| AUser (id : string)
| AClient (id : string)
| AAgent (client on_behalf_of : string)
| AAdmin (id : string)
| ASystem.

Module Actor.
Definition kind (a : Actor) : string :=
  match a with
  | AUser _ => "user" | AClient _ => "client" | AAgent _ _ => "agent"
  | AAdmin _ => "admin" | ASystem => "system"
  end.
Definition id (a : Actor) : string :=
  match a with
  | AUser id | AAdmin id | AClient id | AAgent id _ => id
  | ASystem => EmptyString
  end.
End Actor.

Inductive DetailValue : Type :=
| DText (s : string)
| DNumber (n : Z)
| DFlag (b : bool)
| DFingerprint (s : string).

Record AuditEvent : Type := {
  ev_tenant : string;
  ev_occurred_at : Z;        (** nanoseconds since the epoch, an [i128] *)
  ev_type : string;          (** [EventType] is a newtype over its name *)
  ev_outcome : Outcome;
  ev_actor : Actor;
  ev_actor_chain : list Actor;
  ev_subject : option string;
  ev_client : option string;
  ev_session : option string;
  ev_grant : option string;
  ev_request_id : option string;
  ev_detail : list (string * DetailValue)   (** a [BTreeMap] *)
}.

(** ** The encoding *)

Definition field (bytes : list Z) : list Z :=
  be_bytes 8 (Z.of_nat (length bytes)) ++ bytes.

Definition str_field (s : string) : list Z := field (bytes_of s).

Definition optional (v : option string) : list Z :=
  match v with
  | Some v => str_field "1" ++ str_field v
  | None => str_field "0"
  end.

Definition actor (a : Actor) : list Z :=
  str_field (Actor.kind a) ++ str_field (Actor.id a) ++
  match a with AAgent _ on_behalf_of => str_field on_behalf_of | _ => str_field "" end.

Definition detail_value (v : DetailValue) : list Z :=
  match v with
  | DText text => str_field "t" ++ str_field text
  | DNumber n => str_field "n" ++ field (be_bytes 8 n)
  | DFlag b => str_field "b" ++ field [if b then 1%Z else 0%Z]
  | DFingerprint digest => str_field "f" ++ str_field digest
  end.

Definition canonical_bytes (e : AuditEvent) : list Z :=
  str_field (ev_tenant e) ++ field (be_bytes 16 (ev_occurred_at e)) ++
  str_field (ev_type e) ++ str_field (Outcome.as_str (ev_outcome e)) ++
  actor (ev_actor e) ++
  field (be_bytes 8 (Z.of_nat (length (ev_actor_chain e)))) ++
  concat (map actor (ev_actor_chain e)) ++
  optional (ev_subject e) ++ optional (ev_client e) ++ optional (ev_session e) ++
  optional (ev_grant e) ++ optional (ev_request_id e) ++
  field (be_bytes 8 (Z.of_nat (length (ev_detail e)))) ++
  concat (map (fun kv => str_field (fst kv) ++ detail_value (snd kv)) (ev_detail e)).

(** ** The chain *)

(** 32 bytes. *)
Abbreviation EventHash := (list Z) (only parsing).

Definition GENESIS : EventHash := repeat 0%Z 32.

Inductive ChainError : Type :=
| MalformedHash (length : nat)
| Altered (position : nat) (stored recomputed : EventHash)
| Broken (position : nat) (actual expected : EventHash).

Definition from_slice (bytes : list Z) : result EventHash ChainError :=
  if (length bytes =? 32)%nat then Ok bytes else Err (MalformedHash (length bytes)).

(** [Content::Event] and [Content::Opaque]. *)
Inductive Content : Type := Event (e : AuditEvent) | Opaque.

Record Link : Type := { content : Content; previous : EventHash; current : EventHash }.

Section Chain.
(** The [sha2] crate's digest. *)
Variable sha256 : list Z -> list Z.

Definition hash (previous : EventHash) (e : AuditEvent) : EventHash :=
  sha256 (previous ++ canonical_bytes e).

Definition hash_eqb (a b : EventHash) : bool := bool_decide (a = b).

(** The loop of [verify], at [position]. *)
Fixpoint verify_from (position : nat) (links : list Link) (expected : EventHash)
    : result EventHash ChainError :=
  match links with
  | [] => Ok expected
  | link :: links =>
      if negb (hash_eqb (previous link) expected) then
        Err (Broken position (previous link) expected)
      else
        let? _ :=
          match content link with
          | Event e =>
              let recomputed := hash (previous link) e in
              if negb (hash_eqb recomputed (current link)) then
                Err (Altered position (current link) recomputed)
              else Ok ()
          | Opaque => Ok ()
          end in
        verify_from (S position) links (current link)
  end.

Definition verify (links : list Link) (start : EventHash) : result EventHash ChainError :=
  verify_from 0 links start.

(** ** The encoding is injective *)

(** An encoding that says where it ends: equal texts with anything after them
    encode the same value. *)
Definition decodable {A} (P : A -> Prop) (enc : A -> list Z) : Prop :=
  forall a b r s, P a -> P b -> enc a ++ r = enc b ++ s -> a = b /\ r = s.

(** A slice whose length fits the prefix: any slice of a 64-bit machine. *)
Definition sized (l : list Z) : Prop := (Z.of_nat (length l) < 2 ^ 64)%Z.
Definition str_ok (s : string) : Prop := sized (bytes_of s).

Lemma field_decodable : decodable sized field.
Proof.
  intros a b r s Ha Hb H. unfold field in H. rewrite <- !app_assoc in H.
  apply app_inj_1 in H as [Hl H]; [|by rewrite !be_bytes_length].
  apply be_bytes_unsigned in Hl; [|unfold sized in *; cbn; lia..].
  apply app_inj_1 in H; [done|lia].
Qed.

Lemma str_field_decodable : decodable str_ok str_field.
Proof.
  intros a b r s Ha Hb H. unfold str_field in H. apply field_decodable in H as [H ->];
    [|exact Ha|exact Hb].
  by apply bytes_of_inj in H as ->.
Qed.

(** Fixed words the encoder writes. *)
Lemma word_ok s : (String.length s <= 64)%nat -> str_ok s.
Proof.
  unfold str_ok, sized. rewrite length_bytes_of. lia.
Qed.

Ltac side := first [assumption | apply word_ok; cbn; lia | idtac].
(** Peels the field at the head of both sides. *)
Ltac peel H :=
  rewrite <- ?app_assoc in H;
  lazymatch type of H with
  | str_field ?x ++ ?r = str_field ?y ++ ?s =>
      apply (str_field_decodable x y r s) in H; [destruct H as [? H]|side..]
  | field ?x ++ ?r = field ?y ++ ?s =>
      apply (field_decodable x y r s) in H; [destruct H as [? H]|side..]
  end.

Definition opt_ok (o : option string) : Prop :=
  match o with Some s => str_ok s | None => True end.

Lemma optional_decodable : decodable opt_ok optional.
Proof.
  intros [a|] [b|] r s Ha Hb H; unfold optional in H; cbn in Ha, Hb;
    peel H; try discriminate; [|by subst].
  peel H. by subst.
Qed.

Definition actor_ok (a : Actor) : Prop :=
  str_ok (Actor.id a) /\ match a with AAgent _ o => str_ok o | _ => True end.

Lemma kind_ok a : str_ok (Actor.kind a).
Proof. destruct a; apply word_ok; cbn; lia. Qed.

Lemma actor_decodable : decodable actor_ok actor.
Proof.
  intros a b r s [Ha Ha'] [Hb Hb'] H. unfold actor in H.
  destruct a, b; cbn [Actor.kind Actor.id] in *; peel H; try discriminate;
    peel H; peel H; by subst.
Qed.

Definition value_ok (v : DetailValue) : Prop :=
  match v with
  | DText s | DFingerprint s => str_ok s
  | DNumber n => (- 2 ^ 63 <= n < 2 ^ 63)%Z
  | DFlag _ => True
  end.

Lemma be_bytes_sized k n : (k <= 64)%nat -> sized (be_bytes k n).
Proof. intros Hk. unfold sized. rewrite be_bytes_length. lia. Qed.

Lemma detail_value_decodable : decodable value_ok detail_value.
Proof.
  intros a b r s Ha Hb H. destruct a, b; cbn [value_ok detail_value] in *;
    peel H; try discriminate.
  - peel H. by subst.
  - rewrite <- ?app_assoc in H. apply field_decodable in H as [Hn ->];
      [|apply be_bytes_sized; lia..].
    split; [|done]. f_equal. by apply (be_bytes_signed 8) in Hn; [|lia..].
  - peel H; [|unfold sized; cbn; lia..].
    destruct b, b0; try discriminate; by subst.
  - peel H. by subst.
Qed.

Lemma concat_decodable {A} (P : A -> Prop) enc :
  decodable P enc -> forall l k r s, Forall P l -> Forall P k -> length l = length k ->
  concat (map enc l) ++ r = concat (map enc k) ++ s -> l = k /\ r = s.
Proof.
  intros Henc l. induction l as [|a l IH]; intros [|b k] r s Hl Hk Hlen; try done.
  cbn. rewrite <- !app_assoc. apply Forall_cons in Hl as [??], Hk as [??]. injection Hlen as Hlen.
  intros [-> Hr]%Henc; [|done..]. by apply IH in Hr as [-> ->].
Qed.

(** The ranges of the Rust types: every text is shorter than the address space,
    an instant is an [i128] of nanoseconds, a number an [i64]. *)
Record event_ok (e : AuditEvent) : Prop := {
  ok_tenant : str_ok (ev_tenant e);
  ok_time : (- 2 ^ 127 <= ev_occurred_at e < 2 ^ 127)%Z;
  ok_type : str_ok (ev_type e);
  ok_actor : actor_ok (ev_actor e);
  ok_chain : Forall actor_ok (ev_actor_chain e);
  ok_chain_len : (Z.of_nat (length (ev_actor_chain e)) < 2 ^ 64)%Z;
  ok_subject : opt_ok (ev_subject e);
  ok_client : opt_ok (ev_client e);
  ok_session : opt_ok (ev_session e);
  ok_grant : opt_ok (ev_grant e);
  ok_request_id : opt_ok (ev_request_id e);
  ok_detail : Forall (fun kv => str_ok (fst kv) /\ value_ok (snd kv)) (ev_detail e);
  ok_detail_len : (Z.of_nat (length (ev_detail e)) < 2 ^ 64)%Z
}.

Lemma entry_decodable :
  decodable (fun kv : string * DetailValue => str_ok (fst kv) /\ value_ok (snd kv))
    (fun kv => str_field (fst kv) ++ detail_value (snd kv)).
Proof.
  intros [k v] [j w] r s [Hk Hv] [Hj Hw] H. cbn [fst snd] in *.
  peel H. apply (detail_value_decodable v w) in H as [-> ->]; [|done..]. by subst.
Qed.

Lemma length_field_decodable n m r s :
  (Z.of_nat n < 2 ^ 64)%Z -> (Z.of_nat m < 2 ^ 64)%Z ->
  field (be_bytes 8 (Z.of_nat n)) ++ r = field (be_bytes 8 (Z.of_nat m)) ++ s -> n = m /\ r = s.
Proof.
  intros Hn Hm [H ->]%field_decodable; [|apply be_bytes_sized; lia..].
  apply be_bytes_unsigned in H; [|cbn; lia..]. split; [lia|done].
Qed.

Lemma outcome_ok o : str_ok (Outcome.as_str o).
Proof. destruct o; apply word_ok; cbn; lia. Qed.

Lemma canonical_injective a b :
  event_ok a -> event_ok b -> canonical_bytes a = canonical_bytes b -> a = b.
Proof.
  intros [A1 A2 A3 A4 A5 A6 A7 A8 A9 A10 A11 A12 A13] [B1 B2 B3 B4 B5 B6 B7 B8 B9 B10 B11 B12 B13] H.
  unfold canonical_bytes in H.
  pose proof (outcome_ok (ev_outcome a)). pose proof (outcome_ok (ev_outcome b)).
  peel H. rewrite <- ?app_assoc in H.
  apply field_decodable in H as [Ht H]; [|apply be_bytes_sized; lia..].
  apply (be_bytes_signed 16) in Ht; [|cbn; lia..].
  peel H. peel H.
  apply actor_decodable in H as [? H]; [|done..].
  apply length_field_decodable in H as [Hl H]; [|done..].
  apply (concat_decodable _ _ actor_decodable) in H as [? H]; [|done..].
  do 5 (rewrite <- ?app_assoc in H; apply optional_decodable in H as [? H]; [|done..]).
  apply length_field_decodable in H as [Hd H]; [|done..].
  rewrite <- (app_nil_r (concat _)) in H. symmetry in H.
  rewrite <- (app_nil_r (concat _)) in H. symmetry in H.
  apply (concat_decodable _ _ entry_decodable) in H as [? _]; [|done..].
  assert (ev_outcome a = ev_outcome b) as Ho by
    (destruct (ev_outcome a), (ev_outcome b); cbn in *; congruence).
  destruct a, b; cbn in *; by subst.
Qed.

(** ** What a verified run is *)

(** A link whose contents, where they can be read, hash to what is stored. *)
Definition authentic (l : Link) : Prop :=
  match content l with Event e => hash (previous l) e = current l | Opaque => True end.

(** Every link follows the one before it, and is authentic. *)
Inductive chained : EventHash -> list Link -> EventHash -> Prop :=
| chained_nil h : chained h [] h
| chained_cons l links h :
    authentic l -> chained (current l) links h -> chained (previous l) (l :: links) h.

Lemma hash_eqb_true a b : hash_eqb a b = true <-> a = b.
Proof. apply bool_decide_eq_true. Qed.

(** The step of the loop: its two refusals and its success. *)
Lemma verify_from_cons position l links expected :
  (previous l <> expected /\
     verify_from position (l :: links) expected = Err (Broken position (previous l) expected))
  \/ (exists e, previous l = expected /\ content l = Event e /\ hash expected e <> current l /\
        verify_from position (l :: links) expected
          = Err (Altered position (current l) (hash expected e)))
  \/ (previous l = expected /\ authentic l /\
        verify_from position (l :: links) expected = verify_from (S position) links (current l)).
Proof.
  cbn [verify_from]. unfold authentic.
  destruct (hash_eqb (previous l) expected) eqn:He; cbn [negb].
  - apply hash_eqb_true in He as <-. destruct (content l) as [e|]; [|naive_solver]. cbv zeta.
    destruct (hash_eqb _ (current l)) eqn:Hc; cbn [negb].
    + apply hash_eqb_true in Hc. naive_solver.
    + right. left. exists e. repeat split; try done.
      intros H%(proj2 (hash_eqb_true _ _)). congruence.
  - left. split; [|done]. intros H%(proj2 (hash_eqb_true _ _)). congruence.
Qed.

Lemma verify_from_ok position links start h :
  verify_from position links start = Ok h <-> chained start links h.
Proof.
  split.
  - revert position start. induction links as [|l links IH]; intros position start Hv.
    + injection Hv as ->. constructor.
    + destruct (verify_from_cons position l links start) as [[_ E]|[(e & _ & _ & _ & E)|(<- & Ha & E)]];
        rewrite E in Hv; try discriminate. constructor; [done|]. by apply IH in Hv.
  - intros Hc. revert position. induction Hc as [|l links h Ha Hc IH]; intros position; [done|].
    destruct (verify_from_cons position l links (previous l)) as [[? _]|[(e & _ & Ee & ? & _)|(_ & _ & ->)]];
      [done| |apply IH]. unfold authentic in Ha. by rewrite Ee in Ha.
Qed.

(** What the error of a refused run says. *)
Lemma verify_from_err position links start e :
  verify_from position links start = Err e ->
  exists before l after h, links = before ++ l :: after /\ chained start before h /\
    ((previous l <> h /\ e = Broken (position + length before) (previous l) h) \/
     (exists ev, previous l = h /\ content l = Event ev /\ hash h ev <> current l /\
        e = Altered (position + length before) (current l) (hash h ev))).
Proof.
  revert position start. induction links as [|l links IH]; intros position start Hv; [done|].
  destruct (verify_from_cons position l links start) as [[Hp E]|[(ev & Hp & Hc & Hh & E)|(<- & Ha & E)]];
    rewrite E in Hv.
  - injection Hv as <-. exists [], l, links, start. cbn. rewrite Nat.add_0_r.
    repeat split; [constructor|by left].
  - injection Hv as <-. exists [], l, links, start. cbn. rewrite Nat.add_0_r.
    repeat split; [constructor|right; naive_solver].
  - apply IH in Hv as (before & l' & after & h & -> & Hb & He).
    exists (l :: before), l', after, h. cbn [length]. rewrite <- Nat.add_succ_comm.
    repeat split; [by constructor|done].
Qed.

(** A refused run is refused at its first bad record: everything before the
    position reported is a sound chain, the record there does not follow it or
    does not hash to what is stored, and the error carries the two hashes that
    differ. [verify] never reports a malformed hash. *)
Theorem verify_reports_first_fault (links : list Link) (start : EventHash) :
  match verify links start with
  | Ok h => chained start links h
  | Err (MalformedHash _) => False
  | Err (Broken position actual expected) => actual <> expected /\
      exists before l after, links = before ++ l :: after /\ length before = position /\
        chained start before expected /\ previous l = actual
  | Err (Altered position stored recomputed) => stored <> recomputed /\
      exists before l after e, links = before ++ l :: after /\ length before = position /\
        chained start before (previous l) /\ content l = Event e /\
        current l = stored /\ hash (previous l) e = recomputed
  end.
Proof.
  destruct (verify links start) as [h|e] eqn:Hv; [by apply verify_from_ok in Hv|].
  apply verify_from_err in Hv as (before & l & after & h & -> & Hb & [[Hp ->]|(ev & <- & Hc & Hh & ->)]).
  - split; [done|]. exists before, l, after. naive_solver.
  - split; [congruence|]. exists before, l, after, ev. naive_solver.
Qed.

(** ** Tamper evidence *)

Lemma chained_snoc start links l h :
  chained start (links ++ [l]) h <->
  chained start links (previous l) /\ authentic l /\ current l = h.
Proof.
  revert start. induction links as [|k links IH]; intros start; cbn [app]; split.
  - intros H. inversion H as [|? ? ? ? Hc]; subst. inversion Hc; subst. by repeat constructor.
  - intros (Hc & Ha & <-). inversion Hc; subst. by repeat constructor.
  - intros H. inversion H as [|? ? ? ? Hc]; subst. apply IH in Hc as (? & ? & ?).
    repeat split; [by constructor|done..].
  - intros (Hc & Ha & Hl). inversion Hc; subst. constructor; [done|]. by apply IH.
Qed.

(** A record as the store holds it: readable, of the types' ranges, its
    predecessor a 32-byte hash. *)
Definition readable (l : Link) : Prop :=
  length (previous l) = 32%nat /\ exists e, content l = Event e /\ event_ok e.

(** The bytes the stored hash of a readable record is the digest of. *)
Definition preimage (l : Link) : list Z :=
  previous l ++ match content l with Event e => canonical_bytes e | Opaque => [] end.

(** Two records in the runs with one digest and different contents. *)
Definition collision (a b : list Link) : Prop :=
  exists i k l, a !! i = Some k /\ b !! i = Some l /\
    preimage k <> preimage l /\ sha256 (preimage k) = sha256 (preimage l).

Lemma authentic_digest l : readable l -> authentic l -> sha256 (preimage l) = current l.
Proof. unfold authentic, preimage. intros (_ & e & -> & _). done. Qed.

(** A readable record is its preimage and its hash. *)
Lemma preimage_inj k l :
  readable k -> readable l -> preimage k = preimage l -> current k = current l -> k = l.
Proof.
  destruct k, l. unfold readable, preimage. cbn.
  intros (Hk & e & -> & He) (Hl & f & -> & Hf) H ->.
  apply app_inj_1 in H as [-> H]; [|lia]. by apply canonical_injective in H as ->.
Qed.

Lemma collision_snoc a b k l : length a = length b -> collision a b -> collision (a ++ [k]) (b ++ [l]).
Proof.
  intros Hl (i & k' & l' & Ha & Hb & H). exists i, k', l'.
  rewrite !lookup_app_l by (by eapply lookup_lt_Some). done.
Qed.

Lemma chained_same_length a b start h :
  length a = length b -> Forall readable a -> Forall readable b ->
  chained start a h -> chained start b h -> a = b \/ collision a b.
Proof.
  revert b h. induction a as [|k a IH] using rev_ind; intros b h Hlen Ha Hb Ca Cb.
  - left. by destruct b.
  - destruct b as [|l b _] using rev_ind; [rewrite length_app in Hlen; cbn in Hlen; lia|].
    rewrite !length_app in Hlen. cbn in Hlen. assert (length a = length b) as Hab by lia.
    apply Forall_app in Ha as [Ha [Hk _]%Forall_cons], Hb as [Hb [Hl _]%Forall_cons].
    apply chained_snoc in Ca as (Ca & Ak & Hh), Cb as (Cb & Al & <-).
    pose proof (authentic_digest _ Hk Ak). pose proof (authentic_digest _ Hl Al).
    destruct (decide (preimage k = preimage l)) as [E|E].
    + apply preimage_inj in E as ->; [|done..].
      destruct (IH b (previous l)) as [->|?]; [done..|by left|].
      right. by apply collision_snoc.
    + right. exists (length a), k, l. rewrite !lookup_app_r by lia.
      rewrite <- Hab, Nat.sub_diag. repeat split; [done|congruence].
Qed.

(** The quiet edit. Of two readable trails of the same number of records that
    both verify from one start to one final hash, either every record is the
    same in both, field for field, or the two hold at one position different
    bytes with the same SHA-256. So somebody who knows the last hash of a
    trail sees any change to any record of it. *)
Theorem tamper_evident (a b : list Link) (start h : EventHash) :
  Forall readable a -> Forall readable b -> length a = length b ->
  verify a start = Ok h -> verify b start = Ok h ->
  a = b \/ collision a b.
Proof. intros Ha Hb Hl Va%verify_from_ok Vb%verify_from_ok. by eapply chained_same_length. Qed.

(** No field can be moved into its neighbour: events of the types' ranges with
    the same encoding are the same event, absent and empty fields apart. *)
Theorem canonical_bytes_injective (a b : AuditEvent) :
  event_ok a -> event_ok b -> canonical_bytes a = canonical_bytes b -> a = b.
Proof. apply canonical_injective. Qed.
End Chain.

(** ** Instances *)

Definition sample_event (subject : option string) : AuditEvent := {|
  ev_tenant := "demo"; ev_occurred_at := 1760000000000000000; ev_type := "token.issued";
  ev_outcome := Success; ev_actor := AClient "billing"; ev_actor_chain := [AUser "alice"];
  ev_subject := subject; ev_client := None; ev_session := None; ev_grant := Some "g-1";
  ev_request_id := None; ev_detail := [("expires_in", DNumber 300)] |}%string.

Definition sample_digest (l : list Z) : list Z := repeat (fold_right Z.add 0 l mod 256)%Z 32.

Definition sample_link : Link :=
  {| content := Event (sample_event (Some EmptyString)); previous := GENESIS;
     current := hash sample_digest GENESIS (sample_event (Some EmptyString)) |}.

Lemma sample_event_ok : event_ok (sample_event (Some EmptyString)).
Proof.
  split; cbn; repeat first [done | split | apply Forall_cons; split | apply Forall_nil
    | apply word_ok; cbn; lia | lia].
Qed.

Lemma canonical_bytes_injective_witness :
  sample_event (Some EmptyString) = sample_event (Some EmptyString) /\
  canonical_bytes (sample_event None) <> canonical_bytes (sample_event (Some EmptyString)).
Proof.
  split; [|by vm_compute].
  apply canonical_bytes_injective; [exact sample_event_ok..|reflexivity].
Defined.

Lemma tamper_evident_witness :
  [sample_link] = [sample_link] \/ collision sample_digest [sample_link] [sample_link].
Proof.
  assert (Forall readable [sample_link]) as H.
  { apply Forall_cons. split; [|apply Forall_nil; done]. split; [reflexivity|].
    eexists. split; [reflexivity|exact sample_event_ok]. }
  apply (tamper_evident sample_digest _ _ GENESIS (current sample_link)); [exact H..|reflexivity| |];
    vm_compute; reflexivity.
Defined.
