(* ===== verification/RateLimit.v ===== *)
(** * Rate limits: windows, buckets and the counter port

    [crates/domain/src/rate_limit.rs]: the fixed windows, the bucket keys, the
    limits per endpoint, and [RateLimitStore] as an interface whose laws the
    limiters of [Throttle] are proved against. Instants and durations are
    nanoseconds, as [time]'s are. *)

From S2P Require Import Prelude.

Open Scope Z_scope.

(** ** Windows *)

(** [max] is a [u32], [window] a [Duration]. *)
Record RateLimit : Type := { max_events : Z; window : Z }.

Module RateLimit.
Definition window_start (l : RateLimit) (now : Z) : Z :=
  let seconds := whole_seconds (window l) in
  if seconds <=? 0 then now
  else
    let elapsed := unix_timestamp now mod seconds in
    (now - now mod NANOS) - elapsed * NANOS.

Definition window_end (l : RateLimit) (now : Z) : Z :=
  window_start l now + Z.max (window l) NANOS.

Definition admits (l : RateLimit) (counted : Z) : bool := counted <? max_events l.

Definition retry_after (l : RateLimit) (now : Z) : Z :=
  Z.max (window_end l now - now) NANOS.
End RateLimit.

Inductive Scope : Type := Address | Account | Client | Subject.

Module Scope.
Definition as_str (s : Scope) : string :=
  match s with
  | Address => "ip" | Account => "account" | Client => "client" | Subject => "subject"
  end%string.
End Scope.

Record LoginLimits : Type := { login_per_address : RateLimit; login_per_account : RateLimit }.

(** ** Endpoints *)

Inductive LimitedEndpoint : Type :=
| Registration | ClientConfiguration | PushedAuthorizationRequest | Token
| DeviceAuthorization | UserInfo | SsfSubjects | Backchannel | Introspection
| Revocation | AccessEvaluation.

#[export] Instance LimitedEndpoint_eq_dec : EqDecision LimitedEndpoint.
Proof. solve_decision. Defined.

Module LimitedEndpoint.
Definition ALL : list LimitedEndpoint :=
  [Registration; ClientConfiguration; PushedAuthorizationRequest; Token;
   DeviceAuthorization; UserInfo; Introspection; Revocation; SsfSubjects;
   Backchannel; AccessEvaluation].

Definition as_str (e : LimitedEndpoint) : string :=
  match e with
  | Registration => "registration"
  | ClientConfiguration => "client_configuration"
  | PushedAuthorizationRequest => "par"
  | Token => "token"
  | DeviceAuthorization => "device_authorization"
  | UserInfo => "userinfo"
  | Introspection => "introspection"
  | Revocation => "revocation"
  | SsfSubjects => "ssf_subjects"
  | Backchannel => "backchannel"
  | AccessEvaluation => "access_evaluation"
  end%string.
End LimitedEndpoint.

Record EndpointLimit : Type := {
  per_address : RateLimit;
  per_client : option RateLimit;
  per_subject : option RateLimit
}.

Record EndpointLimits : Type := {
  registration : EndpointLimit;
  client_configuration : EndpointLimit;
  par : EndpointLimit;
  token : EndpointLimit;
  device_authorization : EndpointLimit;
  userinfo : EndpointLimit;
  introspection : EndpointLimit;
  revocation : EndpointLimit;
  ssf_subjects : EndpointLimit;
  backchannel : EndpointLimit;
  access_evaluation : EndpointLimit
}.

Definition for_endpoint (l : EndpointLimits) (e : LimitedEndpoint) : EndpointLimit :=
  match e with
  | Registration => registration l
  | ClientConfiguration => client_configuration l
  | PushedAuthorizationRequest => par l
  | Token => token l
  | DeviceAuthorization => device_authorization l
  | UserInfo => userinfo l
  | Introspection => introspection l
  | Revocation => revocation l
  | SsfSubjects => ssf_subjects l
  | Backchannel => backchannel l
  | AccessEvaluation => access_evaluation l
  end.

(** ** Buckets

    An address is its text, what [IpAddr]'s [Display] writes. *)

(** [Bucket], a newtype over the stored key. *)
Abbreviation Bucket := string (only parsing).

Definition oid4vp_address_bucket (route : string) (ip : option string) : Bucket :=
  match ip with
  | None => "oid4vp:" +:+ route +:+ ":ip:unattributed"
  | Some ip => "oid4vp:" +:+ route +:+ ":ip:" +:+ ip
  end.
Definition oid4vp_client_bucket (client_id : string) : Bucket := "oid4vp:client:" +:+ client_id.
Definition ip_bucket (ip : string) : Bucket := "login:ip:" +:+ ip.
Definition device_verification_bucket (ip : option string) : Bucket :=
  match ip with None => "device:ip:unattributed" | Some ip => "device:ip:" +:+ ip end.
Definition oid4vci_nonce_bucket (ip : option string) : Bucket :=
  match ip with None => "oid4vci:nonce:unattributed" | Some ip => "oid4vci:nonce:" +:+ ip end.
Definition oid4vci_credential_bucket (ip : option string) : Bucket :=
  match ip with
  | None => "oid4vci:credential:unattributed"
  | Some ip => "oid4vci:credential:" +:+ ip
  end.
Definition admin_api_bucket (ip : string) : Bucket := "admin:ip:" +:+ ip.
Definition endpoint_address_bucket (e : LimitedEndpoint) (ip : string) : Bucket :=
  "ep:" +:+ LimitedEndpoint.as_str e +:+ ":ip:" +:+ ip.
Definition audited_once_bucket (b : Bucket) : Bucket := "audited:" +:+ b.

Section Hashed.
(** [credentials::sha256_hex] over the [sha2] crate; the [unicode-normalization]
    crate's NFKC; and the case and white-space tables of Unicode behind
    [str::to_lowercase] and [str::trim]. *)
Variable sha256_hex : string -> string.
Variable nfkc to_lowercase trim : string -> string.

Definition MAX_FOLDING_PASSES : nat := 4.

Fixpoint fold_username (passes : nat) (folded : string) : string :=
  match passes with
  | O => folded
  | S passes =>
      let next := to_lowercase (nfkc folded) in
      if String.eqb next folded then folded else fold_username passes next
  end.

Definition normalise_username (username : string) : string :=
  trim (fold_username MAX_FOLDING_PASSES username).

Definition account_bucket (username : string) : Bucket :=
  "login:account:" +:+ sha256_hex (normalise_username username).
Definition endpoint_client_bucket (e : LimitedEndpoint) (client_id : string) : Bucket :=
  "ep:" +:+ LimitedEndpoint.as_str e +:+ ":client:" +:+ sha256_hex client_id.
Definition endpoint_subject_bucket (e : LimitedEndpoint) (subject : string) : Bucket :=
  "ep:" +:+ LimitedEndpoint.as_str e +:+ ":subject:" +:+ sha256_hex subject.
Definition approval_decision_bucket (session : string) : Bucket :=
  "approval:decide:" +:+ sha256_hex session.
End Hashed.

(** ** The port

    [RateLimitStore]. A statement may fail, and a write that fails may have
    been applied: the answer can be lost after the commit. [counter] is what a
    reader of the rows would count. *)

Inductive DomainError : Type := Storage.

(** A tenant, a bucket, a window. *)
Abbreviation Key := (string * string * Z)%type.

Class RateLimitStore (S : Type) := {
  count : S -> string -> Bucket -> Z -> S * result Z DomainError;
  record : S -> string -> Bucket -> Z -> Z -> S * result Z DomainError;
  clear : S -> string -> Bucket -> S * result unit DomainError;

  store_ok : S -> Prop;
  counter : S -> Key -> Z;

  counter_nonneg s k : store_ok s -> 0 <= counter s k;
  count_law s t b w s' r :
    store_ok s -> count s t b w = (s', r) ->
    store_ok s' /\ (forall k, counter s' k = counter s k) /\
    (forall n, r = Ok n -> n = counter s (t, b, w));
  record_law s t b w e s' r :
    store_ok s -> record s t b w e = (s', r) ->
    store_ok s' /\ (forall k, k <> (t, b, w) -> counter s' k = counter s k) /\
    counter s (t, b, w) <= counter s' (t, b, w) <= counter s (t, b, w) + 1 /\
    (forall n, r = Ok n -> n = counter s (t, b, w) + 1 /\ counter s' (t, b, w) = n);
  clear_law s t b s' r :
    store_ok s -> clear s t b = (s', r) ->
    store_ok s' /\ (forall k, k.1 <> (t, b) -> counter s' k = counter s k) /\
    (forall w, 0 <= counter s' (t, b, w) <= counter s (t, b, w)) /\
    (r = Ok tt -> forall w, counter s' (t, b, w) = 0)
}.

(** ** Windows tile time *)

(** A configured limit: its window is a whole number of seconds, at least one. *)
Definition whole (l : RateLimit) : Prop := exists s, 0 < s /\ window l = s * NANOS.

Lemma window_start_whole l s now :
  0 < s -> window l = s * NANOS ->
  RateLimit.window_start l now = window l * (now / window l).
Proof.
  intros Hs Hw. unfold RateLimit.window_start, whole_seconds, unix_timestamp. rewrite Hw.
  rewrite Z.quot_mul by done. rewrite (proj2 (Z.leb_gt s 0)) by lia.
  rewrite (Z.mul_comm s NANOS), <- Z.div_div by (unfold NANOS; lia).
  pose proof (Z.div_mod now NANOS ltac:(done)).
  pose proof (Z.div_mod (now / NANOS) s ltac:(lia)). nia.
Qed.

Lemma window_end_whole l now :
  whole l -> RateLimit.window_end l now = RateLimit.window_start l now + window l.
Proof. intros (s & Hs & Hw). unfold RateLimit.window_end. rewrite Hw. unfold NANOS. nia. Qed.

Lemma window_contains l now :
  RateLimit.window_start l now <= now < RateLimit.window_end l now.
Proof.
  unfold RateLimit.window_end, RateLimit.window_start.
  destruct (Z.leb_spec (whole_seconds (window l)) 0) as [Hs|Hs]; [unfold NANOS; lia|].
  unfold whole_seconds, unix_timestamp in *.
  assert (0 < window l) as Hw.
  { destruct (Z.le_gt_cases (window l) 0) as [Hle|]; [|done].
    pose proof (Z.quot_opp_l (window l) NANOS ltac:(done)).
    pose proof (Z.quot_pos (- window l) NANOS ltac:(lia) ltac:(done)). lia. }
  assert (Z.quot (window l) NANOS = window l / NANOS) as Hq
    by (apply Z.quot_div_nonneg; [lia|done]). rewrite Hq in *.
  pose proof (Z.div_mod now NANOS ltac:(done)). pose proof (Z.mod_pos_bound now NANOS ltac:(done)).
  pose proof (Z.mod_pos_bound (now / NANOS) (window l / NANOS) ltac:(lia)).
  pose proof (Z.mul_div_le (window l) NANOS ltac:(done)). unfold NANOS in *. nia.
Qed.

Lemma window_same l now now' :
  whole l ->
  RateLimit.window_start l now' = RateLimit.window_start l now <->
  RateLimit.window_start l now <= now' < RateLimit.window_end l now.
Proof.
  intros Hl. split.
  - rewrite (window_end_whole _ _ Hl). intros <-. pose proof (window_contains l now') as Hc.
    by rewrite (window_end_whole _ _ Hl) in Hc.
  - rewrite (window_end_whole _ _ Hl). destruct Hl as (s & Hs & Hw).
    rewrite !(window_start_whole l s) by done. intros Hn. f_equal.
    symmetry. apply Z.div_unique with (now' - window l * (now / window l)); lia.
Qed.

(** Every instant lies in the window computed for it, whatever the limit; and
    under a limit of whole seconds two instants, on whichever replicas, are
    counted against one row exactly when the second falls in the window of the
    first, windows start at multiples of their length from the epoch, and
    waiting as long as [retry_after] says, at least a second, reaches another
    window. *)
Theorem windows_tile_time (l : RateLimit) (now now' : Z) :
  RateLimit.window_start l now <= now < RateLimit.window_end l now /\
  NANOS <= RateLimit.retry_after l now /\
  (whole l ->
   (RateLimit.window_start l now' = RateLimit.window_start l now <->
    RateLimit.window_start l now <= now' < RateLimit.window_end l now) /\
   RateLimit.window_start l now mod window l = 0 /\
   RateLimit.window_start l (now + RateLimit.retry_after l now) <> RateLimit.window_start l now).
Proof.
  split; [apply window_contains|]. split; [unfold RateLimit.retry_after; lia|].
  intros Hl. split; [by apply window_same|]. split.
  - destruct Hl as (s & Hs & Hw). rewrite (window_start_whole l s) by done.
    rewrite Z.mul_comm. apply Z.mod_mul. rewrite Hw. unfold NANOS. lia.
  - intros He. apply (window_same l) in He as [_ He]; [|done].
    unfold RateLimit.retry_after in He. lia.
Qed.

(** ** Buckets are apart *)

Lemma endpoint_prefix e e' (r r' : string) :
  "ep:" +:+ LimitedEndpoint.as_str e +:+ (":" +:+ r) =
  "ep:" +:+ LimitedEndpoint.as_str e' +:+ (":" +:+ r') -> e = e' /\ r = r'.
Proof. destruct e, e'; intros H; cbn in H; simplify_eq; done. Qed.

(** One endpoint's counters cannot be spent from another's, nor the address
    counter from a client's or a person's, nor any of them from the login,
    admin or device counters, whatever strings a caller chooses; and the marker
    of a bucket is a bucket of its own. *)
Theorem endpoint_buckets_apart (sha256_hex : string -> string) (e e' : LimitedEndpoint) (x y : string) :
  let address := endpoint_address_bucket in
  let client := endpoint_client_bucket sha256_hex in
  let subject := endpoint_subject_bucket sha256_hex in
  (address e x = address e' y -> e = e' /\ x = y) /\
  (client e x = client e' y -> e = e' /\ sha256_hex x = sha256_hex y) /\
  (subject e x = subject e' y -> e = e' /\ sha256_hex x = sha256_hex y) /\
  address e x <> client e' y /\ address e x <> subject e' y /\ client e x <> subject e' y /\
  Forall (fun b => starts_with "ep:" b = true) [address e x; client e x; subject e x] /\
  Forall (fun b => starts_with "ep:" b = false)
    [ip_bucket y; admin_api_bucket y; device_verification_bucket (Some y);
     approval_decision_bucket sha256_hex y; audited_once_bucket y] /\
  (audited_once_bucket x = audited_once_bucket y -> x = y).
Proof.
  cbn zeta. unfold endpoint_address_bucket, endpoint_client_bucket, endpoint_subject_bucket.
  split_and!.
  - intros H. apply (endpoint_prefix e e' ("ip:" +:+ x) ("ip:" +:+ y)) in H as [-> H]. by simplify_eq.
  - intros H. apply (endpoint_prefix e e' ("client:" +:+ _) ("client:" +:+ _)) in H as [-> H]. by simplify_eq.
  - intros H. apply (endpoint_prefix e e' ("subject:" +:+ _) ("subject:" +:+ _)) in H as [-> H]. by simplify_eq.
  - intros H. by apply (endpoint_prefix e e' ("ip:" +:+ _) ("client:" +:+ _)) in H as [-> H].
  - intros H. by apply (endpoint_prefix e e' ("ip:" +:+ _) ("subject:" +:+ _)) in H as [-> H].
  - intros H. by apply (endpoint_prefix e e' ("client:" +:+ _) ("subject:" +:+ _)) in H as [-> H].
  - destruct e; repeat (apply Forall_cons; split; [reflexivity|]); by apply Forall_nil.
  - repeat (apply Forall_cons; split; [reflexivity|]). by apply Forall_nil.
  - unfold audited_once_bucket. intros H. by simplify_eq.
Qed.
