(* ===== verification/RateOverrides.v ===== *)
(** * Tenant overrides of the rate limits

    [crates/domain/src/tenant_rate_limits.rs]: parsing, the persisted form,
    resolution against the deployment's limits and the check at save time. *)

From S2P Require Import Prelude BTree Json RateLimit.

Open Scope Z_scope.

(** A [BTreeMap] of groups to a [BTreeMap] of maxima. *)
Abbreviation TenantRateLimits := (list (string * list (string * Z))) (only parsing).

Record RateLimitOverrideError : Type := { err_field : string; err_reason : string }.

Definition invalid (field reason : string) : RateLimitOverrideError :=
  {| err_field := field; err_reason := reason |}.

Definition known_group (group : string) : bool :=
  String.eqb group "login" ||
  existsb (fun e => String.eqb (LimitedEndpoint.as_str e) group) LimitedEndpoint.ALL.

Definition permitted (group scope : string) : bool :=
  String.eqb scope "per_address"
  || (String.eqb group "login" && String.eqb scope "per_account")
  || (negb (String.eqb group "login") && String.eqb scope "per_client")
  || (String.eqb group "backchannel" && String.eqb scope "per_subject").

(** [as_u64], [u32::try_from] and the positivity filter. *)
Definition positive_u32 (v : value) : option Z :=
  match as_u64 v with
  | Some n => if (n <? 2 ^ 32) && (0 <? n) then Some n else None
  | None => None
  end.

(** One bucket of a group. *)
Definition parse_bucket (group : string) (kv : string * value) (buckets : list (string * Z))
    : result (list (string * Z)) RateLimitOverrideError :=
  let scope := fst kv in
  let field := group +:+ "." +:+ scope in
  guard? permitted group scope else invalid field "unknown bucket for this limiter" in
  let? max := ok_or (positive_u32 (snd kv)) (invalid field "must be a positive 32-bit integer") in
  Ok (binsert scope max buckets).

(** One group. *)
Definition parse_group (kv : string * value) (result_ : TenantRateLimits)
    : result TenantRateLimits RateLimitOverrideError :=
  let group := fst kv in
  guard? known_group group else invalid group "unknown limiter group" in
  let? values := ok_or (as_object (snd kv)) (invalid group "must be an object of bucket maxima") in
  let? buckets := try_fold (parse_bucket group) values [] in
  Ok (match buckets with [] => result_ | _ => binsert group buckets result_ end).

Definition from_json (v : option value) : result TenantRateLimits RateLimitOverrideError :=
  match v with
  | None => Ok []
  | Some v =>
      let? object := ok_or (as_object v) (invalid EmptyString "must be an object") in
      try_fold parse_group object []
  end.

Definition to_json (t : TenantRateLimits) : value :=
  VObject (map (fun g => (fst g,
    VObject (map (fun b => (fst b, VNumber (PosInt (snd b)))) (snd g)))) t).

Definition bounded (t : TenantRateLimits) (group scope : string) (deployment : RateLimit) : RateLimit :=
  {| max_events :=
       match bget group t ≫= bget scope with
       | Some max => Z.min max (max_events deployment)
       | None => max_events deployment
       end;
     window := window deployment |}.

Definition login (t : TenantRateLimits) (deployment : LoginLimits) : LoginLimits :=
  {| login_per_address := bounded t "login" "per_address" (login_per_address deployment);
     login_per_account := bounded t "login" "per_account" (login_per_account deployment) |}.

Definition endpoint (t : TenantRateLimits) (e : LimitedEndpoint) (deployment : EndpointLimit)
    : EndpointLimit :=
  let name := LimitedEndpoint.as_str e in
  {| per_address := bounded t name "per_address" (per_address deployment);
     per_client := option_map (bounded t name "per_client") (per_client deployment);
     per_subject := option_map (bounded t name "per_subject") (per_subject deployment) |}.

Definition render (l : RateLimit) : value :=
  jobj [("max", VNumber (PosInt (max_events l)));
        ("window_seconds", json_i64 (whole_seconds (window l)))]%string.

Definition describe_endpoint (t : TenantRateLimits) (limits : EndpointLimits) (e : LimitedEndpoint)
    : value :=
  let limit := endpoint t e (for_endpoint limits e) in
  jfields [("per_address", Some (render (per_address limit)));
           ("per_client", option_map render (per_client limit));
           ("per_subject", option_map render (per_subject limit))]%string.

Definition describe (t : TenantRateLimits) (login_ : LoginLimits) (endpoints : EndpointLimits) : value :=
  let l := login t login_ in
  let first := [("login", jobj [("per_address", render (login_per_address l));
                                ("per_account", render (login_per_account l))])]%string in
  VObject (fold_left
    (fun m e => binsert (LimitedEndpoint.as_str e) (describe_endpoint t endpoints e) m)
    LimitedEndpoint.ALL first).

Definition validate_bucket (ceilings : value) (group : string) (kv : string * Z) (_ : unit)
    : result unit RateLimitOverrideError :=
  let field := group +:+ "." +:+ fst kv in
  let? ceiling := ok_or (as_u64 (vindex "max" (vindex (fst kv) (vindex group ceilings))))
    (invalid field "this deployment does not use this bucket") in
  if ceiling <? snd kv then Err (invalid field "must not exceed the deployment maximum") else Ok tt.

Definition validate_against (t : TenantRateLimits) (login_ : LoginLimits) (endpoints : EndpointLimits)
    : result unit RateLimitOverrideError :=
  let ceilings := describe [] login_ endpoints in
  try_fold (fun g u => try_fold (validate_bucket ceilings (fst g)) (snd g) u) t tt.

(** ** Well-formed overrides *)

Definition bucket_ok (group : string) (b : string * Z) : Prop :=
  permitted group (fst b) = true /\ 0 < snd b < 2 ^ 32.

Definition group_ok (g : string * list (string * Z)) : Prop :=
  known_group (fst g) = true /\ snd g <> [] /\ bmap_ok (snd g) /\
  Forall (bucket_ok (fst g)) (snd g).

Definition overrides_ok (t : TenantRateLimits) : Prop := bmap_ok t /\ Forall group_ok t.

Lemma positive_u32_Some v n : positive_u32 v = Some n -> 0 < n < 2 ^ 32.
Proof.
  unfold positive_u32. destruct (as_u64 v) as [m|]; [|done].
  destruct (Z.ltb_spec m (2 ^ 32)), (Z.ltb_spec 0 m); cbn; intros [= <-]; lia.
Qed.

Lemma from_json_ok v t : from_json v = Ok t -> overrides_ok t.
Proof.
  unfold from_json. destruct v as [v|]; intros H; ok_inv; [|subst; repeat constructor].
  revert H. apply try_fold_invariant; [clear|repeat constructor].
  intros [g v] t t' [Ht Hg] H. unfold parse_group in H. cbn [fst snd] in H. ok_inv.
  destruct a0 as [|b buckets]; subst; [done|].
  match goal with E : try_fold _ _ _ = Ok _ |- _ =>
    apply (try_fold_invariant (fun m => bmap_ok m /\ Forall (bucket_ok g) m)) in E end.
  - split; [by apply binsert_ok|]. apply binsert_Forall; [|done].
    unfold group_ok. cbn [fst snd]. naive_solver.
  - intros [s w] m m' [Hm Hf] Hp. unfold parse_bucket in Hp. cbn [fst snd] in Hp. ok_inv. subst.
    split; [by apply binsert_ok|]. apply binsert_Forall; [|done].
    split; [done|]. by eapply positive_u32_Some.
  - repeat constructor.
Qed.

(** ** Round trip *)

Lemma binsert_last {V} (k : string) (v : V) m :
  Forall (fun j => klt j k) (bkeys m) -> binsert k v m = m ++ [(k, v)].
Proof.
  induction m as [|[j w] m IH]; cbn [bkeys map fst]; [done|].
  intros [Hj Hm]%Forall_cons. cbn. apply cmp_gt in Hj. cbn in Hj. rewrite Hj. by rewrite IH.
Qed.

Lemma sorted_middle {V} (m : list (string * V)) k v l :
  bmap_ok (m ++ (k, v) :: l) -> Forall (fun j => klt j k) (bkeys m) /\ bmap_ok ((m ++ [(k, v)]) ++ l).
Proof.
  intros H. split; [|by rewrite <- app_assoc].
  unfold bmap_ok, bkeys, bset_ok in H. rewrite map_app in H. cbn [map fst] in H.
  induction m as [|[j w] m IH]; cbn in *; [constructor|].
  inversion H as [|? ? Hr Hj]; subst. apply Forall_cons. split; [|by apply IH].
  rewrite Forall_app in Hj. by destruct Hj as [_ [Hj _]%Forall_cons].
Qed.

(** A loop that inserts what it reads in key order rebuilds the map. *)
Lemma rebuild {A V E} (f : A -> list (string * V) -> result (list (string * V)) E)
    (enc : string * V -> A) (l : list (string * V)) :
  (forall k v m, In (k, v) l -> f (enc (k, v)) m = Ok (binsert k v m)) ->
  bmap_ok l -> try_fold f (map enc l) [] = Ok l.
Proof.
  intros Hf Hl. change l with ([] ++ l) in Hl |- * at 2. revert Hl. generalize (@nil (string * V)).
  induction l as [|[k v] l IH]; intros m Hm; cbn; [by rewrite app_nil_r|].
  apply sorted_middle in Hm as [Hk Hm].
  rewrite Hf by (by left). cbn. rewrite binsert_last by done. rewrite IH; [|naive_solver|done].
  by rewrite <- app_assoc.
Qed.

Lemma overrides_reread t : overrides_ok t -> from_json (Some (to_json t)) = Ok t.
Proof.
  intros [Hs Ht]. unfold from_json, to_json. cbn [as_object ok_or rbind].
  apply rebuild; [|done]. intros g buckets m Hin.
  rewrite Forall_forall in Ht. apply list_elem_of_In, Ht in Hin as (Hk & Hne & Hb & Hf).
  unfold parse_group. cbn [fst snd] in *. rewrite Hk. cbn [as_object ok_or rbind].
  rewrite (rebuild (parse_bucket g) _ buckets); [|clear Hne|done].
  - cbn [rbind]. by destruct buckets.
  - intros s n m' Hin. rewrite Forall_forall in Hf. apply list_elem_of_In, Hf in Hin as [Hp Hn].
    unfold parse_bucket. cbn [fst snd] in *. rewrite Hp. unfold positive_u32. cbn [as_u64].
    rewrite (proj2 (Z.ltb_lt n _)), (proj2 (Z.ltb_lt 0 n)) by lia. done.
Qed.

(** What the parser accepts names known groups and buckets of theirs with
    positive 32-bit maxima, and its persisted form reads back as itself. *)
Theorem overrides_round_trip (v : option value) (t : TenantRateLimits) :
  from_json v = Ok t -> overrides_ok t /\ from_json (Some (to_json t)) = Ok t.
Proof. intros H%from_json_ok. split; [done|]. by apply overrides_reread. Qed.

Lemma overrides_round_trip_witness :
  from_json (Some (jobj [("token", jobj [("per_client", VNumber (PosInt 4))]); ("par", jobj [])]))%string
    = Ok [("token", [("per_client", 4)])]%string /\
  from_json (Some (to_json [("token", [("per_client", 4)])]))%string
    = Ok [("token", [("per_client", 4)])]%string.
Proof.
  split; [vm_compute; reflexivity|].
  apply (overrides_round_trip
    (Some (jobj [("token", jobj [("per_client", VNumber (PosInt 4))]); ("par", jobj [])]))%string).
  vm_compute. reflexivity.
Defined.

(** ** Resolution *)

(** [b] admits no more than [a], over the same window. *)
Definition tightens (a b : RateLimit) : Prop :=
  max_events b <= max_events a /\ window b = window a.

Lemma bounded_tightens t g s d : tightens d (bounded t g s d).
Proof. split; [|done]. unfold bounded. cbn. destruct (_ ≫= _); lia. Qed.

(** Whatever a tenant stored, and whatever the deployment's limits have become
    since, resolution admits no more than the deployment, keeps every window,
    hence every counter row, and neither adds a bucket nor drops one. *)
Theorem overrides_only_tighten (t : TenantRateLimits) (e : LimitedEndpoint)
    (d : EndpointLimit) (l : LoginLimits) :
  tightens (per_address d) (per_address (endpoint t e d)) /\
  option_Forall2 tightens (per_client d) (per_client (endpoint t e d)) /\
  option_Forall2 tightens (per_subject d) (per_subject (endpoint t e d)) /\
  tightens (login_per_address l) (login_per_address (login t l)) /\
  tightens (login_per_account l) (login_per_account (login t l)).
Proof.
  unfold endpoint, login. cbn [per_address per_client per_subject login_per_address login_per_account].
  split_and!; try apply bounded_tightens.
  - destruct (per_client d); constructor. apply bounded_tightens.
  - destruct (per_subject d); constructor. apply bounded_tightens.
Qed.

(** The limit a deployment has for a bucket of a group, by their names. *)
Definition deployed (l : LoginLimits) (limit : LimitedEndpoint -> EndpointLimit)
    (group scope : string) : option RateLimit :=
  if String.eqb group "login" then
    if String.eqb scope "per_address" then Some (login_per_address l)
    else if String.eqb scope "per_account" then Some (login_per_account l) else None
  else
    match find (fun e => String.eqb (LimitedEndpoint.as_str e) group) LimitedEndpoint.ALL with
    | None => None
    | Some e =>
        if String.eqb scope "per_address" then Some (per_address (limit e))
        else if String.eqb scope "per_client" then per_client (limit e)
        else if String.eqb scope "per_subject" then per_subject (limit e) else None
    end.

Lemma known_group_cases g :
  known_group g = true -> g = "login"%string \/ exists e, g = LimitedEndpoint.as_str e.
Proof.
  unfold known_group. rewrite orb_true_iff, String.eqb_eq, existsb_exists.
  intros [->|(e & _ & <-%String.eqb_eq)]; [by left|by right; exists e].
Qed.

Lemma permitted_scopes g s :
  permitted g s = true ->
  s = "per_address" \/ s = "per_account" \/ s = "per_client" \/ s = "per_subject".
Proof. unfold permitted. rewrite !orb_true_iff, !andb_true_iff, !String.eqb_eq. naive_solver. Qed.

Lemma describe_at t l endpoints e :
  vindex (LimitedEndpoint.as_str e) (describe t l endpoints) = describe_endpoint t endpoints e.
Proof. destruct e; reflexivity. Qed.

Lemma find_endpoint e :
  find (fun e' => String.eqb (LimitedEndpoint.as_str e') (LimitedEndpoint.as_str e))
    LimitedEndpoint.ALL = Some e.
Proof. destruct e; reflexivity. Qed.

Lemma endpoint_not_login e : String.eqb (LimitedEndpoint.as_str e) "login" = false.
Proof. destruct e; reflexivity. Qed.

Lemma deployed_endpoint l limit e s :
  deployed l limit (LimitedEndpoint.as_str e) s =
  if String.eqb s "per_address" then Some (per_address (limit e))
  else if String.eqb s "per_client" then per_client (limit e)
  else if String.eqb s "per_subject" then per_subject (limit e) else None.
Proof. unfold deployed. by rewrite endpoint_not_login, find_endpoint. Qed.

(** What [validate_against] reads out of the description is the deployment's
    own maximum. *)
Lemma ceiling_read l endpoints g s :
  known_group g = true -> permitted g s = true ->
  as_u64 (vindex "max" (vindex s (vindex g (describe [] l endpoints)))) =
  option_map max_events (deployed l (for_endpoint endpoints) g s).
Proof.
  intros [->|[e ->]]%known_group_cases Hp;
    apply permitted_scopes in Hp as [->|[->|[->| ->]]]; try reflexivity;
    rewrite describe_at, deployed_endpoint; unfold describe_endpoint, endpoint;
    destruct (for_endpoint endpoints e) as [a [c|] [u|]]; reflexivity.
Qed.

Lemma try_fold_unit {A E} (f : A -> unit -> result unit E) l :
  try_fold f l tt = Ok tt -> forall a, In a l -> f a tt = Ok tt.
Proof.
  induction l as [|b l IH]; cbn; [done|]. destruct (f b tt) as [[]|] eqn:Hb; cbn; [|done].
  intros H a [<-|Ha]; [done|by apply IH].
Qed.

(** An override [validate_against] accepted names a bucket the deployment uses,
    within its ceiling, and is exactly the maximum resolution then applies to
    that bucket. *)
Theorem validated_overrides_apply (t : TenantRateLimits) (l : LoginLimits)
    (endpoints : EndpointLimits) (g s : string) (max : Z) (bs : list (string * Z)) :
  overrides_ok t -> validate_against t l endpoints = Ok tt ->
  In (g, bs) t -> In (s, max) bs ->
  exists d, deployed l (for_endpoint endpoints) g s = Some d /\ max <= max_events d /\
    deployed (login t l) (fun e => endpoint t e (for_endpoint endpoints e)) g s
      = Some {| max_events := max; window := window d |}.
Proof.
  intros [Hs Ht] Hv Hg Hb.
  rewrite Forall_forall in Ht. destruct (Ht (g, bs) ltac:(by apply list_elem_of_In)) as (Hk & _ & Hm & Hf).
  rewrite Forall_forall in Hf. destruct (Hf (s, max) ltac:(by apply list_elem_of_In)) as [Hp _].
  cbn [fst snd] in *.
  pose proof (try_fold_unit _ _ Hv _ Hg) as Hv'. pose proof (try_fold_unit _ _ Hv' _ Hb) as Hc.
  clear Hv Hv'. unfold validate_bucket in Hc. cbn [fst snd] in Hc.
  rewrite ceiling_read in Hc by done.
  destruct (deployed l (for_endpoint endpoints) g s) as [d|] eqn:Hd; [|done]. cbn in Hc.
  destruct (Z.ltb_spec (max_events d) max) as [|Hle]; [done|].
  exists d. split; [done|]. split; [done|].
  assert (bounded t g s d = {| max_events := max; window := window d |}) as <-.
  { unfold bounded. rewrite (In_bget g bs) by done. cbn. rewrite (In_bget s max) by done.
    f_equal. lia. }
  apply known_group_cases in Hk as [->|[e ->]].
  - cbn in Hd |- *. destruct (String.eqb_spec s "per_address"); [by simplify_eq|].
    destruct (String.eqb_spec s "per_account"); [by simplify_eq|done].
  - rewrite deployed_endpoint in Hd |- *. unfold endpoint. cbn [per_address per_client per_subject].
    destruct (String.eqb_spec s "per_address"); [by simplify_eq|].
    destruct (String.eqb_spec s "per_client"); [subst; by rewrite Hd|].
    destruct (String.eqb_spec s "per_subject"); [subst; by rewrite Hd|done].
Qed.

Definition sample_limit (max : Z) : RateLimit := {| max_events := max; window := 900 * NANOS |}.
Definition sample_endpoint : EndpointLimit :=
  {| per_address := sample_limit 10; per_client := Some (sample_limit 10); per_subject := None |}.
Definition sample_endpoints : EndpointLimits :=
  let s := sample_endpoint in
  {| registration := s; client_configuration := s; par := s; token := s; device_authorization := s;
     userinfo := s; introspection := s; revocation := s; ssf_subjects := s; backchannel := s;
     access_evaluation := s |}.
Definition sample_login : LoginLimits :=
  {| login_per_address := sample_limit 10; login_per_account := sample_limit 10 |}.

Lemma validated_overrides_apply_witness :
  exists d, deployed sample_login (for_endpoint sample_endpoints) "token" "per_client" = Some d /\
    4 <= max_events d /\
    deployed (login [("token", [("per_client", 4)])] sample_login)
      (fun e => endpoint [("token", [("per_client", 4)])] e (for_endpoint sample_endpoints e))
      "token" "per_client" = Some {| max_events := 4; window := window d |}.
Proof.
  apply (validated_overrides_apply _ sample_login sample_endpoints "token" "per_client" 4 [("per_client", 4)]).
  - apply (from_json_ok (Some (to_json [("token", [("per_client", 4)])]))). reflexivity.
  - vm_compute. reflexivity.
  - by left.
  - by left.
Defined.
