(* ===== verification/Throttle.v ===== *)
(** * The limiters

    What spends the counters of [RateLimit]: the admin API's limiter
    ([crates/admin-api/src/throttle.rs]), the endpoint limiter
    ([crates/server/src/http/limits.rs]) and the login limiter
    ([crates/server/src/http/throttle.rs]), over any [RateLimitStore]; and the
    PostgreSQL store ([crates/store-pg/src/rate_limits.rs]) as an instance.
    Metrics and log lines are not modelled; the audit record a refusal writes is
    an output. *)

From S2P Require Import Prelude RateLimit RateOverrides.

Open Scope Z_scope.

(** [Duration::whole_milliseconds], clamped into a [u64], rounded up. *)
Definition retry_after_seconds (remaining : Z) : Z :=
  let whole_milliseconds := Z.quot remaining 1000000 in
  let millis := Z.min (Z.max whole_milliseconds 0) (2 ^ 64 - 1) in
  Z.max ((millis + 999) / 1000) 1.

Record Refused : Type := { refused_scope : Scope; refused_retry_after : Z }.

Section Limiters.
Context {St : Type} `{RateLimitStore St}.
Variable sha256_hex : string -> string.
Variable nfkc to_lowercase trim : string -> string.

(** ** The admin API *)

Inductive AdminError : Type := Throttled (retry_after_seconds : Z) | AdminUnavailable.

Definition admit_request (s : St) (limit : RateLimit) (tenant : string) (address : option string) (now : Z)
    : St * result unit AdminError :=
  match address with
  | None => (s, Ok tt)
  | Some address =>
      let bucket := admin_api_bucket address in
      let window_start := RateLimit.window_start limit now in
      match record s tenant bucket window_start (RateLimit.window_end limit now) with
      | (s, Err _) => (s, Err AdminUnavailable)
      | (s, Ok counted) =>
          if RateLimit.admits limit (Z.max (counted - 1) 0) then (s, Ok tt)
          else (s, Err (Throttled (retry_after_seconds (RateLimit.retry_after limit now))))
      end
  end.

(** ** Endpoints *)

Record Full : Type := { full_scope : Scope; full_bucket : string; full_limit : RateLimit }.

(** [settings] is the answer of the settings directory for the request's
    tenant, where the limiter was given one. *)
Record EndpointThrottle : Type := {
  limits : EndpointLimits;
  address : option string;
  settings : option (result (list (string * list (string * Z))) DomainError)
}.

Definition effective_limit (t : EndpointThrottle) (e : LimitedEndpoint)
    : result EndpointLimit DomainError :=
  let deployment := for_endpoint (limits t) e in
  match settings t with
  | Some settings => let? o := settings in Ok (endpoint o e deployment)
  | None => Ok deployment
  end.

Definition buckets (t : EndpointThrottle) (e : LimitedEndpoint) (client_id : option string)
    (limit : EndpointLimit) : list Full :=
  match address t with
  | Some address => [{| full_scope := Address; full_bucket := endpoint_address_bucket e address;
                        full_limit := per_address limit |}]
  | None => []
  end ++
  match client_id, per_client limit with
  | Some client_id, Some per_client =>
      [{| full_scope := Client; full_bucket := endpoint_client_bucket sha256_hex e client_id;
          full_limit := per_client |}]
  | _, _ => []
  end.

(** The loop of [check]. *)
Fixpoint check_buckets (s : St) (tenant : string) (l : list Full) (now : Z)
    : St * result (option Full) DomainError :=
  match l with
  | [] => (s, Ok None)
  | full :: l =>
      match count s tenant (full_bucket full) (RateLimit.window_start (full_limit full) now) with
      | (s, Err e) => (s, Err e)
      | (s, Ok counted) =>
          if negb (RateLimit.admits (full_limit full) counted) then (s, Ok (Some full))
          else check_buckets s tenant l now
      end
  end.

Definition check (s : St) (t : EndpointThrottle) (tenant : string) (e : LimitedEndpoint)
    (client_id : option string) (now : Z) : St * result (option Full) DomainError :=
  match effective_limit t e with
  | Err err => (s, Err err)
  | Ok limit => check_buckets s tenant (buckets t e client_id limit) now
  end.

Definition has_scope (sc : Scope) (full : Full) : bool :=
  match full_scope full, sc with
  | Address, Address | Account, Account | Client, Client | Subject, Subject => true
  | _, _ => false
  end.

Definition charged (t : EndpointThrottle) (e : LimitedEndpoint) (client_id : option string)
    (succeeded : bool) : option Full :=
  let buckets := buckets t e client_id (for_endpoint (limits t) e) in
  if succeeded then
    match find (has_scope Client) buckets with
    | Some full => Some full
    | None => head buckets
    end
  else find (has_scope Address) buckets.

(** A write that fails is swallowed. *)
Definition charge (s : St) (t : EndpointThrottle) (tenant : string) (e : LimitedEndpoint)
    (client_id : option string) (succeeded : bool) (now : Z) : St :=
  match charged t e client_id succeeded with
  | None => s
  | Some full =>
      fst (record s tenant (full_bucket full) (RateLimit.window_start (full_limit full) now)
             (RateLimit.window_end (full_limit full) now))
  end.

Definition first_refusal_in_window (s : St) (tenant : string) (full : Full) (now : Z) : St * bool :=
  match record s tenant (audited_once_bucket (full_bucket full))
          (RateLimit.window_start (full_limit full) now)
          (RateLimit.window_end (full_limit full) now) with
  | (s, Ok count) => (s, count =? 1)
  | (s, Err _) => (s, false)
  end.

Definition refused (full : Full) (now : Z) : Refused :=
  {| refused_scope := full_scope full;
     refused_retry_after := RateLimit.retry_after (full_limit full) now |}.

(** What a guarded endpoint answered: its handler's response, a 429 or a 503. *)
Inductive Answer (Response : Type) : Type :=
| Handled (r : Response)
| TooManyRequests (r : Refused)
| Unavailable.
Arguments Handled {Response} r.
Arguments TooManyRequests {Response} r.
Arguments Unavailable {Response}.

(** The refusal path: the marker, and the record the first refusal writes. *)
Definition refuse {Response} (s : St) (tenant : string) (full : Full) (now : Z)
    : St * Answer Response * option Refused :=
  let '(s, first) := first_refusal_in_window s tenant full now in
  (s, TooManyRequests (refused full now), if first then Some (refused full now) else None).

Definition guard {Response} (is_success : Response -> bool) (s : St) (t : EndpointThrottle)
    (tenant : string) (e : LimitedEndpoint) (client_id : option string) (now : Z)
    (handler : St -> St * Response) : St * Answer Response * option Refused :=
  match check s t tenant e client_id now with
  | (s, Err _) => (s, Unavailable, None)
  | (s, Ok (Some full)) => refuse s tenant full now
  | (s, Ok None) =>
      let '(s, response) := handler s in
      (charge s t tenant e client_id (is_success response) now, Handled response, None)
  end.

(** [None] lets the request proceed, charged on the way in. *)
Definition guard_subject (s : St) (t : EndpointThrottle) (tenant : string) (e : LimitedEndpoint)
    (subject : string) (now : Z) : St * option (Answer unit) * option Refused :=
  match effective_limit t e with
  | Err _ => (s, Some Unavailable, None)
  | Ok effective =>
      match per_subject effective with
      | None => (s, None, None)
      | Some limit =>
          let full := {| full_scope := Subject;
                         full_bucket := endpoint_subject_bucket sha256_hex e subject;
                         full_limit := limit |} in
          match count s tenant (full_bucket full) (RateLimit.window_start limit now) with
          | (s, Err _) => (s, Some Unavailable, None)
          | (s, Ok counted) =>
              if negb (RateLimit.admits limit counted) then
                let '(s, answer, audit) := refuse s tenant full now in (s, Some answer, audit)
              else
                (fst (record s tenant (full_bucket full) (RateLimit.window_start limit now)
                        (RateLimit.window_end limit now)), None, None)
          end
      end
  end.

(** ** Login *)

Record Attempt : Type := { attempt_address : option string; attempt_account : option string }.

Record LoginThrottle : Type := {
  login_limits : LoginLimits;
  login_address : option string;
  login_settings : option (result (list (string * list (string * Z))) DomainError)
}.

Definition attempt (t : LoginThrottle) (username : option string) : Attempt :=
  {| attempt_address := option_map ip_bucket (login_address t);
     attempt_account := option_map (account_bucket sha256_hex nfkc to_lowercase trim) username |}.

Fixpoint check_attempt (s : St) (tenant : string) (l : list (Scope * option string * RateLimit))
    (now : Z) : St * result (option Refused) DomainError :=
  match l with
  | [] => (s, Ok None)
  | (_, None, _) :: l => check_attempt s tenant l now
  | (scope, Some bucket, limit) :: l =>
      match count s tenant bucket (RateLimit.window_start limit now) with
      | (s, Err e) => (s, Err e)
      | (s, Ok counted) =>
          if negb (RateLimit.admits limit counted) then
            (s, Ok (Some {| refused_scope := scope;
                            refused_retry_after := RateLimit.retry_after limit now |}))
          else check_attempt s tenant l now
      end
  end.

Definition login_check (s : St) (t : LoginThrottle) (tenant : string) (a : Attempt) (now : Z)
    : St * result (option Refused) DomainError :=
  match match login_settings t with
        | Some settings => let? o := settings in Ok (login o (login_limits t))
        | None => Ok (login_limits t)
        end with
  | Err e => (s, Err e)
  | Ok limits =>
      check_attempt s tenant
        [(Address, attempt_address a, login_per_address limits);
         (Account, attempt_account a, login_per_account limits)] now
  end.

Definition record_success (s : St) (tenant : string) (a : Attempt) : St :=
  match attempt_account a with
  | None => s
  | Some bucket => fst (clear s tenant bucket)
  end.

Definition record_failure (s : St) (t : LoginThrottle) (tenant : string) (a : Attempt) (now : Z) : St :=
  fold_left (fun s '(bucket, limit) =>
    match bucket with
    | None => s
    | Some bucket =>
        fst (record s tenant bucket (RateLimit.window_start limit now) (RateLimit.window_end limit now))
    end)
    [(attempt_address a, login_per_address (login_limits t));
     (attempt_account a, login_per_account (login_limits t))] s.

(** ** What a guarded request does to the counters *)

(** The counter a bucket is counted on at [now]. *)
Definition key_of (tenant : string) (full : Full) (now : Z) : Key :=
  (tenant, full_bucket full, RateLimit.window_start (full_limit full) now).

(** [s'] differs from [s] at most in [k], by at most one event. *)
Definition spends (k : Key) (s s' : St) : Prop :=
  store_ok s' /\ (forall j, j <> k -> counter s' j = counter s j) /\
  counter s k <= counter s' k <= counter s k + 1.

Definition unspent (s s' : St) : Prop := store_ok s' /\ forall k, counter s' k = counter s k.

Lemma check_buckets_spec l s tenant now s' r :
  store_ok s -> check_buckets s tenant l now = (s', r) ->
  unspent s s' /\
  (r = Ok None -> Forall (fun f => counter s (key_of tenant f now) < max_events (full_limit f)) l) /\
  (forall f, r = Ok (Some f) -> In f l /\ max_events (full_limit f) <= counter s (key_of tenant f now)).
Proof.
  clear sha256_hex nfkc to_lowercase trim.
  revert s. induction l as [|f l IH]; intros s Hs; cbn.
  - intros [= <- <-]. split; [done|]. split; [constructor|done].
  - destruct (count s tenant _ _) as [s1 [n|e]] eqn:Hc;
      apply count_law in Hc as (Hs1 & Hk & Hn); [|done| |done].
    + specialize (Hn _ eq_refl). unfold RateLimit.admits.
      destruct (Z.ltb_spec n (max_events (full_limit f))) as [Hlt|Hge]; cbn [negb].
      * intros (Hu & Hnone & Hsome)%IH; [|done]. unfold unspent in *.
        setoid_rewrite Hk in Hu. setoid_rewrite Hk in Hnone. setoid_rewrite Hk in Hsome.
        split; [done|]. split.
        -- intros Hr. constructor; [unfold key_of; lia|by apply Hnone].
        -- intros g Hg. apply Hsome in Hg. naive_solver.
      * intros [= <- <-]. split; [done|]. split; [done|]. intros g [= <-].
        split; [by left|unfold key_of; lia].
    + intros [= <- <-]. done.
Qed.

Lemma spends_record s tenant b w e :
  store_ok s -> spends (tenant, b, w) s (fst (record s tenant b w e)).
Proof.
  intros Hs. destruct (record s tenant b w e) as [s' r] eqn:Hr.
  apply record_law in Hr as (? & ? & ? & _); [|done]. done.
Qed.

Lemma unspent_spends k s s' : unspent s s' -> spends k s s'.
Proof. intros [? E]. split; [done|]. rewrite E. split; [naive_solver|lia]. Qed.

(** A request behind a limit. A failed read answers 503 and changes nothing; a
    full bucket answers 429 with that bucket's scope and hint, runs no handler,
    and touches the bucket's own marker alone, with a record only the first
    time. Otherwise every bucket the request could be charged to had room, the
    handler ran once, on unchanged counters, and at most one counter moved
    after it, by one event: the named client's if the request succeeded and the
    endpoint has a client limit, the address's otherwise. So a request that
    fails never spends the budget of the client it claims to be. *)
Theorem guard_spends_one_bucket {Response} (is_success : Response -> bool) (s : St)
    (t : EndpointThrottle) (tenant : string) (e : LimitedEndpoint) (client_id : option string)
    (now : Z) (handler : St -> St * Response) :
  store_ok s -> (forall s, store_ok s -> store_ok (fst (handler s))) ->
  match guard is_success s t tenant e client_id now handler with
  | (s', Unavailable, audit) => unspent s s' /\ audit = None
  | (s', TooManyRequests r, audit) =>
      exists limit full, effective_limit t e = Ok limit /\ In full (buckets t e client_id limit) /\
        max_events (full_limit full) <= counter s (key_of tenant full now) /\
        r = refused full now /\
        let marker := (tenant, audited_once_bucket (full_bucket full),
                       RateLimit.window_start (full_limit full) now) in
        spends marker s s' /\
        (audit = None \/ audit = Some r /\ counter s marker = 0 /\ counter s' marker = 1)
  | (s', Handled response, audit) =>
      audit = None /\ exists limit s1, effective_limit t e = Ok limit /\ unspent s s1 /\
        Forall (fun f => counter s (key_of tenant f now) < max_events (full_limit f))
          (buckets t e client_id limit) /\
        snd (handler s1) = response /\
        match charged t e client_id (is_success response) with
        | None => s' = fst (handler s1)
        | Some full =>
            spends (key_of tenant full now) (fst (handler s1)) s' /\
            (is_success response = false -> full_scope full = Address)
        end
  end.
Proof.
  clear nfkc to_lowercase trim.
  intros Hs Hh. unfold guard, check.
  destruct (effective_limit t e) as [limit|err] eqn:El; [|by split].
  destruct (check_buckets s tenant _ now) as [s1 [[full|]|err]] eqn:Hc;
    apply check_buckets_spec in Hc as ([Hs1 Hk] & Hnone & Hsome); try done.
  - destruct (Hsome _ eq_refl) as [Hin Hfull]. unfold refuse, first_refusal_in_window.
    destruct (record s1 tenant _ _ _) as [s2 r] eqn:Hr.
    apply record_law in Hr as (Hs2 & Hj & Hb & Hn); [|done]. rewrite Hk in Hb.
    assert (spends (tenant, audited_once_bucket (full_bucket full),
      RateLimit.window_start (full_limit full) now) s s2) as Hsp.
    { split; [done|]. split; [|done]. intros j ?. rewrite Hj by done. apply Hk. }
    destruct r as [n|?]; exists limit, full; cbn zeta; repeat (split; [done|]); [|by left].
    destruct (Hn _ eq_refl) as [Hn1 Hn2]. rewrite Hk in Hn1.
    destruct (Z.eqb_spec n 1); [right|by left]. split; [done|lia].
  - specialize (Hnone eq_refl). pose proof (Hh s1 Hs1) as Hok.
    destruct (handler s1) as [s2 response] eqn:Hrun. cbn in Hok.
    split; [done|]. exists limit, s1. rewrite Hrun. cbn [fst snd]. repeat (split; [done|]).
    unfold charge. destruct (charged t e client_id _) as [full|] eqn:Ech; [|done].
    split; [by apply spends_record|]. intros Hf. unfold charged in Ech. rewrite Hf in Ech.
    apply find_some in Ech as [_ Hsc]. unfold has_scope in Hsc. by destruct (full_scope full).
Qed.

(** Who is charged. *)
Lemma charged_success t e client_id :
  charged t e client_id true =
  match client_id, per_client (for_endpoint (limits t) e), address t with
  | Some c, Some l, _ => Some {| full_scope := Client;
      full_bucket := endpoint_client_bucket sha256_hex e c; full_limit := l |}
  | _, _, Some a => Some {| full_scope := Address;
      full_bucket := endpoint_address_bucket e a; full_limit := per_address (for_endpoint (limits t) e) |}
  | _, _, None => None
  end.
Proof.
  unfold charged, buckets.
  destruct client_id, (per_client (for_endpoint (limits t) e)), (address t); reflexivity.
Qed.

End Limiters.
Arguments Handled {Response} r.
Arguments TooManyRequests {Response} r.
Arguments Unavailable {Response}.

(** ** The admin limiter over a history

    Requests of every tenant and address, at the clock of the replicas, and in
    between whatever else touches the store: other limiters, and the sweep of
    rows whose window is over. *)

Section History.
Context {St : Type} `{RateLimitStore St}.

(** A step of something else at [now] forgets no live admin counter. *)
Definition environment (limit : RateLimit) (now : Z) (s s' : St) : Prop :=
  store_ok s' /\
  forall tenant ip w, now < w + window limit ->
    counter s (tenant, admin_api_bucket ip, w) <= counter s' (tenant, admin_api_bucket ip, w).

Inductive history (limit : RateLimit) : St -> Z -> list (string * string * Z) -> Prop :=
| history_start s now : store_ok s -> history limit s now []
| history_admitted s t admitted tenant ip now s' :
    history limit s t admitted -> t <= now ->
    admit_request s limit tenant (Some ip) now = (s', Ok tt) ->
    history limit s' now ((tenant, ip, now) :: admitted)
| history_refused s t admitted tenant ip now s' err :
    history limit s t admitted -> t <= now ->
    admit_request s limit tenant (Some ip) now = (s', Err err) ->
    history limit s' now admitted
| history_other s t admitted now s' :
    history limit s t admitted -> t <= now -> environment limit now s s' ->
    history limit s' now admitted.

(** How many requests of an address were admitted in a window. *)
Definition in_window (limit : RateLimit) (tenant ip : string) (w : Z) (a : string * string * Z) : bool :=
  let '(t, i, now) := a in
  String.eqb t tenant && String.eqb i ip && (RateLimit.window_start limit now =? w).

Definition tally (p : string * string * Z -> bool) (l : list (string * string * Z)) : Z :=
  Z.of_nat (length (List.filter p l)).

Lemma tally_cons p a l : tally p (a :: l) = (if p a then 1 else 0) + tally p l.
Proof. unfold tally. cbn. destruct (p a); cbn [length]; lia. Qed.

Lemma admit_record s limit tenant ip now s' r :
  admit_request s limit tenant (Some ip) now = (s', r) ->
  exists r', record s tenant (admin_api_bucket ip) (RateLimit.window_start limit now)
               (RateLimit.window_end limit now) = (s', r') /\
    (r = Ok tt -> exists n, r' = Ok n /\ Z.max (n - 1) 0 < max_events limit).
Proof.
  unfold admit_request. destruct (record s tenant _ _ _) as [s1 [n|err]]; [|naive_solver].
  unfold RateLimit.admits. destruct (Z.ltb_spec (Z.max (n - 1) 0) (max_events limit)); naive_solver.
Qed.

Lemma history_invariant limit s t admitted :
  whole limit -> 0 <= max_events limit -> history limit s t admitted ->
  store_ok s /\ forall tenant ip w,
    tally (in_window limit tenant ip w) admitted <= max_events limit /\
    (t < w + window limit ->
     tally (in_window limit tenant ip w) admitted <= counter s (tenant, admin_api_bucket ip, w)).
Proof.
  intros Hw Hmax. induction 1 as
    [s now Hs | s t admitted tenant ip now s' Hh IH Hle Ha
    | s t admitted tenant ip now s' err Hh IH Hle Ha | s t admitted now s' Hh IH Hle [Hs' He]].
  - split; [done|]. intros. unfold tally. cbn. pose proof (counter_nonneg s (tenant, admin_api_bucket ip, w) Hs). lia.
  - destruct IH as [Hs IH]. apply admit_record in Ha as (r' & Hr & Hok).
    destruct (Hok eq_refl) as (n & -> & Hn). apply record_law in Hr as (Hs' & Hk & _ & Hc); [|done].
    destruct (Hc _ eq_refl) as [Hn1 Hn2]. split; [done|]. intros tenant' ip' w.
    destruct (IH tenant' ip' w) as [IH1 IH2]. rewrite tally_cons.
    pose proof (window_contains limit now) as Hin. rewrite (window_end_whole _ _ Hw) in Hin.
    destruct (decide ((tenant', admin_api_bucket ip', w) =
                      (tenant, admin_api_bucket ip, RateLimit.window_start limit now))) as [E|E].
    + assert (tenant' = tenant /\ ip' = ip /\ w = RateLimit.window_start limit now) as (-> & -> & ->).
      { unfold admin_api_bucket in E. by simplify_eq. }
      unfold in_window at 1 3. rewrite !String.eqb_refl, Z.eqb_refl. cbn [andb]. lia.
    + rewrite (Hk _ E).
      assert (in_window limit tenant' ip' w (tenant, ip, now) = false) as ->; [|lia].
      unfold in_window. apply not_true_iff_false. rewrite !andb_true_iff, !String.eqb_eq, Z.eqb_eq.
      intros [[-> ->] <-]. done.
  - destruct IH as [Hs IH]. apply admit_record in Ha as (r' & Hr & _).
    apply record_law in Hr as (Hs' & Hk & Hb & _); [|done]. split; [done|]. intros tenant' ip' w.
    destruct (IH tenant' ip' w) as [IH1 IH2]. split; [done|]. intros Hlt.
    destruct (decide ((tenant', admin_api_bucket ip', w) =
                      (tenant, admin_api_bucket ip, RateLimit.window_start limit now))) as [E|E].
    + rewrite E in *. lia.
    + rewrite (Hk _ E). lia.
  - destruct IH as [Hs IH]. split; [done|]. intros tenant ip w. destruct (IH tenant ip w) as [IH1 IH2].
    split; [done|]. intros Hlt. specialize (He tenant ip w Hlt). lia.
Qed.

Lemma tally_split p q r l :
  (forall a, In a l -> p a = true -> q a = true \/ r a = true) -> tally p l <= tally q l + tally r l.
Proof.
  induction l as [|a l IH]; intros Hp; [done|]. rewrite !tally_cons.
  assert (tally p l <= tally q l + tally r l) by (apply IH; intros; apply Hp; [by right|done]).
  destruct (p a) eqn:E; [|destruct (q a), (r a); lia].
  destruct (Hp a (or_introl eq_refl) E) as [-> | ->]; [destruct (r a)|destruct (q a)]; lia.
Qed.

(** Requests of an address admitted in [lo, lo + d). *)
Definition in_span (tenant ip : string) (lo d : Z) (a : string * string * Z) : bool :=
  let '(t, i, now) := a in String.eqb t tenant && String.eqb i ip && (lo <=? now) && (now <? lo + d).

(** Over any history, however requests, replicas, failed writes and the sweep
    interleave, an address is admitted at most [max] times in a window, and at
    most twice that in any stretch of time as long as a window. *)
Theorem admin_rate_bound (limit : RateLimit) (s : St) (t : Z) (admitted : list (string * string * Z)) :
  whole limit -> 0 <= max_events limit -> history limit s t admitted ->
  forall tenant ip,
    (forall w, tally (in_window limit tenant ip w) admitted <= max_events limit) /\
    (forall lo, tally (in_span tenant ip lo (window limit)) admitted <= 2 * max_events limit).
Proof.
  intros Hw Hm Hh tenant ip. destruct (history_invariant _ _ _ _ Hw Hm Hh) as [_ Hi].
  split; [intros w; apply Hi|]. intros lo.
  pose proof (window_contains limit lo) as Hlo. rewrite (window_end_whole _ _ Hw) in Hlo.
  set (w := RateLimit.window_start limit lo) in *.
  rewrite (tally_split _ (in_window limit tenant ip w) (in_window limit tenant ip (w + window limit))).
  - destruct (Hi tenant ip w) as [? _], (Hi tenant ip (w + window limit)) as [? _]. lia.
  - intros [[t' i'] now] _. unfold in_span, in_window.
    rewrite !andb_true_iff, Z.leb_le, Z.ltb_lt, !Z.eqb_eq. intros [[[-> ->] Hge] Hlt].
    destruct Hw as (sec & Hsec & Hwin). unfold w in *.
    rewrite !(window_start_whole limit sec) in * by done.
    assert (now / window limit = lo / window limit \/ now / window limit = lo / window limit + 1) as [-> | ->].
    { pose proof (Z.div_le_mono lo now (window limit)).
      pose proof (Z.div_le_mono now (lo + 1 * window limit) (window limit)).
      rewrite Z.div_add in * by (rewrite Hwin; unfold NANOS; lia).
      assert (0 < window limit) by (rewrite Hwin; unfold NANOS; lia). lia. }
    + by left.
    + right. split; [done|lia].
Qed.
End History.

(** ** The hint a refused client is given *)

(** The hint is at least a second and short of the wait by less than a
    millisecond: the milliseconds are truncated before the seconds are rounded
    up. *)
Lemma retry_hint_bound d :
  0 <= d < 2 ^ 80 ->
  1 <= retry_after_seconds d /\
  d - 1000000 < retry_after_seconds d * NANOS /\
  (NANOS <= d -> retry_after_seconds d * NANOS < d + NANOS).
Proof.
  intros Hd. unfold retry_after_seconds, NANOS. rewrite Z.quot_div_nonneg by lia.
  pose proof (Z.div_mod d 1000000 ltac:(done)). pose proof (Z.mod_pos_bound d 1000000 ltac:(done)).
  assert (d / 1000000 < 2 ^ 64 - 1) by (apply Z.div_lt_upper_bound; lia).
  rewrite (Z.max_l _ 0), Z.min_l by lia. set (ms := d / 1000000) in *.
  pose proof (Z.div_mod (ms + 999) 1000 ltac:(done)). pose proof (Z.mod_pos_bound (ms + 999) 1000 ltac:(done)).
  lia.
Qed.

Definition minute_limit : RateLimit := {| max_events := 600; window := 60 * NANOS |}.

(** A request refused with half a millisecond to spare over a second is told to
    wait one second, and a client that does is still inside the window: the
    comment on [retry_after_seconds] says rounding up rules this out. *)
Theorem retry_hint_can_be_short :
  exists l now, whole l /\
    retry_after_seconds (RateLimit.retry_after l now) = 1 /\
    RateLimit.window_start l (now + 1 * NANOS) = RateLimit.window_start l now /\
    forall d, 0 <= d < 2 ^ 80 -> d - 1000000 < retry_after_seconds d * NANOS.
Proof.
  exists minute_limit, 58999500000. split; [exists 60; done|].
  split; [reflexivity|]. split; [reflexivity|]. intros d Hd. by apply retry_hint_bound.
Qed.

(** ** The store over PostgreSQL *)

(** A row of [rate_limits], by its primary key: the counter is an [integer]. *)
Record Row : Type := { row_counter : Z; row_expires_at : Z }.

(** What became of a statement: its answer arrived, it never ran, or it ran and
    its answer was lost. *)
Inductive Fault : Type := Answered | Unsent | Lost.

Record PgRateLimitStore : Type := { rows : gmap Key Row; faults : list Fault }.

Definition I32_MAX : Z := 2147483647.
Definition U32_MAX : Z := 4294967295.

Definition saturate (counter : Z) : Z :=
  if (0 <=? counter) && (counter <=? U32_MAX) then counter else U32_MAX.

Definition statement {A} (s : PgRateLimitStore) (run : gmap Key Row -> gmap Key Row * result A DomainError)
    : PgRateLimitStore * result A DomainError :=
  let '(after, r) := run (rows s) in
  match faults s with
  | [] => ({| rows := after; faults := [] |}, r)
  | Answered :: f => ({| rows := after; faults := f |}, r)
  | Unsent :: f => ({| rows := rows s; faults := f |}, Err Storage)
  | Lost :: f => ({| rows := after; faults := f |}, Err Storage)
  end.

Definition pg_count (s : PgRateLimitStore) (tenant bucket : string) (window_start : Z)
    : PgRateLimitStore * result Z DomainError :=
  statement s (fun m => (m, Ok
    match m !! (tenant, bucket, window_start) with Some r => saturate (row_counter r) | None => 0 end)).

(** The upsert; an [integer] that would overflow is an error of the statement. *)
Definition pg_record (s : PgRateLimitStore) (tenant bucket : string) (window_start expires_at : Z)
    : PgRateLimitStore * result Z DomainError :=
  statement s (fun m =>
    let k := (tenant, bucket, window_start) in
    match m !! k with
    | None => (<[k := {| row_counter := 1; row_expires_at := expires_at |}]> m, Ok (saturate 1))
    | Some r =>
        if I32_MAX <? row_counter r + 1 then (m, Err Storage)
        else (<[k := {| row_counter := row_counter r + 1;
                        row_expires_at := Z.max (row_expires_at r) expires_at |}]> m,
              Ok (saturate (row_counter r + 1)))
    end).

Definition pg_clear (s : PgRateLimitStore) (tenant bucket : string)
    : PgRateLimitStore * result unit DomainError :=
  statement s (fun m => (filter (fun kr => kr.1.1 <> (tenant, bucket)) m, Ok tt)).

(** A batch of the retention sweep: of the rows picked, those of the tenant
    that expired. *)
Definition sweep (s : PgRateLimitStore) (tenant : string) (now : Z) (picked : list Key)
    : PgRateLimitStore :=
  {| rows := filter (fun kr => ~ (kr.1 ∈ picked /\ kr.1.1.1 = tenant /\ row_expires_at kr.2 <= now))
               (rows s);
     faults := faults s |}.

Definition rows_ok (s : PgRateLimitStore) : Prop :=
  map_Forall (fun _ r => 1 <= row_counter r <= I32_MAX) (rows s).

Definition pg_counter (s : PgRateLimitStore) (k : Key) : Z :=
  match rows s !! k with Some r => row_counter r | None => 0 end.

(** What a statement did: one of the two states, and the answer only of the
    one that ran. *)
Lemma statement_cases {A} s run (s' : PgRateLimitStore) (r : result A DomainError) :
  statement s run = (s', r) ->
  (rows s' = rows s /\ r = Err Storage) \/
  (rows s' = fst (run (rows s)) /\ (r = snd (run (rows s)) \/ r = Err Storage)).
Proof.
  unfold statement. destruct (run (rows s)) as [after o]. destruct (faults s) as [|[] f];
    intros [= <- <-]; cbn; naive_solver.
Qed.

Lemma saturate_id c : 0 <= c <= I32_MAX -> saturate c = c.
Proof.
  intros Hc. unfold saturate, I32_MAX, U32_MAX in *.
  by rewrite (proj2 (Z.leb_le 0 c)), (proj2 (Z.leb_le c _)) by lia.
Qed.

Lemma rows_counter s k : rows_ok s -> 0 <= pg_counter s k <= I32_MAX.
Proof.
  intros Hs. unfold pg_counter. destruct (rows s !! k) eqn:E; [|unfold I32_MAX; lia].
  apply Hs in E. lia.
Qed.

Lemma pg_count_law s t b w s' r :
  rows_ok s -> pg_count s t b w = (s', r) ->
  rows_ok s' /\ (forall k, pg_counter s' k = pg_counter s k) /\
  (forall n, r = Ok n -> n = pg_counter s (t, b, w)).
Proof.
  intros Hs Hc. unfold pg_count in Hc. apply statement_cases in Hc.
  pose proof (rows_counter s (t, b, w) Hs) as Hb.
  assert (rows s' = rows s) as E by naive_solver. unfold rows_ok, pg_counter in *. rewrite E.
  split; [done|]. split; [done|]. intros n ->.
  destruct Hc as [[_ ?]|[_ [Hr|?]]]; [done| |done]. cbn in Hr. injection Hr as ->.
  destruct (rows s !! _); [by rewrite saturate_id|done].
Qed.

Lemma pg_record_law s t b w e s' r :
  rows_ok s -> pg_record s t b w e = (s', r) ->
  rows_ok s' /\ (forall k, k <> (t, b, w) -> pg_counter s' k = pg_counter s k) /\
  pg_counter s (t, b, w) <= pg_counter s' (t, b, w) <= pg_counter s (t, b, w) + 1 /\
  (forall n, r = Ok n -> n = pg_counter s (t, b, w) + 1 /\ pg_counter s' (t, b, w) = n).
Proof.
  intros Hs Hc. unfold pg_record in Hc. apply statement_cases in Hc.
  pose proof (rows_counter s (t, b, w) Hs) as Hb. unfold rows_ok, pg_counter in *.
  destruct Hc as [[E ->]|[E Hr]]; rewrite E; [split; [done|]; split; [done|]; split; [lia|done]|].
  destruct (rows s !! (t, b, w)) as [row|] eqn:El.
  - destruct (Z.ltb_spec I32_MAX (row_counter row + 1)); cbn [fst snd] in *.
    + rewrite El. split; [done|]. split; [done|]. split; [lia|]. naive_solver.
    + rewrite lookup_insert. rewrite decide_True by done. cbn [row_counter]. split_and!.
      * apply map_Forall_insert_2; [cbn; lia|done].
      * intros k Hk. by rewrite lookup_insert_ne.
      * lia.
      * lia.
      * intros n ->. destruct Hr as [[= ->]|]; [|done]. rewrite saturate_id by lia. lia.
  - cbn [fst snd] in *. rewrite lookup_insert. rewrite decide_True by done. cbn [row_counter]. split_and!.
    + apply map_Forall_insert_2; [unfold I32_MAX; cbn; lia|done].
    + intros k Hk. by rewrite lookup_insert_ne.
    + lia.
    + lia.
    + intros n ->. destruct Hr as [[= ->]|]; [|done]. done.
Qed.

Lemma lookup_cleared (P : Key * Row -> Prop) `{forall x, Decision (P x)} (m : gmap Key Row) k :
  filter P m !! k = match m !! k with Some r => if decide (P (k, r)) then Some r else None | None => None end.
Proof.
  rewrite map_lookup_filter. destruct (m !! k); [|done]. cbn.
  destruct (decide (P (k, r))); [by rewrite option_guard_True|by rewrite option_guard_False].
Qed.

Lemma map_Forall_filtered (P : Key * Row -> Prop) `{forall x, Decision (P x)} (m : gmap Key Row) Q :
  map_Forall Q m -> map_Forall Q (filter P m).
Proof. intros Hm k r [Hk _]%map_lookup_filter_Some. by eapply Hm. Qed.

Lemma pg_clear_law s t b s' r :
  rows_ok s -> pg_clear s t b = (s', r) ->
  rows_ok s' /\ (forall k, k.1 <> (t, b) -> pg_counter s' k = pg_counter s k) /\
  (forall w, 0 <= pg_counter s' (t, b, w) <= pg_counter s (t, b, w)) /\
  (r = Ok tt -> forall w, pg_counter s' (t, b, w) = 0).
Proof.
  intros Hs Hc. unfold pg_clear in Hc. apply statement_cases in Hc.
  destruct Hc as [[E ->]|[E Hr]]; unfold rows_ok, pg_counter in *; rewrite E; cbn [fst snd] in *.
  - split; [done|]. split; [done|]. split; [|done]. intros w.
    pose proof (rows_counter s (t, b, w) Hs) as Hb. unfold pg_counter in Hb. lia.
  - split; [by apply map_Forall_filtered|].
    assert (forall w, match filter (fun kr : Key * Row => kr.1.1 <> (t, b)) (rows s) !! (t, b, w) with
                      | Some r => row_counter r | None => 0 end = 0) as Hz.
    { intros w. rewrite lookup_cleared. destruct (rows s !! _); [|done]. by rewrite decide_False by naive_solver. }
    split_and!.
    + intros k Hk. rewrite lookup_cleared. destruct (rows s !! k); [|done]. by rewrite decide_True.
    + intros w. rewrite Hz. pose proof (rows_counter s (t, b, w) Hs) as Hb. unfold pg_counter in Hb. lia.
    + done.
Qed.

#[export] Program Instance pg_rate_limit_store : RateLimitStore PgRateLimitStore := {|
  count := pg_count; record := pg_record; clear := pg_clear;
  store_ok := rows_ok; counter := pg_counter;
  count_law := pg_count_law; record_law := pg_record_law; clear_law := pg_clear_law |}.
Next Obligation. intros s k Hs. by apply rows_counter. Qed.

(** ** The sweep *)

(** Rows of admin counters live at least as long as their window: what
    [record] stores with a limit's [window_end]. *)
Definition outlives (limit : RateLimit) (s : PgRateLimitStore) : Prop :=
  forall tenant ip w r, rows s !! (tenant, admin_api_bucket ip, w) = Some r ->
    w + window limit <= row_expires_at r.

Lemma admit_outlives limit s tenant ip now :
  whole limit -> outlives limit s -> outlives limit (fst (admit_request s limit tenant ip now)).
Proof.
  intros Hw Ho. unfold admit_request. destruct ip as [ip|]; [|done].
  destruct (record s tenant _ _ _) as [s1 r] eqn:Hr.
  enough (outlives limit s1) by (by destruct r; [destruct (RateLimit.admits _ _)|]).
  cbn in Hr. unfold pg_record in Hr. apply statement_cases in Hr as Hc.
  destruct Hc as [[E _]|[E _]]; unfold outlives in *; rewrite E; [done|].
  intros tenant' ip' w row. rewrite (window_end_whole _ _ Hw).
  destruct (rows s !! (tenant, _, _)) as [old|] eqn:El.
  - destruct (I32_MAX <? _); cbn [fst]; [apply Ho|].
    intros [[Hk <-]|[Hk H]]%lookup_insert_Some; [|by eapply Ho].
    unfold admin_api_bucket in Hk. simplify_eq. cbn. lia.
  - cbn [fst]. intros [[Hk <-]|[Hk H]]%lookup_insert_Some; [|by eapply Ho].
    unfold admin_api_bucket in Hk. simplify_eq. cbn. lia.
Qed.

(** The retention sweep is a step the admin limiter's bound allows: of the rows
    the limiter writes, it removes only those whose window is over, and the rows
    that stay still outlive theirs. *)
Theorem sweep_forgets_only_closed_windows (limit : RateLimit) (s : PgRateLimitStore)
    (tenant : string) (now : Z) (picked : list Key) (ip : option string) :
  whole limit -> rows_ok s -> outlives limit s ->
  environment limit now s (sweep s tenant now picked) /\
  outlives limit (sweep s tenant now picked) /\
  outlives limit (fst (admit_request s limit tenant ip now)).
Proof.
  intros Hw Hs Ho. split; [|split; [|by apply admit_outlives]].
  - split; [by apply map_Forall_filtered|]. intros tenant' ip' w Hlt. cbn. unfold pg_counter.
    cbn [sweep rows]. rewrite lookup_cleared.
    destruct (rows s !! (tenant', _, w)) as [r|] eqn:E; [|done].
    pose proof (Ho _ _ _ _ E). rewrite decide_True; [done|]. cbn. intros (_ & _ & ?). lia.
  - intros tenant' ip' w r. cbn [sweep rows]. rewrite lookup_cleared.
    destruct (rows s !! (tenant', _, w)) as [r'|] eqn:E; [|done].
    case_decide; [|done]. intros [= <-]. by eapply Ho.
Qed.

(** ** Instances *)

Definition pg_empty : PgRateLimitStore := {| rows := ∅; faults := [] |}.
Definition pair_limit : RateLimit := {| max_events := 1; window := 60 * NANOS |}.
Definition after_one : PgRateLimitStore := fst (admit_request pg_empty pair_limit "demo" (Some "192.0.2.1") 0).
Definition after_two : PgRateLimitStore :=
  fst (admit_request after_one pair_limit "demo" (Some "192.0.2.1") NANOS).

Lemma pg_empty_ok : rows_ok pg_empty.
Proof. apply map_Forall_empty. Qed.

Lemma pair_limit_whole : whole pair_limit.
Proof. exists 60. done. Qed.

(** One request is admitted, a second in the same window is refused. *)
Lemma sample_history : history pair_limit after_two NANOS [("demo", "192.0.2.1", 0)].
Proof.
  eapply (history_refused _ after_one 0 _ "demo" "192.0.2.1" NANOS); [|done|vm_compute; reflexivity].
  eapply (history_admitted _ pg_empty 0); [|done|vm_compute; reflexivity].
  constructor. exact pg_empty_ok.
Qed.

Lemma admin_rate_bound_witness :
  tally (in_window pair_limit "demo" "192.0.2.1" 0) [("demo", "192.0.2.1", 0)] = 1 /\
  (forall lo, tally (in_span "demo" "192.0.2.1" lo (window pair_limit)) [("demo", "192.0.2.1", 0)] <= 2).
Proof.
  split; [reflexivity|].
  exact (proj2 (admin_rate_bound pair_limit after_two NANOS _ pair_limit_whole ltac:(done) sample_history
    "demo" "192.0.2.1")).
Defined.

Lemma sweep_witness :
  environment pair_limit (60 * NANOS) after_two
    (sweep after_two "demo" (60 * NANOS) [("demo", admin_api_bucket "192.0.2.1", 0)]) /\
  rows (sweep after_two "demo" (60 * NANOS) [("demo", admin_api_bucket "192.0.2.1", 0)]) = ∅.
Proof.
  split; [|vm_compute; reflexivity].
  apply (sweep_forgets_only_closed_windows pair_limit after_two "demo" (60 * NANOS)
    [("demo", admin_api_bucket "192.0.2.1", 0)] None pair_limit_whole).
  - unfold after_two, after_one, rows_ok. intros k r. rewrite <- (bool_decide_eq_true (1 <= row_counter r <= I32_MAX)).
    revert k r. change (map_Forall (fun _ r => bool_decide (1 <= row_counter r <= I32_MAX) = true)
      (rows (fst (admit_request (fst (admit_request pg_empty pair_limit "demo" (Some "192.0.2.1") 0))
        pair_limit "demo" (Some "192.0.2.1") NANOS)))).
    apply (bool_decide_unpack _). vm_compute. exact I.
  - unfold after_two, after_one. do 2 (apply admit_outlives; [exact pair_limit_whole|]).
    intros tenant ip w r H. unfold pg_empty in H. cbn [rows] in H. by rewrite lookup_empty in H.
Defined.

Definition sample_throttle : EndpointThrottle :=
  {| limits := sample_endpoints; address := Some "192.0.2.1"; settings := None |}.

Lemma guard_witness :
  match guard (St := PgRateLimitStore) (fun s => s) (fun b => b) pg_empty sample_throttle "demo" Token
          (Some "billing") 0 (fun s => (s, false)) with
  | (s', answer, _) =>
      answer = Handled false /\
      pg_counter s' ("demo", endpoint_address_bucket Token "192.0.2.1", 0) = 1 /\
      spends ("demo", endpoint_address_bucket Token "192.0.2.1", 0) pg_empty s'
  end.
Proof.
  pose proof (guard_spends_one_bucket (fun s => s) (fun b => b) pg_empty sample_throttle "demo" Token
    (Some "billing") 0 (fun s => (s, false)) pg_empty_ok (fun s H => H)) as Hg.
  split; [vm_compute; reflexivity|]. split; [vm_compute; reflexivity|].
  destruct Hg as (_ & limit & s1 & _ & [_ Hk] & _ & _ & Hg).
  cbn [charged find has_scope fst] in Hg. destruct Hg as [(Hok & Hj & Hb) _].
  split; [exact Hok|]. split; [intros j Hne; rewrite <- Hk; exact (Hj j Hne)|].
  rewrite <- Hk. exact Hb.
Defined.
