(* ===== verification/Refresh.v ===== *)
(** * Refresh tokens

    The value and the scope arithmetic of a refresh ([crates/oidc/src/refresh.rs]),
    the tenant's policy ([crates/domain/src/entities/tenant.rs]), the repository
    ([crates/store-pg/src/refresh.rs]), the cutoffs that withdraw access tokens
    ([crates/store-pg/src/cutoffs.rs], [crates/server/src/http/access_token.rs])
    and the parts of the handler that decide what a refresh returns
    ([crates/server/src/http/refresh.rs]); and how a withdrawal is looked up for an
    access token that names its grant or does not ([introspection.rs],
    [userinfo.rs]).

    One tenant's rows. A statement that fails changes nothing; a transaction is
    one operation. Instants are nanoseconds. The rows are of grants that are
    neither bound to an agent task nor the source of native SSO, whose triggers
    are in the migrations. *)

From S2P Require Import Prelude BTree.
From S2P Require Import Grants.
From S2P Require Import RateLimit.

Open Scope Z_scope.

(** ** Policy *)

Inductive Rotation : Type := NoRotation | Migration (grace : Z).

Record RefreshPolicy : Type := {
  absolute_lifetime : Z;
  idle_lifetime : option Z;
  bind_to_dpop_key : bool;
  rotation : Rotation
}.

Definition SECOND : Z := NANOS.
Definition MINUTE : Z := 60 * SECOND.
Definition HOUR : Z := 60 * MINUTE.
Definition MIN_ROTATION_GRACE : Z := 1 * SECOND.
Definition MAX_ROTATION_GRACE : Z := 1 * HOUR.

(** [Ord::clamp], for bounds in order. *)
Definition clamp (x lo hi : Z) : Z := Z.min (Z.max x lo) hi.

Module RefreshPolicy.
Definition default : RefreshPolicy := {|
  absolute_lifetime := 30 * 24 * HOUR; idle_lifetime := Some (14 * 24 * HOUR);
  bind_to_dpop_key := false; rotation := NoRotation |}.

Definition clamped (p : RefreshPolicy) : RefreshPolicy :=
  let absolute := Z.max (absolute_lifetime p) MINUTE in
  {| absolute_lifetime := absolute;
     idle_lifetime := option_map (fun idle => clamp idle MINUTE absolute) (idle_lifetime p);
     bind_to_dpop_key := bind_to_dpop_key p;
     rotation := match rotation p with
                 | NoRotation => NoRotation
                 | Migration grace => Migration (clamp grace MIN_ROTATION_GRACE MAX_ROTATION_GRACE)
                 end |}.

Definition rotates (p : RefreshPolicy) : bool :=
  match rotation p with Migration _ => true | NoRotation => false end.

Definition grace (p : RefreshPolicy) : Z :=
  match rotation p with NoRotation => 0 | Migration grace => grace end.
End RefreshPolicy.

(** ** The value *)

Definition REFRESH_TOKEN_LEN : Z := (256 + 5) / 6.
Definition MAX_REQUESTED_SCOPES : nat := 64.

Inductive ScopeError : Type := NotGranted | NotAScopeToken | TooMany.

(** The loop over the tokens of the request. *)
Definition request_scope (granted : list string) (token : string) (requested : list string)
    : result (list string) ScopeError :=
  if negb (is_scope_token token) then Err NotAScopeToken
  else if negb (bset_mem token granted) then Err NotGranted
  else
    let requested := bset_insert token requested in
    if (MAX_REQUESTED_SCOPES <? length requested)%nat then Err TooMany else Ok requested.

Definition requested_scopes (raw : option string) (granted : list string)
    : result (list string) ScopeError :=
  if existsb (fun scope => negb (is_scope_token scope)) granted then Err NotAScopeToken
  else
    match raw with
    | None => Ok granted
    | Some raw =>
        let? requested := try_fold (request_scope granted) (split_whitespace raw) [] in
        match requested with [] => Ok granted | _ => Ok requested end
    end.

(** ** Rows *)

Inductive RefreshBinding : Type :=
| Dpop (jkt : string)
| Certificate (thumbprint : list Z)
| Bearer.

Module RefreshBinding.
Definition dpop_jkt (b : RefreshBinding) : option string :=
  match b with Dpop jkt => Some jkt | _ => None end.
Definition cert_thumbprint (b : RefreshBinding) : option (list Z) :=
  match b with Certificate t => Some t | _ => None end.
End RefreshBinding.

(** The errors of the repository: an argument that does not parse, a digest that
    exists, a constraint the statement broke. *)
Inductive StoreError : Type := Invalid (field : string) | Conflict | Violated.

Definition from_columns (dpop_jkt : option string) (cert : option (list Z))
    : result RefreshBinding StoreError :=
  match dpop_jkt with
  | Some jkt => Ok (Dpop jkt)
  | None =>
      match cert with
      | Some bytes =>
          if (length bytes =? 32)%nat then Ok (Certificate bytes) else Err (Invalid "refresh_token")
      | None => Ok Bearer
      end
  end.

Record NewRefreshToken : Type := {
  nt_grant : string;
  nt_client : string;
  nt_scopes : list string;       (** a [BTreeSet] *)
  nt_binding : RefreshBinding;
  nt_absolute_expires_at : Z;
  nt_idle_expires_at : option Z
}.

(** A row of [refresh_tokens], by its digest. *)
Record TokenRow : Type := {
  t_grant : string;
  t_client : string;
  t_scopes : list string;
  t_dpop_jkt : option string;
  t_cert_thumbprint : option (list Z);
  t_issued_at : Z;
  t_absolute_expires_at : Z;
  t_idle_expires_at : option Z;
  t_last_used_at : option Z;
  t_revoked_at : option Z;
  t_superseded_at : option Z
}.

Record RefreshTokenRecord : Type := {
  rec_grant : string;
  rec_client : string;
  rec_scopes : list string;
  rec_binding : RefreshBinding;
  rec_issued_at : Z;
  rec_absolute_expires_at : Z;
  rec_superseded : bool
}.

Inductive Presentation : Type := Accepted (r : RefreshTokenRecord) | Rejected.

(** ** Cutoffs *)

Inductive Principal : Type := PClient (id : string) | PGrant (id : string).

Module Principal.
Definition kind (p : Principal) : string :=
  match p with PClient _ => "client" | PGrant _ => "grant" end.
Definition id (p : Principal) : string := match p with PClient id | PGrant id => id end.
End Principal.

(** A row of [access_token_cutoffs], by kind and id. *)
Record Cutoff : Type := { revoked_before_ : Z; cutoff_expires_at : Z }.
Abbreviation Cutoffs := (gmap (string * string) Cutoff) (only parsing).

Definition MAX_ACCESS_TOKEN_LIFETIME : Z := 15 * MINUTE.

Definition withdraw (m : Cutoffs) (p : Principal) (now : Z) : Cutoffs :=
  let k := (Principal.kind p, Principal.id p) in
  let excluded := {| revoked_before_ := now; cutoff_expires_at := now + MAX_ACCESS_TOKEN_LIFETIME |} in
  <[k := match m !! k with
         | None => excluded
         | Some c => {| revoked_before_ := Z.max (revoked_before_ c) (revoked_before_ excluded);
                        cutoff_expires_at := Z.max (cutoff_expires_at c) (cutoff_expires_at excluded) |}
         end]> m.

(** SQL's [max] over at most two rows; none of them is null. *)
Definition max_of (a b : option Z) : option Z :=
  match a, b with
  | Some a, Some b => Some (Z.max a b)
  | Some a, None | None, Some a => Some a
  | None, None => None
  end.

Definition revoked_before (m : Cutoffs) (client : string) (grant : option string) : option Z :=
  max_of (option_map revoked_before_ (m !! ("client", client)%string))
         (match grant with
          | Some grant => option_map revoked_before_ (m !! ("grant", grant)%string)
          | None => None
          end).

(** [iat] is the claim, in seconds, where it is there and an [i64]. *)
Definition withdrawn (iat : option Z) (cutoff : option Z) : bool :=
  match cutoff with
  | None => false
  | Some cutoff =>
      match iat with
      | None => true
      | Some issued_at => issued_at <=? unix_timestamp cutoff
      end
  end.

(** The claims of an access token a withdrawal is looked up by: a tenant may
    leave [grant_id] out of its tokens. *)
Record TokenClaims : Type := {
  tc_client : string;
  tc_grant : option string;
  tc_iat : option Z
}.

(** What introspection, access evaluation and the first check of UserInfo ask. *)
Definition token_withdrawn (m : Cutoffs) (c : TokenClaims) : bool :=
  withdrawn (tc_iat c) (revoked_before m (tc_client c) (tc_grant c)).

(** A grant of the token's subject: its id, its client, whether it is active. *)
Record SubjectGrant : Type := { sg_id : string; sg_client : string; sg_active : bool }.

Definition resolved_without_the_claim (for_subject : list SubjectGrant) (client : string) : option string :=
  match List.filter (fun g => String.eqb (sg_client g) client && sg_active g) for_subject with
  | [g] => Some (sg_id g)
  | _ => None
  end.

(** The grant UserInfo reads a token's claims from, where neither mark refuses
    it. The lookup of a grant named by the token is not part of this. *)
Definition userinfo_grant (m : Cutoffs) (c : TokenClaims) (for_subject : list SubjectGrant) : option string :=
  if token_withdrawn m c then None
  else
    match tc_grant c with
    | Some grant => Some grant
    | None =>
        match resolved_without_the_claim for_subject (tc_client c) with
        | Some grant =>
            if withdrawn (tc_iat c) (revoked_before m (tc_client c) (Some grant)) then None else Some grant
        | None => None
        end
    end.

(** ** The repository *)

(** The columns of [grants] these statements read or write, by grant id. *)
Record GrantRow : Type := {
  g_session : option string;
  g_revoked_at : option Z;
  g_revocation_reason : option string
}.

Record Store : Type := {
  tokens : gmap (list Z) TokenRow;
  cutoffs : gmap (string * string) Cutoff;
  grants : gmap string GrantRow
}.

Definition set_tokens (s : Store) (m : gmap (list Z) TokenRow) : Store :=
  {| tokens := m; cutoffs := cutoffs s; grants := grants s |}.

(** [coalesce]. *)
Definition coalesce {A} (o : option A) (a : A) : option A :=
  match o with Some _ => o | None => Some a end.

Section Repository.
(** The [hex] and [uuid] crates and the [sha2] one: the bytes a digest spells,
    the canonical spelling of the UUID a text names, and a digest. *)
Variable hex_decode : string -> option (list Z).
Variable uuid : string -> option string.
Variable sha256_hex : string -> string.

(** The characters of an opaque token: base64url, unpadded. *)
Definition opaque_byte (b : Z) : bool := is_ascii_alphanumeric b || (b =? 45) || (b =? 95).

Definition digest_of (presented : string) : result string unit :=
  if negb (slen presented =? REFRESH_TOKEN_LEN) || negb (all_bytes opaque_byte presented)
  then Err tt else Ok (sha256_hex presented).

Definition digest_bytes (digest : string) : result (list Z) StoreError :=
  ok_or (hex_decode digest) (Invalid "refresh_token").

(** The schema's checks: one binding at most, the idle deadline within the
    absolute one, a grant that exists. *)
Definition insert (s : Store) (digest : string) (token : NewRefreshToken) (now : Z)
    : result Store StoreError :=
  let? digest := digest_bytes digest in
  let? grant := ok_or (uuid (nt_grant token)) (Invalid "grant_id") in
  guard? match nt_idle_expires_at token with
         | Some idle => idle <=? nt_absolute_expires_at token | None => true end else Violated in
  guard? bool_decide (tokens s !! digest = None) else Conflict in
  guard? bool_decide (is_Some (grants s !! grant)) else Violated in
  Ok (set_tokens s (<[digest := {|
    t_grant := grant; t_client := nt_client token; t_scopes := nt_scopes token;
    t_dpop_jkt := RefreshBinding.dpop_jkt (nt_binding token);
    t_cert_thumbprint := RefreshBinding.cert_thumbprint (nt_binding token);
    t_issued_at := now; t_absolute_expires_at := nt_absolute_expires_at token;
    t_idle_expires_at := nt_idle_expires_at token; t_last_used_at := None;
    t_revoked_at := None; t_superseded_at := None |}]> (tokens s))).

Definition issue := insert.

(** The [where] clause of [redeem] and [describe]. *)
Definition live (r : TokenRow) (now superseded_after : Z) : bool :=
  match t_revoked_at r with None => true | Some _ => false end
  && (now <? t_absolute_expires_at r)
  && match t_idle_expires_at r with None => true | Some idle => now <? idle end
  && match t_superseded_at r with None => true | Some at_ => superseded_after <? at_ end.

Definition record_of (r : TokenRow) : result RefreshTokenRecord StoreError :=
  let? binding := from_columns (t_dpop_jkt r) (t_cert_thumbprint r) in
  Ok {| rec_grant := t_grant r; rec_client := t_client r; rec_scopes := bset_of_list (t_scopes r);
        rec_binding := binding; rec_issued_at := t_issued_at r;
        rec_absolute_expires_at := t_absolute_expires_at r;
        rec_superseded := match t_superseded_at r with Some _ => true | None => false end |}.

(** What the [update] of [redeem] writes. *)
Definition used (r : TokenRow) (now : Z) (next_idle_expiry : option Z) : TokenRow := {|
  t_grant := t_grant r; t_client := t_client r; t_scopes := t_scopes r;
  t_dpop_jkt := t_dpop_jkt r; t_cert_thumbprint := t_cert_thumbprint r;
  t_issued_at := t_issued_at r; t_absolute_expires_at := t_absolute_expires_at r;
  t_idle_expires_at := option_map (fun idle => Z.min idle (t_absolute_expires_at r)) next_idle_expiry;
  t_last_used_at := Some now; t_revoked_at := t_revoked_at r; t_superseded_at := t_superseded_at r |}.

Definition redeem (s : Store) (digest : string) (now grace : Z) (next_idle_expiry : option Z)
    : Store * result Presentation StoreError :=
  match digest_bytes digest with
  | Err e => (s, Err e)
  | Ok digest =>
      let superseded_after := now - grace in
      match tokens s !! digest with
      | Some r =>
          if live r now superseded_after then
            (set_tokens s (<[digest := used r now next_idle_expiry]> (tokens s)),
             let? record := record_of r in Ok (Accepted record))
          else (s, Ok Rejected)
      | None => (s, Ok Rejected)
      end
  end.

Definition describe (s : Store) (digest client : string) (now grace : Z)
    : result (option RefreshTokenRecord) StoreError :=
  let? digest := digest_bytes digest in
  let superseded_after := now - grace in
  match tokens s !! digest with
  | Some r =>
      if String.eqb (t_client r) client && live r now superseded_after then
        let? record := record_of r in Ok (Some record)
      else Ok None
  | None => Ok None
  end.

Definition stamp_revoked (now : Z) (r : TokenRow) : TokenRow := {|
  t_grant := t_grant r; t_client := t_client r; t_scopes := t_scopes r;
  t_dpop_jkt := t_dpop_jkt r; t_cert_thumbprint := t_cert_thumbprint r;
  t_issued_at := t_issued_at r; t_absolute_expires_at := t_absolute_expires_at r;
  t_idle_expires_at := t_idle_expires_at r; t_last_used_at := t_last_used_at r;
  t_revoked_at := coalesce (t_revoked_at r) now; t_superseded_at := t_superseded_at r |}.

Definition stamp_superseded (now : Z) (r : TokenRow) : TokenRow := {|
  t_grant := t_grant r; t_client := t_client r; t_scopes := t_scopes r;
  t_dpop_jkt := t_dpop_jkt r; t_cert_thumbprint := t_cert_thumbprint r;
  t_issued_at := t_issued_at r; t_absolute_expires_at := t_absolute_expires_at r;
  t_idle_expires_at := t_idle_expires_at r; t_last_used_at := t_last_used_at r;
  t_revoked_at := t_revoked_at r; t_superseded_at := coalesce (t_superseded_at r) now |}.

Definition revoke (s : Store) (digest client : string) (now : Z)
    : Store * result (option string) StoreError :=
  match digest_bytes digest with
  | Err e => (s, Err e)
  | Ok digest =>
      match tokens s !! digest with
      | Some r =>
          if String.eqb (t_client r) client then
            ({| tokens := <[digest := stamp_revoked now r]> (tokens s);
                cutoffs := withdraw (cutoffs s) (PGrant (t_grant r)) now;
                grants := grants s |}, Ok (Some (t_grant r)))
          else (s, Ok None)
      | None => (s, Ok None)
      end
  end.

(** The rows [revoke_for_session]'s [update] matches. *)
Definition of_session (s : Store) (session : string) (r : TokenRow) : bool :=
  match t_revoked_at r with
  | Some _ => false
  | None =>
      match grants s !! t_grant r with
      | Some g => bool_decide (g_session g = Some session)
      | None => false
      end
  end.

Definition revoke_for_session (s : Store) (session : string) (now : Z) : Store * Z :=
  let rows := filter (fun kr => of_session s session kr.2 = true) (tokens s) in
  let withdrawn_grants := bset_of_list (map (fun kr => t_grant kr.2) (map_to_list rows)) in
  ({| tokens := (fun r => if of_session s session r then stamp_revoked now r else r) <$> tokens s;
      cutoffs := fold_left (fun m grant => withdraw m (PGrant grant) now) withdrawn_grants (cutoffs s);
      grants := grants s |},
   Z.of_nat (size rows)).

Definition supersede (s : Store) (superseded replacement_digest : string)
    (replacement : NewRefreshToken) (now : Z) : result Store StoreError :=
  let? superseded := digest_bytes superseded in
  let? s := insert s replacement_digest replacement now in
  Ok (set_tokens s (alter (stamp_superseded now) superseded (tokens s))).

(** The retention sweep of a batch: of the rows picked, those past the absolute
    deadline; of the cutoffs picked, those past theirs. *)
Definition sweep_tokens (s : Store) (now : Z) (picked : list (list Z)) : Store :=
  set_tokens s (filter (fun kr => ~ (kr.1 ∈ picked /\ t_absolute_expires_at kr.2 <= now)) (tokens s)).

Definition sweep_cutoffs (s : Store) (now : Z) (picked : list (string * string)) : Store :=
  {| tokens := tokens s;
     cutoffs := filter (fun kc => ~ (kc.1 ∈ picked /\ cutoff_expires_at kc.2 <= now)) (cutoffs s);
     grants := grants s |}.

(** ** What the handler decides *)

(** The client's profile is public, the key the request proved, the certificate
    it presented. *)
Definition check_binding (public : bool) (policy : RefreshPolicy) (proof_key : option string)
    (certificate : option (list Z)) (record : RefreshTokenRecord) : result unit unit :=
  match rec_binding record with
  | Dpop jkt =>
      if negb public && negb (bind_to_dpop_key policy) then Ok tt
      else if negb (bool_decide (proof_key = Some jkt)) then Err tt
      else Ok tt
  | Certificate thumbprint =>
      if public then Err tt
      else if negb (bool_decide (certificate = Some thumbprint)) then Err tt
      else Ok tt
  | Bearer => if public then Err tt else Ok tt
  end.

(** [minted] is the value the generator drew. *)
Definition refresh_token_to_return (s : Store) (policy : RefreshPolicy)
    (presented digest minted : string) (record : RefreshTokenRecord) (scopes : list string) (now : Z)
    : result (Store * string) StoreError :=
  match rotation policy with
  | NoRotation => Ok (s, presented)
  | Migration _ =>
      let replacement := {|
        nt_grant := rec_grant record; nt_client := rec_client record; nt_scopes := scopes;
        nt_binding := rec_binding record;
        nt_absolute_expires_at := rec_absolute_expires_at record;
        nt_idle_expires_at :=
          option_map (fun idle => Z.min (now + idle) (rec_absolute_expires_at record))
            (idle_lifetime policy) |} in
      let? s := supersede s digest (sha256_hex minted) replacement now in
      Ok (s, minted)
  end.

(** ** Scopes *)

Lemma is_scope_token_all l :
  existsb (fun scope => negb (is_scope_token scope)) l = false <-> forall x, In x l -> is_scope_token x = true.
Proof.
  rewrite <- not_true_iff_false, existsb_exists. setoid_rewrite negb_true_iff.
  split; [|naive_solver congruence].
  intros H x Hx. destruct (is_scope_token x) eqn:E; [done|]. exfalso. eauto.
Qed.

Lemma request_loop granted l acc out :
  (forall x, In x acc -> In x granted) -> bset_ok acc -> (length acc <= MAX_REQUESTED_SCOPES)%nat ->
  try_fold (request_scope granted) l acc = Ok out ->
  (forall x, In x out <-> In x l \/ In x acc) /\ (forall x, In x out -> In x granted) /\
  bset_ok out /\ (length out <= MAX_REQUESTED_SCOPES)%nat.
Proof.
  revert acc. induction l as [|x l IH]; intros acc Ha Hok Hlen H; cbn in H.
  - ok_inv. subst. naive_solver.
  - ok_inv. unfold request_scope in E. destruct (is_scope_token x); [|done]. cbn [negb] in E.
    destruct (bset_mem x granted) eqn:Em; [|done]. cbn [negb] in E. apply bset_mem_In in Em.
    destruct (Nat.ltb_spec MAX_REQUESTED_SCOPES (length (bset_insert x acc))); [done|].
    apply Ok_inj in E as <-. apply IH in H as (H1 & H2); [|intros y; rewrite In_bset_insert; naive_solver
      |by apply bset_insert_ok|lia].
    split; [|done]. intros y. rewrite H1, In_bset_insert. cbn. naive_solver.
Qed.

(** RFC 6749 §6: what a refresh may have is a part of what the token holds, of
    scope tokens only; omitting [scope] is all of it, and naming something is
    exactly that. *)
Lemma requested_scopes_narrow raw granted scopes :
  requested_scopes raw granted = Ok scopes ->
  (forall x, In x scopes -> In x granted /\ is_scope_token x = true) /\
  (raw = None -> scopes = granted) /\
  (forall text, raw = Some text -> split_whitespace text <> [] ->
     forall x, In x scopes <-> In x (split_whitespace text)).
Proof.
  unfold requested_scopes. destruct (existsb _ granted) eqn:Eg; [done|].
  rewrite is_scope_token_all in Eg. destruct raw as [text|]; intros H; ok_inv; subst; [|naive_solver].
  rename E into Hl. apply (request_loop granted) in Hl as (H1 & H2 & _ & _); [|done|constructor|cbn; lia].
  cbn in H1. destruct a as [|y ys]; ok_inv; subst.
  - split; [naive_solver|]. split; [done|]. intros t [= <-] Hne.
    destruct (split_whitespace text) as [|z zs]; [done|]. exfalso.
    apply (proj2 (H1 z)). left. by left.
  - split; [naive_solver|]. split; [done|]. intros t [= <-] _ x. rewrite H1. naive_solver.
Qed.

(** ** Histories

    [reach s accepted issued t]: a store [s] at clock [t], the presentations
    accepted so far and the tokens issued with a grant. Between a redemption and
    the rotation it leads to, anything else may happen. *)

(** What grants' own operations do to the rows: a revocation stamps them, a
    deletion cascades; none is revived or rewritten. *)
Definition weakened (s s' : Store) : Prop :=
  (forall d r', tokens s' !! d = Some r' -> exists r, tokens s !! d = Some r /\
     (r' = r \/ exists at_, r' = stamp_revoked at_ r)) /\
  (forall k c, cutoffs s !! k = Some c -> exists c', cutoffs s' !! k = Some c' /\
     revoked_before_ c <= revoked_before_ c' /\ cutoff_expires_at c <= cutoff_expires_at c').

Inductive reach : Store -> list (string * RefreshTokenRecord) -> list NewRefreshToken -> Z -> Prop :=
| reach_start gs cs t : reach {| tokens := ∅; cutoffs := cs; grants := gs |} [] [] t
| reach_issue s acc iss t digest token now s' :
    reach s acc iss t -> t <= now -> issue s digest token now = Ok s' ->
    reach s' acc (token :: iss) now
| reach_redeem s acc iss t digest now grace idle s' rec :
    reach s acc iss t -> t <= now -> redeem s digest now grace idle = (s', Ok (Accepted rec)) ->
    reach s' ((digest, rec) :: acc) iss now
| reach_refused s acc iss t digest now grace idle s' r :
    reach s acc iss t -> t <= now -> redeem s digest now grace idle = (s', r) ->
    reach s' acc iss now
| reach_rotate s acc iss t policy presented digest minted rec raw scopes now s' value :
    reach s acc iss t -> t <= now -> In (digest, rec) acc ->
    requested_scopes raw (rec_scopes rec) = Ok scopes ->
    refresh_token_to_return s policy presented digest minted rec scopes now = Ok (s', value) ->
    reach s' acc iss now
| reach_revoke s acc iss t digest client now :
    reach s acc iss t -> t <= now -> reach (fst (revoke s digest client now)) acc iss now
| reach_session s acc iss t session now :
    reach s acc iss t -> t <= now -> reach (fst (revoke_for_session s session now)) acc iss now
| reach_sweep s acc iss t now picked :
    reach s acc iss t -> t <= now -> reach (sweep_tokens s now picked) acc iss now
| reach_other s acc iss t now s' :
    reach s acc iss t -> t <= now -> weakened s s' -> reach s' acc iss now.

(** A row, or an accepted presentation, that draws on an issued token. *)
Definition row_from (n : NewRefreshToken) (r : TokenRow) : Prop :=
  uuid (nt_grant n) = Some (t_grant r) /\ t_client r = nt_client n /\
  (forall x, In x (t_scopes r) -> In x (nt_scopes n)) /\
  t_dpop_jkt r = RefreshBinding.dpop_jkt (nt_binding n) /\
  t_cert_thumbprint r = RefreshBinding.cert_thumbprint (nt_binding n) /\
  t_absolute_expires_at r = nt_absolute_expires_at n.

Definition record_from (n : NewRefreshToken) (rec : RefreshTokenRecord) : Prop :=
  uuid (nt_grant n) = Some (rec_grant rec) /\ rec_client rec = nt_client n /\
  (forall x, In x (rec_scopes rec) -> In x (nt_scopes n)) /\
  rec_binding rec = nt_binding n /\
  rec_absolute_expires_at rec = nt_absolute_expires_at n.

Definition rows_from (iss : list NewRefreshToken) (s : Store) : Prop :=
  forall d r, tokens s !! d = Some r -> exists n, In n iss /\ row_from n r.

Lemma record_of_from n r rec : row_from n r -> record_of r = Ok rec -> record_from n rec.
Proof.
  intros (Hg & Hc & Hs & Hj & Ht & Ha) H. unfold record_of in H. ok_inv. subst.
  unfold record_from. cbn. split_and!; [done|done| | |done].
  - intros x. rewrite In_bset_of_list. apply Hs.
  - unfold from_columns in E. rewrite Hj, Ht in E. destruct (nt_binding n); cbn in E; [by ok_inv| |by ok_inv].
    destruct (length _ =? 32)%nat; by ok_inv.
Qed.

Lemma row_from_stamp n r at_ : row_from n r -> row_from n (stamp_revoked at_ r).
Proof. done. Qed.

(** The outcomes of [redeem]. *)
Lemma redeem_cases s digest now grace idle s' out :
  redeem s digest now grace idle = (s', out) ->
  (s' = s /\ (out = Ok Rejected \/ exists e, out = Err e)) \/
  exists d r, hex_decode digest = Some d /\ tokens s !! d = Some r /\ live r now (now - grace) = true /\
    s' = set_tokens s (<[d := used r now idle]> (tokens s)) /\
    out = (let? record := record_of r in Ok (Accepted record)).
Proof.
  clear sha256_hex uuid.
  unfold redeem, digest_bytes. destruct (hex_decode digest) as [d|]; cbn [ok_or]; [|naive_solver].
  destruct (tokens s !! d) as [r|] eqn:E; [|naive_solver].
  destruct (live r now (now - grace)) eqn:El; [|naive_solver].
  intros [= <- <-]. right. by exists d, r.
Qed.

(** What an insert adds. *)
Lemma insert_row s digest token now s' :
  insert s digest token now = Ok s' ->
  exists d g r, hex_decode digest = Some d /\ uuid (nt_grant token) = Some g /\
    tokens s !! d = None /\ s' = set_tokens s (<[d := r]> (tokens s)) /\
    (forall n, uuid (nt_grant n) = Some g -> nt_client token = nt_client n ->
       (forall x, In x (nt_scopes token) -> In x (nt_scopes n)) -> nt_binding token = nt_binding n ->
       nt_absolute_expires_at token = nt_absolute_expires_at n -> row_from n r).
Proof.
  clear sha256_hex.
  unfold insert, digest_bytes. intros H. ok_inv. bool_hyps. subst.
  eexists _, _, _. split_and!; try done.
  intros n Hg Hc Hs Hb Ha. unfold row_from. cbn. by rewrite <- Hb.
Qed.

Lemma rows_from_insert iss s m d r :
  (exists n, In n iss /\ row_from n r) -> tokens s = <[d := r]> m ->
  (forall d' r', m !! d' = Some r' -> exists n, In n iss /\ row_from n r') -> rows_from iss s.
Proof.
  intros Hr E Hm d' r' H. rewrite E in H.
  apply lookup_insert_Some in H as [[_ <-]|[_ H]]; [done|by eapply Hm].
Qed.

Lemma rows_from_sub iss s s' :
  rows_from iss s -> weakened s s' -> rows_from iss s'.
Proof.
  intros Hs [Hw _] d r' H. apply Hw in H as (r & Hr & Hc). destruct (Hs _ _ Hr) as (n & Hn & Hf).
  exists n. split; [done|]. destruct Hc as [->|[at_ ->]]; [done|]. by apply row_from_stamp.
Qed.

Lemma revoke_weakens s digest client now : weakened s (fst (revoke s digest client now)).
Proof.
  clear sha256_hex uuid.
  assert (weakened s s) as Hid by (split; [naive_solver|intros; eexists; split; [done|lia]]).
  unfold revoke, digest_bytes. destruct (hex_decode digest) as [d|]; [|done]. cbn [ok_or].
  destruct (tokens s !! d) as [r|] eqn:E; [|done]. destruct (String.eqb _ _); [|done].
  split; cbn.
  - intros d' r' [[<- <-]|[_ H]]%lookup_insert_Some; [|naive_solver].
    exists r. split; [done|]. right. by exists now.
  - intros k c Hc. unfold withdraw. cbn.
    destruct (decide (k = ("grant", t_grant r)%string)) as [->|Hne].
    + rewrite lookup_insert, decide_True by done. rewrite Hc. eexists. split; [done|]. cbn. lia.
    + rewrite lookup_insert_ne by done. exists c. split; [done|lia].
Qed.

Lemma withdraw_mono m p now k c :
  m !! k = Some c -> exists c', withdraw m p now !! k = Some c' /\
    revoked_before_ c <= revoked_before_ c' /\ cutoff_expires_at c <= cutoff_expires_at c'.
Proof.
  intros Hc. unfold withdraw.
  destruct (decide (k = (Principal.kind p, Principal.id p))) as [->|Hne].
  - rewrite lookup_insert, decide_True, Hc by done. eexists. split; [done|]. cbn. lia.
  - rewrite lookup_insert_ne by done. exists c. split; [done|lia].
Qed.

Lemma session_weakens s session now : weakened s (fst (revoke_for_session s session now)).
Proof.
  clear sha256_hex uuid hex_decode.
  split; cbn.
  - intros d r'. rewrite lookup_fmap. destruct (tokens s !! d) as [r|]; [|done]. cbn. intros [= <-].
    exists r. split; [done|]. destruct (of_session s session r); [right; by exists now|by left].
  - generalize (bset_of_list (map (fun kr => t_grant kr.2)
      (map_to_list (filter (fun kr => of_session s session kr.2 = true) (tokens s))))).
    intros l. generalize (cutoffs s). induction l as [|g l IH]; intros m k c Hc; cbn;
      [exists c; split; [done|lia]|].
    destruct (withdraw_mono m (PGrant g) now k c Hc) as (c1 & H1 & ? & ?).
    destruct (IH _ _ _ H1) as (c2 & H2 & ? & ?). exists c2. split; [done|lia].
Qed.

Lemma sweep_weakens s now picked : weakened s (sweep_tokens s now picked).
Proof.
  clear sha256_hex uuid hex_decode.
  split; cbn.
  - intros d r [Hr _]%map_lookup_filter_Some. naive_solver.
  - intros k c Hc. exists c. split; [done|lia].
Qed.

Section Family.
(** The canonical spelling of a UUID is a spelling of it. *)
Hypothesis uuid_canonical : forall g u, uuid g = Some u -> uuid u = Some u.

Lemma rotate_inv s policy presented digest minted rec scopes now s' value iss :
  rows_from iss s -> (exists n, In n iss /\ record_from n rec) ->
  (forall x, In x scopes -> In x (rec_scopes rec)) ->
  refresh_token_to_return s policy presented digest minted rec scopes now = Ok (s', value) ->
  rows_from iss s'.
Proof.
  intros Hs (n & Hn & Hg & Hc & Hsc & Hb & Ha) Hsub. unfold refresh_token_to_return.
  destruct (rotation policy); intros H; ok_inv; simplify_eq; [done|].
  unfold supersede in E. ok_inv. subst.
  match goal with E : insert _ _ _ _ = Ok _ |- _ =>
    apply insert_row in E as (d & g & r & _ & Hu & _ & -> & Hr) end.
  cbn in Hu. pose proof (uuid_canonical _ _ Hg) as Hcan. rewrite Hcan in Hu. injection Hu as <-.
  assert (row_from n r) as Hrow by (apply Hr; cbn; naive_solver).
  assert (rows_from iss (set_tokens s (<[d:=r]> (tokens s)))) as H1.
  { eapply rows_from_insert; [|done|done]. by exists n. }
  intros d' r' Hl. cbn in Hl.
  apply lookup_alter_Some in Hl as [(-> & r0 & Hl & ->)|[_ Hl]]; apply H1 in Hl as (n' & ? & ?); by exists n'.
Qed.

Lemma reach_invariant s acc iss t :
  reach s acc iss t ->
  rows_from iss s /\ forall digest rec, In (digest, rec) acc -> exists n, In n iss /\ record_from n rec.
Proof.
  induction 1 as [gs cs t|s acc iss t digest token now s' _ [IH1 IH2] _ Hi
    |s acc iss t digest now grace idle s' rec _ [IH1 IH2] _ Hr
    |s acc iss t digest now grace idle s' r _ [IH1 IH2] _ Hr
    |s acc iss t policy presented digest minted rec raw scopes now s' value _ [IH1 IH2] _ Hin Hsc Hr
    |s acc iss t digest client now _ [IH1 IH2] _|s acc iss t session now _ [IH1 IH2] _
    |s acc iss t now picked _ [IH1 IH2] _|s acc iss t now s' _ [IH1 IH2] _ Hw].
  - split; [|done]. intros d r H. cbn in H. by rewrite lookup_empty in H.
  - apply insert_row in Hi as (d & g & r & _ & Hu & _ & -> & Hr). split.
    + eapply rows_from_insert; [|done|].
      * exists token. split; [by left|]. by apply Hr.
      * intros d' r' H. apply IH1 in H as (n & ? & ?). exists n. split; [by right|done].
    + intros d' rec H. apply IH2 in H as (n & ? & ?). exists n. split; [by right|done].
  - apply redeem_cases in Hr as [[_ [?|[? ?]]]|(d & r & _ & Hl & _ & -> & Ho)]; [done..|].
    symmetry in Ho. ok_inv. simplify_eq. destruct (IH1 _ _ Hl) as (n & Hn & Hf). split.
    + eapply rows_from_insert; [|done|done]. by exists n.
    + intros digest' rec' [[= <- <-]|H]; [|by eapply IH2].
      exists n. split; [done|]. by eapply record_of_from.
  - split; [|done]. apply redeem_cases in Hr as [[-> _]|(d & r' & _ & Hl & _ & -> & _)]; [done|].
    destruct (IH1 _ _ Hl) as (n & Hn & Hf). eapply rows_from_insert; [|done|done]. by exists n.
  - split; [|done]. eapply rotate_inv; [done|by eapply IH2| |done].
    intros x Hx. by apply requested_scopes_narrow in Hsc as [Hsc _]; apply Hsc.
  - split; [|done]. eapply rows_from_sub; [done|apply revoke_weakens].
  - split; [|done]. eapply rows_from_sub; [done|apply session_weakens].
  - split; [|done]. eapply rows_from_sub; [done|apply sweep_weakens].
  - split; [|done]. by eapply rows_from_sub.
Qed.

(** C6: Whatever has been refreshed, rotated, narrowed, revoked or swept before, and
    in whatever order, a presentation that is accepted draws on a token issued
    with a grant: for that grant and that client, under that token's sender
    constraint, before that token's absolute deadline, which rotation never
    moved; and no [scope] parameter gets it a scope that token was not issued
    for. *)
Theorem refresh_never_widens (s s' : Store) (acc : list (string * RefreshTokenRecord))
    (iss : list NewRefreshToken) (t : Z) (digest : string) (now grace : Z) (idle : option Z)
    (rec : RefreshTokenRecord) :
  reach s acc iss t -> redeem s digest now grace idle = (s', Ok (Accepted rec)) ->
  exists n, In n iss /\ uuid (nt_grant n) = Some (rec_grant rec) /\ rec_client rec = nt_client n /\
    rec_binding rec = nt_binding n /\ now < nt_absolute_expires_at n /\
    rec_absolute_expires_at rec = nt_absolute_expires_at n /\
    forall raw scopes, requested_scopes raw (rec_scopes rec) = Ok scopes ->
      forall x, In x scopes -> In x (nt_scopes n) /\ is_scope_token x = true.
Proof.
  intros [Hi _]%reach_invariant Hr.
  apply redeem_cases in Hr as [[_ [?|[? ?]]]|(d & r & _ & Hl & Hlive & _ & Ho)]; [done..|].
  symmetry in Ho. ok_inv. simplify_eq. destruct (Hi _ _ Hl) as (n & Hn & Hf).
  destruct (record_of_from n r rec Hf E) as (Hg & Hc & Hs & Hb & Ha). exists n.
  split_and!; try done.
  - unfold live in Hlive. bool_hyps. destruct Hf as (_ & _ & _ & _ & _ & <-). done.
  - intros raw scopes Hsc x Hx. apply requested_scopes_narrow in Hsc as [Hsc _].
    apply Hsc in Hx as [? ?]. naive_solver.
Qed.
End Family.

(** ** Introspection and the token endpoint agree *)

Lemma live_grace r now grace :
  live r now (now - grace) = true ->
  forall at_, t_superseded_at r = Some at_ -> now < at_ + grace.
Proof. unfold live. intros H at_ E. rewrite E in H. bool_hyps. lia. Qed.

(** [describe] reports a token to a client exactly when the token endpoint would
    accept it at that instant and it is that client's, with the same record. A
    redemption moves nothing but the use and the idle deadline, which it never
    puts past the absolute one, and a superseded token is accepted only within
    the grace after the first supersession, which no retry pushes out. *)
Theorem describe_agrees_with_redeem (s : Store) (digest client : string) (now grace : Z)
    (idle : option Z) (rec : RefreshTokenRecord) :
  (describe s digest client now grace = Ok (Some rec) <->
   rec_client rec = client /\ snd (redeem s digest now grace idle) = Ok (Accepted rec)) /\
  (snd (redeem s digest now grace idle) = Ok (Accepted rec) ->
   exists d r r', hex_decode digest = Some d /\ tokens s !! d = Some r /\
     fst (redeem s digest now grace idle) = set_tokens s (<[d := r']> (tokens s)) /\
     t_absolute_expires_at r' = t_absolute_expires_at r /\ t_scopes r' = t_scopes r /\
     t_revoked_at r' = None /\ t_superseded_at r' = t_superseded_at r /\
     (forall i, t_idle_expires_at r' = Some i -> i <= t_absolute_expires_at r) /\
     (rec_superseded rec = true -> exists at_, t_superseded_at r = Some at_ /\ now < at_ + grace /\
        forall again, t_superseded_at (stamp_superseded again r') = Some at_)).
Proof.
  clear sha256_hex uuid.
  split.
  - unfold describe, redeem, digest_bytes. destruct (hex_decode digest) as [d|]; cbn [ok_or rbind]; [|naive_solver].
    destruct (tokens s !! d) as [r|]; [|cbn; naive_solver].
    destruct (live r now (now - grace)); [rewrite andb_true_r|rewrite andb_false_r; cbn; naive_solver].
    unfold record_of. destruct (from_columns _ _) as [b|e]; cbn.
    + destruct (String.eqb_spec (t_client r) client); naive_solver.
    + destruct (String.eqb_spec (t_client r) client); naive_solver.
  - destruct (redeem s digest now grace idle) as [s' out] eqn:Hr. cbn [fst snd]. intros ->.
    apply redeem_cases in Hr as [[_ [?|[? ?]]]|(d & r & Hd & Hl & Hlive & -> & Ho)]; [done..|].
    symmetry in Ho. ok_inv. unfold record_of in E. ok_inv. simplify_eq.
    exists d, r, (used r now idle). split_and!; try done.
    + cbn. unfold live in Hlive. bool_hyps. by destruct (t_revoked_at r).
    + intros i. cbn. destruct idle as [i'|]; cbn; [intros [= <-]; lia|done].
    + cbn. destruct (t_superseded_at r) as [at_|] eqn:Es; [|done]. intros _. exists at_.
      split; [done|]. split; [by eapply live_grace|]. intros again. done.
Qed.

(** ** Revocation is final *)

(** Any step of the repository, or of the grants beside it, that does not mint
    [d]; the clock only moves forward. *)
Inductive step (d : list Z) : Store * Z -> Store * Z -> Prop :=
| step_issue s t digest token now s' :
    t <= now -> hex_decode digest <> Some d -> issue s digest token now = Ok s' -> step d (s, t) (s', now)
| step_redeem s t digest now grace idle :
    t <= now -> step d (s, t) (fst (redeem s digest now grace idle), now)
| step_supersede s t digest digest' token now s' :
    t <= now -> hex_decode digest' <> Some d -> supersede s digest digest' token now = Ok s' ->
    step d (s, t) (s', now)
| step_revoke s t digest client now :
    t <= now -> step d (s, t) (fst (revoke s digest client now), now)
| step_session s t session now :
    t <= now -> step d (s, t) (fst (revoke_for_session s session now), now)
| step_sweep_tokens s t now picked : t <= now -> step d (s, t) (sweep_tokens s now picked, now)
| step_sweep_cutoffs s t now picked : t <= now -> step d (s, t) (sweep_cutoffs s now picked, now)
| step_other s t now s' : t <= now -> weakened s s' -> step d (s, t) (s', now).

Definition dead (d : list Z) (s : Store) : Prop :=
  forall r, tokens s !! d = Some r -> is_Some (t_revoked_at r).

(** The mark of a withdrawal at [at_]: a row of the grant that late, or nothing
    left to refuse. *)
Definition marked (g : string) (at_ : Z) (s : Store) (t : Z) : Prop :=
  (exists c, cutoffs s !! ("grant", g)%string = Some c /\ at_ <= revoked_before_ c /\
     at_ + MAX_ACCESS_TOKEN_LIFETIME <= cutoff_expires_at c)
  \/ at_ + MAX_ACCESS_TOKEN_LIFETIME <= t.

Lemma dead_weakened d s s' : dead d s -> weakened s s' -> dead d s'.
Proof.
  intros Hd [Hw _] r' H. apply Hw in H as (r & Hr & [->|[at_ ->]]); [by apply Hd|].
  cbn. destruct (Hd _ Hr) as [x Hx]. rewrite Hx. by eexists.
Qed.

Lemma marked_weakened g at_ s s' t t' :
  marked g at_ s t -> t <= t' -> weakened s s' -> marked g at_ s' t'.
Proof.
  intros [(c & Hc & ? & ?)|?] Ht [_ Hw]; [left|right; lia].
  destruct (Hw _ _ Hc) as (c' & ? & ? & ?). exists c'. split; [done|lia].
Qed.

Lemma marked_same g at_ s s' t t' :
  marked g at_ s t -> t <= t' -> cutoffs s' = cutoffs s -> marked g at_ s' t'.
Proof. unfold marked. intros H Ht ->. destruct H as [?|?]; [by left|right; lia]. Qed.

Lemma dead_insert d k r s s' :
  dead d s -> k <> d -> s' = set_tokens s (<[k := r]> (tokens s)) -> dead d s'.
Proof. intros Hd Hk -> r'. cbn. rewrite lookup_insert_ne by done. apply Hd. Qed.

Lemma step_keeps d g at_ x y :
  step d x y -> dead d (fst x) /\ marked g at_ (fst x) (snd x) -> dead d (fst y) /\ marked g at_ (fst y) (snd y).
Proof.
  clear sha256_hex.
  destruct 1 as [s t digest token now s' Ht Hn Hi|s t digest now grace idle Ht
    |s t digest digest' token now s' Ht Hn Hi|s t digest client now Ht|s t session now Ht
    |s t now picked Ht|s t now picked Ht|s t now s' Ht Hw]; cbn [fst snd]; intros [Hd Hm].
  - apply insert_row in Hi as (k & ? & r & Hk & _ & _ & -> & _).
    split; [|by eapply marked_same]. eapply dead_insert; [done| |done]. congruence.
  - destruct (redeem s digest now grace idle) as [s' out] eqn:Hr. cbn [fst].
    apply redeem_cases in Hr as [[-> _]|(k & r & _ & Hl & Hlive & -> & _)].
    + split; [done|]. by eapply marked_same.
    + split; [|by eapply marked_same]. eapply (dead_insert _ k); [done| |done].
      intros ->. apply Hd in Hl as [x Hx]. unfold live in Hlive. by rewrite Hx in Hlive.
  - unfold supersede in Hi. ok_inv. subst.
    match goal with E : insert _ _ _ _ = Ok _ |- _ =>
      apply insert_row in E as (k & ? & r & Hk & _ & _ & -> & _) end.
    split; [|by eapply marked_same]. intros r' Hl. cbn in Hl.
    assert (dead d (set_tokens s (<[k:=r]> (tokens s)))) as Hd'
      by (eapply (dead_insert _ k); [done|congruence|done]).
    apply lookup_alter_Some in Hl as [(-> & r0 & Hl & ->)|[_ Hl]]; by apply Hd' in Hl.
  - split; [eapply dead_weakened|eapply marked_weakened]; try done; apply revoke_weakens.
  - split; [eapply dead_weakened|eapply marked_weakened]; try done; apply session_weakens.
  - split; [eapply dead_weakened|eapply marked_weakened]; try done; apply sweep_weakens.
  - split; [done|]. destruct Hm as [(c & Hc & ? & ?)|?]; [|right; lia].
    destruct (decide (cutoff_expires_at c <= now)); [right; lia|left].
    exists c. split; [|done]. cbn. apply map_lookup_filter_Some. split; [done|]. cbn. naive_solver.
  - split; [by eapply dead_weakened|by eapply marked_weakened].
Qed.

Lemma dead_refused d s digest at_ grace idle rec :
  dead d s -> hex_decode digest = Some d -> snd (redeem s digest at_ grace idle) <> Ok (Accepted rec).
Proof.
  intros Hdead Hd H. destruct (redeem s digest at_ grace idle) as [s3 out] eqn:Hred. cbn in H. subst.
  apply redeem_cases in Hred as [[_ [?|[? ?]]]|(d' & r' & Hd' & Hl' & Hlive & _ & _)]; [done..|].
  rewrite Hd in Hd'. injection Hd' as <-. apply Hdead in Hl' as [x Hx].
  unfold live in Hlive. by rewrite Hx in Hlive.
Qed.

Lemma marked_withdrawn g at_ s t client iat exp :
  marked g at_ s t -> iat <= unix_timestamp at_ -> exp <= iat * NANOS + MAX_ACCESS_TOKEN_LIFETIME ->
  withdrawn (Some iat) (revoked_before (cutoffs s) client (Some g)) = true \/ exp <= t.
Proof.
  intros Hmark Hiat Hexp. destruct Hmark as [(c & Hm & Hb & He)|Hold].
  - left. unfold revoked_before. rewrite Hm. cbn [option_map].
    assert (unix_timestamp at_ <= unix_timestamp (revoked_before_ c)) by (apply Z.div_le_mono; [done|lia]).
    destruct (option_map revoked_before_ (cutoffs s !! _)) as [b|]; cbn; apply Z.leb_le; [|lia].
    assert (unix_timestamp (revoked_before_ c) <= unix_timestamp (Z.max b (revoked_before_ c)))
      by (apply Z.div_le_mono; [done|lia]). lia.
  - right. unfold unix_timestamp in Hiat. pose proof (Z.mul_div_le at_ NANOS ltac:(done)). unfold NANOS in *. lia.
Qed.

Lemma marked_withdraw g now s m t :
  cutoffs s = withdraw m (PGrant g) now -> marked g now s t.
Proof.
  intros E. left. rewrite E. unfold withdraw. cbn [Principal.kind Principal.id].
  rewrite lookup_insert, decide_True by done. eexists. split; [done|].
  destruct (m !! _); cbn; lia.
Qed.

(** A mark, for every way a token's withdrawal is asked for. *)
Lemma marked_token g at_ s t iat exp c :
  marked g at_ s t -> tc_iat c = Some iat -> iat <= unix_timestamp at_ ->
  exp <= iat * NANOS + MAX_ACCESS_TOKEN_LIFETIME ->
  ((tc_grant c = Some g -> token_withdrawn (cutoffs s) c = true) /\
   (forall for_subject, userinfo_grant (cutoffs s) c for_subject <> Some g)) \/ exp <= t.
Proof.
  intros Hm Hc Hiat Hexp.
  destruct (marked_withdrawn g at_ s t (tc_client c) iat exp Hm Hiat Hexp) as [Hw|?]; [left|by right].
  assert (tc_grant c = Some g -> token_withdrawn (cutoffs s) c = true) as Ht.
  { intros Hg. unfold token_withdrawn. by rewrite Hc, Hg. }
  split; [exact Ht|]. intros for_subject. unfold userinfo_grant.
  destruct (token_withdrawn _ c); [done|]. destruct (tc_grant c) as [g'|].
  - intros [= ->]. by specialize (Ht eq_refl).
  - destruct (resolved_without_the_claim _ _) as [g'|]; [|done].
    destruct (withdrawn (tc_iat c) _) eqn:E; [done|].
    intros Eq. injection Eq as ->. by rewrite Hc, Hw in E.
Qed.

(** C7: RFC 7009: a refresh token its own client revoked is never accepted again,
    whatever happens to the store afterwards short of drawing the same 256-bit
    value a second time. Of the access tokens of its grant, issued no later than
    the revocation and within the lifetime cap, by whichever client: one that
    names the grant is refused from then on wherever withdrawals are looked up,
    and UserInfo reads no token's claims from that grant, named or resolved,
    by the mark while the mark is there and by the token's own expiry once the
    mark was swept. A token that names no grant is looked up by its client
    alone: introspection and access evaluation answer for it as if nothing had
    been revoked. *)
Theorem revocation_is_final (s s2 : Store) (digest client : string) (now t2 : Z) (d : list Z) (g : string) :
  revoke s digest client now = (fst (revoke s digest client now), Ok (Some g)) ->
  hex_decode digest = Some d ->
  rtc (step d) (fst (revoke s digest client now), now) (s2, t2) ->
  (exists r, tokens s !! d = Some r /\ t_client r = client /\ t_grant r = g) /\
  (forall at_ grace idle rec, snd (redeem s2 digest at_ grace idle) <> Ok (Accepted rec)) /\
  (forall c iat exp, tc_iat c = Some iat -> iat <= unix_timestamp now ->
     exp <= iat * NANOS + MAX_ACCESS_TOKEN_LIFETIME ->
     ((tc_grant c = Some g -> token_withdrawn (cutoffs s2) c = true) /\
      (forall for_subject, userinfo_grant (cutoffs s2) c for_subject <> Some g)) \/ exp <= t2) /\
  (forall c, tc_grant c = None ->
     token_withdrawn (cutoffs (fst (revoke s digest client now))) c = token_withdrawn (cutoffs s) c).
Proof.
  clear sha256_hex.
  intros Hr Hd Hsteps.
  assert (exists r, tokens s !! d = Some r /\ t_client r = client /\ t_grant r = g /\
    fst (revoke s digest client now) = {| tokens := <[d := stamp_revoked now r]> (tokens s);
      cutoffs := withdraw (cutoffs s) (PGrant g) now; grants := grants s |}) as (r & Hl & Hc & Hg & E).
  { unfold revoke, digest_bytes in Hr |- *. rewrite Hd in Hr |- *. cbn [ok_or] in Hr |- *.
    destruct (tokens s !! d) as [r|]; [|done].
    destruct (String.eqb_spec (t_client r) client); [|done]. injection Hr as <-. by exists r. }
  split; [by exists r|].
  assert (dead d s2 /\ marked g now s2 t2) as [Hdead Hmark].
  { change s2 with (fst (s2, t2)). change t2 with (snd (s2, t2)) at 3.
    revert Hsteps. generalize (s2, t2). intros y Hsteps.
    assert (dead d (fst (fst (revoke s digest client now), now)) /\
      marked g now (fst (fst (revoke s digest client now), now)) (snd (fst (revoke s digest client now), now))) as H0.
    { cbn [fst snd]. rewrite E. split.
      - intros r'. cbn. rewrite lookup_insert, decide_True by done. intros [= <-]. cbn.
        destruct (t_revoked_at r); by eexists.
      - by eapply marked_withdraw. }
    revert H0. induction Hsteps as [x|x y z Hxy _ IH]; [done|]. intros H0. apply IH. by eapply step_keeps. }
  split; [intros at_ grace idle rec; by eapply dead_refused|].
  split; [intros c iat exp Hi Hle Hexp; by eapply marked_token|].
  intros c Hnone. unfold token_withdrawn, revoked_before. rewrite Hnone, E. cbn [cutoffs]. unfold withdraw.
  by rewrite lookup_insert_ne.
Qed.
End Repository.

(** ** Instances *)

Definition sample_hex (s : string) : option (list Z) := Some (bytes_of s).
Definition sample_uuid (g : string) : option string := Some g.
Definition sample_new : NewRefreshToken := {|
  nt_grant := "g-1"; nt_client := "billing"; nt_scopes := ["openid"; "payments"]%string;
  nt_binding := Dpop "jkt"; nt_absolute_expires_at := 30 * 24 * HOUR;
  nt_idle_expires_at := Some (14 * 24 * HOUR) |}.
Definition sample_grants : gmap string GrantRow :=
  {[ "g-1"%string := {| g_session := None; g_revoked_at := None; g_revocation_reason := None |} ]}.
Definition sample_empty : Store := {| tokens := ∅; cutoffs := ∅; grants := sample_grants |}.
Definition sample_row : TokenRow := {|
  t_grant := "g-1"; t_client := "billing"; t_scopes := ["openid"; "payments"]%string;
  t_dpop_jkt := Some "jkt"%string; t_cert_thumbprint := None; t_issued_at := 0;
  t_absolute_expires_at := 30 * 24 * HOUR; t_idle_expires_at := Some (14 * 24 * HOUR);
  t_last_used_at := None; t_revoked_at := None; t_superseded_at := None |}.
Definition sample_store : Store := set_tokens sample_empty (<[bytes_of "d" := sample_row]> ∅).
Definition sample_record : RefreshTokenRecord := {|
  rec_grant := "g-1"; rec_client := "billing"; rec_scopes := ["openid"; "payments"]%string;
  rec_binding := Dpop "jkt"; rec_issued_at := 0; rec_absolute_expires_at := 30 * 24 * HOUR;
  rec_superseded := false |}.

Lemma sample_issue : issue sample_hex sample_uuid sample_empty "d" sample_new 0 = Ok sample_store.
Proof. reflexivity. Qed.

Lemma refresh_never_widens_witness :
  snd (redeem sample_hex sample_store "d" HOUR 0 None) = Ok (Accepted sample_record) /\
  exists n, In n [sample_new] /\ rec_client sample_record = nt_client n.
Proof.
  split; [vm_compute; reflexivity|].
  destruct (refresh_never_widens sample_hex sample_uuid (fun s => s) (fun g u H => eq_refl)
    sample_store (fst (redeem sample_hex sample_store "d" HOUR 0 None)) [] [sample_new] 0 "d" HOUR 0 None
    sample_record) as (n & Hn & _ & Hc & _).
  - apply (reach_issue _ _ _ sample_empty [] [] 0 "d" sample_new 0); [constructor|done|exact sample_issue].
  - vm_compute. reflexivity.
  - by exists n.
Defined.

Definition sample_claim_set (grant : option string) : TokenClaims :=
  {| tc_client := "billing"; tc_grant := grant; tc_iat := Some 3599 |}.

Lemma revocation_is_final_witness :
  let s2 := fst (revoke sample_hex sample_store "d" "billing" HOUR) in
  snd (revoke sample_hex sample_store "d" "billing" HOUR) = Ok (Some "g-1"%string) /\
  token_withdrawn (cutoffs s2) (sample_claim_set (Some "g-1"%string)) = true /\
  userinfo_grant (cutoffs s2) (sample_claim_set None) [{| sg_id := "g-1"; sg_client := "billing"; sg_active := true |}]
    <> Some "g-1"%string /\
  token_withdrawn (cutoffs s2) (sample_claim_set None) = false.
Proof.
  destruct (revocation_is_final sample_hex sample_uuid sample_store
    (fst (revoke sample_hex sample_store "d" "billing" HOUR)) "d" "billing" HOUR HOUR (bytes_of "d") "g-1")
    as (_ & _ & H & Hnone).
  - vm_compute. reflexivity.
  - reflexivity.
  - apply rtc_refl.
  - assert (forall g, ~ 3599 * NANOS + MAX_ACCESS_TOKEN_LIFETIME <= HOUR /\ tc_iat (sample_claim_set g) = Some 3599) as Hlate
      by (intros g; split; [vm_compute; intros Hw; by apply Hw|reflexivity]).
    assert (3599 <= unix_timestamp HOUR) as Hiat by (vm_compute; discriminate).
    split; [reflexivity|]. split; [|split].
    + destruct (H (sample_claim_set (Some "g-1"%string)) 3599 _ (proj2 (Hlate _)) Hiat (Z.le_refl _)) as [[Hw _]|Hw];
        [by apply Hw|by apply (Hlate None) in Hw].
    + destruct (H (sample_claim_set None) 3599 _ (proj2 (Hlate _)) Hiat (Z.le_refl _)) as [[_ Hw]|Hw];
        [by apply Hw|by apply (Hlate None) in Hw].
    + rewrite Hnone by reflexivity. vm_compute. reflexivity.
Defined.
