(* ===== verification/Codes.v ===== *)
(** * Authorization codes and PKCE

    The proof key ([crates/oidc/src/pkce.rs]), the code's digest
    ([crates/oidc/src/code.rs]), the repository ([crates/store-pg/src/codes.rs])
    and the bindings a redemption checks
    ([crates/server/src/http/authorization_code.rs]), over the grants and refresh
    tokens of [Refresh].

    A redemption is not one transaction: it spends the code in one, and on a
    replay looks the code up and revokes the grant and its tokens in three more
    statements. Calls are therefore modelled as processes that advance one
    statement at a time, any of which may fail, interleaved with each other and
    with everything else that touches the store, the retention sweep of lapsed device
    proofs and the removal of a managed device included. *)

From S2P Require Import Prelude BTree.
From S2P Require Import RateLimit.
From S2P Require Import Refresh.

Open Scope Z_scope.

(** ** PKCE *)

Inductive PkceError : Type :=
| ChallengeMissing
| MethodNotS256
| ChallengeLength (found : Z)
| ChallengeEncoding
| VerifierMissing
| VerifierLength
| VerifierCharacter
| Mismatch.

Module PkceError.
Definition code (e : PkceError) : string :=
  match e with
  | ChallengeMissing | MethodNotS256 | ChallengeLength _ | ChallengeEncoding | VerifierMissing =>
      "invalid_request"
  | VerifierLength | VerifierCharacter | Mismatch => "invalid_grant"
  end.
End PkceError.

Definition S256 : string := "S256".

(** [CodeChallenge] and [CodeVerifier], newtypes over their text. *)
Record CodeChallenge : Type := { challenge_text : string }.
Record CodeVerifier : Type := { verifier_text : string }.

Module CodeChallenge.
Definition LEN : Z := 43.
Definition DIGEST_LEN : nat := 32.
End CodeChallenge.

Module CodeVerifier.
Definition MIN_LEN : Z := 43.
Definition MAX_LEN : Z := 128.
End CodeVerifier.

Definition is_unreserved (byte : Z) : bool :=
  is_ascii_alphanumeric byte || (byte =? 45) || (byte =? 46) || (byte =? 95) || (byte =? 126).

Section Pkce.
(** The [sha2] crate's digest and the [base64] crate's URL-safe engine without
    padding. *)
Variable sha256 : list Z -> list Z.
Variable b64_encode : list Z -> string.
Variable b64_decode : string -> option (list Z).

Definition parse_challenge (challenge method : option string) : result CodeChallenge PkceError :=
  let? raw := ok_or challenge ChallengeMissing in
  if negb (bool_decide (method = Some S256)) then Err MethodNotS256
  else if negb (slen raw =? CodeChallenge.LEN) then Err (ChallengeLength (slen raw))
  else
    match b64_decode raw with
    | Some digest =>
        if (length digest =? CodeChallenge.DIGEST_LEN)%nat then Ok {| challenge_text := raw |}
        else Err ChallengeEncoding
    | None => Err ChallengeEncoding
    end.

Definition parse_verifier (presented : option string) : result CodeVerifier PkceError :=
  let? raw := ok_or presented VerifierMissing in
  if negb (all_bytes is_unreserved raw) then Err VerifierCharacter
  else if negb (in_range CodeVerifier.MIN_LEN CodeVerifier.MAX_LEN (slen raw)) then Err VerifierLength
  else Ok {| verifier_text := raw |}.

Definition challenge (v : CodeVerifier) : CodeChallenge :=
  {| challenge_text := b64_encode (sha256 (bytes_of (verifier_text v))) |}.

Definition verify (c : CodeChallenge) (v : CodeVerifier) : result unit PkceError :=
  let derived := challenge v in
  if ct_eq (bytes_of (challenge_text c)) (bytes_of (challenge_text derived)) then Ok tt
  else Err Mismatch.

Definition redeem_pkce (c : CodeChallenge) (presented : option string) : result unit PkceError :=
  let? v := parse_verifier presented in verify c v.
Lemma redeem_pkce_ok c presented :
  redeem_pkce c presented = Ok tt <->
  exists v, presented = Some v /\ 43 <= slen v <= 128 /\ all_bytes is_unreserved v = true /\
    challenge_text c = b64_encode (sha256 (bytes_of v)).
Proof.
  clear b64_decode. unfold redeem_pkce, parse_verifier, verify, challenge. destruct presented as [v|]; cbn; [|naive_solver].
  unfold CodeVerifier.MIN_LEN, CodeVerifier.MAX_LEN.
  destruct (all_bytes is_unreserved v) eqn:Ea; cbn;
    [|split; [done|]; intros (v' & [= <-] & _ & Ht & _); congruence].
  destruct (in_range 43 128 (slen v)) eqn:El; cbn.
  - unfold in_range in El. bool_hyps.
    destruct (ct_eq _ _) eqn:Ee; [apply ct_eq_strings in Ee|].
    + split; [|done]. intros _. by exists v.
    + split; [done|]. intros (v' & [= <-] & _ & _ & Hc). apply ct_eq_strings in Hc. congruence.
  - split; [done|]. intros (v' & [= <-] & Hl & _). unfold in_range in El.
    apply andb_false_iff in El as [?%Z.leb_gt|?%Z.leb_gt]; lia.
Qed.
End Pkce.

(** ** Codes *)

Definition CODE_BITS : Z := 256.

Definition code_digest_of (sha256_hex : string -> string) (presented : string) : result string unit :=
  let expected := (CODE_BITS + 5) / 6 in
  if negb (slen presented =? expected) || negb (all_bytes opaque_byte presented)
  then Err tt else Ok (sha256_hex presented).

(** The bindings of a code, and of its device proof where it has one. *)
Record CodeBinding (Proof : Type) : Type := {
  device_binding : option Proof;
  b_client_id : string;
  b_grant_id : string;
  b_code_challenge : string;
  b_redirect_uri : string;
  b_nonce : option string;
  b_dpop_jkt : option string;
  b_grant_management_action : option string;
  b_expires_at : Z
}.
Arguments device_binding {Proof} c.
Arguments b_client_id {Proof} c.
Arguments b_grant_id {Proof} c.
Arguments b_code_challenge {Proof} c.
Arguments b_redirect_uri {Proof} c.
Arguments b_nonce {Proof} c.
Arguments b_dpop_jkt {Proof} c.
Arguments b_grant_management_action {Proof} c.
Arguments b_expires_at {Proof} c.

(** A row of [authorization_codes], by its digest. *)
Record CodeRow : Type := {
  c_client_id : string;
  c_grant_id : string;
  c_code_challenge : string;
  c_redirect_uri : string;
  c_nonce : option string;
  c_dpop_jkt : option string;
  c_grant_management_action : option string;
  c_issued_at : Z;
  c_expires_at : Z;
  c_consumed_at : option Z
}.

Inductive Redemption (Proof : Type) : Type :=
| Redeemed (b : CodeBinding Proof)
| NotFound
| Replayed.
Arguments Redeemed {Proof} b.
Arguments NotFound {Proof}.
Arguments Replayed {Proof}.

(** [RevocationReason::CodeReplayed]. *)
Definition CODE_REPLAYED : string := "code_replayed".

Section Repository.
(** Device proofs, and whether one is valid at an instant, of this tenant, of
    the code's client and not yet bound to a grant. *)
Variable Proof : Type.
Variable proof_matches : Proof -> string -> Z -> bool.
Variable hex_decode : string -> option (list Z).
Variable uuid : string -> option string.
(** When a proof lapses, and the device it speaks for. *)
Variable proof_expires_at : Proof -> Z.
Variable proof_device : Proof -> string.

Record CodeStore : Type := {
  codes : gmap (list Z) CodeRow;
  proofs : gmap (list Z) Proof;
  rest : Store
}.

Definition code_digest_bytes (digest : string) : result (list Z) StoreError :=
  ok_or (hex_decode digest) (Invalid "code").

Definition issue (s : CodeStore) (digest : string) (b : CodeBinding Proof) (now : Z)
    : result CodeStore StoreError :=
  let? digest := code_digest_bytes digest in
  guard? match device_binding b with
         | Some proof => proof_matches proof (b_client_id b) now | None => true end
  else Invalid "device" in
  let? grant := ok_or (uuid (b_grant_id b)) (Invalid "grant_id") in
  guard? b_expires_at b <=? now + 60 * SECOND else Violated in
  guard? bool_decide (codes s !! digest = None) else Conflict in
  guard? bool_decide (is_Some (grants (rest s) !! grant)) else Violated in
  Ok {| codes := <[digest := {|
          c_client_id := b_client_id b; c_grant_id := grant;
          c_code_challenge := b_code_challenge b; c_redirect_uri := b_redirect_uri b;
          c_nonce := b_nonce b; c_dpop_jkt := b_dpop_jkt b;
          c_grant_management_action := b_grant_management_action b;
          c_issued_at := now; c_expires_at := b_expires_at b; c_consumed_at := None |}]> (codes s);
        proofs := match device_binding b with
                  | Some proof => <[digest := proof]> (proofs s) | None => proofs s end;
        rest := rest s |}.

Definition consume (now : Z) (r : CodeRow) : CodeRow := {|
  c_client_id := c_client_id r; c_grant_id := c_grant_id r;
  c_code_challenge := c_code_challenge r; c_redirect_uri := c_redirect_uri r;
  c_nonce := c_nonce r; c_dpop_jkt := c_dpop_jkt r;
  c_grant_management_action := c_grant_management_action r;
  c_issued_at := c_issued_at r; c_expires_at := c_expires_at r; c_consumed_at := Some now |}.

(** The predicate of the spend. *)
Definition spendable (now : Z) (r : CodeRow) : bool :=
  match c_consumed_at r with None => true | Some _ => false end && (now <? c_expires_at r).

Definition binding_of (r : CodeRow) (proof : option Proof) : CodeBinding Proof := {|
  device_binding := proof; b_client_id := c_client_id r; b_grant_id := c_grant_id r;
  b_code_challenge := c_code_challenge r; b_redirect_uri := c_redirect_uri r;
  b_nonce := c_nonce r; b_dpop_jkt := c_dpop_jkt r;
  b_grant_management_action := c_grant_management_action r; b_expires_at := c_expires_at r |}.

(** Where a call of [redeem] is: before its first transaction, before each of
    the statements after it, or answered. *)
Inductive Phase : Type :=
| Spend
| Lookup
| RevokeGrant (grant : string)
| RevokeTokens (grant : string)
| Done (r : result (Redemption Proof) StoreError).

(** The first transaction: the spend, and the proof that goes with it. A proof
    that does not match rolls the spend back. *)
Definition spend (s : CodeStore) (digest : list Z) (now : Z) : CodeStore * Phase :=
  match codes s !! digest with
  | Some r =>
      if spendable now r then
        let proof := proofs s !! digest in
        match proof with
        | Some p =>
            if proof_matches p (c_client_id r) now then
              ({| codes := <[digest := consume now r]> (codes s); proofs := delete digest (proofs s);
                  rest := rest s |}, Done (Ok (Redeemed (binding_of r proof))))
            else (s, Done (Err (Invalid "device")))
        | None =>
            ({| codes := <[digest := consume now r]> (codes s); proofs := proofs s; rest := rest s |},
             Done (Ok (Redeemed (binding_of r proof))))
        end
      else (s, Lookup)
  | None => (s, Lookup)
  end.

Definition lookup (s : CodeStore) (digest : list Z) : Phase :=
  match codes s !! digest with
  | Some r =>
      match c_consumed_at r with
      | Some _ => RevokeGrant (c_grant_id r)
      | None => Done (Ok NotFound)
      end
  | None => Done (Ok NotFound)
  end.

Definition set_rest (s : CodeStore) (r : Store) : CodeStore :=
  {| codes := codes s; proofs := proofs s; rest := r |}.

(** The two statements of [revoke_grant]. *)
Definition revoke_grant_row (s : Store) (grant : string) (now : Z) : Store :=
  {| tokens := tokens s; cutoffs := cutoffs s;
     grants := alter (fun g => {| g_session := g_session g;
                                  g_revoked_at := coalesce (g_revoked_at g) now;
                                  g_revocation_reason := coalesce (g_revocation_reason g) CODE_REPLAYED |})
                 grant (grants s) |}.

Definition revoke_grant_tokens (s : Store) (grant : string) (now : Z) : Store :=
  set_tokens s ((fun r => if String.eqb (t_grant r) grant then stamp_revoked now r else r) <$> tokens s).

(** One statement of a call. *)
Definition advance (s : CodeStore) (digest : list Z) (now : Z) (p : Phase) : CodeStore * Phase :=
  match p with
  | Spend => spend s digest now
  | Lookup => (s, lookup s digest)
  | RevokeGrant g => (set_rest s (revoke_grant_row (rest s) g now), RevokeTokens g)
  | RevokeTokens g => (set_rest s (revoke_grant_tokens (rest s) g now), Done (Ok Replayed))
  | Done r => (s, Done r)
  end.

(** A call nothing interrupts. *)
Fixpoint advances (fuel : nat) (s : CodeStore) (digest : list Z) (now : Z) (p : Phase) : CodeStore * Phase :=
  match fuel with
  | O => (s, p)
  | S fuel => let '(s, p) := advance s digest now p in advances fuel s digest now p
  end.

Definition redeem (s : CodeStore) (digest : string) (now : Z)
    : CodeStore * result (Redemption Proof) StoreError :=
  match code_digest_bytes digest with
  | Err e => (s, Err e)
  | Ok digest =>
      match advances 4 s digest now Spend with
      | (s, Done r) => (s, r)
      | (s, _) => (s, Err Violated)
      end
  end.

(** The proofs of the codes deleted go with them: their foreign key cascades.
    The proofs of other codes are deleted by the two statements after it. *)
Definition purge_expired (s : CodeStore) (now : Z) : CodeStore :=
  let kept := filter (fun kr => ~ c_expires_at kr.2 <= now) (codes s) in
  {| codes := kept; proofs := filter (fun kp => is_Some (kept !! kp.1)) (proofs s); rest := rest s |}.

(** The retention sweep of [managed_device_code_proofs], over the rows its batch
    selects, and the deletion of every proof of a device with the device. Both
    leave the codes where they are. *)
Definition sweep_proofs (s : CodeStore) (batch : list (list Z)) (now : Z) : CodeStore :=
  {| codes := codes s;
     proofs := filter (fun kp => ~ (kp.1 ∈ batch /\ proof_expires_at kp.2 <= now)) (proofs s);
     rest := rest s |}.
Definition remove_device_proofs (s : CodeStore) (device : string) : CodeStore :=
  {| codes := codes s; proofs := filter (fun kp => proof_device kp.2 <> device) (proofs s);
     rest := rest s |}.

(** ** Interleaved redemptions

    What has deleted proofs while their codes stayed. *)
Inductive Forgetting : Type :=
| Swept (now : Z)
| DeviceRemoved (device : string).

Definition forgets (why : Forgetting) (p : Proof) : Prop :=
  match why with
  | Swept now => proof_expires_at p <= now
  | DeviceRemoved device => proof_device p = device
  end.

(** A call, with a ghost: the grant it has revoked. *)
Record Call : Type := {
  call_digest : list Z; call_now : Z; phase : Phase; call_revoked : option string
}.

(** The store, the calls made so far, the codes issued so far, every grant id
    there has been (grant ids are drawn at random and not reused), and the
    sweeps and device removals so far. *)
Record Sys : Type := {
  store : CodeStore;
  calls : list Call;
  issued : list (list Z * CodeBinding Proof);
  seen : list string;
  forgetting : list Forgetting
}.

(** What anything else may do: drop codes, with their proofs, in any way touch
    tokens and cutoffs, create grants under fresh ids, and change or delete
    grants, but not take a revocation back. Deleting the proof of a code that
    stays is a step of its own. *)
Definition disturbs (x x' : Sys) : Prop :=
  calls x' = calls x /\ issued x' = issued x /\ forgetting x' = forgetting x /\
  (forall g, In g (seen x) -> In g (seen x')) /\
  (forall d r, codes (store x') !! d = Some r ->
     codes (store x) !! d = Some r /\ proofs (store x') !! d = proofs (store x) !! d) /\
  (forall d, codes (store x') !! d = None -> proofs (store x') !! d = None) /\
  (forall g row', grants (rest (store x')) !! g = Some row' -> In g (seen x') /\
     (~ In g (seen x) \/ exists row, grants (rest (store x)) !! g = Some row /\
        (is_Some (g_revoked_at row) -> is_Some (g_revoked_at row')))).

(** The state of a call once its statement was run. *)
Definition moved (c : Call) (p : Phase) : Call :=
  {| call_digest := call_digest c; call_now := call_now c; phase := p;
     call_revoked := match phase c with RevokeTokens g => Some g | _ => call_revoked c end |}.

Definition set_store (x : Sys) (s : CodeStore) : Sys :=
  {| store := s; calls := calls x; issued := issued x; seen := seen x; forgetting := forgetting x |}.
Definition set_call (x : Sys) (i : nat) (c : Call) : Sys :=
  {| store := store x; calls := <[i := c]> (calls x); issued := issued x; seen := seen x; forgetting := forgetting x |}.

Definition forgot (x : Sys) (s : CodeStore) (why : Forgetting) : Sys :=
  {| store := s; calls := calls x; issued := issued x; seen := seen x;
     forgetting := why :: forgetting x |}.

Inductive sys_step : Sys -> Sys -> Prop :=
| sys_issue x digest d b now s' :
    hex_decode digest = Some d -> issue (store x) digest b now = Ok s' ->
    sys_step x {| store := s'; calls := calls x; issued := (d, b) :: issued x; seen := seen x; forgetting := forgetting x |}
| sys_present x d now :
    sys_step x {| store := store x; issued := issued x; seen := seen x; forgetting := forgetting x;
      calls := calls x ++ [{| call_digest := d; call_now := now; phase := Spend; call_revoked := None |}] |}
| sys_advance x i c s' p :
    calls x !! i = Some c -> advance (store x) (call_digest c) (call_now c) (phase c) = (s', p) ->
    sys_step x (set_call (set_store x s') i (moved c p))
(** A statement that fails, and one whose answer is lost after it ran. *)
| sys_fail x i c e :
    calls x !! i = Some c -> (forall r, phase c <> Done r) ->
    sys_step x (set_call x i (moved c (Done (Err e))))
| sys_lost x i c s' p e :
    calls x !! i = Some c -> (forall r, phase c <> Done r) ->
    advance (store x) (call_digest c) (call_now c) (phase c) = (s', p) ->
    sys_step x (set_call (set_store x s') i (moved c (Done (Err e))))
| sys_purge x now : sys_step x (set_store x (purge_expired (store x) now))
| sys_sweep_proofs x batch now :
    sys_step x (forgot x (sweep_proofs (store x) batch now) (Swept now))
| sys_remove_device x device :
    sys_step x (forgot x (remove_device_proofs (store x) device) (DeviceRemoved device))
| sys_other x x' : disturbs x x' -> sys_step x x'.

(** Starting with no code. *)
Definition initial (x : Sys) : Prop :=
  codes (store x) = ∅ /\ proofs (store x) = ∅ /\ calls x = [] /\ issued x = [] /\
  forall g row, grants (rest (store x)) !! g = Some row -> In g (seen x).

Definition sys_reach (x : Sys) : Prop := exists x0, initial x0 /\ rtc sys_step x0 x.

(** ** One statement at a time *)

(** The outcomes of the spend. *)
Lemma spend_cases s d now s' p :
  spend s d now = (s', p) ->
  (exists r, codes s !! d = Some r /\ spendable now r = true /\
     s' = {| codes := <[d := consume now r]> (codes s); proofs := delete d (proofs s); rest := rest s |} /\
     p = Done (Ok (Redeemed (binding_of r (proofs s !! d)))))
  \/ (s' = s /\ ((exists e, p = Done (Err e)) \/
       p = Lookup /\ forall r, codes s !! d = Some r -> spendable now r = false)).
Proof.
  unfold spend. destruct (codes s !! d) as [r|] eqn:Er; [|naive_solver].
  destruct (spendable now r) eqn:Es; [|naive_solver].
  destruct (proofs s !! d) as [q|] eqn:Eq.
  - destruct (proof_matches _ _ _); intros [= <- <-]; [left|naive_solver]. by exists r.
  - intros [= <- <-]. left. exists r. split_and!; try done. by rewrite delete_id.
Qed.

Lemma lookup_cases s d p :
  lookup s d = p ->
  (exists r, codes s !! d = Some r /\ is_Some (c_consumed_at r) /\ p = RevokeGrant (c_grant_id r)) \/
  p = Done (Ok NotFound).
Proof. unfold lookup. destruct (codes s !! d) as [r|]; [destruct (c_consumed_at r) eqn:E|]; naive_solver. Qed.

(** What an issue adds. *)
Lemma issue_row s digest d b now s' :
  hex_decode digest = Some d -> issue s digest b now = Ok s' ->
  exists r, codes s !! d = None /\ uuid (b_grant_id b) = Some (c_grant_id r) /\
    is_Some (grants (rest s) !! c_grant_id r) /\ c_consumed_at r = None /\
    c_issued_at r = now /\ c_expires_at r <= now + 60 * SECOND /\
    binding_of r (device_binding b) = {| device_binding := device_binding b;
      b_client_id := b_client_id b; b_grant_id := c_grant_id r;
      b_code_challenge := b_code_challenge b; b_redirect_uri := b_redirect_uri b;
      b_nonce := b_nonce b; b_dpop_jkt := b_dpop_jkt b;
      b_grant_management_action := b_grant_management_action b; b_expires_at := b_expires_at b |} /\
    s' = {| codes := <[d := r]> (codes s);
            proofs := match device_binding b with
                      | Some proof => <[d := proof]> (proofs s) | None => proofs s end;
            rest := rest s |}.
Proof.
  intros Hd H. unfold issue, code_digest_bytes in H. rewrite Hd in H. cbn [ok_or rbind] in H.
  ok_inv. bool_hyps. subst. eexists. split_and!; try done. all: cbn; done.
Qed.

(** ** The invariant of interleaved calls *)

(** [b'] is what was issued, its grant in canonical spelling, its device proof
    aside. *)
Definition same_code (b b' : CodeBinding Proof) : Prop :=
  uuid (b_grant_id b) = Some (b_grant_id b') /\
  b' = {| device_binding := device_binding b'; b_client_id := b_client_id b;
          b_grant_id := b_grant_id b'; b_code_challenge := b_code_challenge b;
          b_redirect_uri := b_redirect_uri b; b_nonce := b_nonce b; b_dpop_jkt := b_dpop_jkt b;
          b_grant_management_action := b_grant_management_action b; b_expires_at := b_expires_at b |}.

(** The proof of a code: the one it was issued with, or none once a sweep found
    it lapsed or its device was removed. *)
Definition proof_kept (x : Sys) (issued_with found : option Proof) : Prop :=
  found = issued_with \/
  found = None /\ exists p why, issued_with = Some p /\ In why (forgetting x) /\ forgets why p.

Lemma same_code_any b r p q : same_code b (binding_of r p) -> same_code b (binding_of r q).
Proof. intros [Hu E]. split; [done|]. unfold binding_of in *. cbn in *. congruence. Qed.

(** The grant a code of this digest was issued under. *)
Definition issued_under (x : Sys) (d : list Z) (g : string) : Prop :=
  exists b, In (d, b) (issued x) /\ uuid (b_grant_id b) = Some g.

Definition redeemed (d : list Z) (c : Call) : bool :=
  match phase c with
  | Done (Ok (Redeemed _)) => bool_decide (call_digest c = d)
  | _ => false
  end.

Definition of_digest {A} (d : list Z) (ib : list Z * A) : bool := bool_decide (ib.1 = d).

Definition tally {A} (p : A -> bool) (l : list A) : nat := length (List.filter p l).

(** One for a code still to be spent. *)
Definition unspent (d : list Z) (s : CodeStore) : nat :=
  match codes s !! d with
  | Some r => match c_consumed_at r with None => 1 | Some _ => 0 end
  | None => 0
  end.

Definition grant_revoked (x : Sys) (g : string) : Prop :=
  In g (seen x) /\ forall row, grants (rest (store x)) !! g = Some row -> is_Some (g_revoked_at row).

Definition call_ok (x : Sys) (c : Call) : Prop :=
  match phase c with
  | RevokeGrant g => In g (seen x) /\ issued_under x (call_digest c) g
  | RevokeTokens g => grant_revoked x g /\ issued_under x (call_digest c) g
  | Done (Ok (Redeemed b')) =>
      exists b, In (call_digest c, b) (issued x) /\ same_code b b' /\
        proof_kept x (device_binding b) (device_binding b') /\ call_now c < b_expires_at b'
  | Done (Ok Replayed) => is_Some (call_revoked c)
  | _ => True
  end /\
  forall g, call_revoked c = Some g -> grant_revoked x g /\ issued_under x (call_digest c) g.

Record sys_ok (x : Sys) : Prop := {
  ok_once : forall d, (tally (redeemed d) (calls x) + unspent d (store x) <= tally (of_digest d) (issued x))%nat;
  ok_rows : forall d r, codes (store x) !! d = Some r -> In (c_grant_id r) (seen x) /\
    exists b, In (d, b) (issued x) /\ same_code b (binding_of r None) /\
      (c_consumed_at r = None -> proof_kept x (device_binding b) (proofs (store x) !! d));
  ok_proofs : forall d, codes (store x) !! d = None -> proofs (store x) !! d = None;
  ok_grants : forall g row, grants (rest (store x)) !! g = Some row -> In g (seen x);
  ok_calls : Forall (call_ok x) (calls x)
}.

(** Grants of [x'] are grants of [x] no less revoked, or new. *)
Definition grants_keep (x x' : Sys) : Prop :=
  (forall g, In g (seen x) -> In g (seen x')) /\
  forall g row', grants (rest (store x')) !! g = Some row' -> In g (seen x') /\
    (~ In g (seen x) \/ exists row, grants (rest (store x)) !! g = Some row /\
       (is_Some (g_revoked_at row) -> is_Some (g_revoked_at row'))).

Lemma grant_revoked_keep x x' g : grants_keep x x' -> grant_revoked x g -> grant_revoked x' g.
Proof.
  intros [Hs Hg] [Hin Hr]. split; [by apply Hs|]. intros row' Hl.
  apply Hg in Hl as [_ [?|(row & Hrow & Hi)]]; [done|]. by apply Hi, Hr.
Qed.

(** What has been issued and forgotten in [x] has been in [x']. *)
Definition records_keep (x x' : Sys) : Prop :=
  (forall ib, In ib (issued x) -> In ib (issued x')) /\
  forall why, In why (forgetting x) -> In why (forgetting x').

Lemma records_keep_id x x' : issued x' = issued x -> forgetting x' = forgetting x -> records_keep x x'.
Proof. intros Ei Ef. split; [by rewrite Ei|by rewrite Ef]. Qed.

Lemma issued_under_keep x x' d g : records_keep x x' -> issued_under x d g -> issued_under x' d g.
Proof. intros [Hi _] (b & Hb & Hu). exists b. split; [by apply Hi|done]. Qed.

Lemma proof_kept_keep x x' p q : records_keep x x' -> proof_kept x p q -> proof_kept x' p q.
Proof.
  intros [_ Hf] [->|(-> & p0 & why & -> & Hin & Hw)]; [by left|]. right. split; [done|].
  exists p0, why. split; [done|]. split; [by apply Hf|done].
Qed.

Lemma call_ok_keep x x' c : grants_keep x x' -> records_keep x x' -> call_ok x c -> call_ok x' c.
Proof.
  intros Hk Hi [Hp Hr]. split.
  2:{ intros g Hg. apply Hr in Hg as [? ?].
      split; [by eapply grant_revoked_keep|by eapply issued_under_keep]. }
  destruct (phase c) as [| |g|g|[[b'| |]|e]]; try done.
  - destruct Hp as [? ?]. split; [by apply Hk|by eapply issued_under_keep].
  - destruct Hp as [? ?]. split; [by eapply grant_revoked_keep|by eapply issued_under_keep].
  - destruct Hp as (b & ? & ? & ? & ?). exists b.
    split; [by apply Hi|]. split; [done|]. split; [by eapply proof_kept_keep|done].
Qed.

Lemma grants_keep_id x x' :
  (forall g row, grants (rest (store x)) !! g = Some row -> In g (seen x)) ->
  grants (rest (store x')) = grants (rest (store x)) -> seen x' = seen x -> grants_keep x x'.
Proof. intros Hg E Es. unfold grants_keep. rewrite E, Es. split; [done|]. intros g row' H. naive_solver. Qed.

Lemma tally_insert {A} (p : A -> bool) l i a b :
  l !! i = Some a -> (tally p (<[i := b]> l) + Nat.b2n (p a) = tally p l + Nat.b2n (p b))%nat.
Proof.
  unfold tally. revert i. induction l as [|x l IH]; intros [|i] H; [done|done| |].
  - cbn in H. injection H as ->. cbn. destruct (p a), (p b); cbn; lia.
  - change (<[S i := b]> (x :: l)) with (x :: <[i := b]> l). specialize (IH i H). cbn [List.filter].
    destruct (p x); cbn [length]; lia.
Qed.

Lemma tally_app {A} (p : A -> bool) l k : tally p (l ++ k) = (tally p l + tally p k)%nat.
Proof. unfold tally. by rewrite List.filter_app, length_app. Qed.

(** Codes only go, or are consumed; proofs go with them. *)
Definition codes_keep (s s' : CodeStore) : Prop :=
  (forall d r, codes s' !! d = Some r -> exists r0, codes s !! d = Some r0 /\
     (r = r0 \/ exists now, r = consume now r0) /\
     (c_consumed_at r = None -> proofs s' !! d = proofs s !! d)) /\
  (forall d, codes s' !! d = None -> proofs s' !! d = None).

Lemma sys_ok_move x i c c' s' :
  sys_ok x -> calls x !! i = Some c -> codes_keep (store x) s' ->
  grants_keep x (set_store x s') ->
  (forall d, (Nat.b2n (redeemed d c') + unspent d s' <= Nat.b2n (redeemed d c) + unspent d (store x))%nat) ->
  call_ok (set_store x s') c' ->
  sys_ok (set_call (set_store x s') i c').
Proof.
  intros [H1 H2 H3 H4 H5] Hi [Hc Hp] Hg Hn Hok. split; cbn [store calls issued seen set_call set_store].
  - intros d. pose proof (tally_insert (redeemed d) _ _ _ c' Hi). specialize (H1 d). specialize (Hn d). lia.
  - intros d r Hr. destruct (Hc _ _ Hr) as (r0 & Hr0 & Hcase & Hpr).
    destruct (H2 _ _ Hr0) as (Hs & b & Hb & Hsame & Hproof).
    assert (c_grant_id r = c_grant_id r0 /\ binding_of r None = binding_of r0 None /\
            (c_consumed_at r = None -> c_consumed_at r0 = None)) as (Eg & Eb & Hnone).
    { destruct Hcase as [->|[now ->]]; done. }
    split; [by rewrite Eg|]. exists b. split; [done|]. split; [by rewrite Eb|]. intros Hnil. rewrite Hpr by done. by apply Hproof, Hnone.
  - exact Hp.
  - intros g row Hl. apply Hg in Hl as [? _]. done.
  - apply Forall_insert; [|exact Hok]. eapply Forall_impl; [exact H5|]. intros c0 Hc0.
    by eapply call_ok_keep; [exact Hg|by apply records_keep_id|exact Hc0].
Qed.

Lemma codes_keep_id s s' : codes s' = codes s -> proofs s' = proofs s ->
  (forall d, codes s !! d = None -> proofs s !! d = None) -> codes_keep s s'.
Proof. intros E Ep Hn. unfold codes_keep. rewrite E, Ep. split; [|done]. intros d r Hr. exists r. naive_solver. Qed.

Lemma redeemed_err d c e : redeemed d (moved c (Done (Err e))) = false.
Proof. done. Qed.

(** A call whose statement ran, with its answer or without it. *)
Lemma advance_ok x i c s' p p' :
  sys_ok x -> calls x !! i = Some c -> (forall r, phase c <> Done r) ->
  advance (store x) (call_digest c) (call_now c) (phase c) = (s', p) ->
  p' = p \/ (exists e, p' = Done (Err e)) ->
  sys_ok (set_call (set_store x s') i (moved c p')).
Proof.
  intros Hx Hi Hnd Ha Hp'. pose proof Hx as [H1 H2 H3 H4 H5].
  destruct (Forall_lookup_1 _ _ _ _ H5 Hi) as [Hph Hrev].
  assert (forall d, redeemed d c = false) as Hr0.
  { intros d. unfold redeemed. destruct (phase c) as [| | | |r]; try done. by destruct (Hnd r). }
  destruct (phase c) as [| |g|g|r] eqn:Eph; [| | | |by destruct (Hnd r)]; cbn [advance] in Ha.
  - apply spend_cases in Ha as [(r & Hr & Hsp & -> & ->)|[-> Hp]].
    + destruct (H2 _ _ Hr) as (Hs & b & Hb & Hsame & Hproof).
      unfold spendable in Hsp. destruct (c_consumed_at r) eqn:Ec; [done|]. cbn in Hsp.
      specialize (Hproof eq_refl). apply same_code_any with (q := proofs (store x) !! call_digest c) in Hsame.
      apply (sys_ok_move x i c); [done..| | | |].
      * split; cbn.
        -- intros d r' [[<- <-]|[Hne Hl]]%lookup_insert_Some.
           ++ exists r. split; [done|]. split; [by right; eexists|done].
           ++ exists r'. split; [done|]. split; [by left|]. intros _. by rewrite lookup_delete_ne.
        -- intros d [Hl Hne]%lookup_insert_None. rewrite lookup_delete_ne by done. by apply H3.
      * by apply grants_keep_id.
      * intros d. rewrite Hr0. unfold unspent. cbn [codes].
        destruct (decide (call_digest c = d)) as [<-|Hne].
        -- rewrite lookup_insert, decide_True, Hr, Ec by done. cbn.
           destruct (redeemed _ _); cbn; lia.
        -- rewrite lookup_insert_ne by done.
           assert (redeemed d (moved c p') = false) as ->; [|cbn; lia].
           unfold redeemed. cbn. destruct Hp' as [->|[e ->]]; [|done]. by rewrite bool_decide_false.
      * split; cbn.
        -- destruct Hp' as [->|[e ->]]; [|done]. exists b. split; [done|].
           split; [exact Hsame|]. split; [exact Hproof|]. cbn. by apply Z.ltb_lt in Hsp.
        -- rewrite Eph. exact Hrev.
    + apply (sys_ok_move x i c); [done| |by apply codes_keep_id|by apply grants_keep_id| |]; [done| |].
      * intros d. rewrite Hr0. assert (redeemed d (moved c p') = false) as ->; [|cbn; lia].
        unfold redeemed. cbn. destruct Hp' as [->|[e ->]]; [|done]. by destruct Hp as [[e ->]|[-> _]].
      * split; cbn; [|rewrite Eph; exact Hrev].
        destruct Hp' as [->|[e ->]]; [|done]. by destruct Hp as [[e ->]|[-> _]].
  - injection Ha as <- Hp. apply lookup_cases in Hp as Hl.
    apply (sys_ok_move x i c); [done|done|by apply codes_keep_id|by apply grants_keep_id| |].
    + intros d. rewrite Hr0. assert (redeemed d (moved c p') = false) as ->; [|cbn; lia].
      unfold redeemed. cbn. destruct Hp' as [->|[e ->]]; [|done]. by destruct Hl as [(r & _ & _ & ->)| ->].
    + split; cbn; [|rewrite Eph; exact Hrev].
      destruct Hp' as [->|[e ->]]; [|done]. destruct Hl as [(r & Hr & _ & ->)| ->]; [|done].
      apply H2 in Hr as (Hs & b & Hb & [Hu _] & _). split; [done|]. by exists b.
  - injection Ha as <- Hp.
    assert (grants_keep x (set_store x (set_rest (store x) (revoke_grant_row (rest (store x)) g (call_now c))))) as Hk.
    { split; [done|]. cbn. intros g' row' Hl.
      apply lookup_alter_Some in Hl as [(-> & row & Hl & ->)|[_ Hl]]; (split; [by eapply H4|right]).
      - exists row. split; [done|]. cbn. intros [y Hy]. rewrite Hy. by eexists.
      - by exists row'. }
    apply (sys_ok_move x i c); [done|done|by apply codes_keep_id|exact Hk| |].
    + intros d. rewrite Hr0. assert (redeemed d (moved c p') = false) as ->; [|unfold unspent; cbn [codes set_rest Nat.b2n]; lia].
      unfold redeemed. cbn. by destruct Hp' as [->|[e ->]]; [rewrite <- Hp|].
    + split; cbn.
      * destruct Hp' as [->|[e ->]]; [|done]. rewrite <- Hp. destruct Hph as [Hseen Hu].
        split; [|exact Hu]. split; [exact Hseen|]. cbn. intros row' Hl. apply lookup_alter_Some in Hl as [(_ & row & Hl & ->)|[? _]]; [|done].
        cbn. destruct (g_revoked_at row); by eexists.
      * rewrite Eph. intros g' Hg'. apply Hrev in Hg' as [Hr' Hu'].
        split; [by eapply grant_revoked_keep|exact Hu'].
  - injection Ha as <- Hp.
    assert (grants_keep x (set_store x (set_rest (store x) (revoke_grant_tokens (rest (store x)) g (call_now c))))) as Hk
      by (by apply grants_keep_id).
    apply (sys_ok_move x i c); [done|done|by apply codes_keep_id|exact Hk| |].
    + intros d. rewrite Hr0. assert (redeemed d (moved c p') = false) as ->; [|unfold unspent; cbn [codes set_rest Nat.b2n]; lia].
      unfold redeemed. cbn. by destruct Hp' as [->|[e ->]]; [rewrite <- Hp|].
    + split; cbn; rewrite Eph.
      * destruct Hp' as [->|[e ->]]; [|done]. rewrite <- Hp. by eexists.
      * intros g' [= <-]. destruct Hph as [? Hu]. split; [by eapply grant_revoked_keep|exact Hu].
Qed.

(** What a deletion of proofs leaves. *)
Definition proofs_drop (why : Forgetting) (s s' : CodeStore) : Prop :=
  codes s' = codes s /\ rest s' = rest s /\
  forall d, proofs s' !! d = proofs s !! d \/
    proofs s' !! d = None /\ exists p, proofs s !! d = Some p /\ forgets why p.

Lemma filter_drops (P : list Z * Proof -> Prop) `{forall kp, Decision (P kp)} why s :
  (forall d p, proofs s !! d = Some p -> ~ P (d, p) -> forgets why p) ->
  proofs_drop why s {| codes := codes s; proofs := filter P (proofs s); rest := rest s |}.
Proof.
  intros Hw. split; [done|]. split; [done|]. intros d. cbn [proofs]. rewrite map_lookup_filter.
  destruct (proofs s !! d) as [p|] eqn:E; [|by left]. cbn.
  destruct (decide (P (d, p))) as [Hp|Hp].
  - left. by rewrite option_guard_True.
  - right. rewrite option_guard_False by done. split; [done|]. exists p. split; [done|]. by eapply Hw.
Qed.

Lemma sweep_drops s batch now : proofs_drop (Swept now) s (sweep_proofs s batch now).
Proof. apply filter_drops. intros d p _ Hn. cbn in Hn |- *. apply dec_stable in Hn. by destruct Hn. Qed.

Lemma removal_drops s device : proofs_drop (DeviceRemoved device) s (remove_device_proofs s device).
Proof. apply filter_drops. intros d p _ Hn. by apply dec_stable in Hn. Qed.

Lemma forgot_ok x s why : sys_ok x -> proofs_drop why (store x) s -> sys_ok (forgot x s why).
Proof.
  intros [H1 H2 H3 H4 H5] (Ec & Er & Hd).
  assert (records_keep x (forgot x s why)) as Hk by (split; [done|]; intros w Hw; by right).
  split; cbn [store calls issued seen forgot].
  - intros d. specialize (H1 d). unfold unspent in *. by rewrite Ec.
  - intros d r Hl. rewrite Ec in Hl. destruct (H2 _ _ Hl) as (? & b & ? & ? & Hp). split; [done|].
    exists b. split; [done|]. split; [done|]. intros Hn. specialize (Hp Hn).
    destruct (Hd d) as [->|(-> & p & Hp' & Hf)]; [by eapply proof_kept_keep|].
    destruct Hp as [Eq|[Eq _]]; [|congruence]. right. split; [done|].
    exists p, why. split; [congruence|]. split; [by left|done].
  - intros d Hn. rewrite Ec in Hn. apply H3 in Hn. destruct (Hd d) as [->|[-> _]]; done.
  - intros g row Hl. rewrite Er in Hl. by eapply H4.
  - eapply Forall_impl; [exact H5|]. intros c Hc. eapply call_ok_keep; [|exact Hk|exact Hc].
    apply grants_keep_id; [done|cbn; by rewrite Er|done].
Qed.

Lemma same_code_of_row b r :
  uuid (b_grant_id b) = Some (c_grant_id r) ->
  binding_of r (device_binding b) = {| device_binding := device_binding b;
      b_client_id := b_client_id b; b_grant_id := c_grant_id r;
      b_code_challenge := b_code_challenge b; b_redirect_uri := b_redirect_uri b;
      b_nonce := b_nonce b; b_dpop_jkt := b_dpop_jkt b;
      b_grant_management_action := b_grant_management_action b; b_expires_at := b_expires_at b |} ->
  same_code b (binding_of r None).
Proof. intros Hu E. apply (same_code_any _ _ (device_binding b)). split; [done|exact E]. Qed.

Lemma purge_keeps s now :
  (forall d, codes s !! d = None -> proofs s !! d = None) -> codes_keep s (purge_expired s now).
Proof.
  intros Hn. split; cbn.
  - intros d r Hl. pose proof Hl as [Hc _]%map_lookup_filter_Some. exists r.
    split; [done|]. split; [by left|]. intros _. rewrite map_lookup_filter. destruct (proofs s !! d) as [q|]; [|done].
    cbn. rewrite option_guard_True; [done|]. rewrite Hl. by eexists.
  - intros d Hl. rewrite map_lookup_filter. destruct (proofs s !! d) as [q|]; [|done].
    cbn. rewrite option_guard_False; [done|]. rewrite Hl. by intros [? ?].
Qed.

Lemma purge_unspent s now d : (unspent d (purge_expired s now) <= unspent d s)%nat.
Proof.
  unfold unspent. cbn [codes purge_expired].
  destruct (filter _ (codes s) !! d) as [r|] eqn:E; [|lia].
  apply map_lookup_filter_Some in E as [-> _]. done.
Qed.

Lemma sys_step_ok x y : sys_ok x -> sys_step x y -> sys_ok y.
Proof.
  intros Hx Hs. pose proof Hx as [H1 H2 H3 H4 H5].
  destruct Hs as [x digest d b now s' Hd Hi|x d now|x i c s' p Hi Ha|x i c e Hi Hn|x i c s' p e Hi Hn Ha
    |x now|x batch now|x device|x x' (Ec & Ei & Ef & Hseen & Hcodes & Hproofs & Hg)].
  - apply (issue_row _ _ d) in Hi as (r & Hnone & Hu & [row Hrow] & Hcons & _ & _ & Hb & ->); [|done].
    assert (grants_keep x {| store := {| codes := <[d := r]> (codes (store x));
        proofs := match device_binding b with
                  | Some proof => <[d := proof]> (proofs (store x)) | None => proofs (store x) end;
        rest := rest (store x) |}; calls := calls x; issued := (d, b) :: issued x; seen := seen x; forgetting := forgetting x |}) as Hk
      by (by apply grants_keep_id).
    split; cbn.
    + intros d'. specialize (H1 d'). unfold unspent, of_digest, tally in *. cbn [codes List.filter fst] in *.
      destruct (decide (d = d')) as [<-|Hne].
      * rewrite lookup_insert, decide_True, bool_decide_true, Hcons by done. cbn [length]. rewrite Hnone in H1. lia.
      * rewrite lookup_insert_ne, bool_decide_false by done. exact H1.
    + intros d' r' [[<- <-]|[Hne Hl]]%lookup_insert_Some.
      * split; [by eapply H4|]. exists b. split; [by left|]. split; [by apply same_code_of_row|]. intros _.
        left. destruct (device_binding b); [by rewrite lookup_insert, decide_True|by apply H3].
      * destruct (H2 _ _ Hl) as (? & b' & ? & ? & Hpr). split; [done|]. exists b'. split; [by right|].
        split; [done|]. intros Hc. specialize (Hpr Hc).
        destruct (device_binding b); [by rewrite lookup_insert_ne|done].
    + intros d' [Hl Hne]%lookup_insert_None.
      destruct (device_binding b); [rewrite lookup_insert_ne by done|]; by apply H3.
    + exact H4.
    + eapply Forall_impl; [exact H5|]. intros c Hc. eapply call_ok_keep; [exact Hk| |exact Hc].
      split; [by right|done].
  - split; cbn [store calls issued seen]; [|done..|].
    + intros d'. rewrite tally_app. specialize (H1 d').
      change (tally (redeemed d') [{| call_digest := d; call_now := now; phase := Spend; call_revoked := None |}])
        with 0%nat. lia.
    + apply Forall_app. split; [exact H5|]. apply Forall_cons. split; [by split|by apply Forall_nil].
  - assert ((exists r, phase c = Done r) \/ forall r, phase c <> Done r) as [[r Hr]|Hn]
      by (destruct (phase c); [right|right|right|right|left]; naive_solver).
    + rewrite Hr in Ha. injection Ha as <- <-.
      assert (set_call (set_store x (store x)) i (moved c (Done r)) = x) as ->; [|done].
      assert (moved c (Done r) = c) as ->.
      { destruct c as [? ? ph ?]. unfold moved. cbn in *. by rewrite Hr. }
      unfold set_call, set_store. cbn. rewrite list_insert_id by done. by destruct x.
    + eapply advance_ok; [done..|by left].
  - pose proof (sys_ok_move x i c (moved c (Done (Err e))) (store x)) as Hm.
    assert (set_store x (store x) = x) as Ex by (by destruct x). rewrite Ex in Hm.
    destruct (Forall_lookup_1 _ _ _ _ H5 Hi) as [Hph Hrev].
    apply Hm; [done|done|by apply codes_keep_id|by apply grants_keep_id| |].
    + intros d. rewrite redeemed_err. cbn [Nat.b2n]. lia.
    + split; cbn; [done|].
      destruct (phase c) as [| | |g|] eqn:Eph; try exact Hrev. intros g' [= <-]. exact Hph.
  - eapply advance_ok; [done..|by right; eexists].
  - pose proof (purge_keeps (store x) now H3) as [Hc Hp].
    split; cbn [store calls issued seen set_store].
    + intros d. specialize (H1 d). pose proof (purge_unspent (store x) now d). lia.
    + intros d r Hl. destruct (Hc _ _ Hl) as (r0 & Hl0 & [->|[at_ ->]] & Hpr);
        destruct (H2 _ _ Hl0) as (? & b & ? & ? & Hb).
      * split; [done|]. exists b. split; [done|]. split; [done|]. intros Hn. rewrite Hpr by done. by apply Hb.
      * split; [done|]. exists b. split; [done|]. by split.
    + exact Hp.
    + exact H4.
    + eapply Forall_impl; [exact H5|]. intros c Hok. eapply call_ok_keep; [by apply grants_keep_id|done|exact Hok].
  - apply forgot_ok; [done|]. apply sweep_drops.
  - apply forgot_ok; [done|]. apply removal_drops.
  - assert (grants_keep x x') as Hk by (split; [done|exact Hg]).
    split.
    + intros d. specialize (H1 d). rewrite Ec, Ei. unfold unspent in *.
      destruct (codes (store x') !! d) as [r|] eqn:E; [|lia].
      apply Hcodes in E as [E _]. rewrite E in H1. exact H1.
    + intros d r Hl. destruct (Hcodes _ _ Hl) as [Hl0 Hp]. destruct (H2 _ _ Hl0) as (? & b & ? & ? & Hb).
      split; [by apply Hseen|]. exists b. rewrite Ei, Hp. split; [done|]. split; [done|]. intros Hn.
      eapply proof_kept_keep; [by apply records_keep_id|by apply Hb].
    + exact Hproofs.
    + intros g row Hl. by apply Hg in Hl as [? _].
    + rewrite Ec. eapply Forall_impl; [exact H5|]. intros c Hok.
      eapply call_ok_keep; [exact Hk|by apply records_keep_id|exact Hok].
Qed.

Lemma sys_reach_ok x : sys_reach x -> sys_ok x.
Proof.
  intros (x0 & (Hc & Hp & Hcalls & Hi & Hg) & Hsteps).
  assert (sys_ok x0) as H0.
  { split.
    - intros d. unfold unspent. rewrite Hc, Hcalls, Hi, lookup_empty. cbn. lia.
    - intros d r H. by rewrite Hc, lookup_empty in H.
    - intros d _. by rewrite Hp, lookup_empty.
    - exact Hg.
    - rewrite Hcalls. by apply Forall_nil. }
  clear Hc Hp Hcalls Hi Hg. induction Hsteps as [|x y z Hxy _ IH]; [done|]. apply IH. by eapply sys_step_ok.
Qed.

(** C3: A code is redeemed at most as many times as it was issued: once, short of
    the generator drawing the same 256 bits twice. However calls interleave,
    whichever statements fail or lose their answer, and whatever is swept or
    removed in between, a call that is told [Redeemed] gets exactly the bindings
    the code was issued with, before it expired; and with them the device proof
    it was issued with, or none where a retention sweep found that proof lapsed
    or its device was removed while the code stayed. *)
Theorem code_single_use (x : Sys) (d : list Z) :
  sys_reach x ->
  (tally (redeemed d) (calls x) <= tally (of_digest d) (issued x))%nat /\
  forall c b', In c (calls x) -> phase c = Done (Ok (Redeemed b')) ->
    exists b, In (call_digest c, b) (issued x) /\ same_code b b' /\ call_now c < b_expires_at b' /\
      (device_binding b' = device_binding b \/
       device_binding b' = None /\ exists p why,
         device_binding b = Some p /\ In why (forgetting x) /\ forgets why p).
Proof.
  intros [H1 _ _ _ H5]%sys_reach_ok. split; [specialize (H1 d); lia|].
  intros c b' Hin Hp. rewrite Forall_forall in H5. apply list_elem_of_In, H5 in Hin as [Hc _].
  rewrite Hp in Hc. destruct Hc as (b & ? & ? & ? & ?). by exists b.
Qed.

(** C4: RFC 6749 §10.5. A call that is told [Replayed] has revoked the grant the
    code it presented was issued under, and nothing afterwards takes that back:
    as long as the grant is there it is revoked. The statement that answers is
    aimed at that same grant and has, at that moment, revoked every refresh
    token of it; and only the row of a code already consumed leads there, by the
    grant that row names. *)
Theorem replay_revokes (x : Sys) :
  sys_reach x ->
  (forall c, In c (calls x) -> phase c = Done (Ok Replayed) ->
     exists g b, In (call_digest c, b) (issued x) /\ uuid (b_grant_id b) = Some g /\
       call_revoked c = Some g /\
       forall row, grants (rest (store x)) !! g = Some row -> is_Some (g_revoked_at row)) /\
  (forall c g s' p, In c (calls x) -> phase c = RevokeTokens g ->
     advance (store x) (call_digest c) (call_now c) (phase c) = (s', p) ->
     (exists b, In (call_digest c, b) (issued x) /\ uuid (b_grant_id b) = Some g) /\
     p = Done (Ok Replayed) /\ call_revoked (moved c p) = Some g /\
     forall d r, tokens (rest s') !! d = Some r -> t_grant r = g -> is_Some (t_revoked_at r)) /\
  (forall s d, lookup s d <> Done (Ok NotFound) ->
     exists r, codes s !! d = Some r /\ is_Some (c_consumed_at r) /\
       lookup s d = RevokeGrant (c_grant_id r)).
Proof.
  intros Hx%sys_reach_ok. destruct Hx as [_ _ _ _ H5]. rewrite Forall_forall in H5. split_and!.
  - intros c Hin Hp. apply list_elem_of_In, H5 in Hin as [Hc Hr]. rewrite Hp in Hc.
    destruct Hc as [g Hg]. destruct (Hr _ Hg) as [[_ Hrow] (b & Hb & Hu)]. by exists g, b.
  - intros c g s' p Hin Hp Ha. apply list_elem_of_In, H5 in Hin as [Hc _]. rewrite Hp in Hc.
    destruct Hc as [_ Hu]. rewrite Hp in Ha. injection Ha as <- <-. split; [exact Hu|]. split; [done|].
    split; [by cbn; rewrite Hp|].
    intros d r Hl Hg. cbn in Hl. rewrite lookup_fmap in Hl.
    destruct (tokens _ !! d) as [r0|]; [|done]. cbn in Hl. injection Hl as <-.
    destruct (String.eqb_spec (t_grant r0) g) as [E|E]; [|done].
    cbn. destruct (t_revoked_at r0); by eexists.
  - intros s d Hn. destruct (lookup_cases s d _ eq_refl) as [(r & ? & ? & ?)|?]; [by exists r|done].
Qed.

(** ** A redemption nothing interrupts *)

(** Every outcome of [redeem], and what it leaves. A live code is spent and its
    bindings returned; with a device proof that does not match, nothing is
    written; a consumed code, expired or not, revokes its grant and the grant's
    tokens, keeping what an earlier revocation recorded, and touches no other
    grant; otherwise there is no such code to the caller, and nothing changes.
    Four statements are always enough. *)
Theorem redeem_outcomes (s : CodeStore) (digest : string) (d : list Z) (now : Z) :
  hex_decode digest = Some d ->
  match codes s !! d with
  | None => redeem s digest now = (s, Ok NotFound)
  | Some r =>
      match c_consumed_at r with
      | Some _ =>
          exists s', redeem s digest now = (s', Ok Replayed) /\
            codes s' = codes s /\ proofs s' = proofs s /\ cutoffs (rest s') = cutoffs (rest s) /\
            (forall row, grants (rest s) !! c_grant_id r = Some row ->
               exists row', grants (rest s') !! c_grant_id r = Some row' /\
                 g_revoked_at row' = coalesce (g_revoked_at row) now /\
                 g_revocation_reason row' = coalesce (g_revocation_reason row) CODE_REPLAYED) /\
            (forall g, g <> c_grant_id r -> grants (rest s') !! g = grants (rest s) !! g) /\
            (forall k t, tokens (rest s') !! k = Some t ->
               if String.eqb (t_grant t) (c_grant_id r) then is_Some (t_revoked_at t)
               else tokens (rest s) !! k = Some t)
      | None =>
          if now <? c_expires_at r then
            match proofs s !! d with
            | Some p =>
                if proof_matches p (c_client_id r) now then
                  redeem s digest now =
                    ({| codes := <[d := consume now r]> (codes s); proofs := delete d (proofs s);
                        rest := rest s |}, Ok (Redeemed (binding_of r (Some p))))
                else redeem s digest now = (s, Err (Invalid "device"))
            | None =>
                redeem s digest now =
                  ({| codes := <[d := consume now r]> (codes s); proofs := proofs s; rest := rest s |},
                   Ok (Redeemed (binding_of r None)))
            end
          else redeem s digest now = (s, Ok NotFound)
      end
  end.
Proof.
  clear uuid. intros Hd. unfold redeem, code_digest_bytes. rewrite Hd. cbn [ok_or advances advance].
  unfold spend. destruct (codes s !! d) as [r|] eqn:Er.
  - unfold spendable. destruct (c_consumed_at r) as [at_|] eqn:Ec; cbn [andb].
    + cbn [advance]. unfold lookup. rewrite Er, Ec. cbn [advance]. eexists. split; [reflexivity|].
      cbn. split_and!; try done.
      * intros row Hrow. rewrite lookup_alter, decide_True, Hrow by done.
        eexists. split; [reflexivity|]. by split.
      * intros g Hg. by rewrite lookup_alter_ne.
      * intros k t. rewrite lookup_fmap. destruct (tokens (rest s) !! k) as [t0|]; [|done]. cbn.
        intros [= <-]. destruct (String.eqb (t_grant t0) (c_grant_id r)) eqn:Eg.
        -- cbn. rewrite Eg. destruct (t_revoked_at t0); by eexists.
        -- by rewrite Eg.
    + destruct (now <? c_expires_at r).
      * destruct (proofs s !! d) as [p|]; [|done]. by destruct (proof_matches p (c_client_id r) now).
      * cbn [advance]. unfold lookup. by rewrite Er, Ec.
  - cbn [advance]. unfold lookup. by rewrite Er.
Qed.

(** ** The bindings a redemption checks *)

Section Handler.
Variable sha256 : list Z -> list Z.
Variable b64_encode : list Z -> string.
Variable b64_decode : string -> option (list Z).
Variable sha256_hex : string -> string.
(** [RedirectUri::matches] for the client's application type: the registered
    URI, the presented one. *)
Variable registered_matches : string -> string -> bool.

(** [Parameters]: a [BTreeMap] of names to the values sent. *)
Definition get (params : list (string * list string)) (name : string) : result (option string) unit :=
  match bget name params with
  | None | Some [] => Ok None
  | Some [one] => Ok (Some one)
  | Some _ => Err tt
  end.

Inductive Failure : Type :=
| FClient (code description : string)
| FServer
| FDpop.

Definition invalid_grant : Failure :=
  FClient "invalid_grant" "the authorization code cannot be redeemed".

Definition check_redirect_uri (registered : list string) (params : list (string * list string))
    (issued_for : string) : result unit Failure :=
  let? sent := map_err (fun _ => FClient "invalid_request" "redirect_uri was sent more than once")
                 (get params "redirect_uri") in
  let? presented := ok_or sent (FClient "invalid_request" "redirect_uri is required") in
  if negb (String.eqb presented issued_for) then Err invalid_grant
  else if negb (existsb (fun r => registered_matches r presented) registered) then Err invalid_grant
  else Ok tt.

Definition check_pkce (params : list (string * list string)) (stored_challenge : string)
    : result unit Failure :=
  let? c := map_err (fun _ => FServer) (parse_challenge b64_decode (Some stored_challenge) (Some S256)) in
  let? verifier := map_err (fun _ => FClient "invalid_request" "code_verifier was sent more than once")
                     (get params "code_verifier") in
  map_err (fun _ => invalid_grant) (redeem_pkce sha256 b64_encode c verifier).

Definition matches_pinned_key (pinned presented : option string) : bool :=
  match pinned, presented with
  | None, _ => true
  | Some pinned, Some presented => ct_eq (bytes_of pinned) (bytes_of presented)
  | Some _, None => false
  end.

Definition check_pinned_key (pinned presented : option string) : result unit Failure :=
  if matches_pinned_key pinned presented then Ok tt else Err FDpop.

(** The handler up to the grant: the code is spent, then judged. *)
Definition redeem_code (s : CodeStore) (client_id : string) (redirect_uris : list string)
    (proof_key : option string) (params : list (string * list string)) (now : Z)
    : CodeStore * result (CodeBinding Proof) Failure :=
  match
    let? sent := map_err (fun _ => FClient "invalid_request" "code was sent more than once") (get params "code") in
    let? presented := ok_or sent (FClient "invalid_request" "code is required") in
    map_err (fun _ => invalid_grant) (code_digest_of sha256_hex presented)
  with
  | Err e => (s, Err e)
  | Ok digest =>
      match redeem s digest now with
      | (s, Err _) => (s, Err FServer)
      | (s, Ok (NotFound | Replayed)) => (s, Err invalid_grant)
      | (s, Ok (Redeemed binding)) =>
          (s,
           if negb (String.eqb (b_client_id binding) client_id) then Err invalid_grant
           else
             let? _ := check_redirect_uri redirect_uris params (b_redirect_uri binding) in
             let? _ := check_pkce params (b_code_challenge binding) in
             let? _ := check_pinned_key (b_dpop_jkt binding) proof_key in
             Ok binding)
      end
  end.

(** ** Proof of the key *)

(** RFC 7636 with [S256] and nothing else. A challenge is accepted only when it
    was sent, with exactly that method, and decodes to a 32-byte digest, and
    every refusal of one is [invalid_request]; a redemption succeeds exactly for
    a verifier of 43 to 128 unreserved characters that hashes to the challenge,
    and every refusal of what was presented is [invalid_grant], the shape not
    told apart from the value. *)
Theorem pkce_s256_only (text method presented : option string) :
  match parse_challenge b64_decode text method with
  | Ok c => text = Some (challenge_text c) /\ method = Some S256 /\ slen (challenge_text c) = 43 /\
      (exists digest, b64_decode (challenge_text c) = Some digest /\ length digest = 32%nat) /\
      (redeem_pkce sha256 b64_encode c presented = Ok tt <->
       exists v, presented = Some v /\ 43 <= slen v <= 128 /\ all_bytes is_unreserved v = true /\
         challenge_text c = b64_encode (sha256 (bytes_of v))) /\
      (forall e, redeem_pkce sha256 b64_encode c presented = Err e ->
         PkceError.code e = match presented with Some _ => "invalid_grant" | None => "invalid_request" end)
  | Err e => PkceError.code e = "invalid_request" /\
      (text = None \/ method <> Some S256 \/ exists t, text = Some t /\
         (slen t <> 43 \/ forall digest, b64_decode t = Some digest -> length digest <> 32%nat))
  end.
Proof.
  unfold parse_challenge. destruct text as [t|]; cbn [ok_or rbind]; [|split; [done|by left]].
  destruct (bool_decide (method = Some S256)) eqn:Em; cbn [negb].
  2:{ apply bool_decide_eq_false in Em. split; [done|]. by right; left. }
  apply bool_decide_eq_true in Em. unfold CodeChallenge.LEN, CodeChallenge.DIGEST_LEN.
  destruct (Z.eqb_spec (slen t) 43) as [El|El]; cbn [negb]; [|split; [done|]; right; right; exists t; split; [done|by left]].
  destruct (b64_decode t) as [digest|] eqn:Ed.
  2:{ split; [done|]. right; right. exists t. split; [done|]. right. intros ? ?. congruence. }
  destruct (Nat.eqb_spec (length digest) 32) as [Eg|Eg].
  2:{ split; [done|]. right; right. exists t. split; [done|]. right. intros digest2 E2. congruence. }
  cbn [challenge_text]. split_and!; try done; [by exists digest|apply (redeem_pkce_ok sha256 b64_encode {| challenge_text := t |})|].
  intros e. unfold redeem_pkce, parse_verifier. destruct presented as [v|]; cbn; [|by intros [= <-]].
  destruct (all_bytes is_unreserved v); cbn; [|by intros [= <-]].
  destruct (in_range _ _ _); cbn; [|by intros [= <-]].
  unfold verify. destruct (ct_eq _ _); [done|by intros [= <-]].
Qed.

(** ** What a redemption through the handler takes *)

(** A code with no device proof, or with one that holds. *)
Definition proof_holds (s : CodeStore) (d : list Z) (r : CodeRow) (now : Z) : bool :=
  match proofs s !! d with Some p => proof_matches p (c_client_id r) now | None => true end.

(** A live code, spent unless its device proof fails. *)
Lemma redeem_live s digest d r now :
  hex_decode digest = Some d -> codes s !! d = Some r -> c_consumed_at r = None -> now < c_expires_at r ->
  redeem s digest now =
    if proof_holds s d r now
    then ({| codes := <[d := consume now r]> (codes s); proofs := delete d (proofs s); rest := rest s |},
          Ok (Redeemed (binding_of r (proofs s !! d))))
    else (s, Err (Invalid "device")).
Proof.
  clear uuid. intros Hd Hr Hc Hexp. unfold redeem, code_digest_bytes, proof_holds. rewrite Hd. cbn [ok_or advances advance].
  unfold spend. rewrite Hr. unfold spendable. rewrite Hc, (proj2 (Z.ltb_lt _ _) Hexp). cbn [andb].
  destruct (proofs s !! d) as [p|] eqn:Ep; [by destruct (proof_matches _ _ _)|]. by rewrite delete_id.
Qed.

(** C8: A live code is exchanged only by its own client, for exactly the redirect
    URI it was sent to, still registered, with a verifier of its challenge and
    under the key it was pinned to; and a presentation that reaches the code and
    then fails any of these has consumed it, with its device proof, and left
    every grant and token alone. Where the code has a device proof that no
    longer holds, nothing is consumed and the answer is a server error. *)
Theorem redeem_code_binds (s : CodeStore) (client_id : string) (redirect_uris : list string)
    (proof_key : option string) (params : list (string * list string)) (now : Z)
    (presented : string) (d : list Z) (r : CodeRow) :
  get params "code" = Ok (Some presented) -> code_digest_of sha256_hex presented = Ok (sha256_hex presented) ->
  hex_decode (sha256_hex presented) = Some d -> codes s !! d = Some r ->
  c_consumed_at r = None -> now < c_expires_at r ->
  match redeem_code s client_id redirect_uris proof_key params now with
  | (s', out) =>
      if proof_holds s d r now then
        s' = {| codes := <[d := consume now r]> (codes s); proofs := delete d (proofs s); rest := rest s |} /\
        (forall b, out = Ok b -> b = binding_of r (proofs s !! d) /\ c_client_id r = client_id /\
           get params "redirect_uri" = Ok (Some (c_redirect_uri r)) /\
           (exists u, In u redirect_uris /\ registered_matches u (c_redirect_uri r) = true) /\
           (exists v, get params "code_verifier" = Ok (Some v) /\ 43 <= slen v <= 128 /\
              c_code_challenge r = b64_encode (sha256 (bytes_of v))) /\
           (forall jkt, c_dpop_jkt r = Some jkt -> proof_key = Some jkt)) /\
        (c_client_id r <> client_id -> out = Err invalid_grant)
      else s' = s /\ out = Err FServer
  end.
Proof.
  intros Hp Hdig Hd Hr Hc Hexp. unfold redeem_code. rewrite Hp. cbn [map_err ok_or rbind]. rewrite Hdig.
  cbn [map_err]. rewrite (redeem_live _ _ _ _ _ Hd Hr Hc Hexp).
  destruct (proof_holds s d r now); [|done].
  cbn [b_client_id b_redirect_uri b_code_challenge b_dpop_jkt binding_of].
  split; [done|]. destruct (String.eqb_spec (c_client_id r) client_id) as [Eq|Eq]; cbn [negb];
    [|split; [done|done]].
  split; [|done]. intros b H. ok_inv.
  match goal with H : check_redirect_uri _ _ _ = _, K : check_pkce _ _ = _, L : check_pinned_key _ _ = _ |- _ =>
    rename H into H1; rename K into H2; rename L into H3 end.
  unfold check_redirect_uri in H1. ok_inv. bool_hyps. subst.
  unfold check_pkce in H2. ok_inv.
  match goal with K : parse_challenge _ _ _ = _ |- _ => rename K into H4 end.
  split; [done|]. split; [done|]. split; [done|]. split.
  { match goal with K : existsb _ _ = true |- _ => apply existsb_exists in K as (u & Hu & Hm) end. by exists u. }
  split.
  - assert (challenge_text a = c_code_challenge r) as Ect.
    { unfold parse_challenge in H4. cbn [ok_or rbind] in H4. ok_inv.
      destruct (b64_decode _); [|done]. ok_inv. by subst. }
    destruct a0. apply redeem_pkce_ok in H2 as (v & -> & Hl & _ & Hch).
    exists v. split; [done|]. split; [done|]. congruence.
  - intros jkt Hj. unfold check_pinned_key, matches_pinned_key in H3. rewrite Hj in H3.
    destruct proof_key as [k|]; [|done]. destruct (ct_eq _ _) eqn:Ee; [|done].
    by apply ct_eq_strings in Ee as ->.
Qed.
End Handler.
End Repository.

(** ** Instances *)

Definition sample_store : CodeStore unit :=
  {| codes := ∅; proofs := ∅; rest := sample_empty |}.
Definition code_text : string := "AAAAAAAAAAAAAAAAAAAAAAAAAAAAAAAAAAAAAAAAAAA".
Definition sample_binding : CodeBinding unit := {|
  device_binding := None; b_client_id := "billing"; b_grant_id := "g-1";
  b_code_challenge := code_text; b_redirect_uri := "https://rp.example/cb"; b_nonce := None;
  b_dpop_jkt := Some "jkt"%string; b_grant_management_action := None; b_expires_at := 60 * SECOND |}.
Definition sample_code_row : CodeRow := {|
  c_client_id := "billing"; c_grant_id := "g-1"; c_code_challenge := code_text;
  c_redirect_uri := "https://rp.example/cb"; c_nonce := None; c_dpop_jkt := Some "jkt"%string;
  c_grant_management_action := None; c_issued_at := 0; c_expires_at := 60 * SECOND;
  c_consumed_at := None |}.
Definition issued_store : CodeStore unit :=
  {| codes := <[bytes_of code_text := sample_code_row]> ∅; proofs := ∅; rest := sample_empty |}.

Lemma sample_issued :
  issue unit (fun _ _ _ => true) sample_hex sample_uuid sample_store code_text sample_binding 0
    = Ok issued_store.
Proof. reflexivity. Qed.

(** The system after the code was issued, presented, redeemed and presented
    again, up to the answer. *)
Definition sample_expiry : unit -> Z := fun _ => 30 * SECOND.
Definition sample_device : unit -> string := fun _ => "laptop"%string.
Definition sys0 : Sys unit :=
  {| store := sample_store; calls := []; issued := []; seen := ["g-1"]%string; forgetting := [] |}.
Definition present (x : Sys unit) : Sys unit :=
  {| store := store unit x; issued := issued unit x; seen := seen unit x; forgetting := forgetting unit x;
     calls := calls unit x ++ [{| call_digest := bytes_of code_text; call_now := SECOND;
                                  phase := Spend unit; call_revoked := None |}] |}.
Definition run1 (i : nat) (x : Sys unit) : Sys unit :=
  match calls unit x !! i with
  | Some c =>
      let '(s, p) := advance unit (fun _ _ _ => true) (store unit x) (call_digest unit c)
                       (call_now unit c) (phase unit c) in
      set_call unit (set_store unit x s) i (moved unit c p)
  | None => x
  end.
Definition sys1 : Sys unit :=
  {| store := issued_store; calls := []; issued := [(bytes_of code_text, sample_binding)];
     seen := ["g-1"]%string; forgetting := [] |}.
Definition sys2 : Sys unit := run1 0 (present sys1).
Definition sys3 : Sys unit := run1 1 (run1 1 (run1 1 (run1 1 (present sys2)))).

Lemma run1_step i x :
  is_Some (calls unit x !! i) ->
  sys_step unit (fun _ _ _ => true) sample_hex sample_uuid sample_expiry sample_device x (run1 i x).
Proof.
  intros [c Hc]. unfold run1. rewrite Hc. destruct (advance _ _ _ _ _ _) as [s p] eqn:E.
  by apply sys_advance.
Qed.

Lemma present_step x : sys_step unit (fun _ _ _ => true) sample_hex sample_uuid sample_expiry sample_device x (present x).
Proof. apply sys_present. Qed.

Lemma sys3_reach : sys_reach unit (fun _ _ _ => true) sample_hex sample_uuid sample_expiry sample_device sys3.
Proof.
  exists sys0. split.
  - split_and!; [done..|]. intros g row. cbn. unfold sample_grants.
    intros [<- _]%lookup_singleton_Some. by left.
  - unfold sys3, sys2.
    do 4 (eapply rtc_r; [|apply run1_step; vm_compute; by eexists]).
    eapply rtc_r; [|apply present_step]. eapply rtc_r; [|apply run1_step; vm_compute; by eexists].
    eapply rtc_r; [|apply present_step]. eapply rtc_r; [apply rtc_refl|].
    apply (sys_issue unit (fun _ _ _ => true) sample_hex sample_uuid sample_expiry sample_device sys0 code_text
      (bytes_of code_text) sample_binding 0 issued_store); [reflexivity|exact sample_issued].
Qed.

Lemma code_single_use_witness :
  (tally (redeemed unit (bytes_of code_text)) (calls unit sys3) = 1)%nat /\
  (tally (redeemed unit (bytes_of code_text)) (calls unit sys3)
     <= tally (of_digest (bytes_of code_text)) (issued unit sys3))%nat.
Proof.
  split; [vm_compute; reflexivity|].
  exact (proj1 (code_single_use unit _ _ _ _ _ sys3 (bytes_of code_text) sys3_reach)).
Defined.

Lemma replay_revokes_witness :
  (exists c, nth_error (calls unit sys3) 1 = Some c /\ phase unit c = Done unit (Ok Replayed)) /\
  exists g, Some g = Some "g-1"%string /\
    forall row, grants (rest unit (store unit sys3)) !! g = Some row -> is_Some (g_revoked_at row).
Proof.
  split; [eexists; split; vm_compute; reflexivity|].
  destruct (proj1 (replay_revokes unit _ _ _ _ _ sys3 sys3_reach)
    {| call_digest := bytes_of code_text; call_now := SECOND; phase := Done unit (Ok Replayed);
       call_revoked := Some "g-1"%string |}) as (g & b & _ & _ & Hg & Hr).
  - vm_compute. right. left. reflexivity.
  - reflexivity.
  - exists g. split; [symmetry; exact Hg|exact Hr].
Defined.

(** A code issued with a device proof, whose proof lapses before it does. While
    the proof is there the redemption is refused; once it was swept the code is
    redeemed as one issued without any. *)
Definition sample_bound : CodeBinding unit := {|
  device_binding := Some tt; b_client_id := "billing"; b_grant_id := "g-1";
  b_code_challenge := code_text; b_redirect_uri := "https://rp.example/cb"; b_nonce := None;
  b_dpop_jkt := Some "jkt"%string; b_grant_management_action := None; b_expires_at := 60 * SECOND |}.

Lemma swept_proof_is_none :
  let valid := fun (_ : unit) (_ : string) now => now <? 30 * SECOND in
  let redeemed s := snd (redeem unit valid sample_hex s code_text (40 * SECOND)) in
  exists s, issue unit valid sample_hex sample_uuid sample_store code_text sample_bound 0 = Ok s /\
    redeemed s = Err (Invalid "device") /\
    redeemed (sweep_proofs unit sample_expiry s [bytes_of code_text] (35 * SECOND))
      = Ok (Redeemed (binding_of unit sample_code_row None)).
Proof. eexists. split; [vm_compute; reflexivity|]. split; vm_compute; reflexivity. Qed.

Lemma redeem_outcomes_witness :
  snd (redeem unit (fun _ _ _ => true) sample_hex issued_store code_text SECOND)
    = Ok (Redeemed (binding_of unit sample_code_row None)) /\
  snd (redeem unit (fun _ _ _ => true) sample_hex
    (fst (redeem unit (fun _ _ _ => true) sample_hex issued_store code_text SECOND)) code_text (HOUR))
    = Ok Replayed.
Proof.
  pose proof (redeem_outcomes unit (fun _ _ _ => true) sample_hex issued_store code_text
    (bytes_of code_text) SECOND eq_refl) as H.
  split; [|vm_compute; reflexivity].
  change (redeem unit (fun _ _ _ => true) sample_hex issued_store code_text SECOND =
    ({| codes := <[bytes_of code_text := consume SECOND sample_code_row]> (codes unit issued_store);
        proofs := proofs unit issued_store; rest := rest unit issued_store |},
     Ok (Redeemed (binding_of unit sample_code_row None)))) in H.
  rewrite H. reflexivity.
Defined.

Definition sample_params : list (string * list string) :=
  [("code", [code_text]); ("code_verifier", [code_text]); ("redirect_uri", ["https://rp.example/cb"])]%string.

Lemma redeem_code_binds_witness :
  snd (redeem_code unit (fun _ _ _ => true) sample_hex (fun l => l) (fun _ => code_text)
    (fun _ => Some (repeat 0 32)) (fun s => s) String.eqb issued_store "billing"
    ["https://rp.example/cb"]%string (Some "jkt"%string) sample_params SECOND)
    = Ok (binding_of unit sample_code_row None) /\
  snd (redeem_code unit (fun _ _ _ => true) sample_hex (fun l => l) (fun _ => code_text)
    (fun _ => Some (repeat 0 32)) (fun s => s) String.eqb issued_store "mallory"
    ["https://rp.example/cb"]%string (Some "jkt"%string) sample_params SECOND)
    = Err invalid_grant.
Proof.
  split; [vm_compute; reflexivity|].
  pose proof (redeem_code_binds unit (fun _ _ _ => true) sample_hex (fun l => l) (fun _ => code_text)
    (fun _ => Some (repeat 0 32)) (fun s => s) String.eqb issued_store "mallory"
    ["https://rp.example/cb"]%string (Some "jkt"%string) sample_params SECOND code_text (bytes_of code_text)
    sample_code_row eq_refl eq_refl eq_refl eq_refl eq_refl eq_refl) as H.
  destruct (redeem_code _ _ _ _ _ _ _ _ _ _ _ _ _ _) as [s' out]. apply H.
  vm_compute. discriminate.
Defined.
