(* ===== verification/GrantStore.v ===== *)
(** * The grant repository

    [crates/store-pg/src/grants.rs]: the rows of [grants] and the operations of
    [PgGrantRepository] over them, the refresh tokens, the access-token denylist
    and the cutoffs, with the triggers and the cascades of the schema that act on
    these statements.

    One tenant's rows, of grants bound to no agent task. A transaction is one
    operation. [clock] is PostgreSQL's [now()], which the triggers read; [now] is
    the caller's instant. *)

From S2P Require Import Prelude BTree Json Session RateLimit.
From S2P Require Import Refresh.
From S2P Require Import Grants.
Open Scope Z_scope.

(** [DomainError], without the texts of its variants. *)
Inductive DomainError : Type := NotFound | Invalid (field : string) | Conflict | Storage.

Definition authority_invalid : DomainError := Invalid "grant_authority".

(** A row of [grants]: the columns a [GrantRecord] is validated from, and the two
    that identify a generation of its authority. *)
Record Row : Type := {
  record : GrantRecord;
  authority_revision : Z;
  parent_authority_revision : option Z
}.

Record Denied : Type := { den_grant : option string; den_revoked_at : Z; den_expires_at : Z }.

(** Rows by primary key; of clients and users, whether the row is active. *)
Record Db : Type := {
  grant_rows : gmap string Row;
  refresh_tokens : gmap (list Z) TokenRow;
  access_token_cutoffs : gmap (string * string) Cutoff;
  access_token_denylist : gmap string Denied;
  clients : gmap string bool;
  users : gmap string bool
}.

Definition set_rows (s : Db) (m : gmap string Row) : Db := {|
  grant_rows := m; refresh_tokens := refresh_tokens s;
  access_token_cutoffs := access_token_cutoffs s;
  access_token_denylist := access_token_denylist s;
  clients := clients s; users := users s |}.

(** What [Refresh] sees of it. *)
Definition view (s : Db) : Store := {|
  tokens := refresh_tokens s;
  cutoffs := access_token_cutoffs s;
  grants := (fun r => {| Refresh.g_session := r_session (record r);
                         Refresh.g_revoked_at := r_revoked_at (record r);
                         Refresh.g_revocation_reason := r_revocation_reason (record r) |})
            <$> grant_rows s |}.

Record Revocation : Type := {
  rv_revoked_at : Z;
  refresh_tokens_revoked : Z;
  access_tokens_denylisted : Z
}.

(** ** Rows an update writes *)

Definition with_record (r : Row) (g : GrantRecord) : Row :=
  {| record := g; authority_revision := authority_revision r;
     parent_authority_revision := parent_authority_revision r |}.

(** The stamps, each with the [updated_at] that [set_updated_at] writes. *)
Definition stamps (g : GrantRecord) (claimed revoked : option Z) (reason : option string)
    (clock : Z) : GrantRecord := {|
  r_id := r_id g; r_client := r_client g; r_user := r_user g; r_subject := r_subject g;
  r_scopes := r_scopes g; r_claims := r_claims g; r_claims_locales := r_claims_locales g;
  r_authorization_details := r_authorization_details g; r_resources := r_resources g;
  r_actor_chain := r_actor_chain g; r_parent := r_parent g; r_session := r_session g;
  r_authenticated_at := r_authenticated_at g; r_acr := r_acr g; r_amr := r_amr g;
  r_created_at := r_created_at g; r_updated_at := clock; r_expires_at := r_expires_at g;
  r_claimed_at := claimed; r_revoked_at := revoked; r_revocation_reason := reason |}.

Definition stamp_claimed (now clock : Z) (r : Row) : Row :=
  let g := record r in
  with_record r (stamps g (coalesce (r_claimed_at g) now) (r_revoked_at g) (r_revocation_reason g) clock).

Definition stamp_grant_revoked (now clock : Z) (reason : RevocationReason) (r : Row) : Row :=
  let g := record r in
  with_record r (stamps g (r_claimed_at g) (Some now) (Some (RevocationReason.as_str reason)) clock).

(** The ids from a grant up to the root of its lineage, if at most [fuel] rows
    reach it. *)
Fixpoint lineage (fuel : nat) (m : gmap string Row) (id : string) : option (list string) :=
  match fuel with
  | O => None
  | S fuel =>
      match m !! id with
      | None => None
      | Some r =>
          match r_parent (record r) with
          | None => Some [id]
          | Some p => cons id <$> lineage fuel m p
          end
      end
  end.

(** The rows that go with the ones gone: their foreign key cascades. *)
Definition is_child (gone : gset string) (r : Row) : bool :=
  match r_parent (record r) with Some p => bool_decide (p ∈ gone) | None => false end.
Fixpoint cascade (fuel : nat) (m : gmap string Row) (gone : gset string) : gset string :=
  match fuel with
  | O => gone
  | S fuel => cascade fuel m (gone ∪ dom (filter (fun kr => is_child gone kr.2 = true) m))
  end.

Module PgGrantRepository.
Section Repository.
Context {Task : Type}.
(** The tenant the repository is scoped to, and the [uuid] crate: the canonical
    spelling of the UUID a text names. *)
Variable tenant : string.
Variable uuid : string -> option string.
(** The [url] crate, as [GrantRecord::validate] uses it. *)
Variable Url : Type.
Variable url_parse : string -> option Url.
Variable url_has_fragment : Url -> bool.
Variable url_cannot_be_a_base : Url -> bool.
(** PostgreSQL's equality of [jsonb]; the row of [grant_assurance_proofs] the
    triggers of migration 0166 keep for a grant and its exact authentication; and
    the lookup of migration 0171, whether an update only moves the grant to the
    rotated lookup digest of its own session. *)
Variable jsonb_eqb : value -> value -> bool.
Variable assurance_proof :
  Db -> string -> Z -> option string -> list string -> option (Z * string * list string).
Variable attested_move : Db -> string -> GrantRecord -> GrantRecord -> bool.

Abbreviation Grant := (Grants.Grant Task).

(** [uuid]. *)
Definition grant_uuid (id : string) : result string DomainError := ok_or (uuid id) (Invalid "grant_id").

Definition grant_uuid_opt (id : option string) : result (option string) DomainError :=
  match id with None => Ok None | Some id => let? u := grant_uuid id in Ok (Some u) end.

(** ** Reading a row *)

Definition with_authority (g : Grant) (revision : Z) (derivation : option ParentDerivation) : Grant := {|
  g_tenant := g_tenant g; g_id := g_id g; g_client := g_client g; g_user := g_user g;
  g_subject := g_subject g; g_scopes := g_scopes g; g_claims := g_claims g;
  g_claims_locales := g_claims_locales g; g_authorization_details := g_authorization_details g;
  g_resources := g_resources g; g_actor_chain := g_actor_chain g; g_parent := g_parent g;
  g_parent_derivation := derivation; g_task := g_task g; g_session := g_session g;
  g_authentication := g_authentication g; g_created_at := g_created_at g;
  g_updated_at := g_updated_at g; g_authority_revision := revision;
  g_expires_at := g_expires_at g; g_revoked_at := g_revoked_at g;
  g_revocation_reason := g_revocation_reason g; g_claimed_at := g_claimed_at g |}.

Definition with_authentication (g : Grant) (a : option GrantAuthentication) : Grant := {|
  g_tenant := g_tenant g; g_id := g_id g; g_client := g_client g; g_user := g_user g;
  g_subject := g_subject g; g_scopes := g_scopes g; g_claims := g_claims g;
  g_claims_locales := g_claims_locales g; g_authorization_details := g_authorization_details g;
  g_resources := g_resources g; g_actor_chain := g_actor_chain g; g_parent := g_parent g;
  g_parent_derivation := g_parent_derivation g; g_task := g_task g; g_session := g_session g;
  g_authentication := a; g_created_at := g_created_at g; g_updated_at := g_updated_at g;
  g_authority_revision := g_authority_revision g; g_expires_at := g_expires_at g;
  g_revoked_at := g_revoked_at g; g_revocation_reason := g_revocation_reason g;
  g_claimed_at := g_claimed_at g |}.

Definition into_entity (r : Row) : result Grant DomainError :=
  let derivation :=
    match r_parent (record r), parent_authority_revision r with
    | Some parent, Some revision => Some {| pd_parent := parent; pd_revision := revision |}
    | _, _ => None
    end in
  let? g := map_err (fun _ => Invalid "grants")
    (validate Url url_parse url_has_fragment url_cannot_be_a_base (record r) tenant) in
  Ok (with_authority g (authority_revision r) derivation).

Definition hydrate_assurance (s : Db) (g : Grant) : result Grant DomainError :=
  match g_authentication g with
  | None => Ok g
  | Some a =>
      let? id := grant_uuid (g_id g) in
      match assurance_proof s id (ga_authenticated_at a) (ga_acr a)
              (map AuthenticationMethod.as_str (ga_amr a)) with
      | Some (at_, revision, methods) =>
          match mapM AuthenticationMethod.parse methods with
          | Some methods =>
              Ok (with_authentication g (Some {|
                ga_authenticated_at := ga_authenticated_at a;
                ga_assurance_authenticated_at := Some at_;
                ga_assurance_policy_revision := Some revision;
                ga_assurance_methods := methods; ga_acr := ga_acr a; ga_amr := ga_amr a |}))
          | None => Ok g
          end
      | None => Ok g
      end
  end.

Definition read_row (s : Db) (r : Row) : result Grant DomainError :=
  let? g := into_entity r in hydrate_assurance s g.

Definition find (s : Db) (id : string) : result (option Grant) DomainError :=
  let? id := grant_uuid id in
  match grant_rows s !! id with
  | Some r => let? g := read_row s r in Ok (Some g)
  | None => Ok None
  end.

Definition owned_by (s : Db) (grant owner : string) : result bool DomainError :=
  let? id := grant_uuid grant in
  Ok match grant_rows s !! id with
     | Some r => bool_decide (r_user (record r) = Some owner)
     | None => false
     end.

(** [order by created_at desc, grant_id]. *)
Definition newest_first (a b : string * Row) : bool :=
  (r_created_at (record b.2) <? r_created_at (record a.2))
  || ((r_created_at (record a.2) =? r_created_at (record b.2)) && String.leb a.1 b.1).

Definition list_where (s : Db) (p : Row -> bool) : result (list Grant) DomainError :=
  try_mapi (fun _ kr => read_row s kr.2) 0
    (sort_by newest_first (filter (fun kr => p kr.2 = true) (map_to_list (grant_rows s)))).

Definition list_for_subject (s : Db) (subject : string) : result (list Grant) DomainError :=
  list_where s (fun r => bool_decide (r_subject (record r) = Some subject)).

Definition list_for_user (s : Db) (user : string) : result (list Grant) DomainError :=
  list_where s (fun r => bool_decide (r_user (record r) = Some user)).

(** ** Creating *)

(** The columns an authentication is written to. *)
Definition amr_of (a : option GrantAuthentication) : list string :=
  match a with Some a => map AuthenticationMethod.as_str (ga_amr a) | None => [] end.
Definition acr_of (a : option GrantAuthentication) : option string :=
  match a with Some a => ga_acr a | None => None end.

Definition inserted_row (g : Grant) (id : string) (parent : option string)
    (parent_revision : option Z) : Row := {|
  record := {|
    r_id := id; r_client := g_client g; r_user := g_user g; r_subject := g_subject g;
    r_scopes := g_scopes g; r_claims := g_claims g; r_claims_locales := g_claims_locales g;
    r_authorization_details := VArray (g_authorization_details g);
    r_resources := g_resources g; r_actor_chain := VArray (g_actor_chain g);
    r_parent := parent; r_session := g_session g;
    r_authenticated_at := option_map ga_authenticated_at (g_authentication g);
    r_acr := acr_of (g_authentication g); r_amr := amr_of (g_authentication g);
    r_created_at := g_created_at g; r_updated_at := g_created_at g;
    r_expires_at := g_expires_at g; r_claimed_at := g_claimed_at g;
    r_revoked_at := None; r_revocation_reason := None |};
  authority_revision := g_authority_revision g;
  parent_authority_revision := parent_revision |}.

(** The row as the schema takes it: the trigger of migration 0159 first, which
    wants a root above the parent within nine rows, then the checks, the primary
    key and the client it names. *)
Definition insert_row (s : Db) (id : string) (r : Row) : result Db DomainError :=
  guard? match r_parent (record r) with
         | None => true | Some p => bool_decide (is_Some (lineage 9 (grant_rows s) p)) end else Storage in
  guard? match r_subject (record r) with Some subject => negb (is_empty subject) | None => true end
    else Storage in
  guard? negb (authority_revision r =? 0) else Storage in
  guard? bool_decide (grant_rows s !! id = None) else Conflict in
  guard? bool_decide (is_Some (clients s !! r_client (record r))) else Conflict in
  Ok (set_rows s (<[id := r]> (grant_rows s))).

(** [insert_on], which [create] calls. *)
Definition create (s : Db) (g : Grant) : result Db DomainError :=
  guard? String.eqb (g_tenant g) tenant else Invalid "tenant_id" in
  let? id := grant_uuid (g_id g) in
  let? parent := grant_uuid_opt (g_parent g) in
  let? parent_revision :=
    match g_parent_derivation g with
    | None => Ok None
    | Some receipt =>
        if negb (bool_decide (g_parent g = Some (pd_parent receipt))) then Err authority_invalid
        else Ok (Some (pd_revision receipt))
    end in
  insert_row s id (inserted_row g id parent parent_revision).

(** ** Claiming *)

(** The [where] clause of the [update]. *)
Definition claimable (now : Z) (r : GrantRecord) : bool :=
  match r_revoked_at r with None => true | Some _ => false end
  && match r_expires_at r with None => true | Some e => now <? e end.

(** The verdict on a claim whose [update] matched nothing; [reread] is the
    database as the second query finds it. *)
Definition claim_refusal (reread : Db) (id : string) (now : Z) : DomainError :=
  match find reread id with
  | Err e => e
  | Ok None => NotFound
  | Ok (Some g) => Invalid "grant_id"
  end.

Definition claim (s reread : Db) (id : string) (now clock : Z)
    : Db * result ClaimedGrant DomainError :=
  match grant_uuid id with
  | Err e => (s, Err e)
  | Ok key =>
      match grant_rows s !! key with
      | Some r =>
          if claimable now (record r) then
            let r' := stamp_claimed now clock r in
            let s' := set_rows s (<[key := r']> (grant_rows s)) in
            (s', let? g := read_row s' r' in
                 map_err (fun _ => Invalid "grant_id") (Grants.Grant.claim g now))
          else (s, Err (claim_refusal reread id now))
      | None => (s, Err (claim_refusal reread id now))
      end
  end.

(** What issuance claims by: [bound] is whether [agent_task_grants] names the
    grant, which is then read and not stamped. *)
Definition claim_for_issuance (bound : bool) (s reread : Db) (id : string) (now clock : Z)
    : Db * result ClaimedGrant DomainError :=
  if bound then
    (s, let? found := find s id in
        let? g := ok_or found NotFound in
        map_err (fun _ => Invalid "agent_task") (Grants.Grant.claim g now))
  else claim s reread id now clock.

(** ** Revoking *)

(** [begin_withdrawal] of [agent_task_lifecycle.rs] for a grant bound to no task:
    it resolves the root of the lineage within ten rows. *)
Definition begin_withdrawal (s : Db) (id : string) : result () DomainError :=
  guard? bool_decide (is_Some (lineage 10 (grant_rows s) id)) else NotFound in Ok ().

(** The live refresh tokens of a grant. *)
Definition live_token_of (id : string) (t : TokenRow) : bool :=
  String.eqb (t_grant t) id && match t_revoked_at t with None => true | Some _ => false end.

Definition revoke_tokens (m : gmap (list Z) TokenRow) (id : string) (now : Z)
    : gmap (list Z) TokenRow :=
  (fun t => if live_token_of id t then stamp_revoked now t else t) <$> m.

(** [on conflict do nothing]. *)
Definition deny (jti : string) (row : Denied) (m : gmap string Denied) : gmap string Denied :=
  match m !! jti with Some _ => m | None => <[jti := row]> m end.

Definition deny_live (id : string) (now : Z) (live : list LiveAccessToken)
    (m : gmap string Denied) : gmap string Denied :=
  fold_left (fun m token =>
    if now <? lat_expires_at token
    then deny (lat_jti token)
           {| den_grant := Some id; den_revoked_at := now; den_expires_at := lat_expires_at token |} m
    else m) live m.

(** The row the transaction locks: the grant's, where it is live. *)
Definition lock_live (s : Db) (id : string) : result Row DomainError :=
  let? r := ok_or (grant_rows s !! id) NotFound in
  guard? match r_revoked_at (record r) with None => true | Some _ => false end else NotFound in
  Ok r.

(** [revoke_core]. *)
Definition revoke (s : Db) (id : string) (reason : RevocationReason)
    (live : list LiveAccessToken) (now clock : Z) : result (Db * Revocation) DomainError :=
  let? id := grant_uuid id in
  let? _ := begin_withdrawal s id in
  let? r := lock_live s id in
  let denied := deny_live id now live (access_token_denylist s) in
  Ok ({| grant_rows := <[id := stamp_grant_revoked now clock reason r]> (grant_rows s);
         refresh_tokens := revoke_tokens (refresh_tokens s) id now;
         access_token_cutoffs := withdraw (access_token_cutoffs s) (PGrant id) now;
         access_token_denylist := denied; clients := clients s; users := users s |},
      {| rv_revoked_at := now;
         refresh_tokens_revoked :=
           Z.of_nat (size (filter (fun kt => live_token_of id kt.2 = true) (refresh_tokens s)));
         access_tokens_denylisted :=
           Z.of_nat (size denied) - Z.of_nat (size (access_token_denylist s)) |}).

Definition is_denylisted (s : Db) (jti : string) : bool :=
  bool_decide (is_Some (access_token_denylist s !! jti)).

Definition denylist_access_token (s : Db) (jti : string) (grant : option string)
    (revoked_at expires_at : Z) : result (Db * bool) DomainError :=
  if expires_at <=? revoked_at then Ok (s, false)
  else
    let? grant := grant_uuid_opt grant in
    let m := access_token_denylist s in
    Ok ({| grant_rows := grant_rows s; refresh_tokens := refresh_tokens s;
           access_token_cutoffs := access_token_cutoffs s;
           access_token_denylist :=
             deny jti {| den_grant := grant; den_revoked_at := revoked_at;
                         den_expires_at := expires_at |} m;
           clients := clients s; users := users s |},
        negb (is_denylisted s jti)).

(** ** Amending *)

(** What the [update] of [amend] writes. *)
Definition amended (g : Grant) (clock : Z) (r : GrantRecord) : GrantRecord := {|
  r_id := r_id r; r_client := r_client r; r_user := r_user r; r_subject := r_subject r;
  r_scopes := g_scopes g; r_claims := g_claims g; r_claims_locales := g_claims_locales g;
  r_authorization_details := VArray (g_authorization_details g);
  r_resources := g_resources g; r_actor_chain := r_actor_chain r; r_parent := r_parent r;
  r_session := g_session g;
  r_authenticated_at := option_map ga_authenticated_at (g_authentication g);
  r_acr := acr_of (g_authentication g); r_amr := amr_of (g_authentication g);
  r_created_at := r_created_at r; r_updated_at := clock; r_expires_at := r_expires_at r;
  r_claimed_at := r_claimed_at r; r_revoked_at := r_revoked_at r;
  r_revocation_reason := r_revocation_reason r |}.

(** The columns whose change is a new generation of the authority, by the trigger
    of migration 0171. *)
Definition same_permissions (a b : GrantRecord) : bool :=
  bool_decide (r_client a = r_client b) && bool_decide (r_user a = r_user b)
  && bool_decide (r_subject a = r_subject b) && bool_decide (r_scopes a = r_scopes b)
  && jsonb_eqb (r_claims a) (r_claims b)
  && bool_decide (r_claims_locales a = r_claims_locales b)
  && jsonb_eqb (r_authorization_details a) (r_authorization_details b)
  && bool_decide (r_resources a = r_resources b)
  && jsonb_eqb (r_actor_chain a) (r_actor_chain b) && bool_decide (r_parent a = r_parent b)
  && bool_decide (r_authenticated_at a = r_authenticated_at b)
  && bool_decide (r_acr a = r_acr b) && bool_decide (r_amr a = r_amr b).

Definition same_authority (s : Db) (id : string) (a b : GrantRecord) : bool :=
  same_permissions a b
  && (bool_decide (r_session a = r_session b) || attested_move s id a b).

(** The row after the [update] and its triggers; [fresh] is the UUID they draw. *)
Definition amended_row (s : Db) (id : string) (g : Grant) (clock fresh : Z) (r : Row) : Row :=
  let new := amended g clock (record r) in
  {| record := new;
     authority_revision :=
       if same_authority s id (record r) new then authority_revision r else fresh;
     parent_authority_revision := parent_authority_revision r |}.

Definition amend (s : Db) (g : Grant) (now clock fresh : Z) : result Db DomainError :=
  guard? String.eqb (g_tenant g) tenant else Invalid "tenant_id" in
  let? id := grant_uuid (g_id g) in
  let? r := lock_live s id in
  Ok {| grant_rows := <[id := amended_row s id g clock fresh r]> (grant_rows s);
        refresh_tokens := revoke_tokens (refresh_tokens s) id now;
        access_token_cutoffs := withdraw (access_token_cutoffs s) (PGrant (g_id g)) now;
        access_token_denylist := access_token_denylist s;
        clients := clients s; users := users s |}.

(** ** Purging *)

Definition unclaimed (older_than : Z) (r : GrantRecord) : bool :=
  (r_created_at r <? older_than)
  && match r_claimed_at r with None => true | Some _ => false end
  && match r_revoked_at r with None => true | Some _ => false end.

Definition purge_unclaimed (s : Db) (older_than : Z) : Db * Z :=
  let matched := dom (filter (fun kr => unclaimed older_than (record kr.2) = true) (grant_rows s)) in
  let gone := cascade (size (grant_rows s)) (grant_rows s) matched in
  ({| grant_rows := filter (fun kr => kr.1 ∉ gone) (grant_rows s);
      refresh_tokens := filter (fun kt => t_grant kt.2 ∉ gone) (refresh_tokens s);
      access_token_cutoffs := access_token_cutoffs s;
      access_token_denylist := access_token_denylist s;
      clients := clients s; users := users s |},
   Z.of_nat (size matched)).

(** ** Histories

    One step of the repository, after the states in [past], the newest first. A
    child is created by an exchange, which has read its parent active; the other
    operations come with any argument. *)

Definition exchanged (past : list Db) (g : Grant) : Prop :=
  forall p, g_parent g = Some p ->
  exists s0 g0 now0, In s0 past /\ find s0 p = Ok (Some g0) /\ Grants.Grant.status g0 now0 = Active.

Inductive grant_op (past : list Db) (s : Db) : Db -> Prop :=
| op_create g s' : exchanged past g -> create s g = Ok s' -> grant_op past s s'
| op_claim reread id now clock : grant_op past s (fst (claim s reread id now clock))
| op_revoke id reason live now clock s' rv :
    revoke s id reason live now clock = Ok (s', rv) -> grant_op past s s'
| op_amend g now clock fresh s' : amend s g now clock fresh = Ok s' -> grant_op past s s'
| op_denylist jti grant at_ expires_at s' b :
    denylist_access_token s jti grant at_ expires_at = Ok (s', b) -> grant_op past s s'
| op_purge older_than : grant_op past s (fst (purge_unclaimed s older_than)).

(** The states of a repository that started empty, with everything else that
    writes to the other tables in between. *)
Inductive history : list Db -> Prop :=
| history_start s : grant_rows s = ∅ -> history [s]
| history_op s past s' : history (s :: past) -> grant_op (s :: past) s s' -> history (s' :: s :: past)
| history_beside s past s' :
    history (s :: past) -> grant_rows s' = grant_rows s -> history (s' :: s :: past).

End Repository.
End PgGrantRepository.

(** ** Lineages *)

Lemma lineage_more f f' m id l : lineage f m id = Some l -> (f <= f')%nat -> lineage f' m id = Some l.
Proof.
  revert f' id l. induction f as [|f IH]; intros f' id l H Hf; [done|].
  destruct f' as [|f']; [lia|]. cbn in *. destruct (m !! id) as [r|]; [|done].
  destruct (r_parent (record r)) as [p|]; [|done].
  destruct (lineage f m p) as [k|] eqn:E; [|done]. by rewrite (IH f' p k) by (done || lia).
Qed.

Lemma lineage_S f m id :
  lineage (S f) m id =
    match m !! id with
    | None => None
    | Some r => match r_parent (record r) with
                | None => Some [id]
                | Some p => cons id <$> lineage f m p
                end
    end.
Proof. done. Qed.

(** Rows that keep their parents keep their lineages. *)
Lemma lineage_mono f m m' id l :
  lineage f m id = Some l ->
  (forall k r, In k l -> m !! k = Some r ->
     exists r', m' !! k = Some r' /\ r_parent (record r') = r_parent (record r)) ->
  lineage f m' id = Some l.
Proof.
  revert id l. induction f as [|f IH]; intros id l H Hk; [done|]. cbn in *.
  destruct (m !! id) as [r|] eqn:Er; [|done].
  assert (In id l) as Hin.
  { destruct (r_parent (record r)); [|naive_solver]. destruct (lineage f m s); naive_solver. }
  destruct (Hk _ _ Hin Er) as (r' & -> & Hp). rewrite Hp.
  destruct (r_parent (record r)) as [p|]; [|done].
  destruct (lineage f m p) as [k|] eqn:E; [|done]. cbn in H. injection H as <-.
  rewrite (IH _ _ E); [done|]. intros x y Hx. apply Hk. by right.
Qed.

Lemma lineage_rows f m id l k : lineage f m id = Some l -> In k l -> is_Some (m !! k).
Proof.
  revert id l. induction f as [|f IH]; intros id l H Hin; [done|]. cbn in H.
  destruct (m !! id) as [r|] eqn:Er; [|done].
  destruct (r_parent (record r)) as [p|].
  - destruct (lineage f m p) as [k'|] eqn:E; [|done]. injection H as <-.
    destruct Hin as [<-|Hin]; [by rewrite Er|by eapply IH].
  - injection H as <-. destruct Hin as [<-|[]]. by rewrite Er.
Qed.

(** ** What the repository keeps *)

Import PgGrantRepository.

Definition is_claimed (r : Row) : Prop := is_Some (r_claimed_at (record r)).

(** Every row is reached from a root within ten rows, and its parent is claimed. *)
Definition lineages_ok (m : gmap string Row) : Prop :=
  forall id r, m !! id = Some r ->
  is_Some (lineage 10 m id) /\
  forall p, r_parent (record r) = Some p -> exists rp, m !! p = Some rp /\ is_claimed rp.

(** What no operation changes: whose grant it is, where it comes from, when it
    ends; and a stamp once set. *)
Definition lasting (r r' : Row) : Prop :=
  r_client (record r') = r_client (record r) /\ r_user (record r') = r_user (record r) /\
  r_subject (record r') = r_subject (record r) /\ r_parent (record r') = r_parent (record r) /\
  r_created_at (record r') = r_created_at (record r) /\
  r_expires_at (record r') = r_expires_at (record r) /\
  parent_authority_revision r' = parent_authority_revision r /\
  (forall t, r_claimed_at (record r) = Some t -> r_claimed_at (record r') = Some t) /\
  (forall t, r_revoked_at (record r) = Some t ->
     r_revoked_at (record r') = Some t /\ r_revocation_reason (record r') = r_revocation_reason (record r)).

Definition stamped (r : Row) : Prop := is_claimed r \/ is_Some (r_revoked_at (record r)).

(** Stamped rows stay, with their stamps. *)
Definition keeps (m m' : gmap string Row) : Prop :=
  forall id r, m !! id = Some r -> stamped r -> exists r', m' !! id = Some r' /\ lasting r r'.

Lemma lasting_refl r : lasting r r.
Proof. unfold lasting. naive_solver. Qed.

Lemma lasting_trans a b c : lasting a b -> lasting b c -> lasting a c.
Proof.
  unfold lasting. intros (?&?&?&?&?&?&?&Hc&Hr) (?&?&?&?&?&?&?&Hc'&Hr').
  split_and!; try congruence; [auto|].
  intros t Ht. apply Hr in Ht as [Ht Hre]. apply Hr' in Ht as [? ?]. split; [done|congruence].
Qed.

Lemma lasting_stamped r r' : lasting r r' -> stamped r -> stamped r'.
Proof.
  intros (_&_&_&_&_&_&_&Hc&Hr) [[t Ht]|[t Ht]]; [left|right].
  - apply Hc in Ht. by eexists.
  - apply Hr in Ht as [Ht _]. by eexists.
Qed.

Lemma keeps_refl m : keeps m m.
Proof. intros id r Hr _. exists r. split; [done|apply lasting_refl]. Qed.

Lemma keeps_trans a b c : keeps a b -> keeps b c -> keeps a c.
Proof.
  intros Hab Hbc id r Hr Hs. destruct (Hab _ _ Hr Hs) as (r' & Hr' & Hl).
  destruct (Hbc _ _ Hr' (lasting_stamped _ _ Hl Hs)) as (r'' & Hr'' & Hl').
  exists r''. split; [done|by eapply lasting_trans].
Qed.

(** The updates of one row, and what they keep. *)
Lemma lasting_claimed now clock r : lasting r (stamp_claimed now clock r).
Proof. unfold lasting. cbn. split_and!; try done. by intros t ->. Qed.

Lemma lasting_revoked now clock reason r :
  r_revoked_at (record r) = None -> lasting r (stamp_grant_revoked now clock reason r).
Proof. intros H. unfold lasting. cbn. rewrite H. split_and!; try done. Qed.

Lemma update_row m id r r' :
  m !! id = Some r -> lasting r r' ->
  keeps m (<[id := r']> m) /\ (lineages_ok m -> lineages_ok (<[id := r']> m)).
Proof.
  intros Hr Hl. split.
  - intros k x Hx _. destruct (decide (id = k)) as [<-|Hne].
    + rewrite Hr in Hx. injection Hx as <-. exists r'. split; [|done].
      by rewrite lookup_insert, decide_True.
    + exists x. rewrite lookup_insert_ne by done. split; [done|apply lasting_refl].
  - assert (forall k x, m !! k = Some x -> exists x', <[id := r']> m !! k = Some x' /\ lasting x x') as Hall.
    { intros k x Hx. destruct (decide (id = k)) as [<-|Hne].
      - rewrite Hr in Hx. injection Hx as <-. exists r'. split; [|done].
        by rewrite lookup_insert, decide_True.
      - exists x. rewrite lookup_insert_ne by done. split; [done|apply lasting_refl]. }
    intros Hok k x' Hx'.
    assert (exists x, m !! k = Some x /\ lasting x x') as (x & Hx & Hlx).
    { destruct (decide (id = k)) as [<-|Hne].
      - rewrite lookup_insert, decide_True in Hx' by done. injection Hx' as <-. by exists r.
      - rewrite lookup_insert_ne in Hx' by done. exists x'. split; [done|apply lasting_refl]. }
    destruct (Hok _ _ Hx) as [[l Hlin] Hp]. destruct Hlx as (_&_&_&Hpar&_). split.
    + exists l. eapply lineage_mono; [done|]. intros y z _ Hz.
      destruct (Hall _ _ Hz) as (z' & ? & (_&_&_&?&_)). by exists z'.
    + rewrite Hpar. intros p E. destruct (Hp _ E) as (rp & Hrp & [t Ht]).
      destruct (Hall _ _ Hrp) as (rp' & Hrp' & (_&_&_&_&_&_&_&Hc&_)). exists rp'. split; [done|].
      exists t. by apply Hc.
Qed.

Lemma insert_lineages m id r :
  m !! id = None -> lineages_ok m ->
  (forall p, r_parent (record r) = Some p ->
     is_Some (lineage 9 m p) /\ exists rp, m !! p = Some rp /\ is_claimed rp) ->
  keeps m (<[id := r]> m) /\ lineages_ok (<[id := r]> m).
Proof.
  intros Hn Hok Hp.
  assert (forall k x, m !! k = Some x -> <[id := r]> m !! k = Some x) as Hsub.
  { intros k x Hx. rewrite lookup_insert_ne; [done|]. intros <-. by rewrite Hn in Hx. }
  assert (forall f k l, lineage f m k = Some l -> lineage f (<[id := r]> m) k = Some l) as Hlin.
  { intros f k l H. eapply lineage_mono; [done|]. intros y z _ Hz. exists z. split; [by apply Hsub|done]. }
  split.
  - intros k x Hx _. exists x. split; [by apply Hsub|apply lasting_refl].
  - intros k x Hx. apply lookup_insert_Some in Hx as [[<- <-]|[_ Hx]].
    + split.
      * rewrite lineage_S, lookup_insert, decide_True by done.
        destruct (r_parent (record r)) as [p|] eqn:Er; [|by eexists].
        destruct (Hp p eq_refl) as [[l Hl] _]. rewrite (Hlin _ _ _ Hl). by eexists.
      * intros p E. destruct (Hp p E) as (_ & rp & Hrp & Hc). exists rp. split; [by apply Hsub|done].
    + destruct (Hok _ _ Hx) as [[l Hl] Hpar]. split; [exists l; by apply Hlin|].
      intros p E. destruct (Hpar p E) as (rp & Hrp & Hc). exists rp. split; [by apply Hsub|done].
Qed.

(** Purging: a row with a child is claimed, so nothing cascades. *)
Definition purged (older_than : Z) (m : gmap string Row) : gset string :=
  dom (filter (fun kr => unclaimed older_than (record kr.2) = true) m).

Lemma elem_of_purged older_than m id :
  id ∈ purged older_than m <-> exists r, m !! id = Some r /\ unclaimed older_than (record r) = true.
Proof.
  unfold purged. rewrite elem_of_dom. unfold is_Some. setoid_rewrite map_lookup_filter_Some. done.
Qed.

Lemma unclaimed_not_stamped older_than r : unclaimed older_than (record r) = true -> ~ stamped r.
Proof.
  unfold unclaimed, stamped, is_claimed. intros H. bool_hyps.
  destruct (r_claimed_at (record r)), (r_revoked_at (record r)); try done.
  by intros [[? ?]|[? ?]].
Qed.

Lemma cascade_closed n m gone :
  (forall k r, m !! k = Some r -> is_child gone r = false) -> cascade n m gone = gone.
Proof.
  intros H. revert H. induction n as [|n IH]; intros H; [done|]. cbn.
  assert (dom (filter (fun kr => is_child gone kr.2 = true) m) = ∅) as Hempty.
  { apply set_eq. intros k. rewrite elem_of_dom. unfold is_Some. setoid_rewrite map_lookup_filter_Some.
    split; [intros (r & Hr & Hc); cbn in Hc; by rewrite (H _ _ Hr) in Hc|set_solver]. }
  rewrite Hempty, (right_id_L ∅ (∪)). by apply IH.
Qed.

Lemma purge_cascade older_than m n :
  lineages_ok m -> cascade n m (purged older_than m) = purged older_than m.
Proof.
  intros Hok. apply cascade_closed. intros k r Hr. unfold is_child.
  destruct (r_parent (record r)) as [p|] eqn:Ep; [|done]. apply bool_decide_eq_false.
  rewrite elem_of_purged. intros (rp & Hrp & Hu).
  destruct (proj2 (Hok _ _ Hr) p Ep) as (rp' & Hrp' & Hc). rewrite Hrp in Hrp'. injection Hrp' as <-.
  eapply unclaimed_not_stamped; [done|]. by left.
Qed.

Lemma purge_unclaimed_keeps older_than m :
  lineages_ok m ->
  let m' := filter (fun kr => kr.1 ∉ purged older_than m) m in keeps m m' /\ lineages_ok m'.
Proof.
  intros Hok m'.
  assert (forall k r, m !! k = Some r -> k ∉ purged older_than m -> m' !! k = Some r) as Hin.
  { intros k r Hr Hk. by apply map_lookup_filter_Some. }
  assert (forall k r, m' !! k = Some r -> m !! k = Some r) as Hsub.
  { by intros k r [? _]%map_lookup_filter_Some. }
  assert (forall k r, m !! k = Some r -> stamped r -> k ∉ purged older_than m) as Hst.
  { intros k r Hr Hs (r' & Hr' & Hu)%elem_of_purged. rewrite Hr in Hr'. injection Hr' as <-.
    by eapply unclaimed_not_stamped. }
  assert (forall f k l, lineage f m k = Some l -> k ∉ purged older_than m -> lineage f m' k = Some l) as Hlin.
  { induction f as [|f IH]; intros k l H Hk; [done|]. rewrite lineage_S in H |- *.
    destruct (m !! k) as [r|] eqn:Er; [|done]. rewrite (Hin _ _ Er Hk).
    destruct (r_parent (record r)) as [p|] eqn:Ep; [|done].
    destruct (lineage f m p) as [k'|] eqn:E; [|done]. rewrite (IH _ _ E); [done|].
    destruct (proj2 (Hok _ _ Er) p Ep) as (rp & Hrp & Hc). eapply Hst; [done|]. by left. }
  split.
  - intros k r Hr Hs. exists r. split; [|apply lasting_refl]. by eapply Hin, Hst.
  - intros k r Hr. pose proof (Hsub _ _ Hr) as Hr0. destruct (Hok _ _ Hr0) as [[l Hl] Hp]. split.
    + exists l. apply Hlin; [done|]. by apply map_lookup_filter_Some in Hr as [_ ?].
    + intros p E. destruct (Hp p E) as (rp & Hrp & Hc). exists rp. split; [|done].
      eapply Hin; [done|]. eapply Hst; [done|]. by left.
Qed.

Section GrantLaws.
Context {Task : Type}.
Variable tenant : string.
Variable uuid : string -> option string.
Variable Url : Type.
Variable url_parse : string -> option Url.
Variable url_has_fragment : Url -> bool.
Variable url_cannot_be_a_base : Url -> bool.
Variable jsonb_eqb : value -> value -> bool.
Variable assurance_proof :
  Db -> string -> Z -> option string -> list string -> option (Z * string * list string).
Variable attested_move : Db -> string -> GrantRecord -> GrantRecord -> bool.

Abbreviation Grant := (Grants.Grant Task).
Abbreviation read_row := (read_row (Task := Task) tenant uuid Url url_parse url_has_fragment
  url_cannot_be_a_base assurance_proof).
Abbreviation find := (find (Task := Task) tenant uuid Url url_parse url_has_fragment
  url_cannot_be_a_base assurance_proof).
Abbreviation claim := (claim (Task := Task) tenant uuid Url url_parse url_has_fragment
  url_cannot_be_a_base assurance_proof).
Abbreviation claim_for_issuance := (claim_for_issuance (Task := Task) tenant uuid Url url_parse
  url_has_fragment url_cannot_be_a_base assurance_proof).
Abbreviation create := (create (Task := Task) tenant uuid).
Abbreviation revoke := (revoke uuid).
Abbreviation amend := (amend (Task := Task) tenant uuid jsonb_eqb attested_move).
Abbreviation exchanged := (exchanged (Task := Task) tenant uuid Url url_parse url_has_fragment
  url_cannot_be_a_base assurance_proof).
Abbreviation grant_op := (grant_op (Task := Task) tenant uuid Url url_parse url_has_fragment
  url_cannot_be_a_base jsonb_eqb assurance_proof attested_move).
Abbreviation history := (history (Task := Task) tenant uuid Url url_parse url_has_fragment
  url_cannot_be_a_base jsonb_eqb assurance_proof attested_move).

Lemma read_row_facts s r (g : Grant) :
  read_row s r = Ok g ->
  g_tenant g = tenant /\ g_id g = r_id (record r) /\ g_client g = r_client (record r) /\
  g_subject g = r_subject (record r) /\ g_expires_at g = r_expires_at (record r) /\
  g_claimed_at g = r_claimed_at (record r) /\ g_revoked_at g = r_revoked_at (record r).
Proof.
  unfold PgGrantRepository.read_row, into_entity, hydrate_assurance. intros H. ok_inv. subst.
  unfold validate in E0. ok_inv. subst. cbn in H.
  destruct a1 as [a1|]; [|ok_inv; by subst]. ok_inv.
  destruct (assurance_proof _ _ _ _ _) as [[[x y] z]|]; [|ok_inv; by subst].
  destruct (mapM _ z); ok_inv; by subst.
Qed.

Lemma find_row s id (g : Grant) :
  find s id = Ok (Some g) ->
  exists key r, uuid id = Some key /\ grant_rows s !! key = Some r /\ read_row s r = Ok g.
Proof.
  unfold PgGrantRepository.find, grant_uuid. intros H. ok_inv.
  destruct (grant_rows s !! a) as [r|] eqn:Er; [|ok_inv; discriminate]. ok_inv. injection H as <-.
  by exists a, r.
Qed.

Lemma active_is_claimed (g : Grant) now : Grants.Grant.status g now = Active -> is_Some (g_claimed_at g).
Proof.
  unfold Grants.Grant.status. destruct (g_revoked_at g); [done|]. destruct (is_some_and _ _); [done|].
  by destruct (g_claimed_at g).
Qed.

Lemma lock_live_Ok s id r :
  lock_live s id = Ok r <-> grant_rows s !! id = Some r /\ r_revoked_at (record r) = None.
Proof.
  unfold lock_live. split.
  - intros H. ok_inv. destruct (r_revoked_at (record a)) eqn:E1; ok_inv; by subst.
  - intros [-> Hr]. cbn. by rewrite Hr.
Qed.

Lemma claim_state s reread id now clock :
  let s' := fst (claim s reread id now clock) in
  s' = s \/ exists key r, uuid id = Some key /\ grant_rows s !! key = Some r /\
    claimable now (record r) = true /\
    s' = set_rows s (<[key := stamp_claimed now clock r]> (grant_rows s)).
Proof.
  unfold PgGrantRepository.claim, grant_uuid. destruct (uuid id) as [key|] eqn:Eu; cbn [ok_or]; [|by left].
  destruct (grant_rows s !! key) as [r|] eqn:Er; [|by left].
  destruct (claimable now (record r)) eqn:Ec; [|by left]. right. by exists key, r.
Qed.

Lemma revoke_Ok s id reason live now clock s' rv :
  revoke s id reason live now clock = Ok (s', rv) ->
  exists key r, uuid id = Some key /\ grant_rows s !! key = Some r /\ r_revoked_at (record r) = None /\
    is_Some (lineage 10 (grant_rows s) key) /\
    grant_rows s' = <[key := stamp_grant_revoked now clock reason r]> (grant_rows s) /\
    refresh_tokens s' = revoke_tokens (refresh_tokens s) key now /\
    access_token_cutoffs s' = withdraw (access_token_cutoffs s) (PGrant key) now /\
    access_token_denylist s' = deny_live key now live (access_token_denylist s).
Proof.
  unfold PgGrantRepository.revoke, grant_uuid, begin_withdrawal. intros H.
  ok_inv. destruct a0. bool_hyps. rewrite lock_live_Ok in E1. destruct E1 as [Hr Hn].
  injection H as <- <-. exists a, a1. by split_and!.
Qed.

Lemma amend_Ok s (g : Grant) now clock fresh s' :
  amend s g now clock fresh = Ok s' ->
  exists key r, uuid (g_id g) = Some key /\ grant_rows s !! key = Some r /\
    r_revoked_at (record r) = None /\
    grant_rows s' = <[key := amended_row jsonb_eqb attested_move s key g clock fresh r]> (grant_rows s) /\
    refresh_tokens s' = revoke_tokens (refresh_tokens s) key now /\
    access_token_cutoffs s' = withdraw (access_token_cutoffs s) (PGrant (g_id g)) now.
Proof.
  unfold PgGrantRepository.amend, grant_uuid. intros H. ok_inv.
  rewrite lock_live_Ok in E0. destruct E0 as [Hr Hn]. subst. exists a, a0. by split_and!.
Qed.

Lemma lasting_amended s key (g : Grant) clock fresh r :
  lasting r (amended_row jsonb_eqb attested_move s key g clock fresh r).
Proof. unfold lasting. cbn. naive_solver. Qed.

Lemma create_Ok s (g : Grant) s' :
  create s g = Ok s' ->
  exists key parent rev, uuid (g_id g) = Some key /\ grant_uuid_opt uuid (g_parent g) = Ok parent /\
    grant_rows s !! key = None /\ is_Some (clients s !! g_client g) /\
    (forall p, parent = Some p -> is_Some (lineage 9 (grant_rows s) p)) /\
    s' = set_rows s (<[key := inserted_row g key parent rev]> (grant_rows s)).
Proof.
  unfold PgGrantRepository.create, grant_uuid, insert_row. intros H. ok_inv. bool_hyps. subst.
  cbn [inserted_row record r_parent r_client] in *.
  exists a, a0, a1. split_and!; try done.
  intros p ->. by match goal with Hb : bool_decide _ = true |- _ => apply bool_decide_eq_true in Hb end.
Qed.
(** One operation keeps what is stamped, and the lineages. *)
Lemma op_keeps past s s' :
  (forall s0, In s0 past -> keeps (grant_rows s0) (grant_rows s)) ->
  lineages_ok (grant_rows s) -> grant_op past s s' ->
  keeps (grant_rows s) (grant_rows s') /\ lineages_ok (grant_rows s').
Proof.
  intros Hpast Hok Hop. destruct Hop as
    [g s' Hx Hc|reread id now clock|id reason live now clock s' rv Hr|g now clock fresh s' Ha
    |jti grant at_ expires_at s' b Hd|older_than].
  - apply create_Ok in Hc as (key & parent & rev & _ & Hp & Hn & _ & Hl & ->). cbn [grant_rows set_rows].
    apply insert_lineages; [done|done|]. cbn [inserted_row record r_parent]. intros p Hpp. subst parent. split; [by apply Hl|].
    unfold grant_uuid_opt, grant_uuid in Hp. destruct (g_parent g) as [q|] eqn:Eq; [|done]. ok_inv.
    injection Hp as <-. destruct (Hx q Eq) as (s0 & g0 & now0 & Hin & Hf & Hst).
    apply find_row in Hf as (key0 & r0 & Hu0 & Hr0 & Hread). rewrite E in Hu0. injection Hu0 as <-.
    apply read_row_facts in Hread as (_&_&_&_&_&Hcl&_). apply active_is_claimed in Hst as [t Ht].
    rewrite Hcl in Ht.
    destruct (Hpast _ Hin _ _ Hr0) as (r' & Hr' & (_&_&_&_&_&_&_&Hk&_)); [left; by eexists|].
    exists r'. split; [done|]. exists t. by apply Hk.
  - destruct (claim_state s reread id now clock) as [->|(key & r & _ & Hr & _ & ->)];
      [split; [apply keeps_refl|done]|].
    cbn. destruct (update_row _ _ _ _ Hr (lasting_claimed now clock r)) as [? ?]. eauto.
  - apply revoke_Ok in Hr as (key & r & _ & Hr & Hn & _ & -> & _).
    destruct (update_row _ _ _ _ Hr (lasting_revoked now clock reason r Hn)) as [? ?]. eauto.
  - apply amend_Ok in Ha as (key & r & _ & Hr & _ & -> & _).
    destruct (update_row _ _ _ _ Hr (lasting_amended s key g clock fresh r)) as [? ?]. eauto.
  - unfold denylist_access_token in Hd. destruct (_ <=? _); [|ok_inv; destruct (grant_uuid_opt uuid grant); ok_inv];
      simplify_eq; (split; [apply keeps_refl|done]).
  - cbn [fst purge_unclaimed grant_rows]. fold (purged older_than (grant_rows s)).
    rewrite purge_cascade by done. by apply purge_unclaimed_keeps.
Qed.

Lemma grants_invariant h :
  history h ->
  forall s past, h = s :: past ->
  lineages_ok (grant_rows s) /\ forall s0, In s0 h -> keeps (grant_rows s0) (grant_rows s).
Proof.
  induction 1 as [s He|s past s' Hh IH Hop|s past s' Hh IH Heq]; intros x l [= <- <-].
  - split; [intros id r Hr; by rewrite He in Hr|].
    intros s0 [<-|[]]. apply keeps_refl.
  - destruct (IH _ _ eq_refl) as [Hok Hk].
    destruct (op_keeps _ _ _ Hk Hok Hop) as [Hk' Hok']. split; [done|].
    intros s0 [<-|Hin]; [apply keeps_refl|]. eapply keeps_trans; [by apply Hk|done].
  - destruct (IH _ _ eq_refl) as [Hok Hk]. rewrite Heq. split; [done|].
    intros s0 [<-|Hin]; [rewrite Heq; apply keeps_refl|]. by apply Hk.
Qed.

Lemma claim_of_revoked s reread id key r now clock c :
  uuid id = Some key -> grant_rows s !! key = Some r -> is_Some (r_revoked_at (record r)) ->
  snd (claim s reread id now clock) <> Ok c.
Proof.
  intros Hu Hr [t Ht]. unfold PgGrantRepository.claim, grant_uuid. rewrite Hu. cbn [ok_or].
  rewrite Hr. unfold claimable. rewrite Ht. done.
Qed.

(** Along any history of the repository - creations (a child only of a grant an
    exchange read active), claims, revocations, amendments and purges, with
    whatever else happens beside them - a grant that has been claimed or revoked is
    never deleted, keeps its client, its owner, its parent and its expiry, and keeps
    those stamps; a revoked one is never claimed, revoked or amended again. *)
Theorem stamped_grants_last (s : Db) (past : list Db) (s0 : Db) (id : string) (r : Row) :
  history (s :: past) -> In s0 past -> grant_rows s0 !! id = Some r -> stamped r ->
  exists r', grant_rows s !! id = Some r' /\ lasting r r' /\
    (is_Some (r_revoked_at (record r)) -> forall spelled, uuid spelled = Some id ->
       (forall reread now clock c, snd (claim s reread spelled now clock) <> Ok c) /\
       (forall reason live now clock, revoke s spelled reason live now clock = Err NotFound) /\
       (forall (g : Grant) now clock fresh s', g_id g = spelled -> amend s g now clock fresh <> Ok s')).
Proof.
  intros Hh Hin Hr Hs. destruct (grants_invariant _ Hh _ _ eq_refl) as [Hok Hk].
  destruct (Hk s0 (or_intror Hin) _ _ Hr Hs) as (r' & Hr' & Hl). exists r'. split; [done|]. split; [done|].
  intros [t Ht] spelled Hu. assert (r_revoked_at (record r') = Some t) as Ht'.
  { destruct Hl as (_&_&_&_&_&_&_&_&Hrev). by apply Hrev in Ht as [? _]. }
  split_and!.
  - intros reread now clock c. eapply claim_of_revoked; [done..|by eexists].
  - intros reason live now clock. unfold PgGrantRepository.revoke, grant_uuid, begin_withdrawal. rewrite Hu. cbn [ok_or rbind].
    destruct (Hok _ _ Hr') as [Hlin _]. rewrite bool_decide_eq_true_2 by done. cbn [rbind].
    unfold lock_live. rewrite Hr'. cbn [ok_or rbind]. by rewrite Ht'.
  - intros g now clock fresh s' <- (key & x & Hux & Hx & Hn & _)%amend_Ok.
    rewrite Hu in Hux. injection Hux as <-. rewrite Hr' in Hx. injection Hx as <-. congruence.
Qed.
(** ** What the refresh tokens see *)

Lemma weakened_same a b :
  tokens b = tokens a -> cutoffs b = cutoffs a -> weakened a b.
Proof.
  intros Ht Hc. split; [rewrite Ht; naive_solver|].
  rewrite Hc. intros k c Hk. exists c. split; [done|lia].
Qed.

Lemma weakened_withdraw a b p now :
  (forall d r', tokens b !! d = Some r' -> exists r, tokens a !! d = Some r /\
     (r' = r \/ exists at_, r' = stamp_revoked at_ r)) ->
  cutoffs b = withdraw (cutoffs a) p now -> weakened a b.
Proof. intros Ht Hc. split; [done|]. rewrite Hc. intros k c. apply withdraw_mono. Qed.

Lemma revoke_tokens_lookup m id now d r' :
  revoke_tokens m id now !! d = Some r' ->
  exists r, m !! d = Some r /\ r' = if live_token_of id r then stamp_revoked now r else r.
Proof. unfold revoke_tokens. rewrite lookup_fmap. destruct (m !! d); naive_solver. Qed.

Lemma revoke_tokens_weakens m id now d r' :
  revoke_tokens m id now !! d = Some r' ->
  exists r, m !! d = Some r /\ (r' = r \/ exists at_, r' = stamp_revoked at_ r).
Proof.
  intros (r & Hr & ->)%revoke_tokens_lookup. exists r. split; [done|].
  destruct (live_token_of id r); [right; by eexists|by left].
Qed.

Lemma op_weakens past s s' : grant_op past s s' -> weakened (view s) (view s').
Proof.
  intros Hop. destruct Hop as
    [g s' Hx Hc|reread id now clock|id reason live now clock s' rv Hr|g now clock fresh s' Ha
    |jti grant at_ expires_at s' b Hd|older_than].
  - apply create_Ok in Hc as (key & parent & rev & _ & _ & _ & _ & _ & ->). by apply weakened_same.
  - destruct (claim_state s reread id now clock) as [->|(key & r & _ & _ & _ & ->)]; by apply weakened_same.
  - apply revoke_Ok in Hr as (key & r & _ & _ & _ & _ & _ & Ht & Hc & _).
    eapply weakened_withdraw; [|exact Hc]. cbn. rewrite Ht. apply revoke_tokens_weakens.
  - apply amend_Ok in Ha as (key & r & _ & _ & _ & _ & Ht & Hc).
    eapply weakened_withdraw; [|exact Hc]. cbn. rewrite Ht. apply revoke_tokens_weakens.
  - unfold denylist_access_token in Hd. destruct (_ <=? _); [|ok_inv; destruct (grant_uuid_opt uuid grant); ok_inv];
      simplify_eq; by apply weakened_same.
  - split; cbn; [|intros k c Hk; exists c; split; [done|lia]].
    intros d r' [Hr _]%map_lookup_filter_Some. naive_solver.
Qed.

(** ** Revocation reaches everything *)

Section Withdrawn.
Variable hex_decode : string -> option (list Z).

(** [key] is there no more than it was, and no less revoked. *)
Definition stays_revoked (key : string) (s s' : Db) : Prop :=
  forall r', grant_rows s' !! key = Some r' -> exists r, grant_rows s !! key = Some r /\
    (is_Some (r_revoked_at (record r)) -> is_Some (r_revoked_at (record r'))).

(** A step of the repository or of anything beside it that neither mints [d] nor
    creates [key] again, both drawn at random, does not take a revocation back,
    and deletes from the denylist only what has expired; the clock moves
    forward. New refresh tokens of any grant may be issued. *)
Inductive db_step (d : list Z) (key : string) : Db * Z -> Db * Z -> Prop :=
| step_grants past s t s' now :
    t <= now -> grant_op past s s' ->
    (grant_rows s !! key = None -> grant_rows s' !! key = None) -> db_step d key (s, t) (s', now)
| step_tokens s t s' now :
    t <= now -> step hex_decode uuid d (view s, t) (view s', now) -> stays_revoked key s s' ->
    (forall jti row, access_token_denylist s !! jti = Some row ->
       access_token_denylist s' !! jti = Some row \/ den_expires_at row <= now) ->
    db_step d key (s, t) (s', now).

Lemma stays_update key k s s' r r' :
  grant_rows s !! k = Some r -> grant_rows s' = <[k := r']> (grant_rows s) ->
  (is_Some (r_revoked_at (record r)) -> is_Some (r_revoked_at (record r'))) -> stays_revoked key s s'.
Proof.
  intros Hr E Hi x Hx. rewrite E in Hx. apply lookup_insert_Some in Hx as [[<- <-]|[_ Hx]]; [by exists r|by exists x].
Qed.

Lemma stays_same key s s' : grant_rows s' = grant_rows s -> stays_revoked key s s'.
Proof. intros E x Hx. rewrite E in Hx. by exists x. Qed.

(** An operation on the grants keeps what is revoked, where it does not create. *)
Lemma op_stays past s s' key :
  grant_op past s s' -> (grant_rows s !! key = None -> grant_rows s' !! key = None) -> stays_revoked key s s'.
Proof.
  intros Hop Hnew. destruct Hop as
    [g s' Hx Hc|reread id now clock|id reason live now clock s' rv Hr|g now clock fresh s' Ha
    |jti grant at_ expires_at s' b Hd|older_than].
  - apply create_Ok in Hc as (k & parent & rev & _ & _ & Hn & _ & _ & ->). intros x Hx'. cbn in Hx', Hnew.
    destruct (decide (k = key)) as [->|Hne]; [|rewrite lookup_insert_ne in Hx' by done; by exists x].
    rewrite lookup_insert, decide_True in Hnew by done. by specialize (Hnew Hn).
  - destruct (claim_state s reread id now clock) as [->|(k & r & _ & Hr & _ & ->)]; [by apply stays_same|].
    by eapply stays_update.
  - apply revoke_Ok in Hr as (k & r & _ & Hr & _ & _ & E & _). eapply stays_update; [done..|]. by eexists.
  - apply amend_Ok in Ha as (k & r & _ & Hr & Hn & E & _). eapply stays_update; [done..|].
    intros [t Ht]. by rewrite Hn in Ht.
  - unfold denylist_access_token in Hd. destruct (_ <=? _); [|ok_inv; destruct (grant_uuid_opt uuid grant); ok_inv];
      simplify_eq; by apply stays_same.
  - intros x [Hx _]%map_lookup_filter_Some. by exists x.
Qed.

(** No authority is claimed from a grant that is revoked or gone. *)
Lemma no_claim s reread bound key spelled now clock c :
  (forall r, grant_rows s !! key = Some r -> is_Some (r_revoked_at (record r))) ->
  uuid spelled = Some key -> snd (claim_for_issuance bound s reread spelled now clock) <> Ok c.
Proof.
  intros Hr Hu. unfold PgGrantRepository.claim_for_issuance. destruct bound.
  - cbn [snd]. intros H. ok_inv. destruct a as [g|]; [|discriminate].
    match goal with E : find _ _ = _ |- _ => apply find_row in E as (k & r & Hk & Hrow & Hread) end.
    rewrite Hu in Hk. injection Hk as <-.
    apply read_row_facts in Hread as (_&_&_&_&_&_&Hrev). apply Hr in Hrow as [t Ht].
    simplify_eq. unfold Grants.Grant.claim, Grants.Grant.status in *. by rewrite Hrev, Ht in *.
  - unfold PgGrantRepository.claim, grant_uuid. rewrite Hu. cbn [ok_or].
    destruct (grant_rows s !! key) as [r|] eqn:E; [|done].
    destruct (Hr _ eq_refl) as [t Ht]. unfold claimable. by rewrite Ht.
Qed.

Lemma deny_keeps jti row m k x : m !! k = Some x -> deny jti row m !! k = Some x.
Proof.
  intros H. unfold deny. destruct (m !! jti) eqn:E; [done|].
  rewrite lookup_insert_ne; [done|]. intros <-. by rewrite E in H.
Qed.

Lemma deny_live_keeps id now live m k x : m !! k = Some x -> deny_live id now live m !! k = Some x.
Proof.
  unfold deny_live. revert m. induction live as [|tok l IH]; intros m H; cbn; [done|].
  apply IH. destruct (now <? _); [by apply deny_keeps|done].
Qed.

Lemma deny_live_denies id now live m tok :
  In tok live -> now < lat_expires_at tok ->
  is_Some (deny_live id now live m !! lat_jti tok).
Proof.
  intros Hin Hlt. revert m. induction live as [|x l IH]; intros m; [done|].
  destruct Hin as [->|Hin]; [|by apply IH]. unfold deny_live. cbn.
  rewrite (proj2 (Z.ltb_lt _ _) Hlt).
  assert (is_Some (deny (lat_jti tok) {| den_grant := Some id; den_revoked_at := now;
    den_expires_at := lat_expires_at tok |} m !! lat_jti tok)) as [x' Hx'].
  { unfold deny. destruct (m !! lat_jti tok) eqn:E; [by rewrite E|].
    rewrite lookup_insert, decide_True by done. by eexists. }
  exists x'. by apply (deny_live_keeps id now l).
Qed.

Lemma op_denies past s s' jti row :
  grant_op past s s' -> access_token_denylist s !! jti = Some row ->
  access_token_denylist s' !! jti = Some row.
Proof.
  intros Hop Hj. destruct Hop as
    [g s' Hx Hc|reread id now clock|id reason live now clock s' rv Hr|g now clock fresh s' Ha
    |jti' grant at_ expires_at s' b Hd|older_than].
  - by apply create_Ok in Hc as (key & parent & rev & _ & _ & _ & _ & _ & ->).
  - by destruct (claim_state s reread id now clock) as [->|(key & r & _ & _ & _ & ->)].
  - apply revoke_Ok in Hr as (key & r & _ & _ & _ & _ & _ & _ & _ & ->). by apply deny_live_keeps.
  - unfold PgGrantRepository.amend, grant_uuid in Ha. ok_inv. by subst.
  - unfold denylist_access_token in Hd. destruct (_ <=? _); [|ok_inv; destruct (grant_uuid_opt uuid grant); ok_inv];
      simplify_eq; [done|by apply deny_keeps..].
  - done.
Qed.

Definition denied_until (jti : string) (row : Denied) (x : Db * Z) : Prop :=
  access_token_denylist (fst x) !! jti = Some row \/ den_expires_at row <= snd x.

(** What a revocation at [at_] leaves, for a token [d] of [key]. *)
Definition withdrawn_at (d : list Z) (key : string) (at_ : Z) (x : Db * Z) : Prop :=
  dead d (view (fst x)) /\ marked key at_ (view (fst x)) (snd x) /\
  forall r, grant_rows (fst x) !! key = Some r -> is_Some (r_revoked_at (record r)).

Lemma db_step_keeps d key at_ x y :
  db_step d key x y ->
  (withdrawn_at d key at_ x -> withdrawn_at d key at_ y) /\
  (forall jti row, denied_until jti row x -> denied_until jti row y).
Proof.
  assert (forall s t s' now, step hex_decode uuid d (view s, t) (view s', now) -> stays_revoked key s s' ->
    withdrawn_at d key at_ (s, t) -> withdrawn_at d key at_ (s', now)) as Hstep.
  { intros s t s' now Hst Hstay (Hd & Hm & Hr).
    destruct (step_keeps hex_decode uuid d key at_ _ _ Hst (conj Hd Hm)) as [? ?].
    split; [done|]. split; [done|]. intros r' Hr'. apply Hstay in Hr' as (r & Hl & Hi). by eapply Hi, Hr. }
  destruct 1 as [past s t s' now Ht Hop Hnew|s t s' now Ht Hst Hstay Hden]; split.
  - apply Hstep; [apply step_other; [done|by eapply op_weakens]|by eapply op_stays].
  - intros jti row [H|H]; [left; by eapply op_denies|right; cbn in *; lia].
  - by apply Hstep.
  - intros jti row [H|H]; [by apply Hden|right; cbn in *; lia].
Qed.

Lemma db_steps_keep d key at_ x y :
  rtc (db_step d key) x y ->
  (withdrawn_at d key at_ x -> withdrawn_at d key at_ y) /\
  (forall jti row, denied_until jti row x -> denied_until jti row y).
Proof.
  induction 1 as [x|x y z Hxy _ IH]; [done|].
  destruct (db_step_keeps d key at_ x y Hxy) as [? Hj]. destruct IH as [? IHj].
  split; [tauto|]. intros jti row Hd. by apply IHj, Hj.
Qed.

Lemma live_token_stamped key now r :
  t_grant r = key ->
  is_Some (t_revoked_at (if live_token_of key r then stamp_revoked now r else r)).
Proof.
  intros <-. unfold live_token_of. rewrite String.eqb_refl. cbn [andb].
  destruct (t_revoked_at r) eqn:E; cbn; rewrite E; by eexists.
Qed.

End Withdrawn.

(** ** Every live grant can be revoked, and claimed as its status says *)

Lemma revoke_live s id key r reason live now clock :
  uuid id = Some key -> lineages_ok (grant_rows s) -> grant_rows s !! key = Some r ->
  r_revoked_at (record r) = None -> exists s' rv, revoke s id reason live now clock = Ok (s', rv).
Proof.
  intros Hu Hok Hr Hn. unfold PgGrantRepository.revoke, grant_uuid, begin_withdrawal. rewrite Hu. cbn [ok_or rbind].
  destruct (Hok _ _ Hr) as [Hl _]. rewrite bool_decide_eq_true_2 by done. cbn [rbind].
  rewrite (proj2 (lock_live_Ok s key r)) by done. by eexists _, _.
Qed.

Lemma claimable_status (g : Grant) s r now :
  read_row s r = Ok g ->
  claimable now (record r) = GrantStatus.may_issue (Grants.Grant.status g now).
Proof.
  intros (_&_&_&_&He&_&Hv)%read_row_facts. unfold claimable, Grants.Grant.status. rewrite He, Hv.
  destruct (r_revoked_at (record r)); [done|].
  destruct (r_expires_at (record r)) as [e|]; cbn; [|by destruct (g_claimed_at g)].
  destruct (Z.leb_spec e now), (Z.ltb_spec now e); try lia; [done|by destruct (g_claimed_at g)].
Qed.

(** What the validation of a row reads is not what a claim writes. *)
Lemma validate_claimed r now clock (g : Grant) :
  validate Url url_parse url_has_fragment url_cannot_be_a_base (record r) tenant = Ok g ->
  exists g' : Grant, validate Url url_parse url_has_fragment url_cannot_be_a_base
    (record (stamp_claimed now clock r)) tenant = Ok g' /\ g_id g' = r_id (record r).
Proof.
  unfold validate. intros H. ok_inv. subst. cbn -[validate_scopes validate_resources validate_claims_locales].
  unfold validate_revocation, validate_authentication in *. cbn in *.
  rewrite E, E0, E1, E2, E3, E4, E5, E6, Heqb. cbn. by eexists.
Qed.

Lemma hydrate_reads s (g : Grant) :
  uuid (g_id g) = Some (g_id g) ->
  exists g', hydrate_assurance (Task := Task) uuid assurance_proof s g = Ok g'.
Proof.
  intros Hu. unfold hydrate_assurance, grant_uuid. destruct (g_authentication g); [|by eexists].
  rewrite Hu. cbn [ok_or rbind].
  destruct (assurance_proof _ _ _ _ _) as [[[x y] z]|]; [|by eexists].
  destruct (mapM _ z); by eexists.
Qed.

Lemma read_claimed s s' r (g : Grant) now clock :
  read_row s r = Ok g -> uuid (r_id (record r)) = Some (r_id (record r)) ->
  exists g', read_row s' (stamp_claimed now clock r) = Ok g'.
Proof.
  unfold PgGrantRepository.read_row, into_entity. intros H Hu. ok_inv.
  apply (validate_claimed r now clock) in E0 as (g' & -> & Hid). cbn [map_err rbind].
  apply hydrate_reads. cbn. congruence.
Qed.

(** A UUID's canonical spelling is a spelling of it. *)
Definition canonical : Prop := forall a b, uuid a = Some b -> uuid b = Some b.

Definition ids_ok (m : gmap string Row) : Prop :=
  forall id r, m !! id = Some r -> r_id (record r) = id /\ uuid id = Some id.

Lemma ids_update m id r r' :
  m !! id = Some r -> r_id (record r') = r_id (record r) -> ids_ok m -> ids_ok (<[id := r']> m).
Proof.
  intros Hr He Hok k x [[<- <-]|[_ Hx]]%lookup_insert_Some; [|by apply Hok].
  rewrite He. by apply Hok.
Qed.

Lemma op_ids past s s' :
  canonical -> grant_op past s s' -> ids_ok (grant_rows s) -> ids_ok (grant_rows s').
Proof.
  intros Hcan Hop Hok. destruct Hop as
    [g s' Hx Hc|reread id now clock|id reason live now clock s' rv Hr|g now clock fresh s' Ha
    |jti grant at_ expires_at s' b Hd|older_than].
  - apply create_Ok in Hc as (key & parent & rev & Hu & _ & _ & _ & _ & ->). cbn.
    intros k x [[<- <-]|[_ Hx']]%lookup_insert_Some; [|by apply Hok]. split; [done|by eapply Hcan].
  - destruct (claim_state s reread id now clock) as [->|(key & r & _ & Hr & _ & ->)]; [done|].
    by eapply ids_update.
  - apply revoke_Ok in Hr as (key & r & _ & Hr & _ & _ & -> & _). by eapply ids_update.
  - apply amend_Ok in Ha as (key & r & _ & Hr & _ & -> & _). by eapply ids_update.
  - unfold denylist_access_token in Hd. destruct (_ <=? _); [|ok_inv; destruct (grant_uuid_opt uuid grant); ok_inv];
      by simplify_eq.
  - by intros k x [Hx _]%map_lookup_filter_Some; apply Hok.
Qed.

Lemma history_ids h : canonical -> history h -> forall s, In s h -> ids_ok (grant_rows s).
Proof.
  intros Hcan. induction 1 as [s He|s past s' Hh IH Hop|s past s' Hh IH Heq]; intros x.
  - intros [<-|[]] id r Hr. by rewrite He in Hr.
  - intros [<-|Hx]; [|by apply IH]. eapply op_ids; [done..|]. apply IH. by left.
  - intros [<-|Hx]; [|by apply IH]. rewrite Heq. apply IH. by left.
Qed.

(** C29: The repository's claim is the entity's: one statement hands out exactly the
    authority [Grant::claim] would, at the instant the row is stamped, after which
    the grant reads active; and where the entity refuses, nothing is written and
    the claim fails, whatever the second query finds. *)
Theorem claim_refines_entity (s : Db) (past : list Db) (spelled key : string) (r : Row) (g : Grant)
    (reread : Db) (now clock : Z) :
  canonical -> history (s :: past) -> uuid spelled = Some key ->
  grant_rows s !! key = Some r -> read_row s r = Ok g ->
  match claim s reread spelled now clock, Grants.Grant.claim g now with
  | (s', out), Ok c =>
      out = Ok c /\ s' = set_rows s (<[key := stamp_claimed now clock r]> (grant_rows s)) /\
      exists g', find s' spelled = Ok (Some g') /\ Grants.Grant.status g' now = Active
  | (s', out), Err _ => s' = s /\ exists e, out = Err e
  end.
Proof.
  intros Hcan Hh Hu Hr Hg. destruct (history_ids _ Hcan Hh s (or_introl eq_refl) _ _ Hr) as [Hid Hk].
  pose proof (claimable_status g s r now Hg) as Hst.
  unfold PgGrantRepository.claim, grant_uuid. rewrite Hu. cbn [ok_or]. rewrite Hr, Hst.
  unfold Grants.Grant.claim at 2. destruct (GrantStatus.may_issue (Grants.Grant.status g now)) eqn:Em;
    [|split; [done|by eexists]].
  set (s' := set_rows s (<[key := stamp_claimed now clock r]> (grant_rows s))).
  rewrite <- Hid in Hk. destruct (read_claimed s s' r g now clock Hg Hk) as [g' Hg'].
  change (PgGrantRepository.read_row tenant uuid Url url_parse url_has_fragment
    url_cannot_be_a_base assurance_proof s' (stamp_claimed now clock r)) with
    (read_row s' (stamp_claimed now clock r)). rewrite Hg'. cbn [rbind].
  pose proof (read_row_facts _ _ _ Hg) as (F1&F2&F3&F4&F5&F6&F7).
  pose proof (read_row_facts _ _ _ Hg') as (F1'&F2'&F3'&F4'&F5'&F6'&F7'). cbn in F2', F3', F4', F5', F6', F7'.
  assert (Grants.Grant.status g' now = Active) as Hact.
  { unfold Grants.Grant.status in *. rewrite F5', F6', F7'. rewrite F5, F7 in Em.
    destruct (r_revoked_at (record r)); [done|]. destruct (is_some_and _ _); [done|].
    by destruct (r_claimed_at (record r)). }
  unfold Grants.Grant.claim. rewrite Hact. cbn [GrantStatus.may_issue map_err]. split_and!; [|done|].
  - by rewrite F1, F1', F2, F2', F3, F3', F4, F4'.
  - exists g'. split; [|done]. unfold PgGrantRepository.find, grant_uuid. rewrite Hu. cbn [ok_or rbind].
    subst s'. cbn [grant_rows set_rows]. rewrite lookup_insert, decide_True by done.
    change (PgGrantRepository.read_row tenant uuid Url url_parse url_has_fragment
      url_cannot_be_a_base assurance_proof ?x ?y) with (read_row x y). by rewrite Hg'.
Qed.

Definition live_tokens (s : Db) (key : string) : gmap (list Z) TokenRow :=
  filter (fun kt => live_token_of key kt.2 = true) (refresh_tokens s).

Lemma revoke_tokens_none m key now d r :
  revoke_tokens m key now !! d = Some r -> live_token_of key r = false.
Proof.
  intros (r0 & _ & ->)%revoke_tokens_lookup. destruct (live_token_of key r0) eqn:E; [|done].
  unfold live_token_of in *. bool_hyps. cbn. destruct (t_revoked_at r0); [done|]. by rewrite andb_false_r.
Qed.

(** A live grant can always be revoked: whatever has happened to the store, no
    bound on lineages and no missing ancestor stops the transaction; it stamps that
    row and no other, reports how many refresh tokens it found live, and leaves
    none, without touching those of another grant. *)
Theorem live_grant_is_revocable (s : Db) (past : list Db) (spelled key : string) (r : Row)
    (reason : RevocationReason) (live : list LiveAccessToken) (now clock : Z) :
  history (s :: past) -> uuid spelled = Some key ->
  grant_rows s !! key = Some r -> r_revoked_at (record r) = None ->
  exists s' rv, revoke s spelled reason live now clock = Ok (s', rv) /\
    grant_rows s' = <[key := stamp_grant_revoked now clock reason r]> (grant_rows s) /\
    rv_revoked_at rv = now /\ refresh_tokens_revoked rv = Z.of_nat (size (live_tokens s key)) /\
    live_tokens s' key = ∅ /\
    (forall d t, refresh_tokens s !! d = Some t -> t_grant t <> key -> refresh_tokens s' !! d = Some t).
Proof.
  intros Hh Hu Hr Hn. destruct (grants_invariant _ Hh _ _ eq_refl) as [Hok _].
  destruct (Hok _ _ Hr) as [Hl _].
  unfold PgGrantRepository.revoke, grant_uuid, begin_withdrawal. rewrite Hu. cbn [ok_or rbind].
  rewrite bool_decide_eq_true_2 by done. cbn [rbind].
  rewrite (proj2 (lock_live_Ok s key r)) by done. cbn [rbind]. eexists _, _.
  split; [done|]. split_and!; [done..| |].
  - apply map_eq. intros d. rewrite lookup_empty. unfold live_tokens.
    apply map_lookup_filter_None. right. intros t Ht. cbn. cbn in Ht.
    apply revoke_tokens_none in Ht. by rewrite Ht.
  - intros d t Ht Hne. cbn. unfold revoke_tokens. rewrite lookup_fmap, Ht. cbn.
    unfold live_token_of. by rewrite (proj2 (String.eqb_neq _ _) Hne).
Qed.
End GrantLaws.

(** ** A grant's life *)

Definition sample_uuid (s : string) : option string := if is_empty s then None else Some s.
Definition sample_proof (s : Db) (id : string) (at_ : Z) (acr : option string) (amr : list string)
  : option (Z * string * list string) := Some (at_, "revision"%string, amr).
Definition sample_move (s : Db) (id : string) (a b : GrantRecord) : bool := false.

Definition db0 : Db := {|
  grant_rows := ∅; refresh_tokens := ∅; access_token_cutoffs := ∅; access_token_denylist := ∅;
  clients := {["c" := true]}; users := ∅ |}.

Definition sample_grant : Grants.Grant () := Grants.Grant.new "g" 7 "t" "c" 10.

Abbreviation create0 := (create "t" sample_uuid).
Abbreviation claim0 := (claim (Task := ()) "t" sample_uuid string Some is_empty is_empty sample_proof).
Abbreviation history0 := (history (Task := ()) "t" sample_uuid string Some is_empty is_empty
  value_eqb sample_proof sample_move).

Definition db1 : Db := match create0 db0 sample_grant with Ok s => s | Err _ => db0 end.
Definition db2 : Db := fst (claim0 db1 db1 "g" 20 21).
Definition db3 : Db :=
  {| grant_rows := grant_rows db2; access_token_cutoffs := ∅; access_token_denylist := ∅;
     clients := clients db2; users := ∅;
     refresh_tokens := {[ [1] := {| t_grant := "g"; t_client := "c"; t_scopes := []; t_dpop_jkt := None;
       t_cert_thumbprint := Some []; t_issued_at := 22; t_absolute_expires_at := 1000;
       t_idle_expires_at := None; t_last_used_at := None; t_revoked_at := None;
       t_superseded_at := None |} ]} |}.
Definition sample_live : list LiveAccessToken := [{| lat_jti := "j"; lat_expires_at := 100 |}].
Definition db4 : Db :=
  match revoke sample_uuid db3 "g" UserRevoked sample_live 30 31 with Ok (s, _) => s | Err _ => db3 end.

Lemma sample_canonical : canonical sample_uuid.
Proof. intros a b. unfold sample_uuid. destruct (is_empty a) eqn:E; [done|]. intros [= <-]. by rewrite E. Qed.

Lemma sample_grant_history : history0 [db4; db3; db2; db1; db0].
Proof.
  eapply history_op; [|eapply op_revoke with (id := "g") (reason := UserRevoked)
    (live := sample_live) (now := 30) (clock := 31); vm_compute; reflexivity].
  eapply history_beside; [|reflexivity].
  eapply history_op; [|eapply op_claim with (reread := db1) (id := "g") (now := 20) (clock := 21)].
  eapply history_op; [by eapply history_start|].
  eapply op_create with (g := sample_grant); [by intros p [=]|vm_compute; reflexivity].
Qed.

Definition row_at (s : Db) : Row :=
  match grant_rows s !! "g"%string with Some r => r | None => inserted_row sample_grant "g" None None end.
Definition grant_at (s : Db) : Grants.Grant () :=
  match find "t" sample_uuid string Some is_empty is_empty sample_proof s "g" with
  | Ok (Some g) => g | _ => sample_grant end.

Lemma sample_history_from s past : [s] ++ past = [db2; db1; db0] -> history0 (s :: past).
Proof.
  intros [= -> ->].
  eapply history_op; [|eapply op_claim with (reread := db1) (id := "g") (now := 20) (clock := 21)].
  eapply history_op; [by eapply history_start|].
  eapply op_create with (g := sample_grant); [by intros p [=]|vm_compute; reflexivity].
Qed.

Lemma stamped_grants_last_witness :
  exists r', grant_rows db4 !! "g"%string = Some r' /\ lasting (row_at db2) r'.
Proof.
  destruct (stamped_grants_last (Task := ()) "t" sample_uuid string Some is_empty is_empty value_eqb
    sample_proof sample_move db4 [db3; db2; db1; db0] db2 "g" (row_at db2) sample_grant_history) as (r' & H & Hl & _).
  - cbn. tauto.
  - vm_compute. reflexivity.
  - left. vm_compute. by eexists.
  - by exists r'.
Defined.

Lemma claim_refines_entity_witness :
  snd (claim0 db2 db2 "g" 25 26) =
    Ok {| cg_tenant := "t"; cg_grant := "g"; cg_client := "c"; cg_subject := None |}.
Proof.
  pose proof (claim_refines_entity (Task := ()) "t" sample_uuid string Some is_empty is_empty value_eqb
    sample_proof sample_move db2 [db1; db0] "g" "g" (row_at db2) (grant_at db2) db2 25 26
    sample_canonical (sample_history_from _ _ eq_refl) eq_refl ltac:(vm_compute; reflexivity)
    ltac:(vm_compute; reflexivity)) as H.
  destruct (claim0 db2 db2 "g" 25 26) as [s' out].
  change (Grants.Grant.claim (grant_at db2) 25) with
    (@Ok _ GrantError {| cg_tenant := "t"; cg_grant := "g"; cg_client := "c"; cg_subject := None |}) in H.
  apply H.
Defined.

Lemma live_grant_is_revocable_witness :
  exists s' rv, revoke sample_uuid db2 "g" UserRevoked [] 40 41 = Ok (s', rv) /\ rv_revoked_at rv = 40.
Proof.
  destruct (live_grant_is_revocable (Task := ()) "t" sample_uuid string Some is_empty is_empty value_eqb
    sample_proof sample_move db2 [db1; db0] "g" "g" (row_at db2) UserRevoked [] 40 41
    (sample_history_from _ _ eq_refl) eq_refl ltac:(vm_compute; reflexivity) ltac:(vm_compute; reflexivity))
    as (s' & rv & H & _ & Hn & _).
  by exists s', rv.
Defined.

Definition sample_hex (s : string) : option (list Z) := Some (bytes_of s).
Definition sample_token : TokenRow := {|
  t_grant := "g"; t_client := "c"; t_scopes := []; t_dpop_jkt := None;
  t_cert_thumbprint := Some []; t_issued_at := 22; t_absolute_expires_at := 1000;
  t_idle_expires_at := None; t_last_used_at := None; t_revoked_at := None;
  t_superseded_at := None |}.
Definition db5 : Db := fst (purge_unclaimed db4 1000).

