(* ===== verification/GrantAuthority.v ===== *)
(** * The authority fence

    The lineage locks of [crates/store-pg/src/grants.rs]: [lock_authority_on] and
    its three callers discover a grant's lineage, lock its clients, its people and
    then its rows from the root down, and decide on what was locked.

    The transaction is a sequence of statements, each against the database as it
    is when the statement runs, which other transactions change in between; what
    keeps the decision true is what the row locks keep still. *)

From S2P Require Import Prelude BTree Json Session RateLimit.
From S2P Require Import Roles.
From S2P Require Import Refresh.
From S2P Require Import Grants.
From S2P Require Import GrantStore.
Open Scope Z_scope.

Record AuthorityRow : Type := {
  a_grant : string;
  a_client : string;
  a_user : option string;
  a_subject : option string;
  a_parent : option string;
  a_claimed_at : option Z;
  a_revoked_at : option Z;
  a_expires_at : option Z;
  a_revision : Z;
  a_parent_revision : option Z
}.

Definition authority_row (id : string) (r : Row) : AuthorityRow := {|
  a_grant := id; a_client := r_client (record r); a_user := r_user (record r);
  a_subject := r_subject (record r); a_parent := r_parent (record r);
  a_claimed_at := r_claimed_at (record r); a_revoked_at := r_revoked_at (record r);
  a_expires_at := r_expires_at (record r); a_revision := authority_revision r;
  a_parent_revision := parent_authority_revision r |}.

(** [GrantAuthorityFence]. *)
Record Fence : Type := { fence_expires_at : option Z }.

Definition active_at (f : Fence) (now : Z) : bool :=
  is_none_or (fun expiry => now <? expiry) (fence_expires_at f).

(** ** A transaction of read statements *)

Inductive Statement : Type :=
| RowRead (id : string)
| RowShare (id : string)                (** [for share] *)
| ClientsShare (ids : list string)
| UsersShare (ids : list string)
| Clock.

(** A computation that has issued the statements of a log, and goes on. *)
Definition Tx (A : Type) : Type := list Statement -> list Statement * result A DomainError.

#[export] Instance tx_ret : MRet Tx := fun A a log => (log, Ok a).
#[export] Instance tx_bind : MBind Tx := fun A B k m log =>
  match m log with
  | (log, Ok a) => k a log
  | (log, Err e) => (log, Err e)
  end.
Definition fail {A} (e : DomainError) : Tx A := fun log => (log, Err e).
Definition lift {A} (r : result A DomainError) : Tx A := fun log => (log, r).

Section Authority.
Context {Task : Type}.
Variable uuid : string -> option string.
(** What the n-th statement runs against, or its failure; and the answer of
    [select clock_timestamp()]. *)
Variable stmt : nat -> result Db DomainError.
Variable clock : Z.

Abbreviation Grant := (Grants.Grant Task).
Abbreviation grant_uuid := (PgGrantRepository.grant_uuid uuid).
Abbreviation grant_uuid_opt := (PgGrantRepository.grant_uuid_opt uuid).

Definition exec {A} (q : Statement) (f : Db -> A) : Tx A := fun log =>
  (log ++ [q], let? s := stmt (length log) in Ok (f s)).

Definition authority_row_on (id : string) (lock : bool) : Tx (option AuthorityRow) :=
  exec (if lock then RowShare id else RowRead id) (fun s => authority_row id <$> grant_rows s !! id).

Definition active (m : gmap string bool) (ids : list string) : list string :=
  List.filter (fun id => match m !! id with Some b => b | None => false end) ids.

(** [lock_authority_principals_on]; the ids are sorted and without duplicates. *)
Definition principal_clients (grant : Grant) (rows : list AuthorityRow) : list string :=
  bset_of_list (map a_client rows ++ [g_client grant]).
Definition principal_users (grant : Grant) (rows : list AuthorityRow) : list string :=
  bset_of_list (omap a_user rows ++ option_list (g_user grant)).

Definition lock_authority_principals_on (grant : Grant) (rows : list AuthorityRow) : Tx () :=
  let ids := principal_clients grant rows in
  active_clients ← exec (ClientsShare ids) (fun s => active (clients s) ids);
  if negb (length active_clients =? length ids)%nat then fail authority_invalid
  else
    let ids := principal_users grant rows in
    active_users ← exec (UsersShare ids) (fun s => active (users s) ids);
    if negb (bool_decide (active_users = ids)) then fail authority_invalid else mret tt.

(** The walk towards the root: the rows read, and whether it got there or met a
    row that is not there. The bound of ten rows stops it before the fuel does. *)
Fixpoint discover (fuel : nat) (rows : list AuthorityRow) (next : option string)
    : Tx (list AuthorityRow * bool) :=
  match next with
  | None => mret (rows, true)
  | Some id =>
      if (10 <=? length rows)%nat || existsb (fun row => String.eqb (a_grant row) id) rows
      then fail authority_invalid
      else
        match fuel with
        | O => fail authority_invalid
        | S fuel =>
            row ← authority_row_on id false;
            match row with
            | None => mret (rows, false)
            | Some row => discover fuel (rows ++ [row]) (a_parent row)
            end
        end
  end.

(** What the locked row must still be. *)
Definition same_lineage (locked expected : AuthorityRow) : bool :=
  String.eqb (a_grant locked) (a_grant expected)
  && String.eqb (a_client locked) (a_client expected)
  && bool_decide (a_user locked = a_user expected)
  && bool_decide (a_subject locked = a_subject expected)
  && bool_decide (a_parent locked = a_parent expected)
  && (a_revision locked =? a_revision expected)
  && bool_decide (a_parent_revision locked = a_parent_revision expected).

(** Every row locked, the root first, and replaced by what was locked. *)
Fixpoint relock (rows : list AuthorityRow) : Tx (list AuthorityRow) :=
  match rows with
  | [] => mret []
  | expected :: rest =>
      rest ← relock rest;
      locked ← authority_row_on (a_grant expected) true;
      match locked with
      | None => fail authority_invalid
      | Some locked => if same_lineage locked expected then mret (locked :: rest) else fail authority_invalid
      end
  end.

(** [rows.windows(2)]: each child names its parent's generation. *)
Fixpoint edges_ok (rows : list AuthorityRow) : bool :=
  match rows with
  | child :: ((parent :: _) as rest) =>
      bool_decide (a_parent_revision child = Some (a_revision parent)) && edges_ok rest
  | _ => true
  end.

Definition refused (claimed : bool) (index : nat) (current : AuthorityRow) (now : Z) : bool :=
  match a_revoked_at current with Some _ => true | None => false end
  || ((claimed || (0 <? index)%nat) && match a_claimed_at current with None => true | Some _ => false end)
  || is_some_and (fun deadline => deadline <=? now) (a_expires_at current).

Definition earlier (expiry deadline : option Z) : option Z :=
  match deadline with
  | None => expiry
  | Some d => Some match expiry with None => d | Some old => Z.min old d end
  end.

Fixpoint check_rows (claimed : bool) (now : Z) (index : nat) (rows : list AuthorityRow)
    (expiry : option Z) : result (option Z) DomainError :=
  match rows with
  | [] => Ok expiry
  | current :: rest =>
      if refused claimed index current now then Err authority_invalid
      else check_rows claimed now (S index) rest (earlier expiry (a_expires_at current))
  end.

(** The grant in hand is the grant that was found. *)
Definition matches_row (grant : Grant) (parent : option string) (exact : AuthorityRow) : bool :=
  String.eqb (a_client exact) (g_client grant) && bool_decide (a_user exact = g_user grant)
  && bool_decide (a_subject exact = g_subject grant) && bool_decide (a_parent exact = parent).

Definition lock_authority_on (tenant : string) (grant : Grant) (claimed : bool) : Tx (option Fence) :=
  if negb (String.eqb (g_tenant grant) tenant) then fail authority_invalid
  else
    id ← lift (grant_uuid (g_id grant));
    '(rows, found) ← discover 10 [] (Some id);
    if negb found then
      if (length rows =? 0)%nat && negb claimed then
        _ ← lock_authority_principals_on grant rows; mret None
      else fail authority_invalid
    else
      expected_parent ← lift (grant_uuid_opt (g_parent grant));
      match rows with
      | [] => fail authority_invalid
      | exact :: _ =>
          if negb (matches_row grant expected_parent exact) then fail authority_invalid
          else
            _ ← lock_authority_principals_on grant rows;
            rows ← relock rows;
            if negb (bool_decide (a_revision <$> head rows = Some (g_authority_revision grant)))
            then fail authority_invalid
            else if negb (edges_ok rows) then fail authority_invalid
            else
              now ← exec Clock (fun _ => clock);
              expiry ← lift (check_rows claimed now 0 rows None);
              mret (Some {| fence_expires_at := expiry |})
      end.

Definition lock_issuance_authority_on (tenant : string) (grant : Grant) : Tx Fence :=
  fence ← lock_authority_on tenant grant true;
  match fence with Some fence => mret fence | None => fail authority_invalid end.

Definition lock_authorization_preflight_on (tenant : string) (grant : Grant) : Tx (option Fence) :=
  lock_authority_on tenant grant false.

(** The exchange's parent, out of the provisional child, the receipt it carries and
    the row just read. *)
Definition parent_of (child : Grant) (parent_id : string) (revision : Z) (row : AuthorityRow) : Grant := {|
  g_tenant := g_tenant child; g_id := parent_id; g_client := a_client row; g_user := g_user child;
  g_subject := g_subject child; g_scopes := g_scopes child; g_claims := g_claims child;
  g_claims_locales := g_claims_locales child; g_authorization_details := g_authorization_details child;
  g_resources := g_resources child; g_actor_chain := g_actor_chain child; g_parent := a_parent row;
  g_parent_derivation :=
    match a_parent row, a_parent_revision row with
    | Some id, Some revision => Some {| pd_parent := id; pd_revision := revision |}
    | _, _ => None
    end;
  g_task := g_task child; g_session := g_session child; g_authentication := g_authentication child;
  g_created_at := g_created_at child; g_updated_at := g_updated_at child;
  g_authority_revision := revision; g_expires_at := g_expires_at child;
  g_revoked_at := g_revoked_at child; g_revocation_reason := g_revocation_reason child;
  g_claimed_at := g_claimed_at child |}.

Definition lock_exchange_parent_on (tenant : string) (child : Grant) : Tx Fence :=
  parent_id ← lift (ok_or (g_parent child) authority_invalid);
  id ← lift (grant_uuid parent_id);
  row ← authority_row_on id false;
  row ← lift (ok_or row authority_invalid);
  if negb (bool_decide (a_user row = g_user child) && bool_decide (a_subject row = g_subject child))
  then fail authority_invalid
  else
    receipt ← lift (ok_or (HeldRoles.ofilter (fun receipt => String.eqb (pd_parent receipt) parent_id)
                             (g_parent_derivation child)) authority_invalid);
    lock_issuance_authority_on tenant (parent_of child parent_id (pd_revision receipt) row).
End Authority.

(** ** Running a transaction *)

Lemma bind_Ok {A B} (m : Tx A) (k : A -> Tx B) log log' b :
  (m ≫= k) log = (log', Ok b) <-> exists log1 a, m log = (log1, Ok a) /\ k a log1 = (log', Ok b).
Proof.
  unfold mbind, tx_bind. destruct (m log) as [l [a|e]] eqn:E; split.
  - intros H. by exists l, a.
  - by intros (l1 & a1 & [= <- <-] & H).
  - intros [=].
  - by intros (l1 & a1 & [=] & H).
Qed.

Lemma bind_run {A B} (m : Tx A) (k : A -> Tx B) log log1 a :
  m log = (log1, Ok a) -> (m ≫= k) log = k a log1.
Proof. unfold mbind, tx_bind. by intros ->. Qed.

Lemma ret_Ok {A} (a b : A) log log' : (mret a : Tx A) log = (log', Ok b) <-> log' = log /\ b = a.
Proof. unfold mret, tx_ret. naive_solver. Qed.

Lemma lift_Ok {A} (r : result A DomainError) b log log' :
  lift r log = (log', Ok b) <-> log' = log /\ r = Ok b.
Proof. unfold lift. naive_solver. Qed.

(** Peels a successful transaction, as [ok_step] does a computation. *)
Ltac tx_step :=
  match goal with
  | H : (_ ≫= _) _ = (_, Ok _) |- _ =>
      apply bind_Ok in H; let l := fresh "log" in let a := fresh "a" in let E := fresh "E" in
      destruct H as (l & a & E & H)
  | H : (mret _ : Tx _) _ = (_, Ok _) |- _ => apply ret_Ok in H; destruct H as [-> H]
  | H : lift _ _ = (_, Ok _) |- _ => apply lift_Ok in H; destruct H as [-> H]
  | H : fail _ _ = (_, Ok _) |- _ => discriminate H
  | H : (if ?b then fail _ else _) _ = (_, Ok _) |- _ => destruct b eqn:?; [discriminate H|]
  | H : (if ?b then _ else fail _) _ = (_, Ok _) |- _ => destruct b eqn:?; [|discriminate H]
  end.
Ltac tx_inv := repeat tx_step.

(** ** What the locks keep *)

(** The rows a statement locked are the same ones later. *)
Definition held (q : Statement) (s after : Db) : Prop :=
  match q with
  | RowShare id => forall r, grant_rows s !! id = Some r -> grant_rows after !! id = Some r
  | ClientsShare ids => forall c, In c ids -> clients s !! c = Some true -> clients after !! c = Some true
  | UsersShare ids => forall u, In u ids -> users s !! u = Some true -> users after !! u = Some true
  | RowRead _ | Clock => True
  end.

(** The ids from [next] up to a root, each row the parent of the one before. *)
Fixpoint chain (next : option string) (rows : list AuthorityRow) : Prop :=
  match rows with
  | [] => next = None
  | row :: rest => next = Some (a_grant row) /\ chain (a_parent row) rest
  end.

(** [a] is a row of the database, as the fence reads it. *)
Definition stored (s : Db) (a : AuthorityRow) : Prop :=
  exists r, grant_rows s !! a_grant a = Some r /\ a = authority_row (a_grant a) r.

Definition earliest (rows : list AuthorityRow) : option Z :=
  fold_left (fun expiry a => earlier expiry (a_expires_at a)) rows None.

Section Held.
Context {Task : Type}.
Variable uuid : string -> option string.

(** The authority of a grant in one database: its lineage is short and acyclic,
    ends in a root, carries each parent's current generation and the one the grant
    was read with; every row of it is live at [now]; every client and person of it
    is active. *)
Record authority (s : Db) (grant : Grants.Grant Task) (claimed : bool) (now : Z)
    (rows : list AuthorityRow) : Prop := {
  auth_chain : exists id, uuid (g_id grant) = Some id /\ chain (Some id) rows;
  auth_stored : Forall (stored s) rows;
  auth_short : (length rows <= 10)%nat;
  auth_acyclic : NoDup (map a_grant rows);
  auth_exact : exists exact rest parent, rows = exact :: rest /\
    PgGrantRepository.grant_uuid_opt uuid (g_parent grant) = Ok parent /\
    matches_row grant parent exact = true /\ a_revision exact = g_authority_revision grant;
  auth_edges : edges_ok rows = true;
  auth_live : forall i a, rows !! i = Some a -> refused claimed i a now = false;
  auth_clients : forall c, In c (principal_clients grant rows) -> clients s !! c = Some true;
  auth_users : forall u, In u (principal_users grant rows) -> users s !! u = Some true
}.

Lemma check_rows_Ok claimed now index rows expiry out :
  check_rows claimed now index rows expiry = Ok out <->
  (forall i a, rows !! i = Some a -> refused claimed (index + i) a now = false) /\
  out = fold_left (fun expiry a => earlier expiry (a_expires_at a)) rows expiry.
Proof.
  revert index expiry. induction rows as [|a rows IH]; intros index expiry; cbn [check_rows fold_left].
  - split; [intros [= <-]; split; [by intros i a|done]|by intros [_ ->]].
  - destruct (refused claimed index a now) eqn:Er.
    + split; [done|]. intros [H _]. specialize (H 0%nat a eq_refl). rewrite Nat.add_0_r in H. congruence.
    + rewrite IH. split; intros [H ->]; (split; [|done]).
      * intros [|i] b Hb; cbn in Hb; [injection Hb as <-; by rewrite Nat.add_0_r|].
        replace (index + S i)%nat with (S index + i)%nat by lia. by apply H.
      * intros i b Hb. replace (S index + i)%nat with (index + S i)%nat by lia. by apply H.
Qed.

Lemma active_all m ids :
  (length (active m ids) = length ids <-> forall c, In c ids -> m !! c = Some true) /\
  (active m ids = ids <-> forall c, In c ids -> m !! c = Some true).
Proof.
  assert (forall l, (length (active m l) <= length l)%nat) as Hle by (intros l; apply filter_length_le).
  assert (length (active m ids) = length ids -> forall c, In c ids -> m !! c = Some true) as H1.
  { induction ids as [|x l IH]; intros H c Hin; [done|]. cbn in H.
    destruct (m !! x) as [[]|] eqn:Ex; cbn in H; [|specialize (Hle l); unfold active in *; cbn in *; lia..].
    destruct Hin as [<-|Hin]; [done|]. apply IH; [by injection H|done]. }
  assert ((forall c, In c ids -> m !! c = Some true) -> active m ids = ids) as H2.
  { clear H1. induction ids as [|x l IH]; intros H; [done|]. cbn. rewrite (H x) by by left.
    f_equal. apply IH. intros c Hc. apply H. by right. }
  split; split; intros H; auto; [by rewrite H2|]. apply H1. by rewrite H.
Qed.
End Held.

Section Locks.
Context {Task : Type}.
Variable uuid : string -> option string.
Variable stmt : nat -> result Db DomainError.
Variable clock : Z.

(** Whatever a statement of the log locked is unchanged in [after]. *)
Definition locks_hold (log : list Statement) (after : Db) : Prop :=
  forall i q s, log !! i = Some q -> stmt i = Ok s -> held q s after.

Lemma exec_Ok {A} q (f : Db -> A) log log' a :
  exec stmt q f log = (log', Ok a) <-> exists s, stmt (length log) = Ok s /\ a = f s /\ log' = log ++ [q].
Proof.
  unfold exec. destruct (stmt (length log)) as [s|e]; cbn.
  - split; [intros [= <- <-]; by exists s|]. intros (? & [= <-] & -> & ->). done.
  - split; [done|]. by intros (? & ? & _).
Qed.

Lemma locks_prefix log log' after : log `prefix_of` log' -> locks_hold log' after -> locks_hold log after.
Proof. intros [k ->] H i q s Hi. apply H. by apply lookup_app_l_Some. Qed.

Lemma exec_held {A} q (f : Db -> A) log log' a after :
  exec stmt q f log = (log', Ok a) -> locks_hold log' after -> exists s, a = f s /\ held q s after.
Proof.
  intros (s & Hs & -> & ->)%exec_Ok Hh. exists s. split; [done|]. eapply Hh; [|exact Hs].
  by rewrite lookup_app_r, Nat.sub_diag by lia.
Qed.

Lemma discover_Ok fuel rows next log log' rows' found :
  discover stmt fuel rows next log = (log', Ok (rows', found)) ->
  (length rows <= 10)%nat -> NoDup (map a_grant rows) ->
  log `prefix_of` log' /\ (length rows' <= 10)%nat /\ NoDup (map a_grant rows') /\
  (found = true -> exists new, rows' = rows ++ new /\ chain next new).
Proof.
  revert rows next log. induction fuel as [|fuel IH]; intros rows next log H Hl Hn; cbn [discover] in H;
    (destruct next as [id|]; [|tx_inv; injection H as -> ->; split_and!; [done..|];
       intros _; exists []; by rewrite app_nil_r]); tx_inv.
  apply orb_false_iff in Heqb as [Hle Hex]. apply Nat.leb_gt in Hle.
  destruct a as [row|]; [|tx_inv; injection H as -> ->].
  2: { apply exec_Ok in E as (s & _ & _ & ->). split_and!; [by eexists|lia|done|done]. }
  unfold authority_row_on in E. apply exec_Ok in E as (s & _ & Hrow & ->).
  destruct (grant_rows s !! id) as [r|] eqn:Er; [|discriminate Hrow]. cbn in Hrow.
  assert (a_grant row = id) as Hid by (by injection Hrow as ->).
  apply IH in H as (Hp & Hlen & Hnd & Hf).
  - split_and!; [|done|done|].
    + etransitivity; [|exact Hp]. by eexists.
    + intros Ht. destruct (Hf Ht) as (new & -> & Hch). exists (row :: new).
      rewrite <- app_assoc. split; [done|]. cbn. by rewrite Hid.
  - rewrite length_app. cbn. lia.
  - rewrite map_app. apply NoDup_app. split; [done|]. cbn. split; [|apply NoDup_singleton].
    intros x Hx ->%list_elem_of_singleton. apply not_true_iff_false in Hex. apply Hex.
    apply existsb_exists. apply list_elem_of_In, in_map_iff in Hx as (y & Hy & Hin).
    exists y. split; [done|]. apply String.eqb_eq. congruence.
Qed.

Lemma relock_Ok rows log log' rows' after :
  relock stmt rows log = (log', Ok rows') -> locks_hold log' after ->
  log `prefix_of` log' /\ Forall2 (fun locked expected => same_lineage locked expected = true) rows' rows /\
  Forall (stored after) rows'.
Proof.
  revert log log' rows'. induction rows as [|expected rows IH]; intros log log' rows' H Hh; cbn [relock] in H.
  - tx_inv. subst. by split_and!.
  - tx_inv. destruct a0 as [locked|]; [|done]. tx_inv. subst.
    assert (log0 `prefix_of` log1) as Hp by (apply exec_Ok in E0 as (? & _ & _ & ->); by eexists).
    apply (exec_held _ _ _ _ _ after) in E0 as (s & Hs & Hk); [|done]. cbn in Hk.
    destruct (grant_rows s !! a_grant expected) as [r|] eqn:Er; [|discriminate Hs].
    cbn in Hs. injection Hs as ->.
    apply IH in E as (Hp' & Hf & Hst); [|by eapply locks_prefix].
    split_and!; [by etransitivity|by constructor|constructor; [|done]].
    exists r. cbn. split; [by apply Hk|done].
Qed.

Lemma principals_Ok (grant : Grants.Grant Task) rows log log' a after :
  lock_authority_principals_on stmt grant rows log = (log', Ok a) -> locks_hold log' after ->
  log `prefix_of` log' /\
  (forall c, In c (principal_clients grant rows) -> clients after !! c = Some true) /\
  (forall u, In u (principal_users grant rows) -> users after !! u = Some true).
Proof.
  unfold lock_authority_principals_on. intros H Hh. tx_inv.
  apply negb_false_iff, Nat.eqb_eq in Heqb. apply negb_false_iff, bool_decide_eq_true in Heqb0.
  assert (log0 `prefix_of` log1) as Hp by (apply exec_Ok in E0 as (? & _ & _ & ->); by eexists).
  assert (log `prefix_of` log0) as Hp' by (apply exec_Ok in E as (? & _ & _ & ->); by eexists).
  apply (exec_held _ _ _ _ _ after) in E0 as (s2 & Hs2 & Hk2); [|done].
  apply (exec_held _ _ _ _ _ after) in E as (s1 & Hs1 & Hk1); [|by eapply locks_prefix].
  subst. split; [by etransitivity|]. split.
  - intros c Hc. apply Hk1; [done|]. by apply (proj1 (proj1 (active_all _ _)) Heqb).
  - intros u Hu. apply Hk2; [done|]. by apply (proj1 (proj2 (active_all _ _)) Heqb0).
Qed.

(** What was locked is what was discovered, in every column the walk used. *)
Lemma same_lineage_eq l e :
  same_lineage l e = true ->
  a_grant l = a_grant e /\ a_client l = a_client e /\ a_user l = a_user e /\
  a_subject l = a_subject e /\ a_parent l = a_parent e /\ a_revision l = a_revision e.
Proof.
  unfold same_lineage. intros H. bool_hyps. by split_and!.
Qed.

Lemma same_lineages (grant : Grants.Grant Task) ls es :
  Forall2 (fun l e => same_lineage l e = true) ls es ->
  map a_grant ls = map a_grant es /\
  principal_clients grant ls = principal_clients grant es /\
  principal_users grant ls = principal_users grant es /\
  (forall next, chain next ls <-> chain next es).
Proof.
  intros Hf. unfold principal_clients, principal_users.
  assert (map a_grant ls = map a_grant es /\ map a_client ls = map a_client es /\
    omap a_user ls = omap a_user es /\ forall next, chain next ls <-> chain next es) as (-> & -> & -> & Hc);
    [|done].
  induction Hf as [|l e ls es Hle _ (Hg & Hc & Hu & Hn)]; [done|].
  apply same_lineage_eq in Hle as (Eg & Ec & Eu & _ & Ep & _). cbn. rewrite Eg, Ec, Eu, Ep, Hg, Hc, Hu.
  split_and!; [done..|]. intros next. by rewrite Hn.
Qed.

Lemma lock_authority_found tenant (grant : Grants.Grant Task) claimed log0 log fence :
  lock_authority_on uuid stmt clock tenant grant claimed log0 = (log, Ok (Some fence)) ->
  g_tenant grant = tenant /\ exists id parent exact rest log1 log2 log3 locked u,
    uuid (g_id grant) = Some id /\ PgGrantRepository.grant_uuid_opt uuid (g_parent grant) = Ok parent /\
    discover stmt 10 [] (Some id) log0 = (log1, Ok (exact :: rest, true)) /\
    matches_row grant parent exact = true /\
    lock_authority_principals_on stmt grant (exact :: rest) log1 = (log2, Ok u) /\
    relock stmt (exact :: rest) log2 = (log3, Ok locked) /\
    a_revision <$> head locked = Some (g_authority_revision grant) /\ edges_ok locked = true /\
    check_rows claimed clock 0 locked None = Ok (fence_expires_at fence) /\
    log3 `prefix_of` log.
Proof.
  unfold lock_authority_on, PgGrantRepository.grant_uuid. intros H. tx_inv.
  apply negb_false_iff, String.eqb_eq in Heqb. apply ok_or_Ok in E.
  destruct a0 as [rows found]. destruct found; cbn [negb] in H.
  - tx_inv. destruct rows as [|exact rest]; [done|]. tx_inv. subst. split; [done|].
    apply negb_false_iff in Heqb0. apply negb_false_iff, bool_decide_eq_true in Heqb1.
    apply negb_false_iff in Heqb2. injection H as ->.
    apply exec_Ok in E4 as (s & _ & -> & ->).
    eexists a, a0, exact, rest, _, _, _, a2, a1. split_and!; try done. by eexists.
  - destruct ((length rows =? 0)%nat && negb claimed); [|done]. tx_inv. done.
Qed.

Lemma lock_authority_held (tenant : string) (grant : Grants.Grant Task) (claimed : bool)
    (log0 log : list Statement) (fence : Fence) (after : Db) :
  lock_authority_on uuid stmt clock tenant grant claimed log0 = (log, Ok (Some fence)) ->
  locks_hold log after ->
  g_tenant grant = tenant /\
  exists rows, authority uuid after grant claimed clock rows /\ fence_expires_at fence = earliest rows.
Proof.
  intros H Hh. apply lock_authority_found in H as
    (Ht & id & parent & exact & rest & log1 & log2 & log3 & locked & u & Hu & Hp & Hd & Hm & Hpr & Hr & Hrev & He & Hc & Hpre).
  split; [done|]. exists locked.
  assert (locks_hold log3 after) as Hh3 by by eapply locks_prefix.
  apply (relock_Ok _ _ _ _ after) in Hr as (Hp2 & Hf & Hst); [|done].
  apply (principals_Ok _ _ _ _ _ after) in Hpr as (Hp1 & Hcl & Hus); [|by eapply locks_prefix].
  apply discover_Ok in Hd as (_ & Hlen & Hnd & Hch); [|cbn; lia|constructor].
  destruct (Hch eq_refl) as (new & Hnew & Hchain). cbn [app] in Hnew. subst new.
  destruct (same_lineages grant _ _ Hf) as (Eg & Ec & Eu & Echain).
  apply check_rows_Ok in Hc as [Hlive Hexp]. split; [|done].
  constructor; rewrite ?Eg, ?Ec, ?Eu; try done.
  - exists id. split; [done|]. by apply Echain.
  - rewrite <- (length_map a_grant), Eg, length_map. done.
  - inversion Hf as [|l e ls es Hle Hf' El Ee]; subst. cbn in Hrev. injection Hrev as Hrev.
    exists l, ls, parent. split_and!; [done..| |done].
    apply same_lineage_eq in Hle as (_ & E1 & E2 & E3 & E4 & _).
    unfold matches_row in *. by rewrite E1, E2, E3, E4.
Qed.

Lemma lock_issuance_held (tenant : string) (grant : Grants.Grant Task) (log0 log : list Statement)
    (fence : Fence) (after : Db) :
  lock_issuance_authority_on uuid stmt clock tenant grant log0 = (log, Ok fence) ->
  locks_hold log after ->
  g_tenant grant = tenant /\
  exists rows, authority uuid after grant true clock rows /\ fence_expires_at fence = earliest rows.
Proof.
  unfold lock_issuance_authority_on. intros H Hh. tx_inv. destruct a as [f|]; [|done]. tx_inv. subst.
  by eapply lock_authority_held.
Qed.

Lemma lock_exchange_held (tenant : string) (child : Grants.Grant Task) (log0 log : list Statement)
    (fence : Fence) (after : Db) :
  lock_exchange_parent_on uuid stmt clock tenant child log0 = (log, Ok fence) ->
  locks_hold log after ->
  exists parent receipt row rows,
    g_parent child = Some parent /\ g_parent_derivation child = Some receipt /\ pd_parent receipt = parent /\
    a_user row = g_user child /\ a_subject row = g_subject child /\ g_tenant child = tenant /\
    authority uuid after (parent_of child parent (pd_revision receipt) row) true clock rows /\
    fence_expires_at fence = earliest rows.
Proof.
  unfold lock_exchange_parent_on. intros H Hh. tx_inv.
  apply ok_or_Ok in E. subst. apply negb_false_iff, andb_true_iff in Heqb as [Hu Hs].
  apply bool_decide_eq_true in Hu, Hs.
  repeat match goal with E : ok_or _ _ = Ok _ |- _ => apply ok_or_Ok in E end.
  match goal with E : HeldRoles.ofilter _ _ = Some ?x |- _ => rename E into Er; rename x into receipt end.
  unfold HeldRoles.ofilter in Er. destruct (g_parent_derivation child) as [rc|] eqn:Erc; [|done].
  destruct (String.eqb_spec (pd_parent rc) a) as [Hpd|]; [|done]. injection Er as ->.
  apply (lock_issuance_held _ _ _ _ _ after) in H as (Ht & rows & Ha & He); [|done].
  eexists a, receipt, _, rows. split_and!; try done.
Qed.
End Locks.

(** ** The lineage of the store is the lineage the fence walks *)

Lemma chain_lineage f s id rows :
  chain (Some id) rows -> Forall (stored s) rows -> (length rows <= f)%nat ->
  lineage f (grant_rows s) id = Some (map a_grant rows).
Proof.
  revert f id. induction rows as [|a rows IH]; intros f id Hc Hs Hl; [done|].
  destruct f as [|f]; [cbn in Hl; lia|]. rewrite lineage_S. destruct Hc as [[= ->] Hc].
  inversion Hs as [|? ? (r & Hr & Ha) Hs']; subst. rewrite Hr, Ha. cbn [map a_grant authority_row].
  rewrite Ha in Hc. cbn [a_parent authority_row] in Hc.
  destruct (r_parent (record r)) as [p|].
  - rewrite (IH f p) by (done || cbn in Hl; lia). done.
  - by destruct rows as [|b rows]; [|destruct Hc].
Qed.

Section Blocked.
Context {Task : Type}.
Variable uuid : string -> option string.
Variable stmt : nat -> result Db DomainError.
Variable clock : Z.

Lemma authority_lineage s (grant : Grants.Grant Task) claimed id rows l k :
  authority uuid s grant claimed clock rows -> uuid (g_id grant) = Some id ->
  lineage 10 (grant_rows s) id = Some l -> In k l ->
  exists i a r, rows !! i = Some a /\ a_grant a = k /\ grant_rows s !! k = Some r /\
    a = authority_row k r /\ refused claimed i a clock = false.
Proof.
  intros [(id' & Hu' & Hc) Hst Hlen _ _ _ Hlive _ _] Hu Hl Hk. rewrite Hu in Hu'. injection Hu' as <-.
  rewrite (chain_lineage 10 s id rows Hc Hst Hlen) in Hl. injection Hl as <-.
  apply in_map_iff in Hk as (a & <- & Hin). apply list_elem_of_In, list_elem_of_lookup in Hin as [i Hi].
  destruct (proj1 (Forall_lookup _ _) Hst _ _ Hi) as (r & Hr & Ha).
  exists i, a, r. split_and!; try done. by apply Hlive.
Qed.

(** ** A database nothing else writes to *)

Section Still.
Variable s : Db.
Hypothesis still : forall n, stmt n = Ok s.

Lemma exec_still {A} q (f : Db -> A) log : exec stmt q f log = (log ++ [q], Ok (f s)).
Proof. unfold exec. by rewrite still. Qed.

Lemma still_holds log : locks_hold stmt log s.
Proof. intros i q s' _ H. rewrite still in H. injection H as <-. by destruct q; cbn. Qed.

Lemma stored_read a lock log :
  stored s a -> exists log', authority_row_on stmt (a_grant a) lock log = (log', Ok (Some a)).
Proof.
  intros (r & Hr & Ha). unfold authority_row_on. rewrite exec_still, Hr. cbn. rewrite <- Ha. by eexists.
Qed.

Lemma discover_still fuel rows new next log :
  chain next new -> Forall (stored s) new -> NoDup (map a_grant (rows ++ new)) ->
  (length (rows ++ new) <= 10)%nat -> (length new <= fuel)%nat ->
  exists log', discover stmt fuel rows next log = (log', Ok (rows ++ new, true)).
Proof.
  revert fuel rows next log. induction new as [|a new IH]; intros fuel rows next log Hc Hs Hn Hl Hf.
  - cbn in Hc. subst next. rewrite app_nil_r. destruct fuel; by eexists.
  - destruct Hc as [-> Hc]. destruct fuel as [|fuel]; [cbn in Hf; lia|].
    inversion Hs as [|? ? Ha Hs']; subst. cbn [discover].
    assert ((10 <=? length rows)%nat = false) as -> by (apply Nat.leb_gt; rewrite length_app in Hl; cbn in Hl; lia).
    assert (existsb (fun row => String.eqb (a_grant row) (a_grant a)) rows = false) as ->.
    { apply not_true_iff_false. intros (b & Hb & E%String.eqb_eq)%existsb_exists.
      rewrite map_app in Hn. apply NoDup_app in Hn as (_ & Hd & _). apply (Hd (a_grant b)).
      - apply list_elem_of_In, in_map_iff. by exists b.
      - rewrite E. cbn. by left. }
    cbn [orb]. destruct (stored_read a false log Ha) as [log1 H1]. unfold mbind, tx_bind. rewrite H1.
    destruct (IH fuel (rows ++ [a]) (a_parent a) log1) as [log' H']; rewrite <- ?app_assoc; try done.
    + cbn in Hf. lia.
    + exists log'. rewrite H', <- app_assoc. done.
Qed.

Lemma same_lineage_refl a : same_lineage a a = true.
Proof. unfold same_lineage. rewrite !String.eqb_refl, Z.eqb_refl, !bool_decide_eq_true_2 by done. done. Qed.

Lemma relock_still rows log :
  Forall (stored s) rows -> exists log', relock stmt rows log = (log', Ok rows).
Proof.
  intros Hs. revert log. induction Hs as [|a rows Ha _ IH]; intros log; cbn [relock]; [by eexists|].
  destruct (IH log) as [log1 H1]. unfold mbind, tx_bind. rewrite H1.
  destruct (stored_read a true log1 Ha) as [log2 H2]. rewrite H2, same_lineage_refl. by eexists.
Qed.

Lemma principals_still (grant : Grants.Grant Task) rows log :
  (forall c, In c (principal_clients grant rows) -> clients s !! c = Some true) ->
  (forall u, In u (principal_users grant rows) -> users s !! u = Some true) ->
  exists log', lock_authority_principals_on stmt grant rows log = (log', Ok tt).
Proof.
  intros Hc Hu. unfold lock_authority_principals_on, mbind, tx_bind. rewrite exec_still.
  rewrite (proj2 (proj2 (active_all _ _)) Hc), Nat.eqb_refl. cbn [negb]. rewrite exec_still.
  rewrite (proj2 (proj2 (active_all _ _)) Hu), bool_decide_eq_true_2 by done. by eexists.
Qed.

(** On a database nothing else writes to, the statement sequence is its
    declarative reading: the fence is granted exactly to a grant of this tenant
    whose authority holds, and never for want of fuel, rows or locks. *)
Theorem fence_decides_authority (tenant : string) (grant : Grants.Grant Task) (claimed : bool) (log0 : list Statement) :
  (exists log fence, lock_authority_on uuid stmt clock tenant grant claimed log0 = (log, Ok (Some fence))) <->
  g_tenant grant = tenant /\ exists rows, authority uuid s grant claimed clock rows.
Proof.
  split.
  - intros (log & fence & H). apply lock_authority_held with (after := s) in H as (Ht & rows & Ha & _);
      [|apply still_holds]. eauto.
  - intros (Ht & rows & [(id & Hu & Hc) Hst Hlen Hnd (exact & rest & parent & -> & Hp & Hm & Hrev) He Hlive Hcl Hus]).
    unfold lock_authority_on, PgGrantRepository.grant_uuid.
    rewrite (proj2 (String.eqb_eq _ _) Ht), Hu. cbn [negb ok_or].
    destruct (discover_still 10 [] (exact :: rest) (Some id) log0) as [log1 H1]; [done..|].
    destruct (principals_still grant (exact :: rest) log1 Hcl Hus) as [log2 H2].
    destruct (relock_still (exact :: rest) log2 Hst) as [log3 H3].
    assert (check_rows claimed clock 0 (exact :: rest) None = Ok (earliest (exact :: rest))) as Hcr
      by (apply check_rows_Ok; split; [exact Hlive|done]).
    erewrite bind_run by done. rewrite (bind_run _ _ _ _ _ H1). cbn [app negb].
    erewrite bind_run by (unfold lift; by rewrite Hp). rewrite Hm. cbn [negb].
    rewrite (bind_run _ _ _ _ _ H2), (bind_run _ _ _ _ _ H3).
    cbn [head fmap option_fmap option_map]. rewrite Hrev, bool_decide_eq_true_2 by done. cbn [negb].
    rewrite He. cbn [negb]. erewrite bind_run by apply exec_still.
    erewrite bind_run by (unfold lift; by rewrite Hcr). by eexists _, _.
Qed.
End Still.

(** C32: What a fence decided stays true for as long as its locks are held. However
    other transactions change the rows between its statements - the lineage is
    discovered before it is locked, and may change in between - a fence granted for
    an issuance means that in the database the caller goes on with, the whole
    lineage is the one that was checked: at most ten rows without a cycle up to a
    root, each claimed, unrevoked and unexpired at the fence's clock, each naming
    its parent's current generation, the grant's generation the one in hand, every
    client and person of it active; it expires with the first of them. An exchange
    gets the same of the parent its receipt names, and a preflight of any grant
    that exists, claimed or not. *)
Theorem fence_is_held (tenant : string) (grant : Grants.Grant Task) (log : list Statement)
    (after : Db) :
  locks_hold stmt log after ->
  (forall fence, lock_issuance_authority_on uuid stmt clock tenant grant [] = (log, Ok fence) ->
     exists rows, authority uuid after grant true clock rows /\ fence_expires_at fence = earliest rows) /\
  (forall fence, lock_exchange_parent_on uuid stmt clock tenant grant [] = (log, Ok fence) ->
     exists parent receipt row rows, g_parent grant = Some parent /\
       g_parent_derivation grant = Some receipt /\ pd_parent receipt = parent /\
       a_user row = g_user grant /\ a_subject row = g_subject grant /\
       authority uuid after (parent_of grant parent (pd_revision receipt) row) true clock rows /\
       fence_expires_at fence = earliest rows) /\
  (forall fence, lock_authorization_preflight_on uuid stmt clock tenant grant [] = (log, Ok (Some fence)) ->
     exists rows, authority uuid after grant false clock rows /\ fence_expires_at fence = earliest rows).
Proof.
  intros Hh. split_and!; intros fence H.
  - by apply lock_issuance_held with (after := after) in H as [_ ?].
  - apply lock_exchange_held with (after := after) in H as (p & rc & row & rows & ? & ? & ? & ? & ? & _ & ? & ?);
      [|done]. by exists p, rc, row, rows.
  - by apply lock_authority_held with (after := after) in H as [_ ?].
Qed.

Section Store.
Variable tenant : string.
Variable Url : Type.
Variable url_parse : string -> option Url.
Variable url_has_fragment : Url -> bool.
Variable url_cannot_be_a_base : Url -> bool.
Variable jsonb_eqb : value -> value -> bool.
Variable assurance_proof :
  Db -> string -> Z -> option string -> list string -> option (Z * string * list string).
Variable attested_move : Db -> string -> GrantRecord -> GrantRecord -> bool.

Abbreviation history := (PgGrantRepository.history (Task := Task) tenant uuid Url url_parse url_has_fragment
  url_cannot_be_a_base jsonb_eqb assurance_proof attested_move).
Abbreviation amend := (PgGrantRepository.amend (Task := Task) tenant uuid jsonb_eqb attested_move).

(** A withdrawal stops issuance below it. Once a grant has been revoked, at any
    point of the repository's history, no later transaction is granted a fence for
    it or for anything derived from it, at whatever depth, by whatever value of the
    grant the caller still holds. *)
Theorem revocation_blocks_descendants (s s0 : Db) (past : list Db) (grant : Grants.Grant Task)
    (id k : string) (l : list string) (r0 : Row) (log : list Statement) (fence : Fence) :
  history (s :: past) -> In s0 (s :: past) ->
  grant_rows s0 !! k = Some r0 -> is_Some (r_revoked_at (record r0)) ->
  uuid (g_id grant) = Some id -> lineage 10 (grant_rows s) id = Some l -> In k l ->
  locks_hold stmt log s ->
  lock_issuance_authority_on uuid stmt clock tenant grant [] <> (log, Ok fence).
Proof.
  intros Hh Hin Hr0 Hrev Hu Hl Hk Hlocks H.
  destruct (grants_invariant _ _ _ _ _ _ _ _ _ _ Hh _ _ eq_refl) as [_ Hkeep].
  destruct (Hkeep _ Hin _ _ Hr0 (or_intror Hrev)) as (r & Hr & (_&_&_&_&_&_&_&_&Hst)).
  destruct Hrev as [t0 Ht0]. apply Hst in Ht0 as [Ht0 _].
  apply lock_issuance_held with (after := s) in H as (_ & rows & Ha & _); [|done].
  destruct (authority_lineage s grant true id rows l k Ha Hu Hl Hk) as (i & a & r' & _ & _ & Hr' & -> & Hno).
  rewrite Hr in Hr'. injection Hr' as <-. unfold refused in Hno. cbn in Hno. by rewrite Ht0 in Hno.
Qed.

(** The generation of every edge of a lineage is the parent's current one. *)
Lemma edges_lookup rows i c p :
  edges_ok rows = true -> rows !! i = Some c -> rows !! S i = Some p ->
  a_parent_revision c = Some (a_revision p).
Proof.
  revert i. induction rows as [|a rows IH]; intros i He Hc Hp; [done|].
  destruct rows as [|b rows]; [destruct i; discriminate Hp|].
  cbn [edges_ok] in He. apply andb_true_iff in He as [Hab He]. apply bool_decide_eq_true in Hab.
  destruct i as [|i]; [cbn in Hc, Hp; by simplify_eq|]. by apply (IH i).
Qed.

Lemma chain_next rows next i a p :
  chain next rows -> rows !! i = Some a -> a_parent a = Some p ->
  exists b, rows !! S i = Some b /\ a_grant b = p.
Proof.
  revert next i. induction rows as [|x rows IH]; intros next i Hc Ha Hp; [done|].
  destruct Hc as [_ Hc]. destruct i as [|i]; [|by apply (IH (a_parent x) i)].
  cbn in Ha. injection Ha as ->. rewrite Hp in Hc.
  destruct rows as [|b rows]; [discriminate Hc|]. destruct Hc as [[= ->] _]. by exists b.
Qed.

(** An amendment that changes what a grant permits, or the authentication behind
    it, withdraws every authority derived from the generation before: neither the
    holder of the value read earlier nor a descendant whose receipt names that
    generation is granted a fence again. *)
Theorem amendment_withdraws_derived_authority (s s' : Db) (g grant : Grants.Grant Task)
    (now at_ fresh : Z) (key id : string) (r c : Row) (child : string) (l : list string)
    (log : list Statement) (fence : Fence) :
  amend s g now at_ fresh = Ok s' -> uuid (g_id g) = Some key -> grant_rows s !! key = Some r ->
  PgGrantRepository.same_authority jsonb_eqb attested_move s key (record r)
    (PgGrantRepository.amended g at_ (record r)) = false ->
  fresh <> authority_revision r ->
  uuid (g_id grant) = Some id -> lineage 10 (grant_rows s') id = Some l ->
  (id = key /\ g_authority_revision grant = authority_revision r \/
   In child l /\ grant_rows s' !! child = Some c /\ r_parent (record c) = Some key /\
   parent_authority_revision c = Some (authority_revision r)) ->
  locks_hold stmt log s' ->
  lock_issuance_authority_on uuid stmt clock tenant grant [] <> (log, Ok fence).
Proof.
  intros Ha Hu Hr Hdiff Hfresh Hgu Hl Hcase Hlocks H.
  assert (exists r', grant_rows s' !! key = Some r' /\ authority_revision r' = fresh) as (r' & Hr' & Hrev').
  { apply amend_Ok in Ha as (key' & r1 & Hu' & Hr1 & _ & -> & _). rewrite Hu in Hu'. injection Hu' as <-.
    rewrite Hr in Hr1. injection Hr1 as <-. eexists. split; [by rewrite lookup_insert, decide_True|].
    cbn. by rewrite Hdiff. }
  apply lock_issuance_held with (after := s') in H as (_ & rows & Hau & _); [|done].
  destruct Hcase as [[-> Hold]|(Hin & Hc & Hp & Hpr)].
  - destruct (auth_exact _ _ _ _ _ _ Hau) as (x & rest & parent & -> & _ & _ & Hx).
    destruct (auth_chain _ _ _ _ _ _ Hau) as (id' & Hu' & [[= Hid] _]). rewrite Hgu in Hu'. injection Hu' as <-.
    pose proof (auth_stored _ _ _ _ _ _ Hau) as Hst. inversion Hst as [|? ? (y & Hy & Hxy) _]; subst.
    rewrite Hr' in Hy. injection Hy as <-. rewrite Hxy in Hx. cbn in Hx. congruence.
  - destruct (authority_lineage s' grant true id rows l child Hau Hgu Hl Hin) as (i & a & c' & Hi & _ & Hc' & -> & _).
    rewrite Hc in Hc'. injection Hc' as <-.
    destruct (auth_chain _ _ _ _ _ _ Hau) as (id' & _ & Hch).
    destruct (chain_next _ _ _ _ key Hch Hi Hp) as (b & Hb & Hbk).
    pose proof (edges_lookup _ _ _ _ (auth_edges _ _ _ _ _ _ Hau) Hi Hb) as He. cbn in He.
    destruct (proj1 (Forall_lookup _ _) (auth_stored _ _ _ _ _ _ Hau) _ _ Hb) as (y & Hy & Hby).
    rewrite Hbk, Hr' in Hy. injection Hy as <-. rewrite Hby in He. cbn in He. congruence.
Qed.
End Store.
End Blocked.

(** ** A fence over the sample store *)

Definition still_db (s : Db) : nat -> result Db DomainError := fun _ => Ok s.

Lemma still_db_holds s log : locks_hold (still_db s) log s.
Proof. intros i q s' _ [= <-]. by destruct q; cbn. Qed.

(** An amendment that adds a scope. *)
Definition sample_amended : Grants.Grant () :=
  PgGrantRepository.with_authority
    {| g_tenant := "t"; g_id := "g"; g_client := "c"; g_user := None; g_subject := None;
       g_scopes := ["openid"%string]; g_claims := VObject []; g_claims_locales := [];
       g_authorization_details := []; g_resources := []; g_actor_chain := []; g_parent := None;
       g_parent_derivation := None; g_task := None; g_session := None; g_authentication := None;
       g_created_at := 10; g_updated_at := 10; g_authority_revision := 0; g_expires_at := None;
       g_revoked_at := None; g_revocation_reason := None; g_claimed_at := Some 20 |} 7 None.
Definition db2_amended : Db :=
  match PgGrantRepository.amend (Task := ()) "t" sample_uuid value_eqb sample_move db2 sample_amended 50 51 9 with
  | Ok s => s | Err _ => db2 end.

Definition fence_run (s : Db) (g : Grants.Grant ()) :=
  lock_issuance_authority_on sample_uuid (still_db s) 60 "t" g [].

Example fence_granted :
  fence_run db2 sample_grant =
    ([RowRead "g"; ClientsShare ["c"%string]; UsersShare []; RowShare "g"; Clock],
     Ok {| fence_expires_at := None |}).
Proof. vm_compute. reflexivity. Qed.

Lemma fence_is_held_witness :
  exists rows, authority sample_uuid db2 sample_grant true 60 rows /\ None = earliest rows.
Proof.
  pose proof (fence_is_held (Task := ()) sample_uuid (still_db db2) 60 "t" sample_grant
    [RowRead "g"; ClientsShare ["c"%string]; UsersShare []; RowShare "g"; Clock] db2
    (still_db_holds db2 _)) as [H _].
  apply (H {| fence_expires_at := None |}). vm_compute. reflexivity.
Defined.

Lemma fence_decides_authority_witness :
  g_tenant sample_grant = "t"%string /\ exists rows, authority sample_uuid db2 sample_grant true 60 rows.
Proof.
  apply (proj1 (fence_decides_authority (Task := ()) sample_uuid (still_db db2) 60 db2 (fun n => eq_refl)
    "t" sample_grant true [])).
  eexists _, _. vm_compute. reflexivity.
Defined.

Lemma revocation_blocks_descendants_witness :
  exists out, out = fence_run db4 sample_grant /\ forall log fence, out <> (log, Ok fence).
Proof.
  eexists. split; [reflexivity|]. intros log fence.
  apply (revocation_blocks_descendants (Task := ()) sample_uuid (still_db db4) 60 "t" string Some is_empty
    is_empty value_eqb sample_proof sample_move db4 db4 [db3; db2; db1; db0] sample_grant "g" "g"
    ["g"%string] (row_at db4)).
  - apply sample_grant_history.
  - cbn. tauto.
  - vm_compute. reflexivity.
  - vm_compute. by eexists.
  - reflexivity.
  - vm_compute. reflexivity.
  - cbn. tauto.
  - apply still_db_holds.
Defined.

Lemma amendment_withdraws_derived_authority_witness :
  exists out, out = fence_run db2_amended sample_grant /\ forall log fence, out <> (log, Ok fence).
Proof.
  eexists. split; [reflexivity|]. intros log fence.
  apply (amendment_withdraws_derived_authority (Task := ()) sample_uuid (still_db db2_amended) 60 "t"
    value_eqb sample_move db2 db2_amended sample_amended sample_grant 50 51 9 "g" "g"
    (row_at db2) (row_at db2) "g" ["g"%string]).
  - vm_compute. reflexivity.
  - reflexivity.
  - vm_compute. reflexivity.
  - vm_compute. reflexivity.
  - vm_compute. discriminate.
  - reflexivity.
  - vm_compute. reflexivity.
  - left. split; [reflexivity|]. vm_compute. reflexivity.
  - apply still_db_holds.
Defined.
