(* ===== verification/Device.v ===== *)
(** * The device authorization grant

    RFC 8628: the user code ([crates/oidc/src/device.rs]), the repository
    ([crates/store-pg/src/device_codes.rs]), the answer on the verification page
    ([crates/server/src/http/device.rs]) and the redemption at the token endpoint
    ([crates/server/src/http/device_code.rs]) up to the claim of the grant.

    One tenant's rows. Every operation of the repository is one statement, so any
    interleaving of requests is a sequence of operations. *)

From S2P Require Import Prelude BTree Json Session RateLimit.
From S2P Require Import Refresh.
From S2P Require Import Grants.
From S2P Require Import GrantStore.
From S2P Require Import Codes.
Open Scope Z_scope.

(** ** The user code *)

Definition USER_CODE_ALPHABET : list Z := bytes_of "BCDFGHJKLMNPQRSTVWXZ".
Definition USER_CODE_LENGTH : nat := 8.
Definition USER_CODE_GROUP : nat := 4.
Definition DEVICE_CODE_BITS : Z := 256.
Definition POLL_INTERVAL : Z := 5 * NANOS.
Definition SLOW_DOWN_INCREMENT : Z := 5 * NANOS.
Definition MAX_LIFETIME : Z := 600 * NANOS.

(** [u8::is_ascii_whitespace] and [u8::to_ascii_uppercase]. *)
Definition is_ascii_whitespace (b : Z) : bool :=
  (b =? 9) || (b =? 10) || (b =? 12) || (b =? 13) || (b =? 32).
Definition to_ascii_uppercase (b : Z) : Z := if is_ascii_lower b then b - 32 else b.

Definition in_alphabet (b : Z) : bool := existsb (Z.eqb b) USER_CODE_ALPHABET.

(** The loop of [parse] over the bytes presented; codes are bytes. *)
Fixpoint canonicalise (bytes canonical : list Z) : option (list Z) :=
  match bytes with
  | [] => Some canonical
  | byte :: rest =>
      if (byte =? 45) || is_ascii_whitespace byte then canonicalise rest canonical
      else
        let upper := to_ascii_uppercase byte in
        if negb (in_alphabet upper) then None
        else if (length canonical =? USER_CODE_LENGTH)%nat then None
        else canonicalise rest (canonical ++ [upper])
  end.

(** [UserCode::parse]. *)
Definition parse_user_code (presented : list Z) : option (list Z) :=
  if (64 <? length presented)%nat then None
  else
    match canonicalise presented [] with
    | Some canonical => if (length canonical =? USER_CODE_LENGTH)%nat then Some canonical else None
    | None => None
    end.

(** [UserCode::formatted]. *)
Definition formatted (code : list Z) : list Z :=
  firstn USER_CODE_GROUP code ++ [45] ++ skipn USER_CODE_GROUP code.

(** The bytes kept of one draw of [generate]: those below the largest multiple of
    the alphabet's length, each naming the letter it leaves. *)
Definition drawn (buffer : list Z) : list Z :=
  map (fun byte => nth (Z.to_nat (byte mod 20)) USER_CODE_ALPHABET 0)
    (List.filter (fun byte => byte <? 255 / 20 * 20) buffer).
Definition generated (buffers : list (list Z)) : option (list Z) :=
  let code := firstn USER_CODE_LENGTH (concat (map drawn buffers)) in
  if (length code =? USER_CODE_LENGTH)%nat then Some code else None.

(** ** The repository *)

Inductive DeviceStatus : Type := DPending | DApproved | DDenied.

#[export] Instance device_status_eq_dec : EqDecision DeviceStatus.
Proof. solve_decision. Defined.

(** A row of [device_codes]; the interval is in seconds. *)
Record DeviceRow : Type := {
  d_user_code : list Z;
  d_client : string;
  d_scopes : list string;
  d_details : value;
  d_issued_at : Z;
  d_expires_at : Z;
  d_interval : Z;
  d_last_polled_at : option Z;
  d_status : DeviceStatus;
  d_user : option string;
  d_grant : option string;
  d_approved_at : option Z;
  d_redeemed_at : option Z;
  d_failed_attempts : Z;
  d_jkt : option string
}.

Abbreviation Devices := (gmap (list Z) DeviceRow).

Record NewDeviceAuthorization : Type := {
  n_client : string;
  n_scopes : list string;
  n_jkt : option string;
  n_details : value;
  n_expires_at : Z;
  n_interval : Z
}.

Record PendingDevice : Type := {
  p_client : string;
  p_scopes : list string;
  p_details : value;
  p_expires_at : Z;
  p_failed_attempts : Z
}.

Inductive Poll : Type :=
| PollPending
| PollSlowDown (interval : Z)
| PollApproved
| PollDenied
| PollExpired
| PollSpent.

Record Polled : Type := { polled_client : string; polled_state : Poll }.

Record RedeemedDevice : Type := {
  rd_client : string;
  rd_grant : string;
  rd_jkt : option string
}.

(** The columns the statements write, one writer each. *)
Definition with_poll (r : DeviceRow) (interval now : Z) : DeviceRow := {|
  d_user_code := d_user_code r; d_client := d_client r; d_scopes := d_scopes r;
  d_details := d_details r; d_issued_at := d_issued_at r; d_expires_at := d_expires_at r;
  d_interval := interval; d_last_polled_at := Some now; d_status := d_status r; d_user := d_user r;
  d_grant := d_grant r; d_approved_at := d_approved_at r; d_redeemed_at := d_redeemed_at r;
  d_failed_attempts := d_failed_attempts r; d_jkt := d_jkt r |}.

Definition with_redeemed (r : DeviceRow) (now : Z) : DeviceRow := {|
  d_user_code := d_user_code r; d_client := d_client r; d_scopes := d_scopes r;
  d_details := d_details r; d_issued_at := d_issued_at r; d_expires_at := d_expires_at r;
  d_interval := d_interval r; d_last_polled_at := d_last_polled_at r; d_status := d_status r;
  d_user := d_user r; d_grant := d_grant r; d_approved_at := d_approved_at r;
  d_redeemed_at := Some now; d_failed_attempts := d_failed_attempts r; d_jkt := d_jkt r |}.

Definition with_decision (r : DeviceRow) (status : DeviceStatus) (user grant : option string)
    (approved_at : option Z) (failed : Z) : DeviceRow := {|
  d_user_code := d_user_code r; d_client := d_client r; d_scopes := d_scopes r;
  d_details := d_details r; d_issued_at := d_issued_at r; d_expires_at := d_expires_at r;
  d_interval := d_interval r; d_last_polled_at := d_last_polled_at r; d_status := status;
  d_user := user; d_grant := grant; d_approved_at := approved_at;
  d_redeemed_at := d_redeemed_at r; d_failed_attempts := failed; d_jkt := d_jkt r |}.

(** The seconds of an [i32]. *)
Definition seconds_i32 (d : Z) : result Z DomainError :=
  let s := whole_seconds d in
  guard? in_range (-2147483648) 2147483647 s else Invalid "interval" in Ok s.

(** [status = 'pending' and expires_at > now]. *)
Definition is_pending (now : Z) (r : DeviceRow) : bool :=
  bool_decide (d_status r = DPending) && (now <? d_expires_at r).

Definition too_fast (now : Z) (r : DeviceRow) : bool :=
  is_some_and (fun previous => now <? previous + d_interval r * NANOS) (d_last_polled_at r).

(** What the row says of itself at a poll, before the poll is recorded. *)
Definition poll_state (r : DeviceRow) (new_interval now : Z) : Poll :=
  if d_expires_at r <=? now then PollExpired
  else if match d_redeemed_at r with Some _ => true | None => false end then PollSpent
  else
    match d_status r with
    | DApproved => PollApproved
    | DDenied => PollDenied
    | DPending => if too_fast now r then PollSlowDown new_interval else PollPending
    end.

(** An [update] of the rows with a user code that satisfy the rest of the [where]
    clause, and how many those were. *)
Definition named (user : list Z) (p : DeviceRow -> bool) (r : DeviceRow) : bool :=
  bool_decide (d_user_code r = user) && p r.
Definition update_named (m : Devices) (user : list Z) (p : DeviceRow -> bool)
    (f : DeviceRow -> DeviceRow) : Devices * nat :=
  ((fun r => if named user p r then f r else r) <$> m,
   size (filter (fun kr => named user p kr.2 = true) m)).

Section Devices.
Variable hex_decode : string -> option (list Z).
Variable uuid : string -> option string.

Definition digest_bytes (name digest : string) : result (list Z) DomainError :=
  ok_or (hex_decode digest) (Invalid name).

(** The schema's checks: the lifetime, the interval's floor, both digests new; the
    client exists. *)
Definition issue (clients : gmap string bool) (m : Devices) (device_code_digest user_code_digest : string)
    (request : NewDeviceAuthorization) (now : Z) : result Devices DomainError :=
  let? device := digest_bytes "device_code" device_code_digest in
  let? user := digest_bytes "user_code" user_code_digest in
  let? interval := seconds_i32 (n_interval request) in
  guard? (n_expires_at request <=? now + MAX_LIFETIME) && (5 <=? interval) else Storage in
  guard? bool_decide (m !! device = None)
         && (size (filter (fun kr => named user (fun _ => true) kr.2 = true) m) =? 0)%nat
    else Conflict in
  guard? bool_decide (is_Some (clients !! n_client request)) else Conflict in
  Ok (<[device := {|
    d_user_code := user; d_client := n_client request; d_scopes := n_scopes request;
    d_details := n_details request; d_issued_at := now; d_expires_at := n_expires_at request;
    d_interval := interval; d_last_polled_at := None; d_status := DPending; d_user := None;
    d_grant := None; d_approved_at := None; d_redeemed_at := None; d_failed_attempts := 0;
    d_jkt := n_jkt request |}]> m).

Definition poll (m : Devices) (device_code_digest : string) (slow_down now : Z)
    : Devices * result (option Polled) DomainError :=
  match digest_bytes "device_code" device_code_digest with
  | Err e => (m, Err e)
  | Ok device =>
      match seconds_i32 slow_down with
      | Err e => (m, Err e)
      | Ok increment =>
          match m !! device with
          | None => (m, Ok None)
          | Some r =>
              let new_interval :=
                if bool_decide (d_status r <> DApproved) && too_fast now r
                then d_interval r + increment else d_interval r in
              if 2147483647 <? new_interval then (m, Err Storage)
              else
                (<[device := with_poll r new_interval now]> m,
                 Ok (Some {| polled_client := d_client r;
                             polled_state := poll_state r new_interval now |}))
          end
      end
  end.

Definition redeemable (now : Z) (r : DeviceRow) : bool :=
  bool_decide (d_status r = DApproved)
  && match d_redeemed_at r with None => true | Some _ => false end
  && (now <? d_expires_at r).

Definition redeem (m : Devices) (device_code_digest : string) (now : Z)
    : Devices * result (option RedeemedDevice) DomainError :=
  match digest_bytes "device_code" device_code_digest with
  | Err e => (m, Err e)
  | Ok device =>
      match m !! device with
      | Some r =>
          if redeemable now r then
            (<[device := with_redeemed r now]> m,
             Ok match d_grant r with
                | Some grant => Some {| rd_client := d_client r; rd_grant := grant; rd_jkt := d_jkt r |}
                | None => None
                end)
          else (m, Ok None)
      | None => (m, Ok None)
      end
  end.

(** The row a [select] by user code returns; the code is unique. *)
Definition pending (m : Devices) (user_code_digest : string) (now : Z)
    : result (option PendingDevice) DomainError :=
  let? user := digest_bytes "user_code" user_code_digest in
  Ok match map_to_list (filter (fun kr => named user (is_pending now) kr.2 = true) m) with
     | (_, r) :: _ => Some {| p_client := d_client r; p_scopes := d_scopes r; p_details := d_details r;
                              p_expires_at := d_expires_at r; p_failed_attempts := d_failed_attempts r |}
     | [] => None
     end.

(** The person and the grant exist: their foreign keys hold. *)
Definition approve (m : Devices) (user_code_digest user grant : string) (now : Z)
    : Devices * result bool DomainError :=
  match digest_bytes "user_code" user_code_digest, ok_or (uuid grant) (Invalid "grant_id") with
  | Err e, _ | Ok _, Err e => (m, Err e)
  | Ok code, Ok grant =>
      let '(m', n) := update_named m code (is_pending now) (fun r =>
        with_decision r DApproved (Some user) (Some grant) (Some now) (d_failed_attempts r)) in
      (m', Ok (n =? 1)%nat)
  end.

Definition deny (m : Devices) (user_code_digest : string) (now : Z)
    : Devices * result bool DomainError :=
  match digest_bytes "user_code" user_code_digest with
  | Err e => (m, Err e)
  | Ok code =>
      let '(m', n) := update_named m code (is_pending now) (fun r =>
        with_decision r DDenied (d_user r) (d_grant r) (d_approved_at r) (d_failed_attempts r)) in
      (m', Ok (n =? 1)%nat)
  end.

(** One failed confirmation counted on a row. *)
Definition failed (ceiling : Z) (r : DeviceRow) : DeviceRow :=
  with_decision r
    (if (ceiling <=? d_failed_attempts r + 1) && bool_decide (d_status r = DPending)
     then DDenied else d_status r)
    (d_user r) (d_grant r) (d_approved_at r) (d_failed_attempts r + 1).

Definition record_failure (m : Devices) (user_code_digest : string) (ceiling now : Z)
    : Devices * result Z DomainError :=
  match digest_bytes "user_code" user_code_digest with
  | Err e => (m, Err e)
  | Ok code =>
      let live r := now <? d_expires_at r in
      let '(m', _) := update_named m code live (failed ceiling) in
      (m', Ok match map_to_list (filter (fun kr => named code live kr.2 = true) m) with
              | (_, r) :: _ => d_failed_attempts r + 1
              | [] => 0
              end)
  end.

(** The retention sweep of a batch, five minutes after the end. *)
Definition sweep_devices (m : Devices) (now : Z) (picked : list (list Z)) : Devices :=
  filter (fun kr => ~ (kr.1 ∈ picked /\ d_expires_at kr.2 <= now - 5 * MINUTE)) m.

(** [on delete set null]. *)
Definition grant_deleted (m : Devices) (grant : string) : Devices :=
  (fun r => if bool_decide (d_grant r = Some grant)
            then with_decision r (d_status r) (d_user r) None (d_approved_at r) (d_failed_attempts r)
            else r) <$> m.
End Devices.

(** ** The token endpoint *)

(** What a refusal says, and a failure of the server's own. *)
Inductive DeviceFailure : Type := DClient (code : string) | DServer (e : DomainError).

Definition invalid_device : DeviceFailure := DClient "invalid_grant".

Definition from_domain (e : DomainError) : DeviceFailure :=
  match e with
  | Invalid "agent_task" => DClient "invalid_grant"
  | Invalid "conditional_access" => DClient "access_denied"
  | other => DServer other
  end.

Section Handler.
Context {Task : Type}.
Variable hex_decode : string -> option (list Z).
Variable uuid : string -> option string.
Variable sha256_hex : string -> string.
Variable sha256_b64 : string -> string.
Variable find : Db -> string -> result (option (Grants.Grant Task)) DomainError.
Variable claim : Db -> string -> Z -> Db * result ClaimedGrant DomainError.

(** [device_code_digest_of]: 256 bits of base64url. *)
Definition device_code_digest_of (presented : string) : result string unit :=
  if negb (slen presented =? (DEVICE_CODE_BITS + 5) / 6)
     || negb (all_bytes opaque_byte presented) then Err tt
  else Ok (sha256_hex presented).

(** [spent]: the poll, the answers of RFC 8628 §3.5, then the spend. *)
Definition poll_answer (state : Poll) : result unit DeviceFailure :=
  match state with
  | PollApproved => Ok tt
  | PollPending => Err (DClient "authorization_pending")
  | PollSlowDown _ => Err (DClient "slow_down")
  | PollDenied => Err (DClient "access_denied")
  | PollExpired => Err (DClient "expired_token")
  | PollSpent => Err invalid_device
  end.

(** The two statements of [spent]; [between] is what other requests do after the
    first. *)
Definition spent (m : Devices) (between : Devices -> Devices) (client digest : string) (now : Z)
    : Devices * result RedeemedDevice DeviceFailure :=
  match poll hex_decode m digest SLOW_DOWN_INCREMENT now with
  | (m, Err e) => (m, Err (from_domain e))
  | (m, Ok None) => (m, Err invalid_device)
  | (m, Ok (Some polled)) =>
      if negb (String.eqb (polled_client polled) client) then (m, Err invalid_device)
      else
        match poll_answer (polled_state polled) with
        | Err e => (m, Err e)
        | Ok _ =>
            match redeem hex_decode (between m) digest now with
            | (m, Err e) => (m, Err (from_domain e))
            | (m, Ok None) => (m, Err invalid_device)
            | (m, Ok (Some redeemed)) =>
                (m, if negb (String.eqb (rd_client redeemed) client) then Err invalid_device
                    else Ok redeemed)
            end
        end
  end.

(** The key-bound ID token's checks: the pinned key, and the digest of the device
    code the proof carries. *)
Definition bound_key_ok (scopes : list string) (dpop_bound : bool)
    (proof : option (string * option string)) (jkt : option string) (presented : string) : bool :=
  if negb (bset_mem "bound_key"%string scopes) then true
  else
    match proof with
    | None => false
    | Some (key, code_hash) =>
        bset_mem "openid"%string scopes && dpop_bound && bool_decide (jkt = Some key)
        && is_some_and (fun hash => ct_eq (bytes_of hash) (bytes_of (sha256_b64 presented))) code_hash
    end.

(** The redemption up to the claim. [confirmation] is whether the request can be
    bound to a sender, decided before anything is spent; [proof] its DPoP key and
    the code hash of the proof. *)
Definition redeem_device (s : Db) (m : Devices) (between : Devices -> Devices) (client : string)
    (dpop_bound : bool) (confirmation : result unit DeviceFailure)
    (proof : option (string * option string)) (params : list (string * list string)) (now : Z)
    : (Db * Devices) * result ClaimedGrant DeviceFailure :=
  match
    let? sent := map_err (fun _ => DClient "invalid_request") (get params "device_code") in
    let? presented := ok_or sent (DClient "invalid_request") in
    let? digest := map_err (fun _ => invalid_device) (device_code_digest_of presented) in
    let? _ := confirmation in
    Ok (presented, digest)
  with
  | Err e => ((s, m), Err e)
  | Ok (presented, digest) =>
      match spent m between client digest now with
      | (m, Err e) => ((s, m), Err e)
      | (m, Ok redeemed) =>
          match
            let? found := map_err from_domain (find s (rd_grant redeemed)) in
            let? grant := ok_or found invalid_device in
            guard? GrantStatus.may_issue (Grants.Grant.status grant now) else invalid_device in
            guard? bound_key_ok (g_scopes grant) dpop_bound proof (rd_jkt redeemed) presented
              else invalid_device in
            Ok tt
          with
          | Err e => ((s, m), Err e)
          | Ok _ =>
              match claim s (rd_grant redeemed) now with
              | (s, r) => ((s, m), map_err from_domain r)
              end
          end
      end
  end.

(** ** The verification page *)

Definition FAILURES_PER_CODE : Z := 10.

(** [confirm] after the session and the form are checked: what becomes of the rows
    and whether the page reports an approval; [grant] is the one [approval] creates,
    and [between] what other requests do to the rows meanwhile. *)
Definition confirm (m : Devices) (between : Devices -> Devices) (user_code_digest : string)
    (confirmed : bool) (user : string) (grant : option string) (now : Z)
    : Devices * result bool DomainError :=
  if negb confirmed then
    match deny hex_decode m user_code_digest now with
    | (m, Ok _) => (m, Ok false)
    | (m, Err e) => (m, Err e)
    end
  else
    match pending hex_decode m user_code_digest now with
    | Err e => (m, Err e)
    | Ok None => (m, Ok false)
    | Ok (Some _) =>
        match grant with
        | None => (m, Err Storage)
        | Some grant =>
            match approve hex_decode uuid (between m) user_code_digest user grant now with
            | (m, Err e) => (m, Err e)
            | (m, Ok true) => (m, Ok true)
            | (m, Ok false) => (fst (record_failure hex_decode m user_code_digest FAILURES_PER_CODE now), Ok false)
            end
        end
    end.
End Handler.

(** ** Histories *)

Inductive Event : Type :=
| EIssued (device : list Z) (request : NewDeviceAuthorization) (now : Z)
| EApproved (device : list Z) (user grant : string) (now : Z)
| ERedeemed (device : list Z) (redeemed : RedeemedDevice) (now : Z).

Definition issues (d : list Z) (e : Event) : bool :=
  match e with EIssued d' _ _ => bool_decide (d' = d) | _ => false end.
Definition redeems (d : list Z) (e : Event) : bool :=
  match e with ERedeemed d' _ _ => bool_decide (d' = d) | _ => false end.
Definition tally (p : Event -> bool) (log : list Event) : nat := length (List.filter p log).

Section History.
Variable hex_decode : string -> option (list Z).
Variable uuid : string -> option string.

(** One statement of some request, with what it told its caller. *)
Inductive dev_step : Devices * list Event -> Devices * list Event -> Prop :=
| dev_issue m log clients digest user d request now m' :
    hex_decode digest = Some d -> issue hex_decode clients m digest user request now = Ok m' ->
    dev_step (m, log) (m', EIssued d request now :: log)
| dev_poll m log digest slow_down now : dev_step (m, log) (fst (poll hex_decode m digest slow_down now), log)
| dev_redeem m log digest d now m' redeemed :
    hex_decode digest = Some d -> redeem hex_decode m digest now = (m', Ok (Some redeemed)) ->
    dev_step (m, log) (m', ERedeemed d redeemed now :: log)
| dev_redeem_none m log digest now :
    (forall rd, snd (redeem hex_decode m digest now) <> Ok (Some rd)) ->
    dev_step (m, log) (fst (redeem hex_decode m digest now), log)
| dev_approve m log digest code user grant g now m' d r :
    hex_decode digest = Some code -> uuid grant = Some g ->
    approve hex_decode uuid m digest user grant now = (m', Ok true) ->
    m !! d = Some r -> named code (is_pending now) r = true ->
    dev_step (m, log) (m', EApproved d user g now :: log)
| dev_approve_none m log digest user grant now :
    snd (approve hex_decode uuid m digest user grant now) <> Ok true ->
    dev_step (m, log) (fst (approve hex_decode uuid m digest user grant now), log)
| dev_deny m log digest now : dev_step (m, log) (fst (deny hex_decode m digest now), log)
| dev_failure m log digest ceiling now :
    dev_step (m, log) (fst (record_failure hex_decode m digest ceiling now), log)
| dev_sweep m log now picked : dev_step (m, log) (sweep_devices m now picked, log)
| dev_grant_deleted m log grant : dev_step (m, log) (grant_deleted m grant, log).

Definition dev_reach (x : Devices * list Event) : Prop := rtc dev_step (∅, []) x.

(** The statements of everybody else while a device polls its code [d]. *)
Inductive beside (d : list Z) (m : Devices) : Devices -> Prop :=
| beside_issue clients digest user request now m' :
    hex_decode digest <> Some d -> issue hex_decode clients m digest user request now = Ok m' ->
    beside d m m'
| beside_poll digest slow_down now :
    hex_decode digest <> Some d -> beside d m (fst (poll hex_decode m digest slow_down now))
| beside_redeem digest now : beside d m (fst (redeem hex_decode m digest now))
| beside_approve digest user grant now :
    beside d m (fst (approve hex_decode uuid m digest user grant now))
| beside_deny digest now : beside d m (fst (deny hex_decode m digest now))
| beside_failure digest ceiling now : beside d m (fst (record_failure hex_decode m digest ceiling now))
| beside_sweep now picked : beside d m (sweep_devices m now picked)
| beside_grant_deleted grant : beside d m (grant_deleted m grant).

(** The answers a device goes on polling after. *)
Definition goes_on (p : Poll) : bool :=
  match p with PollPending | PollSlowDown _ => true | _ => false end.
Definition slowed (p : Poll) : bool := match p with PollSlowDown _ => true | _ => false end.

(** A device that keeps the interval RFC 8628 §3.5 tells it to, [interval] seconds
    since its poll at [last]: it adds the increment at each [slow_down], and stops at
    the first answer that is final. It may still poll too early; [answers] says when
    it did and what it was told, latest first. *)
Inductive polling (digest : string) (d : list Z)
    : Devices -> Z -> option Z -> list (bool * Poll) -> Prop :=
| polling_start m r :
    hex_decode digest = Some d -> m !! d = Some r -> d_last_polled_at r = None ->
    polling digest d m (d_interval r) None []
| polling_poll m interval last answers now m' polled :
    polling digest d m interval last answers ->
    forallb (fun a => goes_on a.2) answers = true ->
    poll hex_decode m digest SLOW_DOWN_INCREMENT now = (m', Ok (Some polled)) ->
    polling digest d m'
      (if slowed (polled_state polled) then interval + whole_seconds SLOW_DOWN_INCREMENT else interval)
      (Some now)
      ((is_some_and (fun t => now <? t + interval * NANOS) last, polled_state polled) :: answers)
| polling_beside m interval last answers m' :
    polling digest d m interval last answers -> beside d m m' ->
    polling digest d m' interval last answers.
End History.


(** ** Laws of the user code *)

(** What a person may type between the letters. *)
Definition separator (b : Z) : bool := (b =? 45) || is_ascii_whitespace b.
Definition letters (presented : list Z) : list Z :=
  map to_ascii_uppercase (List.filter (fun b => negb (separator b)) presented).
(** The codes [generate] may return. *)
Definition user_code (c : list Z) : Prop :=
  length c = USER_CODE_LENGTH /\ Forall (fun b => in_alphabet b = true) c.

(** The loop keeps the letters, and stops at the ninth or at one outside the
    alphabet. *)
Lemma canonicalise_Some bs acc c :
  (length acc <= USER_CODE_LENGTH)%nat ->
  canonicalise bs acc = Some c <->
  c = acc ++ letters bs /\ Forall (fun b => in_alphabet b = true) (letters bs)
  /\ (length c <= USER_CODE_LENGTH)%nat.
Proof.
  unfold letters. revert acc. induction bs as [|b bs IH]; intros acc Hacc; cbn [canonicalise List.filter].
  { cbn. rewrite app_nil_r. naive_solver. }
  change ((b =? 45) || is_ascii_whitespace b) with (separator b).
  destruct (separator b); cbn [negb map]; [by apply IH|].
  destruct (in_alphabet (to_ascii_uppercase b)) eqn:Ha; cbn [negb].
  2:{ split; [done|]. intros (_ & Hf & _). inversion Hf; congruence. }
  destruct (Nat.eqb_spec (length acc) USER_CODE_LENGTH) as [Hfull|Hroom].
  { split; [done|]. intros (-> & _ & Hl). rewrite length_app in Hl. cbn in Hl. lia. }
  rewrite IH by (rewrite length_app; cbn; lia).
  rewrite <- app_assoc, Forall_cons. naive_solver.
Qed.

Lemma parse_user_code_Some s c :
  parse_user_code s = Some c <->
  (length s <= 64)%nat /\ c = letters s /\ user_code c.
Proof.
  unfold parse_user_code, user_code. destruct (Nat.ltb_spec 64 (length s)); [split; [done|lia]|].
  destruct (canonicalise s []) as [c'|] eqn:Hc.
  - apply canonicalise_Some in Hc as (-> & Hf & Hl); [cbn in *|cbn; lia].
    destruct (Nat.eqb_spec (length (letters s)) USER_CODE_LENGTH); naive_solver.
  - split; [done|]. intros (_ & -> & Hl & Hf).
    assert (canonicalise s [] = Some (letters s)); [|congruence].
    apply canonicalise_Some; [cbn; lia|]. by rewrite Hl.
Qed.

Lemma in_alphabet_In b : in_alphabet b = true <-> In b USER_CODE_ALPHABET.
Proof.
  unfold in_alphabet. rewrite existsb_exists. setoid_rewrite Z.eqb_eq. split; [|by exists b].
  by intros (x & Hx & ->).
Qed.

(** A letter of the alphabet is upper case and no separator. *)
Lemma in_alphabet_plain b :
  in_alphabet b = true -> separator b = false /\ to_ascii_uppercase b = b.
Proof.
  rewrite in_alphabet_In. cbn. intros Hin.
  repeat (destruct Hin as [<-|Hin]; [done|]). done.
Qed.

Lemma letters_plain c : Forall (fun b => in_alphabet b = true) c -> letters c = c.
Proof.
  unfold letters. induction 1 as [|b c Hb _ IH]; [done|]. cbn.
  destruct (in_alphabet_plain b Hb) as [-> Hup]. cbn. by rewrite Hup, IH.
Qed.

Lemma letters_app s s' : letters (s ++ s') = letters s ++ letters s'.
Proof. unfold letters. by rewrite List.filter_app, map_app. Qed.

Lemma drawn_in_alphabet buffer : Forall (fun b => in_alphabet b = true) (drawn buffer).
Proof.
  apply Forall_map, List.Forall_forall. intros b _. apply in_alphabet_In, nth_In.
  pose proof (Z.mod_pos_bound b 20 ltac:(lia)). cbn [length USER_CODE_ALPHABET bytes_of]. cbn. lia.
Qed.

Lemma generated_user_code buffers c : generated buffers = Some c -> user_code c.
Proof.
  unfold generated, user_code. destruct (_ =? _)%nat eqn:Hl; [|done].
  intros [= <-]. bool_hyps. split; [done|]. apply Forall_take.
  clear Hl. induction buffers as [|b bs IH]; cbn; [constructor|].
  apply Forall_app. auto using drawn_in_alphabet.
Qed.

(** How a person may write a code down: case folded, separators anywhere. *)
Definition typed_as (s c : list Z) : Prop := (length s <= 64)%nat /\ letters s = c.

(** A user code is exactly eight letters of the alphabet. What [generate] draws,
    what [formatted] shows of it and every transcription of either that differs in
    case, hyphens and white space parse to the code itself; anything that is no
    transcription of a code does not parse. *)
Theorem user_code_round_trip (c s : list Z) (Hc : user_code c) :
  (parse_user_code s = Some c <-> typed_as s c)
  /\ parse_user_code c = Some c
  /\ parse_user_code (formatted c) = Some c
  /\ (forall other, parse_user_code s = Some other -> user_code other /\ typed_as s other).
Proof.
  destruct Hc as [Hl Hf]. unfold typed_as.
  assert (Hsep : letters (formatted c) = c).
  { unfold formatted. rewrite letters_app. cbn [app].
    change (letters (45 :: skipn USER_CODE_GROUP c)) with (letters (skipn USER_CODE_GROUP c)).
    by rewrite <- letters_app, firstn_skipn, (letters_plain c). }
  assert (Huc : user_code c) by done. rewrite !parse_user_code_Some, Hsep, (letters_plain c) by done.
  split_and!; try done; [naive_solver|unfold USER_CODE_LENGTH in *; lia| |].
  - unfold formatted. rewrite !length_app, length_firstn, length_skipn, Hl. unfold USER_CODE_LENGTH. cbn. lia.
  - intros other. rewrite parse_user_code_Some. naive_solver.
Qed.

Lemma user_code_round_trip_witness :
  generated [[240; 0; 21; 42; 63]; [255; 1; 2; 3; 4; 5]] = Some (bytes_of "BCDFCDFG") /\
  parse_user_code (bytes_of "bcdf cdfg") = Some (bytes_of "BCDFCDFG").
Proof.
  split; [reflexivity|].
  assert (Hc : user_code (bytes_of "BCDFCDFG"))
    by (apply (generated_user_code [[240; 0; 21; 42; 63]; [255; 1; 2; 3; 4; 5]]); reflexivity).
  apply (proj1 (user_code_round_trip _ (bytes_of "bcdf cdfg") Hc)).
  split; [apply Nat.leb_le; reflexivity|reflexivity].
Defined.

(** ** Laws of the repository *)

(** What every statement but an insert and an approval leaves alone in a row. *)
Definition advances (r r' : DeviceRow) : Prop :=
  d_user_code r' = d_user_code r /\ d_client r' = d_client r /\ d_jkt r' = d_jkt r
  /\ d_expires_at r' = d_expires_at r
  /\ (d_redeemed_at r' = None -> d_redeemed_at r = None)
  /\ (d_status r' = DApproved -> d_status r = DApproved)
  /\ (d_status r' = DApproved -> d_user r' = d_user r)
  /\ (d_grant r' = d_grant r \/ d_grant r' = None).
Definition rows_from (R : DeviceRow -> DeviceRow -> Prop) (m m' : Devices) : Prop :=
  forall d r', m' !! d = Some r' -> exists r, m !! d = Some r /\ R r r'.
(** The unique index on the user code. *)
Definition unique_codes (m : Devices) : Prop :=
  forall d d' r r', m !! d = Some r -> m !! d' = Some r' -> d_user_code r = d_user_code r' -> d = d'.

Lemma advances_refl r : advances r r.
Proof. unfold advances. naive_solver. Qed.
#[export] Hint Resolve advances_refl : idp.

Lemma device_rows_refl m : rows_from advances m m.
Proof. intros d r ->. eauto with idp. Qed.
#[export] Hint Resolve device_rows_refl : idp.

Lemma device_rows_insert m d r r' :
  m !! d = Some r -> advances r r' -> rows_from advances m (<[d := r']> m).
Proof.
  intros Hd Ha d' r'' Hl. destruct (decide (d = d')) as [<-|Hne].
  - rewrite lookup_insert, decide_True in Hl by done. naive_solver.
  - rewrite lookup_insert_ne in Hl by done. eauto with idp.
Qed.

Lemma device_rows_fmap m f : (forall r, advances r (f r)) -> rows_from advances m (f <$> m).
Proof. intros Hf d r' Hl. rewrite lookup_fmap in Hl. destruct (m !! d); naive_solver. Qed.

Lemma device_rows_filter m (P : list Z * DeviceRow -> Prop) `{!forall x, Decision (P x)} :
  rows_from advances m (filter P m).
Proof. intros d r Hl. apply map_lookup_filter_Some in Hl as [Hl _]. eauto with idp. Qed.

Lemma unique_codes_from m m' : rows_from advances m m' -> unique_codes m -> unique_codes m'.
Proof.
  intros Hf Hu d d' r r' Hd Hd' Hc. apply Hf in Hd as (q & Hq & Ha), Hd' as (q' & Hq' & Ha').
  apply (Hu d d' q q' Hq Hq'). unfold advances in *. naive_solver congruence.
Qed.

(** An [update] names at most the one row with the code. *)
Lemma named_one (m : Devices) user p d r :
  unique_codes m -> m !! d = Some r -> named user p r = true ->
  filter (fun kr => named user p kr.2 = true) m = {[d := r]}.
Proof.
  intros Hu Hd Hn. apply map_eq. intros d'. apply option_eq. intros r'.
  rewrite map_lookup_filter_Some, lookup_singleton_Some. cbn. split; [|by intros [<- <-]].
  intros [Hd' Hn']. unfold named in *. bool_hyps.
  assert (d = d') as <- by (eapply Hu; [done..|congruence]). naive_solver.
Qed.

Lemma named_none (m : Devices) user p :
  size (filter (fun kr => named user p kr.2 = true) m) = 0%nat <->
  (forall d r, m !! d = Some r -> named user p r = false).
Proof.
  rewrite map_size_empty_iff, map_empty. setoid_rewrite map_lookup_filter_None. split.
  - intros H d r Hd. destruct (H d) as [?|Hn]; [congruence|]. specialize (Hn r Hd). cbn in Hn.
    by destruct (named user p r).
  - intros H d. right. intros r Hd. cbn. by rewrite (H d r Hd).
Qed.

(** What an [update] by user code did, under the index: nothing, or one row. *)
Lemma update_named_cases (m : Devices) user p f m' n :
  unique_codes m -> update_named m user p f = (m', n) ->
  (n = 0%nat /\ m' = m)
  \/ (n = 1%nat /\ exists d r, m !! d = Some r /\ named user p r = true /\ m' = <[d := f r]> m).
Proof.
  unfold update_named. intros Hu [= <- <-].
  destruct (decide (size (filter (fun kr => named user p kr.2 = true) m) = 0%nat)) as [H0|H1].
  - left. split; [done|]. rewrite named_none in H0. apply map_eq. intros d. rewrite lookup_fmap.
    destruct (m !! d) as [r|] eqn:Hd; [|done]. cbn. by rewrite (H0 d r Hd).
  - right. rewrite map_size_empty_iff in H1. apply map_choose in H1 as (d & r & Hd).
    apply map_lookup_filter_Some in Hd as [Hd Hn]. cbn in Hn.
    rewrite (named_one m user p d r) by done. split; [apply map_size_singleton|].
    exists d, r. split_and!; [done..|]. apply map_eq. intros d'. rewrite lookup_fmap, lookup_insert.
    case_decide as Hdd; [subst; rewrite Hd; cbn; by rewrite Hn|].
    destruct (m !! d') as [r'|] eqn:Hd'; [|done]. cbn. destruct (named user p r') eqn:Hn'; [|done].
    unfold named in *. bool_hyps. destruct Hdd. eapply Hu; [done..|congruence].
Qed.

#[local] Arguments update_named : simpl never.

Section Repository.
Variable hex_decode : string -> option (list Z).
Variable uuid : string -> option string.

Lemma poll_keeps m digest slow now : rows_from advances m (fst (poll hex_decode m digest slow now)).
Proof.
  unfold poll. destruct (digest_bytes _ _ _) as [d|e]; [|apply device_rows_refl].
  destruct (seconds_i32 slow) as [inc|e]; [|apply device_rows_refl].
  destruct (m !! d) as [r|] eqn:Hd; [|apply device_rows_refl].
  destruct (2147483647 <? _); [apply device_rows_refl|].
  eapply device_rows_insert; [done|]. unfold advances. cbn. naive_solver.
Qed.

Lemma redeem_keeps m digest now : rows_from advances m (fst (redeem hex_decode m digest now)).
Proof.
  unfold redeem. destruct (digest_bytes _ _ _) as [d|e]; [|apply device_rows_refl].
  destruct (m !! d) as [r|] eqn:Hd; [|apply device_rows_refl].
  destruct (redeemable now r); [|apply device_rows_refl].
  eapply device_rows_insert; [done|]. unfold advances. cbn. naive_solver.
Qed.

Lemma redeem_Some m digest d now m' rd :
  hex_decode digest = Some d -> redeem hex_decode m digest now = (m', Ok (Some rd)) ->
  exists r, m !! d = Some r /\ redeemable now r = true /\ m' = <[d := with_redeemed r now]> m
            /\ d_grant r = Some (rd_grant rd) /\ rd_client rd = d_client r /\ rd_jkt rd = d_jkt r.
Proof.
  unfold redeem, digest_bytes. intros ->. cbn. destruct (m !! d) as [r|]; [|done].
  destruct (redeemable now r) eqn:Hr; [|done]. destruct (d_grant r) as [g|] eqn:Hg; [|done].
  intros [= <- <-]. eauto 10.
Qed.

Lemma deny_device_keeps m digest now : rows_from advances m (fst (deny hex_decode m digest now)).
Proof.
  unfold deny. destruct (digest_bytes _ _ _) as [code|e]; [|apply device_rows_refl].
  cbn. unfold update_named. apply device_rows_fmap. intros r. destruct (named _ _ r); [|auto with idp].
  unfold advances. cbn. naive_solver.
Qed.

Lemma failed_advances ceiling r : advances r (failed ceiling r).
Proof. unfold advances, failed. cbn. destruct (_ && _); naive_solver. Qed.

Lemma record_failure_keeps m digest ceiling now :
  rows_from advances m (fst (record_failure hex_decode m digest ceiling now)).
Proof.
  unfold record_failure. destruct (digest_bytes _ _ _) as [code|e]; [|apply device_rows_refl].
  cbn. unfold update_named. apply device_rows_fmap. intros r. destruct (named _ _ r); auto using failed_advances with idp.
Qed.

Lemma sweep_devices_keeps m now picked : rows_from advances m (sweep_devices m now picked).
Proof. apply device_rows_filter. Qed.

Lemma grant_deleted_keeps m grant : rows_from advances m (grant_deleted m grant).
Proof.
  apply device_rows_fmap. intros r. case_bool_decide; [|auto with idp].
  unfold advances. cbn. naive_solver.
Qed.

Lemma issue_Ok clients m device user request now m' :
  issue hex_decode clients m device user request now = Ok m' ->
  exists d r, hex_decode device = Some d /\ m !! d = None /\ m' = <[d := r]> m
    /\ (forall d' r', m !! d' = Some r' -> d_user_code r' <> d_user_code r)
    /\ d_client r = n_client request /\ d_jkt r = n_jkt request
    /\ d_expires_at r = n_expires_at request /\ n_expires_at request <= now + MAX_LIFETIME
    /\ d_status r = DPending /\ d_redeemed_at r = None
    /\ d_interval r = whole_seconds (n_interval request) /\ d_last_polled_at r = None.
Proof.
  unfold issue, digest_bytes, seconds_i32. intros H. ok_inv. subst. bool_hyps.
  eexists _, _. split_and!; try done.
  intros d' r' Hl Hc. cbn in Hc.
  match goal with H : size _ = _ |- _ => rewrite named_none in H; specialize (H d' r' Hl) end.
  unfold named in *. rewrite Hc, bool_decide_true in * by done. done.
Qed.

(** An approval under the index: the row of the event, or nothing. *)
Lemma approve_cases m digest user grant now m' res :
  unique_codes m -> approve hex_decode uuid m digest user grant now = (m', res) ->
  (res <> Ok true /\ m' = m)
  \/ (exists code g d r, res = Ok true /\ hex_decode digest = Some code /\ uuid grant = Some g
        /\ m !! d = Some r /\ named code (is_pending now) r = true
        /\ m' = <[d := with_decision r DApproved (Some user) (Some g) (Some now)
                         (d_failed_attempts r)]> m).
Proof.
  unfold approve, digest_bytes. intros Hu H.
  destruct (hex_decode digest) as [code|]; cbn in H; [|left; naive_solver].
  destruct (uuid grant) as [g|]; cbn in H; [|left; naive_solver].
  destruct (update_named m code _ _) as [m1 n] eqn:Hup. injection H as <- <-.
  apply update_named_cases in Hup as [[-> ->]|(-> & d & r & Hd & Hn & ->)]; [by left|..|done].
  right. by exists code, g, d, r.
Qed.

(** Redemptions are paid for by issues, one each. *)
Definition unredeemed (m : Devices) (d : list Z) : nat :=
  match m !! d with Some r => match d_redeemed_at r with None => 1 | Some _ => 0 end | None => 0 end.
Definition paid (m : Devices) (log : list Event) : Prop :=
  forall d, (tally (redeems d) log + unredeemed m d <= tally (issues d) log)%nat.

(** Where a row comes from: the request it was issued for, and the approval its
    grant was bound by. *)
Definition sourced_row (log : list Event) (d : list Z) (r : DeviceRow) : Prop :=
  exists request issued, In (EIssued d request issued) log
    /\ d_client r = n_client request /\ d_jkt r = n_jkt request
    /\ d_expires_at r = n_expires_at request /\ n_expires_at request <= issued + MAX_LIFETIME
    /\ (forall g, d_status r = DApproved -> d_grant r = Some g ->
          exists user approved, In (EApproved d user g approved) log
            /\ d_user r = Some user /\ approved < n_expires_at request).
Definition sourced (m : Devices) (log : list Event) : Prop :=
  forall d r, m !! d = Some r -> sourced_row log d r.

(** What a redemption rests on, in what happened before it. *)
Definition rests_on (past : list Event) (d : list Z) (rd : RedeemedDevice) (now : Z) : Prop :=
  exists request issued user approved,
    In (EIssued d request issued) past /\ In (EApproved d user (rd_grant rd) approved) past
    /\ rd_client rd = n_client request /\ rd_jkt rd = n_jkt request
    /\ approved < n_expires_at request /\ now < n_expires_at request
    /\ n_expires_at request <= issued + MAX_LIFETIME.
Definition grounded_log (log : list Event) : Prop :=
  forall later d rd now past, log = later ++ ERedeemed d rd now :: past -> rests_on past d rd now.

Definition dev_inv (x : Devices * list Event) : Prop :=
  unique_codes x.1 /\ paid x.1 x.2 /\ sourced x.1 x.2 /\ grounded_log x.2.

Lemma sourced_row_more log e d r : sourced_row log d r -> sourced_row (e :: log) d r.
Proof.
  intros (rq & t & Hin & ? & ? & ? & ? & Ha). exists rq, t. split_and!; try done; [by right|].
  intros g Hs Hg. destruct (Ha g Hs Hg) as (u & a & ? & ?). exists u, a. by split; [right|].
Qed.

Lemma sourced_row_advances log d r r' : advances r r' -> sourced_row log d r -> sourced_row log d r'.
Proof.
  intros (_ & Hc & Hj & He & _ & Hs & Hu & Hg) (rq & t & Hin & ? & ? & ? & ? & Ha). exists rq, t.
  rewrite Hc, Hj, He. split_and!; try done. intros g Hs' Hg'. rewrite (Hu Hs').
  apply Ha; [auto|]. destruct Hg; congruence.
Qed.

(** A statement that only advances rows keeps the invariant without an event. *)
Lemma dev_inv_quiet m m' log : rows_from advances m m' -> dev_inv (m, log) -> dev_inv (m', log).
Proof.
  intros Hf (Hu & Hp & Hs & Hg). split_and!; cbn in *; [by eapply unique_codes_from|..|done].
  - intros d. specialize (Hp d). unfold unredeemed in *. destruct (m' !! d) as [r'|] eqn:Hd; [|lia].
    destruct (Hf d r' Hd) as (r & Hr & Ha). rewrite Hr in Hp. unfold advances in Ha.
    destruct (d_redeemed_at r') eqn:Hr'; [lia|]. destruct Ha as (_ & _ & _ & _ & Hred & _).
    by rewrite (Hred eq_refl) in Hp.
  - intros d r' Hd. destruct (Hf d r' Hd) as (r & Hr & Ha). eapply sourced_row_advances; eauto.
Qed.

Lemma grounded_log_cons e log :
  grounded_log log -> (forall d rd now, e = ERedeemed d rd now -> rests_on log d rd now) ->
  grounded_log (e :: log).
Proof.
  intros Hg He [|x later] d rd now past; cbn; intros [= -> ->]; [by apply He|]. by eapply Hg.
Qed.

Lemma event_tally_cons p e log : tally p (e :: log) = ((if p e then 1 else 0) + tally p log)%nat.
Proof. unfold tally. cbn. by destruct (p e). Qed.

Lemma dev_inv_issue m log clients device user d request now m' :
  hex_decode device = Some d -> issue hex_decode clients m device user request now = Ok m' ->
  dev_inv (m, log) -> dev_inv (m', EIssued d request now :: log).
Proof.
  intros Hdec Hi (Hu & Hp & Hs & Hg). cbn in *.
  apply issue_Ok in Hi as (d' & r & Hdec' & Hnone & -> & Hfresh & Hc & Hj & He & Hmax & Hst & Hred & _).
  replace d' with d in * by congruence. clear d' Hdec'.
  split_and!; cbn; [..|apply grounded_log_cons; [done|discriminate]].
  - intros d1 d2 r1 r2. rewrite !lookup_insert.
    repeat case_decide; subst; [done|intros [= <-] H2 ?; edestruct Hfresh; eauto| |by apply Hu].
    intros H1 [= <-] ?. edestruct Hfresh; eauto.
  - intros d1. specialize (Hp d1). rewrite !event_tally_cons. cbn [issues redeems]. unfold unredeemed in *.
    rewrite lookup_insert. case_decide as Hd; [subst d1|].
    + rewrite Hred, bool_decide_true by done. rewrite Hnone in Hp. lia.
    + rewrite bool_decide_false by done. lia.
  - intros d1 r1. rewrite lookup_insert. case_decide; subst.
    + intros [= <-]. exists request, now. split_and!; try done; [by left|]. rewrite Hst. done.
    + intros H1. by apply sourced_row_more, Hs.
Qed.

Lemma dev_inv_redeem m log digest d now m' rd :
  hex_decode digest = Some d -> redeem hex_decode m digest now = (m', Ok (Some rd)) ->
  dev_inv (m, log) -> dev_inv (m', ERedeemed d rd now :: log).
Proof.
  intros Hdec Hr Hinv. pose proof (redeem_keeps m digest now) as Hk. rewrite Hr in Hk. cbn in Hk.
  pose proof (dev_inv_quiet m m' log Hk Hinv) as (Hu' & _ & Hs' & _).
  destruct Hinv as (_ & Hp & Hs & Hg). cbn in *.
  eapply redeem_Some in Hr as (r & Hd & Hred & Hm & Hgr & Hc & Hj); [|done]. subst m'.
  unfold redeemable in Hred. bool_hyps.
  split_and!; cbn; [done|..|apply grounded_log_cons; [done|]].
  - intros d1. specialize (Hp d1). rewrite !event_tally_cons. cbn [issues redeems]. unfold unredeemed in *.
    rewrite lookup_insert. case_decide as Hdd; [subst d1|].
    + rewrite bool_decide_true by done. rewrite Hd in Hp. cbn.
      destruct (d_redeemed_at r); [discriminate|]. lia.
    + rewrite bool_decide_false by done. lia.
  - intros d1 r1 Hl. by apply sourced_row_more, Hs'.
  - intros ? ? ? [= <- <- <-]. destruct (Hs d r Hd) as (rq & t & Hin & Hc' & Hj' & He & Hmax & Ha).
    destruct (Ha (rd_grant rd)) as (u & a & Hina & _ & Hlt); [done..|].
    exists rq, t, u, a. split_and!; try done; congruence || lia.
Qed.

Lemma dev_inv_approve m log digest code user grant g now m' d r :
  hex_decode digest = Some code -> uuid grant = Some g ->
  approve hex_decode uuid m digest user grant now = (m', Ok true) ->
  m !! d = Some r -> named code (is_pending now) r = true ->
  dev_inv (m, log) -> dev_inv (m', EApproved d user g now :: log).
Proof.
  intros Hdec Hid Ha Hd Hn (Hu & Hp & Hs & Hg). cbn in *.
  apply approve_cases in Ha as [[Hno _]|(c & g' & d' & r' & _ & Hdec' & Hid' & Hd' & Hn' & ->)]; [done| |done].
  assert (c = code) as -> by congruence. assert (g' = g) as -> by congruence.
  assert (d' = d) as ->.
  { unfold named in *. bool_hyps. eapply Hu; [done..|congruence]. }
  replace r' with r in * by congruence. clear Hd' Hn' Hdec' Hid'.
  unfold named, is_pending in Hn. bool_hyps.
  split_and!; cbn; [..|apply grounded_log_cons; [done|discriminate]].
  - intros d1 d2 r1 r2. rewrite !lookup_insert. repeat case_decide; subst; try done.
    + intros [= <-] H2 Hc. by apply (Hu d1 d2 r r2 Hd H2).
    + intros Hl1 [= <-] Hc. by apply (Hu d1 d2 r1 r Hl1 Hd).
    + by apply Hu.
  - intros d1. specialize (Hp d1). rewrite !event_tally_cons. cbn [issues redeems]. unfold unredeemed in *.
    rewrite lookup_insert. case_decide as Hdd; [subst d1|done]. by rewrite Hd in Hp.
  - intros d1 r1. rewrite lookup_insert. case_decide; subst; [|intros Hl1; by apply sourced_row_more, Hs].
    intros [= <-]. destruct (Hs d1 r Hd) as (rq & t & Hin & Hc & Hj & He & Hmax & _).
    exists rq, t. split_and!; try done; [by right|]. intros g1 _ [= <-].
    exists user, now. split_and!; [by left|done|]. lia.
Qed.

Lemma dev_step_inv x y : dev_step hex_decode uuid x y -> dev_inv x -> dev_inv y.
Proof.
  destruct 1; try solve [eapply dev_inv_quiet; auto using poll_keeps, redeem_keeps, deny_device_keeps,
    record_failure_keeps, sweep_devices_keeps, grant_deleted_keeps];
    eauto using dev_inv_issue, dev_inv_redeem, dev_inv_approve.
  intros Hinv. destruct (approve _ _ _ _ _ _ _) as [m' res] eqn:Ha. cbn in *.
  apply approve_cases in Ha as [[_ ->]|(c & g & d & r & -> & _)]; [done..|apply Hinv].
Qed.

Lemma dev_reach_inv x : dev_reach hex_decode uuid x -> dev_inv x.
Proof.
  unfold dev_reach. assert (dev_inv (∅, [])) as H0.
  { split_and!; cbn; [done|intros d; unfold unredeemed; by rewrite lookup_empty|done|]. by intros [|] * H. }
  revert H0. generalize ((∅ : Devices), @nil Event). intros x0 H0.
  induction 1 as [|x1 x2 x3 Hstep _ IH]; [done|]. by apply IH, (dev_step_inv x1).
Qed.

(** C33: However the requests of devices and people interleave, a device code is
    redeemed at most once for each time it was issued, and each redemption names
    the client and the pinned key the code was issued for and the grant somebody
    approved for it, within the lifetime the code was issued with. *)
Theorem device_code_redeemed_once m log d (Hreach : dev_reach hex_decode uuid (m, log)) :
  (tally (redeems d) log <= tally (issues d) log)%nat
  /\ forall later rd now past, log = later ++ ERedeemed d rd now :: past -> rests_on past d rd now.
Proof.
  destruct (dev_reach_inv _ Hreach) as (_ & Hp & _ & Hg). split.
  - specialize (Hp d). cbn [fst snd] in Hp. lia.
  - intros later rd now past. apply Hg.
Qed.

(** What a device and the server must agree on. *)
Definition same_pace (r r' : DeviceRow) : Prop :=
  d_interval r' = d_interval r /\ d_last_polled_at r' = d_last_polled_at r.

Lemma beside_pace d m m' r' :
  beside hex_decode uuid d m m' -> m' !! d = Some r' -> exists r, m !! d = Some r /\ same_pace r r'.
Proof.
  unfold same_pace. destruct 1 as [? dg ? ? ? m' Hne Hi|dg ? ? Hne|dg ?|dg ? ? ?|dg ?|dg ? ?| |].
  - apply issue_Ok in Hi as (d' & r & Hdec & _ & -> & _). rewrite lookup_insert_ne by congruence. eauto.
  - unfold poll, digest_bytes. destruct (hex_decode dg) as [d'|]; cbn; [|eauto].
    destruct (seconds_i32 _); [|eauto]. destruct (m !! d'); [|eauto]. destruct (2147483647 <? _); [eauto|].
    cbn. rewrite lookup_insert_ne by congruence. eauto.
  - unfold redeem. destruct (digest_bytes _ _ _) as [d'|]; [|eauto].
    destruct (m !! d') as [r|] eqn:Hd; [|eauto]. destruct (redeemable _ r); [|eauto]. cbn.
    rewrite lookup_insert. case_decide; [subst|eauto]. intros [= <-]. eauto.
  - unfold approve. destruct (digest_bytes _ _ _); [|eauto]. destruct (ok_or _ _); [|eauto].
    unfold update_named. cbn. rewrite lookup_fmap. destruct (m !! d); cbn; [|done].
    intros [= <-]. case_match; eauto.
  - unfold deny. destruct (digest_bytes _ _ _); [|eauto].
    unfold update_named. cbn. rewrite lookup_fmap. destruct (m !! d); cbn; [|done].
    intros [= <-]. case_match; eauto.
  - unfold record_failure. destruct (digest_bytes _ _ _); [|eauto].
    unfold update_named. cbn. rewrite lookup_fmap. destruct (m !! d); cbn; [|done].
    intros [= <-]. case_match; eauto.
  - intros Hl. apply map_lookup_filter_Some in Hl as [Hl _]. eauto.
  - unfold grant_deleted. rewrite lookup_fmap. destruct (m !! d); cbn; [|done].
    intros [= <-]. case_bool_decide; eauto.
Qed.

(** A poll, on a row that is there. *)
Lemma poll_Ok m digest d now m' polled :
  hex_decode digest = Some d ->
  poll hex_decode m digest SLOW_DOWN_INCREMENT now = (m', Ok (Some polled)) ->
  exists r, m !! d = Some r
    /\ let interval := if bool_decide (d_status r <> DApproved) && too_fast now r
                       then d_interval r + whole_seconds SLOW_DOWN_INCREMENT else d_interval r in
       m' = <[d := with_poll r interval now]> m
       /\ polled_client polled = d_client r /\ polled_state polled = poll_state r interval now.
Proof.
  unfold poll, digest_bytes. intros ->. cbn [ok_or].
  change (seconds_i32 SLOW_DOWN_INCREMENT) with
    (@Ok Z DomainError (whole_seconds SLOW_DOWN_INCREMENT)).
  destruct (m !! d) as [r|]; [|done]. cbv zeta. destruct (2147483647 <? _); [done|].
  intros [= <- <-]. exists r. by cbn.
Qed.

Lemma poll_state_goes_on r interval now :
  goes_on (poll_state r interval now) = true ->
  d_status r = DPending /\ slowed (poll_state r interval now) = too_fast now r.
Proof.
  unfold poll_state. repeat case_match; naive_solver.
Qed.

(** The server's clock for a code is the device's. *)
Lemma polling_agrees digest d m interval last answers :
  polling hex_decode uuid digest d m interval last answers ->
  hex_decode digest = Some d
  /\ (forallb (fun a => goes_on a.2) answers = true ->
      forall r, m !! d = Some r -> d_interval r = interval /\ d_last_polled_at r = last)
  /\ Forall (fun a => slowed a.2 = a.1 && goes_on a.2) answers.
Proof.
  induction 1 as [m r Hdec Hd Hl|m i l a now m' polled _ (Hdec & IH & IHa) Hgo Hp
                 |m i l a m' _ (Hdec & IH & IHa) Hb].
  - split_and!; [done|naive_solver|constructor].
  - eapply poll_Ok in Hp as (r & Hd & Hm & _ & Hst); [|done]. destruct (IH Hgo r Hd) as [Hi Hl].
    assert (Hearly : too_fast now r = is_some_and (fun t => now <? t + i * NANOS) l)
      by (unfold too_fast; by rewrite Hi, Hl).
    rewrite <- Hearly, Hst. split_and!; [done| |constructor; [|done]]; cbn [forallb fst snd].
    + intros Hand r' Hd'. bool_hyps. apply poll_state_goes_on in H as [Hpend Hsl]. rewrite Hsl.
      subst m'. rewrite lookup_insert, decide_True in Hd' by done. injection Hd' as <-. cbn.
      rewrite Hpend, bool_decide_true by done. cbn. by destruct (too_fast now r); subst.
    + destruct (goes_on _) eqn:Hg; [apply poll_state_goes_on in Hg as [_ ->]; by rewrite andb_true_r|].
      rewrite andb_false_r. by destruct (poll_state _ _ _).
  - split_and!; [done| |done]. intros Hgo r' Hd'.
    destruct (beside_pace d m m' r' Hb Hd') as (r & Hd & Hsi & Hsl). rewrite Hsi, Hsl. by apply IH.
Qed.

(** A device that adds five seconds at each [slow_down], as RFC 8628 §3.5 asks,
    and the row the server keeps agree on the interval for as long as the device has
    reason to poll, whatever others do to the rows in between; so of the answers that
    leave it polling, [slow_down] is the one exactly when it polled early, and one
    that waits its interval is never slowed down. *)
Theorem obedient_device_never_slowed digest d m interval last answers
    (Hrun : polling hex_decode uuid digest d m interval last answers) :
  (forall early answer, In (early, answer) answers -> goes_on answer = true ->
     (exists n, answer = PollSlowDown n) <-> early = true)
  /\ (forallb (fun a => negb a.1) answers = true ->
      Forall (fun a => slowed a.2 = false) answers)
  /\ (forallb (fun a => goes_on a.2) answers = true ->
      forall r, m !! d = Some r -> d_interval r = interval).
Proof.
  destruct (polling_agrees _ _ _ _ _ _ Hrun) as (_ & Hpace & Ha).
  rewrite List.Forall_forall in Ha. split_and!.
  - intros early answer Hin Hgo. specialize (Ha _ Hin). cbn in Ha. rewrite Hgo, andb_true_r in Ha.
    destruct answer; cbn in *; naive_solver.
  - rewrite forallb_forall, List.Forall_forall. intros Hno [early answer] Hin.
    specialize (Ha _ Hin). specialize (Hno _ Hin). cbn in *. by destruct early.
  - intros Hgo r Hd. by apply Hpace.
Qed.

(** No pending row has a failed confirmation counted against it. *)
Definition uncounted (m : Devices) : Prop :=
  forall d r, m !! d = Some r -> d_status r = DPending -> d_failed_attempts r = 0.

(** Counting a failure leaves the rows alone that an approval would have found. *)
Lemma record_failure_spares m digest code ceiling now d r' :
  hex_decode digest = Some code ->
  (forall d r, m !! d = Some r -> named code (is_pending now) r = false) ->
  fst (record_failure hex_decode m digest ceiling now) !! d = Some r' ->
  exists r, m !! d = Some r /\ d_status r' = d_status r /\ (d_status r = DPending -> r' = r).
Proof.
  unfold record_failure, digest_bytes. intros -> Hno. cbn [ok_or]. unfold update_named. cbn [fst].
  rewrite lookup_fmap. destruct (m !! d) as [r|] eqn:Hd; cbn; [|done]. intros [= <-]. exists r.
  specialize (Hno d r Hd). unfold named, is_pending in *. case_match eqn:Hl; [|done].
  bool_hyps. rewrite bool_decide_true in Hno by done. cbn in Hno.
  rewrite (proj2 (Z.ltb_lt _ _)), andb_true_r in Hno by done. bool_hyps.
  unfold failed. rewrite (bool_decide_false (d_status r = DPending)), andb_false_r by done. done.
Qed.

Lemma approve_refused m digest user grant now m' :
  unique_codes m -> approve hex_decode uuid m digest user grant now = (m', Ok false) ->
  m' = m /\ exists code, hex_decode digest = Some code
                         /\ forall d r, m !! d = Some r -> named code (is_pending now) r = false.
Proof.
  intros Hu H. pose proof H as Hc.
  apply approve_cases in Hc as [[_ ->]|(? & ? & ? & ? & ? & _)]; [|done..]. split; [done|].
  unfold approve, digest_bytes in H. destruct (hex_decode digest) as [code|]; [|done].
  destruct (uuid grant) as [g|]; [|done]. cbn [ok_or] in H. unfold update_named in H.
  injection H as _ Hn. exists code. split; [done|]. bool_hyps. intros d r Hd.
  destruct (named code (is_pending now) r) eqn:Hnm; [|done].
  destruct Hn. by rewrite (named_one m code (is_pending now) d r), map_size_singleton.
Qed.

Lemma uncounted_approve m digest user grant now :
  unique_codes m -> uncounted m -> uncounted (fst (approve hex_decode uuid m digest user grant now)).
Proof.
  intros Hu Hc. destruct (approve _ _ _ _ _ _ _) as [m' res] eqn:Ha.
  apply approve_cases in Ha as [[_ ->]|(? & ? & d & r & _ & _ & _ & _ & _ & ->)]; [done..| |done].
  intros d' r'. cbn. rewrite lookup_insert. case_decide; [|apply Hc]. by intros [= <-].
Qed.

(** The ceiling on failed confirmations ([FAILURES_PER_CODE]) denies nothing. A
    confirmation counts a failure only after an approval found no pending row at the
    same instant, so no pending row ever has one counted, and confirming never turns
    a row into a denied one. *)
Theorem failure_ceiling_never_reached m between digest user grant now
    (Hunique : unique_codes (between m)) (Hm : uncounted m) (Hbetween : uncounted (between m)) :
  let m' := fst (confirm hex_decode uuid m between digest true user grant now) in
  uncounted m'
  /\ forall d r', m' !! d = Some r' -> d_status r' = DDenied ->
     exists r, (m !! d = Some r \/ between m !! d = Some r) /\ d_status r = DDenied.
Proof.
  assert (Hsame : forall m1, (m1 = m \/ m1 = between m) -> uncounted m1 ->
    uncounted m1 /\ forall d r', m1 !! d = Some r' -> d_status r' = DDenied ->
    exists r, (m !! d = Some r \/ between m !! d = Some r) /\ d_status r = DDenied)
    by (intros m1 [->| ->]; eauto 6).
  unfold confirm. cbn [negb]. destruct (pending _ _ _ _) as [[p|]|e]; [|by apply Hsame; auto..].
  destruct grant as [grant|]; [|by apply Hsame; auto].
  pose proof (uncounted_approve _ digest user grant now Hunique Hbetween) as Hca.
  destruct (approve _ _ _ _ _ _ _) as [m1 res] eqn:Ha. cbn [fst] in Hca.
  pose proof Ha as Hcases. apply approve_cases in Hcases
    as [[Hno ->]|(code & g & d & r & -> & _ & _ & Hd & Hn & ->)]; [| |done].
  - destruct res as [[|]|e]; [done| |by apply Hsame; auto].
    apply approve_refused in Ha as (_ & code & Hdec & Hnone); [|done]. cbn [fst]. split.
    + intros d r' Hd Hp. eapply record_failure_spares in Hd as (r & Hd & Hs & He); [|done..].
      rewrite He by congruence. apply (Hbetween d r Hd). congruence.
    + intros d r' Hd Hp. eapply record_failure_spares in Hd as (r & Hd & Hs & He); [|done..].
      exists r. split; [by right|congruence].
  - cbn. split; [done|]. intros d' r'. rewrite lookup_insert. case_decide; [by intros [= <-]|eauto].
Qed.

(** ** The token endpoint *)

(** RFC 8628 §3.5, by the row and the instant. *)
Definition device_answer (r : DeviceRow) (now : Z) : result RedeemedDevice DeviceFailure :=
  if d_expires_at r <=? now then Err (DClient "expired_token")
  else
    match d_redeemed_at r, d_status r, d_grant r with
    | Some _, _, _ => Err (DClient "invalid_grant")
    | None, DDenied, _ => Err (DClient "access_denied")
    | None, DPending, _ =>
        Err (DClient (if too_fast now r then "slow_down" else "authorization_pending"))
    | None, DApproved, None => Err (DClient "invalid_grant")
    | None, DApproved, Some grant =>
        Ok {| rd_client := d_client r; rd_grant := grant; rd_jkt := d_jkt r |}
    end.

Lemma poll_there m digest d r now :
  hex_decode digest = Some d -> m !! d = Some r -> d_interval r + 5 <= 2147483647 ->
  exists interval,
    poll hex_decode m digest SLOW_DOWN_INCREMENT now
    = (<[d := with_poll r interval now]> m,
       Ok (Some {| polled_client := d_client r; polled_state := poll_state r interval now |})).
Proof.
  unfold poll, digest_bytes. intros -> Hd Hr. cbn [ok_or].
  change (seconds_i32 SLOW_DOWN_INCREMENT) with (@Ok Z DomainError 5). rewrite Hd. cbv zeta.
  rewrite (proj2 (Z.ltb_ge _ _)) by (destruct (_ && _); lia). eauto.
Qed.

(** The token endpoint answers a device code as RFC 8628 §3.5 says, by what its
    row is at the request; a code of another client, and a code that names no row, are
    answered [invalid_grant]; and the row is spent exactly when the answer is an
    authorization or the grant is gone. *)
Theorem device_code_answers m digest d client now
    (Hdigest : hex_decode digest = Some d)
    (Hpolls : forall r, m !! d = Some r -> d_interval r + 5 <= 2147483647) :
  let '(m', answer) := spent hex_decode m id client digest now in
  match m !! d with
  | Some r =>
      answer = (if String.eqb (d_client r) client then device_answer r now else Err invalid_device)
      /\ exists r', m' !! d = Some r' /\
         d_redeemed_at r' = (if String.eqb (d_client r) client && redeemable now r then Some now
                             else d_redeemed_at r)
  | None => answer = Err invalid_device /\ m' = m
  end.
Proof.
  unfold spent, id. destruct (m !! d) as [r|] eqn:Hd.
  2:{ unfold poll, digest_bytes. rewrite Hdigest. cbn [ok_or].
      change (seconds_i32 SLOW_DOWN_INCREMENT) with (@Ok Z DomainError 5). by rewrite Hd. }
  destruct (poll_there m digest d r now Hdigest Hd (Hpolls r eq_refl)) as [i ->]. cbn [polled_client polled_state].
  destruct (String.eqb (d_client r) client) eqn:Hc; cbn [negb andb].
  2:{ split; [done|]. eexists. rewrite lookup_insert, decide_True by done. eauto. }
  unfold redeem, digest_bytes. rewrite Hdigest. cbn [ok_or]. rewrite lookup_insert, decide_True by done.
  unfold poll_state, device_answer, redeemable. cbn [with_poll d_status d_redeemed_at d_expires_at d_grant].
  destruct (Z.leb_spec (d_expires_at r) now) as [He|He].
  { cbn. rewrite (proj2 (Z.ltb_ge _ _)), andb_false_r by lia. split; [done|].
    eexists. rewrite lookup_insert, decide_True by done. by split. }
  rewrite (proj2 (Z.ltb_lt _ _)) by lia. rewrite andb_true_r.
  destruct (d_redeemed_at r) eqn:Hred, (d_status r) eqn:Hs; try destruct (too_fast now r);
    try destruct (d_grant r) eqn:Hg;
    first [rewrite !bool_decide_true by done | rewrite !bool_decide_false by done];
    cbn; rewrite ?Hc; (split; [done|]); eexists; rewrite lookup_insert, decide_True by done; by split.
Qed.
End Repository.

(** ** Witnesses *)

Definition sample_request : NewDeviceAuthorization := {|
  n_client := "tv"; n_scopes := ["openid"%string]; n_jkt := Some "jkt"%string; n_details := VArray [];
  n_expires_at := 600 * NANOS; n_interval := POLL_INTERVAL |}.
Definition waiting_row : DeviceRow := {|
  d_user_code := bytes_of "u"; d_client := "tv"; d_scopes := ["openid"%string]; d_details := VArray [];
  d_issued_at := 0; d_expires_at := 600 * NANOS; d_interval := 5; d_last_polled_at := None;
  d_status := DPending; d_user := None; d_grant := None; d_approved_at := None;
  d_redeemed_at := None; d_failed_attempts := 0; d_jkt := Some "jkt"%string |}.
Definition waiting : Devices := {[ bytes_of "d" := waiting_row ]}.
Definition approved_row : DeviceRow :=
  with_decision waiting_row DApproved (Some "u-1"%string) (Some "g-1"%string) (Some (60 * NANOS)) 0.
Definition approved : Devices := {[ bytes_of "d" := approved_row ]}.
Definition sample_redeemed : RedeemedDevice :=
  {| rd_client := "tv"; rd_grant := "g-1"; rd_jkt := Some "jkt"%string |}.
Definition device_log : list Event := [
  ERedeemed (bytes_of "d") sample_redeemed (61 * NANOS);
  EApproved (bytes_of "d") "u-1" "g-1" (60 * NANOS);
  EIssued (bytes_of "d") sample_request 0].

Lemma waiting_issued :
  issue sample_hex {["tv" := true]} ∅ "d" "u" sample_request 0 = Ok waiting.
Proof. vm_compute. reflexivity. Qed.
Lemma waiting_approved :
  approve sample_hex Some waiting "u" "u-1" "g-1" (60 * NANOS) = (approved, Ok true).
Proof. vm_compute. reflexivity. Qed.

Lemma device_log_reached :
  dev_reach sample_hex Some (<[bytes_of "d" := with_redeemed approved_row (61 * NANOS)]> approved, device_log).
Proof.
  unfold dev_reach, device_log. eapply rtc_l; [eapply dev_issue; [reflexivity|apply waiting_issued]|].
  eapply rtc_l; [eapply (dev_approve sample_hex Some waiting _ "u" (bytes_of "u") "u-1" "g-1" "g-1");
    [reflexivity|reflexivity|apply waiting_approved|apply lookup_singleton_eq|reflexivity]|].
  eapply rtc_l; [|apply rtc_refl].
  apply (dev_redeem _ _ _ _ "d"); [reflexivity|]. vm_compute. reflexivity.
Qed.

Lemma device_code_redeemed_once_witness :
  tally (redeems (bytes_of "d")) device_log = 1%nat /\
  rests_on [EApproved (bytes_of "d") "u-1" "g-1" (60 * NANOS); EIssued (bytes_of "d") sample_request 0]
    (bytes_of "d") sample_redeemed (61 * NANOS).
Proof.
  split; [reflexivity|].
  destruct (device_code_redeemed_once sample_hex Some _ device_log (bytes_of "d") device_log_reached)
    as [_ Hpast].
  by apply (Hpast []).
Defined.

(** Told to slow down at a second poll after three seconds, then waiting ten. *)
Lemma obedient_device_never_slowed_witness :
  exists m, polling sample_hex Some "d" (bytes_of "d") m 10 (Some (13 * NANOS))
              [(false, PollPending); (true, PollSlowDown 10); (false, PollPending)]
  /\ (forall r, m !! bytes_of "d" = Some r -> d_interval r = 10).
Proof.
  assert (H0 : polling sample_hex Some "d" (bytes_of "d") waiting 5 None [])
    by (apply (polling_start sample_hex Some "d" (bytes_of "d") waiting waiting_row); [done|apply lookup_singleton_eq|done]).
  pose proof (polling_poll _ _ _ _ _ _ _ _ 0 _ _ H0 eq_refl eq_refl) as H1.
  pose proof (polling_poll _ _ _ _ _ _ _ _ (3 * NANOS) _ _ H1 eq_refl eq_refl) as H2.
  pose proof (polling_poll _ _ _ _ _ _ _ _ (13 * NANOS) _ _ H2 eq_refl eq_refl) as H3.
  eexists. split; [exact H3|].
  intros r Hr. destruct (obedient_device_never_slowed _ _ _ _ _ _ _ _ H3) as (_ & _ & Hi).
  exact (Hi eq_refl r Hr).
Defined.

(** A second confirmation of a code approved in between: counted, not denied. *)
Lemma failure_ceiling_never_reached_witness :
  exists m, m = fst (confirm sample_hex Some waiting (fun _ => approved) "u" true "u-2" (Some "g-2"%string)
                       (61 * NANOS)) /\ uncounted m.
Proof.
  eexists. split; [reflexivity|].
  refine (proj1 (failure_ceiling_never_reached sample_hex Some waiting (fun _ => approved) "u" "u-2"
    (Some "g-2"%string) (61 * NANOS) _ _ _)).
  - intros d d' r r' Hd Hd' _. unfold approved in *. apply lookup_singleton_Some in Hd as [<- _], Hd' as [<- _]. done.
  - intros d r Hd _. unfold waiting in *. apply lookup_singleton_Some in Hd as [_ <-]. done.
  - intros d r Hd. unfold approved in *. apply lookup_singleton_Some in Hd as [_ <-]. done.
Defined.

Lemma device_code_answers_witness :
  snd (spent sample_hex approved id "tv" "d" (61 * NANOS)) = Ok sample_redeemed.
Proof.
  pose proof (device_code_answers sample_hex approved "d" (bytes_of "d") "tv" (61 * NANOS) eq_refl) as H.
  destruct (spent _ _ _ _ _ _) as [m' answer]. cbn [snd].
  destruct H as [-> _]; [|reflexivity].
  intros r Hr. unfold approved in *. apply lookup_singleton_Some in Hr as [_ <-]. cbn. lia.
Defined.
