(* ===== verification/Keys.v ===== *)
(** * Signing keys and their rotation

    [crates/domain/src/keys.rs], the repository of [crates/store-pg/src/keys.rs] and
    the administration of [crates/store-pg/src/key_store.rs]. One tenant's rows.

    Every pass runs in a transaction that holds the tenant's rotation lock, so a
    history is a sequence of whole passes; the audit record is written after the
    commit, and its failure fails a call whose pass stands. *)

From S2P Require Import Prelude BTree Json RateLimit.
From S2P Require Import Grants.
From S2P Require Import GrantStore.
Open Scope Z_scope.

(** ** The vocabulary *)

Inductive SigningAlgorithm : Type := EdDsa | Es256 | Ps256.
Inductive KeyState : Type := Pending | Active | Retiring | Retired | Purged.
Inductive KeyPurpose : Type := Signing | Encryption.

#[export] Instance signing_algorithm_eq_dec : EqDecision SigningAlgorithm.
Proof. solve_decision. Defined.
#[export] Instance key_state_eq_dec : EqDecision KeyState.
Proof. solve_decision. Defined.
#[export] Instance key_purpose_eq_dec : EqDecision KeyPurpose.
Proof. solve_decision. Defined.

Module SigningAlgorithm.
Definition ALL : list SigningAlgorithm := [EdDsa; Es256; Ps256].
Definition DEFAULT : SigningAlgorithm := EdDsa.
Definition as_str (a : SigningAlgorithm) : string :=
  match a with EdDsa => "EdDSA" | Es256 => "ES256" | Ps256 => "PS256" end.
Definition parse (value : string) : option SigningAlgorithm :=
  List.find (fun alg => String.eqb (as_str alg) value) ALL.
Definition key_type (a : SigningAlgorithm) : string :=
  match a with EdDsa => "OKP" | Es256 => "EC" | Ps256 => "RSA" end.
End SigningAlgorithm.

#[export] Instance signing_algorithm_countable : Countable SigningAlgorithm.
Proof.
  refine (inj_countable' SigningAlgorithm.as_str
    (fun s => default EdDsa (SigningAlgorithm.parse s)) _).
  by intros [].
Defined.

Module KeyState.
Definition ALL : list KeyState := [Pending; Active; Retiring; Retired; Purged].
Definition as_str (s : KeyState) : string :=
  match s with
  | Pending => "pending" | Active => "active" | Retiring => "retiring"
  | Retired => "retired" | Purged => "purged"
  end.
Definition is_published (s : KeyState) : bool :=
  match s with Pending | Active | Retiring => true | _ => false end.
Definition is_trusted (s : KeyState) : bool := match s with Purged => false | _ => true end.
Definition parse (value : string) : option KeyState :=
  List.find (fun state => String.eqb (as_str state) value) ALL.
End KeyState.

Module KeyPurpose.
Definition ALL : list KeyPurpose := [Signing; Encryption].
Definition as_str (p : KeyPurpose) : string := match p with Signing => "sig" | Encryption => "enc" end.
Definition parse (value : string) : option KeyPurpose :=
  List.find (fun purpose => String.eqb (as_str purpose) value) ALL.
End KeyPurpose.

(** A [Kid] is its text. *)
Record PublicKeyRecord : Type := {
  pk_tenant : string;
  pk_kid : string;
  pk_algorithm : SigningAlgorithm;
  pk_purpose : KeyPurpose;
  pk_state : KeyState;
  pk_public_jwk : value;
  pk_created_at : Z
}.

Definition signs_with (records : list PublicKeyRecord) (algorithm : SigningAlgorithm) : bool :=
  existsb (fun record =>
    bool_decide (pk_algorithm record = algorithm) && bool_decide (pk_state record = Active)
    && bool_decide (pk_purpose record = Signing)) records.

Record HeldGrantAuthority : Type := {
  held_tenant : string;
  held_grant : string;
  held_issuer : string;
  held_revision : Z;
  held_expires_at : option Z
}.
Module HeldGrantAuthority.
Definition from_fenced_grant {Task} (grant : Grants.Grant Task) (issuer : string) (expires_at : option Z)
  : HeldGrantAuthority := {|
  held_tenant := g_tenant grant; held_grant := g_id grant; held_issuer := issuer;
  held_revision := g_authority_revision grant; held_expires_at := expires_at |}.
Definition validates {Task} (self : HeldGrantAuthority) (tenant : string) (grant : Grants.Grant Task)
    (issuer : string) (now : Z) : bool :=
  String.eqb (held_tenant self) tenant && String.eqb (g_tenant grant) tenant
  && String.eqb (held_grant self) (g_id grant) && String.eqb (held_issuer self) issuer
  && (held_revision self =? g_authority_revision grant)
  && is_none_or (fun expiry => now <? expiry) (held_expires_at self).
End HeldGrantAuthority.

Record KeyRotation : Type := {
  created : option string;
  activated : option string;
  superseded : option string;
  retired : list string
}.
Module KeyRotation.
Definition default : KeyRotation :=
  {| created := None; activated := None; superseded := None; retired := [] |}.
Definition is_empty (r : KeyRotation) : bool :=
  match r with
  | {| created := None; activated := None; superseded := None; retired := [] |} => true
  | _ => false
  end.
End KeyRotation.

Record RotationSchedule : Type := {
  rotation_period : Z;
  propagation_period : Z;
  grace_period : Z;
  last_rotated_at : option Z
}.
Definition is_due (s : RotationSchedule) (now : Z) : bool :=
  is_none_or (fun last => last + rotation_period s <=? now) (last_rotated_at s).

Inductive Activation : Type := OnSchedule | Immediate.

Record KeyPurge : Type := { purge_kid : string; previous_state : KeyState; destroyed : bool }.

(** [PurgeReason::parse], over the characters of the text. *)
Definition MAX_LENGTH : nat := 500.
Fixpoint trim_start (l : list Z) : list Z :=
  match l with c :: r => if is_whitespace c then trim_start r else l | [] => [] end.
Definition trim (l : list Z) : list Z := rev (trim_start (rev (trim_start l))).
Definition parse_purge_reason (raw : list Z) : result (list Z) DomainError :=
  let trimmed := trim raw in
  if match trimmed with [] => true | _ => false end then Err (Invalid "reason")
  else if (MAX_LENGTH <? length trimmed)%nat then Err (Invalid "reason")
  else if existsb is_control trimmed then Err (Invalid "reason")
  else Ok trimmed.

(** ** The tables *)

(** The envelope columns: [WrappedKey]. *)
Record WrappedKey : Type := { kek_id : string; nonce : list Z; ciphertext : list Z }.
Definition from_parts (w : WrappedKey) : option WrappedKey :=
  if negb (length (nonce w) =? 12)%nat || (length (ciphertext w) <=? 16)%nat then None else Some w.

(** A row of [signing_keys], under its [kid]; the three enumerated columns are what
    the schema's checks leave them. *)
Record SigningKeyRow : Type := {
  k_alg : SigningAlgorithm;
  k_purpose : KeyPurpose;
  k_state : KeyState;
  k_public_jwk : value;
  k_material : option WrappedKey;
  k_created_at : Z;
  k_activated_at : option Z;
  k_retiring_at : option Z;
  k_retired_at : option Z;
  k_purged_at : option Z
}.
Record ScheduleRow : Type := {
  rotation_period_seconds : Z;
  propagation_period_seconds : Z;
  grace_period_seconds : Z;
  s_last_rotated_at : option Z
}.
Abbreviation Keys := (gmap string SigningKeyRow).
Record KeyDb : Type := {
  signing_keys : Keys;
  key_rotation_schedules : gmap SigningAlgorithm ScheduleRow
}.
Definition set_keys (s : KeyDb) (keys : Keys) : KeyDb :=
  {| signing_keys := keys; key_rotation_schedules := key_rotation_schedules s |}.

(** What each statement sets. *)
Definition as_state (r : SigningKeyRow) (state : KeyState) (material : option WrappedKey)
    (activated_at retiring_at retired_at purged_at : option Z) : SigningKeyRow := {|
  k_alg := k_alg r; k_purpose := k_purpose r; k_state := state; k_public_jwk := k_public_jwk r;
  k_material := material; k_created_at := k_created_at r; k_activated_at := activated_at;
  k_retiring_at := retiring_at; k_retired_at := retired_at; k_purged_at := purged_at |}.
Definition to_active (now : Z) (r : SigningKeyRow) : SigningKeyRow :=
  as_state r Active (k_material r) (Some now) (k_retiring_at r) (k_retired_at r) (k_purged_at r).
Definition to_retiring (now : Z) (r : SigningKeyRow) : SigningKeyRow :=
  as_state r Retiring (k_material r) (k_activated_at r) (Some now) (k_retired_at r) (k_purged_at r).
Definition to_retired (now : Z) (r : SigningKeyRow) : SigningKeyRow :=
  as_state r Retired (k_material r) (k_activated_at r) (k_retiring_at r) (Some now) (k_purged_at r).
Definition to_purged (now : Z) (r : SigningKeyRow) : SigningKeyRow :=
  as_state r Purged None (k_activated_at r) (k_retiring_at r)
    (Some (default now (k_retired_at r))) (Some now).

(** A [where] clause on the purpose and one state, and on an algorithm. *)
Definition in_state (state : KeyState) (r : SigningKeyRow) : bool :=
  bool_decide (k_purpose r = Signing) && bool_decide (k_state r = state).
Definition of_alg (algorithm : SigningAlgorithm) (state : KeyState) (r : SigningKeyRow) : bool :=
  in_state state r && bool_decide (k_alg r = algorithm).

(** [update … where p returning kid], every row or the optional one. *)
Definition selected (p : SigningKeyRow -> bool) (keys : Keys) : list (string * SigningKeyRow) :=
  map_to_list (filter (fun kr => p kr.2 = true) keys).
Definition select_one (p : SigningKeyRow -> bool) (keys : Keys) : option string :=
  fst <$> head (selected p keys).
Definition update_where (p : SigningKeyRow -> bool) (f : SigningKeyRow -> SigningKeyRow)
    (keys : Keys) : Keys :=
  (fun r => if p r then f r else r) <$> keys.

(** ** The passes *)

(** The defaults of the schema. *)
Definition default_schedule : ScheduleRow := {|
  rotation_period_seconds := 7776000; propagation_period_seconds := 900;
  grace_period_seconds := 604800; s_last_rotated_at := None |}.
Definition to_schedule (r : ScheduleRow) : RotationSchedule := {|
  rotation_period := rotation_period_seconds r * NANOS;
  propagation_period := propagation_period_seconds r * NANOS;
  grace_period := grace_period_seconds r * NANOS;
  last_rotated_at := s_last_rotated_at r |}.

(** What a generated key is: its public JWK and its sealed private half. *)
Record Generated : Type := { gen_jwk : value; gen_wrapped : WrappedKey }.

(** [jwk["kid"] = …]. *)
Definition with_kid (jwk : value) (kid : string) : value :=
  match jwk with VObject m => VObject (binsert "kid"%string (VString kid) m) | v => v end.

Module PgKeyRepository.
Section PgKeyRepository.
Variable tenant : string.
(** RFC 7638, and the private half of a row, unsealed for its binding and read as a
    key of its algorithm. *)
Variable thumbprint : value -> result string DomainError.
Variable SigningKey : Type.
Variable unseal : string -> SigningAlgorithm -> WrappedKey -> option SigningKey.

Definition seconds (duration : Z) (field : string) : result Z DomainError :=
  if (duration <? 0) || negb (Z.rem duration NANOS =? 0) then Err (Invalid field)
  else Ok (Z.quot duration NANOS).

Definition ensure_schedule (s : KeyDb) (algorithm : SigningAlgorithm) : KeyDb * RotationSchedule :=
  match key_rotation_schedules s !! algorithm with
  | Some r => (s, to_schedule r)
  | None =>
      ({| signing_keys := signing_keys s;
          key_rotation_schedules := <[algorithm := default_schedule]> (key_rotation_schedules s) |},
       to_schedule default_schedule)
  end.

Definition schedule := ensure_schedule.

(** The schema's bounds on the three periods. *)
Definition schedule_ok (rotation propagation grace : Z) : bool :=
  in_range 3600 31536000 rotation && (0 <? propagation) && (propagation <? rotation)
  && (0 <? grace) && (grace <=? 31536000).

Definition set_schedule (s : KeyDb) (algorithm : SigningAlgorithm) (schedule : RotationSchedule)
    : result KeyDb DomainError :=
  let? rotation := seconds (rotation_period schedule) "rotation_period" in
  let? propagation := seconds (propagation_period schedule) "propagation_period" in
  let? grace := seconds (grace_period schedule) "grace_period" in
  guard? schedule_ok rotation propagation grace else Storage in
  Ok {| signing_keys := signing_keys s;
        key_rotation_schedules :=
          <[algorithm := {|
              rotation_period_seconds := rotation; propagation_period_seconds := propagation;
              grace_period_seconds := grace;
              s_last_rotated_at :=
                match key_rotation_schedules s !! algorithm with
                | Some r => s_last_rotated_at r
                | None => None
                end |}]> (key_rotation_schedules s) |}.

(** A key past its grace leaves the published set, whatever its algorithm. *)
Definition grace_over (limit : Z) (r : SigningKeyRow) : bool :=
  in_state Retiring r && is_some_and (fun at_ => at_ <=? limit) (k_retiring_at r).
Definition retire_due (keys : Keys) (limit now : Z) : Keys * list string :=
  (update_where (grace_over limit) (to_retired now) keys, map fst (selected (grace_over limit) keys)).

Definition propagated (algorithm : SigningAlgorithm) (limit : Z) (r : SigningKeyRow) : bool :=
  of_alg algorithm Pending r && (k_created_at r <=? limit).

(** The incumbent stops signing, then the key starts. *)
Definition promote (keys : Keys) (algorithm : SigningAlgorithm) (kid : string) (now : Z)
    : Keys * option string :=
  (alter (to_active now) kid (update_where (of_alg algorithm Active) (to_retiring now) keys),
   select_one (of_alg algorithm Active) keys).

Definition generated_row (algorithm : SigningAlgorithm) (jwk : value) (wrapped : WrappedKey)
    (first : bool) (now : Z) : SigningKeyRow := {|
  k_alg := algorithm; k_purpose := Signing; k_state := if first then Active else Pending;
  k_public_jwk := jwk; k_material := Some wrapped; k_created_at := now;
  k_activated_at := if first then Some now else None; k_retiring_at := None; k_retired_at := None;
  k_purged_at := None |}.

(** The insert's constraints: the [kid] is new, the JWK announces the purpose. *)
Definition insert_key (keys : Keys) (kid : string) (row : SigningKeyRow) : result Keys DomainError :=
  guard? bool_decide ((vget "use" (k_public_jwk row) ≫= as_str)
                      = Some (KeyPurpose.as_str (k_purpose row))) else Storage in
  guard? bool_decide (keys !! kid = None) else Conflict in
  Ok (<[kid := row]> keys).

Definition stage (keys : Keys) (algorithm : SigningAlgorithm) (now : Z)
    (generate : result Generated DomainError) : result (Keys * string) DomainError :=
  match select_one (of_alg algorithm Pending) keys with
  | Some staged => Ok (keys, staged)
  | None =>
      let? key := generate in
      let? kid := thumbprint (gen_jwk key) in
      let first := match select_one (of_alg algorithm Active) keys with None => true | Some _ => false end in
      let? keys := insert_key keys kid
                     (generated_row algorithm (with_kid (gen_jwk key) kid) (gen_wrapped key) first now) in
      Ok (keys, kid)
  end.

Definition rotated_now (schedules : gmap SigningAlgorithm ScheduleRow) (algorithm : SigningAlgorithm)
    (now : Z) : gmap SigningAlgorithm ScheduleRow :=
  alter (fun r => {| rotation_period_seconds := rotation_period_seconds r;
                     propagation_period_seconds := propagation_period_seconds r;
                     grace_period_seconds := grace_period_seconds r;
                     s_last_rotated_at := Some now |}) algorithm schedules.

Definition promote_ready (keys : Keys) (algorithm : SigningAlgorithm) (limit now : Z)
    : Keys * (option string * option string) :=
  match select_one (propagated algorithm limit) keys with
  | Some kid => let '(keys, old) := promote keys algorithm kid now in (keys, (Some kid, old))
  | None => (keys, (None, None))
  end.

(** The transaction of [run]. *)
Definition pass (s : KeyDb) (algorithm : SigningAlgorithm) (now : Z) (forced : bool)
    (generate : result Generated DomainError) : result (KeyDb * KeyRotation) DomainError :=
  let '(s, schedule) := ensure_schedule s algorithm in
  let '(keys, gone) := retire_due (signing_keys s) (now - grace_period schedule) now in
  let '(keys, (promoted, old)) := promote_ready keys algorithm (now - propagation_period schedule) now in
  if forced || is_due schedule now then
    let? (keys, kid) := stage keys algorithm now generate in
    Ok ({| signing_keys := keys;
           key_rotation_schedules := rotated_now (key_rotation_schedules s) algorithm now |},
        {| created := Some kid; activated := promoted; superseded := old; retired := gone |})
  else
    Ok (set_keys s keys, {| created := None; activated := promoted; superseded := old; retired := gone |}).

(** [record] is the audit sink's answer. *)
Definition run (s : KeyDb) (algorithm : SigningAlgorithm) (now : Z) (forced : bool)
    (generate : result Generated DomainError) (record : KeyRotation -> result unit DomainError)
    : KeyDb * result KeyRotation DomainError :=
  match pass s algorithm now forced generate with
  | Err e => (s, Err e)
  | Ok (s, rotation) =>
      (s, if forced || negb (KeyRotation.is_empty rotation)
          then let? _ := record rotation in Ok rotation
          else Ok rotation)
  end.

Definition rotate (s : KeyDb) (algorithm : SigningAlgorithm) (now : Z)
    (generate : result Generated DomainError) (record : KeyRotation -> result unit DomainError) :=
  run s algorithm now true generate record.
Definition apply_schedule (s : KeyDb) (algorithm : SigningAlgorithm) (now : Z)
    (generate : result Generated DomainError) (record : KeyRotation -> result unit DomainError) :=
  run s algorithm now false generate record.

(** [select alg, state … where kid = $2 and purpose = 'sig']. *)
Definition signing_row (s : KeyDb) (kid : string) : result SigningKeyRow DomainError :=
  let? r := ok_or (signing_keys s !! kid) NotFound in
  guard? bool_decide (k_purpose r = Signing) else NotFound in Ok r.

Definition activate (s : KeyDb) (kid : string) (now : Z) (record : KeyRotation -> result unit DomainError)
    : KeyDb * result KeyRotation DomainError :=
  match signing_row s kid with
  | Err e => (s, Err e)
  | Ok r =>
      match k_state r with
      | Active => (s, Ok KeyRotation.default)
      | Retiring | Retired | Purged => (s, Err Conflict)
      | Pending =>
          let '(keys, old) := promote (signing_keys s) (k_alg r) kid now in
          let rotation := {| created := None; activated := Some kid; superseded := old; retired := [] |} in
          (set_keys s keys, let? _ := record rotation in Ok rotation)
      end
  end.

Definition retire (s : KeyDb) (kid : string) (now : Z) (record : KeyRotation -> result unit DomainError)
    : KeyDb * result KeyRotation DomainError :=
  match signing_row s kid with
  | Err e => (s, Err e)
  | Ok r =>
      match k_state r with
      | Retired | Purged => (s, Ok KeyRotation.default)
      | Active => (s, Err Conflict)
      | Pending | Retiring =>
          let rotation := {| created := None; activated := None; superseded := None; retired := [kid] |} in
          (set_keys s (alter (to_retired now) kid (signing_keys s)), let? _ := record rotation in Ok rotation)
      end
  end.

Definition purge (s : KeyDb) (kid : string) (now : Z) (record : result unit DomainError)
    : KeyDb * result KeyPurge DomainError :=
  match signing_row s kid with
  | Err e => (s, Err e)
  | Ok r =>
      let done destroyed := {| purge_kid := kid; previous_state := k_state r; destroyed := destroyed |} in
      match k_state r with
      | Active => (s, Err Conflict)
      | Purged => (s, Ok (done false))
      | Pending | Retiring | Retired =>
          (set_keys s (alter (to_purged now) kid (signing_keys s)), let? _ := record in Ok (done true))
      end
  end.

(** [KeyRow] as selected, and read back. *)
Record KeyRow : Type := {
  row_kid : string;
  row_alg : string;
  row_purpose : string;
  row_state : string;
  row_public_jwk : value;
  row_created_at : Z
}.
Definition columns (kid : string) (r : SigningKeyRow) : KeyRow := {|
  row_kid := kid; row_alg := SigningAlgorithm.as_str (k_alg r);
  row_purpose := KeyPurpose.as_str (k_purpose r); row_state := KeyState.as_str (k_state r);
  row_public_jwk := k_public_jwk r; row_created_at := k_created_at r |}.
Definition into_record (row : KeyRow) : result PublicKeyRecord DomainError :=
  let? algorithm := ok_or (SigningAlgorithm.parse (row_alg row)) (Invalid "alg") in
  let? purpose := ok_or (KeyPurpose.parse (row_purpose row)) (Invalid "purpose") in
  let? state := ok_or (KeyState.parse (row_state row)) (Invalid "state") in
  guard? bool_decide ((vget "use" (row_public_jwk row) ≫= as_str) = Some (KeyPurpose.as_str purpose))
    else Invalid "public_jwk" in
  Ok {| pk_tenant := tenant; pk_kid := row_kid row; pk_algorithm := algorithm; pk_purpose := purpose;
        pk_state := state; pk_public_jwk := row_public_jwk row; pk_created_at := row_created_at row |}.

(** [order by case state … end, created_at desc, kid]; [kid_le] is the collation. *)
Variable kid_le : string -> string -> bool.
Definition published_rank (s : KeyState) : Z :=
  match s with Active => 0 | Pending => 1 | _ => 2 end.
Definition published_first (a b : string * SigningKeyRow) : bool :=
  let '(ra, rb) := (published_rank (k_state a.2), published_rank (k_state b.2)) in
  (ra <? rb)
  || ((ra =? rb) && ((k_created_at b.2 <? k_created_at a.2)
                     || ((k_created_at a.2 =? k_created_at b.2) && kid_le a.1 b.1))).
Definition published_keys (s : KeyDb) (asked : string) : result (list PublicKeyRecord) DomainError :=
  guard? String.eqb asked tenant else Invalid "tenant_id" in
  try_mapi (fun _ kr => into_record (columns kr.1 kr.2)) 0
    (sort_by published_first (selected (fun r => KeyState.is_published (k_state r)) (signing_keys s))).

(** [order by alg, case state … end, created_at desc, kid]. *)
Definition inventory_rank (s : KeyState) : Z :=
  match s with Active => 0 | Pending => 1 | Retiring => 2 | _ => 3 end.
Definition inventory_first (a b : string * SigningKeyRow) : bool :=
  let '(aa, ab) := (SigningAlgorithm.as_str (k_alg a.2), SigningAlgorithm.as_str (k_alg b.2)) in
  let '(ra, rb) := (inventory_rank (k_state a.2), inventory_rank (k_state b.2)) in
  (kid_le aa ab && negb (String.eqb aa ab))
  || (String.eqb aa ab
      && ((ra <? rb)
          || ((ra =? rb) && ((k_created_at b.2 <? k_created_at a.2)
                             || ((k_created_at a.2 =? k_created_at b.2) && kid_le a.1 b.1))))).
Definition inventory (s : KeyDb) : result (list PublicKeyRecord) DomainError :=
  try_mapi (fun _ kr => into_record (columns kr.1 kr.2)) 0
    (sort_by inventory_first (map_to_list (signing_keys s))).

Definition public_key (s : KeyDb) (asked kid : string) : result (option PublicKeyRecord) DomainError :=
  guard? String.eqb asked tenant else Invalid "tenant_id" in
  match signing_keys s !! kid with
  | None => Ok None
  | Some r =>
      let? record := into_record (columns kid r) in
      Ok (if KeyState.is_trusted (pk_state record) then Some record else None)
  end.

Definition active_signing_key (s : KeyDb) (algorithm : SigningAlgorithm)
    : result (option (string * SigningKey)) DomainError :=
  match head (selected (of_alg algorithm Active) (signing_keys s)) with
  | None => Ok None
  | Some (kid, r) =>
      let? wrapped := ok_or (k_material r ≫= from_parts) Storage in
      let? key := ok_or (unseal kid algorithm wrapped) Storage in
      Ok (Some (kid, key))
  end.
End PgKeyRepository.
End PgKeyRepository.

(** ** The administration *)

Module TenantKeyStore.
Section TenantKeyStore.
Variable thumbprint : value -> result string DomainError.
Variable SigningKey : Type.
Variable unseal : string -> SigningAlgorithm -> WrappedKey -> option SigningKey.

(** The state a row lock on the key is taken in. *)
Definition signing_authority (s : KeyDb) (kid : string) (algorithm : SigningAlgorithm) : bool :=
  match signing_keys s !! kid with
  | Some r =>
      bool_decide (k_alg r = algorithm) && bool_decide (k_purpose r = Signing)
      && match k_state r with Active | Retiring => true | _ => false end
  | None => false
  end.

Definition apply_schedule (s : KeyDb) (now : Z)
    (generate : SigningAlgorithm -> result Generated DomainError)
    (record : KeyRotation -> result unit DomainError) : KeyDb * result unit DomainError :=
  (fix go (algorithms : list SigningAlgorithm) (s : KeyDb) :=
     match algorithms with
     | [] => (s, Ok tt)
     | algorithm :: rest =>
         match PgKeyRepository.apply_schedule thumbprint s algorithm now (generate algorithm) record with
         | (s, Err e) => (s, Err e)
         | (s, Ok _) =>
             match PgKeyRepository.active_signing_key SigningKey unseal s algorithm with
             | Err e => (s, Err e)
             | Ok None => (s, Err (Invalid "signing_keys"))
             | Ok (Some _) => go rest s
             end
         end
     end) SigningAlgorithm.ALL s.

Definition rotate (s : KeyDb) (algorithm : SigningAlgorithm) (activation : Activation) (now : Z)
    (generate : result Generated DomainError) (record : KeyRotation -> result unit DomainError)
    : KeyDb * result KeyRotation DomainError :=
  match PgKeyRepository.rotate thumbprint s algorithm now generate record with
  | (s, Err e) => (s, Err e)
  | (s, Ok staged) =>
      match activation, created staged with
      | OnSchedule, _ | Immediate, None => (s, Ok staged)
      | Immediate, Some kid =>
          match PgKeyRepository.activate s kid now record with
          | (s, Err e) => (s, Err e)
          | (s, Ok promoted) =>
              (s, Ok {| created := created staged;
                        activated := match activated promoted with Some k => Some k | None => activated staged end;
                        superseded := match superseded promoted with Some k => Some k | None => superseded staged end;
                        retired := retired staged |})
          end
      end
  end.

Definition apply_schedule_now (s : KeyDb) (now : Z)
    (generate : SigningAlgorithm -> result Generated DomainError)
    (record : KeyRotation -> result unit DomainError)
    : KeyDb * result (list (SigningAlgorithm * KeyRotation)) DomainError :=
  (fix go (algorithms : list SigningAlgorithm) (s : KeyDb) (passes : list (SigningAlgorithm * KeyRotation)) :=
     match algorithms with
     | [] => (s, Ok (rev passes))
     | algorithm :: rest =>
         match PgKeyRepository.apply_schedule thumbprint s algorithm now (generate algorithm) record with
         | (s, Err e) => (s, Err e)
         | (s, Ok one) => go rest s ((algorithm, one) :: passes)
         end
     end) SigningAlgorithm.ALL s [].
End TenantKeyStore.
End TenantKeyStore.

(** [declarative_tenants.rs]: a tenant's first key of an algorithm, with its
    schedule. *)
Definition provision_initial_key (thumbprint : value -> result string DomainError) (s : KeyDb)
    (algorithm : SigningAlgorithm) (now : Z) (generate : result Generated DomainError)
    : result KeyDb DomainError :=
  let? key := generate in
  let? kid := thumbprint (gen_jwk key) in
  guard? bool_decide (key_rotation_schedules s !! algorithm = None) else Conflict in
  guard? match select_one (of_alg algorithm Active) (signing_keys s) with None => true | Some _ => false end
    else Conflict in
  let? keys := PgKeyRepository.insert_key (signing_keys s) kid
    (PgKeyRepository.generated_row algorithm (with_kid (gen_jwk key) kid) (gen_wrapped key) true now) in
  Ok {| signing_keys := keys;
        key_rotation_schedules := <[algorithm := {|
          rotation_period_seconds := 7776000; propagation_period_seconds := 900;
          grace_period_seconds := 604800; s_last_rotated_at := Some now |}]> (key_rotation_schedules s) |}.

(** [rewrap.rs]: the row's private half under another key-encryption key. *)
Definition rewrap_row (s : KeyDb) (kid from : string) (resealed : WrappedKey) : KeyDb :=
  set_keys s (alter (fun r =>
    if bool_decide (kek_id <$> k_material r = Some from)
    then as_state r (k_state r) (Some resealed) (k_activated_at r) (k_retiring_at r) (k_retired_at r) (k_purged_at r)
    else r) kid (signing_keys s)).
