(* ===== verification/KeysLaws.v ===== *)
(** * Laws of the signing-key repository

    The invariant of the table, what every operation does to a row, and the theorems
    on rotation: signing is never interrupted, keys move forward, a promoted key has
    been published for long enough, a purge is final, a pass settles. The histories are
    those of a tenant that stays; its deletion is added by [life_step]. *)

From S2P Require Import Prelude BTree Json RateLimit.
From S2P Require Import Grants.
From S2P Require Import GrantStore.
From S2P Require Import Keys.
From stdpp Require Import sorting.
Import PgKeyRepository.
Open Scope Z_scope.

(** ** Rows *)

Definition unstamped (o : option Z) : Prop := o = None.

(** The checks of the schema on one row. *)
Definition stamps_follow (r : SigningKeyRow) : Prop :=
  match k_state r with
  | Pending => k_activated_at r = None /\ k_retiring_at r = None /\ k_retired_at r = None /\ k_purged_at r = None
  | Active => is_Some (k_activated_at r) /\ k_retiring_at r = None /\ k_retired_at r = None /\ k_purged_at r = None
  | Retiring => is_Some (k_activated_at r) /\ is_Some (k_retiring_at r) /\ k_retired_at r = None /\ k_purged_at r = None
  | Retired => is_Some (k_retired_at r) /\ k_purged_at r = None
  | Purged => is_Some (k_retired_at r) /\ is_Some (k_purged_at r)
  end.
Definition row_ok (r : SigningKeyRow) : Prop :=
  stamps_follow r /\ (k_material r = None <-> k_state r = Purged)
  /\ (vget "use" (k_public_jwk r) ≫= as_str) = Some (KeyPurpose.as_str (k_purpose r)).

(** How far a key has come. *)
Definition stage_of (s : KeyState) : Z :=
  match s with Pending => 0 | Active => 1 | Retiring => 2 | Retired => 3 | Purged => 4 end.
Definition stamp_kept (o o' : option Z) : Prop := forall t, o = Some t -> o' = Some t.

(** What may become of a row: its identity is fixed, its state only moves on, a stamp
    is written once and destroyed material stays destroyed. *)
Definition row_moves (r r' : SigningKeyRow) : Prop :=
  k_alg r' = k_alg r /\ k_purpose r' = k_purpose r /\ k_public_jwk r' = k_public_jwk r
  /\ k_created_at r' = k_created_at r /\ stage_of (k_state r) <= stage_of (k_state r')
  /\ stamp_kept (k_activated_at r) (k_activated_at r') /\ stamp_kept (k_retiring_at r) (k_retiring_at r')
  /\ stamp_kept (k_retired_at r) (k_retired_at r') /\ stamp_kept (k_purged_at r) (k_purged_at r')
  /\ (k_material r = None -> k_material r' = None).

#[export] Instance row_moves_preorder : PreOrder row_moves.
Proof.
  split.
  - intros r. unfold row_moves, stamp_kept. naive_solver lia.
  - unfold row_moves, stamp_kept. intros r1 r2 r3 H1 H2. destruct_and!.
    split_and!; try congruence; try lia; naive_solver.
Qed.

Lemma of_alg_iff a st r :
  of_alg a st r = true <-> k_purpose r = Signing /\ k_state r = st /\ k_alg r = a.
Proof. unfold of_alg, in_state. rewrite !andb_true_iff, !bool_decide_eq_true. tauto. Qed.

Lemma in_state_iff st r : in_state st r = true <-> k_purpose r = Signing /\ k_state r = st.
Proof. unfold in_state. by rewrite andb_true_iff, !bool_decide_eq_true. Qed.

(** ** Selections and updates *)

Lemma elem_of_selected p (keys : Keys) kid r :
  In (kid, r) (selected p keys) <-> keys !! kid = Some r /\ p r = true.
Proof.
  unfold selected. rewrite <- list_elem_of_In, elem_of_map_to_list, map_lookup_filter_Some. done.
Qed.

Lemma select_one_Some p (keys : Keys) kid :
  select_one p keys = Some kid -> exists r, keys !! kid = Some r /\ p r = true.
Proof.
  unfold select_one. destruct (selected p keys) as [|[k r] l] eqn:Hs; [done|].
  intros [= <-]. exists r. apply elem_of_selected. rewrite Hs. by left.
Qed.

Lemma select_one_None p (keys : Keys) :
  select_one p keys = None <-> (forall kid r, keys !! kid = Some r -> p r = false).
Proof.
  unfold select_one. split.
  - destruct (selected p keys) eqn:Hs; [|done]. intros _ kid r Hk.
    destruct (p r) eqn:Hp; [|done]. assert (Hin : In (kid, r) (selected p keys)) by by apply elem_of_selected.
    by rewrite Hs in Hin.
  - intros H. destruct (selected p keys) as [|[k r] l] eqn:Hs; [done|].
    assert (Hin : In (k, r) (selected p keys)) by (rewrite Hs; by left).
    apply elem_of_selected in Hin as [Hk Hp]. by rewrite (H k r Hk) in Hp.
Qed.

Lemma lookup_update_where p f (keys : Keys) kid :
  update_where p f keys !! kid = (fun r => if p r then f r else r) <$> keys !! kid.
Proof. apply lookup_fmap. Qed.

(** ** The invariant *)

Definition covered (a : SigningAlgorithm) (keys : Keys) : Prop :=
  exists kid r, keys !! kid = Some r /\ of_alg a Active r = true.
Definition at_most_one (st : KeyState) (keys : Keys) : Prop :=
  forall a kid kid' r r', keys !! kid = Some r -> keys !! kid' = Some r' ->
    of_alg a st r = true -> of_alg a st r' = true -> kid = kid'.
Record keys_inv (keys : Keys) : Prop := {
  inv_rows : forall kid r, keys !! kid = Some r -> row_ok r;
  inv_active : at_most_one Active keys;
  inv_pending : at_most_one Pending keys;
  inv_follows : forall a kid r, keys !! kid = Some r -> of_alg a Pending r = true -> covered a keys
}.
Definition key_inv (s : KeyDb) : Prop :=
  keys_inv (signing_keys s)
  /\ forall a sr, key_rotation_schedules s !! a = Some sr ->
       schedule_ok (rotation_period_seconds sr) (propagation_period_seconds sr) (grace_period_seconds sr) = true
       /\ (is_Some (s_last_rotated_at sr) -> covered a (signing_keys s)).

(** The rows that were there are there, moved on. *)
Definition keeps_keys (keys keys' : Keys) : Prop :=
  forall kid r, keys !! kid = Some r -> exists r', keys' !! kid = Some r' /\ row_moves r r'.
(** … no algorithm lost its active key. *)
Definition keeps_cover (keys keys' : Keys) : Prop := forall a, covered a keys -> covered a keys'.
Definition evolves (keys keys' : Keys) : Prop :=
  keys_inv keys' /\ keeps_keys keys keys' /\ keeps_cover keys keys'.

#[export] Instance keeps_keys_preorder : PreOrder keeps_keys.
Proof.
  split.
  - intros k kid r H. by exists r.
  - intros k1 k2 k3 H1 H2 kid r Hr. destruct (H1 kid r Hr) as (r2 & Hr2 & Hm).
    destruct (H2 kid r2 Hr2) as (r3 & Hr3 & Hm'). exists r3. split; [done|]. by etrans.
Qed.

Lemma evolves_refl keys : keys_inv keys -> evolves keys keys.
Proof. intros H. by split_and!; [|reflexivity|intros a]. Qed.

Lemma evolves_trans k1 k2 k3 : evolves k1 k2 -> evolves k2 k3 -> evolves k1 k3.
Proof.
  intros (_ & Hk & Hc) (Hi & Hk' & Hc'). split_and!; [done|by etrans|]. intros a H. by apply Hc', Hc.
Qed.

(** An update that takes rows out of [pending] and [retiring] only, and starts
    nothing. *)
Definition winds_down (r r' : SigningKeyRow) : Prop :=
  k_state r' = k_state r \/ (k_state r <> Active /\ k_state r' <> Active /\ k_state r' <> Pending).

Lemma evolves_pointwise keys keys' :
  keys_inv keys ->
  (forall kid, match keys !! kid, keys' !! kid with
               | Some r, Some r' => row_ok r' /\ row_moves r r' /\ winds_down r r'
               | None, None => True
               | _, _ => False
               end) ->
  evolves keys keys'.
Proof.
  intros [Hr Ha Hp Hf] Hpt.
  assert (Hback : forall a st kid r', keys' !! kid = Some r' -> of_alg a st r' = true ->
    st = Active \/ st = Pending -> exists r, keys !! kid = Some r /\ of_alg a st r = true).
  { intros a st kid r' Hk Ho Hst. specialize (Hpt kid). rewrite Hk in Hpt.
    destruct (keys !! kid) as [r|]; [|done]. exists r. split; [done|].
    destruct Hpt as (_ & (Hal & Hpu & _) & Hw). apply of_alg_iff in Ho as (Ho1 & Ho2 & Ho3).
    apply of_alg_iff. destruct Hw as [Hw|Hw]; [split_and!; congruence|]. naive_solver. }
  assert (Hfwd : keeps_cover keys keys').
  { intros a (kid & r & Hk & Ho). specialize (Hpt kid). rewrite Hk in Hpt.
    destruct (keys' !! kid) as [r'|] eqn:Hk'; [|done]. exists kid, r'. split; [done|].
    destruct Hpt as (_ & (Hal & Hpu & _) & Hw). apply of_alg_iff in Ho as (Ho1 & Ho2 & Ho3).
    apply of_alg_iff. destruct Hw as [Hw|Hw]; [split_and!; congruence|]. naive_solver. }
  split_and!; [split| |done].
  - intros kid r' Hk. specialize (Hpt kid). rewrite Hk in Hpt. destruct (keys !! kid); naive_solver.
  - intros a kid kid' r r' Hk Hk' Ho Ho'.
    destruct (Hback _ _ _ _ Hk Ho) as (q & ? & ?); [by left|].
    destruct (Hback _ _ _ _ Hk' Ho') as (q' & ? & ?); [by left|]. by eapply (Ha a).
  - intros a kid kid' r r' Hk Hk' Ho Ho'.
    destruct (Hback _ _ _ _ Hk Ho) as (q & ? & ?); [by right|].
    destruct (Hback _ _ _ _ Hk' Ho') as (q' & ? & ?); [by right|]. by eapply (Hp a).
  - intros a kid r' Hk Ho. destruct (Hback _ _ _ _ Hk Ho) as (q & Hq & ?); [by right|].
    by apply Hfwd, (Hf a kid q).
  - intros kid r Hk. specialize (Hpt kid). rewrite Hk in Hpt. destruct (keys' !! kid) as [r'|]; naive_solver.
Qed.

(** ** What the updates do *)

Ltac stamps :=
  unfold row_ok, row_moves, stamps_follow, stamp_kept, winds_down, to_active, to_retiring, to_retired,
    to_purged, as_state in *; cbn in *.

Ltac row_auto :=
  intuition first [discriminate | lia | congruence | by eauto].

Lemma retired_ok now r :
  row_ok r -> k_state r = Pending \/ k_state r = Retiring ->
  row_ok (to_retired now r) /\ row_moves r (to_retired now r) /\ winds_down r (to_retired now r).
Proof. stamps. intros (Hs & Hm & Hu) Hst. destruct (k_state r); row_auto. Qed.

Lemma purged_ok now r :
  row_ok r -> k_state r <> Active -> k_state r <> Purged ->
  row_ok (to_purged now r) /\ row_moves r (to_purged now r) /\ winds_down r (to_purged now r).
Proof.
  stamps. intros (Hs & Hm & Hu) Ha Hp.
  destruct (k_state r), (k_retired_at r); cbn in *; row_auto.
Qed.

Lemma retiring_ok now r :
  row_ok r -> k_state r = Active -> row_ok (to_retiring now r) /\ row_moves r (to_retiring now r).
Proof. stamps. intros (Hs & Hm & Hu) Hst. destruct (k_state r); row_auto. Qed.

Lemma active_ok now r :
  row_ok r -> k_state r = Pending -> row_ok (to_active now r) /\ row_moves r (to_active now r).
Proof. stamps. intros (Hs & Hm & Hu) Hst. destruct (k_state r); row_auto. Qed.

Lemma row_same r : row_moves r r /\ winds_down r r.
Proof. split; [reflexivity|by left]. Qed.

Lemma alter_evolves keys kid r f :
  keys_inv keys -> keys !! kid = Some r ->
  row_ok (f r) /\ row_moves r (f r) /\ winds_down r (f r) -> evolves keys (alter f kid keys).
Proof.
  intros Hi Hk Hf. apply evolves_pointwise; [done|]. intros kid'. rewrite lookup_alter.
  case_decide as Hd; [subst; by rewrite Hk|]. destruct (keys !! kid') as [q|] eqn:Hq; [|done].
  split; [by eapply inv_rows|apply row_same].
Qed.

Lemma retire_due_evolves keys limit now :
  keys_inv keys -> evolves keys (fst (retire_due keys limit now)).
Proof.
  intros Hi. apply evolves_pointwise; [done|]. intros kid. cbn. rewrite lookup_update_where.
  destruct (keys !! kid) as [r|] eqn:Hk; [|done]. cbn. pose proof (inv_rows _ Hi kid r Hk) as Hr.
  destruct (grace_over limit r) eqn:Hg; [|by split; [|apply row_same]].
  unfold grace_over in Hg. bool_hyps. apply in_state_iff in H as [_ Hs].
  apply retired_ok; [done|by right].
Qed.

Lemma promote_lookup keys a kid r now kid' :
  keys !! kid = Some r -> of_alg a Pending r = true ->
  fst (promote keys a kid now) !! kid'
  = if decide (kid = kid') then Some (to_active now r)
    else (fun q => if of_alg a Active q then to_retiring now q else q) <$> keys !! kid'.
Proof.
  intros Hk Ho. unfold promote. cbn. rewrite lookup_alter. case_decide; [subst|by rewrite lookup_update_where].
  rewrite lookup_update_where, Hk. cbn. destruct (of_alg a Active r) eqn:Ha; [|done].
  apply of_alg_iff in Ha, Ho. naive_solver congruence.
Qed.

Lemma promote_evolves keys a kid r now :
  keys_inv keys -> keys !! kid = Some r -> of_alg a Pending r = true ->
  evolves keys (fst (promote keys a kid now)).
Proof.
  intros Hi Hk Ho. pose proof (inv_rows _ Hi kid r Hk) as Hr.
  pose proof (proj1 (of_alg_iff _ _ _) Ho) as (Hpu & Hst & Hal).
  destruct (active_ok now r Hr Hst) as [Hok Hmv].
  (* every row of the result, by where it comes from *)
  assert (Hback : forall kid' r', fst (promote keys a kid now) !! kid' = Some r' ->
    (kid' = kid /\ r' = to_active now r)
    \/ (kid' <> kid /\ exists q, keys !! kid' = Some q /\ row_ok r' /\ row_moves q r'
          /\ ((of_alg a Active q = true /\ k_state r' = Retiring) \/ (of_alg a Active q = false /\ r' = q)))).
  { intros kid' r'. rewrite (promote_lookup keys a kid r now kid' Hk Ho). case_decide as Hd.
    - intros [= <-]. by left.
    - intros Hl. right. split; [done|]. destruct (keys !! kid') as [q|] eqn:Hq; [|done]. injection Hl as <-.
      exists q. split; [done|]. pose proof (inv_rows _ Hi kid' q Hq) as Hqk.
      destruct (of_alg a Active q) eqn:Hoq; [|by split_and!; [|reflexivity|right]].
      apply of_alg_iff in Hoq as (? & ? & ?). destruct (retiring_ok now q Hqk) as [? ?]; [done|]. auto. }
  assert (Hnew : covered a (fst (promote keys a kid now))).
  { exists kid, (to_active now r). rewrite (promote_lookup keys a kid r now kid Hk Ho), decide_True by done.
    split; [done|]. by apply of_alg_iff. }
  assert (Hcov : keeps_cover keys (fst (promote keys a kid now))).
  { intros b (kid' & q & Hq & Hoq). destruct (decide (b = a)) as [->|Hb]; [done|].
    exists kid', q. rewrite (promote_lookup keys a kid r now kid' Hk Ho).
    apply of_alg_iff in Hoq as (? & ? & ?). rewrite decide_False by congruence. rewrite Hq. cbn.
    destruct (of_alg a Active q) eqn:Hoa; [apply of_alg_iff in Hoa; naive_solver congruence|].
    split; [done|]. by apply of_alg_iff. }
  split_and!; [split| |done].
  - intros kid' r' Hl. apply Hback in Hl as [[-> ->]|(_ & q & _ & ? & _)]; done.
  - intros b k1 k2 r1 r2 H1 H2 O1 O2.
    apply of_alg_iff in O1 as (P1 & S1 & A1), O2 as (P2 & S2 & A2).
    apply Hback in H1 as [[-> ->]|(Hne1 & q1 & Hq1 & _ & M1 & [[Hx ?]|[Hx ->]])]; [|congruence|];
    apply Hback in H2 as [[-> ->]|(Hne2 & q2 & Hq2 & _ & M2 & [[Hy ?]|[Hy ->]])]; try congruence; try done.
    + cbn in *. assert (of_alg a Active q2 = true); [apply of_alg_iff; split_and!; congruence|congruence].
    + cbn in *. assert (of_alg a Active q1 = true); [apply of_alg_iff; split_and!; congruence|congruence].
    + apply (inv_active _ Hi b k1 k2 q1 q2 Hq1 Hq2); apply of_alg_iff; split_and!; congruence.
  - intros b k1 k2 r1 r2 H1 H2 O1 O2.
    apply of_alg_iff in O1 as (P1 & S1 & A1), O2 as (P2 & S2 & A2).
    apply Hback in H1 as [[-> ->]|(Hne1 & q1 & Hq1 & _ & M1 & [[Hx ?]|[Hx ->]])]; try (cbn in *; congruence).
    apply Hback in H2 as [[-> ->]|(Hne2 & q2 & Hq2 & _ & M2 & [[Hy ?]|[Hy ->]])]; try (cbn in *; congruence).
    apply (inv_pending _ Hi b k1 k2 q1 q2 Hq1 Hq2); apply of_alg_iff; split_and!; congruence.
  - intros b k1 r1 H1 O1. apply of_alg_iff in O1 as (P1 & S1 & A1).
    apply Hback in H1 as [[-> ->]|(Hne1 & q1 & Hq1 & _ & M1 & [[Hx ?]|[Hx ->]])]; try (cbn in *; congruence).
    apply Hcov, (inv_follows _ Hi b k1 q1 Hq1). by apply of_alg_iff.
  - intros kid' q Hq. rewrite (promote_lookup keys a kid r now kid' Hk Ho). case_decide as Hd.
    + subst. exists (to_active now r). split; [done|]. by replace q with r by congruence.
    + rewrite Hq. cbn. eexists. split; [done|]. destruct (of_alg a Active q) eqn:Hoq; [|reflexivity].
      apply of_alg_iff in Hoq as (? & ? & ?). by apply retiring_ok; [eapply inv_rows|].
Qed.

(** An insert the schema admits: the first key of an algorithm, or one more beside an
    active one and no other pending. *)
Lemma insert_evolves keys keys' kid a jwk w first now :
  keys_inv keys -> insert_key keys kid (generated_row a jwk w first now) = Ok keys' ->
  (if first then ~ covered a keys else covered a keys /\ forall k r, keys !! k = Some r -> of_alg a Pending r = false) ->
  evolves keys keys' /\ covered a keys'.
Proof.
  unfold insert_key. intros Hi H Hf. ok_inv. subst keys'. bool_hyps.
  set (row := generated_row a jwk w first now) in *.
  assert (Hrow : of_alg a (if first then Active else Pending) row = true) by (apply of_alg_iff; by destruct first).
  assert (Honly : forall b st, of_alg b st row = true -> b = a /\ st = if first then Active else Pending).
  { intros b st Ho. apply of_alg_iff in Ho as (_ & <- & <-). by destruct first. }
  assert (Hne : forall k r, keys !! k = Some r -> k <> kid) by congruence.
  assert (Hcov : keeps_cover keys (<[kid := row]> keys)).
  { intros b (k & r & Hk & Ho). exists k, r. split; [|done].
    by rewrite lookup_insert_ne by (apply not_eq_sym; eauto). }
  assert (Hnew : covered a (<[kid := row]> keys)).
  { destruct first; [|by apply Hcov, Hf]. exists kid, row. by rewrite lookup_insert, decide_True. }
  assert (Hold : forall b st k r, keys !! k = Some r -> of_alg b st r = true -> of_alg b st row = true ->
    st = Active \/ st = Pending -> False).
  { intros b st k r Hk Ho Hb Hst. apply Honly in Hb as [-> ->]. destruct first; [apply Hf; by exists k, r|].
    destruct Hf as [_ Hf]. by rewrite (Hf k r Hk) in Ho. }
  assert (Hone : forall st, st = Active \/ st = Pending -> at_most_one st keys -> at_most_one st (<[kid := row]> keys)).
  { intros st Hst Hone b k1 k2 r1 r2. rewrite !lookup_insert.
    repeat case_decide; subst; [done|intros [= <-] ? ? ?|intros ? [= <-] ? ?|by apply Hone];
      exfalso; eapply Hold; eauto. }
  split; [split_and!; [split| |done]|done].
  - intros k r. rewrite lookup_insert. case_decide; [intros [= <-]|apply (inv_rows _ Hi)].
    unfold row, generated_row in *. stamps. destruct first; cbn; intuition first [discriminate|by eauto].
  - apply Hone; [by left|apply (inv_active _ Hi)].
  - apply Hone; [by right|apply (inv_pending _ Hi)].
  - intros b k r. rewrite lookup_insert. case_decide; intros Hk Ho.
    + injection Hk as <-. by apply Honly in Ho as [-> _].
    + by apply Hcov, (inv_follows _ Hi b k r).
  - intros k r Hk. exists r. by rewrite lookup_insert_ne by (apply not_eq_sym; eauto).
Qed.

Section Repository.
Variable thumbprint : value -> result string DomainError.

Lemma stage_evolves keys keys' a now generate kid :
  keys_inv keys -> stage thumbprint keys a now generate = Ok (keys', kid) ->
  evolves keys keys' /\ covered a keys'.
Proof.
  unfold stage. intros Hi H. destruct (select_one (of_alg a Pending) keys) as [staged|] eqn:Hp.
  { ok_inv. injection H as <- <-. split; [by apply evolves_refl|].
    apply select_one_Some in Hp as (r & Hk & Ho). by eapply inv_follows. }
  ok_inv. injection H as <- <-. eapply insert_evolves; [done..|].
  destruct (select_one (of_alg a Active) keys) as [k|] eqn:Ha.
  - split; [|by apply select_one_None]. apply select_one_Some in Ha as (r & ? & ?). by exists k, r.
  - intros (k & r & Hk & Ho). rewrite select_one_None in Ha. by rewrite (Ha k r Hk) in Ho.
Qed.

Lemma promote_ready_evolves keys a limit now :
  keys_inv keys -> evolves keys (fst (promote_ready keys a limit now)).
Proof.
  unfold promote_ready. intros Hi. destruct (select_one _ keys) as [kid|] eqn:Hs; [|by apply evolves_refl].
  apply select_one_Some in Hs as (r & Hk & Hp). unfold propagated in Hp. bool_hyps.
  pose proof (promote_evolves keys a kid r now Hi Hk ltac:(done)) as Hev. by destruct (promote _ _ _ _).
Qed.

(** The schedules under the invariant. *)
Definition schedules_inv (s : KeyDb) : Prop := forall a sr, key_rotation_schedules s !! a = Some sr ->
  schedule_ok (rotation_period_seconds sr) (propagation_period_seconds sr) (grace_period_seconds sr) = true
  /\ (is_Some (s_last_rotated_at sr) -> covered a (signing_keys s)).

(** A state of the history: the table evolved, the invariant kept. *)
Definition step_ok (s s' : KeyDb) : Prop := evolves (signing_keys s) (signing_keys s') /\ key_inv s'.

Lemma step_ok_refl s : key_inv s -> step_ok s s.
Proof. intros H. split; [apply evolves_refl, H|done]. Qed.

Lemma step_ok_trans s1 s2 s3 : step_ok s1 s2 -> step_ok s2 s3 -> step_ok s1 s3.
Proof. intros [H1 _] [H2 ?]. split; [by eapply evolves_trans|done]. Qed.

Lemma set_keys_ok s keys : key_inv s -> evolves (signing_keys s) keys -> step_ok s (set_keys s keys).
Proof.
  intros [Hi Hs] He. split; [done|]. pose proof He as (Hi' & _ & Hc). split; [done|].
  intros a sr Hl. destruct (Hs a sr Hl) as [? Hcov]. split; [done|]. intros Hr. by apply Hc, Hcov.
Qed.

Lemma ensure_schedule_ok s a :
  key_inv s -> let '(s', sch) := ensure_schedule s a in
  step_ok s s' /\ signing_keys s' = signing_keys s
  /\ exists sr, key_rotation_schedules s' !! a = Some sr /\ sch = to_schedule sr
     /\ (forall b, b <> a -> key_rotation_schedules s' !! b = key_rotation_schedules s !! b).
Proof.
  unfold ensure_schedule. intros [Hi Hs]. destruct (key_rotation_schedules s !! a) as [sr|] eqn:Ha.
  - split_and!; [by apply step_ok_refl|done|eauto].
  - split_and!; [split; [by apply evolves_refl|split; [done|]]|done|].
    + intros b sr. cbn. rewrite lookup_insert. case_decide; [|apply Hs]. intros [= <-].
      split; [reflexivity|]. cbn. intros [? [=]].
    + exists default_schedule. cbn. rewrite lookup_insert, decide_True by done. split_and!; [done..|].
      intros b Hb. by rewrite lookup_insert_ne by done.
Qed.

Lemma rotated_now_ok s keys a now :
  key_inv s -> evolves (signing_keys s) keys -> covered a keys ->
  step_ok s {| signing_keys := keys; key_rotation_schedules := rotated_now (key_rotation_schedules s) a now |}.
Proof.
  intros [Hi Hs] He Hcov. split; [done|]. split; [apply He|]. intros b sr. cbn. unfold rotated_now.
  rewrite lookup_alter. case_decide as Hd; intros Hl.
  - subst. destruct (key_rotation_schedules s !! b) as [sr0|] eqn:Hb; [|done]. injection Hl as <-. cbn.
    split; [by apply (Hs b sr0)|done].
  - destruct (Hs b sr Hl) as [? Hc]. split; [done|]. intros Hr. by apply He, Hc.
Qed.

(** What a pass went through. *)
Lemma pass_Ok s a now forced generate s' rot :
  pass thumbprint s a now forced generate = Ok (s', rot) ->
  exists s0 sch keys1 keys2, ensure_schedule s a = (s0, sch)
    /\ retire_due (signing_keys s0) (now - grace_period sch) now = (keys1, retired rot)
    /\ promote_ready keys1 a (now - propagation_period sch) now = (keys2, (activated rot, superseded rot))
    /\ if forced || is_due sch now then
         exists keys3 kid, stage thumbprint keys2 a now generate = Ok (keys3, kid) /\ created rot = Some kid
           /\ s' = {| signing_keys := keys3; key_rotation_schedules := rotated_now (key_rotation_schedules s0) a now |}
       else created rot = None /\ s' = set_keys s0 keys2.
Proof.
  unfold pass. intros H. destruct (ensure_schedule s a) as [s0 sch].
  destruct (retire_due _ _ _) as [keys1 gone] eqn:H1.
  destruct (promote_ready keys1 _ _ _) as [keys2 [up down]] eqn:H2.
  exists s0, sch, keys1, keys2.
  destruct (forced || is_due sch now).
  - ok_inv. destruct a0 as [keys3 kid]. ok_inv. injection H as <- <-. cbn. eauto 10.
  - ok_inv. injection H as <- <-. by cbn.
Qed.

Lemma pass_ok s a now forced generate s' rot :
  key_inv s -> pass thumbprint s a now forced generate = Ok (s', rot) -> step_ok s s'.
Proof.
  intros Hinv H. apply pass_Ok in H as (s0 & sch & keys1 & keys2 & H0 & H1 & H2 & H3).
  pose proof (ensure_schedule_ok s a Hinv) as He. rewrite H0 in He. destruct He as (Hs0 & _ & _).
  eapply step_ok_trans; [exact Hs0|]. destruct Hs0 as [_ [Hi0 Hsch0]].
  pose proof (retire_due_evolves (signing_keys s0) (now - grace_period sch) now Hi0) as E1. rewrite H1 in E1.
  cbn in E1. pose proof (promote_ready_evolves keys1 a (now - propagation_period sch) now (proj1 E1)) as E2.
  rewrite H2 in E2. cbn in E2. pose proof (evolves_trans _ _ _ E1 E2) as E12.
  destruct (forced || is_due sch now).
  - destruct H3 as (keys3 & kid & Hst & _ & ->). apply stage_evolves in Hst as [E3 Hc]; [|apply E2].
    apply rotated_now_ok; [done|by eapply evolves_trans|done].
  - destruct H3 as [_ ->]. by apply set_keys_ok.
Qed.

(** ** Histories *)

(** What the server does to the keys of a tenant that stays. [PgTenantRepository::delete],
    which nothing in the server calls, removes them all with the tenant: [life_step]
    below adds it. *)
Inductive key_step (s : KeyDb) : KeyDb -> Prop :=
| step_run a now forced generate record : key_step s (fst (run thumbprint s a now forced generate record))
| step_activate kid now record : key_step s (fst (activate s kid now record))
| step_retire kid now record : key_step s (fst (retire s kid now record))
| step_purge kid now record : key_step s (fst (purge s kid now record))
| step_schedule a : key_step s (fst (schedule s a))
| step_set_schedule a sch s' : set_schedule s a sch = Ok s' -> key_step s s'
| step_provision a now generate s' :
    provision_initial_key thumbprint s a now generate = Ok s' -> key_step s s'
| step_rewrap kid from resealed : key_step s (rewrap_row s kid from resealed).

Definition no_keys : KeyDb := {| signing_keys := ∅; key_rotation_schedules := ∅ |}.
Definition key_reach (s : KeyDb) : Prop := rtc key_step no_keys s.

Lemma signing_row_Ok s kid r :
  signing_row s kid = Ok r -> signing_keys s !! kid = Some r /\ k_purpose r = Signing.
Proof. unfold signing_row. intros H. ok_inv. subst. by bool_hyps. Qed.

Lemma activate_ok s kid now record : key_inv s -> step_ok s (fst (activate s kid now record)).
Proof.
  intros Hs. unfold activate. destruct (signing_row s kid) as [r|e] eqn:Hr; [|by apply step_ok_refl].
  apply signing_row_Ok in Hr as [Hk Hp].
  destruct (k_state r) eqn:Hst; try by apply step_ok_refl.
  destruct Hs as [Hi Hsch]. pose proof (promote_evolves (signing_keys s) (k_alg r) kid r now Hi Hk) as He.
  destruct (promote _ _ _ _) as [keys old]. apply set_keys_ok; [done|]. apply He. by apply of_alg_iff.
Qed.

Lemma retire_ok s kid now record : key_inv s -> step_ok s (fst (retire s kid now record)).
Proof.
  intros Hs. unfold retire. destruct (signing_row s kid) as [r|e] eqn:Hr; [|by apply step_ok_refl].
  apply signing_row_Ok in Hr as [Hk Hp].
  destruct (k_state r) eqn:Hst; try (by apply step_ok_refl); apply set_keys_ok; try done;
    (eapply alter_evolves; [apply Hs|done|]; apply retired_ok; [by eapply inv_rows; [apply Hs|]|auto]).
Qed.

Lemma purge_ok s kid now record : key_inv s -> step_ok s (fst (purge s kid now record)).
Proof.
  intros Hs. unfold purge. destruct (signing_row s kid) as [r|e] eqn:Hr; [|by apply step_ok_refl].
  apply signing_row_Ok in Hr as [Hk Hp].
  destruct (k_state r) eqn:Hst; try (by apply step_ok_refl); apply set_keys_ok; try done;
    (eapply alter_evolves; [apply Hs|done|]; apply purged_ok; [by eapply inv_rows; [apply Hs|]|congruence..]).
Qed.

Lemma set_schedule_ok s a sch s' : key_inv s -> set_schedule s a sch = Ok s' -> step_ok s s'.
Proof.
  unfold set_schedule. intros [Hi Hs] H. ok_inv. subst s'. split; [by apply evolves_refl|].
  split; [done|]. intros b sr. cbn. rewrite lookup_insert. case_decide; [subst|apply Hs].
  intros [= <-]. cbn. split; [done|]. destruct (key_rotation_schedules s !! b) eqn:Hb; [|by intros [? [=]]].
  by apply (Hs b).
Qed.

Lemma provision_ok s a now generate s' :
  key_inv s -> provision_initial_key thumbprint s a now generate = Ok s' -> step_ok s s'.
Proof.
  unfold provision_initial_key. intros [Hi Hs] H. ok_inv. subst s'.
  match goal with Hk : insert_key _ _ _ = Ok _ |- _ => apply insert_evolves in Hk as [He Hc]; [|done|] end.
  - split; [done|]. split; [apply He|]. intros b sr. cbn. rewrite lookup_insert. case_decide; [subst|].
    + by intros [= <-].
    + intros Hb. destruct (Hs b sr Hb) as [? Hcov]. split; [done|]. intros Hr. by apply He, Hcov.
  - intros (k & r & Hk & Ho). destruct (select_one _ _) eqn:Hsel; [done|].
    rewrite select_one_None in Hsel. by rewrite (Hsel k r Hk) in Ho.
Qed.

Lemma rewrap_ok s kid from resealed : key_inv s -> step_ok s (rewrap_row s kid from resealed).
Proof.
  intros Hs. unfold rewrap_row. apply set_keys_ok; [done|].
  destruct (signing_keys s !! kid) as [r|] eqn:Hk.
  - eapply alter_evolves; [apply Hs|done|]. pose proof (inv_rows _ (proj1 Hs) kid r Hk) as Hr.
    case_bool_decide as Hf; [|by split; [|apply row_same]].
    destruct (k_material r) eqn:Hm; [|done]. stamps. rewrite Hm in Hr. row_auto.
  - apply evolves_pointwise; [apply Hs|]. intros k. rewrite lookup_alter. case_decide; [subst; by rewrite Hk|].
    destruct (signing_keys s !! k) as [q|] eqn:Hq; [|done]. split; [by eapply inv_rows; [apply Hs|]|apply row_same].
Qed.

Lemma key_step_ok s s' : key_inv s -> key_step s s' -> step_ok s s'.
Proof.
  intros Hs. destruct 1; eauto using activate_ok, retire_ok, purge_ok, set_schedule_ok, provision_ok, rewrap_ok.
  - unfold run. destruct (pass _ _ _ _ _ _) as [[s' rot]|e] eqn:Hp; [|by apply step_ok_refl].
    by eapply pass_ok.
  - unfold schedule. pose proof (ensure_schedule_ok s a Hs) as H. destruct (ensure_schedule s a). apply H.
Qed.

Lemma key_steps_ok s s' : key_inv s -> rtc key_step s s' -> step_ok s s'.
Proof.
  intros Hs H. induction H as [s|s1 s2 s3 H12 _ IH]; [by apply step_ok_refl|].
  pose proof (key_step_ok s1 s2 Hs H12) as H1. eapply step_ok_trans; [done|]. apply IH, H1.
Qed.

(** With the deletion of the tenant, whose rows the foreign keys delete: what is
    reached is reached without it, so that the invariants hold in every life of the
    tenant; what a theorem says of later states it says of those up to the deletion. *)
Definition delete_tenant (s : KeyDb) : KeyDb := no_keys.
Inductive life_step (s : KeyDb) : KeyDb -> Prop :=
| life_key s' : key_step s s' -> life_step s s'
| life_delete : life_step s (delete_tenant s).

Lemma life_reach s : rtc life_step no_keys s <-> key_reach s.
Proof.
  split; [|intros H; eapply rtc_subrel; [|exact H]; by constructor].
  intros H. enough (Hg : forall s0, rtc life_step s0 s -> key_reach s0 -> key_reach s) by (apply (Hg no_keys H), rtc_refl).
  clear H. induction 1 as [|s1 s2 s3 H12 _ IH]; intros H1; [done|]. apply IH.
  destruct H12 as [s2 Hk|]; [by eapply rtc_r|apply rtc_refl].
Qed.

Lemma no_keys_inv : key_inv no_keys.
Proof. split; [split|]; cbn; try done; by intros ?. Qed.

Lemma key_reach_inv s : key_reach s -> key_inv s.
Proof. intros H. by apply (key_steps_ok no_keys s no_keys_inv). Qed.

(** C35: Signing is never interrupted, and there is always one answer to which key
    signs. Once an algorithm has an active key it has exactly one in every later
    state, whatever rotations, promotions, retirements, purges and schedule changes
    happen, with an audit record or without; and a pass that commits leaves its
    algorithm with one. So a tenant that had a key and has none active, which the
    comments name as the outcome of a compromise, is not reached: [purge] refuses the
    active key and [activate] replaces it before it can go. *)
Theorem signing_never_interrupted (s : KeyDb) (a : SigningAlgorithm) (Hs : key_reach s) :
  (forall s', covered a (signing_keys s) -> rtc key_step s s' ->
     exists kid r, signing_keys s' !! kid = Some r /\ of_alg a Active r = true
       /\ forall kid' r', signing_keys s' !! kid' = Some r' -> of_alg a Active r' = true -> kid' = kid)
  /\ (forall now forced generate s' rot,
        pass thumbprint s a now forced generate = Ok (s', rot) -> covered a (signing_keys s')).
Proof.
  pose proof (key_reach_inv s Hs) as Hi. split.
  - intros s' Hc Hss. destruct (key_steps_ok s s' Hi Hss) as [(Hinv & _ & Hcv) _].
    destruct (Hcv a Hc) as (kid & r & Hk & Ho). exists kid, r. split_and!; [done..|].
    intros kid' r' Hk' Ho'. by apply (inv_active _ Hinv a kid' kid r' r).
  - intros now forced generate s' rot Hp. pose proof (pass_ok s a now forced generate s' rot Hi Hp) as [_ [_ Hsch]].
    apply pass_Ok in Hp as (s1 & sch & keys1 & keys2 & H1 & _ & _ & H3).
    pose proof (ensure_schedule_ok s a Hi) as He. rewrite H1 in He.
    destruct He as (_ & _ & sr & Hsr & -> & _). destruct (forced || is_due (to_schedule sr) now) eqn:Hd.
    + destruct H3 as (keys3 & kid & Hst & _ & Heq). subst s'. eapply Hsch; cbn.
      * unfold rotated_now. rewrite lookup_alter, decide_True, Hsr by done. reflexivity.
      * by eexists.
    + destruct H3 as [_ Heq]. subst s'. apply (Hsch a sr); [done|].
      unfold is_due in Hd. cbn in Hd. destruct (s_last_rotated_at sr); [done|]. by rewrite orb_true_r in Hd.
Qed.

(** C37: A key's history runs one way. Whatever happens, a row is never deleted nor
    its [kid] reused: it keeps its algorithm, purpose and public key, its state moves
    only along pending, active, retiring, retired, purged, each stamp is written once
    and follows the state, and the private half is there exactly until the purge. *)
Theorem key_history_one_way (s s' : KeyDb) (kid : string) (r : SigningKeyRow) :
  key_reach s -> rtc key_step s s' -> signing_keys s !! kid = Some r ->
  exists r', signing_keys s' !! kid = Some r' /\ row_moves r r' /\ row_ok r'.
Proof.
  intros Hs Hss Hk. destruct (key_steps_ok s s' (key_reach_inv s Hs) Hss) as [(Hinv & Hkeep & _) _].
  destruct (Hkeep kid r Hk) as (r' & Hk' & Hm). exists r'. split_and!; [done..|]. by eapply inv_rows.
Qed.

(** ** Published keys *)

Definition record_of (tenant kid : string) (r : SigningKeyRow) : PublicKeyRecord := {|
  pk_tenant := tenant; pk_kid := kid; pk_algorithm := k_alg r; pk_purpose := k_purpose r;
  pk_state := k_state r; pk_public_jwk := k_public_jwk r; pk_created_at := k_created_at r |}.

Lemma into_record_columns tenant kid r :
  row_ok r -> into_record tenant (columns kid r) = Ok (record_of tenant kid r).
Proof.
  destruct r as [al pu st jwk mat t0 t1 t2 t3 t4]. intros (_ & _ & Hu). cbn in Hu.
  unfold into_record, columns, record_of. destruct al, pu, st; cbn in *; by rewrite Hu, bool_decide_true.
Qed.

Lemma published_keys_map tenant kid_le s :
  keys_inv (signing_keys s) ->
  published_keys tenant kid_le s tenant
  = Ok (map (fun kr => record_of tenant kr.1 kr.2)
         (sort_by (published_first kid_le)
           (selected (fun r => KeyState.is_published (k_state r)) (signing_keys s)))).
Proof.
  intros Hi. unfold published_keys. rewrite String.eqb_refl. apply try_mapi_all.
  intros _ [kid r] Hin. apply In_sort_by, elem_of_selected in Hin as [Hk _].
  apply into_record_columns. by eapply inv_rows.
Qed.

Lemma In_published tenant kid_le s record :
  In record (map (fun kr => record_of tenant kr.1 kr.2)
       (sort_by (published_first kid_le)
         (selected (fun r => KeyState.is_published (k_state r)) (signing_keys s)))) <->
  exists kid r, signing_keys s !! kid = Some r /\ KeyState.is_published (k_state r) = true
                /\ record = record_of tenant kid r.
Proof.
  rewrite in_map_iff. setoid_rewrite In_sort_by. split.
  - intros ([kid r] & <- & Hin). apply elem_of_selected in Hin as [? ?]. by exists kid, r.
  - intros (kid & r & Hk & Hp & ->). exists (kid, r). split; [done|]. by apply elem_of_selected.
Qed.

Lemma public_key_eq tenant s kid :
  keys_inv (signing_keys s) ->
  public_key tenant s tenant kid
  = Ok (match signing_keys s !! kid with
        | Some r => if KeyState.is_trusted (k_state r) then Some (record_of tenant kid r) else None
        | None => None
        end).
Proof.
  intros Hi. unfold public_key. rewrite String.eqb_refl.
  destruct (signing_keys s !! kid) as [r|] eqn:Hk; [|done].
  by rewrite into_record_columns by (by eapply inv_rows).
Qed.

(** The key set a tenant serves is exactly its pending, active and retiring keys,
    each as stored, active ones first, then pending, then retiring; a key is resolved
    by its [kid] in every state but purged; and no stored row fails to read. *)
Theorem published_keys_exact (tenant : string) (kid_le : string -> string -> bool) (s : KeyDb)
    (Hs : key_reach s) :
  (exists l, published_keys tenant kid_le s tenant = Ok l
     /\ (forall record, In record l <-> exists kid r, signing_keys s !! kid = Some r
           /\ KeyState.is_published (k_state r) = true /\ record = record_of tenant kid r)
     /\ StronglySorted (fun a b => published_rank (pk_state a) <= published_rank (pk_state b)) l)
  /\ (forall kid, public_key tenant s tenant kid
        = Ok (match signing_keys s !! kid with
              | Some r => if KeyState.is_trusted (k_state r) then Some (record_of tenant kid r) else None
              | None => None
              end)).
Proof.
  pose proof (proj1 (key_reach_inv s Hs)) as Hi. split; [|intros kid; by apply public_key_eq].
  eexists. split; [by apply published_keys_map|split; [intros record; apply In_published|]].
  refine (StronglySorted_fmap (fun kr : string * SigningKeyRow => record_of tenant kr.1 kr.2)
    (fun a b => published_rank (k_state a.2) <= published_rank (k_state b.2)) _ _ (fun _ _ H => H) _).
  apply sort_by_sorted; [intros ? ? ?; lia| |]; intros [k1 r1] [k2 r2]; unfold published_first; cbn;
    intros Hle; bool_hyps; try lia.
Qed.

(** A purge is final, recorded or not. Whatever happens afterwards the row stays,
    purged and without its private half; its [kid] resolves to nothing and is not
    served; nothing signs with it and no signing authority is granted on it. *)
Theorem purge_is_final (tenant : string) (kid_le : string -> string -> bool) (SigningKey : Type)
    (unseal : string -> SigningAlgorithm -> WrappedKey -> option SigningKey)
    (s s' : KeyDb) (kid : string) (r : SigningKeyRow) (now : Z) (record : result unit DomainError) :
  key_reach s -> signing_row s kid = Ok r -> k_state r <> Active ->
  rtc key_step (fst (purge s kid now record)) s' ->
  (exists r', signing_keys s' !! kid = Some r' /\ k_state r' = Purged /\ k_material r' = None)
  /\ public_key tenant s' tenant kid = Ok None
  /\ (forall l other, published_keys tenant kid_le s' tenant = Ok l -> In other l -> pk_kid other <> kid)
  /\ (forall a key, active_signing_key SigningKey unseal s' a <> Ok (Some (kid, key)))
  /\ (forall a, TenantKeyStore.signing_authority s' kid a = false).
Proof.
  intros Hs Hr Hst Hss. pose proof (key_reach_inv s Hs) as Hi. pose proof (purge_ok s kid now record Hi) as [_ Hi1].
  assert (H1 : exists r1, signing_keys (fst (purge s kid now record)) !! kid = Some r1 /\ k_state r1 = Purged).
  { unfold purge. rewrite Hr. apply signing_row_Ok in Hr as [Hk _].
    destruct (k_state r) eqn:Hstate; try done; cbn; rewrite ?lookup_alter, ?decide_True, ?Hk by done; cbn; eauto. }
  destruct H1 as (r1 & Hk1 & Hp1). destruct (key_steps_ok _ s' Hi1 Hss) as [(Hinv & Hkeep & _) _].
  destruct (Hkeep kid r1 Hk1) as (r' & Hk' & Hm).
  assert (Hp' : k_state r' = Purged).
  { destruct Hm as (_ & _ & _ & _ & Hle & _). rewrite Hp1 in Hle. destruct (k_state r'); cbn in Hle; lia || done. }
  split_and!.
  - exists r'. split_and!; [done..|]. by apply (inv_rows _ Hinv kid r' Hk').
  - rewrite public_key_eq, Hk', Hp' by done. done.
  - intros l other Hl Hin <-. rewrite published_keys_map in Hl by done. injection Hl as <-.
    apply In_published in Hin as (kid & q & Hq & Hpub & ->). cbn in *.
    assert (q = r') as -> by congruence. by rewrite Hp' in Hpub.
  - intros a key Ha. unfold active_signing_key in Ha.
    destruct (selected (of_alg a Active) (signing_keys s')) as [|[k q] l] eqn:Hsel; [done|]. cbn in Ha. ok_inv.
    injection Ha as -> _. assert (Hin : In (kid, q) (selected (of_alg a Active) (signing_keys s'))) by (rewrite Hsel; by left).
    apply elem_of_selected in Hin as [Hq Ho]. apply of_alg_iff in Ho. naive_solver congruence.
  - intros a. unfold TenantKeyStore.signing_authority. by rewrite Hk', Hp', andb_false_r.
Qed.

(** ** One pass *)

(** Where a row of the result comes from, in a pass of [a] at [now] with the grace
    limit [gone] and the propagation limit [ready]. *)
Definition pass_row (keys : Keys) (a : SigningAlgorithm) (gone ready now : Z) (kid : string)
    (r' : SigningKeyRow) : Prop :=
  (keys !! kid = Some r' /\ grace_over gone r' = false /\ propagated a ready r' = false)
  \/ (exists r, keys !! kid = Some r /\ grace_over gone r = true /\ r' = to_retired now r)
  \/ (exists r, keys !! kid = Some r /\ of_alg a Active r = true /\ r' = to_retiring now r)
  \/ (exists r, keys !! kid = Some r /\ propagated a ready r = true /\ r' = to_active now r)
  \/ (keys !! kid = None /\ exists jwk w first, r' = generated_row a jwk w first now
      /\ (first = true -> ~ covered a keys)).

Lemma retire_due_row keys gone now kid r' :
  fst (retire_due keys gone now) !! kid = Some r' ->
  exists r, keys !! kid = Some r
    /\ ((grace_over gone r = false /\ r' = r) \/ (grace_over gone r = true /\ r' = to_retired now r)).
Proof.
  cbn. rewrite lookup_update_where. destruct (keys !! kid) as [r|]; [|done]. cbn. intros [= <-].
  exists r. destruct (grace_over gone r); auto.
Qed.

Lemma grace_over_state gone r : grace_over gone r = true -> k_state r = Retiring.
Proof. unfold grace_over. rewrite andb_true_iff, in_state_iff. naive_solver. Qed.

Lemma propagated_iff a ready r :
  propagated a ready r = true <-> of_alg a Pending r = true /\ k_created_at r <= ready.
Proof. unfold propagated. rewrite andb_true_iff, Z.leb_le. done. Qed.

Lemma promote_ready_row keys a ready now kid r' :
  keys_inv keys -> fst (promote_ready keys a ready now) !! kid = Some r' ->
  exists r, keys !! kid = Some r
    /\ ((propagated a ready r = false /\ r' = r)
        \/ (of_alg a Active r = true /\ r' = to_retiring now r)
        \/ (propagated a ready r = true /\ r' = to_active now r)).
Proof.
  intros Hi. unfold promote_ready. destruct (select_one _ keys) as [k|] eqn:Hs.
  - apply select_one_Some in Hs as (q & Hq & Hp). pose proof (proj1 (propagated_iff _ _ _) Hp) as [Ho Hc].
    pose proof (promote_lookup keys a k q now kid Hq Ho) as Hl. destruct (promote keys a k now) as [keys' old].
    cbn in *. rewrite Hl. case_decide as Hd; [subst; intros [= <-]; eauto 6|].
    destruct (keys !! kid) as [r|] eqn:Hr; [|done]. cbn. intros [= <-]. exists r. split; [done|].
    destruct (of_alg a Active r) eqn:Hact; [auto|]. left. split; [|done].
    destruct (propagated a ready r) eqn:Hpr; [|done]. apply propagated_iff in Hpr as [Hop _].
    destruct Hd. by apply (inv_pending _ Hi a k kid q r).
  - intros Hr. exists r'. split; [done|]. left. split; [|done]. rewrite select_one_None in Hs. by eapply Hs.
Qed.

Lemma stage_row keys keys' a now generate kid0 kid r' :
  stage thumbprint keys a now generate = Ok (keys', kid0) -> keys' !! kid = Some r' ->
  keys !! kid = Some r'
  \/ (keys !! kid = None /\ exists jwk w first, r' = generated_row a jwk w first now
      /\ (first = true -> ~ covered a keys)).
Proof.
  unfold stage, insert_key. destruct (select_one (of_alg a Pending) keys).
  { intros H. ok_inv. injection H as <- _. auto. }
  intros H. ok_inv. injection H as <- _. subst. bool_hyps. rewrite lookup_insert.
  case_decide; [subst|auto]. intros [= <-]. right. split; [done|]. eexists _, _, _. split; [done|].
  destruct (select_one (of_alg a Active) keys) eqn:Hact; [done|]. intros _ (k & r & Hk & Ho).
  rewrite select_one_None in Hact. by rewrite (Hact k r Hk) in Ho.
Qed.

Lemma pass_rows s a now forced generate s' rot kid r' :
  key_inv s -> pass thumbprint s a now forced generate = Ok (s', rot) ->
  signing_keys s' !! kid = Some r' ->
  let sch := snd (ensure_schedule s a) in
  pass_row (signing_keys s) a (now - grace_period sch) (now - propagation_period sch) now kid r'.
Proof.
  intros Hinv Hp Hk. apply pass_Ok in Hp as (s0 & sch & keys1 & keys2 & H0 & H1 & H2 & H3).
  pose proof (ensure_schedule_ok s a Hinv) as He. rewrite H0 in *. cbn. destruct He as (_ & Heq & _).
  rewrite Heq in H1. pose proof (retire_due_evolves (signing_keys s) (now - grace_period sch) now (proj1 Hinv)) as E1.
  pose proof (retire_due_row (signing_keys s) (now - grace_period sch) now) as R1. rewrite H1 in E1, R1.
  cbn [fst] in *. pose proof (promote_ready_row keys1 a (now - propagation_period sch) now) as R2.
  pose proof (promote_ready_evolves keys1 a (now - propagation_period sch) now (proj1 E1)) as E2.
  rewrite H2 in R2, E2. cbn [fst] in *.
  assert (Hold : keys2 !! kid = Some r' -> pass_row (signing_keys s) a (now - grace_period sch)
                                             (now - propagation_period sch) now kid r').
  { intros Hk2. apply R2 in Hk2 as (r1 & Hr1 & Hc2); [|apply E1]. apply R1 in Hr1 as (r & Hr & Hc1). unfold pass_row.
    destruct Hc1 as [[Hg ->]|[Hg ->]]; [destruct Hc2 as [[? ->]|[[? ->]|[? ->]]]; eauto 8|].
    destruct Hc2 as [[? ->]|[[Ha _]|[Hpr _]]]; [eauto 8|by apply of_alg_iff in Ha as (_ & ? & _)|].
    apply propagated_iff in Hpr as [Ho _]. by apply of_alg_iff in Ho as (_ & ? & _). }
  destruct (forced || is_due sch now).
  - destruct H3 as (keys3 & kid0 & Hst & _ & ->). cbn in Hk.
    destruct (stage_row _ _ _ _ _ _ _ _ Hst Hk) as [?|(Hnone & jwk & w & first & -> & Hf)]; [auto|].
    right; right; right; right. split.
    + destruct (signing_keys s !! kid) as [r|] eqn:Hr; [|done].
      destruct (proj1 (proj2 (evolves_trans _ _ _ E1 E2)) kid r Hr) as (r2 & Hr2 & _). congruence.
    + exists jwk, w, first. split; [done|]. intros Hfirst Hc. apply (Hf Hfirst). by apply E2, E1.
  - destruct H3 as [_ ->]. by apply Hold.
Qed.

(** A key signs only after it has been published for the propagation period, or
    when its algorithm had nothing to publish: whatever a pass leaves active was
    active before, or is a pending key of the pass's algorithm that has waited the
    positive period of its schedule, or is the first key of its algorithm. The key it
    displaces is still served. *)
Theorem new_signer_was_published (s : KeyDb) (a b : SigningAlgorithm) (now : Z) (forced : bool)
    (generate : result Generated DomainError) (record : KeyRotation -> result unit DomainError) :
  key_reach s ->
  let propagation := propagation_period (snd (ensure_schedule s a)) in
  let s' := fst (run thumbprint s a now forced generate record) in
  0 < propagation
  /\ (forall kid r', signing_keys s' !! kid = Some r' -> of_alg b Active r' = true ->
        (exists r, signing_keys s !! kid = Some r /\ of_alg b Active r = true)
        \/ (b = a /\ exists r, signing_keys s !! kid = Some r /\ of_alg a Pending r = true
             /\ k_created_at r + propagation <= now)
        \/ (b = a /\ signing_keys s !! kid = None /\ ~ covered a (signing_keys s)))
  /\ (forall kid r, signing_keys s !! kid = Some r -> of_alg b Active r = true ->
        exists r', signing_keys s' !! kid = Some r' /\ KeyState.is_published (k_state r') = true).
Proof.
  intros Hs. pose proof (key_reach_inv s Hs) as Hi. cbv zeta.
  pose proof (ensure_schedule_ok s a Hi) as He. pose proof (key_step_ok _ _ Hi (step_run s a now forced generate record)) as Hstep.
  unfold run in *. destruct (pass _ _ _ _ _ _) as [[s' rot]|e] eqn:Hp; cbn [fst] in *.
  2:{ destruct (ensure_schedule s a) as [s0 sch]. destruct He as ([_ [_ Hsch]] & _ & sr & Hsr & -> & _).
      split_and!; [|eauto|].
      - apply Hsch in Hsr as [Hok _]. unfold schedule_ok in Hok. bool_hyps. cbn. unfold NANOS. lia.
      - intros kid r Hk Ho. exists r. split; [done|]. apply of_alg_iff in Ho as (_ & -> & _). done. }
  pose proof (fun kid r' => pass_rows s a now forced generate s' rot kid r' Hi Hp) as Hrows. cbv zeta in Hrows.
  destruct (ensure_schedule s a) as [s0 sch]. destruct He as ([_ [_ Hsch]] & _ & sr & Hsr & -> & _). cbn [snd] in *.
  split_and!.
  - apply Hsch in Hsr as [Hok _]. unfold schedule_ok in Hok. bool_hyps. cbn. unfold NANOS. lia.
  - intros kid r' Hk Ho. apply Hrows in Hk as [(Hk & _)|[(r & _ & _ & ->)|[(r & _ & _ & ->)|[(r & Hk & Hpr & ->)|(Hk & jwk & w & first & -> & Hf)]]]];
      apply of_alg_iff in Ho as (Hpu & Hst & Hal); [|done|done|..].
    + left. exists r'. split; [done|]. by apply of_alg_iff.
    + right. left. apply propagated_iff in Hpr as [Hop Hc]. pose proof Hop as (_ & _ & Ha)%of_alg_iff. cbn in Hal.
      split; [congruence|]. exists r. split_and!; [done..|lia].
    + right. right. cbn in *. destruct first; [|done]. auto.
  - intros kid r Hk Ho. destruct Hstep as [(_ & Hkeep & _) _]. destruct (Hkeep kid r Hk) as (r' & Hk' & _).
    exists r'. split; [done|]. apply of_alg_iff in Ho as (_ & Hst & _).
    apply Hrows in Hk' as [(Hk' & _)|[(q & Hq & Hg & ->)|[(q & _ & _ & ->)|[(q & _ & _ & ->)|(Hq & _)]]]]; try done.
    + replace r' with r by congruence. by rewrite Hst.
    + apply grace_over_state in Hg. congruence.
    + congruence.
Qed.

Lemma update_where_none p f (keys : Keys) :
  (forall kid r, keys !! kid = Some r -> p r = false) ->
  update_where p f keys = keys /\ selected p keys = [] /\ select_one p keys = None.
Proof.
  intros H. split_and!.
  - apply map_eq. intros kid. rewrite lookup_update_where. destruct (keys !! kid) as [r|] eqn:Hk; [|done].
    cbn. by rewrite (H kid r Hk).
  - destruct (selected p keys) as [|[kid r] l] eqn:Hs; [done|].
    assert (Hin : In (kid, r) (selected p keys)) by (rewrite Hs; by left).
    apply elem_of_selected in Hin as [Hk Hp]. by rewrite (H kid r Hk) in Hp.
  - by apply select_one_None.
Qed.

(** The schedule a committed pass leaves. *)
Lemma pass_schedule s a now generate s' rot :
  key_inv s -> pass thumbprint s a now false generate = Ok (s', rot) ->
  let sch := snd (ensure_schedule s a) in
  0 < propagation_period sch /\ 0 < grace_period sch
  /\ exists sch', ensure_schedule s' a = (s', sch')
     /\ grace_period sch' = grace_period sch /\ propagation_period sch' = propagation_period sch
     /\ is_due sch' now = false.
Proof.
  intros Hinv Hp. apply pass_Ok in Hp as (s0 & sch & keys1 & keys2 & H0 & _ & _ & H3).
  pose proof (ensure_schedule_ok s a Hinv) as He. rewrite H0 in *. cbn.
  destruct He as ([_ [_ Hsch]] & _ & sr & Hsr & -> & _). apply Hsch in Hsr as Hok. destruct Hok as [Hok _].
  unfold schedule_ok, in_range in Hok. bool_hyps. cbn. split; [unfold NANOS; lia|]. split; [unfold NANOS; lia|].
  cbn [orb] in H3. destruct (is_due (to_schedule sr) now) eqn:Hd.
  - destruct H3 as (keys3 & kid & _ & _ & ->). unfold ensure_schedule, rotated_now. cbn.
    rewrite lookup_alter, decide_True, Hsr by done. cbn. eexists. split_and!; [done..|].
    unfold is_due. cbn. apply Z.leb_gt. unfold NANOS. lia.
  - destruct H3 as [_ ->]. unfold ensure_schedule. cbn. rewrite Hsr. eauto 10.
Qed.

(** C36: A pass settles. A scheduled pass that has committed leaves nothing to do at
    that instant: run again, by another replica say, it changes no row, generates no
    key, reports an empty rotation and writes no audit record. *)
Theorem pass_settles (s : KeyDb) (a : SigningAlgorithm) (now : Z) (generate : result Generated DomainError)
    (s' : KeyDb) (rot : KeyRotation) :
  key_reach s -> pass thumbprint s a now false generate = Ok (s', rot) ->
  forall again record, apply_schedule thumbprint s' a now again record = (s', Ok KeyRotation.default).
Proof.
  intros Hs Hp again record. pose proof (key_reach_inv s Hs) as Hi.
  pose proof (pass_schedule s a now generate s' rot Hi Hp) as (Hprop & Hgr & sch' & He & Hg' & Hp' & Hd).
  assert (Hrow : forall kid r, signing_keys s' !! kid = Some r ->
    grace_over (now - grace_period sch') r = false /\ propagated a (now - propagation_period sch') r = false).
  { intros kid r Hk. rewrite Hg', Hp'. eapply (pass_rows s a now false generate s' rot) in Hk; [|done..]. cbv zeta in Hk.
    set (sch := snd (ensure_schedule s a)) in *.
    destruct Hk as [(_ & ? & ?)|[(q & _ & Hq & ->)|[(q & _ & Hq & ->)|[(q & _ & Hq & ->)|(_ & jwk & w & first & -> & _)]]]];
      [done|..].
    - split; [apply not_true_is_false|]; unfold propagated, of_alg, in_state; cbn; [intros ?%grace_over_state; done|].
      by rewrite andb_false_r.
    - split; unfold grace_over, propagated, of_alg, in_state; cbn; [|by rewrite andb_false_r].
      rewrite (proj2 (Z.leb_gt _ _)), andb_false_r by lia. done.
    - split; [apply not_true_is_false|]; unfold propagated, of_alg, in_state; cbn; [intros ?%grace_over_state; done|].
      by rewrite andb_false_r.
    - split; [apply not_true_is_false; intros ?%grace_over_state; by destruct first|].
      unfold propagated. cbn. rewrite (proj2 (Z.leb_gt _ _)), andb_false_r by lia. done. }
  assert (Hnone : pass thumbprint s' a now false again = Ok (s', KeyRotation.default)).
  { unfold pass. rewrite He. unfold retire_due.
    destruct (update_where_none (grace_over (now - grace_period sch')) (to_retired now) (signing_keys s')) as (-> & -> & _);
      [by intros kid r Hk; apply (Hrow kid r Hk)|].
    unfold promote_ready.
    destruct (update_where_none (propagated a (now - propagation_period sch')) (to_retired now) (signing_keys s')) as (_ & _ & ->);
      [by intros kid r Hk; apply (Hrow kid r Hk)|].
    cbn [orb]. rewrite Hd. by destruct s'. }
  unfold apply_schedule, run. by rewrite Hnone.
Qed.

(** The administration's calls are histories of passes. *)
Lemma rotate_steps s a activation now generate record :
  rtc key_step s (fst (TenantKeyStore.rotate thumbprint s a activation now generate record)).
Proof.
  unfold TenantKeyStore.rotate, rotate. pose proof (step_run s a now true generate record) as H1.
  destruct (run _ _ _ _ _ _ _) as [s1 [staged|e]]; [|by apply rtc_once].
  destruct activation, (created staged) as [kid|]; try by apply rtc_once.
  pose proof (step_activate s1 kid now record) as H2. destruct (activate _ _ _ _) as [s2 [promoted|e]];
    (eapply rtc_l; [exact H1|]; by apply rtc_once).
Qed.

Lemma apply_schedule_steps {Key} (unseal : string -> SigningAlgorithm -> WrappedKey -> option Key) s now generate record :
  rtc key_step s (fst (TenantKeyStore.apply_schedule thumbprint Key unseal s now generate record)).
Proof.
  unfold TenantKeyStore.apply_schedule. generalize SigningAlgorithm.ALL as l. intros l. revert s.
  induction l as [|a l IH]; intros s; [constructor|]. pose proof (step_run s a now false (generate a) record) as H1.
  unfold apply_schedule. destruct (run _ _ _ _ _ _ _) as [s1 [one|e]]; [|by apply rtc_once].
  destruct (active_signing_key _ _ s1 a) as [[key|]|e]; [|by apply rtc_once..].
  eapply rtc_l; [exact H1|]. apply IH.
Qed.
End Repository.

(** ** The grace period of another algorithm *)

Definition sample_jwk (x : string) : value :=
  VObject [("use", VString "sig"); ("x", VString x)]%string.
Definition sample_thumbprint (v : value) : result string DomainError :=
  ok_or (vget "x" v ≫= as_str) Storage.
Definition sample_key (x : string) : result Generated DomainError :=
  Ok {| gen_jwk := sample_jwk x;
        gen_wrapped := {| kek_id := "kek"; nonce := repeat 0 12; ciphertext := repeat 1 48 |} |}.
Definition silent (rot : KeyRotation) : result unit DomainError := Ok tt.

(** An [ES256] key with the default seven days of grace, replaced at hour one; the
    tenant's [EdDSA] schedule has one hour of grace. *)
Definition es256_first : KeyDb :=
  fst (rotate sample_thumbprint no_keys Es256 0 (sample_key "k1") silent).
Definition es256_staged : KeyDb :=
  fst (rotate sample_thumbprint es256_first Es256 0 (sample_key "k2") silent).
Definition es256_replaced : KeyDb := fst (activate es256_staged "k2" (hours 1) silent).
Definition eddsa_scheduled : KeyDb :=
  match set_schedule es256_replaced EdDsa {| rotation_period := hours 24; propagation_period := hours 1;
    grace_period := hours 1; last_rotated_at := None |} with Ok s => s | Err _ => no_keys end.
Definition eddsa_passed : KeyDb :=
  fst (apply_schedule sample_thumbprint eddsa_scheduled EdDsa (hours 2) (sample_key "k3") silent).

Lemma eddsa_scheduled_reached : key_reach sample_thumbprint eddsa_scheduled.
Proof.
  eapply rtc_l; [apply (step_run sample_thumbprint no_keys Es256 0 true (sample_key "k1") silent)|].
  eapply rtc_l; [apply (step_run sample_thumbprint es256_first Es256 0 true (sample_key "k2") silent)|].
  eapply rtc_l; [apply (step_activate sample_thumbprint es256_staged "k2" (hours 1) silent)|].
  eapply rtc_l; [|apply rtc_refl].
  apply (step_set_schedule sample_thumbprint es256_replaced EdDsa
    {| rotation_period := hours 24; propagation_period := hours 1; grace_period := hours 1; last_rotated_at := None |}).
  vm_compute. reflexivity.
Qed.

(** The grace period of one algorithm ends the grace of another. A pass retires
    every retiring key of the tenant by the schedule of the algorithm the pass is for:
    an [ES256] key that stopped signing an hour ago leaves the key set in an [EdDSA]
    pass, although the [ES256] schedule grants it seven days. *)
Theorem grace_of_another_schedule :
  key_reach sample_thumbprint eddsa_scheduled
  /\ (exists r sr, signing_keys eddsa_scheduled !! "k1"%string = Some r /\ k_alg r = Es256
        /\ k_state r = Retiring /\ k_retiring_at r = Some (hours 1)
        /\ key_rotation_schedules eddsa_scheduled !! Es256 = Some sr
        /\ hours 2 < hours 1 + grace_period (to_schedule sr))
  /\ (exists r, signing_keys eddsa_passed !! "k1"%string = Some r /\ k_state r = Retired).
Proof.
  split; [apply eddsa_scheduled_reached|]. split.
  - eexists _, _. split; [vm_compute; reflexivity|]. split_and!; try reflexivity; vm_compute; reflexivity.
  - eexists. split; vm_compute; reflexivity.
Qed.

(** ** Witnesses *)

Definition eddsa_pass : result (KeyDb * KeyRotation) DomainError :=
  pass sample_thumbprint eddsa_scheduled EdDsa (hours 2) false (sample_key "k3").

Lemma signing_never_interrupted_witness :
  exists kid r, signing_keys eddsa_passed !! kid = Some r /\ of_alg Es256 Active r = true.
Proof.
  destruct (signing_never_interrupted sample_thumbprint eddsa_scheduled Es256 eddsa_scheduled_reached) as [H _].
  destruct (H eddsa_passed) as (kid & r & Hk & Ho & _).
  - exists "k2"%string. eexists. split; vm_compute; reflexivity.
  - apply rtc_once, (step_run sample_thumbprint eddsa_scheduled EdDsa (hours 2) false (sample_key "k3") silent).
  - exists kid, r. exact (conj Hk Ho).
Defined.

Lemma key_history_one_way_witness :
  exists r r', signing_keys eddsa_scheduled !! "k1"%string = Some r
    /\ signing_keys eddsa_passed !! "k1"%string = Some r' /\ row_moves r r'.
Proof.
  eexists. destruct (key_history_one_way sample_thumbprint eddsa_scheduled eddsa_passed "k1" _
    eddsa_scheduled_reached (rtc_once _ _ (step_run sample_thumbprint eddsa_scheduled EdDsa (hours 2) false (sample_key "k3") silent))
    ltac:(vm_compute; reflexivity)) as (r' & Hk & Hm & _).
  exists r'. split; [vm_compute; reflexivity|exact (conj Hk Hm)].
Defined.

Lemma published_keys_exact_witness :
  exists l, published_keys "t" String.leb eddsa_scheduled "t" = Ok l /\ map pk_kid l = ["k2"; "k1"]%string.
Proof.
  destruct (published_keys_exact sample_thumbprint "t" String.leb eddsa_scheduled eddsa_scheduled_reached)
    as [(l & Hl & _) _].
  assert (Hm : match published_keys "t" String.leb eddsa_scheduled "t" with Ok l => map pk_kid l | Err _ => [] end
               = ["k2"; "k1"]%string) by (vm_compute; reflexivity).
  rewrite Hl in Hm. exact (ex_intro _ l (conj Hl Hm)).
Defined.

Lemma purge_is_final_witness :
  public_key "t" (fst (purge eddsa_scheduled "k1" (hours 2) (Err Storage))) "t" "k1" = Ok None.
Proof.
  destruct (signing_row eddsa_scheduled "k1") as [r|e] eqn:Hr; [|vm_compute in Hr; discriminate].
  assert (Hst : match signing_row eddsa_scheduled "k1" with Ok r => k_state r | Err _ => Active end = Retiring)
    by (vm_compute; reflexivity).
  rewrite Hr in Hst.
  refine (proj1 (proj2 (purge_is_final sample_thumbprint "t" String.leb unit (fun _ _ _ => Some tt)
    eddsa_scheduled _ "k1" r (hours 2) (Err Storage) eddsa_scheduled_reached Hr _ (rtc_refl _ _)))).
  by rewrite Hst.
Defined.

Lemma new_signer_was_published_witness :
  exists kid r', signing_keys eddsa_passed !! kid = Some r' /\ of_alg EdDsa Active r' = true
    /\ ~ covered EdDsa (signing_keys eddsa_scheduled).
Proof.
  destruct (new_signer_was_published sample_thumbprint eddsa_scheduled EdDsa EdDsa (hours 2) false (sample_key "k3")
    silent eddsa_scheduled_reached) as (_ & H & _).
  assert (Hk : exists r', signing_keys eddsa_passed !! "k3"%string = Some r' /\ of_alg EdDsa Active r' = true)
    by (eexists; split; vm_compute; reflexivity).
  destruct Hk as (r' & Hk & Ho). exists "k3"%string, r'. split; [exact Hk|]. split; [exact Ho|].
  assert (Hnone : signing_keys eddsa_scheduled !! "k3"%string = None) by (vm_compute; reflexivity).
  destruct (H "k3"%string r' Hk Ho) as [(r & Hr & _)|[(_ & r & Hr & _)|(_ & _ & Hn)]]; [rewrite Hnone in Hr; discriminate..|exact Hn].
Defined.

Lemma pass_settles_witness :
  exists s' rot, eddsa_pass = Ok (s', rot) /\ created rot = Some "k3"%string
    /\ apply_schedule sample_thumbprint s' EdDsa (hours 2) (Err Storage) (fun _ => Err Storage) = (s', Ok KeyRotation.default).
Proof.
  destruct eddsa_pass as [[s' rot]|e] eqn:Hp; [|vm_compute in Hp; discriminate].
  exists s', rot. split; [done|]. split.
  - assert (Hc : (match eddsa_pass with Ok (_, rot) => created rot | Err _ => None end) = Some "k3"%string)
      by (vm_compute; reflexivity).
    by rewrite Hp in Hc.
  - exact (pass_settles sample_thumbprint eddsa_scheduled EdDsa (hours 2) (sample_key "k3") s' rot
      eddsa_scheduled_reached Hp (Err Storage) (fun _ => Err Storage)).
Defined.
