(* ===== verification/Signer.v ===== *)
(** * The cached signer

    [crates/server/src/signing.rs] over the repository of [Keys], and the part of
    [crates/jose/src/key.rs] it opens keys with. One tenant's entries. The steps of a
    call - read the cache, load, store, take the lease, lock the key's row, sign - are
    interleaved with those of other calls and with every operation on the keys. *)

From S2P Require Import Prelude BTree Json RateLimit.
From S2P Require Import Grants.
From S2P Require Import GrantStore.
From S2P Require Import Keys.
From S2P Require Import KeysLaws.
Open Scope Z_scope.

Record SigningKey : Type := { sk_algorithm : SigningAlgorithm; sk_pkcs8 : list Z }.

(** An [Arc] of a loaded key: its allocation, which [Arc::ptr_eq] compares. *)
Record Loaded : Type := { arc : nat; l_kid : string; l_key : SigningKey }.

Record Entry : Type := { e_key : option Loaded; e_loaded_at : Z }.
Abbreviation Entries := (gmap SigningAlgorithm Entry).

Inductive Cached : Type := Fresh (key : option Loaded) | Expired.

Inductive SignError : Type :=
| NoSigningKey (algorithm : option SigningAlgorithm)
| SignFailed (e : DomainError).

(** [PreparedKey]: a lease on a key, with the lock on its row. *)
Record PreparedKey : Type := { p_key : Loaded; p_expires_at : Z }.

Definition DEFAULT_TTL : Z := 60 * NANOS.

Section Signer.
Variable thumbprint : value -> result string DomainError.
(** The key-encryption key's answer for the row's binding, and whether the bytes are
    a key of the algorithm that meets its floors. *)
Variable unwrap : string -> SigningAlgorithm -> WrappedKey -> option (list Z).
Variable parses : SigningAlgorithm -> list Z -> bool.
(** [jws::sign]. *)
Variable sign_jws : SigningKey -> string -> string -> value -> option string.
Variable ttl : Z.

Definition from_pkcs8 (algorithm : SigningAlgorithm) (pkcs8 : list Z) : option SigningKey :=
  if parses algorithm pkcs8 then Some {| sk_algorithm := algorithm; sk_pkcs8 := pkcs8 |} else None.
Definition open_key (kid : string) (algorithm : SigningAlgorithm) (w : WrappedKey) : option SigningKey :=
  unwrap kid algorithm w ≫= from_pkcs8 algorithm.

Definition cached (entries : Entries) (algorithm : SigningAlgorithm) (now : Z) : Cached :=
  match entries !! algorithm with
  | Some entry => if now - e_loaded_at entry <? ttl then Fresh (e_key entry) else Expired
  | None => Expired
  end.

(** The load of [resolve], into a new [Arc]. *)
Definition load (db : KeyDb) (next : nat) (algorithm : SigningAlgorithm)
    : result (option Loaded) DomainError :=
  let? found := PgKeyRepository.active_signing_key SigningKey open_key db algorithm in
  Ok (match found with
      | Some (kid, key) => Some {| arc := next; l_kid := kid; l_key := key |}
      | None => None
      end).
Definition remember (entries : Entries) (algorithm : SigningAlgorithm) (loaded : option Loaded) (now : Z)
    : Entries := <[algorithm := {| e_key := loaded; e_loaded_at := now |}]> entries.

(** [resolve] and [resolve_any] when nothing comes in between. *)
Definition resolve (db : KeyDb) (entries : Entries) (next : nat) (algorithm : SigningAlgorithm) (now : Z)
    : Entries * nat * result (option Loaded) DomainError :=
  match cached entries algorithm now with
  | Fresh fresh => (entries, next, Ok fresh)
  | Expired =>
      match load db next algorithm with
      | Err e => (entries, next, Err e)
      | Ok loaded => (remember entries algorithm loaded now, S next, Ok loaded)
      end
  end.
Definition resolve_any (db : KeyDb) (entries : Entries) (next : nat) (now : Z)
    : Entries * nat * result (option Loaded) DomainError :=
  (fix go (algorithms : list SigningAlgorithm) (entries : Entries) (next : nat) :=
     match algorithms with
     | [] => (entries, next, Ok None)
     | algorithm :: rest =>
         match resolve db entries next algorithm now with
         | (entries, next, Ok None) => go rest entries next
         | answer => answer
         end
     end) (SigningAlgorithm.DEFAULT :: SigningAlgorithm.ALL) entries next.

(** The deadline of a lease: that of the entry that still holds this very key. *)
Definition lease_of (entries : Entries) (key : Loaded) : option Z :=
  match entries !! sk_algorithm (l_key key) with
  | Some entry =>
      match e_key entry with
      | Some held => if (arc held =? arc key)%nat then Some (e_loaded_at entry + Z.max ttl NANOS) else None
      | None => None
      end
  | None => None
  end.

(** [prepare] when nothing comes in between; [later] is the clock once the lock is
    held. *)
Definition prepare (db : KeyDb) (entries : Entries) (next : nat) (algorithm : option SigningAlgorithm)
    (now later : Z) : Entries * nat * result PreparedKey SignError :=
  let '(entries, next, resolved) :=
    match algorithm with
    | Some required => resolve db entries next required now
    | None => resolve_any db entries next now
    end in
  (entries, next,
   let? found := map_err SignFailed resolved in
   let? key := ok_or found (NoSigningKey algorithm) in
   let? expires_at := ok_or (lease_of entries key) (NoSigningKey algorithm) in
   guard? TenantKeyStore.signing_authority db (l_kid key) (sk_algorithm (l_key key))
     else NoSigningKey (Some (sk_algorithm (l_key key))) in
   guard? later <? expires_at else NoSigningKey algorithm in
   Ok {| p_key := key; p_expires_at := expires_at |}).

(** [PreparedKey::sign], for its own tenant or another; the clock is read before and
    after the signature. *)
Definition sign_prepared (prepared : PreparedKey) (same_tenant : bool) (algorithm : option SigningAlgorithm)
    (typ : string) (claims : value) (before after : Z) : result string SignError :=
  let key := l_key (p_key prepared) in
  if negb same_tenant || (p_expires_at prepared <=? before)
     || is_some_and (fun required => negb (bool_decide (required = sk_algorithm key))) algorithm
  then Err (NoSigningKey algorithm)
  else
    let? token := ok_or (sign_jws key (l_kid (p_key prepared)) typ claims) (SignFailed (Invalid "jws")) in
    guard? negb (p_expires_at prepared <=? after) else NoSigningKey algorithm in
    Ok token.

(** ** Interleaved *)

(** [missed]: calls past the cache, each with the clock it read first; [loading]: loads
    not yet stored; [waiting]: leases whose lock is being acquired; [held]: the prepared
    keys. [loads] is the history of the loads that found a key, each with the database
    it read. *)
Record Sys : Type := {
  db : KeyDb;
  entries : Entries;
  next_arc : nat;
  missed : list (SigningAlgorithm * Z);
  loading : list (SigningAlgorithm * option Loaded * Z);
  waiting : list (Loaded * Z);
  held : list PreparedKey;
  loads : list (Loaded * Z * KeyDb)
}.

(** A statement that changes a locked row waits for the lock. *)
Definition respects_locks (held : list PreparedKey) (db db' : KeyDb) : Prop :=
  forall p, In p held -> signing_keys db' !! l_kid (p_key p) = signing_keys db !! l_kid (p_key p).

Definition with_db (x : Sys) (db' : KeyDb) : Sys := {|
  db := db'; entries := entries x; next_arc := next_arc x; missed := missed x; loading := loading x;
  waiting := waiting x; held := held x; loads := loads x |}.
Definition with_missed (x : Sys) (algorithm : SigningAlgorithm) (now : Z) : Sys := {|
  db := db x; entries := entries x; next_arc := next_arc x; missed := (algorithm, now) :: missed x;
  loading := loading x; waiting := waiting x; held := held x; loads := loads x |}.
Definition with_loaded (x : Sys) (algorithm : SigningAlgorithm) (loaded : option Loaded) (now : Z) : Sys := {|
  db := db x; entries := entries x; next_arc := S (next_arc x); missed := missed x;
  loading := (algorithm, loaded, now) :: loading x; waiting := waiting x; held := held x;
  loads := match loaded with Some key => (key, now, db x) :: loads x | None => loads x end |}.
Definition with_entries (x : Sys) (entries' : Entries) : Sys := {|
  db := db x; entries := entries'; next_arc := next_arc x; missed := missed x; loading := loading x;
  waiting := waiting x; held := held x; loads := loads x |}.
Definition with_leases (x : Sys) (waiting' : list (Loaded * Z)) (held' : list PreparedKey) : Sys := {|
  db := db x; entries := entries x; next_arc := next_arc x; missed := missed x; loading := loading x;
  waiting := waiting'; held := held'; loads := loads x |}.

(** A call reads the clock and the cache, then loads, then stores under the clock it
    read: three statements, between which anything may come. *)
Inductive sys_step (x : Sys) : Sys -> Prop :=
| sys_keys db' :
    key_step thumbprint (db x) db' -> respects_locks (held x) (db x) db' ->
    sys_step x (with_db x db')
| sys_miss algorithm now :
    cached (entries x) algorithm now = Expired ->
    sys_step x (with_missed x algorithm now)
| sys_load algorithm now loaded :
    In (algorithm, now) (missed x) -> load (db x) (next_arc x) algorithm = Ok loaded ->
    sys_step x (with_loaded x algorithm loaded now)
| sys_store algorithm loaded now :
    In (algorithm, loaded, now) (loading x) ->
    sys_step x (with_entries x (remember (entries x) algorithm loaded now))
| sys_lease key expires_at :
    lease_of (entries x) key = Some expires_at ->
    (exists at_ s0, In (key, at_, s0) (loads x)) ->
    sys_step x (with_leases x ((key, expires_at) :: waiting x) (held x))
| sys_lock key expires_at later :
    In (key, expires_at) (waiting x) ->
    TenantKeyStore.signing_authority (db x) (l_kid key) (sk_algorithm (l_key key)) = true ->
    later < expires_at ->
    sys_step x (with_leases x (waiting x) ({| p_key := key; p_expires_at := expires_at |} :: held x))
| sys_drop held' :
    (forall p, In p held' -> In p (held x)) ->
    sys_step x (with_leases x (waiting x) held')
| sys_restart :
    sys_step x {| db := db x; entries := ∅; next_arc := next_arc x; missed := []; loading := []; waiting := [];
                  held := []; loads := loads x |}.

Definition sys_start : Sys := {|
  db := no_keys; entries := ∅; next_arc := 0; missed := []; loading := []; waiting := []; held := []; loads := [] |}.
Definition sys_reach (x : Sys) : Prop := rtc sys_step sys_start x.

(** ** Laws *)

(** The row a key was opened from: active, of its algorithm, and the one whose own
    envelope gives its private half. *)
Definition opened_from (key : Loaded) (r : SigningKeyRow) : Prop :=
  k_alg r = sk_algorithm (l_key key) /\ k_purpose r = Signing /\ k_state r = Active
  /\ exists w, k_material r = Some w
       /\ unwrap (l_kid key) (sk_algorithm (l_key key)) w = Some (sk_pkcs8 (l_key key))
       /\ parses (sk_algorithm (l_key key)) (sk_pkcs8 (l_key key)) = true.
(** A key as it was read, in a database the present one has come from. *)
Definition loaded_ok (x : Sys) (key : Loaded) (s0 : KeyDb) : Prop :=
  (arc key < next_arc x)%nat
  /\ (exists r, signing_keys s0 !! l_kid key = Some r /\ opened_from key r)
  /\ key_reach thumbprint s0 /\ rtc (key_step thumbprint) s0 (db x).
Definition leased (x : Sys) (key : Loaded) (expires_at : Z) : Prop :=
  exists at_ s0, In (key, at_, s0) (loads x) /\ expires_at = at_ + Z.max ttl NANOS.

Record sys_inv (x : Sys) : Prop := {
  sys_keys_reach : key_reach thumbprint (db x);
  sys_loads : forall key at_ s0, In (key, at_, s0) (loads x) -> loaded_ok x key s0;
  (* an allocation is one load *)
  sys_arcs : forall l1 l2, In l1 (loads x) -> In l2 (loads x) -> arc l1.1.1 = arc l2.1.1 -> l1 = l2;
  sys_loading : forall a key at_, In (a, Some key, at_) (loading x) -> exists s0, In (key, at_, s0) (loads x);
  sys_entries : forall a e key, entries x !! a = Some e -> e_key e = Some key ->
    exists s0, In (key, e_loaded_at e, s0) (loads x);
  sys_waiting : forall key t, In (key, t) (waiting x) -> leased x key t;
  sys_held : forall p, In p (held x) -> leased x (p_key p) (p_expires_at p)
    /\ TenantKeyStore.signing_authority (db x) (l_kid (p_key p)) (sk_algorithm (l_key (p_key p))) = true
}.

Lemma signing_authority_iff s kid a :
  TenantKeyStore.signing_authority s kid a = true <->
  exists r, signing_keys s !! kid = Some r /\ k_alg r = a /\ k_purpose r = Signing
    /\ (k_state r = Active \/ k_state r = Retiring).
Proof.
  unfold TenantKeyStore.signing_authority. destruct (signing_keys s !! kid) as [r|].
  2:{ split; [done|]. by intros (r & [=] & _). }
  rewrite !andb_true_iff, !bool_decide_eq_true. split.
  - intros [[Ha Hp] Hs]. exists r. split_and!; [done..|]. destruct (k_state r); try done; auto.
  - intros (r' & [= <-] & Ha & Hp & [-> | ->]); auto.
Qed.

Lemma load_Some s next a key :
  load s next a = Ok (Some key) ->
  arc key = next /\ exists r, signing_keys s !! l_kid key = Some r /\ opened_from key r.
Proof.
  unfold load, PgKeyRepository.active_signing_key. intros H. ok_inv.
  destruct (selected (of_alg a Active) (signing_keys s)) as [|[kid r] l] eqn:Hs; cbn in E; ok_inv; subst; [done|].
  injection H as <-. cbn.
  assert (Hr : In (kid, r) (selected (of_alg a Active) (signing_keys s))) by (rewrite Hs; by left).
  apply elem_of_selected in Hr as [Hr (Hp & Hst & <-)%of_alg_iff]. split; [done|]. exists r. split; [done|].
  unfold open_key, from_pkcs8 in *.
  match goal with H : k_material r ≫= from_parts = Some _ |- _ => apply bind_Some in H as (w & Hm & Hw) end.
  unfold from_parts in Hw. case_match; [done|]. injection Hw as <-.
  match goal with H : unwrap ?k ?a ?w ≫= _ = Some _ |- _ => destruct (unwrap k a w) as [b|] eqn:Hw; [|done];
    cbn in H; destruct (parses a b) eqn:Hb; [|done]; injection H as <- end.
  split_and!; [done..|]. by exists w.
Qed.

Lemma leased_more x x' key t :
  (forall l, In l (loads x) -> In l (loads x')) -> leased x key t -> leased x' key t.
Proof. intros H (at_ & s0 & Hin & ->). exists at_, s0. auto. Qed.

Lemma lease_of_leased x key t :
  sys_inv x -> (exists at_ s0, In (key, at_, s0) (loads x)) -> lease_of (entries x) key = Some t -> leased x key t.
Proof.
  intros Hi (at_ & s0 & Hin). unfold lease_of. destruct (entries x !! _) as [e|] eqn:He; [|done].
  destruct (e_key e) as [k|] eqn:Hk; [|done]. destruct (arc k =? arc key)%nat eqn:Ha; [|done].
  intros [= <-]. bool_hyps. destruct (sys_entries _ Hi _ e k He Hk) as [s1 Hin'].
  pose proof (sys_arcs _ Hi _ _ Hin' Hin Ha) as Heq. injection Heq as -> -> ->. by exists at_, s0.
Qed.

Lemma sys_load_inv x a now loaded :
  sys_inv x -> load (db x) (next_arc x) a = Ok loaded -> sys_inv (with_loaded x a loaded now).
Proof.
  intros Hi Hl.
  assert (Hmore : forall l, In l (loads x) -> In l (loads (with_loaded x a loaded now)))
    by (intros l Hin; destruct loaded; [by right|done]).
  assert (Hnew : forall l, In l (loads (with_loaded x a loaded now)) ->
    In l (loads x) \/ exists key, loaded = Some key /\ l = (key, now, db x))
    by (destruct loaded; cbn; naive_solver).
  assert (Hkey : forall k, loaded = Some k -> arc k = next_arc x) by (intros k ->; by apply load_Some in Hl as [? _]).
  assert (Hold : forall l, In l (loads x) -> (arc l.1.1 < next_arc x)%nat)
    by (intros [[k t] s0] Hin; by apply (sys_loads _ Hi) in Hin as [? _]).
  split.
  - apply Hi.
  - intros k t s0 [Hin|(k' & -> & [= -> -> ->])]%Hnew.
    + destruct (sys_loads _ Hi _ _ _ Hin) as (Hlt & Hr & Hs). split_and!; cbn; [lia|done|apply Hs..].
    + apply load_Some in Hl as (Ha & Hr). split_and!; cbn; [lia|done|apply Hi|apply rtc_refl].
  - intros l1 l2 [H1|(k1 & E1 & ->)]%Hnew [H2|(k2 & E2 & ->)]%Hnew Ha.
    + by eapply sys_arcs.
    + apply Hold in H1. apply Hkey in E2. cbn in Ha. lia.
    + apply Hold in H2. apply Hkey in E1. cbn in Ha. lia.
    + congruence.
  - cbn. intros b k t [[= -> -> ->]|Hin]; [exists (db x); by left|].
    destruct (sys_loading _ Hi _ _ _ Hin) as [s0 Hs]. exists s0. by apply Hmore.
  - intros b e k He Hk. destruct (sys_entries _ Hi _ _ _ He Hk) as [s0 Hs]. exists s0. by apply Hmore.
  - intros k t Hin. eapply leased_more; [done|by apply (sys_waiting _ Hi)].
  - intros p Hin. destruct (sys_held _ Hi p Hin) as [Hle Hau]. split; [|done]. by eapply leased_more.
Qed.

Lemma sys_keys_inv x db' :
  sys_inv x -> key_step thumbprint (db x) db' -> respects_locks (held x) (db x) db' -> sys_inv (with_db x db').
Proof.
  intros [Hr Hlo Ha Hld He Hw Hh] Hk Hlocks. split; cbn; try done.
  - by eapply rtc_r.
  - intros k t s0 Hin. destruct (Hlo _ _ _ Hin) as (Hlt & Hrow & Hs0 & Hs). split_and!; [done..|]. by eapply rtc_r.
  - intros p Hin. destruct (Hh p Hin) as [Hle Hau]. split; [done|].
    apply signing_authority_iff. rewrite (Hlocks p Hin). by apply signing_authority_iff.
Qed.

Lemma sys_step_inv x y : sys_step x y -> sys_inv x -> sys_inv y.
Proof.
  intros Hstep Hi. destruct Hstep as [db' Hk Hlocks|a now Hc|a now loaded _ Hl|a loaded now Hin|key t Hle Hin
    |key t later Hin Hau Hlt|held' Hsub|].
  - by apply sys_keys_inv.
  - destruct Hi as [Hr Hlo Ha Hld He Hw Hh]. by split.
  - by eapply sys_load_inv.
  - destruct Hi as [Hr Hlo Ha Hld He Hw Hh]. split; cbn; try done.
    intros b e k. unfold remember. rewrite lookup_insert. case_decide; [|apply He].
    intros [= <-]. cbn. intros ->. by eapply Hld.
  - pose proof (lease_of_leased x key t Hi Hin Hle) as Hleased.
    destruct Hi as [Hr Hlo Ha Hld He Hw Hh]. split; cbn; try done.
    intros k u [[= -> ->]|Hi2]; [done|by apply Hw].
  - destruct Hi as [Hr Hlo Ha Hld He Hw Hh]. split; cbn; try done.
    intros p [<-|Hi2]; [|by apply Hh]. split; [by apply Hw|done].
  - destruct Hi as [Hr Hlo Ha Hld He Hw Hh]. split; cbn; try done.
    intros p Hin. by apply Hh, Hsub.
  - destruct Hi as [Hr Hlo Ha Hld He Hw Hh]. by split; cbn.
Qed.

Lemma sys_reach_inv x : sys_reach x -> sys_inv x.
Proof.
  unfold sys_reach. assert (H0 : sys_inv sys_start) by (by split; cbn; try constructor).
  revert H0. generalize sys_start. intros x0 H0 H. induction H as [|x1 x2 x3 H12 _ IH]; [done|].
  by apply IH, (sys_step_inv x1).
Qed.

(** C34: Whatever interleaves - other calls, reloads, rotations, promotions,
    retirements, rewraps and purges on any replica - a token is signed only with a key
    whose row is at that instant active or retiring, and so in the published set, of the
    algorithm the caller required. The private half is the one that the envelope of that
    very row, active at the time, opened to under the row's own key identifier and
    algorithm: the load read it in a database the present one has come from, in which the
    row has the same public half. And it is used before a deadline set by the clock read
    before that load, which no wait extends. So once a retirement or a purge has
    committed nothing is signed with the key. *)
Theorem signed_with_published_key (x : Sys) (p : PreparedKey) (same_tenant : bool)
    (algorithm : option SigningAlgorithm) (typ : string) (claims : value) (before after : Z) (token : string) :
  sys_reach x -> In p (held x) ->
  sign_prepared p same_tenant algorithm typ claims before after = Ok token ->
  let key := p_key p in
  same_tenant = true
  /\ (forall required, algorithm = Some required -> sk_algorithm (l_key key) = required)
  /\ sign_jws (l_key key) (l_kid key) typ claims = Some token
  /\ exists at_ s0 r0 w r,
      In (key, at_, s0) (loads x) /\ after < at_ + Z.max ttl NANOS
      /\ rtc (key_step thumbprint) s0 (db x)
      /\ signing_keys s0 !! l_kid key = Some r0 /\ k_state r0 = Active
      /\ k_alg r0 = sk_algorithm (l_key key) /\ k_material r0 = Some w
      /\ unwrap (l_kid key) (k_alg r0) w = Some (sk_pkcs8 (l_key key))
      /\ signing_keys (db x) !! l_kid key = Some r /\ k_alg r = k_alg r0
      /\ k_public_jwk r = k_public_jwk r0 /\ KeyState.is_published (k_state r) = true.
Proof.
  intros Hx Hin Hs. pose proof (sys_reach_inv x Hx) as Hi.
  destruct (sys_held _ Hi p Hin) as [(at_ & s0 & Hl & Hexp) Hau].
  unfold sign_prepared in Hs. ok_inv. subst. bool_hyps.
  apply signing_authority_iff in Hau as (r & Hr & Hal & _ & Hst).
  destruct (sys_loads _ Hi _ _ _ Hl) as (_ & (r0 & Hr0 & Ha0 & Hp0 & Hs0 & w & Hm & Hu & _) & Hreach & Hsteps).
  destruct (key_steps_ok thumbprint _ _ (key_reach_inv _ _ Hreach) Hsteps) as [(_ & Hkeep & _) _].
  destruct (Hkeep _ r0 Hr0) as (r' & Hr' & _ & _ & Hjwk & _).
  split_and!; [done| |done|].
  - intros required ->. cbn in *. by bool_hyps.
  - exists at_, s0, r0, w, r. split_and!; [done|lia|done..|by rewrite Ha0|done|congruence|congruence|].
    by destruct Hst as [-> | ->].
Qed.
End Signer.

(** ** A witness: one rotation, one load, one lease. *)

(** Opens under the one key-encryption key, for the one row it was sealed to. *)
Definition sample_unwrap (kid : string) (a : SigningAlgorithm) (w : WrappedKey) : option (list Z) :=
  if bool_decide (kek_id w = "kek"%string /\ kid = "k1"%string /\ a = Es256)
  then Some (drop 16 (ciphertext w)) else None.
Definition sample_parses (a : SigningAlgorithm) (pkcs8 : list Z) : bool := (length pkcs8 =? 32)%nat.
Definition sample_jws (key : SigningKey) (kid typ : string) (claims : value) : option string := Some kid.
Definition sample_loaded : Loaded := {|
  arc := 0; l_kid := "k1"; l_key := {| sk_algorithm := Es256; sk_pkcs8 := repeat 1 32 |} |}.
Definition sample_prepared : PreparedKey := {| p_key := sample_loaded; p_expires_at := 65 * NANOS |}.
Definition sample_sys : Sys := {|
  db := es256_first; entries := {[Es256 := {| e_key := Some sample_loaded; e_loaded_at := 5 * NANOS |}]};
  next_arc := 1; missed := [(Es256, 5 * NANOS)]; loading := [(Es256, Some sample_loaded, 5 * NANOS)];
  waiting := [(sample_loaded, 65 * NANOS)]; held := [sample_prepared];
  loads := [(sample_loaded, 5 * NANOS, es256_first)] |}.

Lemma sample_sys_reached :
  sys_reach sample_thumbprint sample_unwrap sample_parses DEFAULT_TTL sample_sys.
Proof.
  eapply rtc_l.
  { apply (sys_keys sample_thumbprint sample_unwrap sample_parses DEFAULT_TTL sys_start es256_first); [|by intros p []].
    apply (step_run sample_thumbprint no_keys Es256 0 true (sample_key "k1") silent). }
  eapply rtc_l; [eapply (sys_miss _ _ _ _ _ Es256 (5 * NANOS)); reflexivity|].
  eapply rtc_l; [eapply (sys_load _ _ _ _ _ Es256 (5 * NANOS) (Some sample_loaded)); [by left|vm_compute; reflexivity]|].
  eapply rtc_l; [eapply (sys_store _ _ _ _ _ Es256 (Some sample_loaded) (5 * NANOS)); by left|].
  eapply rtc_l; [eapply (sys_lease _ _ _ _ _ sample_loaded); [vm_compute; reflexivity|eexists _, _; by left]|].
  eapply rtc_l; [eapply (sys_lock _ _ _ _ _ sample_loaded _ (6 * NANOS)); [by left|vm_compute; reflexivity|reflexivity]|].
  apply rtc_refl.
Qed.

Lemma signed_with_published_key_witness :
  sign_prepared sample_jws sample_prepared true (Some Es256) "at+jwt" VNull (7 * NANOS) (8 * NANOS) = Ok "k1"%string
  /\ exists s0 r0 w, signing_keys s0 !! "k1"%string = Some r0 /\ k_material r0 = Some w
       /\ sample_unwrap "k1" (k_alg r0) w = Some (repeat 1 32).
Proof.
  split; [reflexivity|].
  destruct (signed_with_published_key sample_thumbprint sample_unwrap sample_parses sample_jws DEFAULT_TTL
    sample_sys sample_prepared true (Some Es256) "at+jwt" VNull (7 * NANOS) (8 * NANOS) "k1"
    sample_sys_reached ltac:(by left) eq_refl)
    as (_ & _ & _ & (at_ & s0 & r0 & w & r & _ & _ & _ & Hr0 & _ & _ & Hm & Hu & _)).
  exact (ex_intro _ s0 (ex_intro _ r0 (ex_intro _ w (conj Hr0 (conj Hm Hu))))).
Defined.
