(* ===== verification/Jose.v ===== *)
(** * Signed tokens: what is accepted, and under which key

    [crates/jose/src/jws.rs], [verify.rs] and, for the keys a token may be checked with, the
    verifying key of [key.rs], the JWK Sets of [client_keys.rs] (without the cache over
    [jwks_uri]) and the thumbprint of [store.rs].

    The base64url engine, [serde_json] on bytes, SHA-256, the signature primitives and the
    DER of an RSA key are the parameters of the class [JoseEnv]. *)

From S2P Require Import Prelude Text BTree Json Keys.
From Stdlib Require Import SpecFloat.
Open Scope Z_scope.

(** [Header]. *)
Record Header : Type := {
  h_alg : string;
  h_typ : option string;
  h_kid : option string;
  h_crit : option (list string)
}.

Class JoseEnv : Type := {
  (** [URL_SAFE_NO_PAD]. *)
  b64_encode : list Z -> string;
  b64_decode : string -> option (list Z);
  (** [serde_json::from_slice], at [Value] and at [Header]. *)
  from_slice : list Z -> option value;
  header_of : list Z -> option Header;
  sha256 : list Z -> list Z;
  (** Whether the signature is one of the message under the key, by algorithm. *)
  signature_ok : SigningAlgorithm -> list Z -> list Z -> list Z -> bool;
  (** The DER of a modulus and an exponent. *)
  rsa_der : list Z -> list Z -> option (list Z)
}.

(** What is relied on of the engine: one text per byte string, in the url-safe alphabet. *)
Definition url_safe (b : Z) : bool := is_ascii_alphanumeric b || (b =? 45) || (b =? 95).
Class JoseLaws (E : JoseEnv) : Prop := {
  b64_round_trip : forall b, b64_decode (b64_encode b) = Some b;
  b64_canonical : forall s b, b64_decode s = Some b -> s = b64_encode b;
  b64_alphabet : forall b, all_bytes url_safe (b64_encode b) = true;
  b64_empty : b64_encode [] = ""%string
}.

Inductive JoseError : Type :=
| KeyRejected (algorithm : SigningAlgorithm)
| WeakKey (bits minimum : Z)
| PublicKey
| Malformed (why : string)
| UnsupportedAlgorithm (alg : string)
| UnsupportedCritical (crit : string)
| UnexpectedHeader (field expected found : string)
| InvalidSignature.

(** ** Keys *)

Record VerifyingKey : Type := { vk_algorithm : SigningAlgorithm; vk_bytes : list Z }.

Module VerifyingKey.
Section Env.
Context {E : JoseEnv}.
Definition verify (key : VerifyingKey) (message signature : list Z) : result unit JoseError :=
  if signature_ok (vk_algorithm key) (vk_bytes key) message signature then Ok tt else Err InvalidSignature.
End Env.
End VerifyingKey.

(** ** [jws.rs] *)

Record Unverified : Type := {
  u_header : Header;
  u_header_bytes : list Z;
  u_payload : list Z;
  u_signature : list Z;
  u_signing_input : string
}.

Module Jws.
Section Env.
Context {E : JoseEnv}.

Definition kid (u : Unverified) : option string := h_kid (u_header u).
Definition claimed_alg (u : Unverified) : string := h_alg (u_header u).
Definition claimed_typ (u : Unverified) : option string := h_typ (u_header u).

Definition decoded (what segment : string) : result (list Z) JoseError :=
  ok_or (b64_decode segment) (Malformed (what +:+ " is not base64url")).

Definition parse (token : string) : result Unverified JoseError :=
  match split_on "."%char token with
  | [header_b64; payload_b64; signature_b64] =>
      if is_empty header_b64 || is_empty signature_b64 then Err (Malformed "empty header or signature segment")
      else
        let? header_bytes := decoded "header" header_b64 in
        let? payload := decoded "payload" payload_b64 in
        let? signature := decoded "signature" signature_b64 in
        let? header := ok_or (header_of header_bytes) (Malformed "header is not a JOSE header") in
        match h_crit header with
        | Some crit => Err (UnsupportedCritical (join "," crit))
        | None =>
            if negb (bool_decide (is_Some (SigningAlgorithm.parse (h_alg header))))
            then Err (UnsupportedAlgorithm (h_alg header))
            else Ok {| u_header := header; u_header_bytes := header_bytes; u_payload := payload;
                       u_signature := signature; u_signing_input := header_b64 +:+ "." +:+ payload_b64 |}
        end
  | _ => Err (Malformed "expected three '.'-separated segments")
  end%string.

(** [Unverified::verify]. *)
Definition verify (u : Unverified) (key : VerifyingKey) : result (list Z) JoseError :=
  let expected := SigningAlgorithm.as_str (vk_algorithm key) in
  if negb (String.eqb (h_alg (u_header u)) expected)
  then Err (UnexpectedHeader "alg" expected (h_alg (u_header u)))
  else let? _ := VerifyingKey.verify key (bytes_of (u_signing_input u)) (u_signature u) in Ok (u_payload u).
End Env.
End Jws.

(** ** [verify.rs] *)

Definition MAX_JWT_BYTES : Z := 8 * 1024.
Definition DEFAULT_FUTURE_SKEW : Z := seconds 10.
Definition MAX_FUTURE_SKEW : Z := seconds 60.

Inductive TypRule : Type := Exactly (typ : string) | OptionalOneOf (accepted : list string).

Module TypRule.
Definition normalise (v : string) : string :=
  if starts_with "application/" v || starts_with "APPLICATION/" v then skip 12 v else v.
Definition same_type (found expected : string) : bool := eq_ignore_ascii_case (normalise found) (normalise expected).
Definition accepts (rule : TypRule) (claimed : option string) : bool :=
  match rule with
  | Exactly expected => is_some_and (fun found => same_type found expected) claimed
  | OptionalOneOf accepted =>
      match claimed with
      | None => true
      | Some found => existsb (same_type found) accepted
      end
  end.
Definition describe (rule : TypRule) : string :=
  match rule with
  | Exactly expected => expected
  | OptionalOneOf accepted => "absent or one of [" +:+ join ", " accepted +:+ "]"
  end.
End TypRule.

Record Policy : Type := {
  p_typ : TypRule;
  p_allowed_algorithms : list SigningAlgorithm;
  p_expected_issuer : option string;
  p_expected_audience : option string;
  p_require_expiry : bool;
  p_accept_expired : bool;
  p_future_skew : Z;
  p_max_bytes : Z
}.

Module Policy.
Definition new (typ : TypRule) (allowed : list SigningAlgorithm) : Policy := {|
  p_typ := typ; p_allowed_algorithms := allowed; p_expected_issuer := None; p_expected_audience := None;
  p_require_expiry := true; p_accept_expired := false; p_future_skew := DEFAULT_FUTURE_SKEW;
  p_max_bytes := MAX_JWT_BYTES |}.
Definition issued_by (p : Policy) (issuer : string) : Policy := {|
  p_typ := p_typ p; p_allowed_algorithms := p_allowed_algorithms p; p_expected_issuer := Some issuer;
  p_expected_audience := p_expected_audience p; p_require_expiry := p_require_expiry p;
  p_accept_expired := p_accept_expired p; p_future_skew := p_future_skew p; p_max_bytes := p_max_bytes p |}.
Definition for_audience (p : Policy) (audience : string) : Policy := {|
  p_typ := p_typ p; p_allowed_algorithms := p_allowed_algorithms p; p_expected_issuer := p_expected_issuer p;
  p_expected_audience := Some audience; p_require_expiry := p_require_expiry p;
  p_accept_expired := p_accept_expired p; p_future_skew := p_future_skew p; p_max_bytes := p_max_bytes p |}.
Definition with_future_skew (p : Policy) (skew : Z) : Policy := {|
  p_typ := p_typ p; p_allowed_algorithms := p_allowed_algorithms p; p_expected_issuer := p_expected_issuer p;
  p_expected_audience := p_expected_audience p; p_require_expiry := p_require_expiry p;
  p_accept_expired := p_accept_expired p; p_future_skew := Z.max (Z.min skew MAX_FUTURE_SKEW) 0;
  p_max_bytes := p_max_bytes p |}.
Definition without_expiry (p : Policy) : Policy := {|
  p_typ := p_typ p; p_allowed_algorithms := p_allowed_algorithms p; p_expected_issuer := p_expected_issuer p;
  p_expected_audience := p_expected_audience p; p_require_expiry := false;
  p_accept_expired := p_accept_expired p; p_future_skew := p_future_skew p; p_max_bytes := p_max_bytes p |}.
Definition accepting_expired (p : Policy) : Policy := {|
  p_typ := p_typ p; p_allowed_algorithms := p_allowed_algorithms p; p_expected_issuer := p_expected_issuer p;
  p_expected_audience := p_expected_audience p; p_require_expiry := p_require_expiry p;
  p_accept_expired := true; p_future_skew := p_future_skew p; p_max_bytes := p_max_bytes p |}.
Definition with_max_bytes (p : Policy) (max_bytes : Z) : Policy := {|
  p_typ := p_typ p; p_allowed_algorithms := p_allowed_algorithms p; p_expected_issuer := p_expected_issuer p;
  p_expected_audience := p_expected_audience p; p_require_expiry := p_require_expiry p;
  p_accept_expired := p_accept_expired p; p_future_skew := p_future_skew p; p_max_bytes := max_bytes |}.
End Policy.

(** The keys that a [kid], or none, may mean. *)
Abbreviation KeyResolver := (option string -> list VerifyingKey) (only parsing).

Record Verified : Type := { v_claims : value; v_kid : option string; v_algorithm : SigningAlgorithm }.

Inductive VerificationError : Type :=
| TooLarge (size limit : Z)
| Jose (e : JoseError)
| AlgorithmNotAllowed (found : string)
| NoKeyVerified
| MalformedClaims
| UnexpectedType (expected : string) (found : option string)
| MissingClaim (claim : string)
| ClaimMismatch (claim expected found : string)
| Expired (expired_at : Z)
| TooFarAhead (claim : string) (seconds_ahead limit : Z).

(** Subtraction of [i64], which wraps in a release build. *)
Definition wrap_i64 (n : Z) : Z := (n + 2 ^ 63) mod 2 ^ 64 - 2 ^ 63.

(** [f64::trunc] and the saturating [as i64]. *)
Definition trunc_i64 (f : spec_float) : Z :=
  let bounded n := Z.max (- 2 ^ 63) (Z.min n (2 ^ 63 - 1)) in
  match f with
  | S754_finite s m e =>
      let n := if 0 <=? e then Zpos m * 2 ^ e else Zpos m / 2 ^ (- e) in
      bounded (if s then - n else n)
  | S754_infinity s => if s then - 2 ^ 63 else 2 ^ 63 - 1
  | S754_zero _ | S754_nan => 0
  end.

Definition numeric_claim (claims : value) (name : string) : option Z :=
  v ← vget name claims;
  match as_i64 v with
  | Some n => Some n
  | None => trunc_i64 <$> as_f64 v
  end.

(** A [BTreeSet] of the audiences. *)
Definition audience_values (claims : value) : option (list string) :=
  match vget "aud" claims with
  | Some (VString single) => Some [single]
  | Some (VArray many) => Some (bset_of_list (omap as_str many))
  | _ => None
  end.

Definition check_expiry (claims : value) (policy : Policy) (unix_now : Z) : result unit VerificationError :=
  match numeric_claim claims "exp" with
  | Some exp => if (exp <=? unix_now) && negb (p_accept_expired policy) then Err (Expired exp) else Ok tt
  | None => if p_require_expiry policy then Err (MissingClaim "exp") else Ok tt
  end.

Definition check_ahead (claims : value) (skew unix_now : Z) (claim : string) : result unit VerificationError :=
  match numeric_claim claims claim with
  | Some v =>
      let ahead := wrap_i64 (v - unix_now) in
      if skew <? ahead then Err (TooFarAhead claim ahead skew) else Ok tt
  | None => Ok tt
  end.

Definition check_issuer (claims : value) (policy : Policy) : result unit VerificationError :=
  match p_expected_issuer policy with
  | None => Ok tt
  | Some expected =>
      let? found := ok_or (vget "iss" claims ≫= as_str) (MissingClaim "iss") in
      if String.eqb found expected then Ok tt else Err (ClaimMismatch "iss" expected found)
  end.

Definition check_audience (claims : value) (policy : Policy) : result unit VerificationError :=
  match p_expected_audience policy with
  | None => Ok tt
  | Some expected =>
      let? audiences := ok_or (audience_values claims) (MissingClaim "aud") in
      if in_strings expected audiences then Ok tt
      else Err (ClaimMismatch "aud" expected (join "," audiences))
  end.

Definition check_claims (claims : value) (policy : Policy) (now : Z) : result unit VerificationError :=
  let unix_now := unix_timestamp now in
  let skew := whole_seconds (Z.min (p_future_skew policy) MAX_FUTURE_SKEW) in
  let? _ := check_expiry claims policy unix_now in
  let? _ := check_ahead claims skew unix_now "nbf" in
  let? _ := check_ahead claims skew unix_now "iat" in
  let? _ := check_issuer claims policy in
  check_audience claims policy.

Section Verify.
Context {E : JoseEnv}.

(** The loop over the candidates: each tries the token written out again. *)
Fixpoint try_keys (u : Unverified) (candidates : list VerifyingKey) : result (list Z) VerificationError :=
  match candidates with
  | [] => Err NoKeyVerified
  | key :: rest =>
      match Jws.parse (u_signing_input u +:+ "." +:+ b64_encode (u_signature u)) with
      | Ok reparsed =>
          match Jws.verify reparsed key with Ok payload => Ok payload | Err _ => try_keys u rest end
      | Err _ => try_keys u rest
      end
  end.

Definition select_key_and_verify (u : Unverified) (kid : option string) (algorithm : SigningAlgorithm)
    (resolver : KeyResolver) : result (list Z) VerificationError :=
  try_keys u (List.filter (fun key => bool_decide (vk_algorithm key = algorithm)) (resolver kid)).

Definition verify (token : string) (policy : Policy) (resolver : KeyResolver) (now : Z)
    : result Verified VerificationError :=
  if p_max_bytes policy <? slen token then Err (TooLarge (slen token) (p_max_bytes policy))
  else
    let? u := map_err Jose (Jws.parse token) in
    if negb (TypRule.accepts (p_typ policy) (Jws.claimed_typ u))
    then Err (UnexpectedType (TypRule.describe (p_typ policy)) (Jws.claimed_typ u))
    else
      let claimed := Jws.claimed_alg u in
      let? algorithm := ok_or
        (a ← SigningAlgorithm.parse claimed;
         if bool_decide (a ∈ p_allowed_algorithms policy) then Some a else None)
        (AlgorithmNotAllowed claimed) in
      let? payload := select_key_and_verify u (Jws.kid u) algorithm resolver in
      let? claims := ok_or (from_slice payload) MalformedClaims in
      if negb (bool_decide (is_Some (as_object claims))) then Err MalformedClaims
      else
        let? _ := check_claims claims policy now in
        Ok {| v_claims := claims; v_kid := Jws.kid u; v_algorithm := algorithm |}.
End Verify.

(** ** [client_keys.rs]: the keys of a JWK Set *)

Definition MAX_JWK_SET_BYTES : Z := 64 * 1024.
Definition MAX_KEYS : Z := 32.
Definition MIN_RSA_BITS : Z := 2048.

Inductive ClientKeyError : Type :=
| KeySetTooLarge (size limit : Z)
| MalformedKeySet (why : string)
| TooManyKeys (count limit : Z)
| PrivateKeyMaterial
| Unavailable.

Record ClientKey : Type := { ck_kid : option string; ck_key : VerifyingKey }.
Record ClientKeySet : Type := { ks_keys : list ClientKey; ks_leaf_certificates : list string }.

Definition PRIVATE_MEMBERS : list string := ["d"; "p"; "q"; "dp"; "dq"; "qi"; "oth"; "k"]%string.
Definition has_private_members (jwk : object) : bool :=
  existsb (fun member => bool_decide (is_Some (bget member jwk))) PRIVATE_MEMBERS.

Section Keys.
Context {E : JoseEnv}.

Definition key_member (jwk : object) (name : string) : option (list Z) := text ← bget name jwk ≫= as_str; b64_decode text.

Definition verifying_key (algorithm : SigningAlgorithm) (jwk : object) : option VerifyingKey :=
  let curve := bget "crv"%string jwk ≫= as_str in
  match algorithm with
  | EdDsa =>
      if negb (bool_decide (curve = Some "Ed25519"%string)) then None
      else
        x ← key_member jwk "x";
        if negb (length x =? 32)%nat then None else Some {| vk_algorithm := algorithm; vk_bytes := x |}
  | Es256 =>
      if negb (bool_decide (curve = Some "P-256"%string)) then None
      else
        x ← key_member jwk "x"; y ← key_member jwk "y";
        if negb (length x =? 32)%nat || negb (length y =? 32)%nat then None
        else Some {| vk_algorithm := algorithm; vk_bytes := 4 :: x ++ y |}
  | Ps256 =>
      n ← key_member jwk "n"; e ← key_member jwk "e";
      if Z.of_nat (length n) * 8 <? MIN_RSA_BITS then None
      else der ← rsa_der n e; Some {| vk_algorithm := algorithm; vk_bytes := der |}
  end.

(** The algorithm a JWK is for, by its [alg] or by its type. *)
Definition jwk_algorithm (jwk : object) (kty : string) : option SigningAlgorithm :=
  match bget "alg"%string jwk with
  | Some declared =>
      algorithm ← as_str declared ≫= SigningAlgorithm.parse;
      if String.eqb (SigningAlgorithm.key_type algorithm) kty then Some algorithm else None
  | None => List.find (fun a => String.eqb (SigningAlgorithm.key_type a) kty) SigningAlgorithm.ALL
  end.

Definition for_verification (jwk : object) : bool :=
  is_none_or (fun declared => bool_decide (as_str declared = Some "sig"%string)) (bget "use"%string jwk)
  && is_none_or (fun ops => is_some_and (existsb (fun op => bool_decide (as_str op = Some "verify"%string))) (as_array ops))
       (bget "key_ops"%string jwk).

(** [admit]: a usable key, [None] for one passed over. *)
Definition admit_key (jwk : object) : result (option ClientKey) ClientKeyError :=
  if has_private_members jwk then Err PrivateKeyMaterial
  else if negb (for_verification jwk) then Ok None
  else Ok (
    kty ← bget "kty"%string jwk ≫= as_str;
    algorithm ← jwk_algorithm jwk kty;
    key ← verifying_key algorithm jwk;
    match bget "kid"%string jwk with
    | Some v => kid ← as_str v; Some {| ck_kid := Some kid; ck_key := key |}
    | None => Some {| ck_kid := None; ck_key := key |}
    end).

Definition leaf_certificate (jwk : object) : option string :=
  chain ← bget "x5c"%string jwk ≫= as_array; head chain ≫= as_str.

Definition add_key (entry : value) (s : ClientKeySet) : result ClientKeySet ClientKeyError :=
  match as_object entry with
  | None => Ok s
  | Some jwk =>
      let? key := admit_key jwk in
      Ok {| ks_keys := ks_keys s ++ option_list key;
            ks_leaf_certificates := ks_leaf_certificates s ++ option_list (leaf_certificate jwk) |}
  end.

Definition keys_from_jwk_set (document : value) : result ClientKeySet ClientKeyError :=
  let? keys := ok_or (vget "keys" document ≫= as_array)
    (MalformedKeySet "must be an object with a `keys` array (RFC 7517 §5)") in
  if MAX_KEYS <? Z.of_nat (length keys) then Err (TooManyKeys (Z.of_nat (length keys)) MAX_KEYS)
  else try_fold add_key keys {| ks_keys := []; ks_leaf_certificates := [] |}.

Definition parse_jwk_set (raw : list Z) : result ClientKeySet ClientKeyError :=
  if MAX_JWK_SET_BYTES <? Z.of_nat (length raw) then Err (KeySetTooLarge (Z.of_nat (length raw)) MAX_JWK_SET_BYTES)
  else
    let? document := ok_or (from_slice raw) (MalformedKeySet "not JSON") in
    keys_from_jwk_set document.

(** [ClientKeySet]'s [KeyResolver::candidates]. *)
Definition candidates (s : ClientKeySet) : KeyResolver := fun kid =>
  match kid with
  | None => map ck_key (ks_keys s)
  | Some kid =>
      match List.filter (fun k => bool_decide (ck_kid k = Some kid)) (ks_keys s) with
      | [] => map ck_key (List.filter (fun k => bool_decide (ck_kid k = None)) (ks_keys s))
      | matching => map ck_key matching
      end
  end.

(** [store.rs]: RFC 7638. *)
Definition quote : string := String.String "034"%char EmptyString.
Definition quoted (name v : string) : string := (quote +:+ name +:+ quote +:+ ":" +:+ quote +:+ v +:+ quote)%string.
Definition thumbprint_text (jwk : value) : result string JoseError :=
  let member name := ok_or (vget name jwk ≫= as_str) PublicKey in
  let? kty := member "kty"%string in
  if String.eqb kty "OKP" then
    let? crv := member "crv"%string in
    let? x := member "x"%string in
    Ok ("{" +:+ quoted "crv" crv +:+ "," +:+ quoted "kty" "OKP" +:+ "," +:+ quoted "x" x +:+ "}")%string
  else if String.eqb kty "EC" then
    let? crv := member "crv"%string in
    let? x := member "x"%string in
    let? y := member "y"%string in
    Ok ("{" +:+ quoted "crv" crv +:+ "," +:+ quoted "kty" "EC" +:+ "," +:+ quoted "x" x +:+ "," +:+ quoted "y" y
        +:+ "}")%string
  else if String.eqb kty "RSA" then
    let? e := member "e"%string in
    let? n := member "n"%string in
    Ok ("{" +:+ quoted "e" e +:+ "," +:+ quoted "kty" "RSA" +:+ "," +:+ quoted "n" n +:+ "}")%string
  else Err PublicKey.

Definition thumbprint (jwk : value) : result string JoseError :=
  let? canonical := thumbprint_text jwk in
  Ok (b64_encode (sha256 (bytes_of canonical))).
End Keys.
