(* ===== verification/JoseLaws.v ===== *)
(** * When a token is accepted

    Laws of [Jose]: what a token that verifies is, exactly; which keys a set offers for it;
    and what a thumbprint says of a key. *)

From S2P Require Import Prelude Text BTree Json Keys Jose.
Open Scope Z_scope.

Lemma all_bytes_impl (p q : Z -> bool) s :
  (forall b, p b = true -> q b = true) -> all_bytes p s = true -> all_bytes q s = true.
Proof. unfold all_bytes. rewrite !forallb_forall. auto. Qed.

Lemma is_empty_false s : is_empty s = false <-> s <> ""%string.
Proof. destruct s; cbn; split; congruence. Qed.

Section Laws.
Context {E : JoseEnv} {L : JoseLaws E}.

(** ** The compact form *)

Lemma b64_free c b : url_safe (Z.of_N (Ascii.N_of_ascii c)) = false -> free_of c (b64_encode b).
Proof.
  intros Hc. eapply all_bytes_impl; [|apply b64_alphabet]. intros z Hz. apply negb_true_iff, Z.eqb_neq.
  intros ->. congruence.
Qed.

Lemma decoded_free c s b : url_safe (Z.of_N (Ascii.N_of_ascii c)) = false -> b64_decode s = Some b -> free_of c s.
Proof. intros Hc ->%b64_canonical. by apply b64_free. Qed.

(** What a parsed token is made of. *)
Definition made_of (header_b64 payload_b64 signature_b64 : string) (u : Unverified) : Prop :=
  header_b64 <> ""%string /\ signature_b64 <> ""%string /\
  b64_decode header_b64 = Some (u_header_bytes u) /\ b64_decode payload_b64 = Some (u_payload u) /\
  b64_decode signature_b64 = Some (u_signature u) /\
  header_of (u_header_bytes u) = Some (u_header u) /\ h_crit (u_header u) = None /\
  is_Some (SigningAlgorithm.parse (h_alg (u_header u))) /\
  u_signing_input u = (header_b64 +:+ "." +:+ payload_b64)%string.

Lemma jws_parse_iff token u :
  Jws.parse token = Ok u <->
  exists h p s, token = (h +:+ "." +:+ p +:+ "." +:+ s)%string /\ made_of h p s u.
Proof.
  unfold Jws.parse. destruct (split_on "."%char token) as [|h [|p [|s [|x l]]]] eqn:Hs.
  1,2,3,5: split; [done|]; intros (h' & p' & s' & -> & _ & _ & Hh & Hp & Hg & _);
    change (?a +:+ "." +:+ ?b +:+ "." +:+ ?c)%string
      with (join (String.String "."%char EmptyString) [a; b; c]) in Hs;
    rewrite split_join in Hs; [done|done|]; repeat constructor; by eapply decoded_free.
  apply split_on_iff in Hs as (_ & Hf & <-). split.
  - intros H. passed H Hne. bool_hyps. unfold Jws.decoded in H. ok_inv.
    destruct (h_crit a2) eqn:Hc; [done|]. passed H Halg. apply negb_false_iff, bool_decide_eq_true in Halg.
    injection H as <-. exists h, p, s. split; [done|]. repeat split; try done; by apply is_empty_false.
  - intros (h' & p' & s' & Ht & H1 & H2 & H3 & H4 & H5 & H6 & H7 & H8 & H9).
    assert (Hl : [h; p; s] = [h'; p'; s']).
    { transitivity (split_on "."%char (h' +:+ "." +:+ p' +:+ "." +:+ s')%string).
      - rewrite <- Ht. symmetry. by apply split_join.
      - change (?a +:+ "." +:+ ?b +:+ "." +:+ ?c)%string
          with (join (String.String "."%char EmptyString) [a; b; c]).
        apply split_join; [done|]. repeat constructor; by eapply decoded_free. }
    injection Hl as -> -> ->. apply is_empty_false in H1 as ->, H2 as ->. cbn [orb]. unfold Jws.decoded.
    rewrite H3, H4, H5. cbn [ok_or rbind]. rewrite H6. cbn [ok_or rbind]. rewrite H7, bool_decide_eq_true_2 by done.
    cbn [negb]. destruct u; cbn in *. by subst.
Qed.

Lemma jws_reparse token u : Jws.parse token = Ok u ->
  Jws.parse (u_signing_input u +:+ "." +:+ b64_encode (u_signature u)) = Ok u.
Proof.
  intros (h & p & s & -> & H)%jws_parse_iff. apply jws_parse_iff. exists h, p, s. split; [|done].
  destruct H as (_ & _ & _ & _ & Hs%b64_canonical & _ & _ & _ & ->). by rewrite <- Hs, <- !append_assoc.
Qed.

Lemma jws_verify_iff u key payload :
  Jws.verify u key = Ok payload <->
  payload = u_payload u /\ h_alg (u_header u) = SigningAlgorithm.as_str (vk_algorithm key) /\
  signature_ok (vk_algorithm key) (vk_bytes key) (bytes_of (u_signing_input u)) (u_signature u) = true.
Proof.
  unfold Jws.verify, VerifyingKey.verify. destruct (String.eqb_spec (h_alg (u_header u)) (SigningAlgorithm.as_str (vk_algorithm key))) as [->|Hne].
  - cbn [negb]. destruct (signature_ok _ _ _ _); cbn; naive_solver.
  - cbn [negb]. naive_solver.
Qed.

Lemma try_keys_iff token u keys payload : Jws.parse token = Ok u ->
  try_keys u keys = Ok payload <-> exists key, In key keys /\ Jws.verify u key = Ok payload.
Proof.
  intros Hu. induction keys as [|key keys IH]; cbn [try_keys]; [split; [done|by intros (? & [] & _)]|].
  rewrite (jws_reparse _ _ Hu). destruct (Jws.verify u key) as [p|e] eqn:Hk.
  - split; [intros [= ->]; exists key; split; [by left|done]|].
    intros (k & _ & H%jws_verify_iff). apply jws_verify_iff in Hk as [-> _]. by destruct H as [-> _].
  - rewrite IH. split.
    + intros (k & Hin & Hv). exists k. split; [by right|done].
    + intros (k & [<-|Hin] & Hv); [congruence|]. by exists k.
Qed.

(** ** What is accepted *)

(** Neither expired nor from the future, and for whom it should be. *)
Record current (claims : value) (policy : Policy) (now : Z) : Prop := {
  not_expired : forall exp, numeric_claim claims "exp" = Some exp ->
    unix_timestamp now < exp \/ p_accept_expired policy = true;
  has_expiry : numeric_claim claims "exp" = None -> p_require_expiry policy = false;
  not_ahead : forall claim at_, In claim ["nbf"; "iat"]%string -> numeric_claim claims claim = Some at_ ->
    wrap_i64 (at_ - unix_timestamp now) <= whole_seconds (Z.min (p_future_skew policy) MAX_FUTURE_SKEW);
  issuer_expected : forall issuer, p_expected_issuer policy = Some issuer -> vget "iss" claims = Some (VString issuer);
  audience_expected : forall audience, p_expected_audience policy = Some audience ->
    exists audiences, audience_values claims = Some audiences /\ In audience audiences
}.

Lemma check_claims_iff claims policy now : check_claims claims policy now = Ok tt <-> current claims policy now.
Proof.
  unfold check_claims, check_expiry, check_ahead, check_issuer, check_audience. split.
  - intros H. cbn zeta in H. apply rbind_Ok in H as ([] & He & H). apply rbind_Ok in H as ([] & Hn & H).
    apply rbind_Ok in H as ([] & Hi & H). apply rbind_Ok in H as ([] & His & Hau). split.
    + intros exp Hexp. rewrite Hexp in He. passed He Hc. apply andb_false_iff in Hc as [Hc|Hc]; bool_hyps; [by left|by right].
    + intros Hexp. rewrite Hexp in He. by destruct (p_require_expiry policy).
    + intros claim at_ [<-|[<-|[]]] Hat; [rewrite Hat in Hn; passed Hn Hc|rewrite Hat in Hi; passed Hi Hc]; by bool_hyps.
    + intros issuer Hiss. rewrite Hiss in His. apply rbind_Ok in His as (found & Hf%ok_or_Ok & His).
      destruct (String.eqb_spec found issuer) as [->|]; [|done]. apply bind_Some in Hf as (v & -> & Hv). by destruct v; simplify_eq/=.
    + intros audience Haud. rewrite Haud in Hau. apply rbind_Ok in Hau as (audiences & Hf%ok_or_Ok & Hau).
      destruct (in_strings audience audiences) eqn:Hin; [|done]. exists audiences. split; [done|]. by apply in_strings_In.
  - intros [He Hre Ha Hi Hau]. cbn zeta.
    assert (H1 : match numeric_claim claims "exp" with
      | Some exp => if (exp <=? unix_timestamp now) && negb (p_accept_expired policy) then Err (Expired exp) else Ok tt
      | None => if p_require_expiry policy then Err (MissingClaim "exp") else Ok tt end = Ok tt).
    { destruct (numeric_claim claims "exp") as [exp|]; [|by rewrite Hre].
      destruct (He exp eq_refl) as [H|H]; [by apply Z.leb_gt in H as ->|by rewrite H, andb_false_r]. }
    rewrite H1. cbn [rbind].
    assert (H2 : forall claim, In claim ["nbf"; "iat"]%string ->
      match numeric_claim claims claim with
      | Some v => if whole_seconds (Z.min (p_future_skew policy) MAX_FUTURE_SKEW) <? wrap_i64 (v - unix_timestamp now)
                  then Err (TooFarAhead claim (wrap_i64 (v - unix_timestamp now)) (whole_seconds (Z.min (p_future_skew policy) MAX_FUTURE_SKEW)))
                  else Ok tt
      | None => Ok tt end = Ok tt).
    { intros claim Hin. destruct (numeric_claim claims claim) as [v|] eqn:Hv; [|done].
      specialize (Ha claim v Hin Hv). by apply Z.ltb_ge in Ha as ->. }
    rewrite !H2 by (cbn; tauto). cbn [rbind].
    destruct (p_expected_issuer policy) as [issuer|]; [rewrite (Hi issuer eq_refl); cbn; rewrite String.eqb_refl; cbn|cbn];
      (destruct (p_expected_audience policy) as [audience|]; [|done];
       destruct (Hau audience eq_refl) as (audiences & -> & Hin%in_strings_In); cbn; by rewrite Hin).
Qed.

(** A token as it should be: its parts are those of a compact JWS, its type and algorithm
    those its reader asked for, and its signature is one of exactly the bytes it was sent
    as, under a key its reader trusts for its [kid] and its algorithm. *)
Record genuine (token : string) (policy : Policy) (resolver : KeyResolver) (now : Z) (v : Verified) : Prop := {
  g_bounded : slen token <= p_max_bytes policy;
  g_signed : exists h p s u key,
    token = (h +:+ "." +:+ p +:+ "." +:+ s)%string /\ made_of h p s u /\
    TypRule.accepts (p_typ policy) (h_typ (u_header u)) = true /\
    h_alg (u_header u) = SigningAlgorithm.as_str (v_algorithm v) /\ v_kid v = h_kid (u_header u) /\
    In key (resolver (v_kid v)) /\ vk_algorithm key = v_algorithm v /\
    signature_ok (v_algorithm v) (vk_bytes key) (bytes_of (h +:+ "." +:+ p)) (u_signature u) = true /\
    from_slice (u_payload u) = Some (v_claims v);
  g_algorithm : v_algorithm v ∈ p_allowed_algorithms policy;
  g_object : exists m, v_claims v = VObject m;
  g_current : current (v_claims v) policy now
}.

Lemma algorithm_of_name a : SigningAlgorithm.parse (SigningAlgorithm.as_str a) = Some a.
Proof. by destruct a. Qed.
Lemma parse_Some name a : SigningAlgorithm.parse name = Some a -> name = SigningAlgorithm.as_str a.
Proof. intros [_ H%String.eqb_eq]%find_some. done. Qed.

Lemma verify_iff token policy resolver now v :
  verify token policy resolver now = Ok v <-> genuine token policy resolver now v.
Proof.
  unfold verify, select_key_and_verify. split.
  - intros H. passed H Hlen. bool_hyps. apply rbind_Ok in H as (u & Hu%map_err_Ok & H). passed H Htyp.
    apply negb_false_iff in Htyp. cbn zeta in H. apply rbind_Ok in H as (a & Ha%ok_or_Ok & H).
    apply bind_Some in Ha as (a' & Ha%parse_Some & Hin). destruct (bool_decide_reflect (a' ∈ p_allowed_algorithms policy)) as [Hal|]; [|done].
    injection Hin as ->. apply rbind_Ok in H as (payload & Hp & H). apply rbind_Ok in H as (claims & Hc%ok_or_Ok & H).
    passed H Hobj. apply negb_false_iff, bool_decide_eq_true in Hobj. apply rbind_Ok in H as ([] & Hck & H).
    injection H as <-. apply (try_keys_iff token u) in Hp as (key & Hin & Hv); [|done].
    apply filter_In in Hin as [Hin Hka%bool_decide_eq_true]. apply jws_verify_iff in Hv as (-> & _ & Hs).
    pose proof Hu as (h & p & s & -> & Hm)%jws_parse_iff. pose proof Hm as (_ & _ & _ & _ & _ & _ & _ & _ & Hsi).
    split; cbn.
    + done.
    + exists h, p, s, u, key. split; [done|]. split; [done|]. split; [done|]. split; [done|]. split; [done|].
      split; [done|]. split; [done|]. split; [|done]. by rewrite <- Hsi, <- Hka.
    + done.
    + destruct claims; try by destruct Hobj. eauto.
    + by apply check_claims_iff.
  - intros [Hlen (h & p & s & u & key & -> & Hm & Htyp & Ha & Hkid & Hin & Hka & Hs & Hc) Hal [m Hobj] Hcur].
    destruct (Z.ltb_spec (p_max_bytes policy) (slen (h +:+ "." +:+ p +:+ "." +:+ s))); [lia|].
    assert (Hu : Jws.parse (h +:+ "." +:+ p +:+ "." +:+ s) = Ok u) by (apply jws_parse_iff; by exists h, p, s).
    rewrite Hu. cbn [map_err rbind]. unfold Jws.claimed_typ, Jws.claimed_alg, Jws.kid. rewrite Htyp. cbn [negb].
    rewrite Ha, algorithm_of_name. cbn [mbind option_bind]. rewrite bool_decide_eq_true_2 by done. cbn [ok_or rbind].
    assert (Ht : try_keys u (List.filter (fun key => bool_decide (vk_algorithm key = v_algorithm v)) (resolver (h_kid (u_header u))))
      = Ok (u_payload u)).
    { eapply try_keys_iff; [done|]. exists key. split.
      - apply filter_In. split; [by rewrite <- Hkid|]. by apply bool_decide_eq_true.
      - apply jws_verify_iff. rewrite Hka. destruct Hm as (_ & _ & _ & _ & _ & _ & _ & _ & ->). done. }
    rewrite Ht. cbn [rbind]. rewrite Hc. cbn [ok_or rbind]. rewrite Hobj. cbn [as_object]. rewrite bool_decide_eq_true_2 by done.
    cbn [negb]. rewrite <- Hobj. apply check_claims_iff in Hcur. rewrite Hcur. cbn [rbind]. rewrite <- Hkid. by destruct v.
Qed.

(** C11: A token is accepted exactly where it is genuine. The signature is checked over the
    bytes that were sent and not over a decoded form of them, under a key that was trusted
    beforehand and for the algorithm its reader allows - never one the token chose - and
    the claims returned are those bytes'. *)
Theorem token_accepted_iff token policy resolver now v :
  verify token policy resolver now = Ok v <-> genuine token policy resolver now v.
Proof. exact (verify_iff token policy resolver now v). Qed.

(** ** What a thumbprint names *)

Lemma free_app_inj c a b r s : free_of c a -> free_of c b ->
  (a +:+ String.String c r = b +:+ String.String c s)%string -> a = b /\ r = s.
Proof.
  revert b. induction a as [|x a IH]; intros [|y b] Ha Hb H; [injection H as H; by subst| | |].
  - injection H as <- _. by apply free_of_cons in Hb as [Hb _]; rewrite Ascii.eqb_refl in Hb.
  - injection H as -> _. by apply free_of_cons in Ha as [Ha _]; rewrite Ascii.eqb_refl in Ha.
  - injection H as -> H. apply free_of_cons in Ha as [_ Ha], Hb as [_ Hb]. by destruct (IH b Ha Hb H) as [-> ->].
Qed.

(** A member of a JWK that is read as bytes. *)
Lemma key_member_Some m name b : key_member m name = Some b <-> bget name m = Some (VString (b64_encode b)).
Proof.
  unfold key_member. split.
  - intros (t & Ht & ->%b64_canonical)%bind_Some. apply bind_Some in Ht as (v & -> & Hv). by destruct v; simplify_eq/=.
  - intros ->. apply b64_round_trip.
Qed.

Lemma b64_encode_inj a b : b64_encode a = b64_encode b -> a = b.
Proof. intros H%(f_equal b64_decode). rewrite !b64_round_trip in H. by injection H. Qed.

(** The canonical form of each kind of key. *)
Definition okp_text (x : list Z) : string :=
  ("{" +:+ quoted "crv" "Ed25519" +:+ "," +:+ quoted "kty" "OKP" +:+ "," +:+ quoted "x" (b64_encode x) +:+ "}")%string.
Definition ec_text (x y : list Z) : string :=
  ("{" +:+ quoted "crv" "P-256" +:+ "," +:+ quoted "kty" "EC" +:+ "," +:+ quoted "x" (b64_encode x) +:+ ","
   +:+ quoted "y" (b64_encode y) +:+ "}")%string.
Definition rsa_text (n e : list Z) : string :=
  ("{" +:+ quoted "e" (b64_encode e) +:+ "," +:+ quoted "kty" "RSA" +:+ "," +:+ quoted "n" (b64_encode n) +:+ "}")%string.

(** What a usable key is, with the text its thumbprint is of. *)
Definition key_text (algorithm : SigningAlgorithm) (m : object) (k : VerifyingKey) (text : string) : Prop :=
  match algorithm with
  | EdDsa => exists x, k = {| vk_algorithm := EdDsa; vk_bytes := x |} /\ text = okp_text x
  | Es256 => exists x y, k = {| vk_algorithm := Es256; vk_bytes := 4 :: x ++ y |} /\ text = ec_text x y /\ length x = 32%nat
  | Ps256 => exists n e der, k = {| vk_algorithm := Ps256; vk_bytes := der |} /\ text = rsa_text n e /\ rsa_der n e = Some der
  end.

Lemma usable_key_text algorithm m k text :
  bget "kty"%string m = Some (VString (SigningAlgorithm.key_type algorithm)) -> verifying_key algorithm m = Some k ->
  thumbprint_text (VObject m) = Ok text -> key_text algorithm m k text.
Proof.
  intros Hkty Hk Ht. unfold thumbprint_text in Ht. cbn [vget] in Ht. cbn zeta in Ht. rewrite Hkty in Ht.
  cbn [mbind option_bind as_str ok_or rbind] in Ht. destruct algorithm; cbn [SigningAlgorithm.key_type] in Ht;
    unfold verifying_key in Hk; cbn zeta in Hk; cbn [String.eqb Ascii.eqb Bool.eqb] in Ht; cbn [key_text].
  - destruct (bool_decide_reflect (bget "crv"%string m ≫= as_str = Some "Ed25519"%string)) as [Hc|]; [|done].
    apply bind_Some in Hk as (x & Hx%key_member_Some & Hk). rewrite Hc, Hx in Ht. cbn in Ht. injection Ht as <-.
    destruct (length x =? 32)%nat; [|done]. injection Hk as <-. by exists x.
  - destruct (bool_decide_reflect (bget "crv"%string m ≫= as_str = Some "P-256"%string)) as [Hc|]; [|done].
    apply bind_Some in Hk as (x & Hx%key_member_Some & Hk). apply bind_Some in Hk as (y & Hy%key_member_Some & Hk).
    rewrite Hc, Hx, Hy in Ht. cbn in Ht. injection Ht as <-. cbn [negb] in Hk.
    destruct (Nat.eqb_spec (length x) 32); [|done]. destruct (length y =? 32)%nat; [|done]. injection Hk as <-. by exists x, y.
  - apply bind_Some in Hk as (n & Hn%key_member_Some & Hk). apply bind_Some in Hk as (e & He%key_member_Some & Hk).
    rewrite Hn, He in Ht. cbn in Ht. injection Ht as <-. destruct (_ <? _); [done|].
    apply bind_Some in Hk as (der & Hder & [= <-]). by exists n, e, der.
Qed.

Lemma quote_free b : free_of "034"%char (b64_encode b).
Proof. by apply b64_free. Qed.

Lemma ec_text_inj x y x' y' : ec_text x y = ec_text x' y' -> x = x' /\ y = y'.
Proof.
  unfold ec_text, quoted, quote. rewrite <- !append_assoc. cbn [String.append]. intros H. injection H as H.
  apply free_app_inj in H as [->%b64_encode_inj H]; [|apply quote_free..]. injection H as H.
  by apply free_app_inj in H as [->%b64_encode_inj _]; [|apply quote_free..].
Qed.

Lemma rsa_text_inj n e n' e' : rsa_text n e = rsa_text n' e' -> n = n' /\ e = e'.
Proof.
  unfold rsa_text, quoted, quote. rewrite <- !append_assoc. cbn [String.append]. intros H. injection H as H.
  apply free_app_inj in H as [->%b64_encode_inj H]; [|apply quote_free..]. injection H as H.
  by apply free_app_inj in H as [->%b64_encode_inj _]; [|apply quote_free..].
Qed.

Lemma okp_text_inj x x' : okp_text x = okp_text x' -> x = x'.
Proof.
  unfold okp_text, quoted, quote. rewrite <- !append_assoc. cbn [String.append]. intros H. injection H as H.
  by apply free_app_inj in H as [->%b64_encode_inj _]; [|apply quote_free..].
Qed.

Lemma key_text_inj a a' m m' k k' text : key_text a m k text -> key_text a' m' k' text -> k = k'.
Proof.
  destruct a, a'; cbn [key_text].
  - intros (x & -> & ->) (x' & -> & ->%okp_text_inj). done.
  - intros (x & _ & ->) (x' & y' & _ & H & _). discriminate H.
  - intros (x & _ & ->) (n & e & d & _ & H & _). discriminate H.
  - intros (x & y & _ & -> & _) (x' & _ & H). discriminate H.
  - intros (x & y & -> & -> & _) (x' & y' & -> & [-> ->]%ec_text_inj & _). done.
  - intros (x & y & _ & -> & _) (n & e & d & _ & H & _). discriminate H.
  - intros (n & e & d & _ & -> & _) (x' & _ & H). discriminate H.
  - intros (n & e & d & _ & -> & _) (x & y & _ & H & _). discriminate H.
  - intros (n & e & d & -> & -> & Hd) (n' & e' & d' & -> & [-> ->]%rsa_text_inj & Hd'). congruence.
Qed.

(** C26: A thumbprint names one key. Two usable keys with the same thumbprint - whatever
    else their JWKs say, and of whatever types - are one key, or two texts with the same
    SHA-256 have been found. *)
Theorem thumbprint_names_one_key a a' m m' k k' t :
  bget "kty"%string m = Some (VString (SigningAlgorithm.key_type a)) -> verifying_key a m = Some k ->
  bget "kty"%string m' = Some (VString (SigningAlgorithm.key_type a')) -> verifying_key a' m' = Some k' ->
  thumbprint (VObject m) = Ok t -> thumbprint (VObject m') = Ok t ->
  k = k' \/ exists s s', s <> s' /\ sha256 (bytes_of s) = sha256 (bytes_of s').
Proof.
  intros Hm Hk Hm' Hk' Ht Ht'. unfold thumbprint in Ht, Ht'. apply rbind_Ok in Ht as (s & Hs & Ht), Ht' as (s' & Hs' & Ht').
  injection Ht as <-. injection Ht' as Ht'%b64_encode_inj. destruct (String.eqb_spec s s') as [->|Hne]; [left|right; eauto].
  by eapply (key_text_inj a a' m m'); eapply usable_key_text.
Qed.
End Laws.

(** ** A concrete environment

    Numbers in unary, each ended by an underscore. *)

Definition unary (z : Z) : string :=
  String.string_of_list_ascii (repeat (if z <? 0 then "B"%char else "A"%char) (Z.to_nat (Z.abs z))).
Definition number_of (s : string) : Z := if starts_with "B" s then - slen s else slen s.
Definition plain_encode (b : list Z) : string := join "_" (map unary b ++ [""%string]).
Definition plain_read (s : string) : list Z := map number_of (removelast (split_on "_"%char s)).
Definition plain_decode (s : string) : option (list Z) :=
  if String.eqb (plain_encode (plain_read s)) s then Some (plain_read s) else None.

Lemma unary_spec z : exists c n, unary z = String.string_of_list_ascii (repeat c n) /\ n = Z.to_nat (Z.abs z) /\
  c = (if z <? 0 then "B"%char else "A"%char).
Proof. by eexists _, _. Qed.

Lemma all_bytes_repeat p c n : p (Z.of_N (Ascii.N_of_ascii c)) = true ->
  all_bytes p (String.string_of_list_ascii (repeat c n)) = true.
Proof. intros Hc. induction n as [|n IH]; [done|]. change (p (Z.of_N (Ascii.N_of_ascii c)) && all_bytes p (String.string_of_list_ascii (repeat c n)) = true). by rewrite Hc. Qed.

Lemma unary_bytes p z : p 65 = true -> p 66 = true -> all_bytes p (unary z) = true.
Proof. intros. unfold unary. apply all_bytes_repeat. by destruct (z <? 0). Qed.

Lemma starts_with_letter c r : starts_with (String.String c EmptyString) (String.String c r) = true.
Proof. unfold starts_with. cbn. destruct (Ascii.ascii_dec c c); [by destruct r|done]. Qed.

Lemma number_of_unary z : number_of (unary z) = z.
Proof.
  unfold number_of, unary, slen. assert (Hl : forall c n, String.length (String.string_of_list_ascii (repeat c n)) = n).
  { intros c n. induction n as [|n IH]; cbn; [done|by rewrite IH]. }
  rewrite Hl. destruct (Z.ltb_spec z 0).
  - destruct (Z.to_nat (Z.abs z)) as [|n] eqn:Hn; [lia|].
    change (String.string_of_list_ascii _) with (String.String "B"%char (String.string_of_list_ascii (repeat "B"%char n))).
    rewrite starts_with_letter. lia.
  - destruct (Z.to_nat (Z.abs z)) as [|n] eqn:Hn; [change (Z.of_nat 0 = z)|change (Z.of_nat (S n) = z)]; lia.
Qed.

Lemma plain_pieces b : split_on "_"%char (plain_encode b) = map unary b ++ [""%string].
Proof.
  apply split_join; [by destruct b|]. apply Forall_app. split; [|by repeat constructor].
  apply Forall_map, Forall_true. intros z. by apply unary_bytes.
Qed.

Lemma plain_read_encode b : plain_read (plain_encode b) = b.
Proof.
  unfold plain_read. rewrite plain_pieces, removelast_last, map_map. rewrite <- (map_id b) at 2.
  apply map_ext, number_of_unary.
Qed.

Lemma all_bytes_append p a b : all_bytes p (a +:+ b)%string = all_bytes p a && all_bytes p b.
Proof. induction a as [|c a IH]; [done|]. change (all_bytes p (String.String c a +:+ b)%string) with (p (Z.of_N (Ascii.N_of_ascii c)) && all_bytes p (a +:+ b)%string). rewrite IH. apply andb_assoc. Qed.

Lemma plain_encode_cons z b : plain_encode (z :: b) = (unary z +:+ "_" +:+ plain_encode b)%string.
Proof.
  unfold plain_encode. cbn [map app]. destruct (map unary b ++ [""%string]) as [|x l] eqn:Hl; [by destruct b|done].
Qed.

Definition plain_env (headers : list Z -> option Header) (values : list Z -> option value) : JoseEnv := {|
  b64_encode := plain_encode; b64_decode := plain_decode; from_slice := values; header_of := headers;
  sha256 := fun l => [fold_right Z.add 0 l mod 256];
  signature_ok := fun _ key _ signature => bool_decide (signature = key);
  rsa_der := fun n e => Some (n ++ e) |}.

#[export] Instance plain_laws headers values : JoseLaws (plain_env headers values).
Proof.
  split; cbn [b64_encode b64_decode plain_env].
  - intros b. unfold plain_decode. by rewrite plain_read_encode, String.eqb_refl.
  - intros s b. unfold plain_decode. destruct (String.eqb_spec (plain_encode (plain_read s)) s) as [H|]; [|done].
    by intros [= <-].
  - intros b. induction b as [|z b IH]; [done|]. by rewrite plain_encode_cons, !all_bytes_append, IH, unary_bytes.
  - done.
Qed.

Definition sample_header (b : list Z) : option Header :=
  Some {| h_alg := "ES256"; h_typ := Some "at+jwt"%string; h_kid := Some "k"%string; h_crit := None |}.
Definition sample_claims (b : list Z) : option value :=
  Some (jobj [("exp", VNumber (PosInt 200)); ("iat", VNumber (PosInt 100)); ("iss", VString "op")]%string).
Definition sample_token : string := "A_.AA_.AAA_".
Definition sample_policy : Policy := Policy.issued_by (Policy.new (Exactly "application/AT+jwt") [Es256]) "op".
Definition sample_keys (kid : option string) : list VerifyingKey :=
  [{| vk_algorithm := EdDsa; vk_bytes := [3] |}; {| vk_algorithm := Es256; vk_bytes := [3] |}].

Lemma token_accepted_iff_witness :
  exists v, genuine (E := plain_env sample_header sample_claims) sample_token sample_policy sample_keys (seconds 150) v /\
    v_algorithm v = Es256.
Proof.
  eexists {| v_claims := _; v_kid := Some "k"%string; v_algorithm := Es256 |}. split; [|done].
  apply (token_accepted_iff (E := plain_env sample_header sample_claims)). vm_compute. reflexivity.
Defined.

Definition jwk_of (x : list Z) (kid : string) : object :=
  bmap_of_list [("crv", VString "Ed25519"); ("kid", VString kid); ("kty", VString "OKP");
                ("x", VString (plain_encode x))]%string.
Definition small_env : JoseEnv := plain_env sample_header sample_claims.

Lemma thumbprint_names_one_key_witness :
  exists s s', s <> s' /\ sha256 (JoseEnv := small_env) (bytes_of s) = sha256 (JoseEnv := small_env) (bytes_of s').
Proof.
  pose (x := 1 :: repeat 0 31). pose (y := 0 :: 1 :: repeat 0 30).
  destruct (thumbprint_names_one_key (E := small_env) EdDsa EdDsa (jwk_of x "a") (jwk_of y "b")
    {| vk_algorithm := EdDsa; vk_bytes := x |} {| vk_algorithm := EdDsa; vk_bytes := y |}
    (from_option id ""%string (match thumbprint (E := small_env) (VObject (jwk_of x "a")) with Ok t => Some t | _ => None end)))
    as [H|H]; [vm_compute; reflexivity..|discriminate H|exact H].
Defined.
