(* ===== verification/Dpop.v ===== *)
(** * Proofs of possession

    [crates/jose/src/dpop.rs], [server/src/http/dpop.rs] and the replay guard of
    [store-pg/src/replay.rs]: the canonical form of a URI, nonces, what a proof must say, and
    its single use at an endpoint.

    [url::Url], HMAC-SHA-256 and the reading of a header value as text are the parameters of
    [DpopEnv]. *)

From S2P Require Import Prelude Text Bytes BTree Json Keys Jose.
Open Scope Z_scope.

Definition PROOF_TYP : string := "dpop+jwt".
Definition MAX_PROOF_BYTES : Z := 4 * 1024.
Definition MAX_JTI_LEN : Z := 255.
Definition MAX_URI_BYTES : Z := 2 * 1024.
Definition DEFAULT_MAX_AGE : Z := seconds 300.
Definition MAX_MAX_AGE : Z := minutes 10.
Definition DEFAULT_NONCE_WINDOW : Z := minutes 5.
Definition MIN_NONCE_WINDOW : Z := minutes 1.
Definition MAX_NONCE_WINDOW : Z := minutes 10.

(** [Ord::clamp]. *)
Definition clamped (x lo hi : Z) : Z := Z.min (Z.max x lo) hi.

Class DpopEnv : Type := {
  Url : Type;
  url_parse : string -> option Url;
  url_scheme : Url -> string;
  url_username : Url -> string;
  url_password : Url -> option string;
  url_host_str : Url -> option string;
  (** As it is written. *)
  url_port : Url -> option string;
  url_path : Url -> string;
  url_query : Url -> option string;
  url_fragment : Url -> option string;
  url_string : Url -> string;
  hmac_sha256 : list Z -> list Z -> list Z;
  (** [HeaderValue::to_str]. *)
  to_str : string -> option string
}.

Inductive DpopError : Type :=
| ProofTooLarge (size limit : Z)
| ProofJose (e : JoseError)
| Verification (e : VerificationError)
| MissingKey
| PrivateKey
| UnusableKey (algorithm : SigningAlgorithm)
| MalformedClaim (claim : string)
| MethodMismatch
| UriMismatch
| TooOld (age limit : Z)
| ProofTooFarAhead (seconds_ahead limit : Z)
| NonceRequired
| NonceStale
| AccessTokenMismatch.

Module DpopError.
Definition wants_nonce (e : DpopError) : bool := match e with NonceRequired | NonceStale => true | _ => false end.
Definition code (e : DpopError) : string := if wants_nonce e then "use_dpop_nonce" else "invalid_dpop_proof".
End DpopError.

(** ** The canonical form of a path *)


Definition hex (c : Ascii.ascii) : option Z :=
  let b := byte_of c in
  if in_range 48 57 b then Some (b - 48)
  else if in_range 97 102 b then Some (b - 97 + 10)
  else if in_range 65 70 b then Some (b - 65 + 10)
  else None.
Definition upper_hex (n : Z) : Ascii.ascii := char_of (if n <? 10 then 48 + n else 55 + n).
Definition is_unreserved (b : Z) : bool := is_ascii_alphanumeric b || existsb (Z.eqb b) [45; 46; 95; 126].

(** The loop of [decode_unreserved]; what it writes is text, so its fallback is never taken. *)
Fixpoint decode_unreserved (path : string) : string :=
  match path with
  | EmptyString => EmptyString
  | String.String c r =>
      if negb (Ascii.eqb c "%"%char) then String.String c (decode_unreserved r)
      else
        match r with
        | String.String h (String.String l rest) =>
            match hex h, hex l with
            | Some high, Some low =>
                if is_unreserved (high * 16 + low)
                then String.String (char_of (high * 16 + low)) (decode_unreserved rest)
                else String.String "%" (String.String (upper_hex high) (String.String (upper_hex low) (decode_unreserved rest)))
            | _, _ => ("%25" +:+ decode_unreserved r)%string
            end
        | _ => ("%25" +:+ decode_unreserved r)%string
        end
  end.

(** A [NormalisedUri] is the text [parse] rendered. *)
Abbreviation NormalisedUri := string (only parsing).

Module NormalisedUri.
Section Env.
Context {D : DpopEnv}.
Definition authority (u : Url) (host : string) : string :=
  (url_scheme u +:+ "://" +:+ host +:+ match url_port u with Some port => ":" +:+ port | None => "" end)%string.

Definition parse (raw : string) : result NormalisedUri DpopError :=
  if MAX_URI_BYTES <? slen raw then Err UriMismatch
  else
    let? parsed := ok_or (url_parse raw) UriMismatch in
    if negb (in_strings (url_scheme parsed) ["http"; "https"]%string) then Err UriMismatch
    else if negb (is_empty (url_username parsed)) || bool_decide (is_Some (url_password parsed)) then Err UriMismatch
    else
      let? host := ok_or (url_host_str parsed) UriMismatch in
      let decoded := decode_unreserved (url_path parsed) in
      let? reparsed := ok_or (url_parse (authority parsed host +:+
        (if starts_with "/" decoded then decoded else "/" +:+ decoded)))%string UriMismatch in
      let rendered := url_string reparsed in
      if MAX_URI_BYTES <? slen rendered then Err UriMismatch else Ok rendered.
End Env.
End NormalisedUri.

(** ** Nonces *)

Record NonceIssuer : Type := { ni_key : list Z; ni_window : Z }.

Module NonceIssuer.
Section Env.
Context {E : JoseEnv} {D : DpopEnv}.
Definition DOMAIN : list Z := bytes_of "asterius/dpop-nonce/v1".
Definition from_secret (secret : list Z) : NonceIssuer := {| ni_key := secret; ni_window := DEFAULT_NONCE_WINDOW |}.
Definition with_window (i : NonceIssuer) (window : Z) : NonceIssuer :=
  {| ni_key := ni_key i; ni_window := clamped window MIN_NONCE_WINDOW MAX_NONCE_WINDOW |}.

Definition window_index (i : NonceIssuer) (now : Z) : Z :=
  unix_timestamp now / Z.max (whole_seconds (ni_window i)) 1.
Definition message (audience : string) (index : Z) : list Z :=
  DOMAIN ++ [0] ++ bytes_of audience ++ [0] ++ be_bytes 8 index.
Definition derive (i : NonceIssuer) (audience : string) (index : Z) : string :=
  b64_encode (take 16 (hmac_sha256 (ni_key i) (message audience index))).
Definition issue (i : NonceIssuer) (audience : string) (now : Z) : string := derive i audience (window_index i now).
Definition accepts (i : NonceIssuer) (presented audience : string) (now : Z) : bool :=
  let index := window_index i now in
  let current := derive i audience index in
  let previous := derive i audience (Z.max (index - 1) (- 2 ^ 63)) in
  ct_eq (bytes_of presented) (bytes_of current) || ct_eq (bytes_of presented) (bytes_of previous).
End Env.
End NonceIssuer.

Inductive NonceRule : Type := NotRequired | NonceRequiredOf (issuer : NonceIssuer) (audience : string).

(** ** Checking a proof *)

Record Expectation : Type := {
  x_method : string;
  x_uri : NormalisedUri;
  x_nonce : NonceRule;
  x_access_token : option string;
  x_max_age : Z;
  x_future_skew : Z
}.

Module Expectation.
Definition new (method : string) (uri : NormalisedUri) : Expectation := {|
  x_method := method; x_uri := uri; x_nonce := NotRequired; x_access_token := None;
  x_max_age := DEFAULT_MAX_AGE; x_future_skew := DEFAULT_FUTURE_SKEW |}.
Definition requiring_nonce (x : Expectation) (issuer : NonceIssuer) (audience : string) : Expectation := {|
  x_method := x_method x; x_uri := x_uri x; x_nonce := NonceRequiredOf issuer audience;
  x_access_token := x_access_token x; x_max_age := x_max_age x; x_future_skew := x_future_skew x |}.
Definition with_access_token (x : Expectation) (token : string) : Expectation := {|
  x_method := x_method x; x_uri := x_uri x; x_nonce := x_nonce x;
  x_access_token := Some token; x_max_age := x_max_age x; x_future_skew := x_future_skew x |}.
Definition with_max_age (x : Expectation) (max_age : Z) : Expectation := {|
  x_method := x_method x; x_uri := x_uri x; x_nonce := x_nonce x; x_access_token := x_access_token x;
  x_max_age := clamped max_age 0 MAX_MAX_AGE; x_future_skew := x_future_skew x |}.
End Expectation.

Record Proof_ : Type := {
  pf_jkt : string;
  pf_public_jwk : value;
  pf_code_hash : option string;
  pf_jti : string;
  pf_issued_at : Z;
  pf_replay_expires_at : Z;
  pf_algorithm : SigningAlgorithm
}.

(** [OffsetDateTime::from_unix_timestamp]: the years it can hold. *)
Definition from_unix_timestamp (s : Z) : option Z :=
  if in_range (-377705116800) 253402300799 s then Some (seconds s) else None.

Section Check.
Context {E : JoseEnv} {D : DpopEnv}.

Definition header_jwk (raw_header : list Z) : result object DpopError :=
  let? header := ok_or (from_slice raw_header) MissingKey in
  ok_or (vget "jwk" header ≫= as_object) MissingKey.

Definition public_key (raw_header : list Z) (algorithm : SigningAlgorithm) : result VerifyingKey DpopError :=
  let? jwk := header_jwk raw_header in
  if has_private_members jwk then Err PrivateKey
  else if negb (bool_decide (bget "kty"%string jwk ≫= as_str = Some (SigningAlgorithm.key_type algorithm)))
  then Err (UnusableKey algorithm)
  else if is_some_and (fun declared => negb (bool_decide (as_str declared = Some (SigningAlgorithm.as_str algorithm))))
            (bget "alg"%string jwk)
  then Err (UnusableKey algorithm)
  else ok_or (verifying_key algorithm jwk) (UnusableKey algorithm).

Definition thumbprint_of (raw_header : list Z) (algorithm : SigningAlgorithm) : result string DpopError :=
  let? jwk := header_jwk raw_header in
  map_err (fun _ => UnusableKey algorithm) (thumbprint (VObject jwk)).

Definition minimal_public_jwk (raw_header : list Z) (algorithm : SigningAlgorithm) : result value DpopError :=
  let? jwk := header_jwk raw_header in
  let members := match algorithm with
    | EdDsa => ["kty"; "crv"; "x"] | Es256 => ["kty"; "crv"; "x"; "y"] | Ps256 => ["kty"; "e"; "n"] end%string in
  let? fields := try_mapi (fun _ name => let? v := ok_or (bget name jwk) (UnusableKey algorithm) in Ok (name, v)) 0 members in
  Ok (jobj fields).

Definition check_nonce (rule : NonceRule) (claims : value) (now : Z) : result unit DpopError :=
  match rule with
  | NotRequired => Ok tt
  | NonceRequiredOf issuer audience =>
      let? nonce := ok_or (vget "nonce" claims ≫= as_str) NonceRequired in
      if NonceIssuer.accepts issuer nonce audience now then Ok tt else Err NonceStale
  end.

Definition check_access_token (bound_to : option string) (claims : value) : result unit DpopError :=
  match bound_to with
  | None => Ok tt
  | Some access_token =>
      let? ath := ok_or (vget "ath" claims ≫= as_str) (MalformedClaim "ath") in
      if ct_eq (bytes_of ath) (bytes_of (b64_encode (sha256 (bytes_of access_token)))) then Ok tt
      else Err AccessTokenMismatch
  end.

Definition proof_policy (algorithm : SigningAlgorithm) (skew : Z) : Policy :=
  Policy.with_future_skew (Policy.without_expiry
    (Policy.with_max_bytes (Policy.new (Exactly PROOF_TYP) [algorithm]) MAX_PROOF_BYTES)) skew.

Definition check (proof : string) (x : Expectation) (now : Z) : result Proof_ DpopError :=
  if MAX_PROOF_BYTES <? slen proof then Err (ProofTooLarge (slen proof) MAX_PROOF_BYTES)
  else
    let? u := map_err ProofJose (Jws.parse proof) in
    if negb (TypRule.accepts (Exactly PROOF_TYP) (Jws.claimed_typ u))
    then Err (Verification (UnexpectedType PROOF_TYP (Jws.claimed_typ u)))
    else
      let? algorithm := ok_or (SigningAlgorithm.parse (Jws.claimed_alg u))
                          (Verification (AlgorithmNotAllowed (Jws.claimed_alg u))) in
      let? key := public_key (u_header_bytes u) algorithm in
      let? verified := map_err Verification
        (verify proof (proof_policy algorithm (x_future_skew x)) (fun _ => [key]) now) in
      let claims := v_claims verified in
      let? htm := ok_or (vget "htm" claims ≫= as_str) (MalformedClaim "htm") in
      if negb (String.eqb htm (x_method x)) then Err MethodMismatch
      else
        let? htu := ok_or (vget "htu" claims ≫= as_str) (MalformedClaim "htu") in
        let? uri := NormalisedUri.parse htu in
        if negb (String.eqb uri (x_uri x)) then Err UriMismatch
        else
          let? jti := ok_or (jti ← vget "jti" claims ≫= as_str;
                             if negb (is_empty jti) && (slen jti <=? MAX_JTI_LEN) then Some jti else None)
                        (MalformedClaim "jti") in
          let? issued_at := ok_or (numeric_claim claims "iat" ≫= from_unix_timestamp) (MalformedClaim "iat") in
          let max_age := clamped (x_max_age x) 0 MAX_MAX_AGE in
          let skew := clamped (x_future_skew x) 0 MAX_FUTURE_SKEW in
          if max_age <? now - issued_at
          then Err (TooOld (whole_seconds (now - issued_at)) (whole_seconds max_age))
          else if skew <? issued_at - now
          then Err (ProofTooFarAhead (whole_seconds (issued_at - now)) (whole_seconds skew))
          else
            let? _ := check_nonce (x_nonce x) claims now in
            let? _ := check_access_token (x_access_token x) claims in
            let? public_jwk := minimal_public_jwk (u_header_bytes u) algorithm in
            let? jkt := thumbprint_of (u_header_bytes u) algorithm in
            Ok {| pf_jkt := jkt; pf_public_jwk := public_jwk; pf_code_hash := vget "c_s256" claims ≫= as_str;
                  pf_jti := jti; pf_issued_at := issued_at; pf_replay_expires_at := issued_at + max_age;
                  pf_algorithm := algorithm |}.

Definition reconcile_pinned_key (from_header from_parameter : option string) : result (option string) DpopError :=
  match from_header, from_parameter with
  | None, None => Ok None
  | Some header, None => Ok (Some header)
  | None, Some parameter => Ok (Some parameter)
  | Some header, Some parameter =>
      if ct_eq (bytes_of header) (bytes_of parameter) then Ok (Some parameter) else Err (MalformedClaim "dpop_jkt")
  end.
End Check.

(** ** Single use: [PgReplayGuard] *)

Inductive ReplayPurpose : Type := ClientAssertion | DpopProof | AdminIdempotency | HttpSignature.
#[export] Instance replay_purpose_eq_dec : EqDecision ReplayPurpose.
Proof. solve_decision. Defined.
Module ReplayPurpose.
Definition as_str (p : ReplayPurpose) : string :=
  match p with
  | ClientAssertion => "client_assertion" | DpopProof => "dpop_proof"
  | AdminIdempotency => "admin_idempotency" | HttpSignature => "http_signature"
  end.
End ReplayPurpose.

Inductive ReplayCheck : Type := FirstUse | Replay.

(** The primary key of [jti_replay], and when a row may go. *)
Abbreviation ReplayKey := (string * string * string * list Z)%type (only parsing).
Abbreviation ReplayRows := (gmap (string * string * string * list Z) Z) (only parsing).

Definition purged (rows : ReplayRows) (tenant : string) (chosen : list (string * string * string * list Z)) (now : Z)
    : ReplayRows :=
  filter (fun '(key, expires_at) => ~ (fst (fst (fst key)) = tenant /\ key ∈ chosen /\ expires_at <= now)) rows.

Module PgReplayGuard.
Section Env.
Context {E : JoseEnv}.
Definition key (tenant : string) (purpose : ReplayPurpose) (subject jti : string) : ReplayKey :=
  (tenant, ReplayPurpose.as_str purpose, subject, sha256 (bytes_of jti)).

(** [insert .. on conflict do nothing]. *)
Definition claim (rows : ReplayRows) (tenant : string) (purpose : ReplayPurpose) (subject jti : string) (expires_at : Z)
    : ReplayRows * ReplayCheck :=
  match rows !! key tenant purpose subject jti with
  | Some _ => (rows, Replay)
  | None => (<[key tenant purpose subject jti := expires_at]> rows, FirstUse)
  end.

(** Every expired row of a tenant. *)
Definition purge_expired (rows : ReplayRows) (tenant : string) (now : Z) : ReplayRows :=
  filter (fun '(key, expires_at) => ~ (fst (fst (fst key)) = tenant /\ expires_at <= now)) rows.
End Env.
End PgReplayGuard.

(** ** At an endpoint: [server/src/http/dpop.rs] *)

Inductive Base : Type := Registry (path : string) | Mounted (path : string).
Record ProofTarget : Type := { pt_base : Base; pt_segment : option string }.

Module ProofTarget.
Definition at_ (endpoint_path : string) : ProofTarget := {| pt_base := Registry endpoint_path; pt_segment := None |}.
Definition under (endpoint_path segment : string) : ProofTarget :=
  {| pt_base := Registry endpoint_path; pt_segment := Some segment |}.
Definition at_path (path : string) : ProofTarget := {| pt_base := Mounted path; pt_segment := None |}.
Definition under_path (path segment : string) : ProofTarget :=
  {| pt_base := Mounted path; pt_segment := Some segment |}.
Definition url (t : ProofTarget) (issuer : string) : string :=
  let base := match pt_base t with Registry path | Mounted path => issuer +:+ path end in
  match pt_segment t with None => base | Some segment => base +:+ "/" +:+ segment end.
End ProofTarget.

Record Binding : Type := {
  bd_jkt : string;
  bd_public_jwk : value;
  bd_code_hash : option string;
  bd_next_nonce : option string
}.

Record Refusal : Type := {
  rf_code : string;
  rf_description : string;
  rf_status : Z;
  rf_nonce : option string;
  rf_detail : option DpopError
}.

Definition INVALID_PROOF : string := "invalid_dpop_proof".

Module Refusal.
Definition refusal (description : string) : Refusal :=
  {| rf_code := INVALID_PROOF; rf_description := description; rf_status := 400; rf_nonce := None; rf_detail := None |}.
Definition missing_proof : Refusal := refusal "this client must present a DPoP proof".
Definition multiple_headers : Refusal := refusal "more than one DPoP header was presented".
Definition unavailable : Refusal := {|
  rf_code := "temporarily_unavailable"; rf_description := "the request could not be processed"; rf_status := 503;
  rf_nonce := None; rf_detail := None |}.
Definition from_error (e : DpopError) (nonce : option string) : Refusal := {|
  rf_code := DpopError.code e;
  rf_description := if DpopError.wants_nonce e then "a DPoP nonce is required; retry with the one supplied"
                    else "the DPoP proof did not check out";
  rf_status := 400;
  rf_nonce := if DpopError.wants_nonce e then nonce else None;
  rf_detail := Some e |}.
End Refusal.

Record Tenant_ : Type := { tn_id : string; tn_issuer : string }.
Record DpopEndpoint : Type := { de_nonces : option NonceIssuer; de_max_age : Z }.

(** What becomes of a statement: it answers, it fails without effect, or its answer is lost. *)
Inductive Outcome : Type := Answered | Failed | AnswerLost.

Section Endpoint.
Context {E : JoseEnv} {D : DpopEnv}.

Definition single_header (headers : list string) : result (option string) Refusal :=
  match headers with
  | [] => Ok None
  | [first] => let? raw := ok_or (to_str first) (Refusal.from_error MissingKey None) in Ok (Some raw)
  | _ => Err Refusal.multiple_headers
  end.

Definition fresh_nonce (e : DpopEndpoint) (audience : string) (now : Z) : option string :=
  (fun issuer => NonceIssuer.issue issuer audience now) <$> de_nonces e.

Definition expectation_of (e : DpopEndpoint) (tenant : Tenant_) (method : string) (uri : NormalisedUri)
    (bound_to : option string) : Expectation :=
  let x := Expectation.with_max_age (Expectation.new method uri) (de_max_age e) in
  let x := match de_nonces e with
           | Some nonces => Expectation.requiring_nonce x nonces (tn_issuer tenant)
           | None => x
           end in
  match bound_to with Some token => Expectation.with_access_token x token | None => x end.

(** [check_for], up to the claim of the [jti]. *)
Definition proof_for (e : DpopEndpoint) (tenant : Tenant_) (target : ProofTarget) (method : string)
    (headers : list string) (bound_to : option string) (now : Z) : result (option Proof_) Refusal :=
  let? raw := single_header headers in
  match raw with
  | None => Ok None
  | Some raw =>
      let? uri := map_err (fun _ => Refusal.unavailable) (NormalisedUri.parse (ProofTarget.url target (tn_issuer tenant))) in
      let? proof := map_err (fun err => Refusal.from_error err (fresh_nonce e (tn_issuer tenant) now))
                      (check raw (expectation_of e tenant method uri bound_to) now) in
      Ok (Some proof)
  end.

Definition check_for (rows : ReplayRows) (e : DpopEndpoint) (tenant : Tenant_) (target : ProofTarget) (method : string)
    (headers : list string) (bound_to : option string) (now : Z) (outcome : Outcome)
    : ReplayRows * result (option Binding) Refusal :=
  match proof_for e tenant target method headers bound_to now with
  | Err refusal => (rows, Err refusal)
  | Ok None => (rows, Ok None)
  | Ok (Some proof) =>
      let '(claimed, answer) := PgReplayGuard.claim rows (tn_id tenant) DpopProof (pf_jkt proof) (pf_jti proof)
                                  (pf_replay_expires_at proof) in
      match outcome with
      | Failed => (rows, Err Refusal.unavailable)
      | AnswerLost => (claimed, Err Refusal.unavailable)
      | Answered =>
          (claimed, match answer with
                    | FirstUse => Ok (Some {| bd_jkt := pf_jkt proof; bd_public_jwk := pf_public_jwk proof;
                                              bd_code_hash := pf_code_hash proof;
                                              bd_next_nonce := fresh_nonce e (tn_issuer tenant) now |})
                    | Replay => Err (Refusal.refusal "this DPoP proof has already been used")
                    end)
      end
  end.
End Endpoint.
