(* ===== verification/DpopLaws.v ===== *)
(** * What a proof of possession is worth

    Laws of [Dpop]: the canonical form of a path, the life of a nonce, what an accepted proof
    says, and that it is accepted once. *)

From S2P Require Import Prelude Text Bytes BTree Json Keys Jose JoseLaws Dpop.
Open Scope Z_scope.

(** ** The canonical form of a path

    A path is a sequence of characters and of octets that must stay encoded; its spellings
    differ in which unreserved characters are encoded, in the case of the digits, and in a
    bare percent sign. *)

Inductive PathUnit : Type := Plain (c : Ascii.ascii) | Octet (b : Z).

Fixpoint units (path : string) : list PathUnit :=
  match path with
  | EmptyString => []
  | String.String c r =>
      if negb (Ascii.eqb c "%"%char) then Plain c :: units r
      else
        match r with
        | String.String h (String.String l rest) =>
            match hex h, hex l with
            | Some high, Some low =>
                (if is_unreserved (high * 16 + low) then Plain (char_of (high * 16 + low)) else Octet (high * 16 + low))
                :: units rest
            | _, _ => Octet 37 :: units r
            end
        | _ => Octet 37 :: units r
        end
  end.

Definition written (u : PathUnit) : string :=
  match u with
  | Plain c => String.String c ""
  | Octet b => String.String "%" (String.String (upper_hex (b / 16)) (String.String (upper_hex (b mod 16)) ""))
  end.
Definition unit_ok (u : PathUnit) : Prop :=
  match u with Plain c => c <> "%"%char | Octet b => 0 <= b < 256 /\ is_unreserved b = false end.

Lemma byte_of_char_of b : 0 <= b < 256 -> byte_of (char_of b) = b.
Proof. intros Hb. unfold byte_of, char_of. rewrite Ascii.N_ascii_embedding by lia. lia. Qed.

Lemma hex_range c n : hex c = Some n -> 0 <= n < 16.
Proof. unfold hex, in_range. repeat case_match; intros; simplify_eq; bool_hyps; lia. Qed.

Lemma hex_upper n : 0 <= n < 16 -> hex (upper_hex n) = Some n.
Proof.
  intros Hn. unfold hex, upper_hex. rewrite byte_of_char_of by (destruct (n <? 10) eqn:?; lia).
  unfold in_range. destruct (Z.ltb_spec n 10).
  - rewrite (proj2 (Z.leb_le 48 (48 + n))), (proj2 (Z.leb_le (48 + n) 57)) by lia. cbn [andb]. f_equal. lia.
  - rewrite (proj2 (Z.leb_gt (55 + n) 57)), (proj2 (Z.leb_gt 97 (55 + n))), (proj2 (Z.leb_le 65 (55 + n))),
      (proj2 (Z.leb_le (55 + n) 70)) by lia. rewrite !andb_false_r. cbn [andb]. f_equal. lia.
Qed.

Lemma unreserved_char b : 0 <= b < 256 -> is_unreserved b = true -> char_of b <> "%"%char.
Proof. intros Hb Hu He. assert (b = 37) as -> by (rewrite <- (byte_of_char_of b Hb), He; done). done. Qed.

(** Induction on the length of a text. *)
Lemma string_length_ind (P : string -> Prop) :
  (forall s, (forall t, (String.length t < String.length s)%nat -> P t) -> P s) -> forall s, P s.
Proof. intros H. apply (well_founded_ind (well_founded_ltof _ String.length)), H. Qed.

Lemma units_ok path : Forall unit_ok (units path).
Proof.
  induction path as [path IH] using string_length_ind. destruct path as [|c r]; [constructor|].
  cbn [units]. destruct (Ascii.eqb_spec c "%"%char) as [->|Hc]; cbn [negb]; [|constructor; [done|apply IH; cbn; lia]].
  destruct r as [|h [|l rest]]; try (constructor; [done|apply IH; cbn; lia]).
  destruct (hex h) as [high|] eqn:Hh, (hex l) as [low|] eqn:Hl; try (constructor; [done|apply IH; cbn; lia]).
  apply hex_range in Hh, Hl. constructor; [|apply IH; cbn; lia].
  destruct (is_unreserved (high * 16 + low)) eqn:Hu; [apply unreserved_char; [lia|done]|]. split; [lia|done].
Qed.

Lemma decode_writes path : decode_unreserved path = join "" (map written (units path)).
Proof.
  assert (Hj : forall u us, join "" (map written (u :: us)) = (written u +:+ join "" (map written us))%string).
  { intros u [|v us]; [|done]. cbn [map join]. destruct u; done. }
  induction path as [path IH] using string_length_ind. destruct path as [|c r]; [done|].
  cbn [decode_unreserved units]. destruct (Ascii.eqb_spec c "%"%char) as [->|Hc]; cbn [negb];
    [|rewrite Hj, <- IH by (cbn; lia); done].
  destruct r as [|h [|l rest]]; try (rewrite Hj, <- IH by (cbn; lia); done).
  destruct (hex h) as [high|] eqn:Hh, (hex l) as [low|] eqn:Hl; try (rewrite Hj, <- IH by (cbn; lia); done).
  apply hex_range in Hh, Hl. rewrite Hj, <- IH by (cbn; lia). destruct (is_unreserved _); cbn [written]; [done|].
  rewrite Z.div_add_l, Z.div_small, Z.add_0_r, (Z.add_comm (high * 16)), Z.mod_add, Z.mod_small by lia. done.
Qed.

Lemma units_written us : Forall unit_ok us -> units (join "" (map written us)) = us.
Proof.
  assert (Hj : forall u us, join "" (map written (u :: us)) = (written u +:+ join "" (map written us))%string).
  { intros u [|v vs]; [|done]. cbn [map join]. destruct u; done. }
  induction 1 as [|u us Hu Hus IH]; [done|]. rewrite Hj. destruct u as [c|b]; cbn [written];
    change (String.String ?x ?l +:+ ?r)%string with (String.String x (l +:+ r)%string); change ("" +:+ ?r)%string with r.
  - cbn [units]. cbn in Hu. apply Ascii.eqb_neq in Hu as ->. cbn [negb]. by rewrite IH.
  - change (String.String ?x ?l +:+ ?r)%string with (String.String x (l +:+ r)%string).
    change (String.String ?x "" +:+ ?r)%string with (String.String x r).
    destruct Hu as [Hb Hr]. cbn [units Ascii.eqb Bool.eqb negb].
    rewrite !hex_upper by (split; [apply Z.div_pos; lia|apply Z.div_lt_upper_bound; lia] || apply Z.mod_pos_bound; lia).
    rewrite (Z.mul_comm (b / 16) 16), <- Z.div_mod, Hr by lia. by rewrite IH.
Qed.

Lemma units_decode path : units (decode_unreserved path) = units path.
Proof. rewrite decode_writes. apply units_written, units_ok. Qed.

(** Two spellings of a path have one canonical form exactly when they are the same
    characters and the same encoded octets, whichever unreserved characters were encoded,
    with digits of either case; and the canonical form is its own. *)
Theorem same_path_iff path path' :
  (decode_unreserved path = decode_unreserved path' <-> units path = units path') /\
  decode_unreserved (decode_unreserved path) = decode_unreserved path.
Proof.
  split; [split; intros H|].
  - by rewrite <- (units_decode path), H, units_decode.
  - by rewrite !decode_writes, H.
  - by rewrite (decode_writes (decode_unreserved path)), units_decode, <- decode_writes.
Qed.

(** ** Nonces *)

Section Laws.
Context {E : JoseEnv} {L : JoseLaws E} {D : DpopEnv}.

Lemma message_inj a a' i i' : - 2 ^ 63 <= i < 2 ^ 63 -> - 2 ^ 63 <= i' < 2 ^ 63 ->
  NonceIssuer.message a i = NonceIssuer.message a' i' -> a = a' /\ i = i'.
Proof.
  unfold NonceIssuer.message. intros Hi Hi' [_ [_ H]%app_inj_1]%app_inj_1; [|done..]. rewrite !app_assoc in H.
  apply app_inj_2 in H as [Ha Hb]; [|by rewrite !be_bytes_length]. apply (be_bytes_signed 8) in Hb; [|cbn; lia..].
  apply app_inj_2 in Ha as [Ha%bytes_of_inj _]; done.
Qed.

(** The years of an instant. *)
Definition in_years (t : Z) : Prop := - 377705116800 <= unix_timestamp t <= 253402300799.

Lemma window_index_range i t : in_years t -> - 2 ^ 62 <= NonceIssuer.window_index i t < 2 ^ 62.
Proof.
  unfold in_years, NonceIssuer.window_index. intros Ht. pose proof (Z.le_max_r (whole_seconds (ni_window i)) 1).
  set (w := Z.max _ 1) in *. split; [apply Z.div_le_lower_bound; nia|apply Z.div_lt_upper_bound; nia].
Qed.

(** Two messages with the same nonce. *)
Definition tag_collision (key : list Z) : Prop :=
  exists m m', m <> m' /\ take 16 (hmac_sha256 key m) = take 16 (hmac_sha256 key m').

(** C39: How long a nonce is good for. One issued for an audience is accepted for it during
    one whole window; and one that is accepted is that of the running window or of the one
    before, for that audience, so issued less than two windows ago, or two messages with the
    same tag have been found. *)
Theorem nonce_lifetime i audience audience' t t' :
  let window := Z.max (whole_seconds (ni_window i)) 1 in
  in_years t -> in_years t' ->
  (t <= t' -> unix_timestamp t' < unix_timestamp t + window ->
     NonceIssuer.accepts i (NonceIssuer.issue i audience t) audience t' = true) /\
  (NonceIssuer.accepts i (NonceIssuer.issue i audience t) audience' t' = true ->
     audience = audience' /\
       NonceIssuer.window_index i t' - 1 <= NonceIssuer.window_index i t <= NonceIssuer.window_index i t' /\
       unix_timestamp t' < unix_timestamp t + 2 * window \/
     tag_collision (ni_key i)).
Proof.
  cbn zeta. intros Ht Ht'. pose proof (window_index_range i t Ht) as Hi. pose proof (window_index_range i t' Ht') as Hi'.
  unfold NonceIssuer.accepts, NonceIssuer.issue. cbn zeta. rewrite (Z.max_l _ (- 2 ^ 63)) by lia. split.
  - intros Hle Hlt. assert (Hu : unix_timestamp t <= unix_timestamp t') by (apply Z.div_le_mono; [done|lia]).
    assert (H : NonceIssuer.window_index i t' = NonceIssuer.window_index i t \/
                NonceIssuer.window_index i t' - 1 = NonceIssuer.window_index i t).
    { unfold NonceIssuer.window_index in *. set (w := Z.max _ 1) in *. assert (Hw : 0 < w) by lia.
      assert (unix_timestamp t / w <= unix_timestamp t' / w) by (apply Z.div_le_mono; lia).
      assert (unix_timestamp t' / w <= (unix_timestamp t + 1 * w) / w) by (apply Z.div_le_mono; lia).
      rewrite Z.div_add in * by lia. lia. }
    apply orb_true_iff. destruct H as [-> | ->]; [left|right]; by apply ct_eq_strings.
  - intros Ha. assert (H : exists j, (j = NonceIssuer.window_index i t' \/ j = NonceIssuer.window_index i t' - 1) /\
      NonceIssuer.derive i audience (NonceIssuer.window_index i t) = NonceIssuer.derive i audience' j).
    { apply orb_true_iff in Ha as [Ha%ct_eq_strings|Ha%ct_eq_strings]; eauto. }
    destruct H as (j & Hj & H). unfold NonceIssuer.derive in H. apply b64_encode_inj in H.
    destruct (decide (NonceIssuer.message audience (NonceIssuer.window_index i t) = NonceIssuer.message audience' j)) as [Hm|Hm];
      [|right; by eexists _, _].
    left. apply message_inj in Hm as [-> Hm]; [|lia..]. split; [done|]. split; [lia|].
    unfold NonceIssuer.window_index in *. set (w := Z.max _ 1) in *. assert (0 < w) by lia.
    pose proof (Z.div_mod (unix_timestamp t) w ltac:(lia)). pose proof (Z.mod_pos_bound (unix_timestamp t) w ltac:(lia)).
    pose proof (Z.div_mod (unix_timestamp t') w ltac:(lia)). pose proof (Z.mod_pos_bound (unix_timestamp t') w ltac:(lia)). nia.
Qed.

(** ** What a proof says *)

(** A proof accepted at [now] against [x]: signed with the key in its header, whose
    thumbprint is the one returned, for this method, this URI, this token and now. *)
Record proves (proof : string) (x : Expectation) (now : Z) (p : Proof_) : Prop := {
  pr_key : exists u jwk key,
    Jws.parse proof = Ok u /\ header_jwk (u_header_bytes u) = Ok jwk /\ has_private_members jwk = false /\
    bget "kty"%string jwk = Some (VString (SigningAlgorithm.key_type (pf_algorithm p))) /\
    verifying_key (pf_algorithm p) jwk = Some key /\ thumbprint (VObject jwk) = Ok (pf_jkt p) /\
    exists v, genuine proof (proof_policy (pf_algorithm p) (x_future_skew x)) (fun _ => [key]) now v /\
      from_slice (u_payload u) = Some (v_claims v) /\
      vget "htm" (v_claims v) = Some (VString (x_method x)) /\
      (exists htu, vget "htu" (v_claims v) = Some (VString htu) /\ NormalisedUri.parse htu = Ok (x_uri x)) /\
      vget "jti" (v_claims v) = Some (VString (pf_jti p)) /\ 0 < slen (pf_jti p) <= MAX_JTI_LEN /\
      numeric_claim (v_claims v) "iat" ≫= from_unix_timestamp = Some (pf_issued_at p) /\
      (forall issuer audience, x_nonce x = NonceRequiredOf issuer audience ->
         exists nonce, vget "nonce" (v_claims v) = Some (VString nonce) /\ NonceIssuer.accepts issuer nonce audience now = true) /\
      (forall token, x_access_token x = Some token ->
         vget "ath" (v_claims v) = Some (VString (b64_encode (sha256 (bytes_of token)))));
  pr_window : now - clamped (x_max_age x) 0 MAX_MAX_AGE <= pf_issued_at p <= now + MAX_FUTURE_SKEW;
  pr_expiry : pf_replay_expires_at p = pf_issued_at p + clamped (x_max_age x) 0 MAX_MAX_AGE
}.

Lemma str_member name claims s : vget name claims ≫= as_str = Some s <-> vget name claims = Some (VString s).
Proof.
  split; [|by intros ->]. intros (v & -> & Hv)%bind_Some. by destruct v; simplify_eq/=.
Qed.

Lemma genuine_payload proof policy resolver now v u : Jws.parse proof = Ok u ->
  genuine proof policy resolver now v -> from_slice (u_payload u) = Some (v_claims v).
Proof.
  intros Hu [_ (h & p & s & u' & key & -> & Hm & _ & _ & _ & _ & _ & _ & Hc) _ _ _].
  assert (Hu' : Jws.parse (h +:+ "." +:+ p +:+ "." +:+ s) = Ok u') by (apply jws_parse_iff; by exists h, p, s).
  rewrite Hu in Hu'. by injection Hu' as ->.
Qed.

Lemma public_key_Ok raw a key : public_key raw a = Ok key ->
  exists jwk, header_jwk raw = Ok jwk /\ has_private_members jwk = false /\
    bget "kty"%string jwk = Some (VString (SigningAlgorithm.key_type a)) /\ verifying_key a jwk = Some key.
Proof.
  unfold public_key. intros H. apply rbind_Ok in H as (jwk & Hj & H). passed H Hp. passed H Hk. passed H Ha.
  apply ok_or_Ok in H. apply negb_false_iff, bool_decide_eq_true in Hk. exists jwk. repeat (split; [done|]). split; [|done].
  apply bind_Some in Hk as (v & -> & Hv). by destruct v; simplify_eq/=.
Qed.

Lemma check_nonce_iff rule claims now : check_nonce rule claims now = Ok tt <->
  forall issuer audience, rule = NonceRequiredOf issuer audience ->
    exists nonce, vget "nonce" claims = Some (VString nonce) /\ NonceIssuer.accepts issuer nonce audience now = true.
Proof.
  destruct rule as [|issuer audience]; [done|]. cbn [check_nonce]. split.
  - intros H i a [= <- <-]. apply rbind_Ok in H as (nonce & Hn & H). apply ok_or_Ok in Hn.
    exists nonce. split; [by apply str_member|]. by destruct (NonceIssuer.accepts _ _ _ _).
  - intros H. destruct (H issuer audience eq_refl) as (nonce & Hn & Ha). rewrite Hn. cbn. by rewrite Ha.
Qed.

Lemma check_access_token_iff bound claims : check_access_token bound claims = Ok tt <->
  forall token, bound = Some token -> vget "ath" claims = Some (VString (b64_encode (sha256 (bytes_of token)))).
Proof.
  destruct bound as [token|]; [|done]. cbn [check_access_token]. split.
  - intros H t [= <-]. apply rbind_Ok in H as (ath & Ha & H). apply ok_or_Ok in Ha. apply str_member in Ha as ->.
    destruct (ct_eq _ _) eqn:Hc; [|done]. by apply ct_eq_strings in Hc as ->.
  - intros H. rewrite (H token eq_refl). cbn. by rewrite (proj2 (ct_eq_strings _ _) eq_refl).
Qed.

Lemma clamped_range x lo hi : lo <= hi -> lo <= clamped x lo hi <= hi.
Proof. unfold clamped. lia. Qed.

Lemma check_proves proof x now p : check proof x now = Ok p -> proves proof x now p.
Proof.
  unfold check. intros H. passed H Hsize. apply rbind_Ok in H as (u & Hu & H). apply map_err_Ok in Hu.
  passed H Htyp. apply rbind_Ok in H as (a & Ha & H). apply ok_or_Ok in Ha.
  apply rbind_Ok in H as (key & Hkey & H). destruct (public_key_Ok _ _ _ Hkey) as (jwk & Hj & Hpriv & Hkty & Hk).
  apply rbind_Ok in H as (v & Hv & H). apply map_err_Ok, verify_iff in Hv. cbn zeta in H.
  apply rbind_Ok in H as (htm & Hm & H). apply ok_or_Ok, str_member in Hm. passed H Hmethod.
  apply rbind_Ok in H as (htu & Hh & H). apply ok_or_Ok, str_member in Hh.
  apply rbind_Ok in H as (uri & Hn & H). passed H Huri.
  apply rbind_Ok in H as (jti & Hjti & H). apply ok_or_Ok in Hjti. apply bind_Some in Hjti as (j & Hjs & Hjl).
  apply str_member in Hjs. destruct (negb (is_empty j) && _) eqn:Hjb; [|done]. injection Hjl as <-.
  apply rbind_Ok in H as (iat & Hiat & H). apply ok_or_Ok in Hiat. passed H Hage. passed H Hahead.
  apply rbind_Ok in H as ([] & Hnonce & H). apply rbind_Ok in H as ([] & Hath & H).
  apply rbind_Ok in H as (pub & _ & H). apply rbind_Ok in H as (jkt & Ht & H). injection H as <-.
  apply negb_false_iff, String.eqb_eq in Hmethod, Huri. subst htm uri.
  apply andb_true_iff in Hjb as [Hj0%negb_true_iff%is_empty_false Hj1%Z.leb_le].
  split; cbn [pf_algorithm pf_jkt pf_jti pf_issued_at pf_replay_expires_at].
  - exists u, jwk, key. repeat (split; [done|]). split.
    { unfold thumbprint_of in Ht. rewrite Hj in Ht. cbn [rbind] in Ht. by apply map_err_Ok in Ht. }
    exists v. split; [done|]. split; [by eapply genuine_payload|]. split; [done|]. split; [by exists htu|].
    split; [done|]. split; [unfold slen in *; destruct j; [done|cbn [String.length] in *; lia]|]. split; [done|].
    split; [by apply check_nonce_iff|by apply check_access_token_iff].
  - apply Z.ltb_ge in Hage, Hahead. pose proof (clamped_range (x_future_skew x) 0 MAX_FUTURE_SKEW ltac:(done)). lia.
  - done.
Qed.

Lemma verifying_key_algorithm a m key : verifying_key a m = Some key -> vk_algorithm key = a.
Proof.
  unfold verifying_key. cbn zeta. destruct a; intros H.
  - destruct (negb _); [done|]. apply bind_Some in H as (x & _ & H). destruct (negb _); [done|]. by injection H as <-.
  - destruct (negb _); [done|]. apply bind_Some in H as (x & _ & H). apply bind_Some in H as (y & _ & H).
    destruct (_ || _); [done|]. by injection H as <-.
  - apply bind_Some in H as (n & _ & H). apply bind_Some in H as (e & _ & H). destruct (_ <? _); [done|].
    apply bind_Some in H as (der & _ & H). by injection H as <-.
Qed.

(** What a proof says does not depend on who reads it. *)
Lemma proves_same proof x x' now now' p p' : proves proof x now p -> proves proof x' now' p' ->
  pf_jkt p = pf_jkt p' /\ pf_jti p = pf_jti p' /\ pf_issued_at p = pf_issued_at p'.
Proof.
  intros [(u & jwk & key & Hu & Hj & _ & _ & _ & Ht & v & _ & Hv & _ & _ & Hjti & _ & Hiat & _) _ _]
    [(u' & jwk' & key' & Hu' & Hj' & _ & _ & _ & Ht' & v' & _ & Hv' & _ & _ & Hjti' & _ & Hiat' & _) _ _].
  rewrite Hu in Hu'. injection Hu' as <-. rewrite Hj in Hj'. injection Hj' as <-. rewrite Hv in Hv'.
  injection Hv' as Hv'. rewrite <- Hv' in *. split_and!; congruence.
Qed.

(** ** At an endpoint *)

Lemma proof_for_Some e tenant target method headers bound now p :
  proof_for e tenant target method headers bound now = Ok (Some p) <->
  exists raw uri, single_header headers = Ok (Some raw) /\
    NormalisedUri.parse (ProofTarget.url target (tn_issuer tenant)) = Ok uri /\
    check raw (expectation_of e tenant method uri bound) now = Ok p.
Proof.
  unfold proof_for. split.
  - intros H. apply rbind_Ok in H as ([raw|] & Hs & H); [|done]. apply rbind_Ok in H as (uri & Hu & H).
    apply map_err_Ok in Hu. apply rbind_Ok in H as (q & Hq & H). apply map_err_Ok in Hq. injection H as <-. eauto.
  - intros (raw & uri & -> & Hu & Hc). cbn [rbind]. rewrite Hu. cbn [map_err rbind]. by rewrite Hc.
Qed.

Lemma check_for_accepts rows e tenant target method headers bound now outcome rows' b :
  check_for rows e tenant target method headers bound now outcome = (rows', Ok (Some b)) ->
  exists p, proof_for e tenant target method headers bound now = Ok (Some p) /\ outcome = Answered /\
    let key := PgReplayGuard.key (tn_id tenant) DpopProof (pf_jkt p) (pf_jti p) in
    rows !! key = None /\ rows' = <[key := pf_replay_expires_at p]> rows /\
    b = {| bd_jkt := pf_jkt p; bd_public_jwk := pf_public_jwk p; bd_code_hash := pf_code_hash p;
           bd_next_nonce := fresh_nonce e (tn_issuer tenant) now |}.
Proof.
  unfold check_for. destruct (proof_for _ _ _ _ _ _ _) as [[p|]|] eqn:Hp; [|done..]. unfold PgReplayGuard.claim.
  destruct (rows !! _) eqn:Hr; destruct outcome; try done. intros [= <- <-]. by exists p.
Qed.

Lemma expectation_method e tenant m uri bound : x_method (expectation_of e tenant m uri bound) = m.
Proof. unfold expectation_of. by destruct (de_nonces e), bound. Qed.
Lemma expectation_uri e tenant m uri bound : x_uri (expectation_of e tenant m uri bound) = uri.
Proof. unfold expectation_of. by destruct (de_nonces e), bound. Qed.
Lemma expectation_token e tenant m uri bound : x_access_token (expectation_of e tenant m uri bound) = bound.
Proof. unfold expectation_of. by destruct (de_nonces e), bound. Qed.
Lemma expectation_age e tenant m uri bound :
  x_max_age (expectation_of e tenant m uri bound) = clamped (de_max_age e) 0 MAX_MAX_AGE.
Proof. unfold expectation_of. by destruct (de_nonces e), bound. Qed.
Lemma expectation_nonce e tenant m uri bound : x_nonce (expectation_of e tenant m uri bound) =
  match de_nonces e with Some issuer => NonceRequiredOf issuer (tn_issuer tenant) | None => NotRequired end.
Proof. unfold expectation_of. by destruct (de_nonces e), bound. Qed.
#[local] Hint Rewrite expectation_method expectation_uri expectation_token expectation_age expectation_nonce : expectation.

Lemma clamped_idem x lo hi : lo <= hi -> clamped (clamped x lo hi) lo hi = clamped x lo hi.
Proof. unfold clamped. lia. Qed.

(** C12: What a request accepted with a proof has shown: possession, now, of the key its
    binding names, for this method at this endpoint of this issuer, over the very access
    token it presents, and with a running nonce where the endpoint asks for one. The key is
    a public one, of the proof's own header. *)
Theorem proof_binds rows e tenant target method headers bound now outcome rows' b :
  check_for rows e tenant target method headers bound now outcome = (rows', Ok (Some b)) ->
  exists proof h p s u jwk key v,
    single_header headers = Ok (Some proof) /\ proof = (h +:+ "." +:+ p +:+ "." +:+ s)%string /\ made_of h p s u /\
    header_jwk (u_header_bytes u) = Ok jwk /\ has_private_members jwk = false /\
    thumbprint (VObject jwk) = Ok (bd_jkt b) /\ verifying_key (vk_algorithm key) jwk = Some key /\
    signature_ok (vk_algorithm key) (vk_bytes key) (bytes_of (h +:+ "." +:+ p)) (u_signature u) = true /\
    from_slice (u_payload u) = Some v /\ vget "htm" v = Some (VString method) /\
    (exists htu uri, vget "htu" v = Some (VString htu) /\ NormalisedUri.parse htu = Ok uri /\
       NormalisedUri.parse (ProofTarget.url target (tn_issuer tenant)) = Ok uri) /\
    (exists iat, numeric_claim v "iat" ≫= from_unix_timestamp = Some iat /\
       now - clamped (de_max_age e) 0 MAX_MAX_AGE <= iat <= now + MAX_FUTURE_SKEW) /\
    (forall token, bound = Some token -> vget "ath" v = Some (VString (b64_encode (sha256 (bytes_of token))))) /\
    (forall issuer, de_nonces e = Some issuer ->
       exists nonce, vget "nonce" v = Some (VString nonce) /\ NonceIssuer.accepts issuer nonce (tn_issuer tenant) now = true).
Proof.
  intros H. apply check_for_accepts in H as (p & Hp & _ & _ & _ & ->). cbn [bd_jkt].
  apply proof_for_Some in Hp as (raw & uri & Hs & Hu & Hc). apply check_proves in Hc.
  destruct Hc as [(u & jwk & key & Hparse & Hj & Hpriv & _ & Hkey & Ht & v & Hg & Hv & Hm & (htu & Hh & Hn) & _ & _ & Hiat &
    Hnonce & Hath) Hw _]. autorewrite with expectation in *. rewrite clamped_idem in Hw by done.
  destruct Hg as [_ (h & q & s & u' & key' & -> & Hmade & _ & _ & _ & [->|[]] & Ha & Hsig & _) _ _ _].
  assert (Jws.parse (h +:+ "." +:+ q +:+ "." +:+ s) = Ok u') as Hu' by (apply jws_parse_iff; by exists h, q, s).
  rewrite Hparse in Hu'. injection Hu' as <-. exists (h +:+ "." +:+ q +:+ "." +:+ s)%string, h, q, s, u, jwk, key', (v_claims v).
  pose proof (verifying_key_algorithm _ _ _ Hkey) as Halg. rewrite Ha in Halg. rewrite <- Halg in Hkey.
  rewrite Ha. repeat (split; [done|]). split; [by exists htu, uri|]. split; [by exists (pf_issued_at p)|].
  split; [done|]. intros issuer Hi. apply Hnonce. by rewrite Hi.
Qed.

(** ** Once *)

Inductive ReplayEvent : Type :=
| Requested (e : DpopEndpoint) (tenant : Tenant_) (target : ProofTarget) (method : string) (headers : list string)
    (bound : option string) (now : Z) (outcome : Outcome)
| OtherClaim (tenant : string) (purpose : ReplayPurpose) (subject jti : string) (expires_at : Z) (now : Z)
| Swept (tenant : string) (chosen : list (string * string * string * list Z)) (now : Z)
| Purged (tenant : string) (now : Z).

Definition replay_event (ev : ReplayEvent) (rows : ReplayRows) : ReplayRows :=
  match ev with
  | Requested e tenant target method headers bound now outcome =>
      fst (check_for rows e tenant target method headers bound now outcome)
  | OtherClaim tenant purpose subject jti expires_at _ => fst (PgReplayGuard.claim rows tenant purpose subject jti expires_at)
  | Swept tenant chosen now => purged rows tenant chosen now
  | Purged tenant now => PgReplayGuard.purge_expired rows tenant now
  end.
Definition event_time (ev : ReplayEvent) : Z :=
  match ev with Requested _ _ _ _ _ _ now _ | OtherClaim _ _ _ _ _ now | Swept _ _ now | Purged _ now => now end.
Definition is_sweep (ev : ReplayEvent) : Prop := match ev with Swept _ _ _ | Purged _ _ => True | _ => False end.
Definition after_events (evs : list ReplayEvent) (rows : ReplayRows) : ReplayRows :=
  fold_left (fun rows ev => replay_event ev rows) evs rows.

Lemma claim_keeps rows tenant purpose subject jti expires_at k x : rows !! k = Some x ->
  fst (PgReplayGuard.claim rows tenant purpose subject jti expires_at) !! k = Some x.
Proof.
  intros H. unfold PgReplayGuard.claim. destruct (rows !! PgReplayGuard.key _ _ _ _) eqn:Hr; [done|].
  cbn [fst]. rewrite lookup_insert_ne; [done|]. intros <-. congruence.
Qed.

Lemma event_loses ev rows k x : rows !! k = Some x -> replay_event ev rows !! k <> Some x ->
  is_sweep ev /\ x <= event_time ev.
Proof.
  intros Hr Hn. destruct ev as [e t tg m hs bd now oc|t pu sb jti ex now|t ch now|t now]; cbn [replay_event] in Hn.
  - destruct Hn. unfold check_for. destruct (proof_for _ _ _ _ _ _ _) as [[q|]|]; [|done..].
    pose proof (claim_keeps rows (tn_id t) DpopProof (pf_jkt q) (pf_jti q) (pf_replay_expires_at q) k x Hr) as Hk.
    destruct (PgReplayGuard.claim _ _ _ _ _ _) as [claimed answer]. by destruct oc.
  - destruct Hn. by apply claim_keeps.
  - split; [done|]. cbn [event_time]. apply Z.nlt_ge. intros Hlt. apply Hn, map_lookup_filter_Some. split; [done|]. lia.
  - split; [done|]. cbn [event_time]. apply Z.nlt_ge. intros Hlt. apply Hn, map_lookup_filter_Some. split; [done|]. lia.
Qed.

Lemma events_lose evs rows k x : rows !! k = Some x -> after_events evs rows !! k = None ->
  exists ev, In ev evs /\ is_sweep ev /\ x <= event_time ev.
Proof.
  intros Hr Hn. destruct (fold_left_loses (fun rows ev => replay_event ev rows) (fun rows => rows !! k = Some x)
    (fun ev => is_sweep ev /\ x <= event_time ev) (fun rows ev => event_loses ev rows k x) evs rows Hr)
    as (ev & Hin & Hs & Hx); [unfold after_events in Hn; congruence|by exists ev].
Qed.

(** C5: A proof is accepted once. After one request was accepted with a proof, and whatever
    else happened since - requests with the same proof or others at any endpoint, answered,
    failed or lost, claims of other parts, sweeps of expired rows - no other request of the
    tenant is accepted with it, headed to whichever endpoint that takes proofs for as long;
    but for the very instant its life ends, in which a sweep must have run. *)
Theorem proof_used_once rows rows1 e tenant target method headers bound now outcome b evs
    rows2 e' tenant' target' method' headers' bound' now' outcome' b' :
  check_for rows e tenant target method headers bound now outcome = (rows1, Ok (Some b)) ->
  Forall (fun ev => event_time ev <= now') evs ->
  check_for (after_events evs rows1) e' tenant' target' method' headers' bound' now' outcome' = (rows2, Ok (Some b')) ->
  tn_id tenant' = tn_id tenant -> single_header headers' = single_header headers -> de_max_age e' <= de_max_age e ->
  exists p, proof_for e tenant target method headers bound now = Ok (Some p) /\ now' = pf_replay_expires_at p /\
    exists ev, In ev evs /\ is_sweep ev /\ event_time ev = now'.
Proof.
  intros H1 Hevs H2 Ht Hh Hage. apply check_for_accepts in H1 as (p & Hp & _ & _ & -> & _).
  apply check_for_accepts in H2 as (q & Hq & _ & Hnone & _). exists p. split; [done|].
  apply proof_for_Some in Hp as (raw & uri & Hs & _ & Hc). apply proof_for_Some in Hq as (raw' & uri' & Hs' & _ & Hc').
  rewrite Hh, Hs in Hs'. injection Hs' as <-. apply check_proves in Hc, Hc'.
  destruct (proves_same _ _ _ _ _ _ _ Hc Hc') as (Hjkt & Hjti & Hiat). cbn zeta in Hnone. rewrite Ht, <- Hjkt, <- Hjti in Hnone.
  pose proof (pr_window _ _ _ _ Hc') as Hw. pose proof (pr_expiry _ _ _ _ Hc) as Hx.
  autorewrite with expectation in *. rewrite clamped_idem in * by done. rewrite <- Hiat in Hw.
  assert (Hle : now' <= pf_replay_expires_at p) by (unfold clamped in *; lia).
  eapply events_lose in Hnone as (ev & Hin & Hev & Htime); [|apply lookup_insert_eq].
  rewrite Forall_forall in Hevs. pose proof (Hevs ev (proj2 (list_elem_of_In _ _) Hin)).
  split; [lia|]. exists ev. split; [done|]. split; [done|lia].
Qed.

End Laws.

(** ** A concrete endpoint

    Over the environment of [JoseLaws], with URLs of one host. *)

Definition proof_key : list Z := 7 :: repeat 0 31.
Definition proof_values (b : list Z) : option value :=
  if bool_decide (b = [1]) then Some (jobj [("jwk", VObject (jwk_of proof_key "a"))]%string)
  else Some (jobj [("htm", VString "POST"); ("htu", VString "https://op/t%6fken"); ("iat", VNumber (PosInt 1000));
                   ("jti", VString "once")]%string).
Definition proof_header (b : list Z) : option Header :=
  Some {| h_alg := "EdDSA"; h_typ := Some "dpop+jwt"%string; h_kid := None; h_crit := None |}.
Definition proof_env : JoseEnv := plain_env proof_header proof_values.
Definition one_host : DpopEnv := {|
  Url := string; url_parse := fun s => if starts_with "https://op/" s then Some s else None;
  url_scheme := fun _ => "https"%string; url_username := fun _ => ""%string; url_password := fun _ => None;
  url_host_str := fun _ => Some "op"%string; url_port := fun _ => None;
  url_path := fun s => String.substring 10 (String.length s) s; url_query := fun _ => None; url_fragment := fun _ => None;
  url_string := fun s => s;
  hmac_sha256 := fun _ m => [fold_right Z.add 0 m]; to_str := Some |}.
Definition sample_proof : string := ("A_.AA_." +:+ plain_encode proof_key)%string.
Definition at_token_endpoint (rows : ReplayRows) (now : Z) : ReplayRows * result (option Binding) Refusal :=
  check_for (E := proof_env) (D := one_host) rows {| de_nonces := None; de_max_age := DEFAULT_MAX_AGE |}
    {| tn_id := "t"; tn_issuer := "https://op" |} (ProofTarget.at_ "/token") "POST" [sample_proof] None now Answered.
Definition accepted (answer : ReplayRows * result (option Binding) Refusal) : bool :=
  match snd answer with Ok (Some _) => true | _ => false end.

(** The instant a proof's life ends is one in which it is still accepted and in which the
    row that says it was used may go: accepted, refused, swept, and accepted again. *)
Theorem proof_accepted_twice :
  accepted (at_token_endpoint ∅ (seconds 1000)) = true /\
  (let rows := fst (at_token_endpoint ∅ (seconds 1000)) in
   accepted (at_token_endpoint rows (seconds 1300)) = false /\
   accepted (at_token_endpoint (PgReplayGuard.purge_expired rows "t" (seconds 1300)) (seconds 1300)) = true).
Proof. vm_compute. done. Qed.

Definition sample_endpoint : DpopEndpoint := {| de_nonces := None; de_max_age := DEFAULT_MAX_AGE |}.
Definition sample_tenant : Tenant_ := {| tn_id := "t"; tn_issuer := "https://op" |}.

Lemma accepted_with answer : accepted answer = true -> exists b, answer = (fst answer, Ok (Some b)).
Proof. destruct answer as [rows [[b|]|]]; intros; simplify_eq/=; by exists b. Qed.

Lemma first_accepted : accepted (at_token_endpoint ∅ (seconds 1000)) = true.
Proof. vm_compute. reflexivity. Qed.
Lemma again_accepted : accepted (at_token_endpoint (after_events (E := proof_env) (D := one_host) [Purged "t" (seconds 1300)]
    (fst (at_token_endpoint ∅ (seconds 1000)))) (seconds 1300)) = true.
Proof. vm_compute. reflexivity. Qed.

Lemma proof_binds_witness : exists jwk b,
  thumbprint (E := proof_env) (VObject jwk) = Ok (bd_jkt b) /\ has_private_members jwk = false.
Proof.
  destruct (accepted_with _ first_accepted) as [b Hb].
  destruct (proof_binds (E := proof_env) (L := plain_laws _ _) (D := one_host) _ _ _ _ _ _ _ _ _ _ _ Hb)
    as (proof & h & p & s & u & jwk & key & v & _ & _ & _ & _ & Hp & Ht & _).
  exists jwk, b. exact (conj Ht Hp).
Defined.

Lemma proof_used_once_witness : exists ev, is_sweep ev /\ event_time ev = seconds 1300.
Proof.
  destruct (accepted_with _ first_accepted) as [b Hb].
  destruct (accepted_with _ again_accepted) as [b' Hb'].
  assert (Hevs : Forall (fun ev => event_time ev <= seconds 1300) [Purged "t" (seconds 1300)]) by (constructor; [done|constructor]).
  destruct (proof_used_once (E := proof_env) (L := plain_laws _ _) (D := one_host) _ _ _ _ _ _ _ _ _ _ _ _ _ _ _ _ _ _ _ _ _ _
    Hb Hevs Hb' eq_refl eq_refl (Z.le_refl _)) as (p & _ & _ & ev & _ & Hev).
  by exists ev.
Defined.

Lemma nonce_lifetime_witness :
  NonceIssuer.accepts (E := proof_env) (D := one_host) (NonceIssuer.from_secret [1])
    (NonceIssuer.issue (E := proof_env) (D := one_host) (NonceIssuer.from_secret [1]) "op" (seconds 1000)) "op" (seconds 1299) = true.
Proof.
  destruct (nonce_lifetime (E := proof_env) (L := plain_laws _ _) (D := one_host) (NonceIssuer.from_secret [1]) "op" "op"
    (seconds 1000) (seconds 1299)) as [H _]; [by vm_compute..|]. apply H; by vm_compute.
Defined.
