(* ===== verification/Federation.v ===== *)
(** * Trust chains

    [domain/src/issuer.rs], [jose/src/federation.rs] and [jose/src/federation/policy.rs]: the
    validation of a chain of entity statements from a pinned anchor, and the metadata its
    superiors leave of the leaf's own.

    The two derived deserializers and the length of JSON text are the parameters of
    [FederationEnv]; [url::Url] is that of [Dpop.DpopEnv]. *)

From S2P Require Import Prelude Text BTree Json Keys Jose Dpop.
Open Scope Z_scope.

Definition MAX_STATEMENT_BYTES : Z := 65536.
Definition MAX_CHAIN_STATEMENTS : nat := 8.
Definition MAX_ANCHOR_JWKS_BYTES : Z := 32768.

(** ** [issuer.rs] *)

Inductive IssuerError : Type :=
| NotAUrl | NotHttps (scheme : string) | HasQuery | HasFragment | HasUserinfo | NoHost.

(** [trim_end_matches]. *)
Fixpoint trim_end_char (c : Ascii.ascii) (s : string) : string :=
  match s with
  | EmptyString => EmptyString
  | String.String d r =>
      let rest := trim_end_char c r in
      if is_empty rest && Ascii.eqb d c then EmptyString else String.String d rest
  end.

(** An [Issuer] is its canonical text. *)
Module Issuer.
Section Env.
Context {D : DpopEnv}.
Definition parse (raw : string) : result string IssuerError :=
  let? url := ok_or (url_parse raw) NotAUrl in
  guard? String.eqb (url_scheme url) "https" else NotHttps (url_scheme url) in
  guard? negb (bool_decide (is_Some (url_query url))) else HasQuery in
  guard? negb (bool_decide (is_Some (url_fragment url))) else HasFragment in
  guard? is_empty (url_username url) && negb (bool_decide (is_Some (url_password url))) else HasUserinfo in
  let? host := ok_or (url_host_str url) NoHost in
  let authority := match url_port url with Some port => (host +:+ ":" +:+ port)%string | None => host end in
  Ok ("https://" +:+ authority +:+ trim_end_char "/"%char (url_path url))%string.
End Env.
End Issuer.

(** ** [federation.rs] *)

Inductive ChainError : Type :=
| ChainTooLarge
| Invalid (why : string)
| Signature
| Unsupported (what : string).

(** [Claims]; [other] holds the members without a field. *)
Record StatementClaims : Type := {
  sc_iss : string;
  sc_sub : string;
  sc_iat : Z;
  sc_exp : Z;
  sc_jwks : value;
  sc_authority_hints : option (list string);
  sc_metadata : option value;
  sc_other : object
}.

Record Statement : Type := { st_token : Unverified; st_claims : StatementClaims }.

Record FederationRelyingPartyMetadata : Type := {
  rp_redirect_uris : option (list string);
  rp_response_types : option (list string);
  rp_grant_types : option (list string);
  rp_client_registration_types : option (list string);
  rp_token_endpoint_auth_method : option string;
  rp_jwks : option value;
  rp_jwks_uri : option string;
  rp_signed_jwks_uri : option string;
  rp_other : object
}.

Record VerifiedChain : Type := {
  vc_leaf_entity_id : string;
  vc_anchor_entity_id : string;
  vc_expires_at : Z;
  vc_metadata : value;
  vc_relying_party : option FederationRelyingPartyMetadata
}.

Record TrustAnchor : Type := { ta_tenant : string; ta_entity_id : string; ta_keys : ClientKeySet }.

Class FederationEnv : Type := {
  statement_claims : list Z -> option StatementClaims;
  relying_party_metadata : value -> option FederationRelyingPartyMetadata;
  (** [serde_json::to_vec], its length. *)
  json_len : value -> Z
}.

Section Statements.
Context {E : JoseEnv} {D : DpopEnv} {F : FederationEnv}.

Definition valid_entity_id (raw : string) : result unit ChainError :=
  guard? slen raw <=? 2048 else ChainTooLarge in
  let? canonical := map_err (fun _ => Invalid "entity identifier") (Issuer.parse raw) in
  guard? String.eqb canonical raw else Invalid "noncanonical entity identifier" in
  Ok tt.

Definition UNSUPPORTED_CLAIMS : list string :=
  ["crit"; "trust_marks"; "trust_mark_issuers"; "trust_mark_owners"; "trust_anchor_hints"; "ref"; "delegation"]%string.

Definition has_member (m : object) (name : string) : bool := bool_decide (is_Some (bget name m)).

Definition check_header (raw_header : list Z) : result unit ChainError :=
  let? header := ok_or (from_slice raw_header) (Invalid "JWS header") in
  let? members := ok_or (as_object header) (Invalid "JWS header is not an object") in
  guard? forallb (fun name => in_strings name ["alg"; "typ"; "kid"]%string) (bkeys members)
    else Unsupported "JWS header extension" in
  Ok tt.

Definition is_null (v : value) : bool := match v with VNull => true | _ => false end.

Definition check_raw_claims (payload : list Z) : result unit ChainError :=
  let? raw_claims := ok_or (from_slice payload) (Invalid "Entity Statement claims") in
  let? members := ok_or (as_object raw_claims) (Invalid "Entity Statement claims are not an object") in
  guard? negb (existsb (fun field => is_some_and is_null (bget field members)) ["metadata"; "authority_hints"]%string)
    else Invalid "null Entity Statement claim" in
  Ok tt.

Definition check_source_endpoint (c : StatementClaims) : result unit ChainError :=
  match bget "source_endpoint"%string (sc_other c) with
  | None => Ok tt
  | Some source =>
      let? source := ok_or (as_str source) (Invalid "source_endpoint") in
      let? url := ok_or (url_parse source) (Invalid "source_endpoint") in
      guard? negb (String.eqb (sc_iss c) (sc_sub c) || negb (String.eqb (url_scheme url) "https")
                   || negb (bool_decide (is_Some (url_host_str url))) || negb (is_empty (url_username url))
                   || bool_decide (is_Some (url_password url)) || bool_decide (is_Some (url_fragment url)))
        else Invalid "source_endpoint" in
      Ok tt
  end.

Definition check_hints (c : StatementClaims) : result unit ChainError :=
  match sc_authority_hints c with
  | None => Ok tt
  | Some hints =>
      guard? String.eqb (sc_iss c) (sc_sub c) && negb (match hints with [] => true | _ => false end)
        else Invalid "authority hints on a non-configuration" in
      try_fold (fun hint _ => valid_entity_id hint) hints tt
  end.

Definition check_metadata (c : StatementClaims) : result unit ChainError :=
  match sc_metadata c with
  | None => Ok tt
  | Some metadata =>
      let? members := ok_or (as_object metadata) (Invalid "metadata is not an object") in
      guard? forallb (fun v => bool_decide (is_Some (as_object v))) (bvalues members)
        else Invalid "entity-type metadata is not an object" in
      guard? negb (existsb (fun v => is_some_and (fun fields => existsb is_null (bvalues fields)) (as_object v)) (bvalues members))
        else Invalid "null metadata value" in
      Ok tt
  end.

Definition statement_keys (st : Statement) : result ClientKeySet ChainError :=
  map_err (fun _ => Invalid "statement JWKS") (keys_from_jwk_set (sc_jwks (st_claims st))).

Definition verify_with (st : Statement) (keys : ClientKeySet) : result unit ChainError :=
  let? kid := ok_or (Jws.kid (st_token st)) (Invalid "missing kid") in
  match List.filter (fun key => bool_decide (ck_kid key = Some kid)) (ks_keys keys) with
  | [candidate] => let? _ := map_err (fun _ => Signature) (Jws.verify (st_token st) (ck_key candidate)) in Ok tt
  | _ => Err (Invalid "kid is absent or ambiguous in JWKS")
  end.

Definition names_superior (st : Statement) (superior : string) : bool :=
  is_some_and (in_strings superior) (sc_authority_hints (st_claims st)).

(** The first loop of [validate], over the statements from [index] on; [last] is the
    anchor's. *)
Fixpoint check_path (index last : nat) (issuers : list string) (statements : list Statement) : result unit ChainError :=
  match statements with
  | [] => Ok tt
  | st :: rest =>
      let c := st_claims st in
      guard? negb ((0 <? index)%nat && (index <? last)%nat && String.eqb (sc_iss c) (sc_sub c))
        else Invalid "a subordinate statement is self-issued" in
      guard? negb ((index <? last)%nat && in_strings (sc_iss c) issuers) else Invalid "entity cycle in trust chain" in
      guard? negb ((index <? last)%nat
                   && is_some_and (fun next => negb (String.eqb (sc_iss c) (sc_sub (st_claims next)))) (head rest))
        else Invalid "issuer and next subject disagree" in
      check_path (S index) last (sc_iss c :: issuers) rest
  end.

(** Each statement under the keys of the next, the anchor's end first. *)
Fixpoint verify_links (statements : list Statement) : result unit ChainError :=
  match statements with
  | st :: (parent :: _) as rest =>
      let? _ := verify_links rest in
      let? parent_keys := statement_keys parent in
      verify_with st parent_keys
  | _ => Ok tt
  end.
End Statements.

Module Statement.
Section Env.
Context {E : JoseEnv} {D : DpopEnv} {F : FederationEnv}.
Definition parse (raw : string) (now : Z) : result Statement ChainError :=
  guard? slen raw <=? MAX_STATEMENT_BYTES else ChainTooLarge in
  let? token := map_err (fun _ => Invalid "compact JWS") (Jws.parse raw) in
  guard? bool_decide (Jws.claimed_typ token = Some "entity-statement+jwt"%string) else Invalid "entity statement typ" in
  let? kid := ok_or (Jws.kid token) (Invalid "missing kid") in
  guard? negb (is_empty kid) else Invalid "empty kid" in
  let? _ := check_header (u_header_bytes token) in
  let? _ := check_raw_claims (u_payload token) in
  let? claims := ok_or (statement_claims (u_payload token)) (Invalid "Entity Statement claims") in
  let? _ := valid_entity_id (sc_iss claims) in
  let? _ := valid_entity_id (sc_sub claims) in
  guard? negb ((unix_timestamp now <=? sc_iat claims) || (sc_exp claims <=? unix_timestamp now)
               || (sc_exp claims <=? sc_iat claims))
    else Invalid "Entity Statement lifetime" in
  guard? negb (existsb (has_member (sc_other claims)) UNSUPPORTED_CLAIMS) else Unsupported "critical claim or trust mark" in
  let? _ := check_source_endpoint claims in
  let? _ := check_hints claims in
  let? _ := check_metadata claims in
  Ok {| st_token := token; st_claims := claims |}.
End Env.
End Statement.

(** ** [federation/policy.rs] *)

Definition OPERATORS : list string :=
  ["value"; "add"; "default"; "one_of"; "subset_of"; "superset_of"; "essential"]%string.

Definition object_of (v : value) (what : string) : result object ChainError := ok_or (as_object v) (Invalid what).

Definition strings (v : value) (what : string) : result (list string) ChainError :=
  let? items := ok_or (as_array v) (Invalid what) in
  try_mapi (fun _ item => ok_or (as_str item) (Invalid what)) 0 items.

(** Each of [small] is in [big]. *)
Definition values_in (small big : list value) : bool := forallb (fun item => value_in item big) small.
Definition array_in (items : option value) (big : list value) : bool :=
  is_some_and (fun l => values_in l big) (items ≫= as_array).

Definition valid_scalar_or_array (v : value) (nullable : bool) : result unit ChainError :=
  match v with
  | VNull => if nullable then Ok tt else Err (Unsupported "object metadata policy value")
  | VString _ | VNumber _ | VBool _ | VArray _ => Ok tt
  | VObject _ => Err (Unsupported "object metadata policy value")
  end.

Definition validate_operator (name : string) (v : value) : result unit ChainError :=
  if String.eqb name "value" then valid_scalar_or_array v true
  else if String.eqb name "default" then valid_scalar_or_array v false
  else if in_strings name ["add"; "one_of"; "subset_of"; "superset_of"]%string
  then let? _ := strings v "array policy operator" in Ok tt
  else if String.eqb name "essential"
  then match v with VBool _ => Ok tt | _ => Err (Invalid "essential policy operator") end
  else Ok tt.

(** What [validate_operators] asks of a fixed value. *)
Definition validate_value (operators : object) (v : value) : result unit ChainError :=
  guard? negb (is_null v && has_member operators "default") else Invalid "null value and default policy" in
  guard? is_none_or (fun one_of => is_some_and (value_in v) (as_array one_of)) (bget "one_of"%string operators)
    else Invalid "value outside one_of policy" in
  let? _ := match bget "add"%string operators with
    | None => Ok tt
    | Some add =>
        let? array := ok_or (as_array v) (Invalid "value and add policy types") in
        guard? array_in (Some add) array else Invalid "value excludes add policy" in Ok tt
    end in
  let? _ := match bget "subset_of"%string operators with
    | None => Ok tt
    | Some subset =>
        let? array := ok_or (as_array v) (Invalid "value and subset policy types") in
        guard? forallb (fun item => is_some_and (value_in item) (as_array subset)) array
          else Invalid "value exceeds subset policy" in Ok tt
    end in
  let? _ := match bget "superset_of"%string operators with
    | None => Ok tt
    | Some superset =>
        let? array := ok_or (as_array v) (Invalid "value and superset policy types") in
        guard? array_in (Some superset) array else Invalid "value misses superset policy" in Ok tt
    end in
  guard? negb (is_null v && is_some_and (value_eqb (VBool true)) (bget "essential"%string operators))
    else Invalid "essential value removed" in
  Ok tt.

(** [small ⊆ big] where both operators are there. *)
Definition compare_operators (operators : object) (small big what_small what_big what : string) : result unit ChainError :=
  match bget small operators, bget big operators with
  | Some s, Some b =>
      let? s := strings s what_small in
      let? b := strings b what_big in
      guard? forallb (fun item => in_strings item b) s else Invalid what in Ok tt
  | _, _ => Ok tt
  end.

Definition validate_operators (operators : object) : result unit ChainError :=
  let? _ := try_fold (fun '(name, v) _ => validate_operator name v) operators tt in
  guard? negb (has_member operators "one_of"
               && existsb (has_member operators) ["add"; "subset_of"; "superset_of"]%string)
    else Invalid "incompatible one_of policy operators" in
  let? _ := compare_operators operators "superset_of" "subset_of" "superset_of" "subset_of"
    "incompatible subset and superset policy" in
  let? _ := match bget "value"%string operators with Some v => validate_value operators v | None => Ok tt end in
  let? _ := compare_operators operators "add" "subset_of" "add policy" "subset_of policy" "add exceeds subset policy" in
  guard? negb (is_some_and (fun v => match as_array v with Some [] => true | _ => false end) (bget "one_of"%string operators))
    else Invalid "empty one_of policy" in
  Ok tt.

Definition add_missing (next current : list value) : list value :=
  fold_left (fun current item => if value_in item current then current else current ++ [item]) next current.

Definition merge_operator (name : string) (current next : value) : result value ChainError :=
  if in_strings name ["value"; "default"]%string then
    if value_eqb current next then Ok current else Err (Invalid "conflicting policy values")
  else if String.eqb name "essential" then
    let flag v := match v with VBool b => b | _ => false end in
    Ok (VBool (flag current || flag next))
  else if in_strings name ["add"; "superset_of"]%string then
    let? current := ok_or (as_array current) (Invalid "policy array") in
    let? next := ok_or (as_array next) (Invalid "policy array") in
    Ok (VArray (add_missing next current))
  else if in_strings name ["one_of"; "subset_of"]%string then
    let? next := ok_or (as_array next) (Invalid "policy array") in
    let? current := ok_or (as_array current) (Invalid "policy array") in
    let kept := List.filter (fun item => value_in item next) current in
    guard? negb (String.eqb name "one_of" && match kept with [] => true | _ => false end)
      else Invalid "empty one_of intersection" in
    Ok (VArray kept)
  else Ok current.

Definition merge_one (entry : string * value) (existing : object) : result object ChainError :=
  let '(operator, v) := entry in
  if negb (in_strings operator OPERATORS) then Ok existing
  else match bget operator existing with
  | None => Ok (binsert operator v existing)
  | Some previous => let? merged := merge_operator operator previous v in Ok (binsert operator merged existing)
  end.

(** [entry(name).or_insert_with(an empty object)]. *)
Definition entry_of (name : string) (m : object) (what : string) : result object ChainError :=
  object_of (from_option id (VObject []) (bget name m)) what.

Definition merge_parameter (entry : string * value) (target : object) : result object ChainError :=
  let '(name, operators) := entry in
  let? operators := object_of operators "metadata parameter policy" in
  let? _ := validate_operators operators in
  let? existing := entry_of name target "metadata parameter policy" in
  let? existing := try_fold merge_one operators existing in
  let? _ := validate_operators existing in
  Ok (binsert name (VObject existing) target).

Definition merge_type (entry : string * value) (current : object) : result object ChainError :=
  let '(entity_type, fields) := entry in
  let? fields := object_of fields "metadata_policy entity type" in
  let? target := entry_of entity_type current "metadata_policy entity type" in
  let? target := try_fold merge_parameter fields target in
  Ok (binsert entity_type (VObject target) current).

Definition merge_policy (current incoming : object) : result object ChainError := try_fold merge_type incoming current.

(** *** Applying the policy to the leaf's metadata *)

(** What [apply_policy] works on: a scope is read as its words. *)
Definition working_value (name : string) (field : option value) : option value :=
  match field with
  | Some (VString text) =>
      if String.eqb name "scope" then Some (VArray (map VString (split_whitespace text))) else field
  | _ => field
  end.

(** And what it stores. *)
Definition stored_value (name : string) (v : value) : result value ChainError :=
  match v with
  | VArray items =>
      if String.eqb name "scope"
      then let? words := strings v "scope policy value" in Ok (VString (join " " words))
      else Ok v
  | _ => Ok v
  end.

Definition apply_value (operators : object) (v : option value) : option value :=
  match bget "value"%string operators with
  | Some fixed => if is_null fixed then None else Some fixed
  | None => v
  end.

Definition apply_add (operators : object) (v : option value) : result (option value) ChainError :=
  match bget "add"%string operators with
  | None => Ok v
  | Some add =>
      let? additions := ok_or (as_array add) (Invalid "add policy") in
      let? list := ok_or (as_array (from_option id (VArray []) v)) (Invalid "add target is not an array") in
      Ok (Some (VArray (add_missing additions list)))
  end.

Definition apply_default (operators : object) (v : option value) : option value :=
  match v with None => bget "default"%string operators | Some _ => v end.

Definition apply_one_of (operators : object) (v : option value) : result unit ChainError :=
  match bget "one_of"%string operators, v with
  | Some allowed, Some v =>
      guard? is_some_and (value_in v) (as_array allowed) else Invalid "one_of policy violated" in Ok tt
  | _, _ => Ok tt
  end.

Definition apply_subset (operators : object) (v : option value) : result (option value) ChainError :=
  match bget "subset_of"%string operators, v with
  | Some allowed, Some v =>
      let? items := ok_or (as_array v) (Invalid "subset target is not an array") in
      let? allowed := ok_or (as_array allowed) (Invalid "subset_of policy") in
      Ok (Some (VArray (List.filter (fun item => value_in item allowed) items)))
  | _, _ => Ok v
  end.

Definition apply_superset (operators : object) (v : option value) : result unit ChainError :=
  match bget "superset_of"%string operators, v with
  | Some required, Some v =>
      let? items := ok_or (as_array v) (Invalid "superset target is not an array") in
      guard? array_in (Some required) items else Invalid "superset_of policy violated" in Ok tt
  | _, _ => Ok tt
  end.

Definition apply_operators (name : string) (operators : object) (field : option value) : result (option value) ChainError :=
  let? v := apply_add operators (apply_value operators (working_value name field)) in
  let v := apply_default operators v in
  let? _ := apply_one_of operators v in
  let? v := apply_subset operators v in
  let? _ := apply_superset operators v in
  guard? negb (bool_decide (v = None) && is_some_and (value_eqb (VBool true)) (bget "essential"%string operators))
    else Invalid "essential metadata parameter absent" in
  Ok v.

Definition apply_parameter (entry : string * value) (fields : object) : result object ChainError :=
  let '(name, operators) := entry in
  let? operators := object_of operators "parameter policy" in
  let? v := apply_operators name operators (bget name fields) in
  match v with
  | Some v => let? stored := stored_value name v in Ok (binsert name stored fields)
  | None => Ok (bremove name fields)
  end.

Definition apply_type (entry : string * value) (metadata : object) : result object ChainError :=
  let '(entity_type, parameters) := entry in
  match bget entity_type metadata with
  | None => Ok metadata
  | Some fields =>
      let? fields := object_of fields "entity metadata" in
      let? parameters := object_of parameters "entity policy" in
      let? fields := try_fold apply_parameter parameters fields in
      Ok (binsert entity_type (VObject fields) metadata)
  end.

Definition apply_policy (policy metadata : object) : result object ChainError := try_fold apply_type policy metadata.

(** *** Constraints *)

Definition label_ok (part : string) : bool :=
  negb (is_empty part) && negb (starts_with "-" part) && negb (ends_with "-" part)
  && all_bytes (fun b => is_ascii_alphanumeric b || (b =? 45)) part.

Definition valid_dns_constraint (pattern : string) : result unit ChainError :=
  let host := from_option id pattern (strip_char "."%char pattern) in
  guard? negb (is_empty host || starts_with "." host || ends_with "." host || negb (forallb label_ok (split_on "."%char host)))
    else Invalid "naming constraint domain" in
  Ok tt.

Definition lowered (s : string) : list Z := map to_ascii_lowercase (bytes_of s).
Definition dns_match (host pattern : string) : bool :=
  if starts_with "." pattern
  then (length (lowered pattern) <=? length (lowered host))%nat
       && bool_decide (drop (length (lowered host) - length (lowered pattern)) (lowered host) = lowered pattern)
  else eq_ignore_ascii_case host pattern.

Section Constraints.
Context {D : DpopEnv}.

Definition check_name (permitted : option (list string)) (excluded : list string) (entity_id : string) : result unit ChainError :=
  let? url := ok_or (url_parse entity_id) (Invalid "subordinate Entity Identifier") in
  let? host := ok_or (url_host_str url) (Invalid "subordinate Entity Identifier host") in
  guard? negb (existsb (dns_match host) excluded
               || is_some_and (fun list => negb (existsb (dns_match host) list)) permitted)
    else Invalid "naming constraint violated" in
  Ok tt.

(** Who a superior's constraints are about: the leaf and the issuers between. *)
Definition subordinates (index : nat) (chain : list Statement) : list string :=
  option_list ((fun leaf => sc_sub (st_claims leaf)) <$> head chain)
  ++ map (fun st => sc_iss (st_claims st)) (drop 1 (take index chain)).

Definition check_path_length (constraints : object) (index : nat) : result unit ChainError :=
  match bget "max_path_length"%string constraints with
  | None => Ok tt
  | Some maximum =>
      let? maximum := ok_or (as_u64 maximum) (Invalid "max_path_length") in
      guard? negb (maximum <? Z.of_nat (index - 1)) else Invalid "max_path_length exceeded" in Ok tt
  end.

(** [transpose]. *)
Definition strings_opt (v : option value) (what : string) : result (option (list string)) ChainError :=
  match v with None => Ok None | Some v => let? l := strings v what in Ok (Some l) end.

Definition check_names (constraints : object) (index : nat) (chain : list Statement) : result unit ChainError :=
  match bget "naming_constraints"%string constraints with
  | None => Ok tt
  | Some names =>
      let? names := object_of names "naming_constraints" in
      let? permitted := strings_opt (bget "permitted"%string names) "permitted names" in
      let? excluded := strings_opt (bget "excluded"%string names) "excluded names" in
      let excluded := from_option id [] excluded in
      let? _ := try_fold (fun pattern _ => valid_dns_constraint pattern) (from_option id [] permitted ++ excluded) tt in
      try_fold (fun entity_id _ => check_name permitted excluded entity_id) (subordinates index chain) tt
  end.

Definition retain_types (constraints types : object) : result object ChainError :=
  match bget "allowed_entity_types"%string constraints with
  | None => Ok types
  | Some allowed =>
      let? allowed := strings allowed "allowed_entity_types" in
      guard? negb (in_strings "federation_entity" allowed) else Invalid "federation_entity in allowed_entity_types" in
      Ok (List.filter (fun '(name, _) => String.eqb name "federation_entity" || in_strings name allowed) types)
  end.

Definition apply_constraints (v : value) (index : nat) (chain : list Statement) (types : object) : result object ChainError :=
  let? constraints := object_of v "constraints" in
  let? _ := check_path_length constraints index in
  let? _ := check_names constraints index chain in
  retain_types constraints types.

(** *** [resolve] *)

Definition other_member (st : Statement) (name : string) : option value := bget name (sc_other (st_claims st)).

Definition has_policy_claim (st : Statement) : bool :=
  existsb (has_member (sc_other (st_claims st))) ["metadata_policy"; "metadata_policy_crit"; "constraints"]%string.

Definition override_field (entry : string * value) (fields : object) : object := binsert (fst entry) (snd entry) fields.
Definition override_type (entry : string * value) (types : object) : result object ChainError :=
  let '(entity_type, fields) := entry in
  match bget entity_type types with
  | None => Ok types
  | Some current =>
      let? current := object_of current "entity metadata" in
      let? fields := object_of fields "superior metadata fields" in
      Ok (binsert entity_type (VObject (fold_left (fun m entry => override_field entry m) fields current)) types)
  end.

Definition override (superior : Statement) (types : object) : result object ChainError :=
  match sc_metadata (st_claims superior) with
  | None => Ok types
  | Some metadata =>
      let? overrides := object_of metadata "superior metadata" in
      try_fold override_type overrides types
  end.

Definition critical_of (st : Statement) (critical : list string) : result (list string) ChainError :=
  match other_member st "metadata_policy_crit" with
  | None => Ok critical
  | Some list =>
      let? names := strings list "metadata_policy_crit" in
      guard? negb (bool_decide (names = [])) else Invalid "empty metadata_policy_crit" in
      Ok (critical ++ names)
  end.

(** The last loop's body; [state] is the policy so far and the leaf's types. *)
Definition superior_step (chain : list Statement) (index : nat) (state : object * object)
    : result (object * object) ChainError :=
  let '(combined, types) := state in
  match chain !! index with
  | None => Ok state
  | Some st =>
      let? types := match other_member st "constraints" with
        | Some constraints => apply_constraints constraints index chain types
        | None => Ok types
        end in
      let? combined := match other_member st "metadata_policy" with
        | Some policy => let? policy := object_of policy "metadata_policy" in merge_policy combined policy
        | None => Ok combined
        end in
      Ok (combined, types)
  end.

Definition resolve (chain : list Statement) : result value ChainError :=
  let last_ := (length chain - 1)%nat in
  guard? negb (is_some_and has_policy_claim (head chain) || is_some_and has_policy_claim (chain !! last_))
    else Invalid "policy claim on Entity Configuration" in
  let? metadata := ok_or (head chain ≫= fun leaf => sc_metadata (st_claims leaf)) (Invalid "leaf metadata is absent") in
  let? types := object_of metadata "leaf metadata is not an object" in
  let? types := match chain !! 1%nat with Some superior => override superior types | None => Ok types end in
  let? critical := try_fold critical_of (drop 1 (take last_ chain)) [] in
  guard? bool_decide (critical = []) else Unsupported "critical metadata policy operator" in
  let? (combined, types) := try_fold (superior_step chain) (rev (seq 1 (last_ - 1))) ([], types) in
  let? types := apply_policy combined types in
  Ok (VObject types).
End Constraints.

(** ** [TrustAnchor] *)

Module TrustAnchor.
Section Env.
Context {E : JoseEnv} {D : DpopEnv} {F : FederationEnv}.

Definition new (tenant entity_id : string) (jwks : value) : result TrustAnchor ChainError :=
  guard? json_len jwks <=? MAX_ANCHOR_JWKS_BYTES else ChainTooLarge in
  let? keys := map_err (fun _ => Invalid "anchor JWKS") (keys_from_jwk_set jwks) in
  guard? negb (bool_decide (ks_keys keys = [])) && forallb (fun key => negb (is_none_or is_empty (ck_kid key))) (ks_keys keys)
    else Invalid "anchor keys need nonempty kid values" in
  Ok {| ta_tenant := tenant; ta_entity_id := entity_id; ta_keys := keys |}.

Definition check_ends (a : TrustAnchor) (leaf anchor : StatementClaims) : result unit ChainError :=
  guard? String.eqb (sc_iss leaf) (sc_sub leaf) else Invalid "leaf is not an Entity Configuration" in
  guard? String.eqb (sc_iss anchor) (ta_entity_id a) && String.eqb (sc_sub anchor) (ta_entity_id a)
    else Invalid "chain ends at a different trust anchor" in
  Ok tt.

Definition relying_party_of (metadata : value) : result (option FederationRelyingPartyMetadata) ChainError :=
  match vget "openid_relying_party" metadata with
  | None => Ok None
  | Some v => let? rp := ok_or (relying_party_metadata v) (Invalid "resolved RP metadata") in Ok (Some rp)
  end.

Definition validate (a : TrustAnchor) (tenant : string) (compact_statements : list string) (now : Z)
    : result VerifiedChain ChainError :=
  guard? String.eqb tenant (ta_tenant a) else Invalid "tenant mismatch" in
  guard? (3 <=? length compact_statements)%nat && (length compact_statements <=? MAX_CHAIN_STATEMENTS)%nat
    else Invalid "incomplete or overlong chain" in
  let? statements := try_mapi (fun _ raw => Statement.parse raw now) 0 compact_statements in
  match statements with
  | leaf :: superior :: rest =>
      let anchor := List.last rest superior in
      let? _ := check_ends a (st_claims leaf) (st_claims anchor) in
      let? _ := check_path 0 (length statements - 1) [] statements in
      guard? names_superior leaf (sc_iss (st_claims superior)) else Invalid "leaf does not name its immediate superior" in
      let? _ := verify_with anchor (ta_keys a) in
      let? anchor_keys := statement_keys anchor in
      let? _ := verify_with anchor anchor_keys in
      let? _ := verify_links statements in
      let? leaf_keys := statement_keys leaf in
      let? _ := verify_with leaf leaf_keys in
      let expires_at := fold_left Z.min (map (fun st => sc_exp (st_claims st)) (superior :: rest)) (sc_exp (st_claims leaf)) in
      let? metadata := resolve statements in
      let? relying_party := relying_party_of metadata in
      Ok {| vc_leaf_entity_id := sc_iss (st_claims leaf); vc_anchor_entity_id := ta_entity_id a;
            vc_expires_at := expires_at; vc_metadata := metadata; vc_relying_party := relying_party |}
  | _ => Err (Invalid "empty chain")
  end.

(** The loop of [validate_with_intermediates], from [compact_statements[index + 1]] on. *)
Fixpoint check_intermediates (configurations delegations : list string) (now : Z) : result unit ChainError :=
  match configurations, delegations with
  | raw :: configurations, delegating :: delegations =>
      let? configuration := Statement.parse raw now in
      let? delegation := Statement.parse delegating now in
      let c := st_claims configuration in
      guard? String.eqb (sc_iss c) (sc_sub c) && String.eqb (sc_sub c) (sc_sub (st_claims delegation))
        else Invalid "intermediate configuration identity" in
      guard? names_superior configuration (sc_iss (st_claims delegation)) else Invalid "intermediate authority hint" in
      let? delegated_keys := statement_keys delegation in
      let? _ := verify_with configuration delegated_keys in
      let? self_keys := statement_keys configuration in
      let? _ := verify_with configuration self_keys in
      check_intermediates configurations delegations now
  | _, _ => Ok tt
  end.

Definition validate_with_intermediates (a : TrustAnchor) (tenant : string) (compact_statements configurations : list string)
    (now : Z) : result VerifiedChain ChainError :=
  guard? (length configurations + 3 =? length compact_statements)%nat else Invalid "intermediate configuration count" in
  let? verified := validate a tenant compact_statements now in
  let? _ := check_intermediates configurations (drop 2 compact_statements) now in
  Ok verified.
End Env.
End TrustAnchor.
