(* ===== verification/FederationLaws.v ===== *)
(** * What a trust chain is worth

    Laws of [Federation]: a chain is accepted where every statement is signed by who it was
    delegated to, from the anchor down, and what is left of the leaf's metadata obeys every
    superior. *)

From S2P Require Import Prelude Text BTree Json Keys Jose JoseLaws Dpop DpopLaws Federation.
Open Scope Z_scope.

Section Laws.
Context {E : JoseEnv} {D : DpopEnv} {F : FederationEnv}.

(** ** Signatures *)

(** Signed with the one key of the set that has the statement's [kid]. *)
Definition signed_under (st : Statement) (keys : ClientKeySet) : Prop :=
  exists kid key, Jws.kid (st_token st) = Some kid /\
    List.filter (fun k => bool_decide (ck_kid k = Some kid)) (ks_keys keys) = [key] /\
    h_alg (u_header (st_token st)) = SigningAlgorithm.as_str (vk_algorithm (ck_key key)) /\
    signature_ok (vk_algorithm (ck_key key)) (vk_bytes (ck_key key)) (bytes_of (u_signing_input (st_token st)))
      (u_signature (st_token st)) = true.

(** Signed with a key the statement [parent] names. *)
Definition delegated (parent st : Statement) : Prop :=
  exists keys, keys_from_jwk_set (sc_jwks (st_claims parent)) = Ok keys /\ signed_under st keys.

Lemma verify_with_iff st keys : verify_with st keys = Ok tt <-> signed_under st keys.
Proof.
  unfold verify_with, signed_under. rewrite rbind_Ok. setoid_rewrite ok_or_Ok. split.
  - intros (kid & Hk & H). destruct (List.filter _ _) as [|key [|? ?]] eqn:Hf; try done.
    apply rbind_Ok in H as (p & Hp & _). apply map_err_Ok, jws_verify_iff in Hp as (_ & Ha & Hs). by exists kid, key.
  - intros (kid & key & Hk & Hf & Ha & Hs). exists kid. split; [done|]. rewrite Hf. apply rbind_Ok. eexists.
    split; [|done]. by apply map_err_Ok, jws_verify_iff.
Qed.

Lemma delegated_iff parent st :
  (let? keys := statement_keys parent in verify_with st keys) = Ok tt <-> delegated parent st.
Proof.
  unfold delegated, statement_keys. rewrite rbind_Ok. by setoid_rewrite map_err_Ok; setoid_rewrite verify_with_iff.
Qed.

Lemma verify_links_iff l : verify_links l = Ok tt <->
  forall i st parent, l !! i = Some st -> l !! S i = Some parent -> delegated parent st.
Proof.
  induction l as [|st [|parent rest] IH]; [done| |].
  - split; [|done]. intros _ i s p Hs Hp. by destruct i.
  - change (verify_links (st :: parent :: rest)) with
      (let? _ := verify_links (parent :: rest) in let? keys := statement_keys parent in verify_with st keys).
    rewrite rbind_Ok. split.
    + intros ([] & Hr & H). intros [|i] s p Hs Hp; [|by eapply (proj1 IH Hr i)].
      cbn in Hs, Hp. injection Hs as <-. injection Hp as <-. by apply delegated_iff.
    + intros H. exists tt. split; [apply IH; intros i s p Hs Hp; by apply (H (S i))|].
      apply delegated_iff. by apply (H 0%nat).
Qed.

(** ** The path *)

Definition iss (st : Statement) : string := sc_iss (st_claims st).
Definition sub (st : Statement) : string := sc_sub (st_claims st).

Lemma check_path_cons index last issuers st rest : check_path index last issuers (st :: rest) =
  (guard? negb ((0 <? index)%nat && (index <? last)%nat && String.eqb (iss st) (sub st))
     else Invalid "a subordinate statement is self-issued" in
   guard? negb ((index <? last)%nat && in_strings (iss st) issuers) else Invalid "entity cycle in trust chain" in
   guard? negb ((index <? last)%nat && is_some_and (fun next => negb (String.eqb (iss st) (sub next))) (head rest))
     else Invalid "issuer and next subject disagree" in
   check_path (S index) last (iss st :: issuers) rest).
Proof. done. Qed.

(** [l] starts at [index] of a chain whose last statement is at [last]. *)
Lemma check_path_iff l index last issuers : (index + length l = S last)%nat -> NoDup issuers ->
  check_path index last issuers l = Ok tt <->
  (forall i st, l !! i = Some st -> (0 < index + i < last)%nat -> iss st <> sub st) /\
  NoDup (issuers ++ map iss (take (pred (length l)) l)) /\
  (forall i st next, l !! i = Some st -> l !! S i = Some next -> iss st = sub next).
Proof.
  revert index issuers. induction l as [|st [|next rest] IH]; intros index issuers Hl Hi.
  - cbn. rewrite app_nil_r. split; [by repeat split|done].
  - assert (index = last) as -> by (cbn in Hl; lia). cbn [check_path head is_some_and]. rewrite Nat.ltb_irrefl.
    rewrite andb_false_r. cbn [andb negb length pred take map]. rewrite app_nil_r. split; [|done]. intros _.
    split; [|split; [done|]]; intros [|i] st'; intros; simplify_eq/=; lia.
  - rewrite check_path_cons. cbn [length] in Hl. cbn [head is_some_and].
    assert (Hlt : (index <? last)%nat = true) by (apply Nat.ltb_lt; lia). rewrite Hlt, !andb_true_r.
    cbn [andb]. rewrite !guard_Ok, !negb_true_iff, negb_false_iff, String.eqb_eq.
    change (take (pred (length (st :: next :: rest))) (st :: next :: rest))
      with (st :: take (pred (length (next :: rest))) (next :: rest)). cbn [map].
    assert (Hp : iss st :: issuers ++ map iss (take (pred (length (next :: rest))) (next :: rest))
      ≡ₚ issuers ++ iss st :: map iss (take (pred (length (next :: rest))) (next :: rest))) by apply Permutation_middle.
    rewrite <- Hp, andb_false_iff, Nat.ltb_ge, String.eqb_neq. split.
    + intros (Hself & Hin & Hnext & H). assert (Hni : ~ In (iss st) issuers) by (rewrite <- in_strings_In; congruence).
      apply (IH (S index)) in H as (H1 & H2 & H3); [|cbn [length]; lia|constructor; [by rewrite list_elem_of_In|done]].
      split; [|split; [done|]].
      * intros [|i] st' Hs Hlt'; [injection Hs as <-; destruct Hself; [lia|done]|]. apply (H1 i st' Hs). lia.
      * intros [|i] st' next' Hs Hn'; [by simplify_eq/=|]. by apply (H3 i).
    + intros (H1 & H2 & H3). pose proof H2 as H2'. apply NoDup_cons in H2' as [Hni _]. rewrite list_elem_of_In, in_app_iff in Hni.
      split; [|split; [|split]].
      * destruct (decide (0 < index)%nat); [right; apply (H1 0%nat); [done|lia]|left; lia].
      * destruct (in_strings _ _) eqn:Hs; [|done]. apply in_strings_In in Hs. tauto.
      * by apply (H3 0%nat).
      * apply IH; [cbn [length]; lia|constructor; [rewrite list_elem_of_In; tauto|done]|].
        split; [|split; [done|]]; intros i st'; intros; [apply (H1 (S i) st'); [done|lia]|by apply (H3 (S i))].
Qed.

(** ** A chain that is accepted *)

Lemma least_iff l x m : m = fold_left Z.min l x <-> (forall y, In y (x :: l) -> m <= y) /\ In m (x :: l).
Proof.
  assert (H : (forall y, In y (x :: l) -> fold_left Z.min l x <= y) /\ In (fold_left Z.min l x) (x :: l)).
  { revert x. induction l as [|a l IH]; intros x; cbn [fold_left].
    - split; [intros y [->|[]]; lia|by left].
    - destruct (IH (Z.min x a)) as [Hle Hin]. split.
      + pose proof (Hle _ (or_introl eq_refl)). intros y [Hy|[Hy|Hy]]; [lia|lia|by apply Hle; right].
      + destruct Hin as [Hm|Hm]; [|by right; right]. rewrite <- Hm.
        destruct (Z.min_spec x a) as [[_ ->]|[_ ->]]; [by left|by right; left]. }
  split; [by intros ->|]. intros [Hle Hin]. destruct H as [Hle' Hin'].
  apply Z.le_antisymm; [by apply Hle|by apply Hle'].
Qed.

(** The statements of a chain that is to be believed, leaf first. *)
Record chain_of (a : TrustAnchor) (sts : list Statement) (leaf superior anchor : Statement) : Prop := {
  ch_leaf : sts !! 0%nat = Some leaf;
  ch_superior : sts !! 1%nat = Some superior;
  ch_anchor : last sts = Some anchor;
  (** Who speaks of whom. *)
  ch_about : forall i st next, sts !! i = Some st -> sts !! S i = Some next -> iss st = sub next;
  ch_self : iss leaf = sub leaf /\ iss anchor = ta_entity_id a /\ sub anchor = ta_entity_id a;
  ch_subordinate : forall i st, sts !! i = Some st -> (0 < i < length sts - 1)%nat -> iss st <> sub st;
  ch_acyclic : NoDup (map iss (removelast sts));
  ch_hint : names_superior leaf (iss superior) = true;
  (** And with whose keys. *)
  ch_pinned : signed_under anchor (ta_keys a);
  ch_delegated : forall i st parent, sts !! i = Some st -> sts !! S i = Some parent -> delegated parent st;
  ch_own : delegated anchor anchor /\ delegated leaf leaf
}.

Record trusted (a : TrustAnchor) (tenant : string) (raws : list string) (now : Z) (vc : VerifiedChain) : Prop := {
  tr_tenant : tenant = ta_tenant a;
  tr_length : (3 <= length raws <= MAX_CHAIN_STATEMENTS)%nat;
  tr_statements : exists sts leaf superior anchor,
    Forall2 (fun raw st => Statement.parse raw now = Ok st) raws sts /\ chain_of a sts leaf superior anchor /\
    vc_leaf_entity_id vc = iss leaf /\
    (forall e, In e (map (fun st => sc_exp (st_claims st)) sts) -> vc_expires_at vc <= e) /\
    In (vc_expires_at vc) (map (fun st => sc_exp (st_claims st)) sts) /\
    resolve sts = Ok (vc_metadata vc);
  tr_anchor : vc_anchor_entity_id vc = ta_entity_id a;
  tr_relying_party : TrustAnchor.relying_party_of (vc_metadata vc) = Ok (vc_relying_party vc)
}.

Lemma last_cons_default {A} (a b : A) l : List.last (a :: l) b = List.last l a.
Proof. revert a b. induction l as [|c l IH]; intros a b; [done|]. rewrite (IH c a). apply (IH c b). Qed.

Lemma last_of {A} (b : A) l : last (b :: l) = Some (List.last l b).
Proof. revert b. induction l as [|c l IH]; intros b; [done|]. rewrite last_cons_default. apply (IH c). Qed.

Lemma take_pred {A} (l : list A) : take (pred (length l)) l = removelast l.
Proof. induction l as [|a [|b l] IH]; [done|done|]. cbn [length pred take removelast] in *. by rewrite IH. Qed.

Lemma check_ends_iff a leaf anchor : TrustAnchor.check_ends a leaf anchor = Ok tt <->
  sc_iss leaf = sc_sub leaf /\ sc_iss anchor = ta_entity_id a /\ sc_sub anchor = ta_entity_id a.
Proof. unfold TrustAnchor.check_ends. rewrite !guard_Ok, andb_true_iff, !String.eqb_eq. tauto. Qed.

(** What [validate] checks of the parsed statements. *)
Lemma chain_checked a leaf superior rest :
  let sts := leaf :: superior :: rest in
  let anchor := List.last rest superior in
  (TrustAnchor.check_ends a (st_claims leaf) (st_claims anchor) = Ok tt /\
   check_path 0 (length sts - 1) [] sts = Ok tt /\ names_superior leaf (iss superior) = true /\
   verify_with anchor (ta_keys a) = Ok tt /\ (let? keys := statement_keys anchor in verify_with anchor keys) = Ok tt /\
   verify_links sts = Ok tt /\ (let? keys := statement_keys leaf in verify_with leaf keys) = Ok tt) <->
  chain_of a sts leaf superior anchor.
Proof.
  cbn zeta. rewrite check_ends_iff, check_path_iff, verify_with_iff, !delegated_iff, verify_links_iff, take_pred;
    [|cbn [length]; lia|constructor]. fold (iss leaf) (sub leaf) (iss (List.last rest superior)) (sub (List.last rest superior)).
  split.
  - intros (H1 & (H2 & H3 & H4) & H5 & H6 & H7 & H8 & H9). split; try done.
    rewrite <- (last_cons_default superior leaf). apply (last_of leaf (superior :: rest)).
  - intros [_ _ _ Habout Hself Hsub Hcyc Hhint Hpin Hdel [Ha Hl]]. split_and!; try done; tauto.
Qed.

Lemma parse_current raw now st : Statement.parse raw now = Ok st ->
  sc_iat (st_claims st) < unix_timestamp now < sc_exp (st_claims st).
Proof. unfold Statement.parse. intros H. ok_inv. subst. cbn [st_claims]. bool_hyps. lia. Qed.

Lemma validate_iff a tenant raws now vc :
  TrustAnchor.validate a tenant raws now = Ok vc <-> trusted a tenant raws now vc.
Proof.
  unfold TrustAnchor.validate. rewrite !guard_Ok, String.eqb_eq, andb_true_iff, !Nat.leb_le, rbind_Ok.
  setoid_rewrite try_mapi_Forall2. split.
  - intros (Ht & Hlen & sts & Hsts & H). destruct sts as [|leaf [|superior rest]]; [done..|]. cbn zeta in H.
    apply rbind_unit in H as [H1 H]. apply rbind_unit in H as [H2 H]. apply guard_Ok in H as [H3 H].
    apply rbind_unit in H as [H4 H]. apply rbind_Ok in H as (ka & Hka & H). apply rbind_unit in H as [H5 H].
    apply rbind_unit in H as [H6 H]. apply rbind_Ok in H as (kl & Hkl & H). apply rbind_unit in H as [H7 H].
    apply rbind_Ok in H as (metadata & Hm & H). apply rbind_Ok in H as (rp & Hrp & [= <-]).
    assert (Hc : chain_of a (leaf :: superior :: rest) leaf superior (List.last rest superior)).
    { apply chain_checked. rewrite Hka, Hkl. cbn [rbind]. by split_and!. }
    destruct (proj1 (least_iff (map (fun st => sc_exp (st_claims st)) (superior :: rest)) (sc_exp (st_claims leaf)) _) eq_refl)
      as [Hle Hin].
    split; [done|done| |done|done]. by exists (leaf :: superior :: rest), leaf, superior, (List.last rest superior).
  - intros [Ht Hlen (sts & leaf & superior & anchor & Hsts & Hc & Hl & Hle & Hin & Hr) Ha Hrp].
    split; [done|]. split; [done|]. exists sts. split; [done|].
    pose proof (ch_leaf _ _ _ _ _ Hc) as H0. pose proof (ch_superior _ _ _ _ _ Hc) as H1.
    destruct sts as [|leaf' [|superior' rest]]; [done..|]. injection H0 as ->. injection H1 as ->.
    assert (anchor = List.last rest superior) as ->.
    { pose proof (ch_anchor _ _ _ _ _ Hc) as Hlast. rewrite (last_of leaf (superior :: rest)) in Hlast. rewrite last_cons_default in Hlast. by injection Hlast. }
    apply chain_checked in Hc as (C1 & C2 & C3 & C4 & C5 & C6 & C7). cbn zeta. unfold iss in C3. rewrite C1, C2, C3, C4, C6. cbn [rbind].
    apply rbind_Ok in C5 as (ka & -> & C5), C7 as (kl & -> & C7). cbn [rbind]. rewrite C5, C7. cbn [rbind].
    rewrite Hr. cbn [rbind]. rewrite Hrp. cbn [rbind]. rewrite <- (proj2 (least_iff (map (fun st => sc_exp (st_claims st)) (superior :: rest)) _ _) (conj Hle Hin)).
    change (sc_iss (st_claims leaf)) with (iss leaf). rewrite <- Hl, <- Ha. by destruct vc.
Qed.

(** C27: A chain is accepted exactly where it is to be believed: it leads from the leaf to the
    pinned anchor with each statement about the one before it, no entity twice and the leaf
    asking for its superior; the last statement is signed with the keys pinned for the
    anchor, each other with keys its superior names for it, and each with one key. What is
    concluded is the leaf's, is under every superior's policy, and ends with the first
    statement that does; it has not ended. *)
Theorem chain_accepted_iff a tenant raws now vc :
  (TrustAnchor.validate a tenant raws now = Ok vc <-> trusted a tenant raws now vc) /\
  (TrustAnchor.validate a tenant raws now = Ok vc -> unix_timestamp now < vc_expires_at vc).
Proof.
  split; [apply validate_iff|]. intros [_ _ (sts & _ & _ & _ & Hsts & _ & _ & _ & Hin & _) _ _]%validate_iff.
  apply in_map_iff in Hin as (st & <- & Hin). apply list_elem_of_In, list_elem_of_lookup in Hin as [i Hi].
  destruct (Forall2_lookup_r _ _ _ _ _ Hsts Hi) as (raw & _ & Hp%parse_current). lia.
Qed.

(** *** The configurations on the way *)

Lemma check_intermediates_iff configurations delegations now : (length configurations <= length delegations)%nat ->
  TrustAnchor.check_intermediates configurations delegations now = Ok tt <->
  forall i raw delegating, configurations !! i = Some raw -> delegations !! i = Some delegating ->
    exists c d, Statement.parse raw now = Ok c /\ Statement.parse delegating now = Ok d /\
      iss c = sub c /\ sub c = sub d /\ names_superior c (iss d) = true /\ delegated d c /\ delegated c c.
Proof.
  revert delegations. induction configurations as [|raw configurations IH]; intros [|delegating delegations] Hl;
    [done..|cbn in Hl; lia|].
  cbn [TrustAnchor.check_intermediates length] in *. rewrite rbind_Ok. setoid_rewrite rbind_Ok. split.
  - intros (c & Hc & d & Hd & H). apply guard_Ok in H as [Hi H]. apply guard_Ok in H as [Hn H].
    apply rbind_Ok in H as (kd & Hkd & H). apply rbind_unit in H as [Hv H]. apply rbind_Ok in H as (kc & Hkc & H).
    apply rbind_unit in H as [Hv' H]. rewrite andb_true_iff, !String.eqb_eq in Hi. destruct Hi as [Hi1 Hi2].
    intros [|i] r g Hr Hg; [|by apply (proj1 (IH delegations ltac:(lia)) H i)]. cbn in Hr, Hg. simplify_eq.
    exists c, d. split_and!; try done; apply delegated_iff; apply rbind_Ok; eauto.
  - intros H. destruct (H 0%nat raw delegating eq_refl eq_refl) as (c & d & Hc & Hd & H1 & H2 & H3 & H4 & H5).
    exists c. split; [done|]. exists d. split; [done|]. unfold iss, sub in H1, H2. rewrite H1, H2, !String.eqb_refl. cbn [andb].
    unfold iss in H3. rewrite H3. apply delegated_iff, rbind_Ok in H4 as (kd & Hkd & H4), H5 as (kc & Hkc & H5).
    rewrite Hkd. cbn [rbind]. rewrite H4. cbn [rbind]. rewrite Hkc. cbn [rbind]. rewrite H5. cbn [rbind].
    apply IH; [lia|]. intros i. by apply (H (S i)).
Qed.

(** A chain offered with the configurations that led to it is accepted where the chain
    is, and each entity between speaks for itself: its configuration is its own, is signed
    with keys its superior names for it and with its own, and asks for that superior. *)
Theorem intermediates_accepted_iff a tenant raws configurations now vc :
  TrustAnchor.validate_with_intermediates a tenant raws configurations now = Ok vc <->
  TrustAnchor.validate a tenant raws now = Ok vc /\ length raws = (length configurations + 3)%nat /\
  forall i raw delegating, configurations !! i = Some raw -> raws !! (i + 2)%nat = Some delegating ->
    exists c d, Statement.parse raw now = Ok c /\ Statement.parse delegating now = Ok d /\
      iss c = sub c /\ sub c = sub d /\ names_superior c (iss d) = true /\ delegated d c /\ delegated c c.
Proof.
  unfold TrustAnchor.validate_with_intermediates. rewrite guard_Ok, Nat.eqb_eq, rbind_Ok. split.
  - intros (Hl & v & Hv & H). apply rbind_unit in H as [H [= ->]]. split; [done|]. split; [done|].
    intros i raw g Hr Hg. apply (proj1 (check_intermediates_iff configurations (drop 2 raws) now ltac:(rewrite length_drop; lia)) H i);
      [done|]. by rewrite lookup_drop, Nat.add_comm.
  - intros (Hv & Hl & H). split; [done|]. exists vc. split; [done|]. apply rbind_unit. split; [|done].
    apply check_intermediates_iff; [rewrite length_drop; lia|]. intros i raw g Hr Hg. apply (H i); [done|].
    by rewrite lookup_drop, Nat.add_comm in Hg.
Qed.
End Laws.

(** ** A concrete chain

    Over the environments of [JoseLaws] and [DpopLaws]: a leaf, an intermediate and an
    anchor of one key. *)

Definition fed_header (b : list Z) : option Header :=
  Some {| h_alg := "EdDSA"; h_typ := Some "entity-statement+jwt"%string; h_kid := Some "k"%string; h_crit := None |}.
Definition fed_values (b : list Z) : option value :=
  Some (jobj (if bool_decide (b = [9]) then [("alg", VString "EdDSA"); ("typ", VString "entity-statement+jwt"); ("kid", VString "k")]%string
              else [])).
Definition fed_jose : JoseEnv := plain_env fed_header fed_values.
Definition fed_jwks : value := jobj [("keys", VArray [VObject (jwk_of proof_key "k")])]%string.

Definition words (l : list string) : value := VArray (map VString l).
Definition policy_on (operators : list (string * value)) : object :=
  bmap_of_list [("metadata_policy", jobj [("openid_relying_party", jobj [("grant_types", jobj operators)])])]%string.
Definition fed_claims (b : list Z) : option StatementClaims :=
  let claims iss sub exp hints metadata other :=
    Some {| sc_iss := iss; sc_sub := sub; sc_iat := 100; sc_exp := exp; sc_jwks := fed_jwks; sc_authority_hints := hints;
            sc_metadata := metadata; sc_other := other |} in
  match b with
  | [1] => claims "https://op/leaf" "https://op/leaf" 900 (Some ["https://op/inter"])
             (Some (jobj [("openid_relying_party", jobj [("grant_types", words ["code"; "implicit"])])])) []
  | [2] => claims "https://op/inter" "https://op/leaf" 800 None None (policy_on [("subset_of", words ["code"; "refresh"])])
  | [3] => claims "https://op/anchor" "https://op/inter" 700 None None
             (policy_on [("subset_of", words ["code"]); ("essential", VBool true)])
  | _ => claims "https://op/anchor" "https://op/anchor" 1000 None None []
  end%string.

Definition fed_party : FederationRelyingPartyMetadata := {|
  rp_redirect_uris := None; rp_response_types := None; rp_grant_types := Some ["code"%string];
  rp_client_registration_types := None; rp_token_endpoint_auth_method := None; rp_jwks := None; rp_jwks_uri := None;
  rp_signed_jwks_uri := None; rp_other := [] |}.
Definition fed_env : FederationEnv := {|
  statement_claims := fed_claims; relying_party_metadata := fun _ => Some fed_party; json_len := fun _ => 0 |}.
Definition fed_statement (n : Z) : string :=
  (plain_encode [9] +:+ "." +:+ plain_encode [n] +:+ "." +:+ plain_encode proof_key)%string.
Definition fed_chain : list string := map fed_statement [1; 2; 3; 4].
Definition fed_anchor : TrustAnchor := {|
  ta_tenant := "t"; ta_entity_id := "https://op/anchor";
  ta_keys := {| ks_keys := [{| ck_kid := Some "k"%string; ck_key := {| vk_algorithm := EdDsa; vk_bytes := proof_key |} |}];
                ks_leaf_certificates := [] |} |}.
Definition fed_validate : result VerifiedChain ChainError :=
  TrustAnchor.validate (E := fed_jose) (D := one_host) (F := fed_env) fed_anchor "t" fed_chain (seconds 500).
Definition fed_verified : VerifiedChain := {|
  vc_leaf_entity_id := "https://op/leaf"; vc_anchor_entity_id := "https://op/anchor"; vc_expires_at := 700;
  vc_metadata := jobj [("openid_relying_party", jobj [("grant_types", words ["code"])])]%string;
  vc_relying_party := Some fed_party |}.

Lemma fed_validated : fed_validate = Ok fed_verified.
Proof. vm_compute. reflexivity. Qed.

Lemma chain_accepted_iff_witness :
  trusted (E := fed_jose) (D := one_host) (F := fed_env) fed_anchor "t" fed_chain (seconds 500) fed_verified /\ 500 < 700.
Proof.
  destruct (chain_accepted_iff (E := fed_jose) (D := one_host) (F := fed_env) fed_anchor "t" fed_chain
    (seconds 500) fed_verified) as [H1 H2].
  split; [apply H1; exact fed_validated|]. pose proof (H2 fed_validated) as H. exact H.
Defined.
