(* ===== verification/FederationPolicy.v ===== *)
(** * What is left of a leaf's metadata

    Laws of the policy of [Federation]: merging the superiors' policies loses none of them,
    and the metadata that results obeys each. *)

From S2P Require Import Prelude Text BTree Json Keys Jose Dpop DpopLaws Federation FederationLaws.
Open Scope Z_scope.

(** ** Arrays of strings *)

Lemma value_eqb_string s v : value_eqb (VString s) v = true <-> v = VString s.
Proof. destruct v; cbn; try (split; [done|congruence]). rewrite String.eqb_eq. split; congruence. Qed.

Lemma value_in_string s l : value_in (VString s) l = true <-> In (VString s) l.
Proof.
  unfold value_in. rewrite existsb_exists. setoid_rewrite value_eqb_string. split; [by intros (v & Hv & ->)|eauto].
Qed.

Lemma value_in_strings v ss : value_in v (map VString ss) = true -> exists s, v = VString s /\ In s ss.
Proof.
  unfold value_in. rewrite existsb_exists. intros (w & (s & <- & Hs)%in_map_iff & Hv).
  exists s. split; [|done]. destruct v; try done. cbn in Hv. by apply String.eqb_eq in Hv as ->.
Qed.

Lemma strings_Ok v what l : strings v what = Ok l <-> v = VArray (map VString l).
Proof.
  unfold strings. rewrite rbind_Ok. setoid_rewrite ok_or_Ok. split.
  - intros (items & Hv & H). destruct v; try done. injection Hv as ->. f_equal. clear -H. revert H. generalize 0%nat.
    revert l. induction items as [|i items IH]; intros l n H; cbn in H; [by injection H as <-|].
    apply rbind_Ok in H as (s & Hs & H). apply rbind_Ok in H as (r & Hr & [= <-]). cbn. f_equal; [|by eapply IH].
    by destruct i; simplify_eq/=.
  - intros ->. eexists. split; [done|]. generalize 0%nat. induction l as [|s l IH]; intros n; [done|]. cbn. by rewrite IH.
Qed.

Lemma In_strings_map s l : In (VString s) (map VString l) <-> In s l.
Proof. rewrite in_map_iff. split; [by intros (? & [= ->] & ?)|eauto]. Qed.

(** [v] is an array that has the string [s]. *)
Definition holds (s : string) (v : value) : Prop := exists items, v = VArray items /\ In (VString s) items.

Lemma holds_strings s l : holds s (VArray (map VString l)) <-> In s l.
Proof. unfold holds. split; [intros (? & [= <-] & H); by apply In_strings_map|intros H; eexists; split; [done|by apply In_strings_map]]. Qed.

Lemma holds_array v items s : as_array v = Some items -> holds s v <-> In (VString s) items.
Proof. destruct v; try done. intros [= ->]. split; [by intros (? & [= <-] & ?)|by exists items]. Qed.

Lemma add_missing_keeps next current v : In v current -> In v (add_missing next current).
Proof.
  unfold add_missing. revert current. induction next as [|n next IH]; intros current H; [done|]. cbn. apply IH.
  destruct (value_in n current); [done|]. apply in_app_iff. by left.
Qed.

Lemma add_missing_adds next current s : In (VString s) next -> In (VString s) (add_missing next current).
Proof.
  revert current. induction next as [|n next IH]; intros current; [done|]. intros [->|H]; [|by apply IH].
  change (add_missing (VString s :: next) current)
    with (add_missing next (if value_in (VString s) current then current else current ++ [VString s])).
  apply add_missing_keeps. destruct (value_in _ _) eqn:Hv; [by apply value_in_string|]. apply in_app_iff. right. by left.
Qed.

Lemma add_missing_id next current : values_in next current = true -> add_missing next current = current.
Proof.
  unfold values_in, add_missing. induction next as [|n next IH]; [done|]. cbn. intros [Hn H]%andb_true_iff. by rewrite Hn, IH.
Qed.

(** ** Merging *)

(** What a merged operand says of the operand it was merged from. *)
Definition stronger (op : string) (y x : value) : Prop :=
  if in_strings op ["value"; "default"]%string then y = x \/ value_eqb y x = true
  else if String.eqb op "essential" then x = VBool true -> y = VBool true
  else if in_strings op ["add"; "superset_of"]%string then forall s, holds s x -> holds s y
  else if in_strings op ["one_of"; "subset_of"]%string then forall s, holds s y -> holds s x
  else True.

Lemma stronger_refl op x : stronger op x x.
Proof. unfold stronger. repeat case_match; auto. Qed.

(** The members of the two array merges. *)
Lemma merged_arrays op current next m : merge_operator op current next = Ok m ->
  stronger op m next /\ forall x, stronger op current x -> stronger op m x.
Proof.
  unfold merge_operator, stronger. destruct (in_strings op ["value"; "default"]%string).
  { destruct (value_eqb current next) eqn:Hv; [|done]. intros [= <-]. auto. }
  destruct (String.eqb op "essential").
  { intros [= <-]. split; [intros ->; by rewrite orb_true_r|]. intros x Hx ->. by rewrite (Hx eq_refl). }
  destruct (in_strings op ["add"; "superset_of"]%string).
  { intros H. ok_inv. subst. split.
    - intros s Hs. apply (holds_array _ _ _ E0) in Hs. eexists. split; [done|]. by apply add_missing_adds.
    - intros x Hx s Hs. apply Hx in Hs. apply (holds_array _ _ _ E) in Hs. eexists. split; [done|]. by apply add_missing_keeps. }
  destruct (in_strings op ["one_of"; "subset_of"]%string); [|intros; done].
  intros H. ok_inv. subst. split.
  - intros s (items & [= <-] & [_ Hs%value_in_string]%filter_In). by apply (holds_array _ _ _ E).
  - intros x Hx s (items & [= <-] & [Hs _]%filter_In). apply Hx. by apply (holds_array _ _ _ E0).
Qed.

(** [C] has, for a parameter of an entity type, an operand that says as much as [x]. *)
Definition has_operand (n op : string) (x : value) (target : object) : Prop :=
  exists ps y, bget n target = Some (VObject ps) /\ bget op ps = Some y /\ stronger op y x.
Definition has_policy (t n op : string) (x : value) (C : object) : Prop :=
  exists target, bget t C = Some (VObject target) /\ has_operand n op x target.

Lemma merge_one_keeps op y x entry ps ps' : bget op ps = Some y -> stronger op y x -> merge_one entry ps = Ok ps' ->
  exists y', bget op ps' = Some y' /\ stronger op y' x.
Proof.
  destruct entry as [op' v]. intros Hy Hs H. unfold merge_one in H. destruct (negb _); [injection H as <-; eauto|].
  destruct (decide (op' = op)) as [->|Hne].
  - rewrite Hy in H. apply rbind_Ok in H as (m & Hm & [= <-]). rewrite bget_binsert_eq.
    exists m. split; [done|]. by apply (proj2 (merged_arrays _ _ _ _ Hm)).
  - destruct (bget op' ps); [apply rbind_Ok in H as (m & _ & [= <-])|injection H as <-]; rewrite bget_binsert_ne by done; eauto.
Qed.

Lemma merge_one_adds op x ps ps' : in_strings op OPERATORS = true -> merge_one (op, x) ps = Ok ps' ->
  exists y, bget op ps' = Some y /\ stronger op y x.
Proof.
  intros Ho H. unfold merge_one in H. rewrite Ho in H. cbn [negb] in H. destruct (bget op ps) as [p|].
  - apply rbind_Ok in H as (m & Hm & [= <-]). rewrite bget_binsert_eq. exists m. split; [done|]. apply (proj1 (merged_arrays _ _ _ _ Hm)).
  - injection H as <-. rewrite bget_binsert_eq. exists x. split; [done|apply stronger_refl].
Qed.

Lemma entry_of_Ok n m what o : entry_of n m what = Ok o <->
  bget n m = Some (VObject o) \/ bget n m = None /\ o = [].
Proof.
  unfold entry_of, object_of. rewrite ok_or_Ok. destruct (bget n m) as [v|]; cbn; [|naive_solver].
  destruct v; cbn; naive_solver.
Qed.

Lemma merge_parameter_keeps n op x entry target target' :
  has_operand n op x target -> merge_parameter entry target = Ok target' -> has_operand n op x target'.
Proof.
  destruct entry as [n' operators]. intros (ps & y & Hn & Hy & Hs) H. unfold merge_parameter in H.
  apply rbind_Ok in H as (ops & _ & H). apply rbind_Ok in H as ([] & _ & H). apply rbind_Ok in H as (e & He & H).
  apply rbind_Ok in H as (e' & He' & H). apply rbind_Ok in H as ([] & _ & [= <-]). unfold has_operand.
  destruct (decide (n' = n)) as [->|Hne]; [|rewrite bget_binsert_ne by done; eauto]. rewrite bget_binsert_eq.
  apply entry_of_Ok in He as [He|[He _]]; [|congruence]. assert (e = ps) as -> by congruence.
  pose proof (try_fold_invariant (fun ps => exists y, bget op ps = Some y /\ stronger op y x) _ _ _ _
    (fun a s s' '(ex_intro _ y (conj Hy Hs)) H => merge_one_keeps op y x a s s' Hy Hs H) (ex_intro _ y (conj Hy Hs)) He')
    as (y' & ? & ?). by exists e', y'.
Qed.

Lemma merge_parameter_adds n ops op x target target' : In (op, x) ops -> in_strings op OPERATORS = true ->
  merge_parameter (n, VObject ops) target = Ok target' -> has_operand n op x target'.
Proof.
  intros Hin Ho H. unfold merge_parameter in H. cbn [object_of as_object ok_or rbind] in H.
  apply rbind_Ok in H as ([] & _ & H). apply rbind_Ok in H as (e & He & H).
  apply rbind_Ok in H as (e' & He' & H). apply rbind_Ok in H as ([] & _ & [= <-]). unfold has_operand.
  rewrite bget_binsert_eq.
  pose proof (try_fold_reaches (fun ps => exists y, bget op ps = Some y /\ stronger op y x) _ _ _ _ _ Hin
    (fun s s' => merge_one_adds op x s s' Ho)
    (fun a s s' '(ex_intro _ y (conj Hy Hs)) H => merge_one_keeps op y x a s s' Hy Hs H) He')
    as (y' & ? & ?). by exists e', y'.
Qed.

Lemma merge_type_keeps t n op x entry C C' : has_policy t n op x C -> merge_type entry C = Ok C' -> has_policy t n op x C'.
Proof.
  destruct entry as [t' fields]. intros (target & Ht & Hp) H. unfold merge_type in H.
  apply rbind_Ok in H as (fs & _ & H). apply rbind_Ok in H as (e & He & H). apply rbind_Ok in H as (e' & He' & [= <-]).
  unfold has_policy. destruct (decide (t' = t)) as [->|Hne]; [|rewrite bget_binsert_ne by done; eauto].
  rewrite bget_binsert_eq. apply entry_of_Ok in He as [He|[He _]]; [|congruence]. assert (e = target) as -> by congruence.
  exists e'. split; [done|]. eapply try_fold_invariant; [|exact Hp|exact He']. apply merge_parameter_keeps.
Qed.

Lemma merge_type_adds t n op x fs ops C C' : In (n, VObject ops) fs -> In (op, x) ops -> in_strings op OPERATORS = true ->
  merge_type (t, VObject fs) C = Ok C' -> has_policy t n op x C'.
Proof.
  intros Hn Hop Ho H. unfold merge_type in H. cbn [object_of as_object ok_or rbind] in H.
  apply rbind_Ok in H as (e & He & H). apply rbind_Ok in H as (e' & He' & [= <-]).
  exists e'. split; [apply bget_binsert_eq|]. eapply try_fold_reaches; [exact Hn| | |exact He'].
  - intros s s'. by apply merge_parameter_adds.
  - apply merge_parameter_keeps.
Qed.

Lemma merge_policy_keeps t n op x incoming C C' : has_policy t n op x C -> merge_policy C incoming = Ok C' -> has_policy t n op x C'.
Proof. intros Hp H. eapply try_fold_invariant; [|exact Hp|exact H]. apply merge_type_keeps. Qed.

Lemma merge_policy_adds t n op x fs ops incoming C C' :
  In (t, VObject fs) incoming -> In (n, VObject ops) fs -> In (op, x) ops -> in_strings op OPERATORS = true ->
  merge_policy C incoming = Ok C' -> has_policy t n op x C'.
Proof.
  intros Ht Hn Hop Ho H. eapply try_fold_reaches; [exact Ht| | |exact H].
  - intros s s'. by apply merge_type_adds with ops.
  - apply merge_type_keeps.
Qed.

(** The shape of what is merged. *)
Definition parameters_ok (target : object) : Prop :=
  bmap_ok target /\ forall n w, bget n target = Some w -> exists ps, w = VObject ps /\ validate_operators ps = Ok tt.
Definition policy_ok (C : object) : Prop :=
  bmap_ok C /\ forall t v, bget t C = Some v -> exists target, v = VObject target /\ parameters_ok target.

Lemma merge_policy_ok C incoming C' : policy_ok C -> merge_policy C incoming = Ok C' -> policy_ok C'.
Proof.
  intros HC H. eapply try_fold_invariant; [|exact HC|exact H]. clear. intros [t fields] C C' [Hok HC] H.
  unfold merge_type in H. apply rbind_Ok in H as (fs & _ & H). apply rbind_Ok in H as (e & He & H).
  apply rbind_Ok in H as (e' & He' & [= <-]). split; [by apply binsert_ok|]. intros t' v Hv.
  destruct (decide (t = t')) as [->|Hne]; [|rewrite bget_binsert_ne in Hv by done; by apply (HC t')].
  rewrite bget_binsert_eq in Hv. injection Hv as <-. exists e'. split; [done|].
  assert (Hs : parameters_ok e).
  { apply entry_of_Ok in He as [He|[_ ->]]; [destruct (HC _ _ He) as (? & [= <-] & ?); done|]. split; [constructor|done]. }
  eapply (try_fold_invariant parameters_ok); [|exact Hs|exact He']. clear. intros [n ops] m m' [Hm Hw] H.
  unfold merge_parameter in H. apply rbind_Ok in H as (o & _ & H). apply rbind_Ok in H as ([] & _ & H).
  apply rbind_Ok in H as (e & _ & H). apply rbind_Ok in H as (e' & _ & H). apply rbind_Ok in H as ([] & Hv & [= <-]).
  split; [by apply binsert_ok|]. intros n' w Hn'. destruct (decide (n = n')) as [->|Hne].
  - rewrite bget_binsert_eq in Hn'. injection Hn' as <-. by exists e'.
  - rewrite bget_binsert_ne in Hn' by done. by apply (Hw n').
Qed.

(** ** Applying *)

(** That a value, or its absence, obeys an operator. *)
Definition obeys (op : string) (x : value) (o : option value) : Prop :=
  if String.eqb op "value" then match o with None => x = VNull | Some v => v = x \/ value_eqb v x = true end
  else if String.eqb op "default" then o <> None
  else if String.eqb op "essential" then x = VBool true -> o <> None
  else if String.eqb op "add" then exists v, o = Some v /\ forall s, holds s x -> holds s v
  else if String.eqb op "superset_of" then forall v, o = Some v -> forall s, holds s x -> holds s v
  else if String.eqb op "one_of" then forall v, o = Some v -> exists s, v = VString s /\ holds s x
  else if String.eqb op "subset_of"
  then forall v, o = Some v -> exists items, v = VArray items /\ forall i, In i items -> exists s, i = VString s /\ holds s x
  else True.

Lemma operator_cases op : in_strings op OPERATORS = true ->
  op = "value"%string \/ op = "add"%string \/ op = "default"%string \/ op = "one_of"%string \/ op = "subset_of"%string \/
  op = "superset_of"%string \/ op = "essential"%string.
Proof. intros H%in_strings_In. cbn in H. intuition congruence. Qed.

(** That of a merged operand, exactly. *)
Definition obeys_merged (op : string) (y : value) (o : option value) : Prop :=
  if String.eqb op "value" then o = (if is_null y then None else Some y) else obeys op y o.

Lemma obeys_stronger op y x o : in_strings op OPERATORS = true -> stronger op y x -> obeys_merged op y o -> obeys op x o.
Proof.
  intros Ho. apply operator_cases in Ho. unfold stronger, obeys_merged, obeys.
  destruct Ho as [->|[->|[->|[->|[->|[->| ->]]]]]]; cbn [String.eqb Ascii.eqb Bool.eqb in_strings orb].
  - intros [->|Hs] ->; [destruct x; cbn; auto|]. destruct y; cbn in *; auto. by destruct x.
  - intros Hs (v & -> & Hv). exists v. auto.
  - done.
  - intros Hs Hv v Hov. destruct (Hv v Hov) as (s & -> & H). eauto.
  - intros Hs Hv v Hov. destruct (Hv v Hov) as (items & -> & H). exists items. split; [done|].
    intros i Hi. destruct (H i Hi) as (s & -> & H'). eauto.
  - intros Hs Hv v Hov s Hx. eauto.
  - auto.
Qed.

Lemma validated_operator ps op y : validate_operators ps = Ok tt -> bget op ps = Some y -> validate_operator op y = Ok tt.
Proof.
  unfold validate_operators. intros H Hy%bget_In. apply rbind_Ok in H as ([] & H & _). clear -H Hy.
  induction ps as [|[n v] ps IH]; [done|]. cbn in H. apply rbind_Ok in H as ([] & Hv & H).
  destruct Hy as [[= -> ->]|Hy]; [done|by apply IH].
Qed.

Lemma validated_array ps op y : validate_operators ps = Ok tt -> bget op ps = Some y ->
  in_strings op ["add"; "one_of"; "subset_of"; "superset_of"]%string = true -> exists l, y = VArray (map VString l).
Proof.
  intros Hp Hy Ho. pose proof (validated_operator _ _ _ Hp Hy) as H. unfold validate_operator in H.
  apply in_strings_In in Ho. cbn in Ho.
  destruct Ho as [<-|[<-|[<-|[<-|[]]]]]; cbn in H; apply rbind_Ok in H as (l & H%strings_Ok & _); eauto.
Qed.

Lemma compared ps small big a b what s l : compare_operators ps small big a b what = Ok tt ->
  bget small ps = Some (VArray (map VString s)) -> bget big ps = Some (VArray (map VString l)) -> forall x, In x s -> In x l.
Proof.
  unfold compare_operators. intros H Hs Hl x Hx. rewrite Hs, Hl in H.
  rewrite (proj2 (strings_Ok _ _ s) eq_refl), (proj2 (strings_Ok _ _ l) eq_refl) in H. cbn [rbind] in H.
  destruct (forallb _ _) eqn:Hf; [|done]. rewrite forallb_forall in Hf. by apply in_strings_In, Hf.
Qed.

Lemma has_member_false ps n : has_member ps n = false <-> bget n ps = None.
Proof. unfold has_member. rewrite bool_decide_eq_false, eq_None_not_Some. done. Qed.

Lemma array_in_Some add big : array_in (Some (VArray add)) big = values_in add big.
Proof. done. Qed.

(** What a fixed value is with the others. *)
Lemma validate_value_Ok ps v : validate_value ps v = Ok tt ->
  (v = VNull -> bget "default"%string ps = None) /\
  (forall l, bget "add"%string ps = Some (VArray l) -> exists items, v = VArray items /\ values_in l items = true) /\
  (forall l, bget "subset_of"%string ps = Some (VArray l) -> exists items, v = VArray items /\ values_in items l = true).
Proof.
  unfold validate_value. intros H. apply guard_Ok in H as [Hd H]. apply guard_Ok in H as [_ H].
  apply rbind_unit in H as [Ha H]. apply rbind_unit in H as [Hs _]. split; [|split].
  - intros ->. apply negb_true_iff in Hd. cbn [is_null andb] in Hd. by apply has_member_false.
  - intros l Hl. rewrite Hl in Ha. apply rbind_Ok in Ha as (items & Hv & Ha). apply ok_or_Ok in Hv.
    apply guard_Ok in Ha as [Ha _]. exists items. split; [|done]. destruct v; try done. by injection Hv as ->.
  - intros l Hl. rewrite Hl in Hs. apply rbind_Ok in Hs as (items & Hv & Hs). apply ok_or_Ok in Hv.
    apply guard_Ok in Hs as [Hs _]. exists items. split; [|done]. destruct v; try done. by injection Hv as ->.
Qed.

Lemma validate_operators_Ok ps : validate_operators ps = Ok tt ->
  (bget "one_of"%string ps <> None -> bget "add"%string ps = None /\ bget "subset_of"%string ps = None) /\
  (forall v, bget "value"%string ps = Some v -> validate_value ps v = Ok tt) /\
  (forall s l, bget "add"%string ps = Some (VArray (map VString s)) ->
     bget "subset_of"%string ps = Some (VArray (map VString l)) -> forall x, In x s -> In x l).
Proof.
  unfold validate_operators. intros H. apply rbind_unit in H as [_ H]. apply guard_Ok in H as [Ho H].
  apply rbind_unit in H as [_ H]. apply rbind_unit in H as [Hv H]. apply rbind_unit in H as [Ha _]. split; [|split].
  - intros Hone. apply negb_true_iff, andb_false_iff in Ho as [Ho%has_member_false|Ho]; [done|]. cbn in Ho.
    rewrite !orb_false_iff, !has_member_false in Ho. tauto.
  - intros v Hb. by rewrite Hb in Hv.
  - intros s l Hs Hl. by eapply compared.
Qed.

(** ** The stages of [apply_operators] *)

Definition fixed (ps : object) (v : option value) : Prop :=
  forall y, bget "value"%string ps = Some y -> v = (if is_null y then None else Some y).

Lemma apply_add_spec ps v w : validate_operators ps = Ok tt -> apply_add ps v = Ok w ->
  (fixed ps v -> fixed ps w) /\
  (forall y, bget "add"%string ps = Some y -> exists l, w = Some (VArray l) /\ forall s, holds s y -> In (VString s) l).
Proof.
  intros Hp H. unfold apply_add in H. destruct (bget "add"%string ps) as [add|] eqn:Ha; [|by injection H as <-].
  destruct (validated_array _ _ _ Hp Ha eq_refl) as [l ->]. cbn [as_array ok_or rbind] in H.
  apply rbind_Ok in H as (items & Hi & [= <-]). apply ok_or_Ok in Hi. split.
  - intros Hf y Hy. pose proof (Hf y Hy) as ->. apply validate_operators_Ok in Hp as (_ & Hv & _).
    destruct (proj1 (proj2 (validate_value_Ok _ _ (Hv y Hy))) _ Ha) as (items' & -> & Hin). cbn in Hi. injection Hi as ->.
    cbn [is_null]. by rewrite add_missing_id.
  - intros y [= <-]. eexists. split; [done|]. intros s Hs%holds_strings. by apply add_missing_adds, In_strings_map.
Qed.

Lemma apply_default_spec ps v : validate_operators ps = Ok tt ->
  (fixed ps v -> fixed ps (apply_default ps v)) /\ (bget "default"%string ps <> None -> apply_default ps v <> None) /\
  (forall u, v = Some u -> apply_default ps v = v).
Proof.
  intros Hp. split; [|split; [by destruct v|by intros u ->]]. intros Hf y Hy. pose proof (Hf y Hy) as ->.
  destruct (is_null y) eqn:Hn; [|done]. destruct y; try done. cbn.
  apply validate_operators_Ok in Hp as (_ & Hv & _). by apply (validate_value_Ok _ _ (Hv _ Hy)).
Qed.

Lemma apply_subset_spec ps v w : validate_operators ps = Ok tt -> apply_subset ps v = Ok w ->
  (fixed ps v -> fixed ps w) /\ (v <> None -> w <> None) /\
  (forall y, bget "subset_of"%string ps = Some y -> forall u, w = Some u ->
     exists items, u = VArray items /\ forall i, In i items -> exists s, i = VString s /\ holds s y) /\
  (forall l s x, v = Some (VArray l) -> bget "add"%string ps = Some (VArray (map VString s)) -> In x s -> In (VString x) l ->
     exists l', w = Some (VArray l') /\ In (VString x) l') /\
  (bget "subset_of"%string ps = None -> w = v).
Proof.
  intros Hp H. unfold apply_subset in H. destruct (bget "subset_of"%string ps) as [y|] eqn:Hy.
  2: { injection H as <-. split_and!; try done. intros l s x ->. eauto. }
  destruct v as [v|]; [|injection H as <-; by split_and!].
  destruct (validated_array _ _ _ Hp Hy eq_refl) as [l ->]. apply rbind_Ok in H as (items & Hi & H). apply ok_or_Ok in Hi.
  cbn [as_array ok_or rbind] in H. injection H as <-. destruct v; try done. injection Hi as ->.
  apply validate_operators_Ok in Hp as (_ & Hv & Hadd). split_and!; try done.
  - intros Hf y Hfix. pose proof (Hf y Hfix) as Hy'. destruct (proj2 (proj2 (validate_value_Ok _ _ (Hv y Hfix))) _ Hy) as (it & -> & Hin).
    cbn [is_null] in *. injection Hy' as ->. rewrite (filter_all _ true); [done|]. unfold values_in in Hin.
    rewrite forallb_forall in Hin. apply Forall_forall. intros i Hi. by apply Hin, list_elem_of_In.
  - intros y [= <-] u [= <-]. eexists. split; [done|]. intros i [_ Hi]%filter_In. apply value_in_strings in Hi as (s & -> & Hs).
    exists s. split; [done|]. by apply holds_strings.
  - intros l' s x [= <-] Ha Hx Hin. eexists. split; [done|]. apply filter_In. split; [done|].
    apply value_in_string, In_strings_map. by apply (Hadd s l Ha Hy).
Qed.

Lemma apply_operators_obeys n ps f o op y : validate_operators ps = Ok tt -> apply_operators n ps f = Ok o ->
  bget op ps = Some y -> in_strings op OPERATORS = true -> obeys_merged op y o.
Proof.
  intros Hp H Hy Ho. unfold apply_operators in H. apply rbind_Ok in H as (v1 & H1 & H). cbn zeta in H.
  apply rbind_unit in H as [H2 H]. apply rbind_Ok in H as (v3 & H3 & H). apply rbind_unit in H as [H4 H].
  apply guard_Ok in H as [H5 [= ->]].
  destruct (apply_add_spec _ _ _ Hp H1) as [A1 A2]. destruct (apply_default_spec ps v1 Hp) as (D1 & D2 & D3).
  destruct (apply_subset_spec _ _ _ Hp H3) as (S1 & S2 & S3 & S4 & S5).
  apply operator_cases in Ho. unfold obeys_merged, obeys.
  destruct Ho as [->|[->|[->|[->|[->|[->| ->]]]]]]; cbn [String.eqb Ascii.eqb Bool.eqb].
  - refine (S1 (D1 (A1 _)) y Hy). intros y' Hy'. unfold apply_value. by rewrite Hy'.
  - destruct (A2 y Hy) as (l & -> & Hl). rewrite (D3 _ eq_refl) in *.
    destruct (validated_array _ _ _ Hp Hy eq_refl) as [ss ->]. destruct o as [w|]; [|by destruct S2].
    exists w. split; [done|]. intros s Hs. pose proof (Hl s Hs) as Hin. apply holds_strings in Hs.
    destruct (S4 l ss s eq_refl Hy Hs Hin) as (l' & [= ->] & Hin'). by exists l'.
  - apply S2, D2. congruence.
  - intros v Hv. destruct (validated_array _ _ _ Hp Hy eq_refl) as [l ->].
    apply validate_operators_Ok in Hp as ([_ Hsub] & _); [congruence|]. rewrite (S5 Hsub) in Hv. unfold apply_one_of in H2.
    rewrite Hy, Hv in H2. apply guard_Ok in H2 as [H2 _]. apply value_in_strings in H2 as (s & -> & Hs).
    exists s. split; [done|]. by apply holds_strings.
  - intros u Hu. by apply S3.
  - intros u ->. unfold apply_superset in H4. rewrite Hy in H4. apply rbind_Ok in H4 as (items & Hi & H4).
    apply ok_or_Ok in Hi. apply guard_Ok in H4 as [H4 _]. destruct (validated_array _ _ _ Hp Hy eq_refl) as [l ->].
    cbn in H4. unfold values_in in H4. rewrite forallb_forall in H4. intros s Hs%holds_strings. apply (holds_array _ _ _ Hi).
    by apply value_in_string, H4, In_strings_map.
  - intros -> ->. by rewrite Hy in H5.
Qed.

(** ** The leaf's metadata *)

(** What is stored for a value: a scope as one string, the rest as they are. *)
Definition stored (n : string) (o field : option value) : Prop :=
  match o with None => field = None | Some v => exists w, stored_value n v = Ok w /\ field = Some w end.

Definition obeyed_by (n : string) (ps fields : object) : Prop :=
  exists o, stored n o (bget n fields) /\
    forall op y, bget op ps = Some y -> in_strings op OPERATORS = true -> obeys_merged op y o.

Lemma apply_parameter_obeys n ps fields fields' : validate_operators ps = Ok tt ->
  apply_parameter (n, VObject ps) fields = Ok fields' -> obeyed_by n ps fields'.
Proof.
  intros Hp H. unfold apply_parameter in H. cbn [object_of as_object ok_or rbind] in H. apply rbind_Ok in H as (o & Ho & H).
  exists o. split; [|intros op y Hy Hin; exact (apply_operators_obeys _ _ _ _ _ _ Hp Ho Hy Hin)]. destruct o as [v|].
  - apply rbind_Ok in H as (w & Hw & [= <-]). exists w. by rewrite bget_binsert_eq.
  - injection H as <-. cbn. by rewrite bget_bremove, String.eqb_refl.
Qed.

Lemma apply_parameter_other n n' v fields fields' : n' <> n -> apply_parameter (n', v) fields = Ok fields' ->
  bget n fields' = bget n fields.
Proof.
  intros Hne H. unfold apply_parameter in H. apply rbind_Ok in H as (ps & _ & H). apply rbind_Ok in H as (o & _ & H).
  destruct o as [w|]; [apply rbind_Ok in H as (s & _ & [= <-]); by apply bget_binsert_ne|]. injection H as <-.
  rewrite bget_bremove. destruct (String.eqb_spec n n'); congruence.
Qed.

Definition type_obeys (t : string) (target types : object) : Prop :=
  forall v, bget t types = Some v -> exists fields, v = VObject fields /\
    forall n ps, bget n target = Some (VObject ps) -> obeyed_by n ps fields.

Lemma apply_type_obeys t target types types' : parameters_ok target ->
  apply_type (t, VObject target) types = Ok types' -> type_obeys t target types'.
Proof.
  intros [Hok Hps] H v Hv. unfold apply_type in H. destruct (bget t types) as [w|] eqn:Hw; [|injection H as <-; congruence].
  apply rbind_Ok in H as (fields & _ & H). cbn [object_of as_object ok_or rbind] in H.
  apply rbind_Ok in H as (fields' & Hf & [= <-]). rewrite bget_binsert_eq in Hv. injection Hv as <-.
  exists fields'. split; [done|]. intros n ps Hn. destruct (Hps n _ Hn) as (ps' & [= <-] & Hval).
  refine (try_fold_keyed (obeyed_by n ps) _ _ _ _ _ _ (bmap_ok_NoDup _ Hok) (bget_In _ _ _ Hn) _ _ Hf).
  - intros s s'. by apply apply_parameter_obeys.
  - intros n' v' s s' Hne Hs Hs'. unfold obeyed_by. by rewrite (apply_parameter_other n n' v' s s').
Qed.

Lemma apply_type_other t t' v types types' : t' <> t -> apply_type (t', v) types = Ok types' -> bget t types' = bget t types.
Proof.
  intros Hne H. unfold apply_type in H. destruct (bget t' types); [|by injection H as <-].
  apply rbind_Ok in H as (fields & _ & H). apply rbind_Ok in H as (ps & _ & H). apply rbind_Ok in H as (fs & _ & [= <-]).
  by apply bget_binsert_ne.
Qed.

Lemma apply_type_keys t entry types types' : apply_type entry types = Ok types' -> is_Some (bget t types') -> is_Some (bget t types).
Proof.
  destruct entry as [t' v]. intros H. unfold apply_type in H. destruct (bget t' types) eqn:Ht; [|by injection H as <-].
  apply rbind_Ok in H as (fields & _ & H). apply rbind_Ok in H as (ps & _ & H). apply rbind_Ok in H as (fs & _ & [= <-]).
  destruct (decide (t' = t)) as [->|Hne]; [by rewrite Ht|by rewrite bget_binsert_ne].
Qed.

Lemma apply_policy_obeys C types types' t target : policy_ok C -> apply_policy C types = Ok types' ->
  bget t C = Some (VObject target) -> type_obeys t target types'.
Proof.
  intros [Hok HC] H Ht. destruct (HC t _ Ht) as (target' & [= <-] & Hps).
  refine (try_fold_keyed (type_obeys t target) _ _ _ _ _ _ (bmap_ok_NoDup _ Hok) (bget_In _ _ _ Ht) _ _ H).
  - intros s s'. by apply apply_type_obeys.
  - intros t' v s s' Hne Hs Hs'. unfold type_obeys. by rewrite (apply_type_other t t' v s s').
Qed.

Lemma apply_policy_keys C types types' t : apply_policy C types = Ok types' -> is_Some (bget t types') -> is_Some (bget t types).
Proof.
  intros H. eapply (try_fold_invariant (fun s => is_Some (bget t s) -> is_Some (bget t types))); [|done|exact H].
  intros entry s s' Hs Hs' Hk. by apply Hs, (apply_type_keys t entry s s').
Qed.

(** ** The superiors *)

Section Superiors.
Context {D : DpopEnv}.

Definition constraint (st : Statement) (name : string) : option value := other_member st "constraints" ≫= vget name.

(** No more intermediates below it than it allows. *)
Definition path_ok (i : nat) (st : Statement) : Prop :=
  forall k, constraint st "max_path_length" = Some (VNumber (PosInt k)) -> Z.of_nat (i - 1) <= k.

(** The hosts below it are among those it permits and none of those it excludes. *)
Definition names_ok (chain : list Statement) (i : nat) (st : Statement) : Prop :=
  forall names id, constraint st "naming_constraints" = Some (VObject names) -> In id (subordinates i chain) ->
    exists url host, url_parse id = Some url /\ url_host_str url = Some host /\
      (forall l, bget "permitted"%string names = Some (VArray l) -> exists p, In (VString p) l /\ dns_match host p = true) /\
      (forall l p, bget "excluded"%string names = Some (VArray l) -> In (VString p) l -> dns_match host p = false).

Definition types_ok (st : Statement) (types : object) : Prop :=
  forall allowed t, constraint st "allowed_entity_types" = Some (VArray allowed) -> is_Some (bget t types) ->
    t = "federation_entity"%string \/ In (VString t) allowed.

(** An operator of a statement's policy. *)
Definition demands (st : Statement) (t n op : string) (x : value) : Prop :=
  exists policy fs ops, other_member st "metadata_policy" = Some (VObject policy) /\ In (t, VObject fs) policy /\
    In (n, VObject ops) fs /\ In (op, x) ops /\ in_strings op OPERATORS = true.

Definition recorded (chain : list Statement) (i : nat) (st : Statement) (state : object * object) : Prop :=
  (forall t n op x, demands st t n op x -> has_policy t n op x (fst state)) /\ types_ok st (snd state) /\
  path_ok i st /\ names_ok chain i st.

Lemma strings_opt_array v what l : strings_opt v what = Ok l ->
  (forall items, v = Some (VArray items) -> exists ss, l = Some ss /\ items = map VString ss).
Proof.
  intros H items ->. unfold strings_opt in H. apply rbind_Ok in H as (ss & Hs%strings_Ok & [= <-]).
  injection Hs as ->. by exists ss.
Qed.

Lemma check_names_ok c i chain st : other_member st "constraints" = Some (VObject c) -> check_names c i chain = Ok tt ->
  names_ok chain i st.
Proof.
  intros Hc H names eid Hn Hid. unfold constraint in Hn. rewrite Hc in Hn. cbn in Hn. unfold check_names in H. rewrite Hn in H.
  cbn [object_of as_object ok_or rbind] in H. apply rbind_Ok in H as (permitted & Hp & H).
  apply rbind_Ok in H as (excluded & He & H). cbn zeta in H. apply rbind_unit in H as [_ H].
  assert (Hone : check_name permitted (from_option id [] excluded) eid = Ok tt).
  { clear -H Hid. induction (subordinates i chain) as [|j l IH]; [done|]. cbn in H. apply rbind_Ok in H as ([] & Hj & H).
    destruct Hid as [->|Hid]; [done|by apply IH]. }
  unfold check_name in Hone. apply rbind_Ok in Hone as (url & Hu%ok_or_Ok & Hone).
  apply rbind_Ok in Hone as (host & Hh%ok_or_Ok & Hone). apply guard_Ok in Hone as [Hb _]. exists url, host.
  apply negb_true_iff, orb_false_iff in Hb as [Hx Hb]. split; [done|]. split; [done|]. split.
  - intros l Hl. destruct (strings_opt_array _ _ _ Hp _ Hl) as (ss & -> & ->). cbn in Hb. apply negb_false_iff, existsb_exists in Hb as (p & Hin & Hm).
    exists p. by rewrite In_strings_map.
  - intros l p Hl Hin. destruct (strings_opt_array _ _ _ He _ Hl) as (ss & -> & ->). apply In_strings_map in Hin. cbn in Hx.
    destruct (dns_match host p) eqn:Hm; [|done]. rewrite <- Hx. symmetry. apply existsb_exists. eauto.
Qed.

Lemma retain_types_Ok c types types' : retain_types c types = Ok types' ->
  (forall t, is_Some (bget t types') -> is_Some (bget t types)) /\
  (forall l, bget "allowed_entity_types"%string c = Some (VArray l) -> forall t, is_Some (bget t types') ->
     t = "federation_entity"%string \/ In (VString t) l).
Proof.
  unfold retain_types. destruct (bget "allowed_entity_types"%string c) as [v|] eqn:Hv; [|by intros [= <-]].
  intros H. apply rbind_Ok in H as (l & Hl%strings_Ok & H). subst v. apply guard_Ok in H as [_ [= <-]].
  assert (Hb : forall t, is_Some (bget t (List.filter (fun '(name, _) => String.eqb name "federation_entity" || in_strings name l) types)) ->
    String.eqb t "federation_entity" || in_strings t l = true /\ is_Some (bget t types)).
  { intros t. rewrite (bget_filter (fun name => String.eqb name "federation_entity" || in_strings name l)).
    destruct (_ || _); [done|by intros [? ?]]. }
  split; [intros t Ht; by apply Hb|]. intros l' [= <-] t Ht. apply Hb in Ht as [Ht _].
  apply orb_true_iff in Ht as [Ht%String.eqb_eq|Ht%in_strings_In]; [by left|right; by apply In_strings_map].
Qed.

Lemma apply_constraints_Ok v i chain st types types' : other_member st "constraints" = Some v ->
  apply_constraints v i chain types = Ok types' ->
  path_ok i st /\ names_ok chain i st /\ types_ok st types' /\ forall t, is_Some (bget t types') -> is_Some (bget t types).
Proof.
  intros Hv H. unfold apply_constraints in H. apply rbind_Ok in H as (c & Hc%ok_or_Ok & H). destruct v; try done. injection Hc as ->.
  apply rbind_unit in H as [Hl H]. apply rbind_unit in H as [Hn H]. apply retain_types_Ok in H as [Hk Ha].
  split_and!; [|by eapply check_names_ok| |done].
  - intros k Hm. unfold constraint in Hm. rewrite Hv in Hm. cbn in Hm. unfold check_path_length in Hl. rewrite Hm in Hl.
    cbn in Hl. destruct (k <? _) eqn:Hlt; [done|]. by apply Z.ltb_ge in Hlt.
  - intros l t Ht. unfold constraint in Ht. rewrite Hv in Ht. by apply Ha.
Qed.

Lemma override_keys superior types types' t : override superior types = Ok types' ->
  is_Some (bget t types') -> is_Some (bget t types).
Proof.
  unfold override. destruct (sc_metadata _) as [m|]; [|by intros [= <-]]. intros H. apply rbind_Ok in H as (o & _ & H).
  eapply (try_fold_invariant (fun s => is_Some (bget t s) -> is_Some (bget t types))); [|done|exact H].
  intros [t' fields] s s' Hs Hs' Hk. apply Hs. unfold override_type in Hs'. destruct (bget t' s) eqn:Ht; [|by injection Hs' as <-].
  apply rbind_Ok in Hs' as (c & _ & Hs'). apply rbind_Ok in Hs' as (f & _ & [= <-]).
  destruct (decide (t' = t)) as [->|Hne]; [by rewrite Ht|by rewrite bget_binsert_ne in Hk].
Qed.

(** One superior. *)
Lemma step_Ok chain i C types C' types' : superior_step chain i (C, types) = Ok (C', types') ->
  (policy_ok C -> policy_ok C') /\ (forall t n op x, has_policy t n op x C -> has_policy t n op x C') /\
  (forall t, is_Some (bget t types') -> is_Some (bget t types)) /\
  forall st, chain !! i = Some st -> recorded chain i st (C', types').
Proof.
  unfold superior_step. destruct (chain !! i) as [st|] eqn:Hst; [|by intros [= <- <-]]. intros H.
  apply rbind_Ok in H as (ts & Hts & H). apply rbind_Ok in H as (c & Hc & [= -> ->]).
  assert (Hcon : path_ok i st /\ names_ok chain i st /\ types_ok st types' /\ forall t, is_Some (bget t types') -> is_Some (bget t types)).
  { destruct (other_member st "constraints") as [v|] eqn:Hv; [by eapply apply_constraints_Ok|]. injection Hts as ->.
    unfold path_ok, names_ok, types_ok, constraint. rewrite Hv. by split_and!. }
  destruct Hcon as (Hlen & Hnames & Htypes & Hkeys).
  assert (Hpol : (policy_ok C -> policy_ok C') /\ (forall t n op x, has_policy t n op x C -> has_policy t n op x C') /\
    forall t n op x, demands st t n op x -> has_policy t n op x C').
  { destruct (other_member st "metadata_policy") as [p|] eqn:Hp.
    - apply rbind_Ok in Hc as (policy & Hpo%ok_or_Ok & Hc). destruct p; try done. injection Hpo as ->. split_and!.
      + intros HC. by eapply merge_policy_ok.
      + intros t n op x Hx. by eapply merge_policy_keeps.
      + intros t n op x (policy' & fs & ops & Hp' & Ht & Hn & Hop & Ho). rewrite Hp in Hp'. injection Hp' as ->.
        by eapply merge_policy_adds.
    - injection Hc as ->. split_and!; try done. intros t n op x (policy & fs & ops & Hp' & _). congruence. }
  destruct Hpol as (Hok & Hkeep & Hadd). split_and!; try done. intros st' [= <-]. by split_and!.
Qed.

Lemma superior_keeps chain i j st state state' : recorded chain i st state -> superior_step chain j state = Ok state' ->
  recorded chain i st state'.
Proof.
  destruct state as [C types], state' as [C' types']. intros (Hp & Ht & Hl & Hn) H.
  apply step_Ok in H as (_ & Hkeep & Hkeys & _). split_and!; try done; cbn [fst snd] in *.
  - intros t n op x Hx. by apply Hkeep, Hp.
  - intros allowed t Ha Hs. by apply (Ht allowed), Hkeys.
Qed.

(** What each superior has of the metadata that results. *)
Record governed (chain : list Statement) (i : nat) (st : Statement) (types : object) : Prop := {
  gv_policy : forall t n op x v, demands st t n op x -> bget t types = Some v ->
    exists fields o, v = VObject fields /\ stored n o (bget n fields) /\ obeys op x o;
  gv_types : types_ok st types;
  gv_path : path_ok i st;
  gv_names : names_ok chain i st
}.

Lemma resolve_obeys chain metadata : resolve chain = Ok metadata ->
  exists types leaf ltypes, metadata = VObject types /\ head chain = Some leaf /\
    sc_metadata (st_claims leaf) = Some (VObject ltypes) /\
    (forall t, is_Some (bget t types) -> is_Some (bget t ltypes)) /\
    forall i st, chain !! i = Some st -> (0 < i < length chain - 1)%nat -> governed chain i st types.
Proof.
  unfold resolve. cbn zeta. intros H. apply guard_Ok in H as [_ H]. apply rbind_Ok in H as (m & Hm%ok_or_Ok & H).
  apply bind_Some in Hm as (leaf & Hleaf & Hm). apply rbind_Ok in H as (ltypes & Hl%ok_or_Ok & H). destruct m; try done. injection Hl as ->.
  apply rbind_Ok in H as (types0 & H0 & H). apply rbind_Ok in H as (crit & _ & H). apply guard_Ok in H as [_ H].
  apply rbind_Ok in H as ([C types1] & H1 & H). apply rbind_Ok in H as (types & H2 & [= <-]).
  exists types, leaf, ltypes. split; [done|]. split; [done|]. split; [done|].
  assert (HC : policy_ok C /\ forall t, is_Some (bget t types1) -> is_Some (bget t types0)).
  { refine (try_fold_invariant (fun s => policy_ok (fst s) /\ forall t, is_Some (bget t (snd s)) -> is_Some (bget t types0))
      (superior_step chain) _ _ (C, types1) _ _ H1); [|by split; [split; [constructor|done]|]].
    intros i [C1 t1] [C2 t2] [Hok Hk] Hs. apply step_Ok in Hs as (Ho & _ & Hk' & _). split; [by apply Ho|]. intros t Ht. by apply Hk, Hk'. }
  destruct HC as [HC Hk1]. split.
  - intros t Ht. pose proof (apply_policy_keys _ _ _ _ H2 Ht) as Ht1%Hk1. destruct (chain !! 1%nat); [|by injection H0 as ->].
    by eapply override_keys.
  - intros i st Hi Hr. assert (Hrec : recorded chain i st (C, types1)).
    { refine (try_fold_reaches (recorded chain i st) (superior_step chain) _ _ _ i _ _ _ H1); [| |intros j s s'; apply superior_keeps].
      - apply in_rev. rewrite rev_involutive. apply in_seq. lia.
      - intros [? ?] [? ?] Hs. by apply step_Ok in Hs as (_ & _ & _ & Hs); apply Hs. }
    destruct Hrec as (Hp & Ht & Hlen & Hnames). cbn [fst snd] in *. split; try done.
    + intros t n op x v Hx Hv. destruct (Hp t n op x Hx) as (target & Htg & ps & y & Hn & Hy & Hs).
      destruct (apply_policy_obeys _ _ _ _ _ HC H2 Htg v Hv) as (fields & -> & Hf). destruct (Hf n ps Hn) as (o & Ho & Hobey).
      destruct Hx as (? & ? & ? & _ & _ & _ & _ & Hop).
      exists fields, o. split; [done|]. split; [done|]. apply (obeys_stronger op y); [done|done|]. by apply Hobey.
    + intros allowed t Ha Hs. apply (Ht allowed); [done|]. by eapply apply_policy_keys.
Qed.
End Superiors.

(** C28: What is concluded of a leaf is what it said of itself, of no entity type it did not
    name, and obeys everything each of its superiors asks: the operators of its metadata
    policy on each parameter - what a value must be, may be, must have, may have at most
    and must not leave out - the entity types it allows, the hosts it permits and excludes
    below it, and how long a path it stands for. *)
Theorem metadata_obeys_superiors `{E : JoseEnv} `{D : DpopEnv} `{F : FederationEnv} a tenant raws now vc :
  TrustAnchor.validate a tenant raws now = Ok vc ->
  exists sts types leaf ltypes, Forall2 (fun raw st => Statement.parse raw now = Ok st) raws sts /\
    vc_metadata vc = VObject types /\ head sts = Some leaf /\ sc_metadata (st_claims leaf) = Some (VObject ltypes) /\
    (forall t, is_Some (bget t types) -> is_Some (bget t ltypes)) /\
    forall i st, sts !! i = Some st -> (0 < i < length sts - 1)%nat -> governed sts i st types.
Proof.
  unfold TrustAnchor.validate. intros H. apply guard_Ok in H as [_ H]. apply guard_Ok in H as [_ H].
  apply rbind_Ok in H as (sts & Hsts%try_mapi_Forall2 & H). destruct sts as [|leaf [|superior rest]] eqn:Hl; [done..|].
  rewrite <- Hl in *. cbn zeta in H. repeat first [apply rbind_unit in H as [_ H]|apply guard_Ok in H as [_ H]].
  apply rbind_Ok in H as (ka & _ & H). apply rbind_unit in H as [_ H]. apply rbind_unit in H as [_ H].
  apply rbind_Ok in H as (kl & _ & H). apply rbind_unit in H as [_ H]. apply rbind_Ok in H as (m & Hm & H).
  apply rbind_Ok in H as (rp & _ & [= <-]). destruct (resolve_obeys _ _ Hm) as (types & lf & ltypes & -> & H1 & H2 & H3 & H4).
  by exists sts, types, lf, ltypes.
Qed.

Lemma metadata_obeys_superiors_witness :
  exists sts types, vc_metadata fed_verified = VObject types /\
    forall i st, sts !! i = Some st -> (0 < i < length sts - 1)%nat -> governed (D := one_host) sts i st types.
Proof.
  destruct (metadata_obeys_superiors (E := fed_jose) (D := one_host) (F := fed_env) fed_anchor "t" fed_chain (seconds 500)
    fed_verified fed_validated) as (sts & types & leaf & ltypes & _ & H & _ & _ & _ & Hg).
  exists sts, types. exact (conj H Hg).
Defined.
