(* ===== verification/Mtls.v ===== *)
(** * Client certificates

    [oidc/src/mtls.rs]: the DER this server reads of a certificate, the names in it, and what
    a registered client is matched on. Standard base64 is the parameter of the last
    comparison. *)

From S2P Require Import Prelude Text Bytes Json Jose.
Open Scope Z_scope.

Definition MAX_CERTIFICATE_LEN : Z := 16 * 1024.
Definition MAX_X5C_ENTRIES : nat := 64.

(** [std::str::from_utf8]: the well-formed sequences of Unicode's table 3-7. *)
Definition continuation (b : Z) : bool := in_range 0x80 0xBF b.
Fixpoint utf8_valid (b : list Z) : bool :=
  match b with
  | [] => true
  | b0 :: r0 =>
      if b0 <? 0x80 then utf8_valid r0
      else match r0 with
      | [] => false
      | b1 :: r1 =>
          if in_range 0xC2 0xDF b0 then continuation b1 && utf8_valid r1
          else match r1 with
          | [] => false
          | b2 :: r2 =>
              if in_range 0xE0 0xEF b0 then
                continuation b1 && continuation b2
                && (if b0 =? 0xE0 then 0xA0 <=? b1 else if b0 =? 0xED then b1 <=? 0x9F else true) && utf8_valid r2
              else match r2 with
              | [] => false
              | b3 :: r3 =>
                  in_range 0xF0 0xF4 b0 && continuation b1 && continuation b2 && continuation b3
                  && (if b0 =? 0xF0 then 0x90 <=? b1 else if b0 =? 0xF4 then b1 <=? 0x8F else true) && utf8_valid r3
              end
          end
      end
  end.

(** ** DER *)

Module der.
Definition MAX_ENTRIES : nat := 128.

Record Tlv : Type := { tag : Z; tlv_value : list Z }.

Definition usize_max : Z := 2 ^ 64 - 1.
(** The loop over the bytes of a length; [None] past a [usize]. *)
Fixpoint length_of (bytes : list Z) (length : Z) : option Z :=
  match bytes with
  | [] => Some length
  | byte :: rest => if usize_max <? length * 256 + byte then None else length_of rest (length * 256 + byte)
  end.

Definition read_length (input : list Z) : option (Z * list Z) :=
  match input with
  | [] => None
  | first :: rest =>
      if first <? 0x80 then Some (first, rest)
      else
        let count := Z.to_nat (Z.land first 0x7f) in
        if (count =? 0)%nat || (4 <? count)%nat || (length rest <? count)%nat then None
        else if bool_decide (head rest = Some 0) then None
        else n ← length_of (take count rest) 0; Some (n, drop count rest)
  end.

Definition read (input : list Z) : option (Tlv * list Z) :=
  match input with
  | [] => None
  | tag :: rest =>
      if Z.land tag 0x1f =? 0x1f then None
      else
        '(n, rest) ← read_length rest;
        if Z.of_nat (length rest) <? n then None
        else Some ({| tag := tag; tlv_value := take (Z.to_nat n) rest |}, drop (Z.to_nat n) rest)
  end.

Definition read_exact (input : list Z) (expected : Z) : option (list Z) :=
  '(tlv, rest) ← read input;
  if (tag tlv =? expected) && bool_decide (rest = []) then Some (tlv_value tlv) else None.

(** [read] and a check of the tag, as they come in pairs. *)
Definition expect (expected : Z) (input : list Z) : option (list Z * list Z) :=
  '(tlv, rest) ← read input; if tag tlv =? expected then Some (tlv_value tlv, rest) else None.

Definition SEQUENCE : Z := 0x30.
Definition SET : Z := 0x31.
Definition OID : Z := 0x06.
Definition OCTET_STRING : Z := 0x04.
Definition BIT_STRING : Z := 0x03.
Definition INTEGER : Z := 0x02.
Definition SUBJECT_ALT_NAME : list Z := [0x55; 0x1d; 0x11].

(** A loop over the entries of [input], at most [bound] of them. *)
Fixpoint entries {S : Type} (step : Tlv -> S -> option S) (bound : nat) (input : list Z) (s : S) : option S :=
  match input with
  | [] => Some s
  | _ =>
      match bound with
      | O => None
      | Datatypes.S bound => '(tlv, rest) ← read input; s ← step tlv s; entries step bound rest s
      end
  end.

(** *** Distinguished names *)

Definition encode_length (n : Z) : list Z :=
  if n <? 0x80 then [n]
  else
    let bytes := be_bytes 8 n in
    let significant := (fix skip l := match l with 0 :: (_ :: _) as r => skip r | _ => l end) bytes in
    (0x80 + Z.of_nat (length significant)) :: significant.

Definition hex_digit (n : Z) : Ascii.ascii := char_of (if n <? 10 then 48 + n else 55 + n).
Definition hex_byte (b : Z) : string := String.String (hex_digit (b / 16)) (String.String (hex_digit (b mod 16)) "").
Definition hex_form (tag : Z) (v : list Z) : string :=
  ("#" +:+ join "" (map hex_byte (tag :: encode_length (Z.of_nat (length v)) ++ v)%list))%string.

Definition escaped (c : Ascii.ascii) : bool :=
  match byte_of c with 34 | 43 | 44 | 59 | 60 | 62 | 92 => true | _ => false end.
Definition escape_char (first last : bool) (c : Ascii.ascii) : string :=
  let plain := String.String c "" in
  if escaped c then String.String "\" plain
  else if Ascii.eqb c "#" && first then String.String "\" plain
  else if Ascii.eqb c " " && (first || last) then String.String "\" plain
  else if byte_of c =? 0 then "\00"
  else plain.
(** [escape]; every character it treats apart is one byte. *)
Fixpoint escape_from (first : bool) (text : string) : string :=
  match text with
  | EmptyString => EmptyString
  | String.String c r => (escape_char first (is_empty r) c +:+ escape_from false r)%string
  end.
Definition escape (text : string) : string := escape_from true text.

Definition string_tag (tag : Z) : bool := existsb (Z.eqb tag) [0x0c; 0x13; 0x16; 0x14; 0x1a].
Definition attribute_value (tag : Z) (v : list Z) : string :=
  if string_tag tag && utf8_valid v then escape (string_of_bytes v) else hex_form tag v.

Definition u64_max : Z := 2 ^ 64 - 1.
(** The loop of [dotted]; [None] is its question mark. *)
Fixpoint arcs (bytes : list Z) (arc : Z) (pending : bool) : option string :=
  match bytes with
  | [] => if pending then None else Some ""%string
  | byte :: rest =>
      if u64_max <? arc * 128 then None
      else
        let arc := arc * 128 + Z.land byte 0x7f in
        if Z.land byte 0x80 =? 0
        then out ← arcs rest 0 false; Some ("." +:+ pretty arc +:+ out)%string
        else arcs rest arc true
  end.
Definition dotted (oid : list Z) : string :=
  match oid with
  | [] => "?"
  | first :: rest =>
      match arcs rest 0 false with
      | Some out => (pretty (first / 40) +:+ "." +:+ pretty (first mod 40) +:+ out)%string
      | None => "?"
      end
  end.

Definition SHORT_NAMES : list (list Z * string) :=
  [([0x55; 0x04; 0x03], "CN"); ([0x55; 0x04; 0x07], "L"); ([0x55; 0x04; 0x08], "ST"); ([0x55; 0x04; 0x0a], "O");
   ([0x55; 0x04; 0x0b], "OU"); ([0x55; 0x04; 0x06], "C"); ([0x55; 0x04; 0x09], "STREET");
   ([0x09; 0x92; 0x26; 0x89; 0x93; 0xf2; 0x2c; 0x64; 0x01; 0x19], "DC");
   ([0x09; 0x92; 0x26; 0x89; 0x93; 0xf2; 0x2c; 0x64; 0x01; 0x01], "UID")]%string.
Definition attribute_type (oid : list Z) : string :=
  match List.find (fun '(o, _) => bool_decide (o = oid)) SHORT_NAMES with
  | Some (_, name) => name
  | None => dotted oid
  end.

(** One [AttributeTypeAndValue]: the type's OID, the value's tag and bytes. *)
Definition attribute (tlv : Tlv) (read_so_far : list (list Z * Tlv)) : option (list (list Z * Tlv)) :=
  if negb (tag tlv =? SEQUENCE) then None
  else
    '(kind, tail) ← expect OID (tlv_value tlv);
    '(v, tail) ← read tail;
    if bool_decide (tail = []) then Some (read_so_far ++ [(kind, v)]) else None.

Definition render_attribute (a : list Z * Tlv) : string :=
  (attribute_type (fst a) +:+ "=" +:+ attribute_value (tag (snd a)) (tlv_value (snd a)))%string.
Definition render_rdn (attributes : list (list Z * Tlv)) : string := join "+" (map render_attribute attributes).
Definition render_dn (rdns : list (list (list Z * Tlv))) : string := join "," (rev (map render_rdn rdns)).

Definition relative_name (tlv : Tlv) (rdns : list (list (list Z * Tlv))) : option (list (list (list Z * Tlv))) :=
  if negb (tag tlv =? SET) then None
  else attributes ← entries attribute MAX_ENTRIES (tlv_value tlv) []; Some (rdns ++ [attributes]).
Definition distinguished_name (rdns : list Z) : option string :=
  parsed ← entries relative_name MAX_ENTRIES rdns []; Some (render_dn parsed).

(** *** Subject alternative names *)

Record CertificateNames : Type := {
  subject_dn : string;
  san_dns : list string;
  san_uri : list string;
  san_ip : list string;
  san_email : list string
}.

Definition ascii (bytes : list Z) : option string :=
  if forallb (fun b => b <? 0x80) bytes then Some (string_of_bytes bytes) else None.

Definition ipv4 (octets : list Z) : string := join "." (map pretty octets).

Fixpoint groups (bytes : list Z) : list Z :=
  match bytes with a :: b :: r => a * 256 + b :: groups r | _ => [] end.
Definition lower_digit (n : Z) : Ascii.ascii := char_of (if n <? 10 then 48 + n else 87 + n).
Definition hex_group (g : Z) : string :=
  let digits := map lower_digit [g / 4096; g / 256 mod 16; g / 16 mod 16; g mod 16] in
  String.string_of_list_ascii ((fix strip l := match l with
    | "0"%char :: (_ :: _) as r => strip r | _ => l end) digits).
(** The length of the run of zeros at the front. *)
Fixpoint zeros (l : list Z) : nat := match l with 0 :: r => S (zeros r) | _ => O end.
(** The first of the longest runs of zeros: where it starts and how long it is. *)
Fixpoint longest_run (start : nat) (l : list Z) : nat * nat :=
  match l with
  | [] => (0%nat, 0%nat)
  | _ :: r =>
      let '(s, n) := longest_run (S start) r in
      if (n <=? zeros l)%nat && (0 <? zeros l)%nat then (start, zeros l) else (s, n)
  end.
(** [Ipv6Addr]'s [Display]. *)
Definition ipv6 (bytes : list Z) : string :=
  let segments := groups bytes in
  if bool_decide (take 6 segments = [0; 0; 0; 0; 0; 0xffff]) then ("::ffff:" +:+ ipv4 (drop 12 bytes))%string
  else
    let '(start, n) := longest_run 0 segments in
    let colon l := join ":" (map hex_group l) in
    if (1 <? n)%nat then (colon (take start segments) +:+ "::" +:+ colon (drop (start + n) segments))%string
    else colon segments.

Definition ip_address (bytes : list Z) : option string :=
  if (length bytes =? 4)%nat then Some (ipv4 bytes)
  else if (length bytes =? 16)%nat then Some (ipv6 bytes)
  else None.

Definition general_name (entry : Tlv) (names : CertificateNames) : option CertificateNames :=
  if tag entry =? 0x81 then
    text ← ascii (tlv_value entry);
    Some {| subject_dn := subject_dn names; san_dns := san_dns names; san_uri := san_uri names;
            san_ip := san_ip names; san_email := san_email names ++ [text] |}
  else if tag entry =? 0x82 then
    text ← ascii (tlv_value entry);
    Some {| subject_dn := subject_dn names; san_dns := san_dns names ++ [text]; san_uri := san_uri names;
            san_ip := san_ip names; san_email := san_email names |}
  else if tag entry =? 0x86 then
    text ← ascii (tlv_value entry);
    Some {| subject_dn := subject_dn names; san_dns := san_dns names; san_uri := san_uri names ++ [text];
            san_ip := san_ip names; san_email := san_email names |}
  else if tag entry =? 0x87 then
    ip ← ip_address (tlv_value entry);
    Some {| subject_dn := subject_dn names; san_dns := san_dns names; san_uri := san_uri names;
            san_ip := san_ip names ++ [ip]; san_email := san_email names |}
  else Some names.

Definition general_names (v : list Z) (names : CertificateNames) : option CertificateNames :=
  input ← read_exact v SEQUENCE; entries general_name MAX_ENTRIES input names.

Definition extension (tlv : Tlv) (names : CertificateNames) : option CertificateNames :=
  if negb (tag tlv =? SEQUENCE) then None
  else
    '(id, tail) ← expect OID (tlv_value tlv);
    '(next, after) ← read tail;
    v ← read_exact (if tag next =? 0x01 then after else tail) OCTET_STRING;
    if bool_decide (id = SUBJECT_ALT_NAME) then general_names v names else Some names.

Definition read_subject_alt_name (extensions : list Z) (names : CertificateNames) : option CertificateNames :=
  entries extension MAX_ENTRIES extensions names.

(** What follows the key: its loop ends with the input, every [read] shortening it. *)
Definition tbs_field (field : Tlv) (names : CertificateNames) : option CertificateNames :=
  if tag field =? 0xa3
  then extensions ← read_exact (tlv_value field) SEQUENCE; read_subject_alt_name extensions names
  else Some names.

Definition tbs_names (tbs : list Z) : option CertificateNames :=
  '(first, rest) ← read tbs;
  rest ← (if tag first =? 0xa0 then '(_, rest) ← expect INTEGER rest; Some rest
          else if tag first =? INTEGER then Some rest else None);
  '(_, rest) ← expect SEQUENCE rest;
  '(_, rest) ← expect SEQUENCE rest;
  '(_, rest) ← expect SEQUENCE rest;
  '(subject, rest) ← expect SEQUENCE rest;
  '(_, rest) ← expect SEQUENCE rest;
  dn ← distinguished_name subject;
  entries tbs_field (length rest) rest
    {| subject_dn := dn; san_dns := []; san_uri := []; san_ip := []; san_email := [] |}.

Definition names (der : list Z) : option CertificateNames :=
  certificate ← read_exact der SEQUENCE;
  '(tbs, rest) ← expect SEQUENCE certificate;
  '(_, rest) ← expect SEQUENCE rest;
  '(_, rest) ← expect BIT_STRING rest;
  if bool_decide (rest = []) then tbs_names tbs else None.
End der.
Export der.

(** ** Certificates *)

Inductive CertificateError : Type := TooLarge_ | Malformed_.

(** A certificate is its DER. *)
Abbreviation ClientCertificate := (list Z) (only parsing).

Inductive TlsClientAuthSubject : Type :=
| SubjectDn (v : string)
| SanDns (v : string)
| SanUri (v : string)
| SanIp (v : string)
| SanEmail (v : string).

Module ClientCertificate.
Definition subject (der : ClientCertificate) : option CertificateNames := names der.

Definition from_der (der : list Z) : result ClientCertificate CertificateError :=
  if MAX_CERTIFICATE_LEN <? Z.of_nat (length der) then Err TooLarge_
  else if bool_decide (der = []) then Err Malformed_
  else let? _ := ok_or (subject der) Malformed_ in Ok der.

Definition matches (der : ClientCertificate) (expected : TlsClientAuthSubject) : bool :=
  match subject der with
  | None => false
  | Some names =>
      match expected with
      | SubjectDn v => String.eqb (subject_dn names) v
      | SanDns v => in_strings v (san_dns names)
      | SanUri v => in_strings v (san_uri names)
      | SanIp v => in_strings v (san_ip names)
      | SanEmail v => in_strings v (san_email names)
      end
  end.

Section Env.
Context {E : JoseEnv} (standard_decode : string -> option (list Z)).

Definition thumbprint (der : ClientCertificate) : list Z := sha256 der.
Definition thumbprint_b64url (der : ClientCertificate) : string := b64_encode (thumbprint der).

Fixpoint is_one_of_from (compared : nat) (der : ClientCertificate) (leaves : list string) : bool :=
  match leaves with
  | [] => false
  | leaf :: rest =>
      if (MAX_X5C_ENTRIES <=? compared)%nat then false
      else if negb (MAX_CERTIFICATE_LEN * 2 <? slen leaf)
              && is_some_and (fun other => bool_decide (sha256 other = thumbprint der)) (standard_decode leaf)
           then true
      else is_one_of_from (S compared) der rest
  end.
Definition is_one_of : ClientCertificate -> list string -> bool := is_one_of_from 0.

Definition is_published_in (der : ClientCertificate) (jwks : value) : bool :=
  match vget "keys" jwks ≫= as_array with
  | None => false
  | Some keys => is_one_of der (omap (fun key => chain ← vget "x5c" key ≫= as_array; head chain ≫= as_str) keys)
  end.
End Env.
End ClientCertificate.
