(* ===== verification/MtlsLaws.v ===== *)
(** * What a certificate's names say

    Laws of [Mtls]: an object identifier is rendered as one string and no other identifier
    the reader reads is, so is a distinguished name, and what the reader takes from a
    certificate is in it. *)

From S2P Require Import Prelude Text Bytes Json Jose Mtls.
Open Scope Z_scope.

(** ** Sequences with a separator *)

Section Separated.
Context {A : Type} (sep : A).

Fixpoint separated (l : list (list A)) : list A :=
  match l with [] => [] | [p] => p | p :: r => p ++ sep :: separated r end.

Lemma first_piece p p' r r' : ~ In sep p -> ~ In sep p' -> p ++ sep :: r = p' ++ sep :: r' -> p = p' /\ r = r'.
Proof.
  revert p'. induction p as [|a p IH]; intros [|b p'] Hp Hp' H; cbn in H; simplify_eq.
  - done.
  - destruct Hp'. by left.
  - destruct Hp. by left.
  - destruct (IH p') as [-> ->]; [naive_solver..|done|done].
Qed.

Lemma piece_no_sep p p' r : ~ In sep p -> p <> p' ++ sep :: r.
Proof. intros Hp ->. apply Hp, in_app_iff. right. by left. Qed.

(** Pieces without the separator are read back, if there are any. *)
Lemma separated_inj_some l l' : l <> [] -> l' <> [] -> Forall (fun p => ~ In sep p) l -> Forall (fun p => ~ In sep p) l' ->
  separated l = separated l' -> l = l'.
Proof.
  revert l'. induction l as [|p [|q l] IH]; intros [|p' [|q' l']] Hne Hne' Hl Hl' H; cbn [separated] in H; try done;
    repeat match goal with Hf : Forall _ (_ :: _) |- _ => apply Forall_cons in Hf as [? ?] end; try congruence.
  - by apply piece_no_sep in H.
  - symmetry in H. by apply piece_no_sep in H.
  - apply first_piece in H as [-> H]; [|done..]. f_equal. apply IH; [done..|by constructor|by constructor|done].
Qed.

(** Where none is empty, also when there are none. *)
Lemma separated_inj l l' : Forall (fun p => p <> [] /\ ~ In sep p) l -> Forall (fun p => p <> [] /\ ~ In sep p) l' ->
  separated l = separated l' -> l = l'.
Proof.
  assert (H0 : forall r, Forall (fun p => p <> [] /\ ~ In sep p) r -> separated r = [] -> r = []).
  { intros [|p [|q r]] Hr; [done|..]; apply Forall_cons in Hr as [[? _] _]; cbn; [done|by destruct p]. }
  intros Hl Hl' H. destruct (decide (l = [])) as [->|Hne]; [symmetry; by apply H0|].
  destruct (decide (l' = [])) as [->|Hne']; [by apply H0 in H|].
  apply separated_inj_some; [done..| | |done]; (eapply Forall_impl; [eassumption|]; by intros p [_ ?]).
Qed.
End Separated.

(** ** Reading a rendered name back *)

Inductive Token : Type := Raw (c : Ascii.ascii) | Esc (c : Ascii.ascii).
Definition NUL : Ascii.ascii := char_of 0.

Fixpoint tokens (s : string) : list Token :=
  match s with
  | EmptyString => []
  | String.String "\" (String.String "0" (String.String "0" r)) => Esc NUL :: tokens r
  | String.String "\" (String.String c r) => Esc c :: tokens r
  | String.String c r => Raw c :: tokens r
  end.

(** A text read alike wherever it stands. *)
Definition reads (s : string) (ts : list Token) : Prop := forall r, tokens (s +:+ r)%string = ts ++ tokens r.

Lemma reads_app s s' ts ts' : reads s ts -> reads s' ts' -> reads (s +:+ s')%string (ts ++ ts').
Proof. intros Hs Hs' r. by rewrite <- append_assoc, Hs, Hs', app_assoc. Qed.

Lemma reads_empty : reads "" [].
Proof. done. Qed.

Definition plain (c : Ascii.ascii) : bool := negb (Ascii.eqb c "\").

Lemma reads_raw c : plain c = true -> reads (String.String c "") [Raw c].
Proof. intros Hc r. destruct c as [[] [] [] [] [] [] [] []]; done || (by cbn in Hc). Qed.

Lemma reads_escaped c : c <> "0"%char -> reads (String.String "\" (String.String c "")) [Esc c].
Proof. intros Hc r. destruct c as [[] [] [] [] [] [] [] []]; try done. Qed.

Fixpoint string_forall (p : Ascii.ascii -> bool) (s : string) : bool :=
  match s with EmptyString => true | String.String c r => p c && string_forall p r end.
Fixpoint raw (s : string) : list Token := match s with EmptyString => [] | String.String c r => Raw c :: raw r end.

Lemma reads_plain s : string_forall plain s = true -> reads s (raw s).
Proof.
  induction s as [|c s IH]; [done|]. cbn. intros [Hc Hs]%andb_true_iff.
  change (String.String c s) with (String.String c "" +:+ s)%string. apply (reads_app _ _ [Raw c]); [by apply reads_raw|by apply IH].
Qed.

Lemma raw_inj s s' : raw s = raw s' -> s = s'.
Proof. revert s'. induction s as [|c s IH]; intros [|c' s'] H; try done. injection H as -> H. f_equal. by apply IH. Qed.

(** *** Escaped text *)

Definition escaped_char (first last : bool) (c : Ascii.ascii) : bool :=
  escaped c || (Ascii.eqb c "#" && first) || (Ascii.eqb c " " && (first || last)) || (byte_of c =? 0).
Fixpoint text_tokens (first : bool) (text : string) : list Token :=
  match text with
  | EmptyString => []
  | String.String c r => (if escaped_char first (is_empty r) c then Esc c else Raw c) :: text_tokens false r
  end.

Lemma escape_char_reads first last c :
  reads (escape_char first last c) [if escaped_char first last c then Esc c else Raw c].
Proof.
  unfold escape_char, escaped_char. destruct (escaped c) eqn:He; [apply reads_escaped; by intros ->|].
  destruct (Ascii.eqb c "#" && first) eqn:Hh; [apply reads_escaped; by intros ->|].
  destruct (Ascii.eqb c " " && (first || last)) eqn:Hs; [apply reads_escaped; by intros ->|]. cbn [orb].
  destruct (byte_of c =? 0) eqn:Hz.
  - apply Z.eqb_eq in Hz. assert (c = NUL) as ->; [|by intros r].
    unfold byte_of in Hz. rewrite <- (Ascii.ascii_N_embedding c). by replace (Ascii.N_of_ascii c) with 0%N by lia.
  - apply reads_raw. unfold plain. destruct (Ascii.eqb_spec c "\") as [->|]; done.
Qed.

Lemma escape_reads first text : reads (escape_from first text) (text_tokens first text).
Proof.
  revert first. induction text as [|c r IH]; intros first; [apply reads_empty|]. cbn [escape_from text_tokens].
  apply (reads_app _ _ [_]); [apply escape_char_reads|apply IH].
Qed.

Definition token_char (t : Token) : Ascii.ascii := match t with Raw c | Esc c => c end.

Lemma text_tokens_chars first text : map token_char (text_tokens first text) = String.list_ascii_of_string text.
Proof. revert first. induction text as [|c r IH]; intros first; [done|]. cbn. rewrite IH. by destruct (escaped_char _ _ _). Qed.

Lemma text_tokens_inj first first' text text' : text_tokens first text = text_tokens first' text' -> text = text'.
Proof.
  intros H. apply (f_equal (map token_char)) in H. rewrite !text_tokens_chars in H.
  by rewrite <- (String.string_of_list_ascii_of_string text), H, String.string_of_list_ascii_of_string.
Qed.

Lemma text_tokens_raw c first text : escaped c = true -> ~ In (Raw c) (text_tokens first text).
Proof.
  revert first. intros first Hc. revert first. induction text as [|d r IH]; intros first; [by intros []|].
  cbn [text_tokens]. intros [H|H]; [|by apply IH in H]. unfold escaped_char in H. destruct (escaped d) eqn:Hd; [done|].
  destruct (_ || _) in H; congruence.
Qed.

(** A text never starts with a bare number sign. *)
Lemma text_tokens_hash text ts : text_tokens true text <> Raw "#"%char :: ts.
Proof. destruct text as [|c r]; [done|]. cbn [text_tokens]. unfold escaped_char. destruct (Ascii.eqb_spec c "#") as [->|]; cbn; [done|]. destruct (_ || _); congruence. Qed.

(** *** The parts of an attribute *)

(** Characters of a type or of the hexadecimal form: none that is written otherwise. *)
Definition word_char (c : Ascii.ascii) : bool := is_ascii_alphanumeric (byte_of c) || existsb (Ascii.eqb c) ["."; "?"; "#"; "-"]%char.

Lemma word_char_spec c : word_char c = true -> plain c = true /\ c <> ","%char /\ c <> "+"%char /\ c <> "="%char.
Proof. destruct c as [[] [] [] [] [] [] [] []]; cbn; done || (intros; by split_and!). Qed.

Lemma string_forall_app p a b : string_forall p (a +:+ b)%string = string_forall p a && string_forall p b.
Proof. induction a as [|c a IH]; [done|]. change (p c && string_forall p (a +:+ b)%string = p c && string_forall p a && string_forall p b). by rewrite IH, andb_assoc. Qed.

Lemma string_forall_impl p q s : (forall c, p c = true -> q c = true) -> string_forall p s = true -> string_forall q s = true.
Proof. intros H. induction s as [|c s IH]; [done|]. cbn. intros [Hc Hs]%andb_true_iff. by rewrite (H c Hc), IH. Qed.

(** Characters of a dotted form: no letter is one. *)
Definition numeral_char (c : Ascii.ascii) : bool := in_range 48 57 (byte_of c) || existsb (Ascii.eqb c) ["."; "?"; "-"]%char.
Definition undotted (c : Ascii.ascii) : bool := negb (Ascii.eqb c ".").

Lemma numeral_word c : numeral_char c = true -> word_char c = true.
Proof. by destruct c as [[] [] [] [] [] [] [] []]. Qed.

Lemma pretty_N_go_chars p n s : (forall d, (d < 10)%N -> p (pretty_N_char d) = true) ->
  string_forall p s = true -> string_forall p (pretty_N_go n s) = true.
Proof.
  intros Hp. revert s. induction (N.lt_wf_0 n) as [n _ IH]; intros s Hs. destruct (decide (n = 0%N)) as [->|Hn]; [by rewrite pretty_N_go_0|].
  rewrite pretty_N_go_step by lia. apply IH; [apply N.div_lt; lia|]. cbn. rewrite Hs, andb_true_r. apply Hp, N.mod_lt. lia.
Qed.

Lemma pretty_chars p (z : Z) : p "-"%char = true -> (forall d, (d < 10)%N -> p (pretty_N_char d) = true) ->
  string_forall p (pretty z) = true.
Proof.
  intros Hm Hp. assert (HN : forall n : N, string_forall p (pretty n) = true).
  { intros n. unfold pretty, pretty_N. case_decide; [|by apply pretty_N_go_chars]. cbn [string_forall]. rewrite andb_true_r. by apply (Hp 0%N). }
  destruct z as [|q|q]; [by rewrite <- (HN 0%N)|apply HN|]. change (string_forall p ("-" +:+ pretty (Npos q)) = true).
  rewrite string_forall_app, HN. cbn. by rewrite Hm.
Qed.

Lemma digits (p : Ascii.ascii -> bool) : forallb (fun k => p (pretty_N_char (N.of_nat k))) (seq 0 10) = true ->
  forall d, (d < 10)%N -> p (pretty_N_char d) = true.
Proof. rewrite forallb_forall. intros H d Hd. rewrite <- (N2Nat.id d). apply H, in_seq. lia. Qed.

Lemma pretty_numeral (z : Z) : string_forall numeral_char (pretty z) = true.
Proof. apply pretty_chars; [done|by apply digits]. Qed.
Lemma pretty_undotted (z : Z) : string_forall undotted (pretty z) = true.
Proof. apply pretty_chars; [done|by apply digits]. Qed.

(** *** Object identifiers *)

(** The subidentifiers of an encoding (X.690, 8.19.2): seven bits a byte, the high bit for
    more to come; nothing when the last one is cut short. *)
Fixpoint subidentifiers (bytes : list Z) (arc : Z) (pending : bool) : option (list Z) :=
  match bytes with
  | [] => if pending then None else Some []
  | byte :: rest =>
      let arc := arc * 128 + Z.land byte 0x7f in
      if Z.land byte 0x80 =? 0 then l ← subidentifiers rest 0 false; Some (arc :: l) else subidentifiers rest arc true
  end.
(** The identifier the reader reads: its subidentifiers, the first of one byte and the others
    of 64 bits. Every encoding that is not of that form is one to the reader: [None]. *)
Definition read_oid (oid : list Z) : option (list Z) :=
  match oid with
  | first :: rest =>
      if first <? 0x80 then
        l ← subidentifiers rest 0 false;
        if forallb (fun arc => arc <=? u64_max) l then Some (first :: l) else None
      else None
  | [] => None
  end.

Fixpoint dots (l : list Z) : string := match l with [] => "" | a :: r => ("." +:+ pretty a +:+ dots r)%string end.

Lemma low_bits b : 0 <= Z.land b 0x7f < 128.
Proof. change 0x7f with (Z.ones 7). rewrite Z.land_ones by lia. apply Z.mod_pos_bound. lia. Qed.

Lemma subidentifiers_ge bytes arc l : 0 <= arc -> subidentifiers bytes arc true = Some l -> exists a r, l = a :: r /\ arc <= a.
Proof.
  revert arc l. induction bytes as [|b bytes IH]; intros arc l Ha; cbn [subidentifiers]; [done|].
  pose proof (low_bits b). destruct (_ =? 0); [intros (r & _ & [= <-])%bind_Some; eexists _, _; split; [done|lia]|].
  intros (a & r & -> & Hle)%IH; [|lia]. exists a, r. split; [done|lia].
Qed.

Lemma arcs_spec bytes arc pending : 0 <= arc <= u64_max ->
  arcs bytes arc pending
  = (l ← subidentifiers bytes arc pending; if forallb (fun arc => arc <=? u64_max) l then Some (dots l) else None).
Proof.
  revert arc pending. unfold u64_max. induction bytes as [|b bytes IH]; intros arc pending Ha; cbn [arcs subidentifiers]; [by destruct pending|].
  pose proof (low_bits b). fold u64_max. destruct (Z.ltb_spec u64_max (arc * 128)) as [Hbig|Hfit]; unfold u64_max in *.
  - symmetry. apply eq_None_not_Some. intros [out (l & Hl & Hout)%bind_Some].
    assert (Hge : exists a r, l = a :: r /\ arc * 128 <= a).
    { destruct (_ =? 0); [apply bind_Some in Hl as (r & _ & [= <-]); eexists _, _; split; [done|lia]|].
      apply subidentifiers_ge in Hl as (a & r & -> & ?); [|lia]. exists a, r. split; [done|lia]. }
    destruct Hge as (a & r & -> & Hge). cbn in Hout. destruct (Z.leb_spec a (2 ^ 64 - 1)); [lia|done].
  - destruct (_ =? 0); [|apply IH; lia]. rewrite IH by lia. destruct (subidentifiers bytes 0 false) as [l|]; [|done]. cbn.
    replace (arc * 128 + Z.land b 127 <=? 2 ^ 64 - 1) with true by (symmetry; apply Z.leb_le; lia). cbn.
    by destruct (forallb _ l).
Qed.

Definition stops (s : string) : Prop := forall c r, s = String.String c r -> c = "."%char.

Lemma dots_stops l : stops (dots l).
Proof. destruct l; intros c r H; [done|]. by injection H as <-. Qed.

Lemma up_to_dot a b r q : string_forall undotted a = true -> string_forall undotted b = true -> stops r -> stops q ->
  (a +:+ r = b +:+ q)%string -> a = b /\ r = q.
Proof.
  intros Ha Hb Hr Hq. revert b Ha Hb. induction a as [|c a IH]; intros [|d b] Ha Hb H.
  - done.
  - change (r = String.String d (b +:+ q)%string) in H. rewrite (Hr _ _ H) in Hb. done.
  - symmetry in H. change (q = String.String c (a +:+ r)%string) in H. rewrite (Hq _ _ H) in Ha. done.
  - change (String.String c (a +:+ r)%string = String.String d (b +:+ q)%string) in H. injection H as -> H.
    cbn in Ha, Hb. apply andb_true_iff in Ha as [_ Ha], Hb as [_ Hb]. by destruct (IH b Ha Hb H) as [-> ->].
Qed.

Lemma dots_inj l l' : dots l = dots l' -> l = l'.
Proof.
  revert l'. induction l as [|a l IH]; intros [|b l'] H; [done..|].
  change (String.String "." (pretty a +:+ dots l)%string = String.String "." (pretty b +:+ dots l')%string) in H. injection H as H.
  apply up_to_dot in H as [Hp Hd]; [|apply pretty_undotted|apply pretty_undotted|apply dots_stops|apply dots_stops]. f_equal; [by apply (inj pretty)|by apply IH].
Qed.

(** What [dotted] writes, and of which encodings. *)
Lemma dotted_cases oid :
  (dotted oid = "?"%string /\ read_oid oid = None)
  \/ exists first rest l, oid = first :: rest /\ read_oid oid = (if first <? 0x80 then Some (first :: l) else None)
       /\ ("." +:+ dotted oid = dots (first / 40 :: first mod 40 :: l))%string.
Proof.
  destruct oid as [|first rest]; [by left|]. unfold dotted, read_oid. rewrite arcs_spec by (unfold u64_max; lia).
  destruct (subidentifiers rest 0 false) as [l|]; cbn [mbind option_bind]; [|left; by destruct (_ <? _)].
  destruct (forallb _ l); [|left; by destruct (_ <? _)]. right. exists first, rest, l. split_and!; [done..|].
  cbn [dots]. done.
Qed.

Lemma dotted_inj oid oid' : dotted oid = dotted oid' -> read_oid oid = read_oid oid'.
Proof.
  assert (Hq : forall a b l, ("." +:+ "?")%string <> dots (a :: b :: l)).
  { intros a b l H. change (dots (a :: b :: l)) with (String.String "." (pretty a +:+ dots (b :: l))%string) in H. injection H as H.
    apply (f_equal (string_forall undotted)) in H. rewrite (string_forall_app _ (pretty a)) in H.
    by rewrite (string_forall_app _ "."), andb_comm in H. }
  intros H. destruct (dotted_cases oid) as [[Hd ->]|(f & r & l & -> & -> & Hd)],
    (dotted_cases oid') as [[Hd' ->]|(f' & r' & l' & -> & -> & Hd')].
  - done.
  - rewrite <- H, Hd in Hd'. by apply Hq in Hd'.
  - rewrite H, Hd' in Hd. by apply Hq in Hd.
  - rewrite <- H, Hd in Hd'. apply dots_inj in Hd' as [= Hdiv Hmod ->].
    assert (f = f') as -> by (rewrite (Z.div_mod f 40), (Z.div_mod f' 40); lia). done.
Qed.

Lemma dots_numeral l : string_forall numeral_char (dots l) = true.
Proof. induction l as [|a l IH]; [done|]. cbn [dots]. by rewrite !string_forall_app, pretty_numeral, IH. Qed.

Lemma dotted_numeral oid : string_forall numeral_char (dotted oid) = true.
Proof.
  destruct (dotted_cases oid) as [[-> _]|(f & r & l & _ & _ & H)]; [done|].
  apply (f_equal (string_forall numeral_char)) in H. by rewrite dots_numeral, string_forall_app in H.
Qed.

(** What is read are the subidentifiers of the whole encoding. *)
Lemma read_oid_whole first rest l : 0 <= first ->
  read_oid (first :: rest) = Some l -> subidentifiers (first :: rest) 0 false = Some l.
Proof.
  intros Hf. cbn [read_oid]. destruct (Z.ltb_spec first 0x80); [|done]. intros (r & Hr & H1)%bind_Some.
  destruct (forallb _ r); [|done]. injection H1 as <-.
  assert (Hall : forallb (fun k => (Z.land (Z.of_nat k) 0x80 =? 0) && (Z.land (Z.of_nat k) 0x7f =? Z.of_nat k)) (seq 0 128) = true)
    by reflexivity.
  rewrite forallb_forall in Hall. specialize (Hall (Z.to_nat first) ltac:(apply in_seq; lia)).
  rewrite Z2Nat.id in Hall by lia. apply andb_true_iff in Hall as [H0 H7%Z.eqb_eq].
  cbn [subidentifiers]. rewrite H0, H7, Hr. done.
Qed.

(** No two identifiers of the table share a name, and no name is a dotted form. *)
Lemma type_inj oid oid' : attribute_type oid = attribute_type oid' -> read_oid oid = read_oid oid'.
Proof.
  assert (Hname : forall o name, In (o, name) SHORT_NAMES -> string_forall numeral_char name = false)
    by (intros o name Hin; cbn in Hin; repeat (destruct Hin as [Hin|Hin]; [by injection Hin as <- <-|]); done).
  assert (Hone : forall o o' name, In (o, name) SHORT_NAMES -> In (o', name) SHORT_NAMES -> o = o').
  { intros o o' name H H'. cbn in H, H'. destruct_or?; simplify_eq; done. }
  unfold attribute_type. intros H.
  destruct (List.find (fun '(o, _) => bool_decide (o = oid)) SHORT_NAMES) as [[o name]|] eqn:Hf,
    (List.find (fun '(o, _) => bool_decide (o = oid')) SHORT_NAMES) as [[o' name']|] eqn:Hf';
    repeat match goal with E : List.find _ _ = Some _ |- _ => apply find_some in E as [? ->%bool_decide_eq_true] end; subst.
  - f_equal. by eapply Hone.
  - pose proof (dotted_numeral oid') as Hd. rewrite (Hname oid) in Hd; done.
  - pose proof (dotted_numeral oid) as Hd. rewrite (Hname oid') in Hd; done.
  - by apply dotted_inj.
Qed.

Lemma type_words oid : string_forall word_char (attribute_type oid) = true.
Proof.
  unfold attribute_type. destruct (List.find _ SHORT_NAMES) as [[o name]|] eqn:Hf.
  - apply find_some in Hf as [Hin _]. cbn in Hin. repeat (destruct Hin as [Hin|Hin]; [by injection Hin as <- <-|]). done.
  - eapply string_forall_impl; [apply numeral_word|apply dotted_numeral].
Qed.

Lemma hex_digit_word n : 0 <= n < 16 -> word_char (hex_digit n) = true.
Proof.
  intros Hn. assert (Hall : forallb (fun k => word_char (hex_digit (Z.of_nat k))) (seq 0 16) = true) by reflexivity.
  rewrite forallb_forall in Hall. specialize (Hall (Z.to_nat n)). rewrite Z2Nat.id in Hall by lia.
  apply Hall, in_seq. lia.
Qed.

(** ** Names *)

(** What an attribute says: the identifier of its type, and its text, or the tag and the
    bytes of a value that is not read as text. *)
Inductive AttributeView : Type := AsText (text : string) | AsBytes (t : Z) (bytes : list Z).
Definition value_view (tlv : Tlv) : AttributeView :=
  if string_tag (tag tlv) && utf8_valid (tlv_value tlv) then AsText (string_of_bytes (tlv_value tlv))
  else AsBytes (tag tlv) (tlv_value tlv).
Definition view (a : list Z * Tlv) : option (list Z) * AttributeView := (read_oid (fst a), value_view (snd a)).

Definition tlv_ok (tlv : Tlv) : Prop := is_byte (tag tlv) /\ Forall is_byte (tlv_value tlv).

Lemma hex_byte_words b : is_byte b -> string_forall word_char (hex_byte b) = true.
Proof.
  unfold is_byte, hex_byte. intros Hb. pose proof (Z.mod_pos_bound b 16 ltac:(lia)). assert (0 <= b / 16 < 16) by
    (split; [apply Z.div_pos; lia|apply Z.div_lt_upper_bound; lia]).
  cbn [string_forall]. by rewrite !hex_digit_word.
Qed.

Lemma be_bytes_ok k z : Forall is_byte (be_bytes k z).
Proof.
  revert z. induction k as [|k IH]; intros z; cbn; [constructor|]. apply Forall_app. split; [apply IH|].
  constructor; [apply Z.mod_pos_bound; lia|constructor].
Qed.

Lemma encode_length_ok n : 0 <= n -> Forall is_byte (encode_length n).
Proof.
  intros Hn. unfold encode_length. destruct (Z.ltb_spec n 0x80); [constructor; [unfold is_byte; lia|constructor]|]. cbn zeta.
  set (skip := fix skip (l : list Z) : list Z := match l with 0 :: (_ :: _) as r => skip r | _ => l end).
  assert (Hs : forall l, Forall is_byte l -> Forall is_byte (skip l) /\ (length (skip l) <= length l)%nat).
  { induction l as [|a l IH]; intros Hl; [done|]. apply Forall_cons in Hl as [Ha Hl]. destruct (IH Hl) as [H1 H2].
    destruct a, l; cbn in *; split; try done; try lia; by constructor. }
  destruct (Hs _ (be_bytes_ok 8 n)) as [H1 H2]. rewrite be_bytes_length in H2. constructor; [unfold is_byte; lia|done].
Qed.

Lemma join_words l : Forall (fun s => string_forall word_char s = true) l -> string_forall word_char (join "" l) = true.
Proof.
  induction 1 as [|s [|s' l] Hs Hl IH]; [done|done|]. cbn [join] in *. rewrite !string_forall_app, Hs. done.
Qed.

Lemma hex_form_words tlv : tlv_ok tlv -> string_forall word_char (hex_form (tag tlv) (tlv_value tlv)) = true.
Proof.
  intros [Ht Hv]. unfold hex_form. rewrite string_forall_app. apply andb_true_iff. split; [done|].
  apply join_words, Forall_map. constructor; [by apply hex_byte_words|]. apply Forall_app.
  split; (eapply Forall_impl; [|apply hex_byte_words]); [apply encode_length_ok; lia|done].
Qed.

Lemma hex_digit_inj n m : 0 <= n < 16 -> 0 <= m < 16 -> hex_digit n = hex_digit m -> n = m.
Proof.
  intros Hn Hm H.
  assert (Hall : forallb (fun k => forallb (fun j => negb (Ascii.eqb (hex_digit (Z.of_nat k)) (hex_digit (Z.of_nat j))) || (k =? j)%nat)
    (seq 0 16)) (seq 0 16) = true) by reflexivity.
  rewrite forallb_forall in Hall. specialize (Hall (Z.to_nat n) ltac:(apply in_seq; lia)). rewrite forallb_forall in Hall.
  specialize (Hall (Z.to_nat m) ltac:(apply in_seq; lia)). rewrite !Z2Nat.id, H, Ascii.eqb_refl in Hall by lia.
  apply Nat.eqb_eq in Hall. lia.
Qed.

Lemma hex_byte_inj a b r q : is_byte a -> is_byte b -> (hex_byte a +:+ r = hex_byte b +:+ q)%string -> a = b /\ r = q.
Proof.
  unfold is_byte. intros Ha Hb H.
  pose proof (Z.mod_pos_bound a 16 ltac:(lia)). pose proof (Z.mod_pos_bound b 16 ltac:(lia)).
  assert (0 <= a / 16 < 16) by (split; [apply Z.div_pos; lia|apply Z.div_lt_upper_bound; lia]).
  assert (0 <= b / 16 < 16) by (split; [apply Z.div_pos; lia|apply Z.div_lt_upper_bound; lia]).
  change (String.String (hex_digit (a / 16)) (String.String (hex_digit (a mod 16)) r)
          = String.String (hex_digit (b / 16)) (String.String (hex_digit (b mod 16)) q)) in H.
  injection H as Hhi Hlo ->. apply hex_digit_inj in Hhi, Hlo; [|lia..]. split; [|done].
  rewrite (Z.div_mod a 16), (Z.div_mod b 16) by lia. congruence.
Qed.

Lemma join_cons s l : join "" (s :: l) = (s +:+ join "" l)%string.
Proof. destruct l; cbn [join]; [by rewrite append_empty_r|done]. Qed.

Lemma hex_bytes_inj l l' : Forall is_byte l -> Forall is_byte l' ->
  join "" (map hex_byte l) = join "" (map hex_byte l') -> l = l'.
Proof.
  intros Hl. revert l'. induction Hl as [|a l Ha Hl IH]; intros l' Hl' H; destruct Hl' as [|b l' Hb Hl'];
    rewrite ?map_cons, ?join_cons in H; [done..|].
  apply hex_byte_inj in H as [-> H]; [|done..]. f_equal. by apply IH.
Qed.

(** The first byte of a length says how many there are. *)
Lemma encode_length_cases n : encode_length n = [n] /\ n < 0x80 \/ exists t, encode_length n = (0x80 + Z.of_nat (length t)) :: t.
Proof. unfold encode_length. destruct (Z.ltb_spec n 0x80); [by left|right; eexists; reflexivity]. Qed.

Lemma encode_length_size n n' r r' : encode_length n ++ r = encode_length n' ++ r' -> length (encode_length n) = length (encode_length n').
Proof.
  destruct (encode_length_cases n) as [[-> Hn]|[t ->]], (encode_length_cases n') as [[-> Hn']|[t' ->]]; intros Heq;
    injection Heq as Heq _; cbn [length]; done || lia.
Qed.

Lemma append_tail c a b : (String.String c "" +:+ a = String.String c "" +:+ b)%string -> a = b.
Proof. intros H. change (String.String c a = String.String c b) in H. congruence. Qed.

Lemma hex_form_inj tlv tlv' : tlv_ok tlv -> tlv_ok tlv' ->
  hex_form (tag tlv) (tlv_value tlv) = hex_form (tag tlv') (tlv_value tlv') -> tag tlv = tag tlv' /\ tlv_value tlv = tlv_value tlv'.
Proof.
  assert (Hall : forall t, tlv_ok t -> Forall is_byte (tag t :: encode_length (Z.of_nat (length (tlv_value t))) ++ tlv_value t)).
  { intros t [Ht Hv]. constructor; [done|]. apply Forall_app. split; [apply encode_length_ok; lia|done]. }
  intros H1 H2 H. unfold hex_form in H. apply append_tail, hex_bytes_inj in H; [|by apply Hall..].
  injection H as Ht H. split; [done|]. pose proof H as Hs. apply encode_length_size in Hs.
  by apply app_inj_1 in H as [_ H].
Qed.

Definition value_tokens (tlv : Tlv) : list Token :=
  match value_view tlv with AsText text => text_tokens true text | AsBytes t v => raw (hex_form t v) end.
Definition attribute_tokens (a : list Z * Tlv) : list Token :=
  raw (attribute_type (fst a)) ++ Raw "="%char :: value_tokens (snd a).

Lemma words_plain s : string_forall word_char s = true -> reads s (raw s).
Proof. intros H. apply reads_plain. eapply string_forall_impl; [|exact H]. apply word_char_spec. Qed.

Lemma words_free s c : string_forall word_char s = true -> word_char c = false -> ~ In (Raw c) (raw s).
Proof.
  intros Hs Hc. induction s as [|d s IH]; [by intros []|]. cbn in *. apply andb_true_iff in Hs as [Hd Hs].
  intros [H|H]; [congruence|by apply IH].
Qed.

Lemma value_reads tlv : tlv_ok tlv -> reads (attribute_value (tag tlv) (tlv_value tlv)) (value_tokens tlv).
Proof.
  intros Hok. unfold attribute_value, value_tokens, value_view. destruct (_ && _); [apply escape_reads|].
  by apply words_plain, hex_form_words.
Qed.

Lemma attribute_reads a : tlv_ok (snd a) -> reads (render_attribute a) (attribute_tokens a).
Proof.
  intros Hok. unfold render_attribute, attribute_tokens. apply reads_app; [apply words_plain, type_words|].
  apply (reads_app _ _ [_]); [by apply reads_raw|by apply value_reads].
Qed.

Lemma value_tokens_free c tlv : tlv_ok tlv -> escaped c = true -> word_char c = false -> ~ In (Raw c) (value_tokens tlv).
Proof.
  intros Hok He Hw. unfold value_tokens, value_view. destruct (_ && _); [by apply text_tokens_raw|].
  apply words_free; [|done]. by apply hex_form_words.
Qed.

Lemma attribute_free c a : tlv_ok (snd a) -> escaped c = true -> word_char c = false -> c <> "="%char ->
  ~ In (Raw c) (attribute_tokens a).
Proof.
  intros Hok He Hw Hne. unfold attribute_tokens. rewrite in_app_iff. intros [H|[H|H]]; [|congruence|].
  - by apply words_free in H; [|apply type_words|].
  - by apply value_tokens_free in H.
Qed.

Lemma value_tokens_inj tlv tlv' : tlv_ok tlv -> tlv_ok tlv' ->
  value_tokens tlv = value_tokens tlv' -> value_view tlv = value_view tlv'.
Proof.
  unfold value_tokens, value_view. intros H1 H2.
  destruct (string_tag (tag tlv) && utf8_valid (tlv_value tlv)), (string_tag (tag tlv') && utf8_valid (tlv_value tlv')); intros H.
  - by apply text_tokens_inj in H as ->.
  - by apply text_tokens_hash in H.
  - symmetry in H. by apply text_tokens_hash in H.
  - by apply raw_inj, hex_form_inj in H as [-> ->].
Qed.

Lemma attribute_inj a a' : tlv_ok (snd a) -> tlv_ok (snd a') -> attribute_tokens a = attribute_tokens a' -> view a = view a'.
Proof.
  unfold attribute_tokens, view. intros H1 H2 H. apply first_piece in H as [Ht%raw_inj%type_inj Hv%value_tokens_inj]; [congruence|done|done| |];
    (apply words_free; [apply type_words|done]).
Qed.

(** *** Whole names *)

Lemma join_reads sep sept l : reads sep [sept] -> forall ts, Forall2 reads l ts -> reads (join sep l) (separated sept ts).
Proof.
  intros Hsep ts H. induction H as [|s t l ts Hs Hl IH]; [apply reads_empty|]. destruct Hl as [|s' t' l ts]; [done|].
  change (join sep (s :: s' :: l)) with (s +:+ sep +:+ join sep (s' :: l))%string. apply reads_app; [done|].
  by apply (reads_app _ _ [_]).
Qed.

Definition rdn_tokens (attributes : list (list Z * Tlv)) : list Token := separated (Raw "+"%char) (map attribute_tokens attributes).
Definition rdn_ok (attributes : list (list Z * Tlv)) : Prop := Forall (fun a => tlv_ok (snd a)) attributes.

Lemma Forall2_map_l {A B C} (P : B -> C -> Prop) (f : A -> B) (g : A -> C) l :
  Forall (fun a => P (f a) (g a)) l -> Forall2 P (map f l) (map g l).
Proof. induction 1; by constructor. Qed.

Lemma rdn_reads attributes : rdn_ok attributes -> reads (render_rdn attributes) (rdn_tokens attributes).
Proof.
  intros H. apply join_reads; [by apply reads_raw|]. apply Forall2_map_l. eapply Forall_impl; [exact H|]. apply attribute_reads.
Qed.

Lemma attribute_tokens_ne a : attribute_tokens a <> [].
Proof. unfold attribute_tokens. by destruct (raw _). Qed.

Lemma separated_free {A} (sep x : A) l : x <> sep -> Forall (fun p => ~ In x p) l -> ~ In x (separated sep l).
Proof.
  intros Hne. induction 1 as [|p [|q l] Hp Hl IH]; [by intros []|done|]. cbn [separated]. rewrite in_app_iff.
  intros [H|[H|H]]; [done|congruence|by apply IH].
Qed.

Lemma rdn_pieces attributes : rdn_ok attributes ->
  Forall (fun p => p <> [] /\ ~ In (Raw "+"%char) p) (map attribute_tokens attributes).
Proof.
  intros H. apply Forall_map. eapply Forall_impl; [exact H|]. intros a Ha. split; [apply attribute_tokens_ne|by apply attribute_free].
Qed.

Lemma rdn_free attributes : rdn_ok attributes -> ~ In (Raw ","%char) (rdn_tokens attributes).
Proof.
  intros Hok. apply separated_free; [done|]. apply Forall_map. eapply Forall_impl; [exact Hok|]. intros a Ha. by apply attribute_free.
Qed.

Lemma map_inj_view {A B C} (P : A -> Prop) (f : A -> B) (g : A -> C) l l' :
  (forall a b, P a -> P b -> f a = f b -> g a = g b) -> Forall P l -> Forall P l' -> map f l = map f l' -> map g l = map g l'.
Proof.
  intros H Hl. revert l'. induction Hl as [|a l Ha Hl IH]; intros l' Hl' Hm; destruct Hl' as [|b l' Hb Hl']; cbn in *; try done.
  injection Hm as Hab Hm. f_equal; [by apply H|by apply IH].
Qed.

Lemma rdn_inj attributes attributes' : rdn_ok attributes -> rdn_ok attributes' ->
  rdn_tokens attributes = rdn_tokens attributes' -> map view attributes = map view attributes'.
Proof.
  intros Hok Hok' H. apply separated_inj in H; [|by apply rdn_pieces..].
  eapply (map_inj_view _ attribute_tokens view); [|exact Hok|exact Hok'|exact H]. intros a b Ha Hb. by apply attribute_inj.
Qed.

Lemma render_dn_tokens rdns : Forall rdn_ok rdns ->
  tokens (render_dn rdns) = separated (Raw ","%char) (rev (map rdn_tokens rdns)).
Proof.
  intros Hl. pose proof (join_reads "," (Raw ","%char) (rev (map render_rdn rdns)) ltac:(by apply reads_raw) (rev (map rdn_tokens rdns))) as Hj.
  rewrite <- (app_nil_r (separated _ _)). change (@nil Token) with (tokens ""). rewrite <- Hj.
  - unfold render_dn. f_equal. by rewrite append_empty_r.
  - rewrite <- !map_rev. apply Forall2_map_l, Forall_rev. eapply Forall_impl; [exact Hl|]. apply rdn_reads.
Qed.

(** The empty text is the name of no relative name, and of one without attributes. *)
Lemma render_dn_inj rdns rdns' : Forall rdn_ok rdns -> Forall rdn_ok rdns' ->
  render_dn rdns <> ""%string -> render_dn rdns = render_dn rdns' -> map (map view) rdns = map (map view) rdns'.
Proof.
  intros Hok Hok' Hne H.
  assert (Hsome : forall l, render_dn l <> ""%string -> rev (map rdn_tokens l) <> []).
  { intros l Hl Hr. apply (f_equal (@rev _)) in Hr. rewrite rev_involutive in Hr. by destruct l. }
  assert (Hp : forall l, Forall rdn_ok l -> Forall (fun p => ~ In (Raw ","%char) p) (rev (map rdn_tokens l))).
  { intros l Hl. apply Forall_rev, Forall_map. eapply Forall_impl; [exact Hl|]. apply rdn_free. }
  pose proof (f_equal tokens H) as Ht. rewrite !render_dn_tokens in Ht by done.
  apply separated_inj_some in Ht; [|by apply Hsome|apply Hsome; by rewrite <- H|by apply Hp..].
  apply (f_equal (@rev _)) in Ht. rewrite !rev_involutive in Ht.
  eapply (map_inj_view rdn_ok rdn_tokens); [|exact Hok|exact Hok'|exact Ht]. apply rdn_inj.
Qed.

(** ** What the reader takes *)

(** [read] splits its input: a header, the value, and the rest. *)
Lemma read_splits input tlv rest : read input = Some (tlv, rest) ->
  exists header, input = header ++ tlv_value tlv ++ rest /\ head header = Some (tag tlv) /\ (2 <= length header)%nat.
Proof.
  destruct input as [|t input]; [done|]. cbn [read]. destruct (_ =? _); [done|]. intros H.
  apply bind_Some in H as ([n r] & Hl & H). destruct (_ <? _) eqn:Hn; [done|]. injection H as <- <-. cbn [tag tlv_value].
  assert (Hr : exists h, input = h ++ r /\ (1 <= length h)%nat).
  { destruct input as [|f input]; [done|]. cbn [read_length] in Hl. destruct (f <? 0x80); [injection Hl as <- <-; by exists [f]|].
    cbn zeta in Hl. destruct (_ || _); [done|]. destruct (bool_decide _); [done|]. apply bind_Some in Hl as (m & _ & [= <- <-]).
    exists (f :: take (Z.to_nat (Z.land f 0x7f)) input). cbn. rewrite take_drop. split; [done|lia]. }
  destruct Hr as (h & -> & Hh). exists (t :: h). rewrite take_drop. split; [done|]. split; [done|]. cbn. lia.
Qed.

Lemma tlv_read_ok input tlv rest : Forall is_byte input -> read input = Some (tlv, rest) -> tlv_ok tlv /\ Forall is_byte rest.
Proof.
  intros Hb (h & -> & Ht & _)%read_splits. apply Forall_app in Hb as [Hh [Hv Hr]%Forall_app]. split; [|done]. split; [|done].
  destruct h as [|t h]; [done|]. injection Ht as <-. by apply Forall_cons in Hh as [Hh _].
Qed.

Lemma expect_Some t input v rest : expect t input = Some (v, rest) <-> exists tlv, read input = Some (tlv, rest) /\ tag tlv = t /\ tlv_value tlv = v.
Proof.
  unfold expect. rewrite bind_Some. split.
  - intros ([tlv r] & Hr & H). destruct (Z.eqb_spec (tag tlv) t); [|done]. injection H as <- <-. by exists tlv.
  - intros (tlv & Hr & Ht & <-). exists (tlv, rest). split; [done|]. by rewrite Ht, Z.eqb_refl.
Qed.

Lemma expect_ok t input v rest : Forall is_byte input -> expect t input = Some (v, rest) -> Forall is_byte v /\ Forall is_byte rest.
Proof. intros Hb (tlv & Hr & _ & <-)%expect_Some. by destruct (tlv_read_ok _ _ _ Hb Hr) as [[_ ?] ?]. Qed.

Lemma read_exact_ok input t v : Forall is_byte input -> read_exact input t = Some v -> Forall is_byte v.
Proof.
  unfold read_exact. intros Hb ([tlv r] & Hr & H)%bind_Some. destruct (_ && _); [|done]. injection H as <-.
  by destruct (tlv_read_ok _ _ _ Hb Hr) as [[_ ?] ?].
Qed.

(** A property of what a loop over entries builds. *)
Lemma entries_invariant {S} (P : S -> Prop) (step : Tlv -> S -> option S) bound input s s' :
  (forall tlv s s', tlv_ok tlv -> P s -> step tlv s = Some s' -> P s') ->
  Forall is_byte input -> P s -> entries step bound input s = Some s' -> P s'.
Proof.
  intros Hstep. revert input s. induction bound as [|bound IH]; intros [|b input] s Hb Hs H; cbn [entries] in H; try (by simplify_eq).
  apply bind_Some in H as ([tlv rest] & Hr & H). apply bind_Some in H as (t & Ht & H).
  destruct (tlv_read_ok _ _ _ Hb Hr) as [Htlv Hrest]. eapply IH; [exact Hrest| |exact H]. by eapply Hstep.
Qed.

Definition rdns_ok (rdns : list (list (list Z * Tlv))) : Prop := Forall rdn_ok rdns.

Lemma relative_names_ok bound input rdns : Forall is_byte input -> entries relative_name bound input [] = Some rdns -> rdns_ok rdns.
Proof.
  intros Hb. apply (entries_invariant rdns_ok); [|done|constructor]. intros tlv s s' [_ Hv] Hs H. unfold relative_name in H.
  destruct (negb _); [done|]. apply bind_Some in H as (attributes & Ha & [= <-]). apply Forall_app. split; [done|].
  constructor; [|constructor]. revert Ha. apply (entries_invariant (Forall (fun a => tlv_ok (snd a)))); [|done|constructor].
  clear. intros tlv s s' [_ Hv] Hs H. unfold attribute in H. destruct (negb _); [done|].
  apply bind_Some in H as ([kind tail] & Hk & H). apply bind_Some in H as ([v tl] & Hr & H).
  destruct (bool_decide _); [|done]. injection H as <-. apply Forall_app. split; [done|]. constructor; [|constructor]. cbn.
  apply expect_ok in Hk as [_ Ht]; [|done]. by apply tlv_read_ok in Hr as [? _].
Qed.

(** The relative names of a certificate's subject. *)
Definition subject_field (der : list Z) : option (list Z) :=
  certificate ← read_exact der SEQUENCE;
  '(tbs, _) ← expect SEQUENCE certificate;
  '(first, rest) ← read tbs;
  rest ← (if tag first =? 0xa0 then '(_, rest) ← expect INTEGER rest; Some rest else Some rest);
  '(_, rest) ← expect SEQUENCE rest;
  '(_, rest) ← expect SEQUENCE rest;
  '(_, rest) ← expect SEQUENCE rest;
  '(subject, _) ← expect SEQUENCE rest;
  Some subject.
Definition subject_rdns (der : list Z) : option (list (list (list Z * Tlv))) :=
  subject ← subject_field der; entries relative_name MAX_ENTRIES subject [].

(** No loop after the subject changes it. *)
Lemma entries_keep_dn step bound input ns ns' :
  (forall tlv s s', step tlv s = Some s' -> subject_dn s' = subject_dn s) ->
  entries step bound input ns = Some ns' -> subject_dn ns' = subject_dn ns.
Proof.
  intros Hstep. revert input ns. induction bound as [|bound IH]; intros [|b input] ns H; cbn [entries] in H; try (by simplify_eq).
  apply bind_Some in H as ([tlv rest] & _ & H). apply bind_Some in H as (t & Ht & H). rewrite (IH _ _ H). by eapply Hstep.
Qed.

Lemma general_name_keeps tlv s s' : general_name tlv s = Some s' -> subject_dn s' = subject_dn s.
Proof.
  unfold general_name. repeat (destruct (_ =? _); [by intros (? & _ & [= <-])%bind_Some|]). by intros [= <-].
Qed.

Lemma extension_keeps tlv s s' : extension tlv s = Some s' -> subject_dn s' = subject_dn s.
Proof.
  unfold extension. destruct (negb _); [done|]. intros ([id tail] & _ & H)%bind_Some. apply bind_Some in H as ([n a] & _ & H).
  apply bind_Some in H as (v & _ & H). destruct (bool_decide _); [|by injection H as <-].
  apply bind_Some in H as (i & _ & H). exact (entries_keep_dn _ _ _ _ _ general_name_keeps H).
Qed.

Lemma tbs_field_keeps tlv s s' : tbs_field tlv s = Some s' -> subject_dn s' = subject_dn s.
Proof.
  unfold tbs_field. destruct (_ =? _); [|by intros [= <-]]. intros (e & _ & H)%bind_Some.
  exact (entries_keep_dn _ _ _ _ _ extension_keeps H).
Qed.

Lemma read_exact_Some input t v : read_exact input t = Some v -> expect t input = Some (v, []).
Proof.
  unfold read_exact. intros ([tlv r] & Hr & H)%bind_Some. destruct (Z.eqb_spec (tag tlv) t); [|done].
  destruct (bool_decide_reflect (r = [])) as [->|]; [|done]. injection H as <-. apply expect_Some. by exists tlv.
Qed.

Lemma names_subject der ns : Forall is_byte der -> names der = Some ns ->
  exists rdns, subject_rdns der = Some rdns /\ rdns_ok rdns /\ subject_dn ns = render_dn rdns.
Proof.
  intros Hb H. unfold names in H. apply bind_Some in H as (c & Hc & H). apply bind_Some in H as ([tbs r1] & Ht & H).
  apply bind_Some in H as ([a r2] & _ & H). apply bind_Some in H as ([b r3] & _ & H). destruct (bool_decide _); [|done].
  assert (Hs : exists subject dn, subject_field der = Some subject /\ Forall is_byte subject /\
    distinguished_name subject = Some dn /\ subject_dn ns = dn).
  { pose proof (read_exact_ok _ _ _ Hb Hc) as Bc. destruct (expect_ok _ _ _ _ Bc Ht) as [Bt _].
    unfold subject_field. rewrite Hc. cbn [mbind option_bind]. rewrite Ht. cbn [mbind option_bind]. unfold tbs_names in H.
    apply bind_Some in H as ([first rest] & Hf & H). destruct (tlv_read_ok _ _ _ Bt Hf) as [_ Bf]. rewrite Hf. cbn [mbind option_bind].
    apply bind_Some in H as (rest0 & H0 & H).
    assert (Hr0 : (if tag first =? 0xa0 then '(_, rest) ← expect INTEGER rest; Some rest else Some rest) = Some rest0 /\ Forall is_byte rest0).
    { destruct (tag first =? 0xa0); [|by destruct (tag first =? INTEGER); simplify_eq]. split; [done|].
      apply bind_Some in H0 as ([? ?] & H0 & [= <-]). by apply (expect_ok _ _ _ _ Bf H0). }
    destruct Hr0 as [-> B0]. cbn [mbind option_bind].
    apply bind_Some in H as ([v1 s1] & H1 & H). destruct (expect_ok _ _ _ _ B0 H1) as [_ B1]. rewrite H1. cbn [mbind option_bind].
    apply bind_Some in H as ([v2 s2] & H2 & H). destruct (expect_ok _ _ _ _ B1 H2) as [_ B2]. rewrite H2. cbn [mbind option_bind].
    apply bind_Some in H as ([v3 s3] & H3 & H). destruct (expect_ok _ _ _ _ B2 H3) as [_ B3]. rewrite H3. cbn [mbind option_bind].
    apply bind_Some in H as ([v4 s4] & H4 & H). destruct (expect_ok _ _ _ _ B3 H4) as [B4 _]. rewrite H4. cbn [mbind option_bind].
    apply bind_Some in H as ([v5 s5] & _ & H). apply bind_Some in H as (dn & Hdn & H). exists v4, dn. split_and!; try done.
    exact (entries_keep_dn _ _ _ _ _ tbs_field_keeps H). }
  destruct Hs as (subject & dn & Hf & Bs & Hdn & ->). unfold distinguished_name in Hdn.
  apply bind_Some in Hdn as (rdns & Hp & [= <-]). exists rdns. unfold subject_rdns. rewrite Hf. split; [exact Hp|]. split; [|done].
  by eapply relative_names_ok.
Qed.

(** C40: A registered distinguished name is one name. Two certificates that match one that
    is not empty, whatever their bytes, have subjects of the same relative names in the same
    order, each with attributes of the same types and the same values in the same order:
    nothing written inside a value makes it read as another part of the name, and no short
    name stands for another type. A type is its object identifier, by its subidentifiers;
    those the reader does not read ([read_oid] is [None]: cut short, a subidentifier past 64
    bits, or a first one of more than one byte) count as one type. A value is its text
    where it is read as text, whatever string type it has, and otherwise its tag and bytes. *)
Theorem registered_name_is_one v der der' :
  Forall is_byte der -> Forall is_byte der' -> v <> ""%string ->
  ClientCertificate.matches der (SubjectDn v) = true -> ClientCertificate.matches der' (SubjectDn v) = true ->
  exists rdns rdns', subject_rdns der = Some rdns /\ subject_rdns der' = Some rdns' /\
    map (map view) rdns = map (map view) rdns'.
Proof.
  unfold ClientCertificate.matches, ClientCertificate.subject. intros Hb Hb' Hv H H'.
  destruct (names der) as [ns|] eqn:Hn; [|done]. destruct (names der') as [ns'|] eqn:Hn'; [|done].
  apply String.eqb_eq in H, H'. destruct (names_subject _ _ Hb Hn) as (rdns & Hs & Hok & Hdn).
  destruct (names_subject _ _ Hb' Hn') as (rdns' & Hs' & Hok' & Hdn'). exists rdns, rdns'. split; [done|]. split; [done|].
  apply render_dn_inj; [done..|congruence|congruence].
Qed.

(** Where the reading departs from what the code says of it: a length below 128 has two
    spellings, and an object identifier of the third root past 2.39 is not written in its dotted decimal
    form; two identifiers under 2.25, which give an arc of 128 bits to a UUID, are one type. *)
Theorem der_read_otherwise :
  read [4; 0x81; 1; 7] = read [4; 1; 7] /\ dotted [0x88; 0x37] = "3.16.55"%string
  /\ attribute_type (0x69 :: repeat 0x83 18 ++ [1]) = attribute_type (0x69 :: repeat 0x83 18 ++ [2]).
Proof. vm_compute. done. Qed.

(** ** Two certificates of one name *)

Definition der_tlv (t : Z) (v : list Z) : list Z := t :: Z.of_nat (length v) :: v.
Definition sample_certificate (serial : Z) : list Z :=
  let common_name := der_tlv SEQUENCE (der_tlv OID [0x55; 0x04; 0x03] ++ der_tlv 0x0c (bytes_of "a,O=b")) in
  let tbs := der_tlv INTEGER [serial] ++ der_tlv SEQUENCE [] ++ der_tlv SEQUENCE [] ++ der_tlv SEQUENCE []
             ++ der_tlv SEQUENCE (der_tlv SET common_name) ++ der_tlv SEQUENCE [] in
  der_tlv SEQUENCE (der_tlv SEQUENCE tbs ++ der_tlv SEQUENCE [] ++ der_tlv BIT_STRING []).

Lemma bytes_decided l : forallb (in_range 0 255) l = true -> Forall is_byte l.
Proof.
  rewrite forallb_forall. intros H. apply Forall_forall. intros b Hb%list_elem_of_In%H. unfold in_range in Hb. unfold is_byte. lia.
Qed.

Lemma registered_name_is_one_witness : exists rdns rdns',
  subject_rdns (sample_certificate 1) = Some rdns /\ subject_rdns (sample_certificate 2) = Some rdns' /\
  map (map view) rdns = [[(Some [0x55; 4; 3], AsText "a,O=b")]].
Proof.
  destruct (registered_name_is_one "CN=a\,O=b" (sample_certificate 1) (sample_certificate 2)) as (rdns & rdns' & H1 & H2 & _);
    [apply bytes_decided; vm_compute; reflexivity|apply bytes_decided; vm_compute; reflexivity|done|
     vm_compute; reflexivity|vm_compute; reflexivity|].
  exists rdns, rdns'. split; [exact H1|]. split; [exact H2|]. clear H2. vm_compute in H1. injection H1 as <-. vm_compute. reflexivity.
Defined.
