(* ===== verification/Decision.v ===== *)
(** * What an authorization request needs next

    [crates/oidc/src/decision.rs]: the requirements of a stored request, the
    session the browser brings, and the one function that decides between
    answering silently, asking for something, and refusing. [Prompt] is
    [crates/oidc/src/authorize.rs]'s. *)

From S2P Require Import Prelude BTree Json Session Acr.
From S2P Require Import Claims.
Open Scope Z_scope.

Inductive Prompt : Type :=
| PromptNone | PromptLogin | PromptConsent | PromptSelectAccount | PromptCreate.

#[export] Instance prompt_eq_dec : EqDecision Prompt.
Proof. solve_decision. Defined.

Module Prompt.
Definition ALL : list Prompt :=
  [PromptNone; PromptLogin; PromptConsent; PromptSelectAccount; PromptCreate].

Definition as_str (p : Prompt) : string :=
  match p with
  | PromptNone => "none"
  | PromptLogin => "login"
  | PromptConsent => "consent"
  | PromptSelectAccount => "select_account"
  | PromptCreate => "create"
  end.

Definition parse (v : string) : option Prompt :=
  List.find (fun p => String.eqb (as_str p) v) ALL.

(** [derive(Ord)]: declaration order. *)
Definition index (p : Prompt) : nat :=
  match p with
  | PromptNone => 0 | PromptLogin => 1 | PromptConsent => 2
  | PromptSelectAccount => 3 | PromptCreate => 4
  end.
End Prompt.

#[export] Instance prompt_ord : Ord Prompt :=
  ord_via Prompt.index
    ltac:(intros [] []; cbn; intros; first [reflexivity | discriminate]).

Inductive Unmet : Type :=
| LoginRequired | ConsentRequired | InteractionRequired | AccountSelectionRequired
| UnmetAuthenticationRequirements.

#[export] Instance unmet_eq_dec : EqDecision Unmet.
Proof. solve_decision. Defined.

Module Unmet.
Definition code (u : Unmet) : string :=
  match u with
  | LoginRequired => "login_required"
  | ConsentRequired => "consent_required"
  | InteractionRequired => "interaction_required"
  | AccountSelectionRequired => "account_selection_required"
  | UnmetAuthenticationRequirements => "unmet_authentication_requirements"
  end.
End Unmet.

(** [decision::Interaction]. *)
Inductive NextStep : Type :=
| Silent | ToLogin | ToSelectAccount | ToStepUp | ToConsent | ToRegister
| Refuse (why : Unmet).

#[export] Instance next_step_eq_dec : EqDecision NextStep.
Proof. solve_decision. Defined.

Inductive Consent : Type := Granted | Required.

#[export] Instance consent_eq_dec : EqDecision Consent.
Proof. solve_decision. Defined.

(** [SessionState]. *)
Inductive SessionState : Type :=
| NoSession
| ActiveSession (session : Session) (subject : option string) (consent : Consent).

Record DecisionPolicy : Type := { account_chooser : bool }.

(** ** The tenant's authentication contexts

    The trait [decision::AcrPolicy]: the two questions, and the check of a recorded
    session, with what [decide] relies on as laws. *)

Class AcrDecider (P : Type) := {
  can_satisfy : P -> list string -> bool;
  satisfied_by : P -> option string -> list string -> bool;
  session_satisfies : P -> Session -> list string -> bool;
  can_satisfy_nothing : forall p, can_satisfy p [] = true;
  session_satisfies_asked : forall p s requested,
    session_satisfies p s requested = true ->
    requested = [] \/ exists v, s_acr s = Some v /\ In v requested;
  session_satisfies_nothing : forall p s, session_satisfies p s [] = true
}.

(** [satisfied_by] of both implementations: string equality. *)
Definition names_achieved (achieved : option string) (requested : list string) : bool :=
  match requested with
  | [] => true
  | _ => is_some_and (fun v => in_strings v requested) achieved
  end.

Lemma names_achieved_true achieved requested :
  names_achieved achieved requested = true <->
  requested = [] \/ exists v, achieved = Some v /\ In v requested.
Proof.
  destruct requested as [|r l]; [cbn; intuition|]. unfold names_achieved.
  destruct achieved as [v|]; cbn [is_some_and].
  - rewrite in_strings_In. split; [right; by exists v|]. intros [|(w & [= <-] & Hw)]; done.
  - split; [done|]. intros [|(w & ? & _)]; done.
Qed.

(** The tenant's ladder: [impl AcrPolicy for asterius_domain::AcrPolicy]. *)
Definition ladder_session_satisfies (p : AcrPolicy) (s : Session) (requested : list string) : bool :=
  match requested with
  | [] => true
  | _ =>
      names_achieved (s_acr s) requested
      && is_some_and (fun l => AcrLevel.is_met_by l (s_amr s)) (s_acr s ≫= AcrPolicy.level p)
  end.

#[export, refine] Instance ladder_decider : AcrDecider AcrPolicy := {
  can_satisfy := AcrPolicy.can_satisfy;
  satisfied_by := fun _ => names_achieved;
  session_satisfies := ladder_session_satisfies
}.
Proof.
  - done.
  - intros p s [|r l] H; [by left|]. unfold ladder_session_satisfies in H. bool_hyps.
    by apply names_achieved_true.
  - done.
Defined.

(** A tenant that has configured no contexts. *)
Inductive NoAcrPolicy : Type := no_acr_policy.

#[export, refine] Instance no_acr_decider : AcrDecider NoAcrPolicy := {
  can_satisfy := fun _ requested => bool_decide (requested = []);
  satisfied_by := fun _ => names_achieved;
  session_satisfies := fun _ s => names_achieved (s_acr s)
}.
Proof.
  - done.
  - intros p s requested. apply names_achieved_true.
  - done.
Defined.

(** ** The requirements of a request *)

Record Requirements : Type := {
  prompts : list Prompt;            (** a [BTreeSet] *)
  max_age : option Z;               (** a [u32], in seconds *)
  hinted_subject : option string;
  acr_values : list string;
  essential_acr : list string
}.

Definition default_requirements : Requirements := {|
  prompts := []; max_age := None; hinted_subject := None; acr_values := []; essential_acr := [] |}.

(** The strings of a member that is an array, the others passed over. *)
Definition strings_of (parameters : value) (name : string) : list string :=
  match vget name parameters ≫= as_array with
  | Some values => omap as_str values
  | None => []
  end.

Section FromParameters.
Variable from_str : string -> option value.
Variable json_text : value -> string.

(** Of the stored request, nothing where it cannot be read back. *)
Definition essential_values (parameters : value) : list string :=
  match (vget "claims" parameters ≫= readable_request from_str json_text) ≫= cr_acr with
  | Some acr => if essential acr then omap as_str (accepted_values acr) else []
  | None => []
  end.

(** [Requirements::from_parameters]. *)
Definition from_parameters (parameters : value) : Requirements := {|
  prompts := bset_of_list (omap Prompt.parse (strings_of parameters "prompts"));
  max_age := match vget "max_age" parameters ≫= as_u64 with
             | Some seconds => if seconds <=? 0xFFFFFFFF then Some seconds else None
             | None => None
             end;
  hinted_subject := vget "id_token_hint_sub" parameters ≫= as_str;
  acr_values := strings_of parameters "acr_values";
  essential_acr := essential_values parameters |}.
End FromParameters.

Definition asks (r : Requirements) (p : Prompt) : bool := bset_mem p (prompts r).
Definition is_silent (r : Requirements) : bool := asks r PromptNone.

(** ** The decision *)

Inductive Presence : Type := Absent | Present.
Inductive Whose : Type := AsRequested | SomebodyElse.
Inductive Freshness : Type := Fresh | Stale.
Inductive AcrContext : Type := Met | NotMet.

(** [Facts]. *)
Record Facts : Type := {
  f_session : Presence; f_subject : Whose; f_authentication : Freshness; f_context : AcrContext
}.

Definition silent_refusal (facts : Facts) (consent : Consent) (policy : DecisionPolicy) : option Unmet :=
  match f_session facts with
  | Absent => Some LoginRequired
  | Present =>
      match f_subject facts with
      | SomebodyElse =>
          Some (if account_chooser policy then AccountSelectionRequired else LoginRequired)
      | AsRequested =>
          match f_authentication facts with
          | Stale => Some LoginRequired
          | Fresh =>
              match f_context facts with
              | NotMet => Some InteractionRequired
              | Met => match consent with Granted => None | Required => Some ConsentRequired end
              end
          end
      end
  end.

Definition session_of (state : SessionState) : option Session :=
  match state with NoSession => None | ActiveSession s _ _ => Some s end.
Definition subject_of (state : SessionState) : option string :=
  match state with NoSession => None | ActiveSession _ subject _ => subject end.
Definition consent_of (state : SessionState) : Consent :=
  match state with NoSession => Required | ActiveSession _ _ consent => consent end.

Section Questions.
Context {P : Type} `{AcrDecider P}.

(** The four questions [decide] settles first. *)
Definition wrong_subject (r : Requirements) (state : SessionState) : bool :=
  match hinted_subject r, session_of state with
  | Some hinted, Some _ => negb (bool_decide (subject_of state = Some hinted))
  | _, _ => false
  end.

Definition must_reauthenticate (r : Requirements) (state : SessionState) (now : Z) : bool :=
  is_some_and (fun s => asks r PromptLogin || Session.needs_reauthentication s (max_age r) now)
    (session_of state).

Definition acr_met (acr : P) (r : Requirements) (state : SessionState) : bool :=
  match session_of state with
  | None => satisfied_by acr None (essential_acr r)
  | Some s => session_satisfies acr s (essential_acr r)
  end.

Definition facts_of (acr : P) (r : Requirements) (state : SessionState) (now : Z) : Facts := {|
  f_session := match session_of state with None => Absent | Some _ => Present end;
  f_subject := if wrong_subject r state then SomebodyElse else AsRequested;
  f_authentication := if must_reauthenticate r state now then Stale else Fresh;
  f_context := if acr_met acr r state then Met else NotMet |}.

Definition no_session (state : SessionState) : bool :=
  match session_of state with None => true | Some _ => false end.

End Questions.

Module NextStep.
Definition decide {P : Type} `{AcrDecider P} (r : Requirements) (state : SessionState) (policy : DecisionPolicy) (acr : P) (now : Z)
    : NextStep :=
  if negb (can_satisfy acr (essential_acr r)) then Refuse UnmetAuthenticationRequirements
  else if asks r PromptCreate then ToRegister
  else if is_silent r then
    match silent_refusal (facts_of acr r state now) (consent_of state) policy with
    | Some unmet => Refuse unmet
    | None => Silent
    end
  else
    let chooser_asked := asks r PromptSelectAccount in
    if no_session state || must_reauthenticate r state now || wrong_subject r state || chooser_asked
    then if account_chooser policy && chooser_asked then ToSelectAccount else ToLogin
    else if negb (acr_met acr r state) then ToStepUp
    else if asks r PromptConsent || bool_decide (consent_of state = Required) then ToConsent
    else Silent.
End NextStep.

(** ** The table

    The documentation of [decide] as a table: rows of a condition and an outcome, the
    first that applies. *)

Definition first_row {A} (rows : list (bool * A)) (otherwise : A) : A :=
  match List.find fst rows with Some (_, outcome) => outcome | None => otherwise end.

Section Laws.
Context {P : Type} `{AcrDecider P}.
Implicit Types (r : Requirements) (state : SessionState) (policy : DecisionPolicy) (acr : P).

Definition decision_table r state policy acr now : list (bool * NextStep) :=
  let none := is_silent r in
  let stale := must_reauthenticate r state now in
  let chooser := account_chooser policy in
  [ (negb (can_satisfy acr (essential_acr r)), Refuse UnmetAuthenticationRequirements);
    (asks r PromptCreate, ToRegister);
    (none && no_session state, Refuse LoginRequired);
    (none && wrong_subject r state,
     Refuse (if chooser then AccountSelectionRequired else LoginRequired));
    (none && stale, Refuse LoginRequired);
    (none && negb (acr_met acr r state), Refuse InteractionRequired);
    (none && bool_decide (consent_of state = Required), Refuse ConsentRequired);
    (none, Silent);
    (asks r PromptSelectAccount && chooser, ToSelectAccount);
    (stale || no_session state || wrong_subject r state || asks r PromptSelectAccount, ToLogin);
    (negb (acr_met acr r state), ToStepUp);
    (asks r PromptConsent || bool_decide (consent_of state = Required), ToConsent) ].

Lemma decide_rows r state policy acr now :
  NextStep.decide r state policy acr now = first_row (decision_table r state policy acr now) Silent.
Proof.
  unfold NextStep.decide, first_row, decision_table, facts_of, silent_refusal. cbn zeta.
  cbn [List.find fst f_session f_subject f_authentication f_context].
  destruct (can_satisfy acr (essential_acr r)); cbn [negb]; [|done].
  destruct (asks r PromptCreate); [done|].
  unfold no_session. destruct (is_silent r), (session_of state), (wrong_subject r state),
    (must_reauthenticate r state now), (acr_met acr r state), (asks r PromptSelectAccount),
    (account_chooser policy), (asks r PromptConsent), (consent_of state); done.
Qed.

(** [decide] is the table of its documentation: the outcome of the first of the
    twelve rows whose condition holds, and a silent answer where none does. *)
Theorem decide_is_table r state policy acr now :
  NextStep.decide r state policy acr now = first_row (decision_table r state policy acr now) Silent.
Proof. apply decide_rows. Qed.

Lemma wrong_subject_false r s subject consent :
  wrong_subject r (ActiveSession s subject consent) = false <->
  forall hinted, hinted_subject r = Some hinted -> subject = Some hinted.
Proof.
  unfold wrong_subject. cbn. destruct (hinted_subject r) as [h|]; [|naive_solver].
  rewrite negb_false_iff, bool_decide_eq_true. naive_solver.
Qed.

(** A request is answered silently exactly when its essential contexts are
    attainable and the browser has a usable session that is of the subject named,
    fresh for [max_age], of an authentication context asked for, with consent on
    record, and neither a new sign-in nor an account is asked for; and, unless the
    client forbade every page, neither a choice of account nor a renewed consent is
    asked for. *)
Theorem silent_iff r state policy acr now :
  NextStep.decide r state policy acr now = Silent <->
  can_satisfy acr (essential_acr r) = true /\ asks r PromptCreate = false /\
  exists s subject,
    state = ActiveSession s subject Granted /\
    (forall hinted, hinted_subject r = Some hinted -> subject = Some hinted) /\
    asks r PromptLogin = false /\
    (forall age, max_age r = Some age -> now - s_authenticated_at s <= seconds age) /\
    session_satisfies acr s (essential_acr r) = true /\
    (is_silent r = true \/
     asks r PromptSelectAccount = false /\ asks r PromptConsent = false).
Proof.
  assert (Hfresh : forall s, Session.needs_reauthentication s (max_age r) now = false <->
    forall age, max_age r = Some age -> now - s_authenticated_at s <= seconds age).
  { intros s. unfold Session.needs_reauthentication. destruct (max_age r) as [a|]; cbn; [|naive_solver].
    rewrite Z.ltb_ge. naive_solver. }
  rewrite decide_rows. unfold first_row, decision_table. cbn zeta. cbn [List.find fst].
  split.
  - destruct (can_satisfy acr (essential_acr r)); cbn [negb]; [|done].
    destruct (asks r PromptCreate); [done|].
    unfold no_session, must_reauthenticate, acr_met.
    destruct state as [|s subject consent]; cbn [session_of consent_of is_some_and];
      [destruct (is_silent r), (asks r PromptSelectAccount), (account_chooser policy); done|].
    intros Hd. split_and!; [done..|]. exists s, subject.
    rewrite <- Hfresh, <- (wrong_subject_false r s subject consent).
    destruct (wrong_subject r _), (asks r PromptLogin), (Session.needs_reauthentication _ _ _),
      (session_satisfies acr s _), consent, (is_silent r), (asks r PromptSelectAccount),
      (account_chooser policy), (asks r PromptConsent); cbn in Hd; try discriminate Hd;
      split_and!; auto.
  - intros (-> & -> & s & subject & -> & Hs%(wrong_subject_false r s subject Granted) & Hl & Ha & Hc & Hp).
    apply Hfresh in Ha. unfold no_session, must_reauthenticate, acr_met.
    cbn [negb session_of consent_of is_some_and]. rewrite Hs, Hl, Ha, Hc. cbn.
    destruct Hp as [->|[Hp1 Hp2]]; [done|]. rewrite Hp1, Hp2. by destruct (is_silent r).
Qed.

Definition with_prompts r (ps : list Prompt) : Requirements := {|
  prompts := ps; max_age := max_age r; hinted_subject := hinted_subject r;
  acr_values := acr_values r; essential_acr := essential_acr r |}.

(** What a request without [prompt=none] is shown where the one with it was refused. *)
Definition page_for (step : NextStep) : NextStep :=
  match step with
  | Refuse (LoginRequired | AccountSelectionRequired) => ToLogin
  | Refuse InteractionRequired => ToStepUp
  | Refuse ConsentRequired => ToConsent
  | step => step
  end.

(** With [prompt=none] nothing is ever shown: the answer is silent or an error,
    and the error is the one of the page the same request without a [prompt] is sent
    to; without it no request is refused but for contexts the tenant can never
    produce, and those are refused whatever the prompts. *)
Theorem prompt_none_mirrors_pages r state policy acr now :
  (is_silent r = true -> asks r PromptCreate = false ->
   NextStep.decide r state policy acr now = Silent \/
   exists why, NextStep.decide r state policy acr now = Refuse why) /\
  NextStep.decide (with_prompts r []) state policy acr now =
    page_for (NextStep.decide (with_prompts r [PromptNone]) state policy acr now) /\
  (NextStep.decide r state policy acr now = Refuse UnmetAuthenticationRequirements <->
   can_satisfy acr (essential_acr r) = false) /\
  (is_silent r = false -> forall why, NextStep.decide r state policy acr now = Refuse why ->
   why = UnmetAuthenticationRequirements).
Proof.
  rewrite !decide_rows. unfold first_row, decision_table. cbn zeta.
  cbn [List.find fst].
  change (is_silent (with_prompts r [])) with false.
  change (is_silent (with_prompts r [PromptNone])) with true.
  change (asks (with_prompts r ?l) PromptCreate) with false.
  change (asks (with_prompts r ?l) PromptConsent) with false.
  change (asks (with_prompts r ?l) PromptSelectAccount) with false.
  assert (Hs : forall l, PromptLogin ∉ l ->
    must_reauthenticate (with_prompts r l) state now =
    is_some_and (fun s => Session.needs_reauthentication s (max_age r) now) (session_of state)).
  { intros l Hl. unfold must_reauthenticate, asks. destruct (session_of state); [|done].
    cbn [is_some_and with_prompts prompts max_age].
    rewrite (proj2 (bset_mem_false PromptLogin l)); [done|]. by rewrite <- list_elem_of_In. }
  rewrite !Hs by set_solver.
  cbn [with_prompts essential_acr hinted_subject].
  change (wrong_subject (with_prompts r ?l) state) with (wrong_subject r state).
  change (acr_met acr (with_prompts r ?l) state) with (acr_met acr r state).
  destruct (can_satisfy acr (essential_acr r)); cbn [negb fst snd];
    [|split_and!; intuition (eauto; congruence)].
  split_and!.
  - intros -> ->. cbn [andb]. unfold no_session.
    destruct (session_of state), (wrong_subject r state), (must_reauthenticate r state now),
      (acr_met acr r state), (consent_of state); cbn; eauto.
  - unfold no_session. destruct (session_of state) as [s|]; cbn [is_some_and orb andb fst]; [|done].
    destruct (wrong_subject r state), (Session.needs_reauthentication s (max_age r) now),
      (acr_met acr r state), (account_chooser policy), (consent_of state); done.
  - split; [|done]. destruct (asks r PromptCreate); [done|]. unfold no_session.
    destruct (is_silent r), (session_of state), (wrong_subject r state),
      (must_reauthenticate r state now), (acr_met acr r state), (asks r PromptSelectAccount),
      (account_chooser policy), (asks r PromptConsent), (consent_of state); done.
  - intros ->. cbn [andb]. destruct (asks r PromptCreate); [done|]. unfold no_session.
    destruct (session_of state), (wrong_subject r state),
      (must_reauthenticate r state now), (acr_met acr r state), (asks r PromptSelectAccount),
      (account_chooser policy), (asks r PromptConsent), (consent_of state); done.
Qed.
End Laws.

(** ** A request that is lost

    Sixty-four claims for the ID token, and an essential [acr] asked for of the other
    endpoint. *)

Definition crowded : value := jobj [
  ("id_token", jobj (map (fun n => ("claim_" +:+ pretty n, VNull))%string (seq 0 64)));
  ("userinfo", jobj [("acr", jobj [("essential", VBool true); ("values", VArray [VString "gold"])])])]%string.
Definition crowded_request : ClaimsRequest :=
  match ClaimsRequest.read crowded with Ok r => r | Err _ => default_claims end.

Section Lost.
Variable from_str : string -> option value.
Variable json_text : value -> string.

(** C38: A request can be accepted that its own stored form is refused for. With sixty-four
    claims for the ID token and an essential [acr] for UserInfo, the stored form has
    sixty-five members in one section. Then the decision is taken as if no context had been
    essential, and the grant of the consent records the empty request. *)
Theorem accepted_request_unreadable raw others :
  let stored := ClaimsRequest.to_json crowded_request in
  let parameters := VObject (("claims"%string, stored) :: others) in
  from_str raw = Some crowded -> slen raw <= MAX_LEN ->
  from_str (json_text stored) = Some stored -> slen (json_text stored) <= MAX_LEN ->
  ClaimsRequest.parse from_str json_text raw = Ok crowded_request /\
  cr_acr crowded_request = Some {| essential := true; accepted_values := [VString "gold"] |} /\
  length (cr_id_token crowded_request) = 64%nat /\
  ClaimsRequest.from_json from_str json_text stored = Err TooManyClaims /\
  essential_acr (from_parameters from_str json_text parameters) = [] /\
  recorded_request from_str json_text parameters = default_claims.
Proof.
  cbn zeta. intros Hraw Hlen Htext Hout.
  assert (Hf : ClaimsRequest.from_json from_str json_text (ClaimsRequest.to_json crowded_request) = Err TooManyClaims).
  { unfold ClaimsRequest.from_json, ClaimsRequest.parse. rewrite Htext.
    destruct (Z.ltb_spec MAX_LEN (slen (json_text (ClaimsRequest.to_json crowded_request)))); [lia|]. by vm_compute. }
  split; [|split; [by vm_compute|split; [by vm_compute|split; [done|]]]].
  - unfold ClaimsRequest.parse. destruct (Z.ltb_spec MAX_LEN (slen raw)) as [?|_]; [lia|]. rewrite Hraw. cbn [ok_or rbind].
    replace (ClaimsRequest.read crowded) with (Ok (E := ClaimsRequestError) crowded_request) by (by vm_compute).
    cbn [rbind]. destruct (Z.ltb_spec MAX_LEN (slen (json_text (ClaimsRequest.to_json crowded_request)))); [lia|done].
  - cbn [from_parameters essential_acr]. unfold essential_values, recorded_request. cbn [vget]. rewrite bget_cons_string.
    cbn [String.eqb Ascii.eqb Bool.eqb mbind option_bind]. unfold readable_request. by rewrite Hf.
Qed.
End Lost.

Definition crowded_read (text : string) : option value :=
  Some (if String.eqb text "sent" then crowded else ClaimsRequest.to_json crowded_request).

Lemma accepted_request_unreadable_witness :
  let parameters := VObject [("claims"%string, ClaimsRequest.to_json crowded_request)] in
  ClaimsRequest.parse crowded_read (fun _ => "stored"%string) "sent" = Ok crowded_request /\
  essential_acr (from_parameters crowded_read (fun _ => "stored"%string) parameters) = [].
Proof.
  pose proof (accepted_request_unreadable crowded_read (fun _ => "stored"%string) "sent" [] eq_refl
    ltac:(vm_compute; discriminate) eq_refl ltac:(vm_compute; discriminate)) as H.
  split; [exact (proj1 H)|]. exact (proj1 (proj2 (proj2 (proj2 (proj2 H))))).
Defined.
