(* ===== verification/ConsentMemory.v ===== *)
(** * Remembered consent

    [crates/oidc/src/consent_memory.rs]: what a person has agreed to for a client,
    read off the grants they agreed it in; and from
    [crates/server/src/http/interaction.rs] the grant an approval makes ([mint]) and
    the decision to skip the screen ([skip_consent_if_remembered]).

    A [BTreeSet] that is only compared is a [gset]. [serde_json]'s reader and writer of
    text are parameters. *)

From S2P Require Import Prelude BTree Json Session Acr Roles.
From S2P Require Import Claims.
From S2P Require Import Decision.
From S2P Require Import Grants.
Open Scope Z_scope.

Definition OFFLINE_ACCESS : string := "offline_access".
Definition DEFAULT_OFFLINE_ACCESS_MEMORY : Z := days 90.

Record MemoryPolicy : Type := { always_ask : bool; offline_access_memory : Z }.

Module MemoryPolicy.
Definition new (always_ask : bool) : MemoryPolicy :=
  {| always_ask := always_ask; offline_access_memory := DEFAULT_OFFLINE_ACCESS_MEMORY |}.
End MemoryPolicy.

(** ** What a claims request discloses *)

Definition ida_surface (destination : string) (ida : option IdaRequest) : list string :=
  match ida with
  | None => []
  | Some ida =>
      let framework := from_option id "*"%string (ida_framework ida) in
      let prefix := destination +:+ ":verified_claims:" +:+ framework +:+ ":" in
      map (fun name => prefix +:+ name) (bkeys (ida_claims ida))
      ++ map (fun kind => prefix +:+ "evidence:" +:+ kind) (ida_evidence_types ida)
      ++ if ida_verification_process ida then [prefix +:+ "verification_process"] else []
  end.

Definition section_surface (prefix : string) (claims : list (ReleasableClaim * ClaimRequest)) : list string :=
  map (fun claim => prefix +:+ ":" +:+ ReleasableClaim.as_str claim) (bkeys claims).

Definition claims_surface (json_string : value -> string) (r : ClaimsRequest) : gset string :=
  list_to_set (section_surface "id_token" (cr_id_token r) ++ section_surface "userinfo" (cr_userinfo r)
    ++ match ClaimsRequest.advanced_claims_consent_surface json_string r with
       | Some asc => ["asc:" +:+ asc] | None => [] end
    ++ ida_surface "id_token" (cr_ida_id_token r)
    ++ ida_surface "userinfo" (cr_ida_userinfo r)).

(** ** Asked and remembered *)

Record Asked : Type := {
  scopes : gset string;
  claims : gset string;
  authorization_details : gset string;
  resources : gset string
}.

Definition nothing : Asked :=
  {| scopes := ∅; claims := ∅; authorization_details := ∅; resources := ∅ |}.

Definition minus (a b : Asked) : Asked := {|
  scopes := scopes a ∖ scopes b; claims := claims a ∖ claims b;
  authorization_details := authorization_details a ∖ authorization_details b;
  resources := resources a ∖ resources b |}.

Definition absorb (a b : Asked) : Asked := {|
  scopes := scopes a ∪ scopes b; claims := claims a ∪ claims b;
  authorization_details := authorization_details a ∪ authorization_details b;
  resources := resources a ∪ resources b |}.

Definition asks_nothing (a : Asked) : bool :=
  bool_decide (scopes a = ∅) && bool_decide (claims a = ∅)
  && bool_decide (authorization_details a = ∅) && bool_decide (resources a = ∅).

Definition without_offline (a : Asked) : Asked := {|
  scopes := scopes a ∖ {[ OFFLINE_ACCESS ]}; claims := claims a;
  authorization_details := authorization_details a; resources := resources a |}.

Record Remembered : Type := {
  grants : nat;
  covered : Asked;
  offline_access_at : option Z
}.

Inductive Coverage : Type := Covered | Delta (delta : Asked).

Module Coverage.
Definition consent (c : Coverage) : Consent :=
  match c with Covered => Granted | Delta _ => Required end.
Definition delta (c : Coverage) : option Asked :=
  match c with Covered => None | Delta delta => Some delta end.
End Coverage.

Section Memory.
Context {Task : Type}.
Variable from_str : string -> option value.
Variable json_string : value -> string.
Abbreviation claims_from_json := (readable_request from_str json_string).
Abbreviation surface := (claims_surface json_string).

Abbreviation Grant := (Grants.Grant Task).

Definition details_surface (elements : option value) : gset string :=
  match elements ≫= as_array with
  | Some elements => list_to_set (map json_string elements)
  | None => ∅
  end.

(** [Asked::from_parameters]. *)
Definition asked_from_parameters (parameters : value) : Asked := {|
  scopes := list_to_set (strings_of parameters "scopes");
  claims := match vget "claims" parameters ≫= claims_from_json with
            | Some request => surface request
            | None => ∅
            end;
  authorization_details := details_surface (vget "authorization_details" parameters);
  resources := list_to_set (strings_of parameters "resources") |}.

Definition material (g : Grant) : Asked := {|
  scopes := list_to_set (g_scopes g);
  claims := match claims_from_json (g_claims g) with
            | Some request => surface request
            | None => ∅
            end;
  authorization_details := list_to_set (map json_string (g_authorization_details g));
  resources := list_to_set (g_resources g) |}.

Definition stands (client subject : string) (now : Z) (g : Grant) : bool :=
  String.eqb (g_client g) client && bool_decide (g_subject g = Some subject)
  && GrantStatus.may_issue (Grants.Grant.status g now).

(** One turn of the loop of [Remembered::of_client]. *)
Definition fold_grant (client subject : string) (now : Z) (m : Remembered) (g : Grant) : Remembered :=
  if stands client subject now g then
    let held := material g in
    {| grants := S (grants m);
       covered := absorb (covered m) (without_offline held);
       offline_access_at :=
         if bool_decide (OFFLINE_ACCESS ∈ scopes held) then
           match offline_access_at m with
           | None => Some (g_created_at g)
           | Some at_ => Some (Z.max at_ (g_created_at g))
           end
         else offline_access_at m |}
  else m.

Definition of_client (gs : list Grant) (client subject : string) (now : Z) : Remembered :=
  fold_left (fold_grant client subject now) gs
    {| grants := 0; covered := nothing; offline_access_at := None |}.

Definition offline_access_is_fresh (m : Remembered) (policy : MemoryPolicy) (now : Z) : bool :=
  is_some_and (fun at_ => now <? at_ + offline_access_memory policy) (offline_access_at m).

(** The second half of [Remembered::covers]: the difference, [offline_access] taken
    out again where its consent is inside the window. *)
Definition delta_of (m : Remembered) (asked : Asked) (policy : MemoryPolicy) (now : Z) : Asked :=
  let wants_offline := bool_decide (OFFLINE_ACCESS ∈ scopes asked) in
  let delta := minus asked (covered m) in
  if wants_offline && offline_access_is_fresh m policy now then without_offline delta else delta.

Definition covers (m : Remembered) (asked : Asked) (policy : MemoryPolicy) (now : Z) : Coverage :=
  if always_ask policy || Nat.eqb (grants m) 0 then Delta asked
  else
    let delta := delta_of m asked policy now in
    if asks_nothing delta then Covered else Delta delta.

(** ** What is remembered *)

Implicit Types (gs : list Grant) (asked : Asked).

(** A standing grant of the list that meets [Q]. *)
Definition some_standing (gs : list Grant) (client subject : string) (now : Z) (Q : Grant -> Prop) : Prop :=
  exists g, g ∈ gs /\ stands client subject now g = true /\ Q g.

Lemma some_standing_nil client subject now Q : ~ some_standing [] client subject now Q.
Proof. intros (g & Hg & _). by apply elem_of_nil in Hg. Qed.

Lemma some_standing_cons g gs client subject now Q :
  some_standing (g :: gs) client subject now Q <->
  (stands client subject now g = true /\ Q g) \/ some_standing gs client subject now Q.
Proof.
  unfold some_standing. setoid_rewrite elem_of_cons. naive_solver.
Qed.

Lemma fold_grants client subject now gs m (field : Asked -> gset string) x :
  (forall a b, field (absorb a b) = field a ∪ field b) ->
  x ∈ field (covered (fold_left (fold_grant client subject now) gs m)) <->
  x ∈ field (covered m) \/
  some_standing gs client subject now (fun g => x ∈ field (without_offline (material g))).
Proof.
  intros Habs. revert m. induction gs as [|g gs IH]; intros m; cbn [fold_left].
  - pose proof (some_standing_nil client subject now). naive_solver.
  - rewrite IH, some_standing_cons. unfold fold_grant.
    destruct (stands client subject now g) eqn:Hg; [|intuition congruence].
    cbn [covered]. rewrite Habs, elem_of_union. intuition.
Qed.

Lemma fold_count client subject now gs m :
  Nat.eqb (grants (fold_left (fold_grant client subject now) gs m)) 0 = false <->
  Nat.eqb (grants m) 0 = false \/ some_standing gs client subject now (fun _ => True).
Proof.
  revert m. induction gs as [|g gs IH]; intros m; cbn [fold_left].
  - pose proof (some_standing_nil client subject now). naive_solver.
  - rewrite IH, some_standing_cons. unfold fold_grant.
    destruct (stands client subject now g) eqn:Hg; [|intuition congruence].
    cbn [grants Nat.eqb]. intuition.
Qed.

Lemma offline_in_material g :
  bool_decide (OFFLINE_ACCESS ∈ scopes (material g)) = true <-> OFFLINE_ACCESS ∈ g_scopes g.
Proof. rewrite bool_decide_eq_true. cbn [material scopes]. apply elem_of_list_to_set. Qed.

Lemma fold_fresh client subject now policy gs m :
  offline_access_is_fresh (fold_left (fold_grant client subject now) gs m) policy now = true <->
  offline_access_is_fresh m policy now = true \/
  some_standing gs client subject now (fun g =>
    OFFLINE_ACCESS ∈ g_scopes g /\ now < g_created_at g + offline_access_memory policy).
Proof.
  revert m. induction gs as [|g gs IH]; intros m; cbn [fold_left].
  - pose proof (some_standing_nil client subject now). naive_solver.
  - rewrite IH, some_standing_cons, <- offline_in_material. unfold fold_grant.
    destruct (stands client subject now g) eqn:Hg; [|intuition congruence].
    unfold offline_access_is_fresh. cbn [offline_access_at].
    destruct (bool_decide _) eqn:Hd; [|intuition congruence].
    destruct (offline_access_at m) as [a|]; cbn [is_some_and]; rewrite ?Z.ltb_lt.
    + assert (now < Z.max a (g_created_at g) + offline_access_memory policy <->
              now < a + offline_access_memory policy \/
              now < g_created_at g + offline_access_memory policy) as -> by lia. intuition.
    + intuition congruence.
Qed.

(** What a request asks for beyond [offline_access], field by field. *)
Definition agreed gs client subject now (field : Asked -> gset string) (x : string) : Prop :=
  some_standing gs client subject now (fun g => x ∈ field (material g)).

#[local] Instance some_standing_proper gs client subject now :
  Proper (pointwise_relation Grant iff ==> iff) (some_standing gs client subject now).
Proof. intros Q Q' HQ. unfold some_standing. unfold pointwise_relation in HQ. by setoid_rewrite HQ. Qed.

Lemma covered_field gs client subject now (field : Asked -> gset string) x :
  (forall a b, field (absorb a b) = field a ∪ field b) -> field nothing = ∅ ->
  (forall a, field (without_offline a) = field a) ->
  x ∈ field (covered (of_client gs client subject now)) <-> agreed gs client subject now field x.
Proof.
  intros Ha Hn Hw. unfold of_client. rewrite fold_grants by done. cbn [covered]. rewrite Hn.
  setoid_rewrite Hw. split; [intros [?|?]; [set_solver|done]|by right].
Qed.

Lemma covered_scopes gs client subject now x :
  x ∈ scopes (covered (of_client gs client subject now)) <->
  x <> OFFLINE_ACCESS /\ agreed gs client subject now scopes x.
Proof.
  unfold of_client. rewrite fold_grants by done. cbn [covered nothing scopes].
  unfold agreed, some_standing. cbn [without_offline scopes].
  setoid_rewrite elem_of_difference. setoid_rewrite elem_of_singleton. split.
  - intros [?|(g & ? & ? & ? & ?)]; [set_solver|]. eauto 6.
  - intros (? & g & ? & ? & ?). right. eauto 6.
Qed.

#[local] Instance agreed_dec gs client subject now field x :
  Decision (agreed gs client subject now field x).
Proof.
  destruct (decide (List.Exists (fun g => stands client subject now g = true /\ x ∈ field (material g)) gs))
    as [H|H]; [left|right]; rewrite List.Exists_exists in H;
    setoid_rewrite <- list_elem_of_In in H; unfold agreed, some_standing; naive_solver.
Qed.

Lemma asks_nothing_true a : asks_nothing a = true <->
  (forall x, x ∉ scopes a) /\ (forall x, x ∉ claims a) /\
  (forall x, x ∉ authorization_details a) /\ (forall x, x ∉ resources a).
Proof.
  unfold asks_nothing. rewrite !andb_true_iff, !bool_decide_eq_true, !set_eq. set_solver.
Qed.

Lemma not_in_minus (X Y : gset string) (Q : string -> Prop) :
  (forall x, x ∈ Y <-> Q x) -> (forall x, x ∉ X ∖ Y) <-> (forall x, x ∈ X -> Q x).
Proof.
  intros HY. split.
  - intros H x Hx. apply HY. destruct (decide (x ∈ Y)); [done|]. set_solver.
  - intros H x [Hx Hn]%elem_of_difference. apply Hn. by apply HY, H.
Qed.

Lemma delta_scopes gs client subject now policy asked x :
  let m := of_client gs client subject now in
  x ∈ scopes (delta_of m asked policy now) <->
  x ∈ scopes asked /\
  (x = OFFLINE_ACCESS -> offline_access_is_fresh m policy now = false) /\
  (x <> OFFLINE_ACCESS -> ~ agreed gs client subject now scopes x).
Proof.
  cbn zeta. pose proof (covered_scopes gs client subject now x) as Hc.
  set (m := of_client gs client subject now) in *. clearbody m. unfold delta_of.
  destruct (decide (x = OFFLINE_ACCESS)) as [->|Hne].
  - destruct (bool_decide _) eqn:Eb; [apply bool_decide_eq_true in Eb|apply bool_decide_eq_false in Eb];
      cbn [andb]; [destruct (offline_access_is_fresh m policy now)|];
      cbn [minus without_offline scopes]; rewrite ?elem_of_difference, ?Hc, ?elem_of_singleton;
      intuition congruence.
  - destruct (_ && _); cbn [minus without_offline scopes];
      rewrite ?elem_of_difference, ?Hc, ?elem_of_singleton; intuition congruence.
Qed.

Lemma delta_others m asked policy now :
  claims (delta_of m asked policy now) = claims asked ∖ claims (covered m) /\
  authorization_details (delta_of m asked policy now) =
    authorization_details asked ∖ authorization_details (covered m) /\
  resources (delta_of m asked policy now) = resources asked ∖ resources (covered m).
Proof. unfold delta_of. by destruct (_ && _). Qed.

Lemma of_client_fresh gs client subject now policy :
  offline_access_is_fresh (of_client gs client subject now) policy now = true <->
  some_standing gs client subject now (fun g =>
    OFFLINE_ACCESS ∈ g_scopes g /\ now < g_created_at g + offline_access_memory policy).
Proof. unfold of_client. rewrite fold_fresh. cbn. intuition congruence. Qed.

Lemma of_client_count gs client subject now :
  Nat.eqb (grants (of_client gs client subject now)) 0 = false <->
  some_standing gs client subject now (fun _ => True).
Proof. unfold of_client. rewrite fold_count. cbn. intuition congruence. Qed.

Lemma covered_means gs client subject now policy asked :
  let m := of_client gs client subject now in
  covers m asked policy now = Covered <->
  always_ask policy = false /\
  some_standing gs client subject now (fun _ => True) /\
  asks_nothing (delta_of m asked policy now) = true.
Proof.
  cbn zeta. rewrite <- of_client_count. unfold covers.
  destruct (always_ask policy), (Nat.eqb _ 0), (asks_nothing _); cbn [orb]; intuition congruence.
Qed.

Lemma delta_nothing gs client subject now policy asked :
  asks_nothing (delta_of (of_client gs client subject now) asked policy now) = true <->
  (forall x, x ∈ scopes asked -> x <> OFFLINE_ACCESS -> agreed gs client subject now scopes x) /\
  (forall x, x ∈ claims asked -> agreed gs client subject now claims x) /\
  (forall x, x ∈ authorization_details asked -> agreed gs client subject now authorization_details x) /\
  (forall x, x ∈ resources asked -> agreed gs client subject now resources x) /\
  (OFFLINE_ACCESS ∈ scopes asked ->
   some_standing gs client subject now (fun g =>
     OFFLINE_ACCESS ∈ g_scopes g /\ now < g_created_at g + offline_access_memory policy)).
Proof.
  pose proof (delta_scopes gs client subject now policy asked) as Hs. cbn zeta in Hs.
  pose proof (covered_field gs client subject now) as Hfield.
  rewrite <- of_client_fresh, asks_nothing_true.
  set (m := of_client gs client subject now) in *. clearbody m.
  destruct (delta_others m asked policy now) as (-> & -> & ->).
  rewrite (not_in_minus (claims asked) _ (agreed gs client subject now claims))
    by (intros x; by apply Hfield).
  rewrite (not_in_minus (authorization_details asked) _ (agreed gs client subject now authorization_details))
    by (intros x; by apply Hfield).
  rewrite (not_in_minus (resources asked) _ (agreed gs client subject now resources))
    by (intros x; by apply Hfield).
  assert (Hf : (forall x, x ∉ scopes (delta_of m asked policy now)) <->
    (forall x, x ∈ scopes asked -> x <> OFFLINE_ACCESS -> agreed gs client subject now scopes x) /\
    (OFFLINE_ACCESS ∈ scopes asked -> offline_access_is_fresh m policy now = true)).
  { setoid_rewrite Hs. clear Hs Hfield. split.
    - intros Hn. split.
      + intros x Hx Hne. pose proof (Hn x). destruct (decide (agreed gs client subject now scopes x)); naive_solver.
      + intros Ho. pose proof (Hn OFFLINE_ACCESS).
        destruct (offline_access_is_fresh m policy now); [done|]. naive_solver.
    - intros [H1 H2] x (Hx & H3 & H4). destruct (decide (x = OFFLINE_ACCESS)) as [->|Hne].
      + rewrite H2 in H3 by done. naive_solver.
      + naive_solver. }
  rewrite Hf. intuition.
Qed.

(** The consent screen is skipped exactly for what standing grants of the same
    client and subject add up to: every scope, claim, authorization detail and
    resource asked for is on one of them, [offline_access] on one created within the
    memory's window, at least one grant stands, and the tenant does not always ask. *)
Theorem covered_iff gs client subject now policy asked :
  covers (of_client gs client subject now) asked policy now = Covered <->
  always_ask policy = false /\
  some_standing gs client subject now (fun _ => True) /\
  (forall x, x ∈ scopes asked -> x <> OFFLINE_ACCESS -> agreed gs client subject now scopes x) /\
  (forall x, x ∈ claims asked -> agreed gs client subject now claims x) /\
  (forall x, x ∈ authorization_details asked -> agreed gs client subject now authorization_details x) /\
  (forall x, x ∈ resources asked -> agreed gs client subject now resources x) /\
  (OFFLINE_ACCESS ∈ scopes asked ->
   some_standing gs client subject now (fun g =>
     OFFLINE_ACCESS ∈ g_scopes g /\ now < g_created_at g + offline_access_memory policy)).
Proof. by rewrite covered_means, delta_nothing. Qed.
End Memory.

(** ** [authorization_details]

    [AuthorizationDetails::from_value] of
    [crates/domain/src/entities/authorization_details.rs]: the shape a stored array is
    held to. *)

Definition MAX_ELEMENTS : nat := 16.
Definition MAX_DEPTH : nat := 8.
Definition MAX_TYPE_LEN : Z := 128.

Fixpoint depth_exceeds (v : value) (budget : nat) {struct v} : bool :=
  match v with
  | VArray items =>
      match budget with
      | O => true
      | S budget => existsb (fun item => depth_exceeds item budget) items
      end
  | VObject members =>
      match budget with
      | O => true
      | S budget => existsb (fun kv => depth_exceeds (snd kv) budget) members
      end
  | _ => false
  end.

(** [u8::is_ascii_graphic] but the quote and the backslash. *)
Definition is_type_name (name : string) : bool :=
  negb (is_empty name) && (slen name <=? MAX_TYPE_LEN)
  && all_bytes (fun b => in_range 0x21 0x7E b && negb (b =? 0x22) && negb (b =? 0x5C)) name.

Definition is_string (v : value) : bool := match v with VString _ => true | _ => false end.

Definition detail_ok (element : value) : bool :=
  negb (depth_exceeds element (MAX_DEPTH - 1))
  && match as_object element with
     | None => false
     | Some object =>
         match bget "type" object with
         | Some (VString name) => is_type_name name
         | _ => false
         end
         && match bget "locations" object with
            | Some locations => is_some_and (forallb is_string) (as_array locations)
            | None => true
            end
     end.

Definition details_from_value (v : value) : option (list value) :=
  match as_array v with
  | Some elements =>
      if (MAX_ELEMENTS <? length elements)%nat then None
      else if forallb detail_ok elements then Some elements else None
  | None => None
  end.

(** ** The grant an approval makes *)

Section Mint.
Context {Task : Type}.
Variable from_str : string -> option value.
Variable json_string : value -> string.
Abbreviation claims_from_json := (readable_request from_str json_string).
Abbreviation recorded_claims := (recorded_request from_str json_string).

Abbreviation Grant := (Grants.Grant Task).

Definition recorded_authentication (p : AcrPolicy) (s : Session) : GrantAuthentication := {|
  ga_authenticated_at := s_authenticated_at s;
  ga_assurance_authenticated_at := s_assurance_authenticated_at s;
  ga_assurance_policy_revision := s_assurance_policy_revision s;
  ga_assurance_methods := s_assurance_methods s;
  ga_acr := match s_acr s with
            | Some v =>
                if is_some_and (fun l => AcrLevel.is_met_by l (s_amr s)) (AcrPolicy.level p v)
                then Some v else None
            | None => None
            end;
  ga_amr := s_amr s |}.

(** The grant [mint] builds; [id] and [revision] are drawn. *)
Definition minted_grant (tenant client : string) (parameters : value) (p : AcrPolicy) (s : Session)
    (subject : string) (approved : gset string) (grant_id : string) (revision now : Z) : Grant :=
  let g := Grants.Grant.new (Task := Task) grant_id revision tenant client now in {|
  g_tenant := g_tenant g; g_id := g_id g; g_client := g_client g;
  g_user := Some (s_user s); g_subject := Some subject;
  g_scopes := bset_of_list (elements approved);
  g_claims := ClaimsRequest.to_json (recorded_claims parameters);
  g_claims_locales := recorded_locales parameters;
  g_authorization_details :=
    from_option id [] (vget "authorization_details" parameters ≫= details_from_value);
  g_resources := bset_of_list (strings_of parameters "resources");
  g_actor_chain := g_actor_chain g; g_parent := g_parent g;
  g_parent_derivation := g_parent_derivation g; g_task := g_task g;
  g_session := Some (s_id_digest s);
  g_authentication := Some (recorded_authentication p s);
  g_created_at := g_created_at g; g_updated_at := g_updated_at g;
  g_authority_revision := g_authority_revision g; g_expires_at := g_expires_at g;
  g_revoked_at := g_revoked_at g; g_revocation_reason := g_revocation_reason g;
  g_claimed_at := g_claimed_at g |}.

(** What [skip_consent_if_remembered] approves without a screen, nothing where the
    screen is to be drawn. *)
Definition remembered_approval (gs : list Grant) (client subject : string) (parameters : value)
    (policy : MemoryPolicy) (now : Z) : option (gset string) :=
  if in_strings "consent" (strings_of parameters "prompts") then None
  else
    let asked := asked_from_parameters from_str json_string parameters in
    match Coverage.delta (covers (of_client from_str json_string gs client subject now)
                            asked policy now) with
    | Some _ => None
    | None => Some (scopes asked)
    end.

(** One visit of a client that repeats its request: the grant the skipped screen makes
    joins the others, nothing where the screen is drawn. *)
Definition visit (tenant client : string) (parameters : value) (p : AcrPolicy) (s : Session)
    (subject : string) (policy : MemoryPolicy) (gs : list Grant) (id : string) (now : Z)
    : option (list Grant) :=
  match remembered_approval gs client subject parameters policy now with
  | Some approved =>
      Some (minted_grant tenant client parameters p s subject approved id 0 now :: gs)
  | None => None
  end.

(** Visits at the instants of a list, all of them without a screen. *)
Fixpoint visits (tenant client : string) (parameters : value) (p : AcrPolicy) (s : Session)
    (subject : string) (policy : MemoryPolicy) (gs : list Grant) (times : list (string * Z))
    : option (list Grant) :=
  match times with
  | [] => Some gs
  | (id, now) :: times =>
      match visit tenant client parameters p s subject policy gs id now with
      | Some gs => visits tenant client parameters p s subject policy gs times
      | None => None
      end
  end.

(** Each instant is less than [window] after the one before. *)
Fixpoint within (window last : Z) (times : list (string * Z)) : bool :=
  match times with
  | [] => true
  | (_, now) :: times => (now <? last + window) && within window now times
  end.

(** What the store gives back is what was written: the recorded claims parse, and the
    authorization details are an array the shape check accepts. *)
Record readable (parameters : value) : Prop := {
  readable_claims :
    claims_from_json (ClaimsRequest.to_json (recorded_claims parameters)) = Some (recorded_claims parameters);
  readable_details :
    vget "authorization_details" parameters ≫= details_from_value =
    vget "authorization_details" parameters ≫= as_array
}.

Abbreviation asked := (asked_from_parameters from_str json_string).
Abbreviation covered_material := (material from_str json_string).

Section Minted.
Context (tenant client : string) (parameters : value) (p : AcrPolicy) (s : Session)
  (subject : string).
Hypothesis Hreadable : readable parameters.

Abbreviation made approved id rev now :=
  (minted_grant tenant client parameters p s subject approved id rev now).

Lemma minted_stands approved id rev t now :
  stands client subject now (made approved id rev t) = true.
Proof.
  unfold stands. cbn. rewrite String.eqb_refl. by rewrite bool_decide_true.
Qed.

Lemma minted_scopes approved id rev t : scopes (covered_material (made approved id rev t)) = approved.
Proof.
  apply set_eq. intros x. cbn. rewrite elem_of_list_to_set, list_elem_of_In, In_bset_of_list.
  by rewrite <- list_elem_of_In, elem_of_elements.
Qed.

Lemma minted_others approved id rev t :
  claims (covered_material (made approved id rev t)) = claims (asked parameters) /\
  authorization_details (covered_material (made approved id rev t)) =
    authorization_details (asked parameters) /\
  resources (covered_material (made approved id rev t)) = resources (asked parameters).
Proof.
  destruct Hreadable as [Hc Hd]. cbn [material minted_grant g_claims g_authorization_details
    g_resources claims authorization_details resources asked_from_parameters].
  rewrite Hc, Hd. split_and!.
  - unfold recorded_request. by destruct (_ ≫= claims_from_json).
  - unfold details_surface. by destruct (_ ≫= as_array).
  - apply set_eq. intros x. rewrite !elem_of_list_to_set, !list_elem_of_In. apply In_bset_of_list.
Qed.

Lemma remembered_approval_iff gs policy now approved :
  remembered_approval gs client subject parameters policy now = Some approved <->
  in_strings "consent" (strings_of parameters "prompts") = false /\
  covers (of_client from_str json_string gs client subject now) (asked parameters) policy now
    = Covered /\
  approved = scopes (asked parameters).
Proof.
  unfold remembered_approval. destruct (in_strings _ _); [naive_solver|].
  destruct (covers _ _ _ _) as [|d]; cbn [Coverage.delta]; [|naive_solver].
  intuition congruence.
Qed.

(** A skipped screen never widens: the grant it makes covers nothing beyond the
    standing grants of the client and subject - each scope, claim, authorization detail
    and resource of it is on one of them, and [offline_access] on one created within the
    window. *)
Theorem memory_never_widens gs policy now approved id rev :
  remembered_approval gs client subject parameters policy now = Some approved ->
  let g := covered_material (made approved id rev now) in
  let held := agreed from_str json_string gs client subject now in
  (forall x, x ∈ scopes g -> x <> OFFLINE_ACCESS -> held scopes x) /\
  (forall x, x ∈ claims g -> held claims x) /\
  (forall x, x ∈ authorization_details g -> held authorization_details x) /\
  (forall x, x ∈ resources g -> held resources x) /\
  (OFFLINE_ACCESS ∈ scopes g ->
   some_standing gs client subject now (fun g =>
     OFFLINE_ACCESS ∈ g_scopes g /\ now < g_created_at g + offline_access_memory policy)).
Proof.
  rewrite remembered_approval_iff, covered_means. intros (_ & (_ & _ & Hd) & ->). cbn zeta.
  rewrite minted_scopes. destruct (minted_others (scopes (asked parameters)) id rev now) as (-> & -> & ->).
  by apply delta_nothing.
Qed.

Section Repeated.
Context (policy : MemoryPolicy).
Hypothesis Hask : always_ask policy = false.
Hypothesis Hprompt : in_strings "consent" (strings_of parameters "prompts") = false.

(** A grant made within the window that covers the request skips the screen. *)
Lemma minted_is_remembered gs approved id rev t now :
  made approved id rev t ∈ gs -> scopes (asked parameters) ⊆ approved ->
  now < t + offline_access_memory policy ->
  remembered_approval gs client subject parameters policy now = Some (scopes (asked parameters)).
Proof.
  intros Hin Hsub Hnow. apply remembered_approval_iff. split; [done|]. split; [|done].
  pose proof (minted_stands approved id rev t now) as Hst.
  pose proof (minted_others approved id rev t) as (Hc & Hd & Hr).
  pose proof (minted_scopes approved id rev t) as Hs.
  apply covered_means. split; [done|]. split; [by exists (made approved id rev t)|].
  apply delta_nothing. unfold agreed. split_and!.
  - intros x Hx _. exists (made approved id rev t). rewrite Hs. set_solver.
  - intros x Hx. exists (made approved id rev t). by rewrite Hc.
  - intros x Hx. exists (made approved id rev t). by rewrite Hd.
  - intros x Hx. exists (made approved id rev t). by rewrite Hr.
  - intros Hx. exists (made approved id rev t). split; [done|]. split; [done|]. split; [|done].
    apply list_elem_of_In, In_bset_of_list, list_elem_of_In, elem_of_elements. set_solver.
Qed.

Lemma visits_go times : forall gs approved id rev last,
  made approved id rev last ∈ gs -> scopes (asked parameters) ⊆ approved ->
  within (offline_access_memory policy) last times = true ->
  is_Some (visits tenant client parameters p s subject policy gs times).
Proof.
  induction times as [|[id' now] times IH]; intros gs approved id rev last Hin Hsub Hw; [done|].
  cbn [within] in Hw. apply andb_prop in Hw as [Hnow Hw]. apply Z.ltb_lt in Hnow.
  cbn [visits]. unfold visit. rewrite (minted_is_remembered gs approved id rev last) by done.
  eapply (IH _ (scopes (asked parameters)) id' 0 now); [by apply elem_of_cons; left|done|done].
Qed.

(** The window of [offline_access] slides: from one consent given on the screen, a
    client that repeats its request at intervals below the window is never sent to the
    screen again, however long it goes on - each skipped screen makes a grant dated now,
    which the next visit reads as a fresh consent. With the screen's own grant alone the
    window closes. *)
Theorem offline_window_renews approved id rev first times :
  scopes (asked parameters) ⊆ approved -> OFFLINE_ACCESS ∈ scopes (asked parameters) ->
  within (offline_access_memory policy) first times = true ->
  is_Some (visits tenant client parameters p s subject policy [made approved id rev first] times) /\
  (forall now, first + offline_access_memory policy <= now ->
   remembered_approval [made approved id rev first] client subject parameters policy now = None).
Proof.
  intros Hsub Hoff Hw. split; [by eapply visits_go; [apply elem_of_cons; left|..]|].
  intros now Hnow. destruct (remembered_approval _ _ _ _ _ _) as [a|] eqn:E; [|done].
  apply remembered_approval_iff in E as (_ & E & _). apply covered_means in E as (_ & _ & E).
  apply delta_nothing in E as (_ & _ & _ & _ & E). destruct (E Hoff) as (g & Hg & _ & _ & Hlt).
  apply list_elem_of_singleton in Hg as ->. cbn in Hlt. lia.
Qed.
End Repeated.
End Minted.

(** The same request asking for other application-role claims in the ID token. *)
Definition with_role_claims (r : ClaimsRequest) (roles : list RoleClaim) : ClaimsRequest := {|
  cr_id_token := cr_id_token r; cr_userinfo := cr_userinfo r; cr_acr := cr_acr r;
  cr_role_claims := roles; cr_ida_id_token := cr_ida_id_token r;
  cr_ida_userinfo := cr_ida_userinfo r; cr_asc := cr_asc r |}.

(** The application-role claims of a claims request are not compared: a request that
    adds some to one already agreed to skips the screen exactly when that one does, and
    the grant made without the screen records them for the ID token. *)
Theorem role_claims_slip_past_consent parameters parameters' r roles
    tenant client p s subject policy gs id rev now approved :
  (forall member, member <> "claims"%string -> vget member parameters' = vget member parameters) ->
  vget "claims" parameters ≫= claims_from_json = Some r ->
  vget "claims" parameters' ≫= claims_from_json = Some (with_role_claims r roles) ->
  remembered_approval gs client subject parameters' policy now =
    remembered_approval gs client subject parameters policy now /\
  g_claims (minted_grant tenant client parameters' p s subject approved id rev now) =
    ClaimsRequest.to_json (with_role_claims r roles).
Proof.
  intros Hsame Hr Hr'. split.
  - unfold remembered_approval, asked_from_parameters, strings_of.
    by rewrite Hr, Hr', !Hsame.
  - cbn [minted_grant g_claims]. unfold recorded_request. by rewrite Hr'.
Qed.
End Mint.

(** ** Concrete requests

    Two stored requests, one asking for the application roles in the ID token, and a
    text for each of them. *)

Definition sample_claims (roles : list RoleClaim) : value :=
  ClaimsRequest.to_json (with_role_claims default_claims roles).
Definition sample_read (text : string) : option value :=
  Some (sample_claims (if String.eqb text "roles" then [CRoles] else [])).
Definition sample_text (v : value) : string := if value_eqb v (sample_claims [CRoles]) then "roles" else "none".

Definition sample_session : Session := {|
  s_tenant := "t"; s_id_digest := "d"; s_public_sid := "sid"; s_user := "u";
  s_created_at := 0; s_authenticated_at := 0; s_assurance_authenticated_at := None;
  s_assurance_policy_revision := None; s_assurance_methods := [];
  s_last_seen_at := 0; s_expires_at := days 400; s_idle_expires_at := days 400;
  s_acr := None; s_amr := [Password]; s_revoked := None |}.

Definition sample_request (roles : list RoleClaim) : value := VObject [
  ("claims"%string, sample_claims roles);
  ("scopes"%string, VArray [VString "openid"; VString OFFLINE_ACCESS])].

Definition sample_approved : gset string := {[ "openid"%string; OFFLINE_ACCESS ]}.
Definition sample_grant : Grant () :=
  minted_grant sample_read sample_text "t" "c" (sample_request []) AcrPolicy.empty
    sample_session "sub" sample_approved "g0" 0 0.

Definition visit_times : list (string * Z) :=
  [("g1", days 60); ("g2", days 120); ("g3", days 180); ("g4", days 240)]%string.

(** Day 240, a hundred and fifty days after the window of the only screen closed. *)
Lemma offline_window_renews_witness :
  is_Some (visits sample_read sample_text "t" "c" (sample_request [])
    AcrPolicy.empty sample_session "sub" (MemoryPolicy.new false) [sample_grant] visit_times) /\
  remembered_approval sample_read sample_text [sample_grant] "c" "sub" (sample_request [])
    (MemoryPolicy.new false) (days 240) = None.
Proof.
  destruct (offline_window_renews (Task := ()) sample_read sample_text "t" "c"
    (sample_request []) AcrPolicy.empty sample_session "sub"
    ltac:(split; vm_compute; reflexivity) (MemoryPolicy.new false) eq_refl eq_refl
    sample_approved "g0" 0 0 visit_times
    ltac:(vm_compute; set_solver) ltac:(vm_compute; reflexivity) eq_refl) as [Hv Hn].
  split; [exact Hv|]. apply Hn. vm_compute. discriminate.
Defined.

Lemma role_claims_slip_past_consent_witness :
  remembered_approval sample_read sample_text [sample_grant] "c" "sub" (sample_request [CRoles])
    (MemoryPolicy.new false) (days 1) = Some sample_approved /\
  g_claims (minted_grant (Task := ()) sample_read sample_text "t" "c"
    (sample_request [CRoles]) AcrPolicy.empty sample_session "sub" sample_approved "g1" 0 (days 1))
  = sample_claims [CRoles].
Proof.
  destruct (role_claims_slip_past_consent (Task := ()) sample_read sample_text
    (sample_request []) (sample_request [CRoles]) default_claims [CRoles]
    "t" "c" AcrPolicy.empty sample_session "sub" (MemoryPolicy.new false) [sample_grant] "g1" 0 (days 1)
    sample_approved) as [H1 H2];
    [intros member Hm; cbn [vget sample_request bget]; destruct (keqb member "claims"%string) eqn:E;
      [by apply keqb_eq in E|done]
    |vm_compute; reflexivity..|].
  rewrite H1, H2. split; vm_compute; reflexivity.
Defined.

Lemma memory_never_widens_witness :
  remembered_approval sample_read sample_text [sample_grant] "c" "sub" (sample_request [])
    (MemoryPolicy.new false) (days 60) = Some sample_approved /\
  agreed sample_read sample_text [sample_grant] "c" "sub" (days 60) scopes "openid".
Proof.
  assert (H : remembered_approval sample_read sample_text [sample_grant] "c" "sub" (sample_request [])
    (MemoryPolicy.new false) (days 60) = Some sample_approved) by (vm_compute; reflexivity).
  split; [exact H|].
  destruct (memory_never_widens (Task := ()) sample_read sample_text "t" "c"
    (sample_request []) AcrPolicy.empty sample_session "sub"
    ltac:(split; vm_compute; reflexivity) [sample_grant] (MemoryPolicy.new false) (days 60)
    sample_approved "g1" 0 H) as (Hs & _).
  apply Hs; [vm_compute; reflexivity|discriminate].
Defined.
