(* ===== verification/Requests.v ===== *)
(** * Pushed authorization requests and the interactions that complete them

    [crates/store-pg/src/auth_requests.rs] over the tables [auth_requests] and
    [first_party_interactions] of one tenant, and the vocabulary of
    [crates/domain/src/entities/auth_request.rs]. Several connections at once are an
    arbitrary sequence of the operations, each of which is one transaction.

    The rows of [managed_device_interaction_proofs] are written by the managed-device
    code, which is not modelled: they are changed by a step of the environment, and the
    check of a stored proof is a parameter. An operation that tries one table and then
    the other is taken as one step: its second statement runs where the first found no
    row. *)

From S2P Require Import Prelude BTree Json Session RateLimit.
From S2P Require Import Refresh.
From S2P Require Import Grants.
From S2P Require Import GrantStore.
Open Scope Z_scope.

(** ** Where an interaction ends *)

Inductive FirstPartyDestination : Type :=
| AdminConsole | DeviceVerification | ApprovalsInbox | GrantsDashboard | AccountHome
| AccountPasskeys | AccountPassword | AccountTotp | AccountSessions | AccountActivity
| AccountEntitlements | AccountEmail | AccountClaimsProviders | AccountIdJagConsent | SamlSso.

Module FirstPartyDestination.
Definition as_str (d : FirstPartyDestination) : string :=
  match d with
  | AdminConsole => "admin_console"
  | DeviceVerification => "device_verification"
  | ApprovalsInbox => "approvals_inbox"
  | GrantsDashboard => "grants_dashboard"
  | AccountHome => "account_home"
  | AccountPasskeys => "account_passkeys"
  | AccountPassword => "account_password"
  | AccountTotp => "account_totp"
  | AccountSessions => "account_sessions"
  | AccountActivity => "account_activity"
  | AccountEntitlements => "account_entitlements"
  | AccountEmail => "account_email"
  | AccountClaimsProviders => "account_claims_providers"
  | AccountIdJagConsent => "account_id_jag_consent"
  | SamlSso => "saml_sso"
  end.

Definition parse (v : string) : option FirstPartyDestination :=
  if String.eqb v "admin_console" then Some AdminConsole
  else if String.eqb v "device_verification" then Some DeviceVerification
  else if String.eqb v "approvals_inbox" then Some ApprovalsInbox
  else if String.eqb v "grants_dashboard" then Some GrantsDashboard
  else if String.eqb v "account_home" then Some AccountHome
  else if String.eqb v "account_passkeys" then Some AccountPasskeys
  else if String.eqb v "account_password" then Some AccountPassword
  else if String.eqb v "account_totp" then Some AccountTotp
  else if String.eqb v "account_sessions" then Some AccountSessions
  else if String.eqb v "account_activity" then Some AccountActivity
  else if String.eqb v "account_entitlements" then Some AccountEntitlements
  else if String.eqb v "account_email" then Some AccountEmail
  else if String.eqb v "account_claims_providers" then Some AccountClaimsProviders
  else if String.eqb v "account_id_jag_consent" then Some AccountIdJagConsent
  else if String.eqb v "saml_sso" then Some SamlSso
  else None.
End FirstPartyDestination.

Record ClientRequest : Type := { cq_client : string; cq_parameters : value }.

Inductive Continuation : Type :=
| Client (request : ClientRequest)
| FirstParty (destination : FirstPartyDestination).

Module Continuation.
Definition for_client (client : string) (parameters : value) : Continuation :=
  Client {| cq_client := client; cq_parameters := parameters |}.
Definition client_request (c : Continuation) : option ClientRequest :=
  match c with Client request => Some request | FirstParty _ => None end.
Definition first_party (c : Continuation) : option FirstPartyDestination :=
  match c with FirstParty destination => Some destination | Client _ => None end.
End Continuation.

Record PushedRequest : Type := {
  pr_digest : string;
  pr_client : string;
  pr_parameters : value;
  pr_pushed_at : Z;
  pr_expires_at : Z
}.

Inductive Consumed : Type :=
| Request (request : PushedRequest) | Absent | AlreadyUsed | PastExpiry.

Record InteractionRecord : Type := {
  ir_continuation : Continuation;
  ir_state : value;
  ir_session : option string;
  ir_expires_at : Z
}.

(** ** The tables *)

Record AuthRequest : Type := {
  q_client : string;
  q_parameters : value;
  q_state : value;
  q_interaction : option (list Z);
  q_session : option string;
  q_challenge : option (list Z * Z);
  q_pushed_at : Z;
  q_expires_at : Z;
  q_consumed_at : option Z
}.

Record FirstPartyRow : Type := {
  f_destination : string;
  f_state : value;
  f_session : option string;
  f_challenge : option (list Z * Z);
  f_started_at : Z;
  f_expires_at : Z;
  f_consumed_at : option Z
}.

(** [consumed_at is null and expires_at > now]. *)
Definition open_at (now : Z) (consumed : option Z) (expires : Z) : bool :=
  match consumed with None => now <? expires | Some _ => false end.
Definition q_open (now : Z) (r : AuthRequest) : bool := open_at now (q_consumed_at r) (q_expires_at r).
Definition f_open (now : Z) (r : FirstPartyRow) : bool := open_at now (f_consumed_at r) (f_expires_at r).

(** The row an interaction id is attached to, live at [now]. *)
Definition q_of (i : list Z) (now : Z) (r : AuthRequest) : bool :=
  bool_decide (q_interaction r = Some i) && q_open now r.

Definition q_consumed (now : Z) (r : AuthRequest) : AuthRequest := {|
  q_client := q_client r; q_parameters := q_parameters r; q_state := q_state r;
  q_interaction := q_interaction r; q_session := q_session r; q_challenge := q_challenge r;
  q_pushed_at := q_pushed_at r; q_expires_at := q_expires_at r; q_consumed_at := Some now |}.

Definition q_begun (i : list Z) (r : AuthRequest) : AuthRequest := {|
  q_client := q_client r; q_parameters := q_parameters r; q_state := VObject [];
  q_interaction := Some i; q_session := None; q_challenge := None;
  q_pushed_at := q_pushed_at r; q_expires_at := q_expires_at r; q_consumed_at := q_consumed_at r |}.

Definition q_saved (state : value) (session : option string) (r : AuthRequest) : AuthRequest := {|
  q_client := q_client r; q_parameters := q_parameters r; q_state := state;
  q_interaction := q_interaction r;
  q_session := match session with Some _ => session | None => q_session r end;
  q_challenge := q_challenge r;
  q_pushed_at := q_pushed_at r; q_expires_at := q_expires_at r; q_consumed_at := q_consumed_at r |}.

Definition q_challenged (challenge : option (list Z * Z)) (r : AuthRequest) : AuthRequest := {|
  q_client := q_client r; q_parameters := q_parameters r; q_state := q_state r;
  q_interaction := q_interaction r; q_session := q_session r; q_challenge := challenge;
  q_pushed_at := q_pushed_at r; q_expires_at := q_expires_at r; q_consumed_at := q_consumed_at r |}.

Definition f_consumed (now : Z) (r : FirstPartyRow) : FirstPartyRow := {|
  f_destination := f_destination r; f_state := f_state r; f_session := f_session r;
  f_challenge := f_challenge r; f_started_at := f_started_at r; f_expires_at := f_expires_at r;
  f_consumed_at := Some now |}.

Definition f_saved (state : value) (session : option string) (r : FirstPartyRow) : FirstPartyRow := {|
  f_destination := f_destination r; f_state := state;
  f_session := match session with Some _ => session | None => f_session r end;
  f_challenge := f_challenge r; f_started_at := f_started_at r; f_expires_at := f_expires_at r;
  f_consumed_at := f_consumed_at r |}.

Definition f_challenged (challenge : option (list Z * Z)) (r : FirstPartyRow) : FirstPartyRow := {|
  f_destination := f_destination r; f_state := f_state r; f_session := f_session r;
  f_challenge := challenge; f_started_at := f_started_at r; f_expires_at := f_expires_at r;
  f_consumed_at := f_consumed_at r |}.

(** [update .. where p]: the table and the number of rows affected. *)
Definition update_rows {V} (p : V -> bool) (f : V -> V) (m : gmap (list Z) V)
    : gmap (list Z) V * nat :=
  ((fun r => if p r then f r else r) <$> m, size (filter (fun kr => p kr.2 = true) m)).

(** [select .. where p] of at most one row. *)
Definition select_row {V} (p : V -> bool) (m : gmap (list Z) V) : option (list Z * V) :=
  head (map_to_list (filter (fun kr => p kr.2 = true) m)).

(** ** The repository *)

Section Repository.
Variable hex_decode : string -> option (list Z).
Variable hex_encode : list Z -> string.
Context {Proof : Type}.
(** [DeviceBinding::validate] with the comparison of tenant and interaction. *)
Variable proof_ok : Proof -> string -> Z -> result () DomainError.

Record Tables : Type := {
  clients : gset string;
  requests : gmap (list Z) AuthRequest;
  first_parties : gmap (list Z) FirstPartyRow;
  proofs : gmap (list Z) (list Z * Proof)
}.

Definition with_requests (db : Tables) (m : gmap (list Z) AuthRequest) : Tables := {|
  clients := clients db; requests := m; first_parties := first_parties db; proofs := proofs db |}.
Definition with_first_parties (db : Tables) (m : gmap (list Z) FirstPartyRow) : Tables := {|
  clients := clients db; requests := requests db; first_parties := m; proofs := proofs db |}.
Definition with_proofs (db : Tables) (m : gmap (list Z) (list Z * Proof)) : Tables := {|
  clients := clients db; requests := requests db; first_parties := first_parties db; proofs := m |}.

(** The proofs of a deleted request go with it. *)
Definition keep_requests (db : Tables) (m : gmap (list Z) AuthRequest) : Tables := {|
  clients := clients db; requests := m; first_parties := first_parties db;
  proofs := filter (fun kp => is_Some (m !! kp.1)) (proofs db) |}.

Definition digest_bytes (digest : string) : result (list Z) DomainError :=
  ok_or (hex_decode digest) (Invalid "request_uri").

Definition pushed_row (request : PushedRequest) : AuthRequest := {|
  q_client := pr_client request; q_parameters := pr_parameters request; q_state := VObject [];
  q_interaction := None; q_session := None; q_challenge := None;
  q_pushed_at := pr_pushed_at request; q_expires_at := pr_expires_at request; q_consumed_at := None |}.

(** A client the foreign key does not find is a conflict, as [to_domain_error] says. *)
Definition push (db : Tables) (request : PushedRequest) : result Tables DomainError :=
  let? digest := digest_bytes (pr_digest request) in
  guard? bool_decide (requests db !! digest = None) else Conflict in
  guard? bool_decide (pr_client request ∈ clients db) else Conflict in
  Ok (with_requests db (<[digest := pushed_row request]> (requests db))).

Definition pushed_of (digest : list Z) (r : AuthRequest) : PushedRequest := {|
  pr_digest := hex_encode digest; pr_client := q_client r; pr_parameters := q_parameters r;
  pr_pushed_at := q_pushed_at r; pr_expires_at := q_expires_at r |}.

(** One statement each: the spend, and the read that names why nothing was spent. *)
Definition consume_spend (db : Tables) (digest : list Z) (now : Z) : Tables * option PushedRequest :=
  match requests db !! digest with
  | Some r =>
      if q_open now r
      then (with_requests db (<[digest := q_consumed now r]> (requests db)), Some (pushed_of digest r))
      else (db, None)
  | None => (db, None)
  end.
Definition consume_reason (db : Tables) (digest : list Z) : Consumed :=
  match requests db !! digest with
  | None => Absent
  | Some r => if is_some_and (fun _ => true) (q_consumed_at r) then AlreadyUsed else PastExpiry
  end.
Definition consume (db : Tables) (digest : string) (now : Z) : Tables * result Consumed DomainError :=
  match digest_bytes digest with
  | Err e => (db, Err e)
  | Ok digest =>
      match consume_spend db digest now with
      | (db, Some request) => (db, Ok (Request request))
      | (db, None) => (db, Ok (consume_reason db digest))
      end
  end.

Definition peek (db : Tables) (digest : string) (now : Z) : result (option PushedRequest) DomainError :=
  let? digest := digest_bytes digest in
  Ok (match requests db !! digest with
      | Some r => if q_open now r then Some (pushed_of digest r) else None
      | None => None
      end).

(** An id another row of the table holds is a conflict of its unique index. *)
Definition interaction_taken (db : Tables) (i : list Z) (but : list Z) : bool :=
  negb (bool_decide (filter (fun kr => kr.1 <> but /\ q_interaction kr.2 = Some i) (requests db) = ∅)).

Definition begin_interaction (db : Tables) (request_uri_digest interaction_digest : string) (now : Z)
    : result Tables DomainError :=
  let? request := digest_bytes request_uri_digest in
  let? interaction := digest_bytes interaction_digest in
  match requests db !! request with
  | Some r =>
      if q_open now r then
        if interaction_taken db interaction request then Err Conflict
        else Ok {| clients := clients db;
                   requests := <[request := q_begun interaction r]> (requests db);
                   first_parties := first_parties db;
                   proofs := delete request (proofs db) |}
      else Err NotFound
  | None => Err NotFound
  end.

(** [first_party_by_interaction]. *)
Definition first_party_by_interaction (db : Tables) (interaction : list Z) (now : Z)
    : option InteractionRecord :=
  match first_parties db !! interaction with
  | Some r =>
      if f_open now r then
        destination ← FirstPartyDestination.parse (f_destination r);
        Some {| ir_continuation := FirstParty destination; ir_state := f_state r;
                ir_session := f_session r; ir_expires_at := f_expires_at r |}
      else None
  | None => None
  end.

Definition record_of (r : AuthRequest) : InteractionRecord := {|
  ir_continuation := Continuation.for_client (q_client r) (q_parameters r); ir_state := q_state r;
  ir_session := q_session r; ir_expires_at := q_expires_at r |}.

Definition by_interaction (db : Tables) (interaction_digest : string) (now : Z)
    : result (option InteractionRecord) DomainError :=
  let? interaction := digest_bytes interaction_digest in
  Ok (match select_row (q_of interaction now) (requests db) with
      | Some (_, r) => Some (record_of r)
      | None => first_party_by_interaction db interaction now
      end).

(** The statement both tables get, the first that affects one row ending it. *)
Definition update_either (db : Tables) (interaction_digest : string) (now : Z)
    (f : AuthRequest -> AuthRequest) (g : FirstPartyRow -> FirstPartyRow)
    : Tables * result () DomainError :=
  match digest_bytes interaction_digest with
  | Err e => (db, Err e)
  | Ok interaction =>
      let '(m, n) := update_rows (q_of interaction now) f (requests db) in
      let db := with_requests db m in
      if (n =? 1)%nat then (db, Ok ())
      else match first_parties db !! interaction with
           | Some r =>
               if f_open now r
               then (with_first_parties db (<[interaction := g r]> (first_parties db)), Ok ())
               else (db, Err NotFound)
           | None => (db, Err NotFound)
           end
  end.

Definition save_interaction_state (db : Tables) (interaction_digest : string) (state : value)
    (session : option string) (now : Z) : Tables * result () DomainError :=
  update_either db interaction_digest now (q_saved state session) (f_saved state session).

Definition complete_interaction (db : Tables) (interaction_digest : string) (now : Z)
    : Tables * result () DomainError :=
  update_either db interaction_digest now (q_consumed now) (f_consumed now).

(** One transaction: a proof that does not check rolls the spend back. *)
Definition complete_interaction_with_device (db : Tables) (interaction_digest : string) (now : Z)
    : Tables * result (option Proof) DomainError :=
  match digest_bytes interaction_digest with
  | Err e => (db, Err e)
  | Ok interaction =>
      match select_row (q_of interaction now) (requests db) with
      | None => (db, Err NotFound)
      | Some (request, r) =>
          let spent := with_requests db (<[request := q_consumed now r]> (requests db)) in
          match proofs db !! request with
          | Some (bound, proof) =>
              if bool_decide (bound = interaction) then
                match proof_ok proof interaction_digest now with
                | Ok _ => (with_proofs spent (delete request (proofs db)), Ok (Some proof))
                | Err e => (db, Err e)
                end
              else (spent, Ok None)
          | None => (spent, Ok None)
          end
      end
  end.

Definition destroy_interaction (db : Tables) (interaction_digest : string) : result Tables DomainError :=
  let? interaction := digest_bytes interaction_digest in
  Ok (with_first_parties
        (keep_requests db (filter (fun kr => q_interaction kr.2 <> Some interaction) (requests db)))
        (delete interaction (first_parties db))).

Definition begin_first_party_interaction (db : Tables) (interaction_digest : string)
    (destination : FirstPartyDestination) (expires_at now : Z) : result Tables DomainError :=
  let? interaction := digest_bytes interaction_digest in
  guard? bool_decide (first_parties db !! interaction = None) else Conflict in
  Ok (with_first_parties db (<[interaction := {|
        f_destination := FirstPartyDestination.as_str destination; f_state := VObject [];
        f_session := None; f_challenge := None; f_started_at := now; f_expires_at := expires_at;
        f_consumed_at := None |}]> (first_parties db))).

Definition purge_expired (db : Tables) (now : Z) : Tables :=
  keep_requests db (filter (fun kr => ~ q_expires_at kr.2 <= now) (requests db)).

(** The retention sweeps of the two tables, a batch each. *)
Definition sweep_requests (db : Tables) (now : Z) (picked : list (list Z)) : Tables :=
  keep_requests db (filter (fun kr => ~ (kr.1 ∈ picked /\ q_expires_at kr.2 <= now)) (requests db)).
Definition sweep_first_parties (db : Tables) (now : Z) (picked : list (list Z)) : Tables :=
  with_first_parties db
    (filter (fun kr => ~ (kr.1 ∈ picked /\ f_expires_at kr.2 <= now)) (first_parties db)).

(** [PgPasskeyRepository::issue_assertion_challenge] and [spend_assertion_challenge]. The
    schema refuses a short challenge. *)
Definition issue_assertion_challenge (db : Tables) (interaction_digest : string) (challenge : list Z)
    (expires_at now : Z) : Tables * result bool DomainError :=
  match update_either db interaction_digest now (q_challenged (Some (challenge, expires_at)))
          (f_challenged (Some (challenge, expires_at))) with
  | (db', Ok _) => if (length challenge <? 16)%nat then (db, Err Storage) else (db', Ok true)
  | (_, Err NotFound) => (db, Ok false)
  | (_, Err e) => (db, Err e)
  end.

Definition outstanding (now : Z) (challenge : option (list Z * Z)) : option (list Z) :=
  match challenge with
  | Some (bytes, expires) => if now <? expires then Some bytes else None
  | None => None
  end.

Definition spend_assertion_challenge (db : Tables) (interaction_digest : string) (now : Z)
    : Tables * result (option (list Z)) DomainError :=
  match digest_bytes interaction_digest with
  | Err e => (db, Err e)
  | Ok interaction =>
      let held r := q_of interaction now r && is_some_and (fun _ => true) (outstanding now (q_challenge r)) in
      match select_row held (requests db) with
      | Some (request, r) =>
          (with_requests db (<[request := q_challenged None r]> (requests db)),
           Ok (outstanding now (q_challenge r)))
      | None =>
          match first_parties db !! interaction with
          | Some r =>
              match (if f_open now r then outstanding now (f_challenge r) else None) with
              | Some bytes =>
                  (with_first_parties db (<[interaction := f_challenged None r]> (first_parties db)),
                   Ok (Some bytes))
              | None => (db, Ok None)
              end
          | None => (db, Ok None)
          end
      end
  end.

(** The cascade of a deleted client. *)
Definition delete_client (db : Tables) (client : string) : Tables :=
  let kept := keep_requests db (filter (fun kr => q_client kr.2 <> client) (requests db)) in
  {| clients := clients kept ∖ {[ client ]}; requests := requests kept;
     first_parties := first_parties kept; proofs := proofs kept |}.

(** ** Any sequence of operations *)

Inductive Op : Type :=
| Push (request : PushedRequest)
| Consume (digest : string) (now : Z)
| Begin (digest interaction : string) (now : Z)
| Save (interaction : string) (state : value) (session : option string) (now : Z)
| Complete (interaction : string) (now : Z)
| CompleteWithDevice (interaction : string) (now : Z)
| Destroy (interaction : string)
| BeginFirstParty (interaction : string) (destination : FirstPartyDestination) (expires_at now : Z)
| Purge (now : Z)
| SweepRequests (now : Z) (picked : list (list Z))
| SweepFirstParties (now : Z) (picked : list (list Z))
| IssueChallenge (interaction : string) (challenge : list Z) (expires_at now : Z)
| SpendChallenge (interaction : string) (now : Z)
| AddClient (client : string)
| DeleteClient (client : string)
| ProofsChange (m : gmap (list Z) (list Z * Proof)).

Definition or_same (db : Tables) (r : result Tables DomainError) : Tables :=
  match r with Ok db => db | Err _ => db end.

Definition exec (db : Tables) (op : Op) : Tables :=
  match op with
  | Push request => or_same db (push db request)
  | Consume digest now => fst (consume db digest now)
  | Begin digest interaction now => or_same db (begin_interaction db digest interaction now)
  | Save interaction state session now => fst (save_interaction_state db interaction state session now)
  | Complete interaction now => fst (complete_interaction db interaction now)
  | CompleteWithDevice interaction now => fst (complete_interaction_with_device db interaction now)
  | Destroy interaction => or_same db (destroy_interaction db interaction)
  | BeginFirstParty interaction destination expires_at now =>
      or_same db (begin_first_party_interaction db interaction destination expires_at now)
  | Purge now => purge_expired db now
  | SweepRequests now picked => sweep_requests db now picked
  | SweepFirstParties now picked => sweep_first_parties db now picked
  | IssueChallenge interaction challenge expires_at now =>
      fst (issue_assertion_challenge db interaction challenge expires_at now)
  | SpendChallenge interaction now => fst (spend_assertion_challenge db interaction now)
  | AddClient client =>
      {| clients := clients db ∪ {[ client ]}; requests := requests db;
         first_parties := first_parties db; proofs := proofs db |}
  | DeleteClient client => delete_client db client
  | ProofsChange m => with_proofs db m
  end.

Definition run (db : Tables) (ops : list Op) : Tables := fold_left exec ops db.
Definition empty_tables : Tables :=
  {| clients := ∅; requests := ∅; first_parties := ∅; proofs := ∅ |}.

(** The request an operation pushed, and the one it answered: an [Ok] of a completion is
    what an authorization response is sent on. *)
Definition pushes (db : Tables) (op : Op) : option (list Z) :=
  match op with
  | Push request => if is_ok (push db request) then hex_decode (pr_digest request) else None
  | _ => None
  end.

Definition answers (db : Tables) (op : Op) : option (list Z) :=
  match op with
  | Consume digest now =>
      match snd (consume db digest now) with Ok (Request _) => hex_decode digest | _ => None end
  | Complete interaction now =>
      if is_ok (snd (complete_interaction db interaction now)) then
        i ← hex_decode interaction; fst <$> select_row (q_of i now) (requests db)
      else None
  | CompleteWithDevice interaction now =>
      if is_ok (snd (complete_interaction_with_device db interaction now)) then
        i ← hex_decode interaction; fst <$> select_row (q_of i now) (requests db)
      else None
  | _ => None
  end.

Definition count_if (b : bool) : nat := if b then 1%nat else 0%nat.

Fixpoint tally (event : Tables -> Op -> option (list Z)) (d : list Z) (db : Tables) (ops : list Op) : nat :=
  match ops with
  | [] => 0
  | op :: ops => count_if (bool_decide (event db op = Some d)) + tally event d (exec db op) ops
  end.
End Repository.
Arguments Tables : clear implicits.
Arguments Op : clear implicits.

(** ** Updates of one row *)

Section Rows.
Context {V : Type}.
Implicit Types (p : V -> bool) (f : V -> V) (m : gmap (list Z) V).

Lemma update_rows_lookup p f m d :
  fst (update_rows p f m) !! d = (fun r => if p r then f r else r) <$> m !! d.
Proof. apply lookup_fmap. Qed.

Lemma select_row_Some p m d r : select_row p m = Some (d, r) -> m !! d = Some r /\ p r = true.
Proof.
  unfold select_row. intros H. apply head_Some_elem_of, elem_of_map_to_list in H.
  by apply map_lookup_filter_Some in H.
Qed.

Lemma select_row_None p m : select_row p m = None <-> forall d r, m !! d = Some r -> p r = false.
Proof.
  unfold select_row. rewrite head_None, map_to_list_empty_iff, map_empty.
  setoid_rewrite map_lookup_filter_None. split.
  - intros H d r Hd. destruct (H d) as [?|Hn]; [congruence|]. specialize (Hn r Hd). cbn in Hn.
    by destruct (p r).
  - intros H d. right. intros r Hd. cbn. by rewrite (H d r Hd).
Qed.

Lemma update_rows_none p f m :
  (forall d r, m !! d = Some r -> p r = false) -> update_rows p f m = (m, 0%nat).
Proof.
  intros H. unfold update_rows. f_equal.
  - apply map_eq. intros d. rewrite lookup_fmap. destruct (m !! d) as [r|] eqn:E; [|done].
    cbn. by rewrite (H d r E).
  - apply map_size_empty_iff, map_empty. intros d. apply map_lookup_filter_None. right.
    intros r Hd. cbn. by rewrite (H d r Hd).
Qed.

(** One affected row is the one [select_row] finds. *)
Lemma update_rows_one p f m m' :
  update_rows p f m = (m', 1%nat) ->
  exists d r, select_row p m = Some (d, r) /\ m !! d = Some r /\ p r = true /\ m' = <[d := f r]> m.
Proof.
  unfold update_rows. intros [= <- Hn]. unfold select_row.
  set (hits := filter (fun kr => p kr.2 = true) m) in *.
  assert (Hin : forall d r, hits !! d = Some r <-> (d, r) ∈ map_to_list hits)
    by (intros; by rewrite elem_of_map_to_list).
  rewrite <- length_map_to_list in Hn. destruct (map_to_list hits) as [|[d r] [|]]; try discriminate Hn.
  setoid_rewrite list_elem_of_singleton in Hin. exists d, r.
  pose proof (proj2 (Hin d r) eq_refl) as Hd. apply map_lookup_filter_Some in Hd as [Hd Hp].
  cbn in Hp. split_and!; [done..|]. apply map_eq. intros d'. rewrite lookup_fmap, lookup_insert.
  case_decide as Hdd; [subst; rewrite Hd; cbn; by rewrite Hp|].
  destruct (m !! d') as [r'|] eqn:Hd'; [|done]. cbn. destruct (p r') eqn:Hp'; [|done].
  assert (Hr : (d', r') = (d, r)) by (by apply Hin, map_lookup_filter_Some). congruence.
Qed.
End Rows.

(** ** One answer per push *)

Lemma q_of_facts i now r :
  q_of i now r = true <-> q_interaction r = Some i /\ q_consumed_at r = None /\ now < q_expires_at r.
Proof.
  unfold q_of, q_open, open_at. rewrite andb_true_iff, bool_decide_eq_true.
  destruct (q_consumed_at r); rewrite ?Z.ltb_lt; intuition congruence.
Qed.

Lemma none_answered d `{!Decision (@None (list Z) = Some d)} :
  count_if (bool_decide (@None (list Z) = Some d)) = 0%nat.
Proof. by rewrite bool_decide_false by done. Qed.

Section Answers.
Variable hex_decode : string -> option (list Z).
Variable hex_encode : list Z -> string.
Context {Proof : Type}.
Variable proof_ok : Proof -> string -> Z -> result () DomainError.
Implicit Types (db : Tables Proof) (op : Op Proof) (ops : list (Op Proof)) (d i : list Z).

Definition unspent db d : nat :=
  count_if (match requests db !! d with
            | Some r => match q_consumed_at r with None => true | Some _ => false end
            | None => false
            end).

(** What an update of one row, by request or by interaction, is made of. *)
Definition calm (f : AuthRequest -> AuthRequest) : Prop :=
  forall r, q_consumed_at (f r) = None -> q_consumed_at r = None.

Lemma unspent_le db db' d :
  (forall r, requests db' !! d = Some r -> q_consumed_at r = None ->
     exists r0, requests db !! d = Some r0 /\ q_consumed_at r0 = None) ->
  (unspent db' d <= unspent db d)%nat.
Proof.
  unfold unspent. intros H. destruct (requests db' !! d) as [r|]; [|cbn; lia].
  destruct (q_consumed_at r) eqn:Hc; [cbn; lia|].
  destruct (H r eq_refl Hc) as (r0 & -> & ->). done.
Qed.

Lemma unspent_insert db db' d d' r r' :
  requests db !! d = Some r -> (q_consumed_at r' = None -> q_consumed_at r = None) ->
  requests db' = <[d := r']> (requests db) -> (unspent db' d' <= unspent db d')%nat.
Proof.
  intros Hd Hc Hm. apply unspent_le. rewrite Hm. intros x. rewrite lookup_insert.
  case_decide as Hdd; [subst; intros [= <-]|]; eauto.
Qed.

Lemma unspent_update p f db d :
  calm f -> (unspent (with_requests db (fst (update_rows p f (requests db)))) d <= unspent db d)%nat.
Proof.
  intros Hf. apply unspent_le. cbn [with_requests requests]. intros r. rewrite update_rows_lookup.
  destruct (requests db !! d) as [r0|]; [|done]. cbn. intros [= <-] Hc. exists r0.
  destruct (p r0); auto.
Qed.

Lemma unspent_filter (P : list Z * AuthRequest -> Prop) `{forall x, Decision (P x)} db d :
  (unspent (keep_requests db (filter P (requests db))) d <= unspent db d)%nat.
Proof.
  apply unspent_le. cbn [keep_requests requests]. intros r [Hr _]%map_lookup_filter_Some. eauto.
Qed.

Lemma update_either_unspent db interaction now f g d :
  calm f -> (unspent (fst (update_either hex_decode db interaction now f g)) d <= unspent db d)%nat.
Proof.
  intros Hf. unfold update_either. destruct (digest_bytes _ _) as [i|]; [|done].
  pose proof (unspent_update (q_of i now) f db d Hf) as Hu.
  destruct (update_rows _ _ _) as [m n]. cbn [fst] in Hu. destruct (n =? 1)%nat; [done|].
  cbn [with_requests first_parties]. destruct (first_parties db !! i) as [r|]; [|done].
  by destruct (f_open now r).
Qed.

Lemma spent_row db d r now d' `{!Decision (Some d = Some d')} :
  requests db !! d = Some r -> q_consumed_at r = None ->
  (count_if (bool_decide (Some d = Some d')) +
   unspent (with_requests db (<[d := q_consumed now r]> (requests db))) d' = unspent db d')%nat.
Proof.
  intros Hd Hc. unfold unspent. cbn [with_requests requests]. rewrite lookup_insert.
  case_decide as Hdd; [subst; rewrite bool_decide_true by done; by rewrite Hd, Hc|].
  by rewrite bool_decide_false by congruence.
Qed.

(** The rows of an interaction are spent by its completion, whichever was answered. *)
Lemma update_spends db i now d :
  (count_if (bool_decide (fst <$> select_row (q_of i now) (requests db) = Some d)) +
   unspent (with_requests db (fst (update_rows (q_of i now) (q_consumed now) (requests db)))) d
   <= unspent db d)%nat.
Proof.
  destruct (select_row _ _) as [[d0 r]|] eqn:Hsel; cbn [fst fmap option_fmap option_map].
  - destruct (decide (d0 = d)) as [->|Hne].
    + apply select_row_Some in Hsel as [Hd Hq]. rewrite bool_decide_true by done.
      unfold unspent. cbn [with_requests requests]. rewrite update_rows_lookup, Hd. cbn [fmap option_fmap option_map].
      rewrite Hq. cbn. apply q_of_facts in Hq as (_ & -> & _). done.
    + rewrite bool_decide_false by congruence. by apply unspent_update.
  - rewrite none_answered. by apply unspent_update.
Qed.

Lemma complete_tally db interaction now d :
  (count_if (bool_decide (answers hex_decode hex_encode proof_ok db (Complete interaction now) = Some d)) +
   unspent (fst (complete_interaction hex_decode db interaction now)) d <= unspent db d)%nat.
Proof.
  unfold answers, complete_interaction, update_either, digest_bytes.
  destruct (hex_decode interaction) as [i|]; cbn [ok_or mbind option_bind]; [|by rewrite none_answered].
  pose proof (update_spends db i now d) as Hs.
  destruct (update_rows _ _ _) as [m n] eqn:Hm. cbn [fst] in Hs.
  destruct (n =? 1)%nat; cbn [snd fst is_ok]; [done|].
  cbn [with_requests first_parties]. destruct (first_parties db !! i) as [r|]; [destruct (f_open now r)|];
    cbn [snd fst is_ok]; [done|rewrite none_answered; cbn..]; lia.
Qed.

Lemma complete_with_device_tally db interaction now d :
  (count_if (bool_decide (answers hex_decode hex_encode proof_ok db (CompleteWithDevice interaction now) = Some d)) +
   unspent (fst (complete_interaction_with_device hex_decode proof_ok db interaction now)) d
   <= unspent db d)%nat.
Proof.
  unfold answers, complete_interaction_with_device, digest_bytes.
  destruct (hex_decode interaction) as [i|]; cbn [ok_or mbind option_bind]; [|by rewrite none_answered].
  destruct (select_row _ _) as [[d0 r]|] eqn:Hsel; [|by rewrite none_answered].
  apply select_row_Some in Hsel as [Hd Hq]. apply q_of_facts in Hq as (_ & Hc & _).
  cbn [fst fmap option_fmap option_map].
  destruct (proofs db !! d0) as [[bound proof]|]; [destruct (bool_decide (bound = i))|];
    [destruct (proof_ok proof interaction now)|..]; cbn [snd is_ok fst].
  - change (unspent (with_proofs ?x _) d) with (unspent x d). by rewrite spent_row.
  - rewrite none_answered. lia.
  - by rewrite spent_row.
  - by rewrite spent_row.
Qed.

Lemma consume_tally db digest now d :
  (count_if (bool_decide (answers hex_decode hex_encode proof_ok db (Consume digest now) = Some d)) +
   unspent (fst (consume hex_decode hex_encode db digest now)) d <= unspent db d)%nat.
Proof.
  unfold answers, consume, digest_bytes.
  destruct (hex_decode digest) as [d0|]; cbn [ok_or]; [|by rewrite none_answered].
  unfold consume_spend. destruct (requests db !! d0) as [r|] eqn:Hd.
  - unfold q_open, open_at. destruct (q_consumed_at r) eqn:Hc; [|destruct (now <? q_expires_at r)].
    + cbn [fst snd]. unfold consume_reason. rewrite Hd, Hc. cbn. rewrite none_answered. lia.
    + cbn [fst snd]. by rewrite (spent_row db d0 r now d Hd Hc).
    + cbn [fst snd]. unfold consume_reason. rewrite Hd, Hc. cbn. rewrite none_answered. lia.
  - cbn [fst snd]. unfold consume_reason. rewrite Hd, none_answered. lia.
Qed.

Lemma push_tally db request d :
  (unspent (or_same db (push hex_decode db request)) d <=
   count_if (bool_decide (pushes hex_decode db (Push request) = Some d)) + unspent db d)%nat.
Proof.
  unfold pushes, push, digest_bytes.
  destruct (hex_decode (pr_digest request)) as [d0|]; cbn [ok_or rbind or_same is_ok]; [|lia].
  destruct (bool_decide (requests db !! d0 = None)) eqn:Hn; [|cbn; lia].
  destruct (bool_decide (pr_client request ∈ clients db)); [|cbn; lia].
  cbn [or_same is_ok]. apply bool_decide_eq_true in Hn. unfold unspent. cbn [with_requests requests].
  rewrite lookup_insert. case_decide as Hdd.
  - subst. rewrite bool_decide_true by done. cbn. lia.
  - lia.
Qed.

Lemma other_ops_tally db op d :
  pushes hex_decode db op = None -> answers hex_decode hex_encode proof_ok db op = None ->
  match op with Push _ | Consume _ _ | Complete _ _ | CompleteWithDevice _ _ => False | _ => True end ->
  (unspent (exec hex_decode hex_encode proof_ok db op) d <= unspent db d)%nat.
Proof.
  intros _ _ Hop. destruct op; try done; cbn [exec].
  - unfold begin_interaction, digest_bytes.
    destruct (hex_decode digest) as [d0|]; [|done]. destruct (hex_decode interaction) as [i|]; [|done].
    cbn [ok_or rbind]. destruct (requests db !! d0) as [r|] eqn:Hd; [|done].
    destruct (q_open now r); [|done]. destruct (interaction_taken db i d0); [done|]. cbn [or_same].
    by apply (unspent_insert db _ d0 d r (q_begun i r)).
  - apply update_either_unspent. by intros r.
  - unfold destroy_interaction, digest_bytes. destruct (hex_decode interaction); [|done].
    apply (unspent_filter (fun kr => q_interaction kr.2 <> Some l)).
  - unfold begin_first_party_interaction, digest_bytes. destruct (hex_decode interaction); [|done].
    cbn [ok_or rbind]. destruct (bool_decide _); apply Nat.le_refl.
  - apply unspent_filter.
  - apply unspent_filter.
  - unfold issue_assertion_challenge.
    pose proof (update_either_unspent db interaction now (q_challenged (Some (challenge, expires_at)))
      (f_challenged (Some (challenge, expires_at))) d ltac:(by intros r)) as Hu.
    destruct (update_either _ _ _ _ _ _) as [db' [[]|e]]; [|by destruct e].
    by destruct (length challenge <? 16)%nat.
  - unfold spend_assertion_challenge, digest_bytes. destruct (hex_decode interaction) as [i|]; [|done].
    cbn [ok_or]. destruct (select_row _ _) as [[d0 r]|] eqn:Hsel.
    + apply select_row_Some in Hsel as [Hd _]. by apply (unspent_insert db _ d0 d r (q_challenged None r)).
    + destruct (first_parties db !! i) as [r|]; [|done].
      by destruct (if f_open now r then _ else None).
  - apply (unspent_filter (fun kr => q_client kr.2 <> client)).
Qed.

Lemma step_tally db op d :
  (count_if (bool_decide (answers hex_decode hex_encode proof_ok db op = Some d)) +
   unspent (exec hex_decode hex_encode proof_ok db op) d <=
   count_if (bool_decide (pushes hex_decode db op = Some d)) + unspent db d)%nat.
Proof.
  destruct op; try (cbn [answers pushes]; rewrite !none_answered; cbn [plus]; by apply other_ops_tally).
  - cbn [answers]. rewrite none_answered. apply push_tally.
  - cbn [pushes]. rewrite none_answered. apply consume_tally.
  - cbn [pushes]. rewrite none_answered. apply complete_tally.
  - cbn [pushes]. rewrite none_answered. apply complete_with_device_tally.
Qed.

Lemma run_tally ops db d :
  (tally hex_decode hex_encode proof_ok (answers hex_decode hex_encode proof_ok) d db ops
   <= tally hex_decode hex_encode proof_ok (pushes hex_decode) d db ops + unspent db d)%nat.
Proof.
  revert db. induction ops as [|op ops IH]; intros db; cbn [tally]; [lia|].
  pose proof (step_tally db op d). specialize (IH (exec hex_decode hex_encode proof_ok db op)). lia.
Qed.

(** C15: However many browsers, tabs and replays there are, a pushed request is answered
    at most once: over any sequence of the operations, the completions of the rows of a
    [request_uri] are no more than its pushes. *)
Theorem one_answer_per_push ops d :
  (tally hex_decode hex_encode proof_ok (answers hex_decode hex_encode proof_ok) d empty_tables ops
   <= tally hex_decode hex_encode proof_ok (pushes hex_decode) d empty_tables ops)%nat.
Proof.
  pose proof (run_tally ops empty_tables d) as H. unfold unspent in H.
  cbn [empty_tables requests] in H. rewrite lookup_empty in H. cbn [count_if] in H. lia.
Qed.

(** ** An interaction that was replaced *)

(** One row per id, as the unique index has it. *)
Definition unique_interactions db : Prop :=
  forall d d' r r' i, requests db !! d = Some r -> requests db !! d' = Some r' ->
    q_interaction r = Some i -> q_interaction r' = Some i -> d = d'.

(** No row of either table has the id. *)
Definition gone i db : Prop :=
  (forall d r, requests db !! d = Some r -> q_interaction r <> Some i) /\ first_parties db !! i = None.

(** Every row of [db'] was in [db] with the id it has. *)
Definition ids_from db db' : Prop :=
  forall d r', requests db' !! d = Some r' ->
    exists r, requests db !! d = Some r /\ q_interaction r' = q_interaction r.

Lemma ids_from_refl db : ids_from db db.
Proof. intros d r'. eauto. Qed.

Lemma ids_from_same db db' : requests db' = requests db -> ids_from db db'.
Proof. intros Hm d r'. rewrite Hm. eauto. Qed.

Lemma ids_from_update p f db db' :
  (forall r, q_interaction (f r) = q_interaction r) ->
  requests db' = fst (update_rows p f (requests db)) -> ids_from db db'.
Proof.
  intros Hf Hm d r'. rewrite Hm, update_rows_lookup. destruct (requests db !! d) as [r|]; [|done].
  cbn. intros [= <-]. exists r. destruct (p r); auto.
Qed.

Lemma ids_from_insert db db' d r r' :
  requests db' = <[d := r']> (requests db) -> requests db !! d = Some r ->
  q_interaction r' = q_interaction r -> ids_from db db'.
Proof.
  intros Hm Hd Hi e x. rewrite Hm, lookup_insert. case_decide; [subst; intros [= <-]|]; eauto.
Qed.

Lemma ids_from_filter (P : list Z * AuthRequest -> Prop) `{forall x, Decision (P x)} db db' :
  requests db' = filter P (requests db) -> ids_from db db'.
Proof. intros Hm d r'. rewrite Hm. intros [Hr _]%map_lookup_filter_Some. eauto. Qed.

Lemma ids_from_unique db db' : ids_from db db' -> unique_interactions db -> unique_interactions db'.
Proof.
  intros Hids Hu d d' r r' i Hd Hd' Hi Hi'. apply Hids in Hd as (r0 & Hd & E).
  apply Hids in Hd' as (r0' & Hd' & E'). eapply (Hu d d' r0 r0' i); [done..|congruence|congruence].
Qed.

Lemma ids_from_either db interaction now f g :
  (forall r, q_interaction (f r) = q_interaction r) ->
  ids_from db (fst (update_either hex_decode db interaction now f g)).
Proof.
  intros Hf. unfold update_either. destruct (digest_bytes _ _) as [i|]; [|apply ids_from_refl].
  pose proof (ids_from_update (q_of i now) f db (with_requests db (fst (update_rows (q_of i now) f (requests db))))
    Hf eq_refl) as H.
  destruct (update_rows _ _ _) as [m n]. cbn [fst] in H. destruct (n =? 1)%nat; [done|].
  cbn [with_requests first_parties]. destruct (first_parties db !! i) as [r|]; [|done].
  by destruct (f_open now r).
Qed.

(** The operations that attach no id leave every row the one it had. *)
Definition attaches op : option string :=
  match op with
  | Begin _ interaction _ => Some interaction
  | BeginFirstParty interaction _ _ _ => Some interaction
  | _ => None
  end.

Lemma ids_from_push db request db' :
  push hex_decode db request = Ok db' ->
  exists d, requests db !! d = None /\ requests db' = <[d := pushed_row request]> (requests db) /\
            first_parties db' = first_parties db.
Proof.
  unfold push, digest_bytes. destruct (hex_decode (pr_digest request)) as [d|]; [|done]. cbn [ok_or rbind].
  destruct (bool_decide (requests db !! d = None)) eqn:Hn; [|done].
  destruct (bool_decide (pr_client request ∈ clients db)); [|done]. intros [= <-].
  apply bool_decide_eq_true in Hn. eauto.
Qed.

Lemma ids_from_exec db op :
  attaches op = None -> match op with Push _ => False | _ => True end ->
  ids_from db (exec hex_decode hex_encode proof_ok db op).
Proof.
  intros Ha Hp. destruct op; try done; cbn [exec].
  - unfold consume. destruct (digest_bytes _ _) as [d0|]; [|apply ids_from_refl]. unfold consume_spend.
    destruct (requests db !! d0) as [r|] eqn:Hd; [|apply ids_from_refl].
    destruct (q_open now r); [|apply ids_from_refl]. by eapply ids_from_insert.
  - by apply ids_from_either.
  - by apply ids_from_either.
  - unfold complete_interaction_with_device. destruct (digest_bytes _ _) as [i|]; [|apply ids_from_refl].
    destruct (select_row _ _) as [[d0 r]|] eqn:Hsel; [|apply ids_from_refl].
    apply select_row_Some in Hsel as [Hd _].
    destruct (proofs db !! d0) as [[bound proof]|]; [destruct (bool_decide _)|];
      [destruct (proof_ok _ _ _)|..]; try apply ids_from_refl; by eapply ids_from_insert.
  - unfold destroy_interaction. destruct (digest_bytes _ _); [|apply ids_from_refl]. by eapply ids_from_filter.
  - by eapply ids_from_filter.
  - by eapply ids_from_filter.
  - by apply ids_from_same.
  - unfold issue_assertion_challenge.
    pose proof (ids_from_either db interaction now (q_challenged (Some (challenge, expires_at)))
      (f_challenged (Some (challenge, expires_at))) ltac:(by intros r)) as Hu.
    destruct (update_either _ _ _ _ _ _) as [db' [[]|e]]; [|destruct e; apply ids_from_refl].
    destruct (length challenge <? 16)%nat; [apply ids_from_refl|done].
  - unfold spend_assertion_challenge. destruct (digest_bytes _ _) as [i|]; [|apply ids_from_refl].
    destruct (select_row _ _) as [[d0 r]|] eqn:Hsel.
    + apply select_row_Some in Hsel as [Hd _]. by eapply (ids_from_insert _ _ d0 r (q_challenged None r)).
    + destruct (first_parties db !! i) as [r|]; [|apply ids_from_refl].
      destruct (if f_open now r then _ else None); by apply ids_from_same.
  - by apply ids_from_same.
  - by eapply ids_from_filter.
  - by apply ids_from_same.
Qed.

Lemma not_taken db i d :
  interaction_taken db i d = false ->
  forall d' r, requests db !! d' = Some r -> q_interaction r = Some i -> d' = d.
Proof.
  unfold interaction_taken. rewrite negb_false_iff, bool_decide_eq_true. intros He d' r Hd Hi.
  destruct (decide (d' = d)); [done|]. exfalso.
  assert (Hf : filter (fun kr => kr.1 <> d /\ q_interaction kr.2 = Some i) (requests db) !! d' = Some r)
    by (by apply map_lookup_filter_Some).
  rewrite He, lookup_empty in Hf. done.
Qed.

Lemma begin_facts db digest interaction now db' :
  begin_interaction hex_decode db digest interaction now = Ok db' ->
  exists d i r, hex_decode digest = Some d /\ hex_decode interaction = Some i /\
    requests db !! d = Some r /\ q_open now r = true /\ interaction_taken db i d = false /\
    requests db' = <[d := q_begun i r]> (requests db) /\ first_parties db' = first_parties db.
Proof.
  unfold begin_interaction, digest_bytes.
  destruct (hex_decode digest) as [d|]; [|done]. destruct (hex_decode interaction) as [i|]; [|done].
  cbn [ok_or rbind]. destruct (requests db !! d) as [r|] eqn:Hd; [|done].
  destruct (q_open now r) eqn:Ho; [|done]. destruct (interaction_taken db i d) eqn:Ht; [done|].
  intros [= <-]. eauto 12.
Qed.

Lemma exec_unique db op :
  unique_interactions db -> unique_interactions (exec hex_decode hex_encode proof_ok db op).
Proof.
  intros Hu. destruct (attaches op) as [x|] eqn:Ha; [destruct op; try discriminate Ha|].
  - cbn [exec]. destruct (begin_interaction hex_decode db digest interaction now) as [db'|] eqn:Hb; [|done].
    apply begin_facts in Hb as (d & i & r & _ & _ & Hd & _ & Ht & Hm & _). pose proof (not_taken db i d Ht) as Hnt.
    cbn [or_same]. intros a b ra rb j. rewrite Hm, !lookup_insert.
    repeat case_decide; subst; [done|..].
    + intros [= <-] Hb [= <-] Hi. by destruct (Hnt b rb Hb Hi).
    + intros Hra [= <-] Hi [= <-]. by destruct (Hnt a ra Hra Hi).
    + intros Hra Hrb Hi Hj. by eapply (Hu a b).
  - cbn [exec]. unfold begin_first_party_interaction, digest_bytes. destruct (hex_decode interaction); [|done].
    cbn [ok_or rbind]. by destruct (bool_decide _).
  - destruct op; try discriminate Ha;
      try (eapply ids_from_unique; [by apply ids_from_exec|done]).
    cbn [exec]. destruct (push hex_decode db request) as [db'|] eqn:Hp; [|done].
    apply ids_from_push in Hp as (d & Hd & Hm & _). cbn [or_same].
    intros a b ra rb j. rewrite Hm, !lookup_insert. repeat case_decide; subst; [done|by intros [= <-]|by intros ? [= <-]|].
    intros Hra Hrb Hi Hj. by eapply (Hu a b).
Qed.

Lemma run_unique ops db :
  unique_interactions db -> unique_interactions (run hex_decode hex_encode proof_ok db ops).
Proof.
  revert db. induction ops as [|op ops IH]; intros db Hu; [done|]. apply IH. by apply exec_unique.
Qed.

Lemma empty_unique : unique_interactions empty_tables.
Proof. intros d d' r r' i. cbn. by rewrite lookup_empty. Qed.

Lemma gone_from db db' i :
  ids_from db db' -> (first_parties db !! i = None -> first_parties db' !! i = None) ->
  gone i db -> gone i db'.
Proof.
  intros Hids Hf [Hr Hn]. split; [|auto]. intros d r' Hd. apply Hids in Hd as (r & Hd & ->). eauto.
Qed.

Lemma first_parties_either db interaction now f g i :
  first_parties db !! i = None ->
  first_parties (fst (update_either hex_decode db interaction now f g)) !! i = None.
Proof.
  intros Hi. unfold update_either. destruct (digest_bytes _ _) as [j|]; [|done].
  destruct (update_rows _ _ _) as [m n]. destruct (n =? 1)%nat; [done|].
  cbn [with_requests first_parties]. destruct (first_parties db !! j) as [r|] eqn:Hj; [|done].
  destruct (f_open now r); [|done]. cbn. rewrite lookup_insert. case_decide; congruence.
Qed.

Lemma first_parties_exec db op i :
  attaches op = None -> first_parties db !! i = None ->
  first_parties (exec hex_decode hex_encode proof_ok db op) !! i = None.
Proof.
  intros Ha Hi. destruct op; try discriminate Ha; cbn [exec]; try done;
    try (by apply first_parties_either).
  - destruct (push hex_decode db request) as [db'|] eqn:Hp; [|done].
    apply ids_from_push in Hp as (d & _ & _ & Hf). cbn [or_same]. by rewrite Hf.
  - unfold consume. destruct (digest_bytes _ _) as [d0|]; [|done]. unfold consume_spend.
    destruct (requests db !! d0) as [r|]; [|done]. by destruct (q_open now r).
  - unfold complete_interaction_with_device. destruct (digest_bytes _ _) as [j|]; [|done].
    destruct (select_row _ _) as [[d0 r]|]; [|done].
    destruct (proofs db !! d0) as [[bound proof]|]; [destruct (bool_decide _)|]; try done.
    by destruct (proof_ok _ _ _).
  - unfold destroy_interaction. destruct (digest_bytes _ _) as [j|]; [|done]. cbn.
    rewrite lookup_delete. by case_decide.
  - unfold sweep_first_parties. cbn [with_first_parties first_parties].
    apply map_lookup_filter_None. by left.
  - unfold issue_assertion_challenge.
    pose proof (first_parties_either db interaction now (q_challenged (Some (challenge, expires_at)))
      (f_challenged (Some (challenge, expires_at))) i Hi) as Hu.
    destruct (update_either _ _ _ _ _ _) as [db' [[]|e]]; [|by destruct e].
    by destruct (length challenge <? 16)%nat.
  - unfold spend_assertion_challenge. destruct (digest_bytes _ _) as [j|]; [|done].
    destruct (select_row _ _) as [[d0 r]|]; [done|].
    destruct (first_parties db !! j) as [r|] eqn:Hj; [|done].
    destruct (if f_open now r then _ else None); [|done]. cbn. rewrite lookup_insert.
    case_decide; congruence.
Qed.

Lemma gone_exec db op i :
  (forall x, attaches op = Some x -> hex_decode x <> Some i) ->
  gone i db -> gone i (exec hex_decode hex_encode proof_ok db op).
Proof.
  intros Ha Hg. destruct (attaches op) as [x|] eqn:E.
  - specialize (Ha x eq_refl). destruct op; try discriminate E; injection E as ->; cbn [exec].
    + destruct (begin_interaction hex_decode db digest x now) as [db'|] eqn:Hb; [|done].
      apply begin_facts in Hb as (d & j & r & _ & Hj & Hd & _ & _ & Hm & Hf). cbn [or_same].
      split; [|by rewrite Hf; apply Hg]. intros e r'. rewrite Hm, lookup_insert.
      case_decide; [intros [= <-]; cbn; congruence|]. apply Hg.
    + unfold begin_first_party_interaction, digest_bytes. destruct (hex_decode x) as [j|] eqn:Hj; [|done].
      cbn [ok_or rbind]. destruct (bool_decide _); [|done]. cbn [or_same]. split; [apply Hg|].
      cbn. rewrite lookup_insert. case_decide; [congruence|apply Hg].
  - destruct op; try discriminate E;
      try (eapply gone_from; [by apply ids_from_exec|by apply first_parties_exec|done]).
    cbn [exec]. destruct (push hex_decode db request) as [db'|] eqn:Hp; [|done].
    apply ids_from_push in Hp as (d & Hd & Hm & Hf). cbn [or_same]. split; [|rewrite Hf; apply Hg].
    intros e r'. rewrite Hm, lookup_insert. case_decide; [by intros [= <-]|apply Hg].
Qed.

Lemma gone_run ops db i :
  (forall op x, op ∈ ops -> attaches op = Some x -> hex_decode x <> Some i) ->
  gone i db -> gone i (run hex_decode hex_encode proof_ok db ops).
Proof.
  revert db. induction ops as [|op ops IH]; intros db Ha Hg; [done|]. apply IH.
  - intros op' x Hin. apply Ha. by right.
  - apply gone_exec; [|done]. intros x. apply Ha. by left.
Qed.

(** Nothing an interaction id opens: no page, no progress, no answer, no ceremony. *)
Definition inert (interaction : string) db : Prop :=
  forall now,
    by_interaction hex_decode db interaction now = Ok None /\
    (forall state session,
      save_interaction_state hex_decode db interaction state session now = (db, Err NotFound)) /\
    complete_interaction hex_decode db interaction now = (db, Err NotFound) /\
    complete_interaction_with_device hex_decode proof_ok db interaction now = (db, Err NotFound) /\
    spend_assertion_challenge hex_decode db interaction now = (db, Ok None).

Lemma with_same_requests db : with_requests db (requests db) = db.
Proof. by destruct db. Qed.

Lemma gone_inert db interaction i : hex_decode interaction = Some i -> gone i db -> inert interaction db.
Proof.
  intros Hi [Hr Hf] now.
  assert (Hq : forall d r, requests db !! d = Some r -> q_of i now r = false).
  { intros d r Hd. apply not_true_iff_false. rewrite q_of_facts. intros [H _]. by apply (Hr d r). }
  assert (He : forall f g, update_either hex_decode db interaction now f g = (db, Err NotFound)).
  { intros f g. unfold update_either, digest_bytes. rewrite Hi. cbn [ok_or].
    rewrite update_rows_none by done. cbn. by rewrite Hf, with_same_requests. }
  unfold save_interaction_state, complete_interaction, by_interaction,
    complete_interaction_with_device, spend_assertion_challenge, digest_bytes. rewrite Hi. cbn [ok_or rbind].
  rewrite (proj2 (select_row_None (q_of i now) (requests db))) by done.
  rewrite (proj2 (select_row_None (fun r => q_of i now r && _) (requests db)))
    by (intros d r Hd; by rewrite (Hq d r Hd)).
  unfold first_party_by_interaction. rewrite Hf. split_and!; auto.
Qed.

(** Loading the page again takes the request over whole: the row starts from nothing -
    no progress, no session, no challenge - and the interaction it had is inert for ever,
    whatever else happens, unless the same id is drawn again. *)
Theorem replaced_interaction_is_inert before digest d old r interaction i db now after :
  let db0 := run hex_decode hex_encode proof_ok empty_tables before in
  hex_decode digest = Some d -> requests db0 !! d = Some r ->
  hex_decode old = Some i -> q_interaction r = Some i -> first_parties db0 !! i = None ->
  begin_interaction hex_decode db0 digest interaction now = Ok db ->
  hex_decode interaction <> Some i ->
  (forall op x, op ∈ after -> attaches op = Some x -> hex_decode x <> Some i) ->
  requests db !! d = Some {|
    q_client := q_client r; q_parameters := q_parameters r; q_state := VObject [];
    q_interaction := hex_decode interaction; q_session := None; q_challenge := None;
    q_pushed_at := q_pushed_at r; q_expires_at := q_expires_at r; q_consumed_at := None |} /\
  inert old (run hex_decode hex_encode proof_ok db after).
Proof.
  cbn zeta. intros Hdig Hd Hold Hi Hf Hb Hne Hafter.
  pose proof (run_unique before empty_tables empty_unique) as Hu.
  set (db0 := run hex_decode hex_encode proof_ok empty_tables before) in *.
  apply begin_facts in Hb as (d' & j & r' & Hdig' & Hj & Hd' & Ho & _ & Hm & Hfp).
  assert (d' = d) as -> by congruence. assert (r' = r) as -> by congruence. split.
  - rewrite Hm, lookup_insert_eq, Hj. unfold q_open, open_at in Ho.
    unfold q_begun. by destruct (q_consumed_at r).
  - apply (gone_inert _ _ i); [done|]. apply gone_run; [done|]. split; [|by rewrite Hfp].
    intros e x. rewrite Hm, lookup_insert. case_decide as Hde; [intros [= <-]; cbn; congruence|].
    intros He Hx. apply Hde. by eapply (Hu d e).
Qed.
End Answers.

(** ** A concrete arrival *)

Definition plain_hex (s : string) : option (list Z) := Some (bytes_of s).
Definition any_proof (_ : ()) (_ : string) (_ : Z) : result () DomainError := Ok ().

Definition sample_push : PushedRequest := {|
  pr_digest := "aa"; pr_client := "client"; pr_parameters := VObject [];
  pr_pushed_at := 0; pr_expires_at := 90 |}.

(** A preloaded page, its progress, and the browser that arrives after it. *)
Definition sample_before : list (Op ()) :=
  [AddClient "client"; Push sample_push; Begin "aa" "i1" 1;
   Save "i1" (VObject [("stage"%string, VString "consent")]) (Some "session"%string) 2].
Definition sample_after : list (Op ()) :=
  [Complete "i1" 4; Save "i2" (VObject []) (Some "other"%string) 5; CompleteWithDevice "i2" 6;
   Complete "i1" 7].

Definition sample_before_row : AuthRequest := {|
  q_client := "client"; q_parameters := VObject [];
  q_state := VObject [("stage"%string, VString "consent")]; q_interaction := Some (bytes_of "i1");
  q_session := Some "session"%string; q_challenge := None; q_pushed_at := 0; q_expires_at := 90;
  q_consumed_at := None |}.

Lemma replaced_interaction_is_inert_witness :
  let db0 := run plain_hex (fun _ => "aa"%string) any_proof empty_tables sample_before in
  let final := run plain_hex (fun _ => "aa"%string) any_proof
                 (or_same db0 (begin_interaction plain_hex db0 "aa" "i2" 3)) sample_after in
  inert plain_hex any_proof "i1" final /\
  tally plain_hex (fun _ => "aa"%string) any_proof (answers plain_hex (fun _ => "aa"%string) any_proof)
    (bytes_of "aa") db0 (Begin "aa" "i2" 3 :: sample_after) = 1%nat.
Proof.
  cbn zeta. split; [|vm_compute; reflexivity].
  refine (proj2 (replaced_interaction_is_inert plain_hex (fun _ => "aa"%string) any_proof sample_before
    "aa" (bytes_of "aa") "i1" sample_before_row "i2" (bytes_of "i1") _ 3 sample_after
    eq_refl _ eq_refl eq_refl _ _ _ _)).
  - vm_compute. reflexivity.
  - vm_compute. reflexivity.
  - vm_compute. reflexivity.
  - vm_compute. discriminate.
  - intros op x Hop Hx.
    repeat (apply elem_of_cons in Hop as [->|Hop]; [discriminate Hx|]). by apply elem_of_nil in Hop.
Defined.
