(* ===== verification/Interaction.v ===== *)
(** * The browser's interaction

    [crates/web/src/interaction.rs]: the stages, the synchroniser token, the two
    credentials of a browser; the handlers of [crates/server/src/http/interaction.rs],
    [authorize.rs] and the end of the passkey ceremony of [passkeys.rs] as programs over
    the repository of [Requests]; the form of [crates/oidc/src/consent.rs]. Handlers run
    side by side: each reads its record once and writes later, and every order of their
    statements is a run of [sys_step].

    What a handler asks of the rest of the server - limiters, credential checks, the
    session it establishes, grants, the client's row - is its [World], any answer at any
    time. The JSON form of [StoredState], which serde derives, is a parameter. *)

From S2P Require Import Prelude Text BTree Json Session RateLimit Acr.
From S2P Require Import Refresh.
From S2P Require Import Grants.
From S2P Require Import GrantStore.
From S2P Require Import Codes.
From S2P Require Import Requests.
From S2P Require Import Decision ConsentMemory.
Open Scope Z_scope.

(** ** Stages *)

Inductive Stage : Type := StLogin | StRegister | StStepUp | StConsent | StResponse.

#[export] Instance stage_eq_dec : EqDecision Stage.
Proof. solve_decision. Defined.

Module Stage.
Definition may_advance_to (s next : Stage) (c : Continuation) : bool :=
  match c with
  | Client _ =>
      match s, next with
      | StRegister, (StStepUp | StConsent | StLogin) => true
      | StLogin, (StStepUp | StConsent) => true
      | StStepUp, (StConsent | StLogin) => true
      | StConsent, StResponse => true
      | _, _ => false
      end
  | FirstParty _ =>
      match s, next with
      | StRegister, (StStepUp | StResponse | StLogin) => true
      | StLogin, (StStepUp | StResponse) => true
      | StStepUp, (StResponse | StLogin) => true
      | _, _ => false
      end
  end.

Definition is_interactive (s : Stage) : bool := match s with StResponse => false | _ => true end.

Definition after_login (c : Continuation) : Stage :=
  match c with Client _ => StConsent | FirstParty _ => StResponse end.
End Stage.

(** ** Conditional requirements *)

Record ConditionalBinding : Type := {
  cb_client : string;
  cb_action : string;
  cb_policy_revision : string;
  cb_acr : option string;
  cb_acceptable_acr : list string;
  cb_max_age : option Z
}.

Definition UNATTAINABLE : string := "urn:asterius:unattainable-conditional-requirement".

(** [ConditionalBinding::apply], on the requirements it narrows. *)
Definition apply_acr (b : ConditionalBinding) (essential : list string) : list string :=
  match cb_acr b with
  | None => essential
  | Some acr =>
      match essential with
      | [] => match cb_acceptable_acr b with [] => [acr] | acceptable => acceptable end
      | _ =>
          match List.filter (fun v => in_strings v (cb_acceptable_acr b)) essential with
          | [] => [UNATTAINABLE]
          | kept => kept
          end
      end
  end.
Definition apply_max_age (b : ConditionalBinding) (max_age : option Z) : option Z :=
  match cb_max_age b with
  | None => max_age
  | Some age => Some (match max_age with None => age | Some existing => Z.min existing age end)
  end.
Definition apply (b : ConditionalBinding) (r : Requirements) : Requirements := {|
  prompts := prompts r; max_age := apply_max_age b (max_age r); hinted_subject := hinted_subject r;
  acr_values := acr_values r; essential_acr := apply_acr b (essential_acr r) |}.

(** ** What is stored between two requests *)

Inductive StoredDecision : Type := StoredApproved (scopes : list string) | StoredDenied.

Record StoredState : Type := {
  conditional : option ConditionalBinding;
  stage : Stage;
  csrf_digest : option string;
  decision : option StoredDecision;
  username : option string;
  totp_user : option string;
  totp_username : option string;
  locale : option string
}.

Definition default_state : StoredState := {|
  conditional := None; stage := StLogin; csrf_digest := None; decision := None; username := None;
  totp_user := None; totp_username := None; locale := None |}.

Inductive InteractionError : Type :=
| BrowserMismatch | NoCookie | NotAvailable | CsrfFailed | IllegalTransition | InteractionRequired.

Module InteractionError.
Definition client_error_code (e : InteractionError) : option string :=
  match e with InteractionRequired => Some "interaction_required"%string | _ => None end.
Definition is_fatal (e : InteractionError) : bool :=
  match e with BrowserMismatch | IllegalTransition => true | _ => false end.
End InteractionError.

Definition at_stage (s : Stage) (st : StoredState) : StoredState := {|
  conditional := conditional st; stage := s; csrf_digest := csrf_digest st; decision := decision st;
  username := username st; totp_user := totp_user st; totp_username := totp_username st;
  locale := locale st |}.
Definition with_csrf (d : option string) (st : StoredState) : StoredState := {|
  conditional := conditional st; stage := stage st; csrf_digest := d; decision := decision st;
  username := username st; totp_user := totp_user st; totp_username := totp_username st;
  locale := locale st |}.
Definition decided (d : StoredDecision) (st : StoredState) : StoredState := {|
  conditional := conditional st; stage := stage st; csrf_digest := csrf_digest st; decision := Some d;
  username := username st; totp_user := totp_user st; totp_username := totp_username st;
  locale := locale st |}.
Definition in_locale (tag : string) (st : StoredState) : StoredState := {|
  conditional := conditional st; stage := stage st; csrf_digest := csrf_digest st; decision := decision st;
  username := username st; totp_user := totp_user st; totp_username := totp_username st;
  locale := Some tag |}.

Definition signed_in_as (name : string) (st : StoredState) : StoredState := {|
  conditional := conditional st; stage := stage st; csrf_digest := csrf_digest st; decision := decision st;
  username := Some name; totp_user := totp_user st; totp_username := totp_username st;
  locale := locale st |}.
Definition require_totp (user name : string) (st : StoredState) : StoredState := {|
  conditional := conditional st; stage := stage st; csrf_digest := csrf_digest st; decision := decision st;
  username := username st; totp_user := Some user; totp_username := Some name; locale := locale st |}.
Definition clear_totp (st : StoredState) : StoredState := {|
  conditional := conditional st; stage := stage st; csrf_digest := csrf_digest st; decision := decision st;
  username := username st; totp_user := None; totp_username := None; locale := locale st |}.
Definition spend_csrf (st : StoredState) : StoredState := with_csrf None st.

Section Csrf.
Variable sha256_hex : string -> string.

(** The token is drawn by the caller. *)
Definition issue_csrf (token : string) (st : StoredState) : StoredState :=
  with_csrf (Some (sha256_hex token)) st.

Definition check_csrf (st : StoredState) (presented : option string) : result () InteractionError :=
  let? issued := ok_or (csrf_digest st) CsrfFailed in
  let? presented := ok_or presented CsrfFailed in
  if ct_eq (bytes_of issued) (bytes_of (sha256_hex presented)) then Ok () else Err CsrfFailed.
End Csrf.

(** ** The two credentials of a browser *)

Definition COOKIE_NAME : string := "__Host-asterius_ix".

(** [Interaction::resume]. *)
Definition resume (from_path : string) (from_cookie : option string) : result () InteractionError :=
  let? cookie := ok_or from_cookie NoCookie in
  if ct_eq (bytes_of from_path) (bytes_of cookie) then Ok () else Err BrowserMismatch.

(** [Interaction::advance]. *)
Definition advance (s next : Stage) (c : Continuation) : result Stage InteractionError :=
  if Stage.may_advance_to s next c then Ok next else Err IllegalTransition.

Definition set_cookie (id : string) : string :=
  COOKIE_NAME +:+ "=" +:+ id +:+ "; Secure; HttpOnly; SameSite=Lax; Path=/".
Definition clear_cookie : string :=
  COOKIE_NAME +:+ "=; Secure; HttpOnly; SameSite=Lax; Path=/; Max-Age=0".

(** The loop of [cookie_value], from the value found so far. *)
Fixpoint cookie_from (name : string) (items : list string) (found : option string) : option string :=
  match items with
  | [] => found
  | item :: items =>
      match split_once "="%char (trim item) with
      | None => cookie_from name items found
      | Some (candidate, v) =>
          if negb (String.eqb candidate name) then cookie_from name items found
          else match found with
               | Some _ => None
               | None => if is_empty v then None else cookie_from name items (Some v)
               end
      end
  end.
Definition cookie_value (header name : string) : option string :=
  cookie_from name (split_on ";"%char header) None.
Definition id_from_cookie_header (header : string) : option string := cookie_value header COOKIE_NAME.

(** ** The consent form: [ConsentRequest::decide] of [oidc/src/consent.rs] *)

Definition REQUIRED_SCOPE : string := "openid".

Inductive Answer : Type := Approved (scopes : gset string) | Denied.
Inductive ConsentError : Type := NoDecision | ScopeNotRequested | RequiredScopeMissing.

Definition consent_decide (offered : gset string) (approved : bool) (granted : gset string)
    : result Answer ConsentError :=
  if negb approved then Ok Denied
  else if negb (bool_decide (granted ⊆ offered)) then Err ScopeNotRequested
  else if bool_decide (REQUIRED_SCOPE ∈ offered) && negb (bool_decide (REQUIRED_SCOPE ∈ granted))
  then Err RequiredScopeMissing
  else Ok (Approved granted).

(** ** Handlers

    A handler, once it has read its record: statements in order, each with what follows
    if it succeeds and if it does not, ending in a page. *)

Inductive ConsentSource : Type := Screen | Memory.

Inductive Page : Type :=
| PLogin | PTotp | PRegister | PConsent (signed_in : option string) | PError
| PClient                                   (** back to the client *)
| PArrived (destination : FirstPartyDestination)
| PSignedIn                                 (** 204, to the page's script *)
| PRefused                                  (** a refusal to the page's script *)
| PInteraction.                             (** to the interaction's own page *)

Inductive Write : Type :=
| WSave (state : StoredState) (session : option string)
| WArrive
| WAnswer (answer : Answer) (source : ConsentSource).

Inductive Run : Type :=
| Done (page : Page)
| Do (w : Write) (ok failed : Run).

Inductive GateAnswer : Type := GateOpen | GateThrottled | GateUnreadable.

(** [step_up::Establishment] and its error. *)
Inductive Established : Type :=
| EstablishedSession (digest : string) (essential_satisfied : bool)
| EstablishInsufficient | EstablishFailed.

(** What the rest of the server answers one handler. *)
Record World (Task : Type) : Type := {
  w_now : Z;
  w_token : string;                          (** the token a page would carry *)
  w_locale : string;
  w_client : bool;                           (** the client row can be read *)
  w_subject : string -> option string;       (** whom the client knows the person of a session as *)
  w_grants : string -> option (list (Grants.Grant Task)); (** the grants of a subject *)
  w_capture : bool;                          (** no device proof, or one captured *)
  w_credentials : bool;                      (** a password method is configured *)
  w_gate : GateAnswer;
  w_verify : option (option string);         (** [Credentials::verify]: nothing on error *)
  w_named : string;                          (** the display name of the account *)
  w_supports_totp : bool;
  w_totp_active : option bool;
  w_totp_verify : option bool;
  w_parse_uuid : string -> bool;
  w_blocked : bool;                          (** [blocked_by_verification] *)
  w_establish : Established;
  w_registrar : bool;
  w_accepted : bool;
  w_created : option bool;                   (** made, taken, or nothing on error *)
  w_policy : MemoryPolicy
}.
Arguments w_now {Task}. Arguments w_token {Task}. Arguments w_locale {Task}.
Arguments w_client {Task}. Arguments w_subject {Task}. Arguments w_grants {Task}. Arguments w_capture {Task}.
Arguments w_credentials {Task}. Arguments w_gate {Task}. Arguments w_verify {Task}.
Arguments w_named {Task}. Arguments w_supports_totp {Task}. Arguments w_totp_active {Task}.
Arguments w_totp_verify {Task}. Arguments w_parse_uuid {Task}. Arguments w_blocked {Task}.
Arguments w_establish {Task}. Arguments w_registrar {Task}. Arguments w_accepted {Task}.
Arguments w_created {Task}. Arguments w_policy {Task}.

Definition form_field (form : list (string * string)) (name : string) : option string :=
  snd <$> List.find (fun kv => String.eqb (fst kv) name) form.

Section Handlers.
Context {Task : Type}.
Variable sha256_hex : string -> string.
Variable from_str : string -> option value.
Variable json_string : value -> string.
Implicit Types (w : World Task) (st : StoredState) (record : InteractionRecord)
  (form : list (string * string)).

(** [render]: the page of a stage, the pending second factor first. *)
Definition render w st record : Page :=
  match totp_user st with
  | Some _ => PTotp
  | None =>
      match stage st with
      | StLogin | StStepUp => PLogin
      | StRegister => PRegister
      | StConsent =>
          if is_some_and (fun _ => w_client w) (Continuation.client_request (ir_continuation record))
          then PConsent (username st) else PError
      | StResponse => PError
      end
  end.

(** A fresh token, saved with the state, and the page that carries it. *)
Definition draw w st record (session : option string) : Run :=
  let st := issue_csrf sha256_hex (w_token w) st in
  Do (WSave st session) (Done (render w st record)) (Done PError).
Definition retry w st record : Run := draw w st record None.

Definition parameter (record : InteractionRecord) (name : string) : option string :=
  rq ← Continuation.client_request (ir_continuation record);
  vget name (cq_parameters rq) ≫= as_str.

(** [complete]: the spend decides the winner, then the response goes to the client. *)
Definition complete w record (answer : Answer) (source : ConsentSource) : Run :=
  match Continuation.client_request (ir_continuation record), parameter record "redirect_uri" with
  | Some _, Some _ =>
      if match answer with Approved _ => w_capture w | Denied => true end
      then Do (WAnswer answer source) (Done PClient) (Done PError)
      else Done PError
  | _, _ => Done PError
  end.

(** [arrive]. *)
Definition arrive (destination : FirstPartyDestination) : Run :=
  Do WArrive (Done (PArrived destination)) (Done PError).

(** [skip_consent_if_remembered]: the scopes it approves, nothing where the screen is to
    be drawn. *)
Definition remembered_scopes w st record : option (gset string) :=
  if negb (bool_decide (stage st = StConsent)) then None
  else
    rq ← Continuation.client_request (ir_continuation record);
    digest ← ir_session record;
    subject ← w_subject w digest;
    grants ← w_grants w subject;
    remembered_approval from_str json_string grants (cq_client rq) subject (cq_parameters rq)
      (w_policy w) (w_now w).

Definition skip_consent_if_remembered w st record (drawn : Run) : Run :=
  match remembered_scopes w st record with
  | Some scopes =>
      if Stage.may_advance_to (stage st) StResponse (ir_continuation record) then
        let st := spend_csrf (at_stage StResponse (decided (StoredApproved (elements scopes)) st)) in
        Do (WSave st None) (complete w record (Approved scopes) Memory) drawn
      else drawn
  | None => drawn
  end.

(** [show]. *)
Definition show w (asks_for_sign_in : bool) st record : Run :=
  let st :=
    if bool_decide (stage st = StRegister) && asks_for_sign_in
       && Stage.may_advance_to (stage st) StLogin (ir_continuation record)
    then at_stage StLogin st else st in
  match (if bool_decide (stage st = StResponse) then Continuation.first_party (ir_continuation record)
         else None) with
  | Some destination => arrive destination
  | None => skip_consent_if_remembered w st record (draw w (in_locale (w_locale w) st) record None)
  end.

(** [advance_after_authentication]. *)
Definition advance_after_authentication st (essential_satisfied : bool) (c : Continuation) : StoredState :=
  if negb essential_satisfied && Stage.may_advance_to (stage st) StStepUp c then at_stage StStepUp st
  else
    let next := Stage.after_login c in
    if Stage.may_advance_to (stage st) next c then at_stage next st else st.

(** A conditional binding of another client or action is refused. *)
Definition binding_fits st record : bool :=
  is_none_or (fun b =>
    is_some_and (fun rq => String.eqb (cq_client rq) (cb_client b))
      (Continuation.client_request (ir_continuation record))
    && String.eqb (cb_action b) "authorize") (conditional st).

(** The record a sign-in goes on with: the session just made, the rest as it was read. *)
Definition with_session record (digest : string) : InteractionRecord := {|
  ir_continuation := ir_continuation record; ir_state := ir_state record;
  ir_session := Some digest; ir_expires_at := ir_expires_at record |}.

(** [authenticated]. *)
Definition authenticated w st record : Run :=
  if w_blocked w then Done PError
  else if negb (binding_fits st record) then Done PError
  else match w_establish w with
  | EstablishInsufficient => retry w st record
  | EstablishFailed => Done PError
  | EstablishedSession digest satisfied =>
      let st := advance_after_authentication st satisfied (ir_continuation record) in
      match Continuation.first_party (ir_continuation record) with
      | Some destination =>
          Do (WSave (spend_csrf st) (Some digest)) (arrive destination) (Done PError)
      | None =>
          let st := issue_csrf sha256_hex (w_token w) st in
          Do (WSave st (Some digest))
            (skip_consent_if_remembered w st (with_session record digest) (Done (render w st record)))
            (Done PError)
      end
  end.

(** [gate], before a credential is looked at. *)
Definition gate w st record (go_on : Run) : Run :=
  match w_gate w with
  | GateOpen => go_on
  | GateThrottled => retry w st record
  | GateUnreadable => Done PError
  end.

(** [sign_in]. *)
Definition sign_in w st form record : Run :=
  if negb (w_credentials w) then
    Do (WSave (issue_csrf sha256_hex (w_token w) st) None) (Done PLogin) (Done PError)
  else match form_field form "username", form_field form "password" with
  | Some name, Some _ =>
      gate w st record
        match w_verify w with
        | None => Done PError
        | Some None => retry w st record
        | Some (Some user) =>
            let st := signed_in_as (w_named w) st in
            if w_supports_totp w then
              match w_totp_active w with
              | Some true => draw w (require_totp user name st) record None
              | Some false => authenticated w st record
              | None => Done PError
              end
            else authenticated w st record
        end
  | _, _ => retry w st record
  end.

(** [verify_totp_sign_in]. *)
Definition totp_shape (form : list (string * string)) : bool :=
  Nat.eqb (length (List.filter (fun kv => String.eqb (fst kv) "totp_code") form)) 1
  && Nat.eqb (length (List.filter (fun kv => String.eqb (fst kv) "csrf") form)) 1
  && negb (existsb (fun kv => in_strings (fst kv) ["username"; "password"]%string) form).

Definition verify_totp_sign_in w st form record : Run :=
  match totp_user st, totp_username st with
  | Some user, Some _ =>
      if negb (w_parse_uuid w user) then Done PError
      else gate w st record
        match (if totp_shape form then w_totp_verify w else Some false) with
        | Some true => authenticated w (clear_totp st) record
        | Some false => retry w st record
        | None => Done PError
        end
  | _, _ => Done PError
  end.

(** [create_account]. *)
Definition create_account w st record : Run :=
  if negb (w_registrar w) then Done PError
  else gate w st record
    (if negb (w_accepted w) then retry w st record
     else match w_created w with
          | None => Done PError
          | Some false => retry w st record
          | Some true => authenticated w (signed_in_as (w_named w) st) record
          end).

Definition offered record : gset string :=
  match Continuation.client_request (ir_continuation record) with
  | Some rq => list_to_set (strings_of (cq_parameters rq) "scopes")
  | None => ∅
  end.

(** [decide]: the offer, the button, the ticked boxes. *)
Definition ticked form : gset string :=
  list_to_set (omap (fun kv => if String.eqb (fst kv) "scope" then Some (snd kv) else None) form).

Definition decide_form w st form record : Run :=
  if negb (is_some_and (fun _ => w_client w) (Continuation.client_request (ir_continuation record)))
  then Done PError
  else
    let approved :=
      match form_field form "decision" with
      | Some v => if String.eqb v "allow" then Some true else if String.eqb v "deny" then Some false else None
      | None => None
      end in
    match approved with
    | None => Done PError
    | Some approved =>
        match consent_decide (offered record) approved (ticked form) with
        | Err _ => Done PError
        | Ok answer =>
            let st := decided match answer with
                              | Approved scopes => StoredApproved (elements scopes)
                              | Denied => StoredDenied
                              end st in
            if negb (Stage.may_advance_to (stage st) StResponse (ir_continuation record)) then Done PError
            else
              Do (WSave (spend_csrf (at_stage StResponse st)) None)
                (complete w record answer Screen) (Done PError)
        end
    end.

(** [submit]. *)
Definition submit w form st record : Run :=
  match check_csrf sha256_hex st (form_field form "csrf") with
  | Err _ => Done PError
  | Ok _ =>
      let st := spend_csrf st in
      if bool_decide (stage st = StStepUp) && bool_decide (form_field form "decision" = Some "cancel"%string)
      then complete w record Denied Screen
      else if is_some_and (fun _ => true) (totp_user st) then verify_totp_sign_in w st form record
      else match stage st with
           | StLogin | StStepUp => sign_in w st form record
           | StRegister => create_account w st record
           | StConsent => decide_form w st form record
           | StResponse => Done PError
           end
  end.

(** [complete_external]: an upstream proof. *)
Definition complete_external w st record : Run :=
  match stage st with
  | StLogin | StStepUp => authenticated w (signed_in_as "External account" st) record
  | _ => Done PError
  end.

(** [assertion_ceremony] from the token on, with [session_from_assertion]: the ceremony
    itself is the [w_verify] of its world. *)
Definition passkey_finish w (csrf : string) st record : Run :=
  match stage st with
  | StLogin | StStepUp =>
      match check_csrf sha256_hex st (Some csrf), w_verify w with
      | Ok _, Some (Some _) =>
          let st := signed_in_as (w_named w) st in
          if negb (binding_fits st record) then Done PRefused
          else match w_establish w with
          | EstablishedSession digest satisfied =>
              Do (WSave (advance_after_authentication st satisfied (ir_continuation record)) (Some digest))
                (Done PSignedIn) (Done PRefused)
          | _ => Done PRefused
          end
      | _, _ => Done PRefused
      end
  | _ => Done PRefused
  end.

(** [begin_at] after [begin_interaction]: where [authorize] starts an interaction, by the
    decision of [NextStep.decide]. *)
Definition beginning (step : NextStep) (name : option string) (binding : option ConditionalBinding)
    : StoredState := {|
  conditional := binding;
  stage := match step with
           | ToStepUp => StStepUp
           | Silent | ToConsent => StConsent
           | _ => StLogin
           end;
  csrf_digest := None; decision := None;
  username := match step with ToConsent => name | _ => None end;
  totp_user := None; totp_username := None; locale := None |}.

Definition begin_at (step : NextStep) (name : option string) (binding : option ConditionalBinding)
    (session : option string) : Run :=
  Do (WSave (beginning step name binding) session) (Done PInteraction) (Done PInteraction).
End Handlers.

(** What a browser, or an upstream provider behind it, asks of an interaction. *)
Inductive Arrival : Type :=
| Show (asks_for_sign_in : bool)
| Submit (form : list (string * string))
| External
| PasskeyFinish (csrf : string).

(** ** The system *)

Section System.
Context {Task Proof P : Type} `{AcrDecider P}.
Variable hex_decode : string -> option (list Z).
Variable hex_encode : list Z -> string.
Variable proof_ok : Proof -> string -> Z -> result () DomainError.
Variable sha256_hex : string -> string.
Variable from_str : string -> option value.
Variable json_string : value -> string.
Variable state_to_json : StoredState -> value.
Variable state_of_json : value -> option StoredState.

(** [StoredState::from_stored]. *)
Definition from_stored (v : value) : StoredState :=
  match state_of_json v with Some st => st | None => default_state end.

Definition handle (w : World Task) (a : Arrival) (record : InteractionRecord) : Run :=
  let st := from_stored (ir_state record) in
  match a with
  | Show asks => show sha256_hex from_str json_string w asks st record
  | Submit form => submit sha256_hex from_str json_string w form st record
  | External => complete_external sha256_hex from_str json_string w st record
  | PasskeyFinish csrf => passkey_finish sha256_hex w csrf st record
  end.

(** What a handler was given: what the rest of the server answers it, what arrived, and
    the record it was resumed with. *)
Abbreviation Given := (World Task * Arrival * InteractionRecord)%type.

(** A handler in flight: the id its statements are about, what it was resumed for, and, as
    a ghost, all it was given where it answers a browser. *)
Record Thread : Type := { t_id : string; t_for : Continuation; t_from : option Given; t_run : Run }.

(** A response that went to a client: the row it spent, what it said, on whose word, and
    what the handler that sent it was given. *)
Record Answered : Type := {
  a_request : list Z; a_row : AuthRequest; a_answer : Answer; a_source : ConsentSource;
  a_from : option Given
}.

Record Sys : Type := {
  tables : Tables Proof;
  threads : list Thread;
  drawn : gset (list Z);          (** the digests of the ids drawn so far *)
  answered : list Answered
}.

Definition start : Sys := {| tables := empty_tables; threads := []; drawn := ∅; answered := [] |}.

Definition perform (db : Tables Proof) (id : string) (w : Write) (now : Z) : Tables Proof * bool :=
  let digest := sha256_hex id in
  match w with
  | WSave st session =>
      let '(db, r) := save_interaction_state hex_decode db digest (state_to_json st) session now in (db, is_ok r)
  | WArrive => let '(db, r) := complete_interaction hex_decode db digest now in (db, is_ok r)
  | WAnswer _ _ =>
      let '(db, r) := complete_interaction_with_device hex_decode proof_ok db digest now in (db, is_ok r)
  end.

Definition noted (db : Tables Proof) (id : string) (from : option Given) (w : Write) (now : Z) (ok : bool)
    : list Answered :=
  match w with
  | WAnswer answer source =>
      match ok, hex_decode (sha256_hex id) with
      | true, Some i =>
          match select_row (q_of i now) (requests db) with
          | Some (d, r) =>
              [{| a_request := d; a_row := r; a_answer := answer; a_source := source; a_from := from |}]
          | None => []
          end
      | _, _ => []
      end
  | _ => []
  end.

(** The operations that are not a handler's. *)
Definition background (op : Op Proof) : bool :=
  match op with
  | Push _ | Destroy _ | Purge _ | SweepRequests _ _ | SweepFirstParties _ _ | IssueChallenge _ _ _ _
  | SpendChallenge _ _ | AddClient _ | DeleteClient _ | ProofsChange _ => true
  | _ => false
  end.

Inductive sys_step : Sys -> Sys -> Prop :=
| step_background s op :
    background op = true ->
    sys_step s {| tables := exec hex_decode hex_encode proof_ok (tables s) op; threads := threads s;
                  drawn := drawn s; answered := answered s |}
| step_first_party s id i destination expires_at now db :
    hex_decode (sha256_hex id) = Some i -> i ∉ drawn s ->
    begin_first_party_interaction hex_decode (tables s) (sha256_hex id) destination expires_at now = Ok db ->
    sys_step s {| tables := db; threads := threads s; drawn := drawn s ∪ {[ i ]}; answered := answered s |}
| step_authorize s digest id i now db row (r : Requirements) (state : SessionState)
    (policy : DecisionPolicy) (acr : P) step name binding session :
    hex_decode (sha256_hex id) = Some i -> i ∉ drawn s ->
    step = NextStep.decide r state policy acr now ->
    (forall who, session_of state = Some who -> session = Some (s_id_digest who)) ->
    begin_interaction hex_decode (tables s) digest (sha256_hex id) now = Ok db ->
    select_row (q_of i now) (requests db) = Some row ->
    match step with Refuse _ => False | _ => True end ->
    sys_step s {| tables := db;
                  threads := {| t_id := id; t_for := ir_continuation (record_of (snd row)); t_from := None;
                                t_run := begin_at step name binding session |} :: threads s;
                  drawn := drawn s ∪ {[ i ]}; answered := answered s |}
| step_arrive s id record now w a :
    by_interaction hex_decode (tables s) (sha256_hex id) now = Ok (Some record) ->
    sys_step s {| tables := tables s;
                  threads := {| t_id := id; t_for := ir_continuation record; t_from := Some (w, a, record);
                                t_run := handle w a record |} :: threads s;
                  drawn := drawn s; answered := answered s |}
| step_perform s before after id c from w ok failed now db b :
    threads s = before ++ {| t_id := id; t_for := c; t_from := from; t_run := Do w ok failed |} :: after ->
    perform (tables s) id w now = (db, b) ->
    sys_step s {| tables := db;
                  threads := before ++ {| t_id := id; t_for := c; t_from := from;
                                          t_run := if b then ok else failed |} :: after;
                  drawn := drawn s; answered := noted (tables s) id from w now b ++ answered s |}.

Definition reachable (s : Sys) : Prop := rtc sys_step start s.
End System.
