(* ===== verification/InteractionLaws.v ===== *)
(** * What every interleaving of handlers keeps

    The invariant of [Interaction.sys_step] and what follows from it: stages follow from
    what was proved, answers are grounded in the form sent or in the grants of who signed
    in, the sign-up page is unreachable. *)

From S2P Require Import Prelude Text BTree Json Session RateLimit Acr.
From S2P Require Import Refresh.
From S2P Require Import Grants.
From S2P Require Import GrantStore.
From S2P Require Import Codes.
From S2P Require Import Decision ConsentMemory.
From S2P Require Import Requests.
From S2P Require Import Interaction.
Open Scope Z_scope.

(** ** Rows that come from rows *)

(** Nothing of an interaction but its progress changes, and a session stays one. *)
Definition q_goes (r r' : AuthRequest) : Prop :=
  q_interaction r' = q_interaction r /\ q_client r' = q_client r /\ q_parameters r' = q_parameters r /\
  (is_Some (q_session r) -> is_Some (q_session r')).
Definition f_goes (r r' : FirstPartyRow) : Prop :=
  f_destination r' = f_destination r /\ (is_Some (f_session r) -> is_Some (f_session r')).

Section Follows.
Context {Proof : Type}.
Implicit Types (db : Tables Proof).

(** Every row with an interaction was a row with it before, related by [R], or by [F]. *)
Definition follows (R : AuthRequest -> AuthRequest -> Prop) (F : FirstPartyRow -> FirstPartyRow -> Prop)
    db db' : Prop :=
  (forall d r', requests db' !! d = Some r' ->
     q_interaction r' = None \/ exists r, requests db !! d = Some r /\ R r r') /\
  (forall i f', first_parties db' !! i = Some f' ->
     exists f, first_parties db !! i = Some f /\ F f f').

Lemma follows_same R F db db' :
  (forall r, R r r) -> (forall f, F f f) ->
  requests db' = requests db -> first_parties db' = first_parties db -> follows R F db db'.
Proof. intros HR HF Hq Hf. split; [intros d r'; rewrite Hq; eauto|intros i f'; rewrite Hf; eauto]. Qed.

Lemma follows_filter R F (P : list Z * AuthRequest -> Prop) `{forall x, Decision (P x)} db db' :
  (forall r, R r r) -> (forall f, F f f) -> requests db' = filter P (requests db) ->
  (forall i f, first_parties db' !! i = Some f -> first_parties db !! i = Some f) -> follows R F db db'.
Proof.
  intros HR HF Hq Hf. split; [|eauto]. intros d r'. rewrite Hq.
  intros [Hr _]%map_lookup_filter_Some. eauto.
Qed.

Lemma follows_insert R F db db' d r r' :
  (forall r, R r r) -> (forall f, F f f) -> requests db' = <[d := r']> (requests db) ->
  first_parties db' = first_parties db ->
  (q_interaction r' = None \/ (requests db !! d = Some r /\ R r r')) -> follows R F db db'.
Proof.
  intros HR HF Hq Hf Hr. split; [|intros i f'; rewrite Hf; eauto].
  intros e x. rewrite Hq, lookup_insert. case_decide; [subst; intros [= <-]|]; [|eauto].
  destruct Hr as [?|[? ?]]; eauto.
Qed.

Section Store.
Variable hex_decode : string -> option (list Z).
Variable hex_encode : list Z -> string.
Variable proof_ok : Proof -> string -> Z -> result () DomainError.

Lemma follows_either R F db interaction now f g :
  (forall r, R r r) -> (forall h, F h h) ->
  (forall i r, hex_decode interaction = Some i -> q_of i now r = true -> R r (f r)) ->
  (forall h, F h (g h)) ->
  follows R F db (fst (update_either hex_decode db interaction now f g)).
Proof.
  intros HR HF Hf Hg. unfold update_either, digest_bytes.
  destruct (hex_decode interaction) as [i|]; cbn [ok_or]; [|by apply follows_same].
  assert (Hq : forall d r', fst (update_rows (q_of i now) f (requests db)) !! d = Some r' ->
    q_interaction r' = None \/ exists r, requests db !! d = Some r /\ R r r').
  { intros d r'. rewrite update_rows_lookup. destruct (requests db !! d) as [r|]; [|done].
    cbn. intros [= <-]. right. exists r. split; [done|]. destruct (q_of i now r) eqn:E; eauto. }
  destruct (update_rows _ _ _) as [m n]. cbn [fst] in Hq.
  destruct (n =? 1)%nat; [split; [done|cbn; eauto]|].
  cbn [with_requests first_parties]. destruct (first_parties db !! i) as [h|] eqn:Hh; [|split; [done|cbn; eauto]].
  destruct (f_open now h); split; cbn; try done; try (by eauto).
  intros j f'. rewrite lookup_insert. case_decide; [subst; intros [= <-]|]; eauto.
Qed.

(** The row of the table an interaction is in. *)
Lemma by_interaction_Some db interaction now record :
  by_interaction hex_decode db interaction now = Ok (Some record) ->
  exists i, hex_decode interaction = Some i /\
  ((exists d r, requests db !! d = Some r /\ q_interaction r = Some i /\ record = record_of r) \/
   (exists h destination, first_parties db !! i = Some h /\
      FirstPartyDestination.parse (f_destination h) = Some destination /\
      record = {| ir_continuation := FirstParty destination; ir_state := f_state h;
                  ir_session := f_session h; ir_expires_at := f_expires_at h |})).
Proof.
  unfold by_interaction, digest_bytes. destruct (hex_decode interaction) as [i|]; [|done].
  cbn [ok_or rbind]. intros [= Hrec]. exists i. split; [done|].
  destruct (select_row _ _) as [[d r]|] eqn:Hsel.
  - apply select_row_Some in Hsel as [Hd Hq]. apply q_of_facts in Hq as (Hi & _). injection Hrec as <-.
    left. eauto.
  - unfold first_party_by_interaction in Hrec. destruct (first_parties db !! i) as [h|]; [|done].
    destruct (f_open now h); [|done]. destruct (FirstPartyDestination.parse _) as [dest|] eqn:Hp; [|done].
    injection Hrec as <-. right. eauto.
Qed.

Lemma background_follows db op R F :
  (forall r, R r r) -> (forall r c, R r (q_challenged c r)) ->
  (forall f, F f f) -> (forall f c, F f (f_challenged c f)) ->
  background op = true -> follows R F db (exec hex_decode hex_encode proof_ok db op).
Proof.
  intros HR HRc HF HFc Hop. destruct op; try discriminate Hop; cbn [exec];
    try (by apply follows_same); try (by eapply follows_filter; eauto).
  - destruct (push hex_decode db request) as [db'|] eqn:Hp; [|by apply follows_same].
    apply ids_from_push in Hp as (d & Hd & Hm & Hf). eapply (follows_insert _ _ _ _ d (pushed_row request)); eauto.
  - unfold destroy_interaction. destruct (digest_bytes _ _) as [j|]; [|by apply follows_same].
    eapply (follows_filter _ _ (fun kr => q_interaction kr.2 <> Some j)); [done|done|reflexivity|].
    cbn. by intros i f [_ ?]%lookup_delete_Some.
  - split; cbn; eauto. intros i f' [Hf _]%map_lookup_filter_Some. eauto.
  - unfold issue_assertion_challenge.
    pose proof (follows_either R F db interaction now (q_challenged (Some (challenge, expires_at)))
      (f_challenged (Some (challenge, expires_at))) HR HF ltac:(eauto) ltac:(eauto)) as Hu.
    destruct (update_either _ _ _ _ _ _) as [db' [[]|e]]; [|destruct e; by apply follows_same].
    destruct (length challenge <? 16)%nat; [by apply follows_same|done].
  - unfold spend_assertion_challenge. destruct (digest_bytes _ _) as [j|]; [|by apply follows_same].
    destruct (select_row _ _) as [[d r]|] eqn:Hsel.
    + apply select_row_Some in Hsel as [Hd _].
      by eapply (follows_insert _ _ _ _ d r (q_challenged None r)); eauto.
    + destruct (first_parties db !! j) as [h|] eqn:Hh; [|by apply follows_same].
      destruct (if f_open now h then _ else None); [|by apply follows_same].
      split; cbn; [eauto|]. intros i f'. rewrite lookup_insert. case_decide; [subst; intros [= <-]|]; eauto.
Qed.

Lemma complete_with_device_follows R F db digest now :
  (forall r, R r r) -> (forall h, F h h) -> (forall r, R r (q_consumed now r)) ->
  follows R F db (fst (complete_interaction_with_device hex_decode proof_ok db digest now)).
Proof.
  intros HR HF HRc.
  unfold complete_interaction_with_device. destruct (digest_bytes _ _) as [i|]; [|by apply follows_same].
  destruct (select_row _ _) as [[d r]|] eqn:Hsel; [|by apply follows_same].
  apply select_row_Some in Hsel as [Hd _].
  assert (Hi : forall db', requests db' = <[d := q_consumed now r]> (requests db) ->
    first_parties db' = first_parties db -> follows R F db db').
  { intros db' Hm Hf. eapply (follows_insert _ _ _ _ d r (q_consumed now r)); try done. by right. }
  destruct (proofs db !! d) as [[bound proof]|]; [destruct (bool_decide _)|]; try by apply Hi.
  destruct (proof_ok _ _ _); [by apply Hi|by apply follows_same].
Qed.
End Store.
End Follows.

(** ** What a handler may write *)

(** The stages a row may be at, by whether it has a session. *)
Definition row_ok (c : Continuation) (st : StoredState) (has : bool) : Prop :=
  stage st <> StRegister /\
  match c with
  | Client _ =>
      match stage st with
      | StConsent | StStepUp => has = true
      | StResponse => has = true /\ decision st <> None
      | _ => True
      end
  | FirstParty _ =>
      match stage st with
      | StConsent => False
      | StStepUp | StResponse => has = true
      | _ => True
      end
  end.

Lemma row_ok_same c st st' has :
  stage st' = stage st -> decision st' = decision st -> row_ok c st has -> row_ok c st' has.
Proof. unfold row_ok. by intros -> ->. Qed.

Lemma row_ok_mono c st has has' : (has = true -> has' = true) -> row_ok c st has -> row_ok c st has'.
Proof. intros Hm [Hn H]. split; [done|]. destruct c, (stage st); naive_solver. Qed.

Lemma row_ok_default c has : row_ok c default_state has.
Proof. split; [done|]. by destruct c. Qed.

Lemma row_ok_advance c st has satisfied :
  row_ok c st has -> row_ok c (advance_after_authentication st satisfied c) true.
Proof.
  intros H. unfold advance_after_authentication.
  destruct (negb satisfied && _); [by split; destruct c|].
  destruct (Stage.may_advance_to _ _ _) eqn:E; [by split; destruct c|].
  by apply (row_ok_mono c st has).
Qed.

Section Handlers.
Context {Task : Type}.
Variable sha256_hex : string -> string.
Variable from_str : string -> option value.
Variable json_string : value -> string.
Implicit Types (w : World Task) (st : StoredState) (record : InteractionRecord) (c : Continuation)
  (has : bool) (run : Run).

(** Which answers a handler may send. *)
Variable may : Answer -> ConsentSource -> Prop.

Fixpoint saves_ok c has run : Prop :=
  match run with
  | Done _ => True
  | Do w ok failed =>
      let has' := match w with WSave _ (Some _) => true | _ => has end in
      match w with
      | WSave st _ => row_ok c st has'
      | WArrive => (exists destination, c = FirstParty destination) /\ has = true
      | WAnswer answer source =>
          (exists rq, c = Client rq) /\
          (match answer with Approved _ => has = true | Denied => True end) /\ may answer source
      end /\ saves_ok c has' ok /\ saves_ok c has failed
  end.

Lemma draw_ok w st record session has c :
  row_ok c st (match session with Some _ => true | None => has end) ->
  saves_ok c has (draw sha256_hex w st record session).
Proof.
  intros H. cbn [draw saves_ok]. split; [|done].
  apply (row_ok_same c st); [done|done|]. by destruct session.
Qed.

Lemma retry_ok w st record has c : row_ok c st has -> saves_ok c has (retry sha256_hex w st record).
Proof. exact (draw_ok w st record None has c). Qed.

Lemma gate_ok w st record has c run :
  row_ok c st has -> saves_ok c has run -> saves_ok c has (gate sha256_hex w st record run).
Proof. intros Hr Hg. unfold gate. destruct (w_gate w); [done|by apply retry_ok|done]. Qed.

Lemma complete_ok w record answer source has :
  (match answer with Approved _ => has = true | Denied => True end) ->
  may answer source ->
  saves_ok (ir_continuation record) has (complete w record answer source).
Proof.
  intros Ha Hg. unfold complete.
  destruct (Continuation.client_request _) as [rq|] eqn:Hc; [|done].
  destruct (parameter record "redirect_uri"); [|done].
  assert (Hcl : exists rq, ir_continuation record = Client rq)
    by (destruct (ir_continuation record); [eauto|discriminate Hc]).
  destruct answer; [destruct (w_capture w)|]; cbn; tauto.
Qed.

(** The records a handler may ask the memory about: the one it read, and that one under
    the session it has just made. *)
Definition about w record record' : Prop :=
  record' = record \/
  exists digest satisfied, w_establish w = EstablishedSession digest satisfied /\
    record' = with_session record digest.

(** What the memory approves for one of them may be sent. *)
Definition memory_may w record : Prop :=
  forall st record' scopes, about w record record' ->
    remembered_scopes from_str json_string w st record' = Some scopes -> may (Approved scopes) Memory.

Lemma skip_ok w st record record' has drawn :
  memory_may w record -> about w record record' ->
  row_ok (ir_continuation record') st has -> saves_ok (ir_continuation record') has drawn ->
  saves_ok (ir_continuation record') has
    (skip_consent_if_remembered from_str json_string w st record' drawn).
Proof.
  intros Hmay Hab [Hn Hr] Hd. unfold skip_consent_if_remembered.
  destruct (remembered_scopes _ _ _ _ _) as [scopes|] eqn:Hs; [|done].
  destruct (Stage.may_advance_to _ _ _); [|done].
  pose proof (Hmay st record' scopes Hab Hs) as Hans.
  unfold remembered_scopes in Hs. destruct (bool_decide (stage st = StConsent)) eqn:Hst; [|done].
  apply bool_decide_eq_true in Hst. cbn [negb] in Hs.
  destruct (ir_continuation record') as [rq|] eqn:Hc; [|done]. rewrite Hst in Hr. subst has.
  cbn [saves_ok]. split; [by split|]. split; [|done].
  rewrite <- Hc. by apply complete_ok.
Qed.

Lemma authenticated_ok w st record has :
  memory_may w record -> row_ok (ir_continuation record) st has ->
  saves_ok (ir_continuation record) has
    (authenticated sha256_hex from_str json_string w st record).
Proof.
  intros Hmay H. unfold authenticated. destruct (w_blocked w); [done|].
  destruct (negb (binding_fits st record)); [done|].
  destruct (w_establish w) as [digest satisfied| |] eqn:He; [|by apply retry_ok|done].
  pose proof (row_ok_advance _ _ _ satisfied H) as Hadv.
  destruct (Continuation.first_party _) as [destination|] eqn:Hf.
  - cbn [saves_ok arrive]. split; [by eapply row_ok_same; [..|exact Hadv]|]. split_and!; try done.
    destruct (ir_continuation record); [discriminate Hf|eauto].
  - cbn [saves_ok]. split; [by eapply row_ok_same; [..|exact Hadv]|]. split; [|done].
    apply (skip_ok w _ record (with_session record digest)); [done|right; by eexists _, _| |done].
    by eapply row_ok_same; [..|exact Hadv].
Qed.

Lemma show_ok w asks st record has :
  memory_may w record -> row_ok (ir_continuation record) st has ->
  saves_ok (ir_continuation record) has (show sha256_hex from_str json_string w asks st record).
Proof.
  intros Hmay H. unfold show.
  rewrite (bool_decide_false (stage st = StRegister)) by apply H. cbn [andb].
  destruct (bool_decide (stage st = StResponse)) eqn:Hst.
  - apply bool_decide_eq_true in Hst.
    destruct (Continuation.first_party _) as [destination|] eqn:Hf.
    + destruct H as [_ H]. rewrite Hst in H.
      destruct (ir_continuation record) as [|d]; [discriminate Hf|]. cbn. eauto 10.
    + apply (skip_ok w _ record); [done|by left|done|]. by apply draw_ok.
  - apply (skip_ok w _ record); [done|by left|done|]. by apply draw_ok.
Qed.

Lemma sign_in_ok w st form record has :
  memory_may w record -> row_ok (ir_continuation record) st has ->
  saves_ok (ir_continuation record) has
    (sign_in sha256_hex from_str json_string w st form record).
Proof.
  intros Hmay H. unfold sign_in. destruct (negb (w_credentials w)).
  { cbn. split; [by eapply row_ok_same; [..|exact H]|done]. }
  destruct (form_field form "username"), (form_field form "password"); try by apply retry_ok.
  apply gate_ok; [done|]. destruct (w_verify w) as [[user|]|]; [|by apply retry_ok|done].
  assert (Hs : row_ok (ir_continuation record) (signed_in_as (w_named w) st) has) by done.
  destruct (w_supports_totp w); [|by apply authenticated_ok].
  destruct (w_totp_active w) as [[]|]; [|by apply authenticated_ok|done]. by apply draw_ok.
Qed.

(** What the consent form decides may be sent. *)
Definition form_may form record : Prop :=
  forall answer,
    (exists v, form_field form "decision" = Some v /\
       (v = "allow"%string /\ consent_decide (offered record) true (ticked form) = Ok answer \/
        v = "deny"%string /\ answer = Denied)) -> may answer Screen.

Lemma decide_form_ok w st form record has :
  (stage st = StConsent -> form_may form record) ->
  row_ok (ir_continuation record) st has ->
  saves_ok (ir_continuation record) has (decide_form w st form record).
Proof.
  intros Hmay [Hn H]. unfold decide_form. cbn zeta.
  destruct (ir_continuation record) as [rq|d] eqn:Hc; [|done].
  cbn [Continuation.client_request is_some_and]. destruct (w_client w); cbn [negb]; [|done].
  destruct (form_field form "decision") as [v|] eqn:Hv; [|done].
  destruct (if String.eqb v "allow" then _ else _) as [approved|] eqn:Hap; [|done].
  destruct (consent_decide _ _ _) as [answer|] eqn:Hd; [|done].
  cbn [stage decided]. destruct (Stage.may_advance_to _ _ _) eqn:Hm; cbn [negb]; [|done].
  assert (Hst : stage st = StConsent) by (by destruct (stage st)). rewrite Hst in H. subst has.
  cbn [saves_ok]. split; [by split; [|split; [|destruct answer]]|]. split; [|done].
  rewrite <- Hc. apply complete_ok; [by destruct answer|]. apply Hmay; [done|]. exists v. split; [done|].
  destruct (String.eqb_spec v "allow"); [left; split; [done|]; by injection Hap as <-|].
  destruct (String.eqb_spec v "deny"); [right; split; [done|]|done]. injection Hap as <-.
  by injection Hd as <-.
Qed.

Lemma submit_ok w form st record has :
  memory_may w record ->
  (check_csrf sha256_hex st (form_field form "csrf") = Ok () ->
     (stage st = StConsent -> form_may form record) /\
     (stage st = StStepUp -> form_field form "decision" = Some "cancel"%string -> may Denied Screen)) ->
  row_ok (ir_continuation record) st has ->
  saves_ok (ir_continuation record) has
    (submit sha256_hex from_str json_string w form st record).
Proof.
  intros Hmay Hform H. unfold submit. destruct (check_csrf _ _ _) as [[]|]; [|done].
  destruct (Hform eq_refl) as [Hconsent Hcancel].
  assert (Hs : row_ok (ir_continuation record) (spend_csrf st) has) by (by eapply row_ok_same; [..|exact H]).
  destruct (_ && _) eqn:Hcan.
  { apply andb_true_iff in Hcan as [H1%bool_decide_eq_true H2%bool_decide_eq_true].
    apply complete_ok; [done|]. by apply Hcancel. }
  destruct (totp_user (spend_csrf st)) as [user|] eqn:Hu; cbn [is_some_and].
  - unfold verify_totp_sign_in. rewrite Hu. destruct (totp_username _); [|done].
    destruct (negb _); [done|]. apply gate_ok; [done|].
    destruct (if totp_shape form then _ else _) as [[]|]; [|by apply retry_ok|done].
    apply authenticated_ok; [done|]. by eapply row_ok_same; [..|exact Hs].
  - destruct (stage (spend_csrf st)) eqn:Hst; [by apply sign_in_ok| |by apply sign_in_ok| |done].
    2:{ apply decide_form_ok; [|done]. intros _. by apply Hconsent. }
    by destruct Hs.
Qed.

Lemma passkey_ok w csrf st record has :
  row_ok (ir_continuation record) st has ->
  saves_ok (ir_continuation record) has (passkey_finish sha256_hex w csrf st record).
Proof.
  intros H. unfold passkey_finish.
  assert (Ha : forall satisfied, row_ok (ir_continuation record)
    (advance_after_authentication (signed_in_as (w_named w) st) satisfied (ir_continuation record)) true)
    by (intros; eapply row_ok_advance; by eapply row_ok_same; [..|exact H]).
  destruct (stage st); try done;
    destruct (check_csrf _ _ _); try done; destruct (w_verify w) as [[]|]; try done;
    destruct (negb _); try done; destruct (w_establish w); try done; cbn; auto.
Qed.

Lemma external_ok w st record has :
  memory_may w record -> row_ok (ir_continuation record) st has ->
  saves_ok (ir_continuation record) has
    (complete_external sha256_hex from_str json_string w st record).
Proof.
  intros Hmay H. unfold complete_external. destruct (stage st) eqn:E; try done;
    (apply authenticated_ok; [done|]); by eapply row_ok_same; [..|exact H].
Qed.
End Handlers.

(** ** The invariant *)

Definition has (session : option string) : bool := match session with Some _ => true | None => false end.

Lemma has_mono a b : (is_Some a -> is_Some b) -> has a = true -> has b = true.
Proof. destruct a; [|done]. intros H _. by destruct (H (ex_intro _ _ eq_refl)) as [x ->]. Qed.

Section Invariant.
Context {Task Proof P : Type} `{AcrDecider P}.
Variable hex_decode : string -> option (list Z).
Variable hex_encode : list Z -> string.
Variable proof_ok : Proof -> string -> Z -> result () DomainError.
Variable sha256_hex : string -> string.
Variable from_str : string -> option value.
Variable json_string : value -> string.
Variable state_to_json : StoredState -> value.
Variable state_of_json : value -> option StoredState.
(** What serde writes it reads back, and an object without a stage it refuses. *)
Hypothesis state_round_trip : forall st, state_of_json (state_to_json st) = Some st.
Hypothesis state_empty : state_of_json (VObject []) = None.

Abbreviation stored := (from_stored state_of_json).
Abbreviation step := (sys_step (Task := Task) (P := P) hex_decode hex_encode proof_ok sha256_hex
  from_str json_string state_to_json state_of_json).
Abbreviation Given := (World Task * Arrival * InteractionRecord)%type.
Implicit Types (db : Tables Proof) (s : Sys (Task := Task) (Proof := Proof)) (t : Thread (Task := Task))
  (from : option Given) (i d : list Z).

(** On whose word an answer is sent. From the screen, the form this handler was sent, with
    the token its row holds: at the consent stage the button and the boxes ticked of those
    offered, at a step-up its cancellation. From memory, what the standing grants of the
    subject of the session, the one of the row as it was read or the one just made, cover
    under the policy this handler was told. *)
Definition form_words (w : World Task) (form : list (string * string)) (record : InteractionRecord)
    (answer : Answer) : Prop :=
  let st := stored (ir_state record) in
  check_csrf sha256_hex st (form_field form "csrf") = Ok () /\
  match answer with
  | Denied =>
      stage st = StConsent /\ form_field form "decision" = Some "deny"%string \/
      stage st = StStepUp /\ form_field form "decision" = Some "cancel"%string
  | Approved granted =>
      stage st = StConsent /\ form_field form "decision" = Some "allow"%string /\
      (forall scope, scope ∈ granted <-> In ("scope"%string, scope) form) /\
      granted ⊆ offered record /\ (REQUIRED_SCOPE ∈ offered record -> REQUIRED_SCOPE ∈ granted)
  end.

Definition memory_words (w : World Task) (record : InteractionRecord) (answer : Answer) : Prop :=
  exists granted rq digest subject grants,
    answer = Approved granted /\ ir_continuation record = Client rq /\
    (ir_session record = Some digest \/ exists satisfied, w_establish w = EstablishedSession digest satisfied) /\
    w_subject w digest = Some subject /\ w_grants w subject = Some grants /\
    remembered_approval from_str json_string grants (cq_client rq) subject (cq_parameters rq)
      (w_policy w) (w_now w) = Some granted.

Definition sound (c : Continuation) from (answer : Answer) (source : ConsentSource) : Prop :=
  exists w a record, from = Some (w, a, record) /\ ir_continuation record = c /\
    match source with
    | Screen => exists form, a = Submit form /\ form_words w form record answer
    | Memory => memory_words w record answer
    end.

Abbreviation writes_ok c from := (saves_ok (sound c from) c).

Lemma memory_sound (w : World Task) a record :
  memory_may from_str json_string (sound (ir_continuation record) (Some (w, a, record))) w record.
Proof.
  intros st record' granted Hab Hs. unfold remembered_scopes in Hs. destruct (negb _); [done|].
  assert (Hc : ir_continuation record' = ir_continuation record)
    by (destruct Hab as [->|(digest & sat & _ & ->)]; done).
  rewrite Hc in Hs. destruct (ir_continuation record) as [rq|d] eqn:Hrq; [|done]. cbn in Hs.
  destruct (ir_session record') as [digest|] eqn:Hd; [|done]. cbn in Hs.
  destruct (w_subject w digest) as [subject|] eqn:Hsub; [|done]. cbn in Hs.
  destruct (w_grants w subject) as [grants|] eqn:Hg; [|done]. cbn in Hs.
  exists w, a, record. split; [done|]. split; [done|]. exists granted, rq, digest, subject, grants.
  split_and!; try done. destruct Hab as [->|(digest' & sat & He & ->)]; [by left|right].
  injection Hd as ->. by eexists.
Qed.

Lemma ticked_In form scope : scope ∈ ticked form <-> In ("scope"%string, scope) form.
Proof.
  unfold ticked. rewrite elem_of_list_to_set, list_elem_of_omap. split.
  - intros ([name v] & Hin & Hv). cbn in Hv. destruct (String.eqb_spec name "scope"); [|done].
    injection Hv as <-. subst. by apply list_elem_of_In.
  - intros Hin. exists ("scope"%string, scope). split; [by apply list_elem_of_In|done].
Qed.

Lemma form_sound (w : World Task) form record :
  check_csrf sha256_hex (stored (ir_state record)) (form_field form "csrf") = Ok () ->
  stage (stored (ir_state record)) = StConsent ->
  form_may (sound (ir_continuation record) (Some (w, Submit form, record))) form record.
Proof.
  intros Hcsrf Hst answer (v & Hv & Hcase). exists w, (Submit form), record. split; [done|]. split; [done|].
  exists form. split; [done|]. split; [done|].
  destruct Hcase as [[-> Hd]|[-> ->]]; [|by left].
  unfold consent_decide in Hd. cbn [negb] in Hd.
  destruct (bool_decide (_ ⊆ _)) eqn:Hsub; cbn [negb] in Hd; [|done].
  destruct (_ && _) eqn:Hreq; [done|]. injection Hd as <-. apply bool_decide_eq_true in Hsub.
  split_and!; [done|done|apply ticked_In|done|]. intros Hin.
  rewrite bool_decide_true in Hreq by done. cbn [andb] in Hreq.
  by apply negb_false_iff, bool_decide_eq_true in Hreq.
Qed.

Definition q_continuation (r : AuthRequest) : Continuation := ir_continuation (record_of r).

Definition q_row_ok (r : AuthRequest) : Prop :=
  row_ok (q_continuation r) (stored (q_state r)) (has (q_session r)).
Definition f_row_ok (h : FirstPartyRow) : Prop :=
  forall destination, row_ok (FirstParty destination) (stored (f_state h)) (has (f_session h)).

Definition rows_ok (drawn : gset (list Z)) db : Prop :=
  (forall d r i, requests db !! d = Some r -> q_interaction r = Some i ->
     i ∈ drawn /\ first_parties db !! i = None /\ q_row_ok r) /\
  (forall i h, first_parties db !! i = Some h -> i ∈ drawn /\ f_row_ok h).

(** The handler of a thread goes on about the row it was resumed with, which has a session
    if it had one then; what it may still write suits that. *)
Definition thread_ok (drawn : gset (list Z)) db t : Prop :=
  exists i had, hex_decode (sha256_hex (t_id t)) = Some i /\ i ∈ drawn /\
    writes_ok (t_for t) (t_from t) had (t_run t) /\
    (forall d r, requests db !! d = Some r -> q_interaction r = Some i ->
       t_for t = q_continuation r /\ (had = true -> has (q_session r) = true)) /\
    (forall h, first_parties db !! i = Some h ->
       (exists destination, t_for t = FirstParty destination) /\ (had = true -> has (f_session h) = true)).

(** The request was of a client and open, its person signed in where it was approved, and
    the answer rests on the form or on what stands. *)
Definition answer_ok (a : Answered) : Prop :=
  q_consumed_at (a_row a) = None /\
  sound (q_continuation (a_row a)) (a_from a) (a_answer a) (a_source a) /\
  match a_answer a with Approved _ => is_Some (q_session (a_row a)) | Denied => True end.

Definition sys_inv s : Prop :=
  unique_interactions (tables s) /\ rows_ok (drawn s) (tables s) /\
  Forall (thread_ok (drawn s) (tables s)) (threads s) /\ Forall answer_ok (answered s).

(** *** Steps that leave progress alone *)

Definition q_keeps (r r' : AuthRequest) : Prop := q_goes r r' /\ q_state r' = q_state r /\ q_session r' = q_session r.
Definition f_keeps (h h' : FirstPartyRow) : Prop := f_goes h h' /\ f_state h' = f_state h /\ f_session h' = f_session h.

Lemma q_keeps_refl r : q_keeps r r.
Proof. done. Qed.
Lemma f_keeps_refl h : f_keeps h h.
Proof. done. Qed.
Lemma q_goes_refl r : q_goes r r.
Proof. done. Qed.
Lemma f_goes_refl h : f_goes h h.
Proof. done. Qed.

Lemma q_keeps_ok r r' : q_keeps r r' -> q_row_ok r -> q_row_ok r'.
Proof.
  intros ((_ & Hc & Hp & _) & Hst & Hse). unfold q_row_ok, q_continuation, record_of, Continuation.for_client.
  cbn. by rewrite Hc, Hp, Hst, Hse.
Qed.
Lemma f_keeps_ok h h' : f_keeps h h' -> f_row_ok h -> f_row_ok h'.
Proof. intros (_ & Hst & Hse) Hh dest. rewrite Hst, Hse. apply Hh. Qed.

Lemma follows_rows_ok drawn db db' :
  follows q_keeps f_keeps db db' -> rows_ok drawn db -> rows_ok drawn db'.
Proof.
  intros [Hq Hf] [Hr Hh]. split.
  - intros d r' i Hd Hi. destruct (Hq d r' Hd) as [?|(r & Hd0 & Hk)]; [congruence|].
    assert (E : q_interaction r' = q_interaction r) by apply Hk. destruct (Hr d r i Hd0) as (? & Hn & Hok); [congruence|].
    split; [done|]. split; [|by eapply q_keeps_ok].
    destruct (first_parties db' !! i) as [h'|] eqn:E'; [|done].
    destruct (Hf i h' E') as (h & ? & _). congruence.
  - intros i h' Hi. destruct (Hf i h' Hi) as (h & Hh0 & Hk). destruct (Hh i h Hh0) as [? ?].
    split; [done|]. by eapply f_keeps_ok.
Qed.

Lemma follows_thread_ok drawn drawn' db db' t :
  drawn ⊆ drawn' ->
  (forall i, i ∈ drawn -> (forall d r', requests db' !! d = Some r' -> q_interaction r' = Some i ->
                 exists r, requests db !! d = Some r /\ q_goes r r') /\
             (forall h', first_parties db' !! i = Some h' ->
                 exists h, first_parties db !! i = Some h /\ f_goes h h')) ->
  thread_ok drawn db t -> thread_ok drawn' db' t.
Proof.
  intros Hsub Hfrom (i & had & Hi & Hin & Hw & Hq & Hf). exists i, had.
  destruct (Hfrom i Hin) as [Hq' Hf']. split_and!; [done|by apply Hsub|done|..].
  - intros d r' Hd Hri. destruct (Hq' d r' Hd Hri) as (r & Hd0 & (E & Hc & Hp & Hs)).
    destruct (Hq d r Hd0) as [Ht Hh]; [congruence|]. split.
    + rewrite Ht. unfold q_continuation, record_of, Continuation.for_client. cbn. by rewrite Hc, Hp.
    + intros Htrue. eapply has_mono; [exact Hs|auto].
  - intros h' Hh'. destruct (Hf' h' Hh') as (h & Hh0 & [_ Hs]). destruct (Hf h Hh0) as [? Hhas].
    split; [done|]. intros Htrue. eapply has_mono; [exact Hs|auto].
Qed.

Lemma follows_from db db' (R : AuthRequest -> AuthRequest -> Prop) (F : FirstPartyRow -> FirstPartyRow -> Prop) :
  (forall r r', R r r' -> q_goes r r') -> (forall h h', F h h' -> f_goes h h') ->
  follows R F db db' ->
  forall i, (forall d r', requests db' !! d = Some r' -> q_interaction r' = Some i ->
                 exists r, requests db !! d = Some r /\ q_goes r r') /\
            (forall h', first_parties db' !! i = Some h' ->
                 exists h, first_parties db !! i = Some h /\ f_goes h h').
Proof.
  intros HR HF [Hq Hf] i. split.
  - intros d r' Hd Hi. destruct (Hq d r' Hd) as [?|(r & Hd0 & Hr)]; [congruence|]. eauto.
  - intros h' Hh. destruct (Hf i h' Hh) as (h & ? & ?). eauto.
Qed.

Lemma follows_keeps_inv s db :
  follows q_keeps f_keeps (tables s) db -> unique_interactions db ->
  rows_ok (drawn s) (tables s) -> Forall (thread_ok (drawn s) (tables s)) (threads s) ->
  rows_ok (drawn s) db /\ Forall (thread_ok (drawn s) db) (threads s).
Proof.
  intros Hfol Hu Hr Ht. split; [by eapply follows_rows_ok|].
  eapply Forall_impl; [exact Ht|]. intros t. apply follows_thread_ok; [done|]. intros i _.
  eapply (follows_from _ _ q_keeps f_keeps); [by intros ? ? []|by intros ? ? []|done].
Qed.

(** *** New interactions *)

Lemma fresh_rows drawn db i :
  i ∉ drawn -> rows_ok drawn db ->
  (forall d r, requests db !! d = Some r -> q_interaction r <> Some i) /\ first_parties db !! i = None.
Proof.
  intros Hi [Hq Hf]. split.
  - intros d r Hd Hri. by destruct (Hq d r i Hd Hri).
  - destruct (first_parties db !! i) as [h|] eqn:E; [|done]. by destruct (Hf i h E).
Qed.

Lemma first_party_step_inv s id i destination expires_at now db :
  hex_decode (sha256_hex id) = Some i -> i ∉ drawn s ->
  begin_first_party_interaction hex_decode (tables s) (sha256_hex id) destination expires_at now = Ok db ->
  sys_inv s ->
  sys_inv {| tables := db; threads := threads s; drawn := drawn s ∪ {[ i ]}; answered := answered s |}.
Proof.
  intros Hi Hfresh Hb (Hu & Hrows & Ht & Ha).
  destruct (fresh_rows _ _ _ Hfresh Hrows) as [Hnq Hnf].
  unfold begin_first_party_interaction, digest_bytes in Hb. rewrite Hi in Hb. cbn [ok_or rbind] in Hb.
  destruct (bool_decide _); [|done]. injection Hb as <-. destruct Hrows as [Hq Hf].
  unfold sys_inv; cbn [tables threads drawn answered]. split_and!; [exact Hu| | |done].
  - split; cbn [with_first_parties requests first_parties].
    + intros d r j Hd Hj. destruct (Hq d r j Hd Hj) as (Hin & Hn & Hok).
      rewrite lookup_insert_ne by (intros ->; by apply (Hnq d r)). set_solver.
    + intros j h. rewrite lookup_insert. case_decide as Hji.
      * subst j. intros [= <-]. split; [set_solver|]. intros dest. unfold from_stored. cbn.
        rewrite state_empty. apply row_ok_default.
      * intros Hj. destruct (Hf j h Hj). split; [set_solver|done].
  - eapply Forall_impl; [exact Ht|]. intros t. apply follows_thread_ok; [set_solver|].
    cbn [with_first_parties requests first_parties]. intros j Hj. split; [eauto using q_goes_refl|].
    intros h. rewrite lookup_insert_ne by (intros ->; done). eauto using f_goes_refl.
Qed.

(** A decision that goes past the sign-in was made about a session. *)
Lemma decide_has_session (r : Requirements) (state : SessionState) policy (acr : P) now :
  match NextStep.decide r state policy acr now with
  | ToStepUp | Silent | ToConsent => session_of state <> None
  | _ => True
  end.
Proof.
  unfold NextStep.decide. destruct (negb (can_satisfy acr _)); [done|].
  destruct (asks r PromptCreate); [done|]. destruct (is_silent r).
  - unfold silent_refusal, facts_of. cbn. destruct (session_of state) eqn:E; [|done].
    cbn. destruct (wrong_subject r state); [by destruct (account_chooser policy)|].
    destruct (must_reauthenticate r state now); [done|]. destruct (acr_met acr r state); [|done].
    by destruct (consent_of state).
  - unfold no_session. destruct (session_of state) eqn:E; cbn [orb].
    + destruct (_ || _); [by destruct (_ && _)|]. destruct (negb _); [done|]. by destruct (_ || _).
    + by destruct (_ && _).
Qed.

Lemma begin_at_ok c (r : Requirements) (state : SessionState) policy (acr : P) now name binding session rq :
  c = Client rq ->
  (forall who, session_of state = Some who -> session = Some (s_id_digest who)) ->
  match NextStep.decide r state policy acr now with Refuse _ => False | _ => True end ->
  writes_ok c None false (begin_at (NextStep.decide r state policy acr now) name binding session).
Proof.
  intros -> Hs Hr. pose proof (decide_has_session r state policy acr now) as Hd.
  unfold begin_at. cbn [saves_ok]. split; [|done].
  assert (Hse : session_of state <> None -> match session with Some _ => true | None => false end = true).
  { intros Hne. destruct (session_of state) as [who|]; [|done]. by rewrite (Hs who eq_refl). }
  unfold beginning. destruct (NextStep.decide r state policy acr now); split; cbn; try done; by apply Hse.
Qed.

Lemma authorize_step_inv s digest id i now db row (r : Requirements) (state : SessionState)
    policy (acr : P) name binding session :
  hex_decode (sha256_hex id) = Some i -> i ∉ drawn s ->
  (forall who, session_of state = Some who -> session = Some (s_id_digest who)) ->
  begin_interaction hex_decode (tables s) digest (sha256_hex id) now = Ok db ->
  select_row (q_of i now) (requests db) = Some row ->
  match NextStep.decide r state policy acr now with Refuse _ => False | _ => True end ->
  unique_interactions db -> sys_inv s ->
  sys_inv {| tables := db;
             threads := {| t_id := id; t_for := ir_continuation (record_of (snd row)); t_from := None;
                           t_run := begin_at (NextStep.decide r state policy acr now) name binding session |}
                        :: threads s;
             drawn := drawn s ∪ {[ i ]}; answered := answered s |}.
Proof.
  intros Hi Hfresh Hse Hb Hsel Hstep Hu' (Hu & Hrows & Ht & Ha).
  destruct (fresh_rows _ _ _ Hfresh Hrows) as [Hnq Hnf].
  apply begin_facts in Hb as (d & i' & q & _ & Hi' & Hd & _ & _ & Hm & Hfp).
  assert (i' = i) as -> by congruence. clear Hi'. destruct Hrows as [Hq Hf].
  destruct row as [d' q']. apply select_row_Some in Hsel as [Hd' Hq'].
  apply q_of_facts in Hq' as (Hq' & _). cbn [snd].
  unfold sys_inv; cbn [tables threads drawn answered]. split_and!; [exact Hu'| |constructor|done].
  - split.
    + intros e r' j. rewrite Hm, Hfp, lookup_insert. case_decide as Hde.
      * intros [= <-] [= <-]. split; [set_solver|]. split; [done|]. unfold q_row_ok, from_stored. cbn.
        rewrite state_empty. apply row_ok_default.
      * intros He Hj. destruct (Hq e r' j He Hj) as (? & ? & ?). split; [set_solver|done].
    + intros j h. rewrite Hfp. intros Hj. destruct (Hf j h Hj). split; [set_solver|done].
  - exists i, false. cbn [t_id t_for t_from t_run]. split_and!; [done|set_solver| | |].
    + by eapply begin_at_ok.
    + intros e r' He Hri. split; [|done]. assert (e = d') as -> by (by eapply (Hu' e d')).
      by assert (r' = q') as -> by congruence.
    + intros h. by rewrite Hfp, Hnf.
  - eapply Forall_impl; [exact Ht|]. intros t. apply follows_thread_ok; [set_solver|].
    rewrite Hm, Hfp. intros j Hj. split; [|eauto using f_goes_refl].
    intros e r'. rewrite lookup_insert. case_decide; [intros [= <-] [= <-]; done|]. eauto using q_goes_refl.
Qed.

(** *** A handler begins *)

Lemma handle_ok (w : World Task) (a : Arrival) (record : InteractionRecord) had :
  row_ok (ir_continuation record) (stored (ir_state record)) had ->
  writes_ok (ir_continuation record) (Some (w, a, record)) had
    (handle sha256_hex from_str json_string state_of_json w a record).
Proof.
  intros Hr. pose proof (memory_sound w a record) as Hm. unfold handle.
  destruct a as [asks|form| |csrf]; [by apply show_ok| |by apply external_ok|by apply passkey_ok].
  apply submit_ok; [done| |done]. intros Hcsrf. split; [by apply form_sound|]. intros Hst Hcancel.
  exists w, (Submit form), record. split; [done|]. split; [done|]. exists form. split; [done|].
  split; [done|by right].
Qed.

Lemma arrive_step_inv s id record now (w : World Task) a :
  by_interaction hex_decode (tables s) (sha256_hex id) now = Ok (Some record) ->
  sys_inv s ->
  sys_inv {| tables := tables s;
             threads := {| t_id := id; t_for := ir_continuation record; t_from := Some (w, a, record);
                           t_run := handle sha256_hex from_str json_string state_of_json w a record |}
                        :: threads s;
             drawn := drawn s; answered := answered s |}.
Proof.
  intros Hb (Hu & Hrows & Ht & Ha). unfold sys_inv; cbn [tables threads drawn answered].
  split_and!; [done|done| |done]. constructor; [|done].
  apply by_interaction_Some in Hb as (i & Hi & Hrec). destruct Hrows as [Hq Hf].
  exists i, (has (ir_session record)). cbn [t_id t_for t_from t_run].
  destruct Hrec as [(d & r & Hd & Hri & ->)|(h & dest & Hh & Hp & ->)].
  - destruct (Hq d r i Hd Hri) as (Hin & Hn & Hok). split_and!; [done|done|by apply handle_ok|..].
    + intros e r' He Hri'. assert (e = d) as -> by (by eapply (Hu e d)).
      by assert (r' = r) as -> by congruence.
    + intros h. by rewrite Hn.
  - destruct (Hf i h Hh) as [Hin Hok]. split_and!; [done|done|apply handle_ok, Hok|..].
    + intros e r' He Hri'. destruct (Hq e r' i He Hri') as (_ & ? & _). congruence.
    + intros h' Hh'. assert (h' = h) as -> by congruence. eauto.
Qed.

(** *** A handler's statement *)

Lemma save_rows db digest i st se now db' r :
  hex_decode digest = Some i ->
  save_interaction_state hex_decode db digest (state_to_json st) se now = (db', r) ->
  (forall d q', requests db' !! d = Some q' -> exists q, requests db !! d = Some q /\
     (q' = q \/ (q_interaction q = Some i /\ q' = q_saved (state_to_json st) se q))) /\
  (forall j h', first_parties db' !! j = Some h' -> exists h, first_parties db !! j = Some h /\
     (h' = h \/ (j = i /\ h' = f_saved (state_to_json st) se h))).
Proof.
  unfold save_interaction_state, update_either, digest_bytes. intros ->. cbn [ok_or].
  assert (Hq : forall d q', fst (update_rows (q_of i now) (q_saved (state_to_json st) se) (requests db)) !! d = Some q' ->
    exists q, requests db !! d = Some q /\
     (q' = q \/ (q_interaction q = Some i /\ q' = q_saved (state_to_json st) se q))).
  { intros d q'. rewrite update_rows_lookup. destruct (requests db !! d) as [q|]; [|done].
    cbn. intros [= <-]. exists q. split; [done|]. destruct (q_of i now q) eqn:E; [|by left].
    right. by apply q_of_facts in E as (? & _). }
  destruct (update_rows _ _ _) as [m n]. cbn [fst] in Hq.
  destruct (n =? 1)%nat; [intros [= <- <-]; cbn; eauto|]. cbn [with_requests first_parties].
  destruct (first_parties db !! i) as [h|] eqn:Hh; [|intros [= <- <-]; cbn; eauto].
  destruct (f_open now h); intros [= <- <-]; cbn; [|eauto]. split; [done|].
  intros j h'. rewrite lookup_insert. case_decide; [subst; intros [= <-]; eauto|eauto].
Qed.

(** A save that went through reached the one row of its interaction. *)
Lemma save_Ok db digest i st se now db' :
  hex_decode digest = Some i -> unique_interactions db ->
  (forall d r, requests db !! d = Some r -> q_interaction r = Some i -> first_parties db !! i = None) ->
  save_interaction_state hex_decode db digest (state_to_json st) se now = (db', Ok ()) ->
  (forall d q', requests db' !! d = Some q' -> q_interaction q' = Some i ->
     exists q, requests db !! d = Some q /\ q' = q_saved (state_to_json st) se q) /\
  (forall h', first_parties db' !! i = Some h' ->
     exists h, first_parties db !! i = Some h /\ h' = f_saved (state_to_json st) se h).
Proof.
  unfold save_interaction_state, update_either, digest_bytes. intros -> Hu Hx. cbn [ok_or].
  destruct (update_rows _ _ _) as [m n] eqn:Hm. destruct (Nat.eqb_spec n 1) as [->|Hn].
  - intros [= <-]. apply update_rows_one in Hm as (d & q & _ & Hd & Hq & ->).
    apply q_of_facts in Hq as (Hi & _). cbn [with_requests requests first_parties]. split.
    + intros e q'. rewrite lookup_insert. case_decide as Hde; [subst; intros [= <-]; eauto|].
      intros He Hi'. destruct Hde. by eapply (Hu d e).
    + intros h'. by rewrite (Hx d q Hd Hi).
  - cbn [with_requests first_parties]. destruct (first_parties db !! i) as [h|] eqn:Hh; [|done].
    destruct (f_open now h); [|done]. intros [= <-]. cbn [with_first_parties with_requests requests first_parties].
    split; [|intros h'; rewrite lookup_insert_eq; intros [= <-]; eauto].
    intros d q' Hd Hi. exfalso. assert (Hd' : fst (update_rows (q_of i now) (q_saved (state_to_json st) se) (requests db)) !! d = Some q') by (by rewrite Hm).
    rewrite update_rows_lookup in Hd'. destruct (requests db !! d) as [q|] eqn:E; [|done].
    cbn in Hd'. injection Hd' as <-. assert (q_interaction q = Some i) by (by destruct (q_of i now q)).
    pose proof (Hx d q E ltac:(assumption)) as Hno. congruence.
Qed.

Lemma has_saved se old : has (match se with Some _ => se | None => old end) = true <->
  match se with Some _ => true | None => has old end = true.
Proof. by destruct se. Qed.

(** What a save leaves: rows that suit what was written, and every handler's facts. *)
Lemma save_step db drawn id i st se now db' r c had :
  hex_decode (sha256_hex id) = Some i ->
  save_interaction_state hex_decode db (sha256_hex id) (state_to_json st) se now = (db', r) ->
  row_ok c st (match se with Some _ => true | None => had end) ->
  (forall d q, requests db !! d = Some q -> q_interaction q = Some i ->
     c = q_continuation q /\ (had = true -> has (q_session q) = true)) ->
  (forall h, first_parties db !! i = Some h ->
     (exists destination, c = FirstParty destination) /\ (had = true -> has (f_session h) = true)) ->
  rows_ok drawn db -> rows_ok drawn db' /\ follows q_goes f_goes db db'.
Proof.
  intros Hi Hsave Hok Hq Hf [Hrq Hrf].
  destruct (save_rows _ _ _ _ _ _ _ _ Hi Hsave) as [Hq' Hf']. split; [split|split].
  - intros d q' j Hd Hj. destruct (Hq' d q' Hd) as (q & Hd0 & Hcase).
    assert (Hint : q_interaction q = Some j) by (destruct Hcase as [->|[_ ->]]; done).
    destruct (Hrq d q j Hd0 Hint) as (? & Hn & Hqok). split; [done|]. split.
    + destruct (first_parties db' !! j) as [h'|] eqn:E; [|done].
      destruct (Hf' j h' E) as (h & ? & _). congruence.
    + destruct Hcase as [->|[Hi' ->]]; [done|]. destruct (Hq d q Hd0 Hi') as [-> Hhas].
      unfold q_row_ok, from_stored. cbn [q_saved q_state q_session]. rewrite state_round_trip.
      eapply row_ok_mono; [|exact Hok]. rewrite has_saved. destruct se; auto.
  - intros j h' Hj. destruct (Hf' j h' Hj) as (h & Hh & Hcase). destruct (Hrf j h Hh) as [? Hhok].
    split; [done|]. destruct Hcase as [->|[-> ->]]; [done|]. destruct (Hf h Hh) as [[dest ->] Hhas].
    intros dest'. unfold from_stored. cbn [f_saved f_state f_session]. rewrite state_round_trip.
    eapply (row_ok_mono (FirstParty dest)); [|exact Hok]. rewrite has_saved. destruct se; auto.
  - intros d q' Hd. destruct (Hq' d q' Hd) as (q & Hd0 & Hcase). right. exists q. split; [done|].
    destruct Hcase as [->|[_ ->]]; [done|]. split_and!; try done. cbn. destruct se; [eauto|done].
  - intros j h' Hj. destruct (Hf' j h' Hj) as (h & Hh & Hcase). exists h. split; [done|].
    destruct Hcase as [->|[_ ->]]; [done|]. split; [done|]. cbn. destruct se; [eauto|done].
Qed.

(** The other handlers keep their facts, the one that ran gets what it wrote. *)
Lemma threads_after drawn db db' before after id c from run run' had' i :
  follows q_goes f_goes db db' ->
  Forall (thread_ok drawn db) (before ++ {| t_id := id; t_for := c; t_from := from; t_run := run |} :: after) ->
  hex_decode (sha256_hex id) = Some i -> i ∈ drawn -> writes_ok c from had' run' ->
  (forall d q, requests db' !! d = Some q -> q_interaction q = Some i ->
     c = q_continuation q /\ (had' = true -> has (q_session q) = true)) ->
  (forall h, first_parties db' !! i = Some h ->
     (exists destination, c = FirstParty destination) /\ (had' = true -> has (f_session h) = true)) ->
  Forall (thread_ok drawn db') (before ++ {| t_id := id; t_for := c; t_from := from; t_run := run' |} :: after).
Proof.
  intros Hfol Ht Hi Hin Hw Hq Hf.
  assert (Hmono : forall t, thread_ok drawn db t -> thread_ok drawn db' t).
  { intros t. apply follows_thread_ok; [done|]. intros j _.
    by eapply (follows_from _ _ q_goes f_goes). }
  apply Forall_app in Ht as [Hb [_ Ha]%Forall_cons].
  apply Forall_app. split; [by eapply Forall_impl|]. constructor; [|by eapply Forall_impl].
  exists i, had'. done.
Qed.

Lemma follows_goes db db' : follows q_keeps f_keeps db db' -> follows q_goes f_goes db db'.
Proof.
  intros [Hq Hf]. split.
  - intros d r' Hd. destruct (Hq d r' Hd) as [?|(r & ? & [? _])]; eauto.
  - intros i h' Hh. destruct (Hf i h' Hh) as (h & ? & [? _]). eauto.
Qed.

(** A completion changes nobody's progress. *)
Lemma complete_follows db digest now : follows q_keeps f_keeps db (fst (complete_interaction hex_decode db digest now)).
Proof. apply follows_either; done. Qed.

(** The facts of a thread, after a step that keeps progress. *)
Lemma facts_kept db db' i c had :
  follows q_keeps f_keeps db db' ->
  (forall d q, requests db !! d = Some q -> q_interaction q = Some i ->
     c = q_continuation q /\ (had = true -> has (q_session q) = true)) ->
  (forall h, first_parties db !! i = Some h ->
     (exists destination, c = FirstParty destination) /\ (had = true -> has (f_session h) = true)) ->
  (forall d q, requests db' !! d = Some q -> q_interaction q = Some i ->
     c = q_continuation q /\ (had = true -> has (q_session q) = true)) /\
  (forall h, first_parties db' !! i = Some h ->
     (exists destination, c = FirstParty destination) /\ (had = true -> has (f_session h) = true)).
Proof.
  intros [Hq' Hf'] Hq Hf. split.
  - intros d q' Hd Hi. destruct (Hq' d q' Hd) as [?|(q & Hd0 & ((E & Hc & Hp & _) & _ & Hse))]; [congruence|].
    destruct (Hq d q Hd0) as [-> Hhas]; [congruence|]. rewrite Hse. split; [|done].
    unfold q_continuation, record_of, Continuation.for_client. cbn. by rewrite Hc, Hp.
  - intros h' Hh. destruct (Hf' i h' Hh) as (h & Hh0 & (_ & _ & Hse)). rewrite Hse. eauto.
Qed.

Lemma perform_unique db id w now db' b :
  perform hex_decode proof_ok sha256_hex state_to_json db id w now = (db', b) ->
  unique_interactions db -> unique_interactions db'.
Proof.
  intros Hp Hu. destruct w as [st se| |answer source]; cbn in Hp.
  - pose proof (exec_unique hex_decode hex_encode proof_ok db
      (Save (sha256_hex id) (state_to_json st) se now) Hu) as He. cbn in He.
    destruct (save_interaction_state _ _ _ _ _ _). by injection Hp as <- <-.
  - pose proof (exec_unique hex_decode hex_encode proof_ok db (Complete (sha256_hex id) now) Hu) as He.
    cbn in He. destruct (complete_interaction _ _ _ _). by injection Hp as <- <-.
  - pose proof (exec_unique hex_decode hex_encode proof_ok db (CompleteWithDevice (sha256_hex id) now) Hu) as He.
    cbn in He. destruct (complete_interaction_with_device _ _ _ _ _). by injection Hp as <- <-.
Qed.

(** A statement that completes keeps everybody's facts. *)
Lemma completing_step s before after id c from w ok failed now db' b i had :
  follows q_keeps f_keeps (tables s) db' ->
  match w with WSave _ _ => False | _ => True end ->
  sys_inv s -> unique_interactions db' ->
  threads s = before ++ {| t_id := id; t_for := c; t_from := from; t_run := Do w ok failed |} :: after ->
  hex_decode (sha256_hex id) = Some i -> i ∈ drawn s ->
  writes_ok c from had (Do w ok failed) ->
  (forall d q, requests (tables s) !! d = Some q -> q_interaction q = Some i ->
     c = q_continuation q /\ (had = true -> has (q_session q) = true)) ->
  (forall h, first_parties (tables s) !! i = Some h ->
     (exists destination, c = FirstParty destination) /\ (had = true -> has (f_session h) = true)) ->
  Forall answer_ok (noted hex_decode sha256_hex (tables s) id from w now b) ->
  sys_inv {| tables := db';
             threads := before ++ {| t_id := id; t_for := c; t_from := from; t_run := if b then ok else failed |} :: after;
             drawn := drawn s; answered := noted hex_decode sha256_hex (tables s) id from w now b ++ answered s |}.
Proof.
  intros Hfol Hw (Hu & Hrows & Ht & Ha) Hu' Hth Hi Hin Hok Hq Hf Hnote.
  destruct (facts_kept _ _ _ _ _ Hfol Hq Hf) as [Hq' Hf'].
  unfold sys_inv; cbn [tables threads drawn answered]. split_and!; [done|by eapply follows_rows_ok| |].
  - rewrite Hth in Ht. eapply threads_after; try done; [by apply follows_goes|].
    destruct w; [done|..]; destruct Hok as (_ & Hok1 & Hok2); by destruct b.
  - apply Forall_app. done.
Qed.

Lemma noted_ok db id i c from had answer source ok failed now b :
  hex_decode (sha256_hex id) = Some i ->
  writes_ok c from had (Do (WAnswer answer source) ok failed) ->
  (forall d q, requests db !! d = Some q -> q_interaction q = Some i ->
     c = q_continuation q /\ (had = true -> has (q_session q) = true)) ->
  Forall answer_ok (noted hex_decode sha256_hex db id from (WAnswer answer source) now b).
Proof.
  intros Hi [(_ & Hhad & Hg) _] Hq. cbn [noted]. destruct b; [|constructor]. rewrite Hi.
  destruct (select_row _ _) as [[d r]|] eqn:Hsel; [|constructor].
  apply select_row_Some in Hsel as [Hd Hqo]. apply q_of_facts in Hqo as (Hri & Hcons & _).
  destruct (Hq d r Hd Hri) as [Hc Hhas].
  constructor; [|constructor]. unfold answer_ok. cbn [a_row a_answer a_source a_from].
  split; [done|]. rewrite <- Hc. split; [done|]. destruct answer; [|done].
  specialize (Hhas Hhad). destruct (q_session r); [eauto|discriminate Hhas].
Qed.

Lemma saving_step s before after id c from st se ok failed now db' r i had :
  save_interaction_state hex_decode (tables s) (sha256_hex id) (state_to_json st) se now = (db', r) ->
  sys_inv s -> unique_interactions db' ->
  threads s = before ++ {| t_id := id; t_for := c; t_from := from; t_run := Do (WSave st se) ok failed |} :: after ->
  hex_decode (sha256_hex id) = Some i -> i ∈ drawn s ->
  writes_ok c from had (Do (WSave st se) ok failed) ->
  (forall d q, requests (tables s) !! d = Some q -> q_interaction q = Some i ->
     c = q_continuation q /\ (had = true -> has (q_session q) = true)) ->
  (forall h, first_parties (tables s) !! i = Some h ->
     (exists destination, c = FirstParty destination) /\ (had = true -> has (f_session h) = true)) ->
  sys_inv {| tables := db';
             threads := before ++ {| t_id := id; t_for := c; t_from := from; t_run := if is_ok r then ok else failed |} :: after;
             drawn := drawn s; answered := answered s |}.
Proof.
  intros Hsave (Hu & Hrows & Ht & Ha) Hu' Hth Hi Hin (Hok & Hok1 & Hok2) Hq Hf.
  destruct (save_step _ _ _ _ _ _ _ _ _ _ _ Hi Hsave Hok Hq Hf Hrows) as [Hrows' Hfol].
  unfold sys_inv; cbn [tables threads drawn answered]. split_and!; [done|done| |done].
  rewrite Hth in Ht. destruct r as [[]|e]; cbn [is_ok].
  - assert (Hx : forall d r, requests (tables s) !! d = Some r -> q_interaction r = Some i ->
      first_parties (tables s) !! i = None) by (intros d r Hd Hri; by apply (proj1 Hrows d r i)).
    destruct (save_Ok _ _ _ _ _ _ _ Hi Hu Hx Hsave) as [Hq' Hf'].
    eapply (threads_after _ _ _ _ _ _ _ _ _ _ (match se with Some _ => true | None => had end)); try done.
    + intros d q' Hd Hri. destruct (Hq' d q' Hd Hri) as (q & Hd0 & ->).
      destruct (Hq d q Hd0 Hri) as [-> Hhas]. split; [done|]. cbn. rewrite has_saved. destruct se; auto.
    + intros h' Hh. destruct (Hf' h' Hh) as (h & Hh0 & ->). destruct (Hf h Hh0) as [? Hhas].
      split; [done|]. cbn. rewrite has_saved. destruct se; auto.
  - eapply (threads_after _ _ _ _ _ _ _ _ _ _ had); try done.
    + intros d q' Hd Hri. destruct Hfol as [Hfq _]. destruct (Hfq d q' Hd) as [?|(q & Hd0 & E & Hc & Hp & Hs)]; [congruence|].
      destruct (Hq d q Hd0) as [-> Hhas]; [congruence|]. split.
      * unfold q_continuation, record_of, Continuation.for_client. cbn. by rewrite Hc, Hp.
      * intros Htrue. eapply has_mono; [exact Hs|auto].
    + intros h' Hh. destruct Hfol as [_ Hff]. destruct (Hff i h' Hh) as (h & Hh0 & _ & Hs).
      destruct (Hf h Hh0) as [? Hhas]. split; [done|]. intros Htrue. eapply has_mono; [exact Hs|auto].
Qed.

Lemma perform_step_inv s before after id c from w ok failed now db b :
  threads s = before ++ {| t_id := id; t_for := c; t_from := from; t_run := Do w ok failed |} :: after ->
  perform hex_decode proof_ok sha256_hex state_to_json (tables s) id w now = (db, b) ->
  sys_inv s ->
  sys_inv {| tables := db;
             threads := before ++ {| t_id := id; t_for := c; t_from := from; t_run := if b then ok else failed |} :: after;
             drawn := drawn s; answered := noted hex_decode sha256_hex (tables s) id from w now b ++ answered s |}.
Proof.
  intros Hth Hp Hinv. pose proof Hinv as (Hu & Hrows & Ht & Ha).
  pose proof (perform_unique _ _ _ _ _ _ Hp Hu) as Hu'.
  rewrite Hth in Ht. apply Forall_app in Ht as [_ [(i & had & Hi & Hin & Hw & Hq & Hf) _]%Forall_cons].
  cbn [t_id t_for t_from t_run] in *. destruct w as [st se| |answer source]; cbn in Hp.
  - destruct (save_interaction_state _ _ _ _ _ _) as [db' r] eqn:Hs. injection Hp as <- <-.
    by eapply saving_step.
  - pose proof (complete_follows (tables s) (sha256_hex id) now) as Hfol.
    destruct (complete_interaction _ _ _ _) as [db' r]. injection Hp as <- <-.
    by eapply completing_step.
  - pose proof (complete_with_device_follows hex_decode proof_ok q_keeps f_keeps (tables s) (sha256_hex id) now
      q_keeps_refl f_keeps_refl ltac:(done)) as Hfol.
    destruct (complete_interaction_with_device _ _ _ _ _) as [db' r]. injection Hp as <- <-.
    eapply completing_step; try done. by eapply noted_ok.
Qed.

Lemma step_inv s s' : step s s' -> sys_inv s -> sys_inv s'.
Proof.
  intros Hstep Hinv. destruct Hstep.
  - destruct Hinv as (Hu & Hrows & Ht & Ha).
    assert (Hfol : follows q_keeps f_keeps (tables s) (exec hex_decode hex_encode proof_ok (tables s) op))
      by (by apply background_follows).
    assert (Hu' := exec_unique hex_decode hex_encode proof_ok (tables s) op Hu).
    destruct (follows_keeps_inv s _ Hfol Hu' Hrows Ht). done.
  - by eapply first_party_step_inv.
  - match goal with E : _ = NextStep.decide _ _ _ _ _ |- _ => rewrite E in * end.
    eapply authorize_step_inv; try done.
    assert (He := exec_unique hex_decode hex_encode proof_ok (tables s) (Begin digest (sha256_hex id) now) (proj1 Hinv)).
    cbn in He. match goal with E : begin_interaction _ _ _ _ _ = Ok _ |- _ => by rewrite E in He end.
  - by eapply arrive_step_inv.
  - by eapply perform_step_inv.
Qed.

Lemma start_inv : sys_inv start.
Proof.
  split_and!; [apply empty_unique| |constructor|constructor].
  split; intros d r; cbn; by rewrite lookup_empty.
Qed.

Lemma reachable_inv s : rtc step start s -> sys_inv s.
Proof.
  intros Hr. pose proof start_inv as Hs. revert Hr Hs. generalize (start (Task := Task) (Proof := Proof)).
  induction 1 as [|x y z Hxy _ IH]; intros Hx; [done|]. apply IH. by eapply step_inv.
Qed.

(** C14: Whatever tabs, handlers and sweeps interleave, a response goes to a client only
    for a request of that client not answered before, and an approval names a person
    signed in on that row. An answer from the screen is that of the form the handler was
    sent, whose token its row held: an approval pressed [allow] at the consent stage and
    grants exactly the scopes ticked, all of them asked for, [openid] with them where it
    was; a denial pressed [deny] there, or [cancel] at a step-up. An answer from memory
    is an approval of exactly what was asked, which the standing grants of the subject of
    the session, as this handler read them, cover under the policy it was given. *)
Theorem answers_are_grounded s :
  rtc step start s ->
  Forall (fun x =>
    q_consumed_at (a_row x) = None /\
    exists w a record, a_from x = Some (w, a, record) /\
    ir_continuation record = Client {| cq_client := q_client (a_row x); cq_parameters := q_parameters (a_row x) |} /\
    let asked := list_to_set (strings_of (q_parameters (a_row x)) "scopes") : gset string in
    let st := stored (ir_state record) in
    match a_source x with
    | Screen =>
        exists form, a = Submit form /\ check_csrf sha256_hex st (form_field form "csrf") = Ok () /\
        match a_answer x with
        | Denied =>
            stage st = StConsent /\ form_field form "decision" = Some "deny"%string \/
            stage st = StStepUp /\ form_field form "decision" = Some "cancel"%string
        | Approved granted =>
            is_Some (q_session (a_row x)) /\
            stage st = StConsent /\ form_field form "decision" = Some "allow"%string /\
            (forall scope, scope ∈ granted <-> In ("scope"%string, scope) form) /\
            granted ⊆ asked /\ (REQUIRED_SCOPE ∈ asked -> REQUIRED_SCOPE ∈ granted)
        end
    | Memory =>
        exists digest subject grants,
          a_answer x = Approved asked /\ is_Some (q_session (a_row x)) /\
          (ir_session record = Some digest \/
           exists satisfied, w_establish w = EstablishedSession digest satisfied) /\
          w_subject w digest = Some subject /\ w_grants w subject = Some grants /\
          remembered_approval from_str json_string grants (q_client (a_row x)) subject
            (q_parameters (a_row x)) (w_policy w) (w_now w) = Some asked
    end) (answered s).
Proof.
  intros Hr. apply reachable_inv in Hr as (_ & _ & _ & Ha). eapply Forall_impl; [exact Ha|].
  intros x (Hc & (w & a & record & Hfrom & Hcon & Hw) & Hs). split; [done|]. exists w, a, record.
  split; [done|]. split; [exact Hcon|]. cbn zeta. destruct (a_source x).
  - destruct Hw as (form & -> & Hcsrf & Hw). exists form. split; [done|]. split; [done|].
    unfold offered in Hw. rewrite Hcon in Hw. destruct (a_answer x); [split; [done|]|]; exact Hw.
  - destruct Hw as (granted & rq & digest & subject & grants & Hans & Hrq & Hd & Hsub & Hg & Hrem).
    rewrite Hcon in Hrq. injection Hrq as <-. cbn [cq_client cq_parameters] in Hrem.
    assert (granted = list_to_set (strings_of (q_parameters (a_row x)) "scopes")) as ->.
    { unfold remembered_approval in Hrem. destruct (in_strings _ _); [done|].
      destruct (Coverage.delta _); [done|]. by injection Hrem as <-. }
    rewrite Hans in Hs. by exists digest, subject, grants.
Qed.

(** C16: What a page or a form of an interaction finds it at: a client's reaches the
    step-up, the consent and the response only with a session on the row, the response
    only with a decision; a first-party one never reaches consent, and its end only with
    a session. *)
Theorem stages_follow_proof s id now record :
  rtc step start s ->
  by_interaction hex_decode (tables s) (sha256_hex id) now = Ok (Some record) ->
  let st := stored (ir_state record) in
  match ir_continuation record with
  | Client _ =>
      (stage st <> StLogin -> is_Some (ir_session record)) /\
      (stage st = StResponse -> is_Some (decision st))
  | FirstParty _ => stage st <> StConsent /\ (stage st <> StLogin -> is_Some (ir_session record))
  end.
Proof.
  intros Hr Hb. apply reachable_inv in Hr as (_ & [Hq Hf] & _). cbn zeta.
  assert (Hok : row_ok (ir_continuation record) (stored (ir_state record)) (has (ir_session record))).
  { apply by_interaction_Some in Hb as (i & Hi & [(d & r & Hd & Hri & ->)|(h & dest & Hh & _ & ->)]).
    - by apply (Hq d r i).
    - by apply (Hf i h). }
  destruct Hok as [Hn Hok]. destruct (ir_continuation record), (stage (stored (ir_state record)));
    try done; destruct (ir_session record), (decision (stored (ir_state record))); naive_solver.
Qed.

(** The sign-up page cannot be reached: [prompt=create] is decided as registration and
    begins at the sign-in, no handler moves an interaction to [StRegister], and so no row
    ever is there, no page is the sign-up form and no submission creates an account. *)
Theorem sign_up_is_unreachable s id now record (w : World Task) :
  rtc step start s ->
  by_interaction hex_decode (tables s) (sha256_hex id) now = Ok (Some record) ->
  let st := stored (ir_state record) in
  stage st <> StRegister /\ render w st record <> PRegister /\
  (forall name binding, stage (beginning ToRegister name binding) = StLogin).
Proof.
  intros Hr Hb. apply reachable_inv in Hr as (_ & [Hq Hf] & _). cbn zeta.
  assert (Hn : stage (stored (ir_state record)) <> StRegister).
  { apply by_interaction_Some in Hb as (i & Hi & [(d & r & Hd & Hri & ->)|(h & dest & Hh & _ & ->)]).
    - by apply (Hq d r i).
    - by apply (proj2 (Hf i h Hh) dest). }
  split; [done|]. split; [|done]. unfold render. destruct (totp_user _); [done|].
  destruct (stage (stored (ir_state record))); try done. by destruct (is_some_and _ _).
Qed.
End Invariant.

(** ** Tokens and second factors *)

Section Tokens.
Context {Task : Type}.
Variable sha256_hex : string -> string.
Variable from_str : string -> option value.
Variable json_string : value -> string.
Implicit Types (w : World Task) (st : StoredState) (record : InteractionRecord)
  (form : list (string * string)).

Abbreviation submitted w form st record := (submit sha256_hex from_str json_string w form st record).

Lemma check_csrf_Ok st presented :
  check_csrf sha256_hex st (Some presented) = Ok () <-> csrf_digest st = Some (sha256_hex presented).
Proof.
  unfold check_csrf. destruct (csrf_digest st) as [d|]; cbn; [|naive_solver].
  destruct (ct_eq _ _) eqn:E; [apply ct_eq_strings in E; subst; naive_solver|].
  split; [done|]. intros [= ->]. by rewrite (proj2 (ct_eq_strings _ _) eq_refl) in E.
Qed.

Lemma advance_keeps st satisfied c :
  let st' := advance_after_authentication st satisfied c in
  csrf_digest st' = csrf_digest st /\ totp_user st' = totp_user st /\
  totp_username st' = totp_username st /\ username st' = username st.
Proof. cbn zeta. unfold advance_after_authentication. by repeat case_match. Qed.

Lemma passkey_finish_saves w csrf st record st' session ok failed :
  passkey_finish sha256_hex w csrf st record = Do (WSave st' session) ok failed ->
  check_csrf sha256_hex st (Some csrf) = Ok () /\
  (exists digest satisfied, w_establish w = EstablishedSession digest satisfied /\ session = Some digest /\
     st' = advance_after_authentication (signed_in_as (w_named w) st) satisfied (ir_continuation record)) /\
  (stage st = StLogin \/ stage st = StStepUp).
Proof.
  unfold passkey_finish. destruct (stage st); try done;
    destruct (check_csrf _ _ _) as [[]|]; try done; destruct (w_verify w) as [[]|]; try done;
    destruct (negb _); try done; destruct (w_establish w) as [digest satisfied| |]; try done;
    intros [= <- <- _ _]; eauto 8.
Qed.

(** The token of the sign-in form outlives a passkey sign-in: the ceremony checks it
    and does not spend it, so the state it leaves at the consent stage accepts the same
    token, and a consent form that carries it is decided although no consent page was
    ever drawn. A password sign-in replaces the token. *)
Theorem passkey_leaves_token w csrf st record rq st' session ok failed w' form :
  ir_continuation record = Client rq ->
  passkey_finish sha256_hex w csrf st record = Do (WSave st' session) ok failed ->
  (exists digest, w_establish w = EstablishedSession digest true) -> totp_user st = None ->
  form_field form "csrf" = Some csrf ->
  stage st' = StConsent /\
  submitted w' form st' record = decide_form w' (spend_csrf st') form record.
Proof.
  intros Hc Hp [digest He] Ht Hf.
  apply passkey_finish_saves in Hp as (Hcsrf & (d & satisfied & He' & _ & ->) & Hst).
  assert (satisfied = true) as -> by congruence.
  pose proof (advance_keeps (signed_in_as (w_named w) st) true (ir_continuation record)) as (Hk & Hu & _ & _).
  assert (Hstage : stage (advance_after_authentication (signed_in_as (w_named w) st) true
                            (ir_continuation record)) = StConsent).
  { unfold advance_after_authentication. rewrite Hc. cbn. by destruct Hst as [->| ->]. }
  split; [done|]. unfold submit. rewrite Hf.
  rewrite (proj2 (check_csrf_Ok _ csrf)) by (rewrite Hk; by apply check_csrf_Ok).
  cbn [spend_csrf with_csrf stage totp_user]. rewrite Hstage, Hu. cbn [signed_in_as totp_user].
  by rewrite Ht.
Qed.

(** A second factor asked of one account survives the passkey of another: the state
    still holds the first account, every page is its challenge, every submission its
    verification, and once its code verifies the session saved is the one it earned,
    while the name the consent page will show stays that of the passkey. *)
Theorem pending_totp_outlives_passkey w csrf st record user st' session ok failed :
  passkey_finish sha256_hex w csrf st record = Do (WSave st' session) ok failed ->
  totp_user st = Some user ->
  totp_user st' = Some user /\ username st' = Some (w_named w) /\
  (forall w' record', render w' st' record' = PTotp) /\
  (forall w' form record', form_field form "csrf" = Some csrf -> stage st' = StConsent ->
     submitted w' form st' record' =
       verify_totp_sign_in sha256_hex from_str json_string w' (spend_csrf st') form record') /\
  (forall w' record' name digest, w_gate w' = GateOpen -> w_totp_verify w' = Some true ->
     w_blocked w' = false -> binding_fits st' record' = true -> totp_username st' = Some name ->
     w_parse_uuid w' user = true -> (exists rq, ir_continuation record' = Client rq) ->
     stage st' = StConsent -> w_establish w' = EstablishedSession digest true ->
     forall form, totp_shape form = true ->
     exists st'' ok' failed',
       verify_totp_sign_in sha256_hex from_str json_string w' (spend_csrf st') form record' =
         Do (WSave st'' (Some digest)) ok' failed' /\
       stage st'' = StConsent /\ username st'' = Some (w_named w)).
Proof.
  intros Hp Ht. apply passkey_finish_saves in Hp as (Hcsrf & (d & satisfied & _ & _ & ->) & _).
  pose proof (advance_keeps (signed_in_as (w_named w) st) satisfied (ir_continuation record)) as Hk.
  cbn zeta in Hk. destruct Hk as (Hk & Hu & _ & Hn).
  set (st' := advance_after_authentication _ _ _) in *. clearbody st'.
  assert (Hu' : totp_user st' = Some user) by (by rewrite Hu). split_and!; [done|by rewrite Hn|..].
  - intros w' record'. unfold render. by rewrite Hu'.
  - intros w' form record' Hf Hs. unfold submit. rewrite Hf.
    rewrite (proj2 (check_csrf_Ok _ csrf)) by (rewrite Hk; by apply check_csrf_Ok).
    cbn [spend_csrf with_csrf stage totp_user]. rewrite Hs, Hu'. done.
  - intros w' record' name digest Hg Hv Hb Hfit Hname Huuid [rq Hrq] Hst He form Hshape.
    unfold verify_totp_sign_in. cbn [spend_csrf with_csrf totp_user totp_username].
    rewrite Hu', Hname, Huuid. cbn [negb]. unfold gate. rewrite Hg, Hshape, Hv.
    unfold authenticated. rewrite Hb.
    change (binding_fits (clear_totp (spend_csrf st')) record') with (binding_fits st' record').
    rewrite Hfit, He, Hrq. cbn [negb Continuation.first_party]. do 3 eexists. split; [done|].
    unfold advance_after_authentication. cbn. rewrite Hst. cbn. by rewrite Hst, Hn.
Qed.

(** A consent form that carries no decision, or ticks what was not offered, is refused
    and writes nothing: the token it carried is not spent, and a second form with the same
    token is decided. *)
Theorem refused_decision_keeps_token w form w' form' st record csrf :
  stage st = StConsent -> totp_user st = None -> check_csrf sha256_hex st (Some csrf) = Ok () ->
  form_field form "csrf" = Some csrf -> form_field form' "csrf" = Some csrf ->
  (form_field form "decision" <> Some "allow"%string /\ form_field form "decision" <> Some "deny"%string \/
   form_field form "decision" = Some "allow"%string /\
   exists scope, In ("scope"%string, scope) form /\ scope ∉ offered record) ->
  submitted w form st record = Done PError /\
  submitted w' form' st record = decide_form w' (spend_csrf st) form' record.
Proof.
  intros Hst Ht Hcsrf Hf Hf' Hbad.
  assert (Hs : forall w form, form_field form "csrf" = Some csrf ->
    submitted w form st record = decide_form w (spend_csrf st) form record).
  { intros w0 form0 Hf0. unfold submit. rewrite Hf0, Hcsrf. cbn [spend_csrf with_csrf stage totp_user].
    by rewrite Hst, Ht. }
  rewrite !Hs by done. split; [|done]. unfold decide_form. cbn zeta.
  destruct (negb _); [done|]. destruct Hbad as [[Ha Hd]|[Ha (scope & Hin & Hno)]].
  - destruct (form_field form "decision") as [v|]; [|done].
    destruct (String.eqb_spec v "allow"); [congruence|]. destruct (String.eqb_spec v "deny"); [congruence|done].
  - rewrite Ha. cbn [String.eqb]. unfold consent_decide. cbn [negb].
    rewrite bool_decide_false; [done|]. intros Hsub. apply Hno, Hsub, elem_of_list_to_set.
    apply list_elem_of_omap. exists ("scope"%string, scope). split; [by apply list_elem_of_In|done].
Qed.
End Tokens.

(** ** Conditional requirements *)

(** A conditional requirement only narrows: whatever meets the requirements it leaves
    meets the client's own - each class left was asked for and is acceptable, none at all
    is left attainable where the two share none - and the age allowed is no more than
    either. *)
Theorem conditional_only_narrows (b : ConditionalBinding) (r : Requirements) :
  let r' := apply b r in
  (forall acr, cb_acr b = Some acr ->
     essential_acr r' <> [] /\
     (essential_acr r <> [] -> forall v, In v (essential_acr r') ->
        In v (essential_acr r) /\ In v (cb_acceptable_acr b) \/
        v = UNATTAINABLE /\ essential_acr r' = [UNATTAINABLE] /\
        (forall v, In v (essential_acr r) -> ~ In v (cb_acceptable_acr b)))) /\
  (cb_acr b = None -> essential_acr r' = essential_acr r) /\
  (forall age, max_age r = Some age -> exists age', max_age r' = Some age' /\ age' <= age) /\
  (forall age, cb_max_age b = Some age -> exists age', max_age r' = Some age' /\ age' <= age) /\
  (max_age r' = None -> max_age r = None /\ cb_max_age b = None) /\
  prompts r' = prompts r /\ hinted_subject r' = hinted_subject r.
Proof.
  cbn zeta. cbn [apply essential_acr max_age prompts hinted_subject].
  split_and!; [|by intros Hn; unfold apply_acr; rewrite Hn|..]; try done.
  - intros acr Ha. unfold apply_acr. rewrite Ha. destruct (essential_acr r) as [|e es] eqn:He.
    + by destruct (cb_acceptable_acr b).
    + rewrite <- He. destruct (List.filter _ (essential_acr r)) as [|k ks] eqn:Hf; (split; [done|]); intros _ v.
      * intros [<-|[]]. right. split_and!; try done. intros x Hx Hacc.
        assert (Hm : In x (List.filter (fun v => in_strings v (cb_acceptable_acr b)) (essential_acr r)))
          by (apply filter_In; split; [done|by apply in_strings_In]). by rewrite Hf in Hm.
      * rewrite <- Hf. intros [Hv Hacc]%filter_In. left. split; [done|by apply in_strings_In].
  - intros age Hr. unfold apply_max_age. rewrite Hr. destruct (cb_max_age b) as [a|]; eexists; (split; [done|lia]).
  - intros age Hb. unfold apply_max_age. rewrite Hb. destruct (max_age r); eexists; (split; [done|lia]).
  - unfold apply_max_age. by destruct (cb_max_age b).
Qed.

(** ** Cookies *)

(** The values a header gives a name, in order. *)
Definition cookie_values (name header : string) : list string :=
  omap (fun item => match split_once "="%char (trim item) with
                    | Some (candidate, v) => if String.eqb candidate name then Some v else None
                    | None => None
                    end) (split_on ";"%char header).

(** A cookie is read only when the header names it exactly once, byte for byte, with a
    value: no other name, no repetition and no empty value yields an interaction id. *)
Theorem cookie_is_exact (header name v : string) :
  cookie_value header name = Some v <-> cookie_values name header = [v] /\ is_empty v = false.
Proof.
  unfold cookie_value, cookie_values. generalize (split_on ";"%char header). intros items.
  assert (Hsome : forall items found, cookie_from name items (Some found) =
    match omap (fun item => match split_once "="%char (trim item) with
                    | Some (candidate, v) => if String.eqb candidate name then Some v else None
                    | None => None end) items with [] => Some found | _ => None end).
  { clear. induction items as [|item items IH]; intros found; cbn; [done|].
    destruct (split_once _ _) as [[candidate v]|]; [|apply IH].
    destruct (String.eqb candidate name); cbn; [done|apply IH]. }
  induction items as [|item items IH]; cbn; [naive_solver|].
  destruct (split_once _ _) as [[candidate x]|]; [|exact IH].
  destruct (String.eqb candidate name); cbn; [|exact IH].
  destruct (is_empty x) eqn:Hx; [split; [done|]; intros [[= -> _] ?]; congruence|].
  rewrite Hsome. destruct (omap _ items); split; try done.
  - by intros [= ->].
  - by intros [[= ->] _].
  - by intros [[=] _].
Qed.

(** ** A concrete run *)

Definition plain_opt (o : option string) : value := match o with Some s => VString s | None => VNull end.
Definition plain_int (o : option Z) : value := match o with Some n => VNumber (PosInt n) | None => VNull end.
Definition int_of (v : value) : option Z := match v with VNumber (PosInt n) => Some n | _ => None end.
Definition strings_in (v : value) : list string := match v with VArray l => omap as_str l | _ => [] end.
Definition stage_name (s : Stage) : string :=
  match s with
  | StLogin => "login" | StRegister => "register" | StStepUp => "step_up" | StConsent => "consent"
  | StResponse => "response"
  end.
Definition stage_named (v : string) : option Stage :=
  List.find (fun s => String.eqb (stage_name s) v) [StLogin; StRegister; StStepUp; StConsent; StResponse].

(** A stored form that reads back, a stage always in it. *)
Definition plain_to_json (st : StoredState) : value := VArray [
  match conditional st with
  | Some b => VArray [VString (cb_client b); VString (cb_action b); VString (cb_policy_revision b);
                      plain_opt (cb_acr b); VArray (map VString (cb_acceptable_acr b));
                      plain_int (cb_max_age b)]
  | None => VNull
  end;
  VString (stage_name (stage st)); plain_opt (csrf_digest st);
  match decision st with
  | Some (StoredApproved scopes) => VArray (map VString scopes)
  | Some StoredDenied => VBool false
  | None => VNull
  end;
  plain_opt (username st); plain_opt (totp_user st); plain_opt (totp_username st); plain_opt (locale st)].

Definition plain_of_json (v : value) : option StoredState :=
  match v with
  | VArray [c; VString s; csrf; d; u; tu; tn; l] =>
      stage ← stage_named s;
      Some {| conditional :=
                match c with
                | VArray [VString client; VString action; VString revision; acr; acceptable; age] =>
                    Some {| cb_client := client; cb_action := action; cb_policy_revision := revision;
                            cb_acr := as_str acr; cb_acceptable_acr := strings_in acceptable;
                            cb_max_age := int_of age |}
                | _ => None
                end;
              stage := stage; csrf_digest := as_str csrf;
              decision := match d with
                          | VArray l => Some (StoredApproved (omap as_str l))
                          | VBool _ => Some StoredDenied
                          | _ => None
                          end;
              username := as_str u; totp_user := as_str tu; totp_username := as_str tn;
              locale := as_str l |}
  | _ => None
  end.

Lemma strings_back l : omap as_str (map VString l) = l.
Proof. induction l as [|s l IH]; [done|]. cbn. by f_equal. Qed.

Lemma plain_round_trip st : plain_of_json (plain_to_json st) = Some st.
Proof.
  destruct st as [c s csrf d u tu tn l]. unfold plain_of_json, plain_to_json.
  cbn [conditional stage csrf_digest decision username totp_user totp_username locale].
  assert (Hs : stage_named (stage_name s) = Some s) by (by destruct s). rewrite Hs.
  assert (Ho : forall o, as_str (plain_opt o) = o) by (by intros []). rewrite !Ho.
  cbn [mbind option_bind]. do 2 f_equal.
  - destruct c as [[client action revision acr acceptable age]|]; [|done].
    cbn [cb_client cb_action cb_policy_revision cb_acr cb_acceptable_acr cb_max_age strings_in].
    rewrite Ho, strings_back. by destruct age.
  - destruct d as [[scopes|]|]; [|done|done]. by rewrite strings_back.
Qed.

(** *** A scheduler of the system *)

Section Play.
Context {Task Proof P : Type} `{AcrDecider P}.
Variable hex_decode : string -> option (list Z).
Variable hex_encode : list Z -> string.
Variable proof_ok : Proof -> string -> Z -> result () DomainError.
Variable sha256_hex : string -> string.
Variable from_str : string -> option value.
Variable json_string : value -> string.
Variable state_to_json : StoredState -> value.
Variable state_of_json : value -> option StoredState.

Abbreviation step := (sys_step (Task := Task) (P := P) hex_decode hex_encode proof_ok sha256_hex
  from_str json_string state_to_json state_of_json).

Inductive Move : Type :=
| MBackground (op : Op Proof)
| MAuthorize (digest id : string) (now : Z) (r : Requirements) (who : Session) (subject : string)
    (consent : Consent) (policy : DecisionPolicy) (acr : P) (name : option string)
| MArrive (id : string) (now : Z) (w : World Task) (a : Arrival)
| MPerform (now : Z).

Definition play_one (s : Sys (Task := Task) (Proof := Proof)) (m : Move) : Sys :=
  match m with
  | MBackground op =>
      if background op then
        {| tables := exec hex_decode hex_encode proof_ok (tables s) op; threads := threads s;
           drawn := drawn s; answered := answered s |}
      else s
  | MAuthorize digest id now r who subject consent policy acr name =>
      let state := ActiveSession who (Some subject) consent in
      let step := NextStep.decide r state policy acr now in
      match hex_decode (sha256_hex id), begin_interaction hex_decode (tables s) digest (sha256_hex id) now, step with
      | Some _, Ok _, Refuse _ => s
      | Some i, Ok db, _ =>
          match select_row (q_of i now) (requests db) with
          | Some row =>
              if bool_decide (i ∈ drawn s) then s
              else {| tables := db;
                      threads := {| t_id := id; t_for := ir_continuation (record_of (snd row)); t_from := None;
                                    t_run := begin_at step name None (Some (s_id_digest who)) |} :: threads s;
                      drawn := drawn s ∪ {[ i ]}; answered := answered s |}
          | None => s
          end
      | _, _, _ => s
      end
  | MArrive id now w a =>
      match by_interaction hex_decode (tables s) (sha256_hex id) now with
      | Ok (Some record) =>
          {| tables := tables s;
             threads := {| t_id := id; t_for := ir_continuation record; t_from := Some (w, a, record);
                           t_run := handle sha256_hex from_str json_string state_of_json w a record |}
                        :: threads s;
             drawn := drawn s; answered := answered s |}
      | _ => s
      end
  | MPerform now =>
      match threads s with
      | {| t_id := id; t_for := c; t_from := from; t_run := Do w ok failed |} :: rest =>
          let '(db, b) := perform hex_decode proof_ok sha256_hex state_to_json (tables s) id w now in
          {| tables := db;
             threads := {| t_id := id; t_for := c; t_from := from; t_run := if b then ok else failed |} :: rest;
             drawn := drawn s; answered := noted hex_decode sha256_hex (tables s) id from w now b ++ answered s |}
      | _ => s
      end
  end.

Lemma play_one_step s m : rtc step s (play_one s m).
Proof.
  destruct m as [op|digest id now r who subject consent policy acr name|id now w a|now]; cbn [play_one].
  - destruct (background op) eqn:Hop; [|done]. apply rtc_once. by constructor.
  - destruct (hex_decode (sha256_hex id)) as [i|] eqn:Hi; [|done].
    destruct (begin_interaction _ _ _ _ _) as [db|] eqn:Hb; [|done].
    destruct (select_row (q_of i now) (requests db)) as [row|] eqn:Hsel; [|by case_match].
    destruct (bool_decide (i ∈ drawn s)) eqn:Hd; [by case_match|]. apply bool_decide_eq_false in Hd.
    destruct (NextStep.decide r (ActiveSession who (Some subject) consent) policy acr now) eqn:Hstep;
      [..|done];
      apply rtc_once; eapply (step_authorize _ _ _ _ _ _ _ _ s digest id i now db row r
        (ActiveSession who (Some subject) consent) policy acr); try done; try (by intros ? [= <-]); congruence.
  - destruct (by_interaction _ _ _ _) as [[record|]|] eqn:Hb; [|done..]. apply rtc_once. by econstructor.
  - destruct (threads s) as [|[id c from [page|w ok failed]] rest] eqn:Ht; [done..|].
    destruct (perform _ _ _ _ _ _ _ _) as [db b] eqn:Hp. apply rtc_once.
    by apply (step_perform _ _ _ _ _ _ _ _ s [] rest id c from w ok failed now db b).
Qed.

Definition play (moves : list Move) : Sys := fold_left play_one moves start.

Lemma play_reachable moves : rtc step start (play moves).
Proof.
  unfold play. generalize (start (Task := Task) (Proof := Proof)). induction moves as [|m moves IH]; intros s; [done|].
  cbn. etrans; [apply play_one_step|apply IH].
Qed.
End Play.

(** *** One authorization, from the push to the answer *)

Definition sample_world : World () := {|
  w_now := 5; w_token := "tok"; w_locale := "en"; w_client := true;
  w_subject := fun _ => None; w_grants := fun _ => None; w_capture := true;
  w_credentials := true; w_gate := GateOpen; w_verify := Some (Some "u"%string); w_named := "User";
  w_supports_totp := true; w_totp_active := Some true; w_totp_verify := Some true;
  w_parse_uuid := fun _ => true; w_blocked := false;
  w_establish := EstablishedSession "d2" true; w_registrar := true; w_accepted := true;
  w_created := Some true; w_policy := MemoryPolicy.new false |}.

Definition sample_parameters : value := VObject [
  ("redirect_uri"%string, VString "https://rp.example/cb");
  ("scopes"%string, VArray [VString "openid"; VString "profile"])].

Definition sample_form : list (string * string) :=
  [("csrf", "tok"); ("decision", "allow"); ("scope", "openid")]%string.

Definition sample_moves : list (Move (Task := ()) (Proof := ()) (P := NoAcrPolicy)) := [
  MBackground (AddClient "client");
  MBackground (Push {| pr_digest := "aa"; pr_client := "client"; pr_parameters := sample_parameters;
                       pr_pushed_at := 0; pr_expires_at := 90 |});
  MAuthorize "aa" "i1" 1 default_requirements sample_session "sub" Required {| account_chooser := false |}
    no_acr_policy (Some "User"%string);
  MPerform 2;
  MArrive "i1" 3 sample_world (Show false);
  MPerform 3].

Definition sample_end : list (Move (Task := ()) (Proof := ()) (P := NoAcrPolicy)) :=
  [MArrive "i1" 4 sample_world (Submit sample_form); MPerform 4; MPerform 5].

Definition same_text (s : string) : string := s.
Definition no_hex (_ : list Z) : string := "".
Definition sample_play (moves : list (Move (Task := ()) (Proof := ()) (P := NoAcrPolicy))) : Sys :=
  play plain_hex no_hex any_proof same_text sample_read sample_text plain_to_json plain_of_json moves.

Lemma answers_are_grounded_witness :
  map (fun x => (a_answer x, a_source x)) (answered (sample_play (sample_moves ++ sample_end))) =
    [(Approved {[ "openid"%string ]}, Screen)] /\
  Forall (fun x => exists w a record, a_from x = Some (w, a, record) /\
    match a_answer x, a_source x with
    | Approved granted, Screen =>
        exists form, a = Submit form /\ forall scope, scope ∈ granted <-> In ("scope"%string, scope) form
    | _, _ => True
    end) (answered (sample_play (sample_moves ++ sample_end))).
Proof.
  split; [vm_compute; reflexivity|].
  eapply Forall_impl; [apply (answers_are_grounded plain_hex no_hex any_proof same_text sample_read
    sample_text plain_to_json plain_of_json plain_round_trip eq_refl (Task := ()) (P := NoAcrPolicy)),
    (play_reachable plain_hex no_hex any_proof same_text sample_read sample_text plain_to_json
       plain_of_json (sample_moves ++ sample_end))|].
  intros x (_ & w & a & record & Hfrom & _ & Hw). exists w, a, record. split; [exact Hfrom|].
  destruct (a_answer x); [|exact I]. destruct (a_source x); [|exact I].
  destruct Hw as (form & Ha & _ & _ & _ & _ & Hin & _). by exists form.
Defined.

Definition sample_record : InteractionRecord := {|
  ir_continuation := Client {| cq_client := "client"; cq_parameters := sample_parameters |};
  ir_state := plain_to_json {| conditional := None; stage := StConsent; csrf_digest := Some "tok"%string;
    decision := None; username := Some "User"%string; totp_user := None; totp_username := None;
    locale := Some "en"%string |};
  ir_session := Some "d"%string; ir_expires_at := 90 |}.

Lemma stages_follow_proof_witness :
  by_interaction plain_hex (tables (sample_play sample_moves)) "i1" 4 = Ok (Some sample_record) /\
  is_Some (ir_session sample_record).
Proof.
  assert (Hb : by_interaction plain_hex (tables (sample_play sample_moves)) "i1" 4 = Ok (Some sample_record))
    by (vm_compute; reflexivity).
  split; [exact Hb|].
  apply (proj1 (stages_follow_proof plain_hex no_hex any_proof same_text sample_read
    sample_text plain_to_json plain_of_json plain_round_trip eq_refl (Task := ()) (P := NoAcrPolicy)
    _ "i1" 4 sample_record
    (play_reachable plain_hex no_hex any_proof same_text sample_read sample_text plain_to_json
       plain_of_json sample_moves) Hb)). discriminate.
Defined.

(** A request for an account to be made, at the sign-in. *)
Definition sample_create : list (Move (Task := ()) (Proof := ()) (P := NoAcrPolicy)) := [
  MBackground (AddClient "client");
  MBackground (Push {| pr_digest := "aa"; pr_client := "client"; pr_parameters := sample_parameters;
                       pr_pushed_at := 0; pr_expires_at := 90 |});
  MAuthorize "aa" "i1" 1
    {| prompts := [PromptCreate]; max_age := None; hinted_subject := None; acr_values := []; essential_acr := [] |}
    sample_session "sub" Required {| account_chooser := false |} no_acr_policy None;
  MPerform 2].

Definition sample_created : InteractionRecord := {|
  ir_continuation := Client {| cq_client := "client"; cq_parameters := sample_parameters |};
  ir_state := plain_to_json default_state; ir_session := Some "d"%string; ir_expires_at := 90 |}.

Lemma sign_up_is_unreachable_witness :
  by_interaction plain_hex (tables (sample_play sample_create)) "i1" 4 = Ok (Some sample_created) /\
  render sample_world (from_stored plain_of_json (ir_state sample_created)) sample_created <> PRegister.
Proof.
  assert (Hb : by_interaction plain_hex (tables (sample_play sample_create)) "i1" 4 = Ok (Some sample_created))
    by (vm_compute; reflexivity).
  split; [exact Hb|].
  apply (proj1 (proj2 (sign_up_is_unreachable plain_hex no_hex any_proof same_text sample_read
    sample_text plain_to_json plain_of_json plain_round_trip eq_refl (Task := ()) (P := NoAcrPolicy)
    _ "i1" 4 sample_created sample_world
    (play_reachable plain_hex no_hex any_proof same_text sample_read sample_text plain_to_json
       plain_of_json sample_create) Hb))).
Defined.

Definition sample_login (totp : option string) : StoredState := {|
  conditional := None; stage := StLogin; csrf_digest := Some "tok"%string; decision := None;
  username := None; totp_user := totp; totp_username := totp; locale := None |}.
Definition sample_consent (totp : option string) : StoredState := {|
  conditional := None; stage := StConsent; csrf_digest := Some "tok"%string; decision := None;
  username := Some "User"%string; totp_user := totp; totp_username := totp; locale := None |}.

Lemma passkey_leaves_token_witness :
  passkey_finish same_text sample_world "tok" (sample_login None) sample_record =
    Do (WSave (sample_consent None) (Some "d2"%string)) (Done PSignedIn) (Done PRefused) /\
  submit same_text sample_read sample_text sample_world sample_form (sample_consent None) sample_record =
    decide_form sample_world (spend_csrf (sample_consent None)) sample_form sample_record.
Proof.
  split; [reflexivity|].
  exact (proj2 (passkey_leaves_token same_text sample_read sample_text sample_world "tok" (sample_login None)
    sample_record {| cq_client := "client"; cq_parameters := sample_parameters |} (sample_consent None)
    (Some "d2"%string) (Done PSignedIn) (Done PRefused) sample_world sample_form
    eq_refl eq_refl (ex_intro _ "d2"%string eq_refl) eq_refl eq_refl)).
Defined.

Lemma pending_totp_outlives_passkey_witness :
  passkey_finish same_text sample_world "tok" (sample_login (Some "other"%string)) sample_record =
    Do (WSave (sample_consent (Some "other"%string)) (Some "d2"%string)) (Done PSignedIn) (Done PRefused) /\
  render sample_world (sample_consent (Some "other"%string)) sample_record = PTotp.
Proof.
  assert (H : passkey_finish same_text sample_world "tok" (sample_login (Some "other"%string)) sample_record =
    Do (WSave (sample_consent (Some "other"%string)) (Some "d2"%string)) (Done PSignedIn) (Done PRefused))
    by reflexivity.
  split; [exact H|].
  destruct (pending_totp_outlives_passkey same_text sample_read sample_text sample_world "tok" _ _ "other"
    _ _ _ _ H eq_refl) as (_ & _ & Hr & _).
  apply Hr.
Defined.

Lemma refused_decision_keeps_token_witness :
  submit same_text sample_read sample_text sample_world [("csrf", "tok")]%string (sample_consent None) sample_record
    = Done PError /\
  submit same_text sample_read sample_text sample_world sample_form (sample_consent None) sample_record <> Done PError.
Proof.
  destruct (refused_decision_keeps_token same_text sample_read sample_text sample_world [("csrf", "tok")]%string
    sample_world sample_form (sample_consent None) sample_record "tok") as [H1 H2];
    [reflexivity..|left; split; discriminate|].
  split; [exact H1|]. rewrite H2. vm_compute. discriminate.
Defined.
