(* ===== verification/WebAuthn.v ===== *)
(** * WebAuthn, the relying party's side

    [crates/webauthn]: client data, authenticator data, COSE keys, the attestation
    object, and the two ceremonies over them, with the description of the relying
    party in [crates/server/src/http/passkeys.rs].

    All of it reads bytes somebody else chose. A byte string is a list of integers;
    an index or a range out of bounds panics in Rust, and here is nothing, so that a
    function of attacker-supplied bytes has type [Checked]: [None] is a panic. *)

From S2P Require Import Prelude Text Bytes Codes.
Open Scope Z_scope.

(** ** Reading bytes *)

Abbreviation Checked A E := (option (result A E)).
Definition good {A E} (a : A) : Checked A E := Some (Ok a).
Definition bad {A E} (e : E) : Checked A E := Some (Err e).

(** [?] in a function that may panic. *)
Definition cbind {A B E} (m : Checked A E) (k : A -> Checked B E) : Checked B E :=
  r ← m; match r with Ok a => k a | Err e => bad e end.
Notation "'let*' x ':=' m 'in' k" := (cbind m (fun x => k))
  (at level 10, x pattern, m at level 100, k at level 200) : idp_scope.

(** [&bytes[lo..hi]] and [&bytes[lo..]]. *)
Definition slice (b : list Z) (lo hi : nat) : option (list Z) :=
  if (lo <=? hi)%nat && (hi <=? length b)%nat then Some (take (hi - lo) (drop lo b)) else None.
Definition slice_from (b : list Z) (lo : nat) : option (list Z) := slice b lo (length b).

Lemma slice_app a b c : slice (a ++ b ++ c) (length a) (length a + length b) = Some b.
Proof.
  unfold slice. rewrite !length_app, drop_app_length, leb_correct, leb_correct by lia. cbn.
  replace (length a + length b - length a)%nat with (length b) by lia. by rewrite take_app_length.
Qed.

Lemma slice_Some b lo hi : (lo <= hi <= length b)%nat -> slice b lo hi = Some (take (hi - lo) (drop lo b)).
Proof. intros [? ?]. unfold slice. by rewrite !leb_correct by lia. Qed.

Lemma slice_from_Some b lo : (lo <= length b)%nat -> slice_from b lo = Some (drop lo b).
Proof.
  intros ?. unfold slice_from. rewrite slice_Some by lia. rewrite take_ge; [done|]. rewrite length_drop. lia.
Qed.

(** A byte string of at least [n] bytes is its first [n] and the rest. *)
Lemma split_at {A} (b : list A) n : (n <= length b)%nat -> exists l r, b = l ++ r /\ length l = n.
Proof.
  intros ?. exists (take n b), (drop n b). by rewrite take_drop, length_take_le.
Qed.

(** ** Challenges *)

Definition MIN_CHALLENGE_BYTES : nat := 16.
Definition CHALLENGE_BYTES : nat := 32.

Record Challenge : Type := { challenge_bytes : list Z }.

(** [Challenge::new]. *)
Definition new_challenge (bytes : list Z) : result Challenge unit :=
  if (length bytes <? MIN_CHALLENGE_BYTES)%nat then Err tt else Ok {| challenge_bytes := bytes |}.

(** ** The relying party *)

Inductive UserVerification : Type := Required | Discouraged.
#[export] Instance user_verification_eq_dec : EqDecision UserVerification.
Proof. solve_decision. Defined.

Inductive RelyingPartyError : Type := NotADomain | NoOrigins | NotAnOrigin.

Record RelyingParty : Type := {
  rp_id : string;
  rp_id_hash : list Z;
  rp_origins : list string;
  rp_user_verification : UserVerification
}.

(** [&origin[8..]], of an origin that starts with [https://]. *)
Definition is_origin (origin : string) : bool :=
  starts_with "https://" origin && negb (contains_char "/"%char (skip 8 origin)).

Section RelyingParty.
Variable sha256 : list Z -> list Z.

(** [RelyingParty::new]. *)
Definition new_relying_party (id : string) (origins : list string) (uv : UserVerification)
    : result RelyingParty RelyingPartyError :=
  if is_empty id || contains "://" id || contains_char "/"%char id || contains_char ":"%char id
     || contains_char "@"%char id
  then Err NotADomain
  else match origins with
  | [] => Err NoOrigins
  | _ => if forallb is_origin origins then
           Ok {| rp_id := id; rp_id_hash := sha256 (bytes_of id); rp_origins := origins;
                 rp_user_verification := uv |}
         else Err NotAnOrigin
  end.

(** [authority.split(':').next()]. *)
Fixpoint before_colon (s : string) : string :=
  match s with
  | EmptyString => EmptyString
  | String.String c r => if Ascii.eqb c ":"%char then EmptyString else String.String c (before_colon r)
  end.

(** [relying_party], of a tenant's issuer authority and its own host. *)
Definition relying_party_origins (authority : string) (custom_host : option string) : list string :=
  let id := before_colon authority in
  let own := ("https://" ++ authority)%string in
  match custom_host with
  | Some host =>
      if String.eqb host id || ends_with ("." ++ id)%string host then
        let origin := ("https://" ++ host)%string in
        if in_strings origin [own] then [own] else [own; origin]
      else [own]
  | None => [own]
  end.

Definition relying_party (authority : string) (custom_host : option string)
    : result RelyingParty RelyingPartyError :=
  new_relying_party (before_colon authority) (relying_party_origins authority custom_host) Required.
End RelyingParty.

(** ** Client data *)

Inductive ClientDataError : Type :=
| ClientMalformed | WrongCeremony | ChallengeMismatch | UntrustedOrigin.

Inductive Ceremony : Type := Create | Get.

Module Ceremony.
Definition as_str (c : Ceremony) : string :=
  match c with Create => "webauthn.create" | Get => "webauthn.get" end.
End Ceremony.

(** The members read; [crossOrigin] is false where it is absent. *)
Record Parsed : Type := {
  p_ceremony : string;
  p_challenge : string;
  p_origin : string;
  p_cross_origin : bool
}.

Record ClientData : Type := { client_origin : string }.

Section ClientData.
(** The derived deserializer over [serde_json], and unpadded base64url. *)
Variable from_slice : list Z -> option Parsed.
Variable base64_url : list Z -> string.

(** [client_data::verify]. *)
Definition verify_client_data (client_data_json : list Z) (ceremony : Ceremony) (challenge : list Z)
    (origins : list string) : result ClientData ClientDataError :=
  match from_slice client_data_json with
  | None => Err ClientMalformed
  | Some parsed =>
      if negb (String.eqb (p_ceremony parsed) (Ceremony.as_str ceremony)) then Err WrongCeremony
      else if negb (ct_eq (bytes_of (p_challenge parsed)) (bytes_of (base64_url challenge)))
      then Err ChallengeMismatch
      else if p_cross_origin parsed then Err UntrustedOrigin
      else if negb (in_strings (p_origin parsed) origins) then Err UntrustedOrigin
      else Ok {| client_origin := p_origin parsed |}
  end.
End ClientData.

(** ** COSE keys *)

(** The items of [ciborium::value::Value] the code tells apart. *)
Inductive Value : Type :=
| Integer (z : Z)
| Bytes (b : list Z)
| Text (s : string)
| Map (entries : list (Value * Value))
| Other.

Inductive CoseAlgorithm : Type := Es256 | EdDsa | Rs256.
#[export] Instance cose_algorithm_eq_dec : EqDecision CoseAlgorithm.
Proof. solve_decision. Defined.

Module CoseAlgorithm.
Definition ALL : list CoseAlgorithm := [Es256; EdDsa; Rs256].
Definition value (a : CoseAlgorithm) : Z :=
  match a with Es256 => -7 | EdDsa => -8 | Rs256 => -257 end.
Definition from_value (v : Z) : option CoseAlgorithm :=
  match v with
  | -7 => Some Es256
  | -8 => Some EdDsa
  | -257 => Some Rs256
  | _ => None
  end.
Definition as_str (a : CoseAlgorithm) : string :=
  match a with Es256 => "ES256" | EdDsa => "EdDSA" | Rs256 => "RS256" end.
End CoseAlgorithm.

Inductive CoseError : Type := NotAMap | Malformed | UnsupportedAlgorithm | TypeMismatch | BadLength.

Record CredentialPublicKey : Type := { algorithm : CoseAlgorithm; encoded : list Z }.

Definition KTY_OKP : Z := 1.
Definition KTY_EC2 : Z := 2.
Definition KTY_RSA : Z := 3.
Definition CRV_P256 : Z := 1.
Definition CRV_ED25519 : Z := 6.

Definition as_map (v : Value) : option (list (Value * Value)) :=
  match v with Map m => Some m | _ => None end.
Definition as_bytes (v : Value) : option (list Z) := match v with Bytes b => Some b | _ => None end.
Definition as_text (v : Value) : option string := match v with Text s => Some s | _ => None end.

(** [as_integer], then the conversion of its [i128] to an [i64]. *)
Definition as_i64 (v : Value) : option Z :=
  match v with
  | Integer z => if in_range (- 2 ^ 63) (2 ^ 63 - 1) z then Some z else None
  | _ => None
  end.

Definition at_label (map : list (Value * Value)) (label : Z) : option Value :=
  snd <$> List.find (fun kv => bool_decide (as_i64 (fst kv) = Some label)) map.
Definition integer (map : list (Value * Value)) (label : Z) : option Z := at_label map label ≫= as_i64.
Definition bytes (map : list (Value * Value)) (label : Z) : option (list Z) := at_label map label ≫= as_bytes.

Definition expect_len (map : list (Value * Value)) (label : Z) (len : nat) : result unit CoseError :=
  match bytes map label with
  | None => Err Malformed
  | Some found => if (length found =? len)%nat then Ok tt else Err BadLength
  end.

Section Cose.
(** [ciborium::from_reader]: the first item of the bytes. *)
Variable from_reader : list Z -> option Value.

(** [cose::parse], on the map, by its type and algorithm. *)
Definition check_key (map : list (Value * Value)) (kty : Z) (algorithm : CoseAlgorithm)
    : result unit CoseError :=
  match algorithm with
  | Es256 =>
      if negb (kty =? KTY_EC2) then Err TypeMismatch
      else if negb (bool_decide (integer map (-1) = Some CRV_P256)) then Err TypeMismatch
      else let? _ := expect_len map (-2) 32 in expect_len map (-3) 32
  | EdDsa =>
      if negb (kty =? KTY_OKP) then Err TypeMismatch
      else if negb (bool_decide (integer map (-1) = Some CRV_ED25519)) then Err TypeMismatch
      else expect_len map (-2) 32
  | Rs256 =>
      if negb (kty =? KTY_RSA) then Err TypeMismatch
      else
        let? modulus := ok_or (bytes map (-1)) Malformed in
        if (length modulus <? 256)%nat then Err BadLength
        else let? _ := ok_or (bytes map (-2)) Malformed in Ok tt
  end.

Definition parse (encoded : list Z) : result CredentialPublicKey CoseError :=
  let? value := ok_or (from_reader encoded) NotAMap in
  let? map := ok_or (as_map value) NotAMap in
  let? kty := ok_or (integer map 1) Malformed in
  let? alg := ok_or (integer map 3) Malformed in
  let? algorithm := ok_or (CoseAlgorithm.from_value alg) UnsupportedAlgorithm in
  let? _ := check_key map kty algorithm in
  Ok {| algorithm := algorithm; encoded := encoded |}.

(** [try_into] of a slice into an array. *)
Definition array (len : nat) (b : list Z) : option (list Z) :=
  if (length b =? len)%nat then Some b else None.

Definition ec2_coordinates (encoded : list Z) : option (list Z * list Z) :=
  map ← from_reader encoded ≫= as_map;
  x ← bytes map (-2) ≫= array 32;
  y ← bytes map (-3) ≫= array 32;
  Some (x, y).
Definition okp_public_key (encoded : list Z) : option (list Z) :=
  map ← from_reader encoded ≫= as_map; bytes map (-2) ≫= array 32.
Definition rsa_components (encoded : list Z) : option (list Z * list Z) :=
  map ← from_reader encoded ≫= as_map;
  n ← bytes map (-1); e ← bytes map (-2); Some (n, e).

(** ** Signatures *)

Inductive SignatureError : Type := UnusableKey | BadSignature.

(** The three verifications of [aws-lc-rs], each of key, message and signature. *)
Variable ecdsa_p256_sha256_asn1 : list Z -> list Z -> list Z -> bool.
Variable ed25519 : list Z -> list Z -> list Z -> bool.
Variable rsa_pkcs1_2048_8192_sha256 : list Z * list Z -> list Z -> list Z -> bool.

Definition verified (b : bool) : result unit SignatureError := if b then Ok tt else Err BadSignature.

(** [signature::verify]. *)
Definition verify_signature (key : CredentialPublicKey) (message signature : list Z)
    : result unit SignatureError :=
  match algorithm key with
  | Es256 =>
      let? xy := ok_or (ec2_coordinates (encoded key)) UnusableKey in
      verified (ecdsa_p256_sha256_asn1 (4 :: fst xy ++ snd xy) message signature)
  | EdDsa =>
      let? x := ok_or (okp_public_key (encoded key)) UnusableKey in
      verified (ed25519 x message signature)
  | Rs256 =>
      let? ne := ok_or (rsa_components (encoded key)) UnusableKey in
      verified (rsa_pkcs1_2048_8192_sha256 ne message signature)
  end.
End Cose.

(** ** Authenticator data *)

Inductive AuthenticatorDataError : Type :=
| Truncated
| WrongRelyingParty
| NoUserPresence
| NoUserVerification
| InconsistentBackupFlags
| NoAttestedCredentialData
| CredentialIdTooLong
| PublicKey (e : CoseError).

Definition FLAG_UP : Z := Z.shiftl 1 0.
Definition FLAG_UV : Z := Z.shiftl 1 2.
Definition FLAG_BE : Z := Z.shiftl 1 3.
Definition FLAG_BS : Z := Z.shiftl 1 4.
Definition FLAG_AT : Z := Z.shiftl 1 6.
Definition HEADER_LEN : nat := 37.
Definition MAX_CREDENTIAL_ID_LEN : Z := 1023.

(** [flags & flag != 0]. *)
Definition flag_set (flags flag : Z) : bool := negb (Z.land flags flag =? 0).

Record AttestedCredential : Type := {
  aaguid : list Z;
  credential_id : list Z;
  public_key : CredentialPublicKey;
  user_verified : bool;
  backup_eligible : bool;
  backup_state : bool;
  sign_count : Z
}.

Record AssertedAuthenticator : Type := {
  as_user_verified : bool;
  as_backup_eligible : bool;
  as_backup_state : bool;
  as_sign_count : Z
}.

Definition header (authenticator_data rp_id_hash : list Z) (uv : UserVerification)
    : Checked (Z * Z) AuthenticatorDataError :=
  if (length authenticator_data <? HEADER_LEN)%nat then bad Truncated
  else
    hash ← slice authenticator_data 0 32;
    if negb (bool_decide (hash = rp_id_hash)) then bad WrongRelyingParty
    else
      flags ← authenticator_data !! 32%nat;
      b33 ← authenticator_data !! 33%nat;
      b34 ← authenticator_data !! 34%nat;
      b35 ← authenticator_data !! 35%nat;
      b36 ← authenticator_data !! 36%nat;
      let sign_count := from_be_bytes [b33; b34; b35; b36] in
      if negb (flag_set flags FLAG_UP) then bad NoUserPresence
      else if bool_decide (uv = Required) && negb (flag_set flags FLAG_UV) then bad NoUserVerification
      else if flag_set flags FLAG_BS && negb (flag_set flags FLAG_BE) then bad InconsistentBackupFlags
      else good (flags, sign_count).

Definition verify_assertion_data (authenticator_data rp_id_hash : list Z) (uv : UserVerification)
    : Checked AssertedAuthenticator AuthenticatorDataError :=
  let* header := header authenticator_data rp_id_hash uv in
  let '(flags, sign_count) := header in
  good {| as_user_verified := flag_set flags FLAG_UV; as_backup_eligible := flag_set flags FLAG_BE;
          as_backup_state := flag_set flags FLAG_BS; as_sign_count := sign_count |}.

Definition verify_registration_data (from_reader : list Z -> option Value)
    (authenticator_data rp_id_hash : list Z) (uv : UserVerification)
    : Checked AttestedCredential AuthenticatorDataError :=
  let* header := header authenticator_data rp_id_hash uv in
  let '(flags, sign_count) := header in
  if negb (flag_set flags FLAG_AT) then bad NoAttestedCredentialData
  else
    rest ← slice_from authenticator_data HEADER_LEN;
    if (length rest <? 18)%nat then bad Truncated
    else
      aaguid ← slice rest 0 16;
      b16 ← rest !! 16%nat;
      b17 ← rest !! 17%nat;
      let id_len := from_be_bytes [b16; b17] in
      if MAX_CREDENTIAL_ID_LEN <? id_len then bad CredentialIdTooLong
      else
        let key_start := (18 + Z.to_nat id_len)%nat in
        if (length rest <? key_start)%nat then bad Truncated
        else
          credential_id ← slice rest 18 key_start;
          encoded ← slice_from rest key_start;
          match parse from_reader encoded with
          | Err e => bad (PublicKey e)
          | Ok public_key =>
              good {| aaguid := aaguid; credential_id := credential_id; public_key := public_key;
                      user_verified := flag_set flags FLAG_UV;
                      backup_eligible := flag_set flags FLAG_BE;
                      backup_state := flag_set flags FLAG_BS; sign_count := sign_count |}
          end.

(** ** The attestation object *)

Inductive AttestationError : Type := AttMalformed | UnsupportedFormat | NonEmptyStatement.
Record AttestationObject : Type := { authenticator_data : list Z }.

Definition member (map : list (Value * Value)) (name : string) : option Value :=
  snd <$> List.find (fun kv => bool_decide (as_text (fst kv) = Some name)) map.
Definition text (map : list (Value * Value)) (name : string) : option string :=
  member map name ≫= as_text.

(** [attestation::parse]. *)
Definition parse_attestation (from_reader : list Z -> option Value) (attestation_object : list Z)
    : result AttestationObject AttestationError :=
  let? value := ok_or (from_reader attestation_object) AttMalformed in
  let? map := ok_or (as_map value) AttMalformed in
  let? fmt := ok_or (text map "fmt") AttMalformed in
  if negb (String.eqb fmt "none") then Err UnsupportedFormat
  else
    let? statement := ok_or (member map "attStmt") AttMalformed in
    match as_map statement with
    | Some [] =>
        let? data := ok_or (member map "authData" ≫= as_bytes) AttMalformed in
        Ok {| authenticator_data := data |}
    | Some _ => Err NonEmptyStatement
    | None => Err AttMalformed
    end.

(** ** The two ceremonies *)

Inductive RegistrationError : Type :=
| RegClientData (e : ClientDataError)
| RegAttestation (e : AttestationError)
| RegAuthenticatorData (e : AuthenticatorDataError)
| AlgorithmNotOffered
| StaleChallenge.

Record Registration : Type := { credential : AttestedCredential; reg_origin : string }.

Inductive AssertionError : Type :=
| AssClientData (e : ClientDataError)
| AssAuthenticatorData (e : AuthenticatorDataError)
| AssSignature (e : SignatureError)
| SignCountRegressed (presented stored : Z).

Inductive SignCountPolicy : Type := Block | Allow.
#[export] Instance sign_count_policy_eq_dec : EqDecision SignCountPolicy.
Proof. solve_decision. Defined.

Inductive SignCount : Type :=
| NotSupported
| Advanced (count : Z)
| Regressed (presented stored : Z).

Record AssertionResponse : Type := {
  ar_client_data_json : list Z;
  ar_authenticator_data : list Z;
  ar_signature : list Z
}.

Record Assertion : Type := {
  origin : string;
  ass_user_verified : bool;
  ass_backup_eligible : bool;
  ass_backup_state : bool;
  ass_sign_count : SignCount
}.

Definition classify (presented stored : Z) : SignCount :=
  if (presented =? 0) && (stored =? 0) then NotSupported
  else if stored <? presented then Advanced presented
  else Regressed presented stored.

(** The error of a step in the error of its ceremony. *)
Definition lift {A E F} (f : E -> F) (r : result A E) : Checked A F := Some (map_err f r).
Definition clift {A E F} (f : E -> F) (m : Checked A E) : Checked A F := map_err f <$> m.

Section Ceremonies.
Variable sha256 : list Z -> list Z.
Variable from_slice : list Z -> option Parsed.
Variable base64_url : list Z -> string.
Variable from_reader : list Z -> option Value.
Variable ecdsa_p256_sha256_asn1 : list Z -> list Z -> list Z -> bool.
Variable ed25519 : list Z -> list Z -> list Z -> bool.
Variable rsa_pkcs1_2048_8192_sha256 : list Z * list Z -> list Z -> list Z -> bool.

(** [registration::verify]. *)
Definition verify_registration (rp : RelyingParty) (challenge : Challenge)
    (client_data_json attestation_object : list Z) (offered : list CoseAlgorithm)
    : Checked Registration RegistrationError :=
  let* client := lift RegClientData (verify_client_data from_slice base64_url client_data_json Create
                                       (challenge_bytes challenge) (rp_origins rp)) in
  let* envelope := lift RegAttestation (parse_attestation from_reader attestation_object) in
  let* credential := clift RegAuthenticatorData
                       (verify_registration_data from_reader (authenticator_data envelope)
                          (rp_id_hash rp) (rp_user_verification rp)) in
  if negb (existsb (fun a => bool_decide (a = algorithm (public_key credential))) offered)
  then bad AlgorithmNotOffered
  else good {| credential := credential; reg_origin := client_origin client |}.

(** [assertion::verify]. *)
Definition verify_assertion (rp : RelyingParty) (challenge : Challenge) (response : AssertionResponse)
    (key : CredentialPublicKey) (stored_sign_count : Z) (policy : SignCountPolicy)
    : Checked Assertion AssertionError :=
  let* client := lift AssClientData (verify_client_data from_slice base64_url
                                       (ar_client_data_json response) Get
                                       (challenge_bytes challenge) (rp_origins rp)) in
  let* asserted := clift AssAuthenticatorData
                     (verify_assertion_data (ar_authenticator_data response) (rp_id_hash rp)
                        (rp_user_verification rp)) in
  let signed := ar_authenticator_data response ++ sha256 (ar_client_data_json response) in
  let* _ := lift AssSignature
              (verify_signature from_reader ecdsa_p256_sha256_asn1 ed25519 rsa_pkcs1_2048_8192_sha256
                 key signed (ar_signature response)) in
  let count := classify (as_sign_count asserted) stored_sign_count in
  match count, policy with
  | Regressed presented stored, Block => bad (SignCountRegressed presented stored)
  | _, _ =>
      good {| origin := client_origin client; ass_user_verified := as_user_verified asserted;
              ass_backup_eligible := as_backup_eligible asserted;
              ass_backup_state := as_backup_state asserted; ass_sign_count := count |}
  end.
End Ceremonies.
