(* ===== verification/WebAuthnLaws.v ===== *)
(** * Laws of WebAuthn

    What the parsers of [WebAuthn] accept, for every byte string: the layouts they are
    documented to read and nothing else, without a panic; what an accepted ceremony
    proves; and where an accepted key is not one that can be used. *)

From S2P Require Import Prelude Text Bytes Codes WebAuthn.
Open Scope Z_scope.

Lemma cbind_good {A B E} (m : Checked A E) (k : A -> Checked B E) b :
  cbind m k = good b <-> exists a, m = good a /\ k a = good b.
Proof.
  unfold cbind, good, bad. destruct m as [[a|e]|]; cbn; split.
  - intros Hk. by exists a.
  - by intros (a' & [= <-] & Hk).
  - done.
  - by intros (a' & [=] & _).
  - done.
  - by intros (a' & [=] & _).
Qed.

Lemma cbind_total {A B E} (m : Checked A E) (k : A -> Checked B E) :
  is_Some m -> (forall a, is_Some (k a)) -> is_Some (cbind m k).
Proof. intros [[a|e] ->] Hk; cbn; [apply Hk|by eexists]. Qed.

Lemma lift_good {A E F} (f : E -> F) (r : result A E) a : lift f r = good a <-> r = Ok a.
Proof. unfold lift, good. destruct r; cbn; split; naive_solver. Qed.
Lemma clift_good {A E F} (f : E -> F) (m : Checked A E) a : clift f m = good a <-> m = good a.
Proof. unfold clift, good. destruct m as [[]|]; cbn; split; naive_solver. Qed.
Lemma lift_total {A E F} (f : E -> F) (r : result A E) : is_Some (lift f r).
Proof. by eexists. Qed.
Lemma clift_total {A E F} (f : E -> F) (m : Checked A E) : is_Some m -> is_Some (clift f m).
Proof. intros [r ->]. by eexists. Qed.

Create HintDb webauthn.
#[export] Hint Resolve lift_total clift_total : webauthn.

(** ** The header *)

Definition presence_ok (flags : Z) (uv : UserVerification) : Prop :=
  flag_set flags FLAG_UP = true /\ (uv = Required -> flag_set flags FLAG_UV = true) /\
  (flag_set flags FLAG_BS = true -> flag_set flags FLAG_BE = true).

Lemma header_bytes (ad : list Z) : (HEADER_LEN <= length ad)%nat ->
  exists h f b0 b1 b2 b3 tail, ad = h ++ f :: b0 :: b1 :: b2 :: b3 :: tail /\ length h = 32%nat.
Proof.
  unfold HEADER_LEN. intros Hl. destruct (split_at ad 32) as (h & r & -> & Hh); [lia|].
  rewrite length_app in Hl. destruct r as [|f [|b0 [|b1 [|b2 [|b3 tail]]]]]; cbn in Hl; try lia.
  by exists h, f, b0, b1, b2, b3, tail.
Qed.

Lemma header_layout h f b0 b1 b2 b3 tail hash uv : length h = 32%nat ->
  header (h ++ f :: b0 :: b1 :: b2 :: b3 :: tail) hash uv =
    if negb (bool_decide (h = hash)) then bad WrongRelyingParty
    else if negb (flag_set f FLAG_UP) then bad NoUserPresence
    else if bool_decide (uv = Required) && negb (flag_set f FLAG_UV) then bad NoUserVerification
    else if flag_set f FLAG_BS && negb (flag_set f FLAG_BE) then bad InconsistentBackupFlags
    else good (f, from_be_bytes [b0; b1; b2; b3]).
Proof.
  intros Hh. unfold header. rewrite length_app, Hh. cbn [length Nat.ltb].
  destruct (Nat.ltb_spec (32 + S (S (S (S (S (length tail)))))) HEADER_LEN) as [Hlt|_];
    [unfold HEADER_LEN in Hlt; lia|].
  unfold slice. cbn [Nat.leb]. rewrite length_app, Hh. cbn [length Nat.add Nat.leb andb Nat.sub].
  change (drop 0 ?l) with l. rewrite (take_app_length' h) by done. cbn [mbind option_bind].
  rewrite !lookup_app_r by lia. rewrite Hh. cbn. done.
Qed.

Lemma header_total ad hash uv : is_Some (header ad hash uv).
Proof.
  destruct (le_lt_dec HEADER_LEN (length ad)) as [Hl|Hl].
  - apply header_bytes in Hl as (h & f & b0 & b1 & b2 & b3 & tail & -> & Hh). rewrite header_layout by done.
    repeat case_match; by eexists.
  - unfold header. destruct (Nat.ltb_spec (length ad) HEADER_LEN); [by eexists|lia].
Qed.

Lemma header_good ad hash uv flags count :
  header ad hash uv = good (flags, count) <->
  exists b tail, ad = hash ++ flags :: b ++ tail /\ length hash = 32%nat /\ length b = 4%nat /\
    count = from_be_bytes b /\ presence_ok flags uv.
Proof.
  split.
  - intros Hg. destruct (le_lt_dec HEADER_LEN (length ad)) as [Hl|Hl].
    + apply header_bytes in Hl as (h & f & b0 & b1 & b2 & b3 & tail & -> & Hh).
      rewrite header_layout in Hg by done. unfold presence_ok.
      case_bool_decide as Eh; [subst h|done]. cbn [negb] in Hg.
      destruct (flag_set f FLAG_UP) eqn:E1; [|done]. cbn [negb] in Hg.
      destruct (bool_decide (uv = Required) && negb (flag_set f FLAG_UV)) eqn:E2; [done|].
      destruct (flag_set f FLAG_BS && negb (flag_set f FLAG_BE)) eqn:E3; [done|].
      injection Hg as <- <-. exists [b0; b1; b2; b3], tail. split_and!; try done.
      * intros ->. rewrite bool_decide_true in E2 by done. by destruct (flag_set f FLAG_UV).
      * intros Hs. rewrite Hs in E3. by destruct (flag_set f FLAG_BE).
    + unfold header in Hg. destruct (Nat.ltb_spec (length ad) HEADER_LEN); [done|lia].
  - intros (b & tail & -> & Hh & Hb & -> & Hu & Hv & Hs).
    destruct b as [|b0 [|b1 [|b2 [|b3 [|]]]]]; try done. cbn [app].
    rewrite header_layout by done. rewrite bool_decide_true by done. cbn [negb]. rewrite Hu. cbn [negb].
    case_bool_decide as Ev; [rewrite (Hv Ev)|]; cbn [andb negb];
      (destruct (flag_set flags FLAG_BS); [rewrite Hs by done|]; done).
Qed.

(** ** Attested credential data *)

Section Layout.
Variable from_reader : list Z -> option Value.

(** The part of [verify_registration_data] after the header. *)
Definition attested_rest (rest : list Z) (flags count : Z) : Checked AttestedCredential AuthenticatorDataError :=
  if (length rest <? 18)%nat then bad Truncated
  else
    aaguid ← slice rest 0 16;
    b16 ← rest !! 16%nat;
    b17 ← rest !! 17%nat;
    let id_len := from_be_bytes [b16; b17] in
    if MAX_CREDENTIAL_ID_LEN <? id_len then bad CredentialIdTooLong
    else
      let key_start := (18 + Z.to_nat id_len)%nat in
      if (length rest <? key_start)%nat then bad Truncated
      else
        id ← slice rest 18 key_start;
        encoded ← slice_from rest key_start;
        match parse from_reader encoded with
        | Err e => bad (PublicKey e)
        | Ok key =>
            good {| aaguid := aaguid; credential_id := id; public_key := key;
                    user_verified := flag_set flags FLAG_UV; backup_eligible := flag_set flags FLAG_BE;
                    backup_state := flag_set flags FLAG_BS; sign_count := count |}
        end.

Lemma rest_bytes (rest : list Z) : (18 <= length rest)%nat ->
  exists a b16 b17 tail, rest = a ++ b16 :: b17 :: tail /\ length a = 16%nat.
Proof.
  intros Hl. destruct (split_at rest 16) as (a & r & -> & Ha); [lia|].
  rewrite length_app in Hl. destruct r as [|b16 [|b17 tail]]; cbn in Hl; try lia. by exists a, b16, b17, tail.
Qed.

Lemma rest_layout a b16 b17 tail flags count : length a = 16%nat ->
  attested_rest (a ++ b16 :: b17 :: tail) flags count =
    let id_len := from_be_bytes [b16; b17] in
    if MAX_CREDENTIAL_ID_LEN <? id_len then bad CredentialIdTooLong
    else if (length tail <? Z.to_nat id_len)%nat then bad Truncated
    else match parse from_reader (drop (Z.to_nat id_len) tail) with
         | Err e => bad (PublicKey e)
         | Ok key =>
             good {| aaguid := a; credential_id := take (Z.to_nat id_len) tail; public_key := key;
                     user_verified := flag_set flags FLAG_UV; backup_eligible := flag_set flags FLAG_BE;
                     backup_state := flag_set flags FLAG_BS; sign_count := count |}
         end.
Proof.
  intros Ha. unfold attested_rest.
  assert (Hl : length (a ++ b16 :: b17 :: tail) = (18 + length tail)%nat)
    by (rewrite length_app, Ha; cbn [length]; lia).
  rewrite Hl. destruct (Nat.ltb_spec (18 + length tail) 18); [lia|].
  rewrite slice_Some by (rewrite Hl; lia). change (drop 0 ?l) with l.
  rewrite (take_app_length' a) by done. cbn [mbind option_bind].
  rewrite !lookup_app_r by lia. rewrite Ha.
  change ((b16 :: b17 :: tail) !! (16 - 16)%nat) with (Some b16).
  change ((b16 :: b17 :: tail) !! (17 - 16)%nat) with (Some b17). cbn [mbind option_bind]. cbn zeta.
  destruct (MAX_CREDENTIAL_ID_LEN <? from_be_bytes [b16; b17]); [done|].
  set (n := Z.to_nat (from_be_bytes [b16; b17])).
  destruct (Nat.ltb_spec (18 + length tail) (18 + n)), (Nat.ltb_spec (length tail) n); try lia; [done|].
  rewrite slice_Some, slice_from_Some by (rewrite Hl; lia). cbn [mbind option_bind].
  assert (Hd : forall k, drop (18 + k) (a ++ b16 :: b17 :: tail) = drop k tail).
  { intros k. rewrite drop_app_ge by lia. rewrite Ha.
    replace (18 + k - 16)%nat with (S (S k)) by lia. done. }
  rewrite (Hd n : drop (18 + n) _ = _), (Hd 0%nat : drop 18 _ = _).
  replace (18 + n - 18)%nat with n by lia. done.
Qed.

Lemma registration_data_rest ad hash uv :
  verify_registration_data from_reader ad hash uv =
    (let* fc := header ad hash uv in
     let '(flags, count) := fc in
     if negb (flag_set flags FLAG_AT) then bad NoAttestedCredentialData
     else rest ← slice_from ad HEADER_LEN; attested_rest rest flags count).
Proof. done. Qed.

Lemma rest_total rest flags count : is_Some (attested_rest rest flags count).
Proof.
  destruct (le_lt_dec 18 (length rest)) as [Hl|Hl].
  - apply rest_bytes in Hl as (a & b16 & b17 & tail & -> & Ha). rewrite rest_layout by done. cbn zeta.
    repeat case_match; by eexists.
  - unfold attested_rest. destruct (Nat.ltb_spec (length rest) 18); [by eexists|lia].
Qed.

(** The structures the specification draws. *)
Definition layout (hash : list Z) (flags count : Z) (tail : list Z) : list Z :=
  hash ++ flags :: be_bytes 4 count ++ tail.
Definition attested (c : AttestedCredential) : list Z :=
  aaguid c ++ be_bytes 2 (Z.of_nat (length (credential_id c))) ++ credential_id c
  ++ encoded (public_key c).

Lemma parse_encoded e k : parse from_reader e = Ok k -> encoded k = e.
Proof.
  unfold parse. intros H. repeat (apply rbind_Ok in H as (? & _ & H)). by injection H as <-.
Qed.

Lemma rest_good rest flags count c : Forall is_byte rest ->
  attested_rest rest flags count = good c <->
  rest = attested c /\ length (aaguid c) = 16%nat /\ (length (credential_id c) <= 1023)%nat /\
  parse from_reader (encoded (public_key c)) = Ok (public_key c) /\
  user_verified c = flag_set flags FLAG_UV /\ backup_eligible c = flag_set flags FLAG_BE /\
  backup_state c = flag_set flags FLAG_BS /\ sign_count c = count.
Proof.
  intros Hb. split.
  - intros Hg. destruct (le_lt_dec 18 (length rest)) as [Hl|Hl];
      [|unfold attested_rest in Hg; destruct (Nat.ltb_spec (length rest) 18); [done|lia]].
    apply rest_bytes in Hl as (a & b16 & b17 & tail & -> & Ha). rewrite rest_layout in Hg by done.
    cbn zeta in Hg. apply Forall_app in Hb as [_ Hb]. apply Forall_cons in Hb as [H16 Hb].
    apply Forall_cons in Hb as [H17 Ht].
    assert (H2 : Forall is_byte [b16; b17]) by (repeat constructor; apply H16 || apply H17).
    pose proof (from_be_range _ H2) as Hr. pose proof (to_from_be _ H2) as Hto.
    destruct (Z.ltb_spec MAX_CREDENTIAL_ID_LEN (from_be_bytes [b16; b17])) as [|Hmax]; [done|].
    set (n := from_be_bytes [b16; b17]) in *. unfold MAX_CREDENTIAL_ID_LEN in Hmax.
    destruct (Nat.ltb_spec (length tail) (Z.to_nat n)); [done|].
    destruct (parse from_reader (drop (Z.to_nat n) tail)) as [key|] eqn:Hp; [|done].
    injection Hg as <-. unfold attested. cbn [aaguid credential_id public_key sign_count].
    pose proof (parse_encoded _ _ Hp) as He.
    rewrite length_take_le by lia. rewrite Z2Nat.id by lia. cbn [length] in Hto.
    rewrite Hto, He. split_and!; try done; try lia. cbn [app]. by rewrite take_drop.
  - destruct c as [a id key uv' be bs sc]. unfold attested.
    cbn [aaguid credential_id public_key user_verified backup_eligible backup_state sign_count].
    intros (-> & Ha & Hid & Hp & -> & -> & -> & ->).
    pose proof (be_bytes_length 2 (Z.of_nat (length id))) as H2.
    pose proof (from_to_be 2 (Z.of_nat (length id)) ltac:(lia)) as Hn.
    destruct (be_bytes 2 (Z.of_nat (length id))) as [|b16 [|b17 [|]]]; try done.
    cbn [app]. rewrite rest_layout by done. cbn zeta. rewrite Hn, Nat2Z.id. unfold MAX_CREDENTIAL_ID_LEN.
    destruct (Z.ltb_spec 1023 (Z.of_nat (length id))); [lia|].
    destruct (Nat.ltb_spec (length (id ++ encoded key)) (length id)) as [Hlt|_];
      [rewrite length_app in Hlt; lia|].
    by rewrite drop_app_length, take_app_length, Hp.
Qed.
End Layout.

Lemma layout_bytes hash flags count tail :
  Forall is_byte (layout hash flags count tail) -> Forall is_byte tail.
Proof. unfold layout. intros [_ [_ [_ Ht]%Forall_app]%Forall_cons]%Forall_app. done. Qed.

Lemma header_of_layout ad hash uv flags count : Forall is_byte ad ->
  header ad hash uv = good (flags, count) <->
  exists tail, ad = layout hash flags count tail /\ length hash = 32%nat /\ 0 <= count < 2 ^ 32 /\
    presence_ok flags uv.
Proof.
  intros Hb. rewrite header_good. unfold layout. split.
  - intros (b & tail & -> & Hh & Hl & -> & Hp). exists tail.
    assert (H4 : Forall is_byte b).
    { apply Forall_app in Hb as [_ [_ [Hb _]%Forall_app]%Forall_cons]. done. }
    pose proof (from_be_range _ H4) as Hr. pose proof (to_from_be _ H4) as Ht. rewrite Hl in Hr, Ht.
    rewrite Ht. done.
  - intros (tail & -> & Hh & Hc & Hp). exists (be_bytes 4 count), tail.
    rewrite be_bytes_length, from_to_be by lia. done.
Qed.

Lemma slice_from_layout hash flags count tail : length hash = 32%nat ->
  slice_from (layout hash flags count tail) HEADER_LEN = Some tail.
Proof.
  intros Hh. pose proof (be_bytes_length 4 count) as Hl. unfold layout, HEADER_LEN.
  rewrite slice_from_Some by (rewrite length_app; cbn [length]; rewrite length_app; lia).
  f_equal. rewrite drop_app_ge by lia. rewrite Hh. cbn [Nat.sub drop]. by rewrite drop_app_length' by done.
Qed.

Lemma assertion_data_total ad hash uv : is_Some (verify_assertion_data ad hash uv).
Proof. apply cbind_total; [apply header_total|]. intros [flags count]. by eexists. Qed.

Lemma registration_data_total (from_reader : list Z -> option Value) ad hash uv :
  is_Some (verify_registration_data from_reader ad hash uv).
Proof.
  rewrite registration_data_rest.
  destruct (header ad hash uv) as [[[flags count]|e]|] eqn:Hh; [| by eexists
    | by destruct (header_total ad hash uv) as [x Hx]; rewrite Hh in Hx].
  cbn. destruct (flag_set flags FLAG_AT); [|by eexists]. cbn [negb].
  apply header_good in Hh as (b & tail & -> & Hl & H4 & _).
  rewrite slice_from_Some by (rewrite length_app; cbn [length]; rewrite length_app; unfold HEADER_LEN; lia).
  apply rest_total.
Qed.

#[export] Hint Resolve assertion_data_total registration_data_total : webauthn.

(** No byte string makes the readers of authenticator data index out of bounds: both
    ceremonies return, with a value or an error, whatever a browser sends. *)
Theorem authenticator_data_never_panics (from_reader : list Z -> option Value) ad hash uv :
  is_Some (verify_assertion_data ad hash uv) /\ is_Some (verify_registration_data from_reader ad hash uv).
Proof. auto with webauthn. Qed.

(** Registration data is accepted exactly when it is the structure of the
    specification - hash, flags, counter, model, length, id, key - for this relying party
    with the flags it asks for, and what is reported are those fields: the key is all the
    bytes after the id. *)
Theorem registration_data_exact (from_reader : list Z -> option Value) ad hash uv c :
  Forall is_byte ad ->
  verify_registration_data from_reader ad hash uv = good c <->
  exists flags,
    ad = layout hash flags (sign_count c) (attested c) /\
    length hash = 32%nat /\ length (aaguid c) = 16%nat /\ (length (credential_id c) <= 1023)%nat /\
    0 <= sign_count c < 2 ^ 32 /\ presence_ok flags uv /\ flag_set flags FLAG_AT = true /\
    parse from_reader (encoded (public_key c)) = Ok (public_key c) /\
    user_verified c = flag_set flags FLAG_UV /\ backup_eligible c = flag_set flags FLAG_BE /\
    backup_state c = flag_set flags FLAG_BS.
Proof.
  intros Hb. rewrite registration_data_rest, cbind_good. split.
  - intros ([flags count] & Hh & Hg). apply (header_of_layout _ _ _ _ _ Hb) in Hh as (tail & -> & Hl & Hc & Hp).
    destruct (flag_set flags FLAG_AT) eqn:Ha; [|done]. cbn [negb] in Hg.
    rewrite slice_from_layout in Hg by done. cbn [mbind option_bind] in Hg.
    apply layout_bytes in Hb. apply (rest_good _ _ _ _ _ Hb) in Hg as (-> & H16 & Hid & Hk & Hv & He & Hs & <-).
    exists flags. done.
  - intros (flags & -> & Hl & H16 & Hid & Hc & Hp & Ha & Hk & Hv & He & Hs).
    exists (flags, sign_count c). split; [apply header_of_layout; [done|by eexists]|].
    rewrite Ha. cbn [negb]. rewrite slice_from_layout by done. cbn [mbind option_bind].
    apply layout_bytes in Hb. by apply rest_good.
Qed.

Lemma assertion_data_good ad hash uv a :
  verify_assertion_data ad hash uv = good a <->
  exists flags b tail, ad = hash ++ flags :: b ++ tail /\ length hash = 32%nat /\ length b = 4%nat /\
    presence_ok flags uv /\
    a = {| as_user_verified := flag_set flags FLAG_UV; as_backup_eligible := flag_set flags FLAG_BE;
           as_backup_state := flag_set flags FLAG_BS; as_sign_count := from_be_bytes b |}.
Proof.
  unfold verify_assertion_data. rewrite cbind_good. split.
  - intros ([flags count] & Hh & Hg). apply header_good in Hh as (b & tail & -> & Hl & H4 & -> & Hp).
    injection Hg as <-. by exists flags, b, tail.
  - intros (flags & b & tail & -> & Hl & H4 & Hp & ->). exists (flags, from_be_bytes b).
    split; [|done]. apply header_good. by exists b, tail.
Qed.

(** ** Keys *)

Section Keys.
Variable from_reader : list Z -> option Value.
Variable ecdsa_p256_sha256_asn1 : list Z -> list Z -> list Z -> bool.
Variable ed25519 : list Z -> list Z -> list Z -> bool.
Variable rsa_pkcs1_2048_8192_sha256 : list Z * list Z -> list Z -> list Z -> bool.
Abbreviation verify_signature' :=
  (verify_signature from_reader ecdsa_p256_sha256_asn1 ed25519 rsa_pkcs1_2048_8192_sha256).

Lemma parse_iff e k :
  parse from_reader e = Ok k <->
  exists map kty alg, from_reader e = Some (Map map) /\ integer map 1 = Some kty /\
    integer map 3 = Some alg /\ CoseAlgorithm.from_value alg = Some (algorithm k) /\
    check_key map kty (algorithm k) = Ok tt /\ encoded k = e.
Proof.
  unfold parse. split.
  - intros H. apply rbind_Ok in H as (v & Hv & H). apply ok_or_Ok in Hv.
    apply rbind_Ok in H as (map & Hm & H). apply ok_or_Ok in Hm. destruct v as [| | |m|]; try done.
    injection Hm as ->. apply rbind_Ok in H as (kty & Hk & H). apply ok_or_Ok in Hk.
    apply rbind_Ok in H as (alg & Ha & H). apply ok_or_Ok in Ha.
    apply rbind_Ok in H as (a & Hf & H). apply ok_or_Ok in Hf.
    apply rbind_Ok in H as ([] & Hc & H). injection H as <-. by exists map, kty, alg.
  - intros (map & kty & alg & Hv & Hk & Ha & Hf & Hc & <-). rewrite Hv. cbn. rewrite Hk. cbn. rewrite Ha.
    cbn. rewrite Hf. cbn. rewrite Hc. cbn. by destruct k.
Qed.

Lemma expect_len_Ok map label len :
  expect_len map label len = Ok tt <-> exists b, bytes map label = Some b /\ length b = len.
Proof.
  unfold expect_len. destruct (bytes map label) as [b|]; [|naive_solver].
  destruct (Nat.eqb_spec (length b) len); naive_solver.
Qed.

(** What a key's map holds for the verifier of its algorithm. *)
Definition loads (map : list (Value * Value)) (a : CoseAlgorithm) : Prop :=
  match a with
  | Es256 => exists x y, bytes map (-2) = Some x /\ length x = 32%nat /\ bytes map (-3) = Some y /\ length y = 32%nat
  | EdDsa => exists x, bytes map (-2) = Some x /\ length x = 32%nat
  | Rs256 => exists n e, bytes map (-1) = Some n /\ (256 <= length n)%nat /\ bytes map (-2) = Some e
  end.

Lemma check_key_loads map kty a : check_key map kty a = Ok tt -> loads map a.
Proof.
  destruct a; cbn [check_key loads].
  - do 2 (destruct (negb _); [done|]). intros H. apply rbind_Ok in H as ([] & Hx & Hy).
    apply expect_len_Ok in Hx as (x & Hx & Hl). apply expect_len_Ok in Hy as (y & Hy & Hl').
    by exists x, y.
  - do 2 (destruct (negb _); [done|]). intros (x & Hx & Hl)%expect_len_Ok. by exists x.
  - destruct (negb _); [done|]. intros H. apply rbind_Ok in H as (n & Hn & H). apply ok_or_Ok in Hn.
    destruct (Nat.ltb_spec (length n) 256); [done|]. apply rbind_Ok in H as (e & He & _).
    apply ok_or_Ok in He. by exists n, e.
Qed.

Lemma array_Some len b : length b = len -> array len b = Some b.
Proof. intros <-. unfold array. by rewrite Nat.eqb_refl. Qed.

(** A key that registration accepts always loads: whatever is signed, its verification
    is the primitive's answer on the components of that key, never [UnusableKey]. *)
Theorem accepted_key_loads e k message signature :
  parse from_reader e = Ok k -> verify_signature' k message signature <> Err UnusableKey.
Proof.
  intros (map & kty & alg & Hv & _ & _ & _ & Hc & He)%parse_iff. apply check_key_loads in Hc.
  unfold verify_signature, verified. rewrite He.
  destruct (algorithm k); cbn [loads] in Hc;
    unfold ec2_coordinates, okp_public_key, rsa_components; rewrite Hv; cbn [mbind option_bind as_map].
  - destruct Hc as (x & y & Hx & Hl & Hy & Hl'). rewrite Hx, Hy. cbn [mbind option_bind].
    rewrite !array_Some by done. cbn. by case_match.
  - destruct Hc as (x & Hx & Hl). rewrite Hx. cbn [mbind option_bind]. rewrite array_Some by done. cbn.
    by case_match.
  - destruct Hc as (n & e' & Hn & _ & He'). rewrite Hn, He'. cbn. by case_match.
Qed.

(** Registration can accept a key no assertion will ever verify with. The floor on an RSA
    modulus is in bytes, leading zeros included: 256 of them holding a short modulus pass
    it, and the verifier, whose floor is in bits, refuses every signature. *)
Theorem accepted_key_may_never_verify e map n x message signature :
  (forall n x m s, from_be_bytes n < 2 ^ 2047 -> rsa_pkcs1_2048_8192_sha256 (n, x) m s = false) ->
  from_reader e = Some (Map map) -> integer map 1 = Some KTY_RSA -> integer map 3 = Some (-257) ->
  bytes map (-1) = Some n -> bytes map (-2) = Some x -> length n = 256%nat -> from_be_bytes n < 2 ^ 2047 ->
  exists k, parse from_reader e = Ok k /\ verify_signature' k message signature = Err BadSignature.
Proof.
  intros Hshort Hv Hkty Halg Hn Hx Hl Hs.
  exists {| algorithm := Rs256; encoded := e |}. split.
  - apply parse_iff. exists map, KTY_RSA, (-257). split_and!; try done.
    cbn [algorithm check_key]. rewrite Z.eqb_refl. cbn [negb]. rewrite Hn. cbn [ok_or rbind].
    rewrite Hl, Hx. done.
  - unfold verify_signature. cbn [algorithm encoded]. unfold rsa_components. rewrite Hv.
    cbn [mbind option_bind as_map]. rewrite Hn, Hx. cbn [mbind option_bind ok_or rbind].
    by rewrite Hshort.
Qed.

(** The key that is stored is not only the key: the reader stops at the end of the first
    item, so whatever follows it - extensions, or anything - is accepted, kept as part of
    the key and verifies the same signatures. One key has as many spellings as there are
    byte strings. *)
Theorem accepted_key_keeps_what_follows e k tail message signature :
  (forall b t v, from_reader b = Some v -> from_reader (b ++ t) = Some v) ->
  parse from_reader e = Ok k ->
  exists k', parse from_reader (e ++ tail) = Ok k' /\ encoded k' = encoded k ++ tail /\
    algorithm k' = algorithm k /\
    verify_signature' k' message signature = verify_signature' k message signature.
Proof.
  intros Hfirst (map & kty & alg & Hv & Hk & Ha & Hf & Hc & He)%parse_iff.
  exists {| algorithm := algorithm k; encoded := e ++ tail |}. cbn [encoded algorithm].
  assert (Hv' : from_reader (e ++ tail) = Some (Map map)) by (by apply Hfirst).
  split_and!; [apply parse_iff; by exists map, kty, alg|by rewrite He|done|].
  unfold verify_signature. cbn [algorithm encoded]. rewrite He.
  unfold ec2_coordinates, okp_public_key, rsa_components. by rewrite Hv, Hv'.
Qed.
End Keys.

(** ** Ceremonies *)

Section Ceremonies.
Variable sha256 : list Z -> list Z.
Variable from_slice : list Z -> option Parsed.
Variable base64_url : list Z -> string.
Variable from_reader : list Z -> option Value.
Variable ecdsa_p256_sha256_asn1 : list Z -> list Z -> list Z -> bool.
Variable ed25519 : list Z -> list Z -> list Z -> bool.
Variable rsa_pkcs1_2048_8192_sha256 : list Z * list Z -> list Z -> list Z -> bool.
Abbreviation signature_ok key message signature :=
  (verify_signature from_reader ecdsa_p256_sha256_asn1 ed25519 rsa_pkcs1_2048_8192_sha256
     key message signature = Ok tt).
Abbreviation assert' := (verify_assertion sha256 from_slice base64_url from_reader ecdsa_p256_sha256_asn1
  ed25519 rsa_pkcs1_2048_8192_sha256).
Abbreviation register' := (verify_registration from_slice base64_url from_reader).

(** What a browser's account must say. *)
Definition client_says (json : list Z) (c : Ceremony) (challenge : list Z) (origins : list string)
    (origin : string) : Prop :=
  from_slice json = Some {| p_ceremony := Ceremony.as_str c; p_challenge := base64_url challenge;
                            p_origin := origin; p_cross_origin := false |} /\ In origin origins.

Lemma client_data_iff json c challenge origins d :
  verify_client_data from_slice base64_url json c challenge origins = Ok d <->
  client_says json c challenge origins (client_origin d).
Proof.
  unfold verify_client_data, client_says. split.
  - destruct (from_slice json) as [p|]; [|done].
    destruct (String.eqb_spec (p_ceremony p) (Ceremony.as_str c)) as [Hc|]; [|done]. cbn [negb].
    destruct (ct_eq _ _) eqn:Hch; [|done]. apply ct_eq_strings in Hch. cbn [negb].
    destruct (p_cross_origin p) eqn:Hx; [done|].
    destruct (in_strings (p_origin p) origins) eqn:Ho; [|done]. cbn [negb]. intros [= <-]. cbn.
    split; [|by apply in_strings_In]. destruct p; cbn in *. by subst.
  - intros [-> Ho]. cbn. rewrite String.eqb_refl. cbn [negb].
    rewrite (proj2 (ct_eq_strings _ _)) by done. cbn [negb].
    rewrite (proj2 (in_strings_In _ _)) by done. by destruct d.
Qed.

(** Policy on a counter. *)
Definition counter_ok (policy : SignCountPolicy) (presented stored : Z) : Prop :=
  policy = Block -> presented = 0 /\ stored = 0 \/ stored < presented.

Lemma classify_Block presented stored :
  counter_ok Block presented stored <->
  (presented = 0 /\ stored = 0 /\ classify presented stored = NotSupported \/
   stored < presented /\ (presented <> 0 \/ stored <> 0) /\ classify presented stored = Advanced presented).
Proof.
  unfold counter_ok, classify. destruct (Z.eqb_spec presented 0), (Z.eqb_spec stored 0);
    cbn [andb]; destruct (Z.ltb_spec stored presented); naive_solver lia.
Qed.

Lemma classify_Regressed presented stored p s :
  classify presented stored = Regressed p s -> ~ counter_ok Block presented stored.
Proof. intros Hc [(_ & _ & Hn)|(_ & _ & Hn)]%classify_Block; congruence. Qed.

Lemma classify_moves presented stored :
  (forall p s, classify presented stored <> Regressed p s) ->
  presented = 0 /\ stored = 0 \/ stored < presented.
Proof.
  unfold classify. intros Hn. destruct (Z.eqb_spec presented 0), (Z.eqb_spec stored 0); cbn [andb] in Hn;
    [by left|..]; right; destruct (Z.ltb_spec stored presented); try done; by destruct (Hn presented stored).
Qed.

(** C30: An assertion is accepted exactly when the browser says it answered this challenge, by
    [get], at an origin of this relying party and not inside another's page; the
    authenticator's bytes are for its id, with the presence and verification it asks for;
    the stored key signed those bytes followed by the hash of the browser's; and, where
    policy is to block, the counter moved or neither side counts. *)
Theorem assertion_proves_possession rp challenge response key stored policy a :
  assert' rp challenge response key stored policy = good a <->
  exists flags count tail,
    client_says (ar_client_data_json response) Get (challenge_bytes challenge) (rp_origins rp) (origin a) /\
    ar_authenticator_data response = rp_id_hash rp ++ flags :: count ++ tail /\
    length (rp_id_hash rp) = 32%nat /\ length count = 4%nat /\ presence_ok flags (rp_user_verification rp) /\
    signature_ok key (ar_authenticator_data response ++ sha256 (ar_client_data_json response))
      (ar_signature response) /\
    counter_ok policy (from_be_bytes count) stored /\
    ass_sign_count a = classify (from_be_bytes count) stored /\
    ass_user_verified a = flag_set flags FLAG_UV /\ ass_backup_eligible a = flag_set flags FLAG_BE /\
    ass_backup_state a = flag_set flags FLAG_BS.
Proof.
  unfold verify_assertion. rewrite cbind_good. setoid_rewrite lift_good. setoid_rewrite client_data_iff.
  setoid_rewrite cbind_good. setoid_rewrite clift_good. setoid_rewrite assertion_data_good.
  setoid_rewrite cbind_good. setoid_rewrite lift_good. split.
  - intros (client & Hc & asserted & (flags & b & tail & Had & Hl & H4 & Hp & ->) & [] & Hs & Hg).
    cbn [as_sign_count as_user_verified as_backup_eligible as_backup_state] in Hg.
    exists flags, b, tail. assert (Hok : counter_ok policy (from_be_bytes b) stored).
    { intros ->. apply classify_moves. intros p s Hr. by rewrite Hr in Hg. }
    destruct (classify (from_be_bytes b) stored) as [|c|p s] eqn:Hk; [..|destruct policy; [done|]];
      injection Hg as <-; cbn; rewrite ?Hk; split_and!; done.
  - intros (flags & b & tail & Hc & Had & Hl & H4 & Hp & Hs & Hok & Hn & Hv & He & Hb).
    exists {| client_origin := origin a |}. split; [done|].
    eexists. split; [by exists flags, b, tail|]. exists tt. split; [done|].
    cbn [as_sign_count as_user_verified as_backup_eligible as_backup_state client_origin].
    destruct a as [o v e s n]; cbn in *; subst.
    destruct (classify (from_be_bytes b) stored) as [|c|p s] eqn:Hk; try done.
    destruct policy; [|done]. exfalso. by apply (classify_Regressed _ _ _ _ Hk).
Qed.

Lemma attestation_iff object e :
  parse_attestation from_reader object = Ok e <->
  exists map, from_reader object = Some (Map map) /\ text map "fmt" = Some "none"%string /\
    member map "attStmt" = Some (Map []) /\ member map "authData" = Some (Bytes (authenticator_data e)).
Proof.
  unfold parse_attestation. split.
  - intros H. apply rbind_Ok in H as (v & Hv & H). apply ok_or_Ok in Hv.
    apply rbind_Ok in H as (map & Hm & H). apply ok_or_Ok in Hm. destruct v as [| | |m|]; try done.
    injection Hm as ->. apply rbind_Ok in H as (fmt & Hf & H). apply ok_or_Ok in Hf.
    destruct (String.eqb_spec fmt "none") as [->|]; [|done]. cbn [negb] in H.
    apply rbind_Ok in H as (st & Hs & H). apply ok_or_Ok in Hs.
    destruct st as [| | |[|]|]; try done. cbn [as_map] in H.
    apply rbind_Ok in H as (d & Hd & H). apply ok_or_Ok in Hd. injection H as <-.
    exists map. split_and!; try done. cbn [authenticator_data]. destruct (member map "authData") as [w|]; [|done].
    destruct w; try done. cbn in Hd. by injection Hd as ->.
  - intros (map & Hv & Hf & Hs & Hd). rewrite Hv. cbn [ok_or rbind as_map]. rewrite Hf. cbn [ok_or rbind].
    rewrite String.eqb_refl. cbn [negb]. rewrite Hs. cbn [ok_or rbind as_map]. rewrite Hd. by destruct e.
Qed.

(** A registration is accepted exactly when the browser says it answered this challenge,
    by [create], at an origin of this relying party; the envelope claims no attestation;
    and the data inside it is accepted for this relying party, with a key of an offered
    algorithm. What it reports are that credential and that origin. *)
Theorem registration_accepts rp challenge json object offered r :
  register' rp challenge json object offered = good r <->
  client_says json Create (challenge_bytes challenge) (rp_origins rp) (reg_origin r) /\
  exists map ad,
    from_reader object = Some (Map map) /\ text map "fmt" = Some "none"%string /\
    member map "attStmt" = Some (Map []) /\ member map "authData" = Some (Bytes ad) /\
    verify_registration_data from_reader ad (rp_id_hash rp) (rp_user_verification rp) = good (credential r) /\
    In (algorithm (public_key (credential r))) offered.
Proof.
  unfold verify_registration. generalize (verify_registration_data from_reader) as data. intros data.
  rewrite cbind_good. setoid_rewrite lift_good. setoid_rewrite client_data_iff.
  setoid_rewrite cbind_good. setoid_rewrite lift_good. setoid_rewrite attestation_iff.
  setoid_rewrite cbind_good. setoid_rewrite clift_good.
  assert (Ho : forall a, existsb (fun b => bool_decide (b = a)) offered = true <-> In a offered).
  { intros a. rewrite existsb_exists. split.
    - intros (b & Hb & <-%bool_decide_eq_true). done.
    - intros Ha. exists a. by rewrite bool_decide_true. }
  split.
  - intros (client & Hc & e & (map & Hv & Hf & Hs & Hd) & c & Hg & H).
    destruct (existsb _ offered) eqn:He; [|done]. apply Ho in He. injection H as <-.
    split; [done|]. by exists map, (authenticator_data e).
  - intros (Hc & map & ad & Hv & Hf & Hs & Hd & Hg & Hin). exists {| client_origin := reg_origin r |}.
    split; [done|]. exists {| authenticator_data := ad |}. split; [by exists map|].
    exists (credential r). split; [done|]. rewrite (proj2 (Ho _) Hin). by destruct r.
Qed.

(** What a browser signed for one ceremony is refused by the other, before anything else
    of it is read; and no bytes make either ceremony panic. *)
Theorem ceremonies_apart rp rp' challenge challenge' json object offered response key stored policy :
  is_Some (register' rp challenge json object offered) /\
  is_Some (assert' rp' challenge' response key stored policy) /\
  (ar_client_data_json response = json -> forall a,
     assert' rp' challenge' response key stored policy = good a ->
     register' rp challenge json object offered = bad (RegClientData WrongCeremony)).
Proof.
  split_and!.
  - do 3 (apply cbind_total; [auto with webauthn|intros ?]). destruct (negb _); by eexists.
  - do 3 (apply cbind_total; [auto with webauthn|intros ?]). destruct (classify _ _), policy; by eexists.
  - intros <- a Hg. unfold verify_assertion in Hg. apply cbind_good in Hg as (client & Hc & _).
    apply lift_good, client_data_iff in Hc as [Hs _]. unfold verify_registration, verify_client_data. by rewrite Hs.
Qed.
End Ceremonies.

(** ** The relying party *)

Lemma append_skip n s : (n <= String.length s)%nat ->
  exists p, s = (p ++ skip n s)%string /\ String.length p = n.
Proof.
  revert s. induction n as [|n IH]; intros s Hl; [exists ""%string; by destruct s|].
  destruct s as [|c s]; cbn in Hl; [lia|]. destruct (IH s) as (p & Hp & Hn); [lia|].
  exists (String.String c p). split; [exact (f_equal (String.String c) Hp)|cbn; by rewrite Hn].
Qed.

Lemma before_colon_app s : exists port, s = (before_colon s ++ port)%string /\
  (port = ""%string \/ exists r, port = (":" ++ r)%string).
Proof.
  induction s as [|c s (port & Hs & Hp)]; [exists ""%string; split; [done|by left]|]. cbn.
  destruct (Ascii.eqb_spec c ":"%char) as [->|]; [exists (String.String ":" s); split; [done|right; by exists s]|].
  exists port. split; [exact (f_equal (String.String c) Hs)|done].
Qed.

Lemma skip_append p s : skip (String.length p) (p ++ s) = s.
Proof. induction p; cbn; [by destruct s|done]. Qed.

(** The hosts at which a browser allows a credential scoped to [id]. *)
Definition in_scope (id host : string) : Prop := host = id \/ exists sub, host = (sub ++ "." ++ id)%string.

(** Whatever a tenant's issuer and own host are, the relying party described for it has the
    issuer's host for id, asks for user verification, and accepts ceremonies only at https
    origins, with no path, of that host or a host below it: never where a browser would not
    allow the credential, and always at the issuer itself. *)
Theorem relying_party_in_scope sha256 authority custom_host rp :
  relying_party sha256 authority custom_host = Ok rp ->
  rp_id rp = before_colon authority /\ rp_id rp <> ""%string /\
  rp_id_hash rp = sha256 (bytes_of (rp_id rp)) /\ rp_user_verification rp = Required /\
  In ("https://" ++ authority)%string (rp_origins rp) /\
  forall origin, In origin (rp_origins rp) ->
    exists host port, origin = ("https://" ++ host ++ port)%string /\ in_scope (rp_id rp) host /\
      (port = ""%string \/ exists r, port = (":" ++ r)%string) /\
      contains_char "/"%char (host ++ port) = false.
Proof.
  unfold relying_party, new_relying_party. destruct (is_empty _ || _ || _ || _ || _) eqn:Hid; [done|].
  set (id := before_colon authority) in *.
  destruct (relying_party_origins authority custom_host) as [|o os] eqn:Ho; [done|].
  destruct (forallb is_origin (o :: os)) eqn:Hf; [|done]. intros [= <-]. cbn [rp_id rp_id_hash rp_user_verification rp_origins].
  assert (Hne : id <> ""%string) by (intros He; by rewrite He in Hid).
  rewrite <- Ho in *. clear o os Ho. rewrite forallb_forall in Hf.
  assert (Hpath : forall h, In ("https://" ++ h)%string (relying_party_origins authority custom_host) ->
                    contains_char "/"%char h = false).
  { intros h Hin. specialize (Hf _ Hin). unfold is_origin in Hf. apply andb_true_iff in Hf as [_ Hf].
    by apply negb_true_iff in Hf. }
  destruct (before_colon_app authority) as (port & Ha & Hport). fold id in Ha.
  assert (Hown : forall origin, origin = ("https://" ++ authority)%string ->
    In origin (relying_party_origins authority custom_host) ->
    exists host port, origin = ("https://" ++ host ++ port)%string /\ in_scope id host /\
      (port = ""%string \/ exists r, port = (":" ++ r)%string) /\
      contains_char "/"%char (host ++ port) = false).
  { intros origin -> Hin. exists id, port. rewrite <- Ha. split_and!; [done|by left|done|by apply Hpath]. }
  split_and!; try done.
  - unfold relying_party_origins. repeat case_match; cbn; auto.
  - intros origin Hin. pose proof Hin as Hin'. unfold relying_party_origins in Hin'.
    destruct custom_host as [host|]; [|destruct Hin' as [<-|[]]; by apply Hown].
    fold id in Hin'.
    destruct (String.eqb host id || ends_with ("." ++ id)%string host) eqn:Hh;
      [|destruct Hin' as [<-|[]]; by apply Hown].
    destruct (in_strings _ _); cbn in Hin'; [destruct Hin' as [<-|[]]; by apply Hown|].
    destruct Hin' as [<-|[<-|[]]]; [by apply Hown|]. exists host, ""%string.
    assert (Happ : (host ++ "")%string = host) by (clear; induction host as [|c h IH]; [done|exact (f_equal (String.String c) IH)]).
    rewrite Happ. split_and!; [done| |by left|by apply Hpath].
    apply orb_true_iff in Hh as [->%String.eqb_eq|[q ->]%ends_with_app]; [by left|right; by exists q].
Qed.

(** ** Witnesses *)

#[export] Instance is_byte_dec z : Decision (is_byte z).
Proof. unfold is_byte. apply _. Defined.

(** A reader that knows two items by their first byte: an Ed25519 key and an RSA key. *)
Definition sample_ed25519 : list (Value * Value) :=
  [(Integer 1, Integer 1); (Integer 3, Integer (-8)); (Integer (-1), Integer 6);
   (Integer (-2), Bytes (repeat 7 32))].
Definition sample_rsa : list (Value * Value) :=
  [(Integer 1, Integer 3); (Integer 3, Integer (-257)); (Integer (-1), Bytes (repeat 0 255 ++ [1]));
   (Integer (-2), Bytes [1; 0; 1])].
Definition sample_reader (b : list Z) : option Value :=
  match b with
  | 164 :: 1 :: _ => Some (Map sample_ed25519)
  | 164 :: 3 :: _ => Some (Map sample_rsa)
  | _ => None
  end.
Definition sample_key : CredentialPublicKey := {| algorithm := EdDsa; encoded := [164; 1] |}.
Definition accepts_all {A} (_ : A) (_ _ : list Z) : bool := true.
Definition at_least_2048 (ne : list Z * list Z) (_ _ : list Z) : bool :=
  negb (from_be_bytes (fst ne) <? 2 ^ 2047).

Definition sample_credential : AttestedCredential := {|
  aaguid := repeat 0 16; credential_id := [9; 9; 9]; public_key := sample_key;
  user_verified := true; backup_eligible := false; backup_state := false; sign_count := 258 |}.
Definition sample_data : list Z :=
  repeat 5 32 ++ [69; 0; 0; 1; 2] ++ repeat 0 16 ++ [0; 3; 9; 9; 9; 164; 1].

Lemma registration_data_exact_witness :
  verify_registration_data sample_reader sample_data (repeat 5 32) Required = good sample_credential.
Proof.
  apply (registration_data_exact sample_reader sample_data (repeat 5 32) Required sample_credential).
  - apply (bool_decide_unpack _). vm_compute. exact I.
  - exists 69. unfold presence_ok. split_and!; try reflexivity; try done; cbn; lia.
Defined.

Lemma accepted_key_loads_witness :
  verify_signature sample_reader accepts_all accepts_all accepts_all sample_key [1] [2] <> Err UnusableKey.
Proof. apply (accepted_key_loads sample_reader accepts_all accepts_all accepts_all [164; 1] sample_key [1] [2]). reflexivity. Defined.

Lemma accepted_key_may_never_verify_witness :
  exists k, parse sample_reader [164; 3] = Ok k /\
    verify_signature sample_reader accepts_all accepts_all at_least_2048 k [1] [2] = Err BadSignature.
Proof.
  apply (accepted_key_may_never_verify sample_reader accepts_all accepts_all at_least_2048 [164; 3] sample_rsa
           (repeat 0 255 ++ [1]) [1; 0; 1] [1] [2]); try reflexivity.
  intros n x m s Hn. unfold at_least_2048. cbn [fst]. by apply Z.ltb_lt in Hn as ->.
Defined.

Lemma accepted_key_keeps_what_follows_witness :
  exists k', parse sample_reader [164; 1; 0; 0] = Ok k' /\ encoded k' = [164; 1; 0; 0] /\
    algorithm k' = EdDsa /\
    verify_signature sample_reader accepts_all accepts_all accepts_all k' [1] [2] = Ok tt.
Proof.
  apply (accepted_key_keeps_what_follows sample_reader accepts_all accepts_all accepts_all [164; 1] sample_key
           [0; 0] [1] [2]); [|reflexivity].
  intros b t v. unfold sample_reader. repeat case_match; try done; cbn; repeat case_match; naive_solver.
Defined.

Lemma relying_party_in_scope_witness :
  exists rp, relying_party id "id.example.com:8443" (Some "login.id.example.com"%string) = Ok rp /\
    rp_id rp <> ""%string /\ In "https://login.id.example.com"%string (rp_origins rp).
Proof.
  eexists. split; [reflexivity|]. split; [|vm_compute; auto].
  exact (proj1 (proj2 (relying_party_in_scope id "id.example.com:8443"
                         (Some "login.id.example.com"%string) _ eq_refl))).
Defined.
