(* ===== verification/Passkeys.v ===== *)
(** * Passkeys: enrolment and sign-in

    The repository of [store-pg/src/passkeys.rs] over its two tables, and the two
    ceremonies of [server/src/http/passkeys.rs] that run over it and over [WebAuthn]: a
    session enrols a credential, an interaction signs in with one. A ceremony is a
    sequence of statements, each of which may fail, interleaved with every other
    ceremony and with everything else that writes the tables. *)

From S2P Require Import Prelude BTree Json Session RateLimit Acr.
From S2P Require Import Refresh.
From S2P Require Import Grants.
From S2P Require Import GrantStore.
From S2P Require Import Codes.
From S2P Require Import Requests.
From S2P Require Import WebAuthn.
Open Scope Z_scope.

(** [uuid::Uuid]: sixteen bytes. *)
Abbreviation Uuid := (list Z).

(** [ENROLMENT_TTL] and [ASSERTION_TTL], in nanoseconds. *)
Definition ENROLMENT_TTL : Z := 5 * 60 * 1000000000.
Definition ASSERTION_TTL : Z := 5 * 60 * 1000000000.

Record Enrolment : Type := {
  e_csrf_digest : string;
  e_challenge : option (list Z);
  e_expires_at : Z
}.

Record NewPasskey : Type := {
  np_user : Uuid;
  np_credential_id : list Z;
  np_public_key : list Z;
  np_sign_count : Z;
  np_aaguid : option Uuid;
  np_backup_eligible : bool;
  np_backup_state : bool;
  np_user_verified : bool;
  np_rp_id : string;
  np_label : option string
}.

Record RegisteredPasskey : Type := {
  row : Uuid;
  user : Uuid;
  stored_key : list Z;
  stored_count : Z;
  scoped_to : string
}.

Record PasskeySummary : Type := {
  ps_id : Uuid;
  ps_label : option string;
  ps_rp_id : string;
  ps_aaguid : option Uuid;
  ps_created_at : Z;
  ps_last_used_at : option Z;
  ps_disabled_at : option Z
}.

(** What a removed and a renamed passkey are reported as. *)
Record RemovedPasskey : Type := {
  rm_aaguid : option Uuid; rm_backup_eligible : bool; rm_label : option string
}.
Record RenamedPasskey : Type := {
  rn_aaguid : option Uuid; rn_backup_eligible : bool; rn_label : option string
}.

(** A row of [credentials] of kind [passkey]. *)
Record Credential : Type := {
  c_user : Uuid;
  c_credential_id : list Z;
  c_public_key : list Z;
  c_sign_count : Z;
  c_aaguid : option Uuid;
  c_backup_eligible : bool;
  c_backup_state : bool;
  c_rp_id : string;
  c_user_verified : bool;
  c_label : option string;
  c_created_at : Z;
  c_last_used_at : option Z;
  c_disabled_at : option Z
}.

Definition c_used (count : option Z) (now : Z) (c : Credential) : Credential := {|
  c_user := c_user c; c_credential_id := c_credential_id c; c_public_key := c_public_key c;
  c_sign_count := match count with Some n => n | None => c_sign_count c end;
  c_aaguid := c_aaguid c; c_backup_eligible := c_backup_eligible c; c_backup_state := c_backup_state c;
  c_rp_id := c_rp_id c; c_user_verified := c_user_verified c; c_label := c_label c;
  c_created_at := c_created_at c; c_last_used_at := Some now; c_disabled_at := c_disabled_at c |}.

Definition c_disabled (at_ : option Z) (c : Credential) : Credential := {|
  c_user := c_user c; c_credential_id := c_credential_id c; c_public_key := c_public_key c;
  c_sign_count := c_sign_count c;
  c_aaguid := c_aaguid c; c_backup_eligible := c_backup_eligible c; c_backup_state := c_backup_state c;
  c_rp_id := c_rp_id c; c_user_verified := c_user_verified c; c_label := c_label c;
  c_created_at := c_created_at c; c_last_used_at := c_last_used_at c; c_disabled_at := at_ |}.

Definition c_labelled (label : option string) (c : Credential) : Credential := {|
  c_user := c_user c; c_credential_id := c_credential_id c; c_public_key := c_public_key c;
  c_sign_count := c_sign_count c;
  c_aaguid := c_aaguid c; c_backup_eligible := c_backup_eligible c; c_backup_state := c_backup_state c;
  c_rp_id := c_rp_id c; c_user_verified := c_user_verified c; c_label := label;
  c_created_at := c_created_at c; c_last_used_at := c_last_used_at c; c_disabled_at := c_disabled_at c |}.

(** ** The repository *)

(** The sessions by their digest, with the account each is of, the accounts, and the two
    tables. *)
Record PasskeyDb : Type := {
  k_sessions : gmap string Uuid;
  k_users : gset Uuid;
  k_enrolments : gmap string Enrolment;
  k_credentials : gmap (list Z) Credential
}.

Definition with_enrolments (db : PasskeyDb) (m : gmap string Enrolment) : PasskeyDb := {|
  k_sessions := k_sessions db; k_users := k_users db; k_enrolments := m; k_credentials := k_credentials db |}.
Definition with_credentials (db : PasskeyDb) (m : gmap (list Z) Credential) : PasskeyDb := {|
  k_sessions := k_sessions db; k_users := k_users db; k_enrolments := k_enrolments db; k_credentials := m |}.

Module PgPasskeyRepository.

(** [u32::try_from(stored).unwrap_or(u32::MAX)]. *)
Definition sign_count_of (stored : Z) : Z := if in_range 0 (2 ^ 32 - 1) stored then stored else 2 ^ 32 - 1.

(** The foreign key to [sessions] refuses a session that is not there. *)
Definition open_enrolment (db : PasskeyDb) (session csrf : string) (expires_at : Z)
    : result PasskeyDb DomainError :=
  guard? bool_decide (is_Some (k_sessions db !! session)) else Conflict in
  Ok (with_enrolments db
        (<[session := {| e_csrf_digest := csrf; e_challenge := None; e_expires_at := expires_at |}]>
           (k_enrolments db))).

(** The schema refuses a short challenge. *)
Definition issue_challenge (db : PasskeyDb) (session : string) (challenge : list Z) (expires_at now : Z)
    : PasskeyDb * result bool DomainError :=
  match k_enrolments db !! session with
  | Some e =>
      if now <? e_expires_at e then
        if (length challenge <? 16)%nat then (db, Err Storage)
        else (with_enrolments db
                (<[session := {| e_csrf_digest := e_csrf_digest e; e_challenge := Some challenge;
                                 e_expires_at := expires_at |}]> (k_enrolments db)), Ok true)
      else (db, Ok false)
  | None => (db, Ok false)
  end.

Definition enrolment (db : PasskeyDb) (session : string) (now : Z) : option Enrolment :=
  e ← k_enrolments db !! session; if now <? e_expires_at e then Some e else None.

Definition spend_challenge (db : PasskeyDb) (session : string) (now : Z)
    : PasskeyDb * option (list Z) :=
  match k_enrolments db !! session with
  | Some e =>
      match e_challenge e with
      | Some challenge =>
          if now <? e_expires_at e then
            (with_enrolments db
               (<[session := {| e_csrf_digest := e_csrf_digest e; e_challenge := None;
                                e_expires_at := e_expires_at e |}]> (k_enrolments db)), Some challenge)
          else (db, None)
      | None => (db, None)
      end
  | None => (db, None)
  end.

Definition registered_row (p : NewPasskey) (now : Z) : Credential := {|
  c_user := np_user p; c_credential_id := np_credential_id p; c_public_key := np_public_key p;
  c_sign_count := np_sign_count p; c_aaguid := np_aaguid p;
  c_backup_eligible := np_backup_eligible p; c_backup_state := np_backup_state p;
  c_rp_id := np_rp_id p; c_user_verified := np_user_verified p; c_label := np_label p;
  c_created_at := now; c_last_used_at := None; c_disabled_at := None |}.

(** Whether the index [credentials_by_passkey_id] holds an id. *)
Definition id_taken (db : PasskeyDb) (id : list Z) : bool :=
  negb (bool_decide (filter (fun kc => c_credential_id kc.2 = id) (k_credentials db) = ∅)).

(** [drawn] is the [Uuid::new_v4] of the row. *)
Definition register (db : PasskeyDb) (p : NewPasskey) (drawn : Uuid) (now : Z)
    : result PasskeyDb DomainError :=
  guard? bool_decide (k_credentials db !! drawn = None) else Conflict in
  guard? negb (id_taken db (np_credential_id p)) else Conflict in
  guard? bool_decide (np_user p ∈ k_users db) else Conflict in
  Ok (with_credentials db (<[drawn := registered_row p now]> (k_credentials db))).

Definition registered (found : list Z * Credential) : RegisteredPasskey :=
  let '(row, c) := found in
  {| row := row; user := c_user c; stored_key := c_public_key c;
     stored_count := sign_count_of (c_sign_count c); scoped_to := c_rp_id c |}.

Definition answers_to (id : list Z) (c : Credential) : bool :=
  bool_decide (c_credential_id c = id) && match c_disabled_at c with None => true | Some _ => false end.

Definition by_credential_id (db : PasskeyDb) (id : list Z) : option RegisteredPasskey :=
  registered <$> select_row (answers_to id) (k_credentials db).

(** [update .. where credential_id = ..]. *)
Definition update_row (db : PasskeyDb) (row : Uuid) (f : Credential -> Credential) : PasskeyDb :=
  with_credentials db (alter f row (k_credentials db)).

Definition record_assertion (db : PasskeyDb) (row : Uuid) (count : option Z) (now : Z) : PasskeyDb :=
  update_row db row (c_used count now).

Definition disable (db : PasskeyDb) (row : Uuid) (now : Z) : PasskeyDb :=
  update_row db row
    (fun c => c_disabled (match c_disabled_at c with Some t => Some t | None => Some now end) c).

Definition disable_for_user (db : PasskeyDb) (user row : Uuid) (now : Z)
    : PasskeyDb * option RemovedPasskey :=
  match k_credentials db !! row with
  | Some c =>
      if bool_decide (c_user c = user) && match c_disabled_at c with None => true | Some _ => false end
      then (with_credentials db (<[row := c_disabled (Some now) c]> (k_credentials db)),
            Some {| rm_aaguid := c_aaguid c; rm_backup_eligible := c_backup_eligible c; rm_label := c_label c |})
      else (db, None)
  | None => (db, None)
  end.

Definition rename_for_user (db : PasskeyDb) (user row : Uuid) (label : option string)
    : PasskeyDb * option RenamedPasskey :=
  match k_credentials db !! row with
  | Some c =>
      if bool_decide (c_user c = user)
      then (with_credentials db (<[row := c_labelled label c]> (k_credentials db)),
            Some {| rn_aaguid := c_aaguid c; rn_backup_eligible := c_backup_eligible c; rn_label := label |})
      else (db, None)
  | None => (db, None)
  end.

Definition credential_ids (db : PasskeyDb) (user : Uuid) : list (list Z) :=
  omap (fun kc => if bool_decide (c_user kc.2 = user)
                     && match c_disabled_at kc.2 with None => true | Some _ => false end
                  then Some (c_credential_id kc.2) else None) (map_to_list (k_credentials db)).

Definition summary (kc : list Z * Credential) : PasskeySummary := {|
  ps_id := kc.1; ps_label := c_label kc.2; ps_rp_id := c_rp_id kc.2; ps_aaguid := c_aaguid kc.2;
  ps_created_at := c_created_at kc.2; ps_last_used_at := c_last_used_at kc.2;
  ps_disabled_at := c_disabled_at kc.2 |}.

(** [order by created_at]. *)
Definition summaries_for_user (db : PasskeyDb) (user : Uuid) : list PasskeySummary :=
  sort_by (fun a b => ps_created_at a <=? ps_created_at b)
    (summary <$> List.filter (fun kc => bool_decide (c_user kc.2 = user)) (map_to_list (k_credentials db))).

(** The sweep of expired enrolments, the cascades of a session and of an account that
    are deleted, and the trigger of migration 0167 on a session that is rotated. *)
Definition sweep_enrolments (db : PasskeyDb) (now : Z) (picked : list string) : PasskeyDb :=
  with_enrolments db
    (filter (fun ke => ~ (ke.1 ∈ picked /\ e_expires_at ke.2 <= now)) (k_enrolments db)).
Definition delete_session (db : PasskeyDb) (session : string) : PasskeyDb := {|
  k_sessions := delete session (k_sessions db); k_users := k_users db;
  k_enrolments := delete session (k_enrolments db); k_credentials := k_credentials db |}.
Definition rotate_session (db : PasskeyDb) (old new : string) : PasskeyDb :=
  match k_sessions db !! old with
  | Some user => {|
      k_sessions := <[new := user]> (delete old (k_sessions db)); k_users := k_users db;
      k_enrolments := delete old (k_enrolments db); k_credentials := k_credentials db |}
  | None => db
  end.
Definition delete_user (db : PasskeyDb) (user : Uuid) : PasskeyDb := {|
  k_sessions := filter (fun se => se.2 <> user) (k_sessions db); k_users := k_users db ∖ {[ user ]};
  k_enrolments := filter (fun ke => k_sessions db !! ke.1 <> Some user) (k_enrolments db);
  k_credentials := filter (fun kc => c_user kc.2 <> user) (k_credentials db) |}.
Definition add_session (db : PasskeyDb) (session : string) (user : Uuid) : PasskeyDb := {|
  k_sessions := <[session := user]> (k_sessions db); k_users := k_users db;
  k_enrolments := k_enrolments db; k_credentials := k_credentials db |}.
Definition add_user (db : PasskeyDb) (user : Uuid) : PasskeyDb := {|
  k_sessions := k_sessions db; k_users := k_users db ∪ {[ user ]};
  k_enrolments := k_enrolments db; k_credentials := k_credentials db |}.

End PgPasskeyRepository.
Import PgPasskeyRepository.

(** ** Requests *)

Record FinishRequest : Type := {
  fr_csrf : string;
  fr_kind : string;
  fr_client_data_json : string;
  fr_attestation_object : string
}.

Record FinishAssertion : Type := {
  fa_csrf : string;
  fa_kind : string;
  fa_raw_id : string;
  fa_client_data_json : string;
  fa_authenticator_data : string;
  fa_signature : string;
  fa_user_handle : option string
}.

(** [trim_end_matches('=')]. *)
Fixpoint trim_end (c : Ascii.ascii) (s : string) : string :=
  match s with
  | EmptyString => EmptyString
  | String.String d r =>
      let r := trim_end c r in
      if is_empty r && Ascii.eqb d c then EmptyString else String.String d r
  end.

(** What an assertion was found to be. *)
Inductive Verdict : Type :=
| Refused
| Cloned (credential : RegisteredPasskey)
| Proved (credential : RegisteredPasskey) (assertion : Assertion).

Section Handlers.
Variable sha256 : list Z -> list Z.
Variable sha256_hex : string -> string.
Variable from_slice : list Z -> option Parsed.
Variable base64_url : list Z -> string.
Variable base64_decode : string -> option (list Z).
Variable from_reader : list Z -> option Value.
Variable ecdsa_p256_sha256_asn1 : list Z -> list Z -> list Z -> bool.
Variable ed25519 : list Z -> list Z -> list Z -> bool.
Variable rsa_pkcs1_2048_8192_sha256 : list Z * list Z -> list Z -> list Z -> bool.

Definition decode (value : string) : option (list Z) := base64_decode (trim_end "="%char value).

(** [checked_csrf], of the enrolment the session opened. *)
Definition checked_csrf (db : PasskeyDb) (session presented : string) (now : Z) : bool :=
  match enrolment db session now with
  | Some e => ct_eq (bytes_of (sha256_hex presented)) (bytes_of (e_csrf_digest e))
  | None => false
  end.

(** [finish], from the spent challenge to the credential it stores. *)
Definition enrolled_passkey (rp : RelyingParty) (user : Uuid) (request : FinishRequest) (spent : list Z)
    : option NewPasskey :=
  match new_challenge spent, decode (fr_client_data_json request), decode (fr_attestation_object request) with
  | Ok challenge, Some client_data, Some attestation =>
      match verify_registration from_slice base64_url from_reader rp challenge client_data attestation
              CoseAlgorithm.ALL with
      | Some (Ok verified) =>
          let c := credential verified in
          Some {| np_user := user; np_credential_id := credential_id c;
                  np_public_key := encoded (public_key c); np_sign_count := sign_count c;
                  np_aaguid := if bool_decide (aaguid c = repeat 0 16) then None else Some (aaguid c);
                  np_backup_eligible := backup_eligible c; np_backup_state := backup_state c;
                  np_user_verified := user_verified c; np_rp_id := rp_id rp; np_label := None |}
      | _ => None
      end
  | _, _, _ => None
  end.

(** [assertion_ceremony], from the spent challenge to its decision. *)
Definition assertion_response (request : FinishAssertion) : option (list Z * AssertionResponse) :=
  raw_id ← decode (fa_raw_id request);
  client_data ← decode (fa_client_data_json request);
  authenticator_data ← decode (fa_authenticator_data request);
  signature ← decode (fa_signature request);
  Some (raw_id, {| ar_client_data_json := client_data; ar_authenticator_data := authenticator_data;
                   ar_signature := signature |}).

Definition assertion_verdict (db : PasskeyDb) (rp : RelyingParty) (request : FinishAssertion)
    (spent : list Z) : Verdict :=
  match new_challenge spent, assertion_response request with
  | Ok challenge, Some (raw_id, response) =>
      match by_credential_id db raw_id with
      | None => Refused
      | Some credential =>
          if negb (String.eqb (scoped_to credential) (rp_id rp)) then Refused
          else if negb (is_none_or (fun handle => bool_decide (decode handle = Some (user credential)))
                          (fa_user_handle request))
          then Refused
          else match parse from_reader (stored_key credential) with
          | Err _ => Refused
          | Ok key =>
              match verify_assertion sha256 from_slice base64_url from_reader ecdsa_p256_sha256_asn1 ed25519
                      rsa_pkcs1_2048_8192_sha256 rp challenge response key (stored_count credential) Block with
              | Some (Ok verified) => Proved credential verified
              | Some (Err (SignCountRegressed _ _)) => Cloned credential
              | _ => Refused
              end
          end
      end
  | _, _ => Refused
  end.

(** The counter [session_from_assertion] writes. *)
Definition advanced (a : Assertion) : option Z :=
  match ass_sign_count a with Advanced count => Some count | _ => None end.

(** ** Ceremonies *)

(** A sign-in that was accepted, and an enrolment that was stored. *)
Record SignIn : Type := {
  si_interaction : list Z;
  si_challenge : list Z;
  si_relying_party : RelyingParty;
  si_request : FinishAssertion;
  si_credential : RegisteredPasskey;
  si_assertion : Assertion
}.
Record Enrolled : Type := {
  en_session : string;
  en_challenge : list Z;
  en_row : Uuid;
  en_passkey : NewPasskey
}.

(** A ceremony at the statement it is about to make. *)
Inductive Ceremony : Type :=
| SpendFor (interaction : string) (rp : RelyingParty) (request : FinishAssertion)
| LookUp (interaction : list Z) (rp : RelyingParty) (request : FinishAssertion) (spent : list Z)
| BlockRow (row : Uuid)
| CheckAccount (s : SignIn)
| RecordUse (s : SignIn)
| CheckEnrolment (session : string) (user : Uuid) (rp : RelyingParty) (request : FinishRequest)
| SpendEnrolment (session : string) (user : Uuid) (rp : RelyingParty) (request : FinishRequest)
| StorePasskey (session : string) (spent : list Z) (passkey : NewPasskey)
| Over.

(** What the world decides at a statement. *)
Record Chance : Type := {
  ch_now : Z;
  ch_active : bool;        (** the account of the credential exists and is active *)
  ch_fails : bool;         (** the statement fails *)
  ch_drawn : Uuid          (** the row id drawn *)
}.

Section System.
Variable hex_decode : string -> option (list Z).
Variable hex_encode : list Z -> string.
Context {Proof : Type}.
Variable proof_ok : Proof -> string -> Z -> result () DomainError.

Record Sys : Type := {
  tables : Tables Proof;
  passkeys : PasskeyDb;
  ceremonies : list Ceremony;
  signed_in : list SignIn;
  enrolled : list Enrolled;
  issued : list (list Z * list Z);          (** challenges by interaction *)
  enrolment_issued : list (string * list Z); (** challenges by session *)
  owned : list (string * Uuid)              (** the digests sessions have had, and whose *)
}.

(** One statement of a ceremony. *)
Definition tick (ch : Chance) (db : Tables Proof) (k : PasskeyDb) (c : Ceremony)
    : Tables Proof * PasskeyDb * Ceremony * list SignIn * list Enrolled :=
  let over := (db, k, Over, [], []) in
  let next c := (db, k, c, [], []) in
  match c with
  | SpendFor i rp request =>
      if negb (String.eqb (fa_kind request) "public-key") || ch_fails ch then over
      else match spend_assertion_challenge hex_decode db i (ch_now ch), hex_decode i with
      | (db, Ok (Some spent)), Some i => (db, k, LookUp i rp request spent, [], [])
      | (db, _), _ => (db, k, Over, [], [])
      end
  | LookUp i rp request spent =>
      if ch_fails ch then over
      else match assertion_verdict k rp request spent with
      | Refused => over
      | Cloned credential => next (BlockRow (row credential))
      | Proved credential assertion =>
          next (CheckAccount {| si_interaction := i; si_challenge := spent; si_relying_party := rp;
                                si_request := request; si_credential := credential;
                                si_assertion := assertion |})
      end
  | BlockRow row => if ch_fails ch then over else (db, disable k row (ch_now ch), Over, [], [])
  | CheckAccount s => if ch_fails ch || negb (ch_active ch) then over else next (RecordUse s)
  | RecordUse s =>
      let k' := if ch_fails ch then k
                else record_assertion k (row (si_credential s)) (advanced (si_assertion s)) (ch_now ch) in
      (db, k', Over, [s], [])
  | CheckEnrolment session user rp request =>
      if ch_fails ch || negb (checked_csrf k session (fr_csrf request) (ch_now ch))
         || negb (String.eqb (fr_kind request) "public-key")
      then over else next (SpendEnrolment session user rp request)
  | SpendEnrolment session user rp request =>
      if ch_fails ch then over
      else match spend_challenge k session (ch_now ch) with
      | (k, Some spent) =>
          match enrolled_passkey rp user request spent with
          | Some passkey => (db, k, StorePasskey session spent passkey, [], [])
          | None => (db, k, Over, [], [])
          end
      | (k, None) => (db, k, Over, [], [])
      end
  | StorePasskey session spent passkey =>
      if ch_fails ch then over
      else match register k passkey (ch_drawn ch) (ch_now ch) with
      | Ok k => (db, k, Over, [],
                 [{| en_session := session; en_challenge := spent; en_row := ch_drawn ch; en_passkey := passkey |}])
      | Err _ => over
      end
  | Over => over
  end.

(** Everything else that writes the two tables. *)
Inductive KeyOp : Type :=
| OpenEnrolment (session csrf : string) (expires_at : Z)
| DisableForUser (user row : Uuid) (now : Z)
| RenameForUser (user row : Uuid) (label : option string)
| SweepEnrolments (now : Z) (picked : list string)
| DeleteSession (session : string)
| RotateSession (old new : string)
| DeleteUser (user : Uuid)
| AddSession (session : string) (user : Uuid)
| AddUser (user : Uuid).

Definition key_exec (k : PasskeyDb) (op : KeyOp) : PasskeyDb :=
  match op with
  | OpenEnrolment session csrf expires_at =>
      match open_enrolment k session csrf expires_at with Ok k => k | Err _ => k end
  | DisableForUser user row now => fst (disable_for_user k user row now)
  | RenameForUser user row label => fst (rename_for_user k user row label)
  | SweepEnrolments now picked => sweep_enrolments k now picked
  | DeleteSession session => delete_session k session
  | RotateSession old new => rotate_session k old new
  | DeleteUser user => delete_user k user
  | AddSession session user => add_session k session user
  | AddUser user => add_user k user
  end.

(** The digest an operation gives a session, with its account. A digest is drawn at random:
    no session has had it before. *)
Definition opens (k : PasskeyDb) (op : KeyOp) : list (string * Uuid) :=
  match op with
  | AddSession session user => [(session, user)]
  | RotateSession old new => match k_sessions k !! old with Some user => [(new, user)] | None => [] end
  | _ => []
  end.

(** The challenge an operation on the interactions issues. *)
Definition issues (db : Tables Proof) (op : Op Proof) : list (list Z * list Z) :=
  match op with
  | IssueChallenge interaction challenge expires_at now =>
      match snd (issue_assertion_challenge hex_decode db interaction challenge expires_at now),
            hex_decode interaction with
      | Ok true, Some i => [(i, challenge)]
      | _, _ => []
      end
  | _ => []
  end.

Inductive step : Sys -> Sys -> Prop :=
| step_tables s op :
    (forall i now, op <> SpendChallenge i now) ->
    step s {| tables := exec hex_decode hex_encode proof_ok (tables s) op; passkeys := passkeys s;
              ceremonies := ceremonies s; signed_in := signed_in s; enrolled := enrolled s;
              issued := issues (tables s) op ++ issued s; enrolment_issued := enrolment_issued s;
              owned := owned s |}
| step_keys s op :
    (forall session user, (session, user) ∈ opens (passkeys s) op -> session ∉ (owned s).*1) ->
    step s {| tables := tables s; passkeys := key_exec (passkeys s) op;
              ceremonies := ceremonies s; signed_in := signed_in s; enrolled := enrolled s;
              issued := issued s; enrolment_issued := enrolment_issued s;
              owned := opens (passkeys s) op ++ owned s |}
| step_options s session challenge expires_at now k :
    issue_challenge (passkeys s) session challenge expires_at now = (k, Ok true) ->
    step s {| tables := tables s; passkeys := k;
              ceremonies := ceremonies s; signed_in := signed_in s; enrolled := enrolled s;
              issued := issued s; enrolment_issued := (session, challenge) :: enrolment_issued s;
              owned := owned s |}
| step_sign_in s interaction rp request :
    step s {| tables := tables s; passkeys := passkeys s;
              ceremonies := SpendFor interaction rp request :: ceremonies s;
              signed_in := signed_in s; enrolled := enrolled s;
              issued := issued s; enrolment_issued := enrolment_issued s;
              owned := owned s |}
(** [signed_in]: the session of the cookie has a row, and the account is that row's. That
    it is usable and its account active is asked as well. *)
| step_enrol s session user rp request :
    k_sessions (passkeys s) !! session = Some user ->
    step s {| tables := tables s; passkeys := passkeys s;
              ceremonies := CheckEnrolment session user rp request :: ceremonies s;
              signed_in := signed_in s; enrolled := enrolled s;
              issued := issued s; enrolment_issued := enrolment_issued s;
              owned := owned s |}
| step_tick s before after c ch db k c' signs enrols :
    ceremonies s = before ++ c :: after ->
    tick ch (tables s) (passkeys s) c = (db, k, c', signs, enrols) ->
    step s {| tables := db; passkeys := k; ceremonies := before ++ c' :: after;
              signed_in := signs ++ signed_in s; enrolled := enrols ++ enrolled s;
              issued := issued s; enrolment_issued := enrolment_issued s;
              owned := owned s |}.

Definition start : Sys := {|
  tables := empty_tables;
  passkeys := {| k_sessions := ∅; k_users := ∅; k_enrolments := ∅; k_credentials := ∅ |};
  ceremonies := []; signed_in := []; enrolled := []; issued := []; enrolment_issued := []; owned := [] |}.
End System.
End Handlers.
