(* ===== verification/PasskeyLaws.v ===== *)
(** * What every interleaving of passkey ceremonies keeps

    Invariants of [Passkeys.step]: whose account a passkey signs in, what a challenge is good for,
    what a blocked credential still does - and what its signature counter does when two
    ceremonies overlap. *)

From S2P Require Import Prelude BTree Json Session RateLimit Acr.
From S2P Require Import Refresh.
From S2P Require Import Grants.
From S2P Require Import GrantStore.
From S2P Require Import Codes.
From S2P Require Import Decision ConsentMemory.
From S2P Require Import Requests.
From S2P Require Import InteractionLaws.
From S2P Require Import WebAuthn WebAuthnLaws Passkeys.
Import PgPasskeyRepository.
Open Scope Z_scope.

(** ** The life of a row *)

(** What no operation changes of a row, and a block that stays. *)
Definition outlasts (c c' : Credential) : Prop :=
  c_user c' = c_user c /\ c_credential_id c' = c_credential_id c /\ c_public_key c' = c_public_key c /\
  c_rp_id c' = c_rp_id c /\ (forall t, c_disabled_at c = Some t -> c_disabled_at c' = Some t).

Lemma outlasts_refl c : outlasts c c.
Proof. done. Qed.
Lemma outlasts_trans a b c : outlasts a b -> outlasts b c -> outlasts a c.
Proof. unfold outlasts. intros (? & ? & ? & ? & Ha) (? & ? & ? & ? & Hb). split_and!; try congruence. eauto. Qed.
Lemma outlasts_used count now c : outlasts c (c_used count now c).
Proof. done. Qed.
Lemma outlasts_labelled label c : outlasts c (c_labelled label c).
Proof. done. Qed.
Lemma outlasts_disabled now c :
  outlasts c (c_disabled (match c_disabled_at c with Some t => Some t | None => Some now end) c).
Proof. unfold outlasts. cbn. split_and!; try done. by intros t ->. Qed.

Create HintDb passkeys.
#[export] Hint Resolve outlasts_refl outlasts_used outlasts_labelled outlasts_disabled : passkeys.

(** Every row of [k'] was one of [k], or is new. *)
Definition rows_outlast (new : list Z -> Credential -> Prop) (k k' : PasskeyDb) : Prop :=
  forall row c', k_credentials k' !! row = Some c' ->
    (exists c, k_credentials k !! row = Some c /\ outlasts c c') \/
    (k_credentials k !! row = None /\ new row c').

(** And every row of [k] is one of [k']. *)
Definition rows_stay (k k' : PasskeyDb) : Prop :=
  forall row c, k_credentials k !! row = Some c ->
    exists c', k_credentials k' !! row = Some c' /\ outlasts c c'.

Definition none_new (_ : list Z) (_ : Credential) : Prop := False.

Lemma rows_same new k k' : k_credentials k' = k_credentials k -> rows_outlast new k k' /\ rows_stay k k'.
Proof. intros E. split; intros row c; rewrite E; [left|]; eauto with passkeys. Qed.

Lemma update_row_outlasts new k r f :
  (forall c, outlasts c (f c)) -> rows_outlast new k (update_row k r f) /\ rows_stay k (update_row k r f).
Proof.
  intros Hf. split; intros row' c Hc; cbn [update_row with_credentials k_credentials] in *.
  - apply lookup_alter_Some in Hc as [(<- & c0 & Hc & ->)|[Hne Hc]]; left; eauto with passkeys.
  - destruct (decide (r = row')) as [<-|Hne].
    + exists (f c). rewrite lookup_alter_eq, Hc. auto.
    + exists c. rewrite lookup_alter_ne by done. auto with passkeys.
Qed.

Lemma insert_outlasts new k r c c0 :
  k_credentials k !! r = Some c0 -> outlasts c0 c ->
  rows_outlast new k (with_credentials k (<[r := c]> (k_credentials k))) /\
  rows_stay k (with_credentials k (<[r := c]> (k_credentials k))).
Proof.
  intros Hr Ho. split; intros row' x; cbn [with_credentials k_credentials].
  - rewrite lookup_insert. case_decide; [subst; intros [= <-]|]; eauto with passkeys.
  - intros Hx. rewrite lookup_insert. case_decide; [subst|eauto with passkeys].
    exists c. split; [done|]. congruence.
Qed.

Lemma key_exec_rows k op :
  rows_outlast none_new k (key_exec k op) /\
  (match op with DeleteUser _ => True | _ => rows_stay k (key_exec k op) end).
Proof.
  destruct op; cbn [key_exec]; try (by apply rows_same).
  - unfold open_enrolment. destruct (bool_decide _); by apply rows_same.
  - unfold disable_for_user. destruct (k_credentials k !! row) as [c|] eqn:Hc; [|by apply rows_same].
    destruct (bool_decide _ && _) eqn:Hb; [|by apply rows_same].
    apply (insert_outlasts _ _ _ _ _ Hc). unfold outlasts. cbn. split_and!; try done.
    apply andb_true_iff in Hb as [_ Hb]. by destruct (c_disabled_at c).
  - unfold rename_for_user. destruct (k_credentials k !! row) as [c|] eqn:Hc; [|by apply rows_same].
    destruct (bool_decide _); [|by apply rows_same].
    apply (insert_outlasts _ _ _ _ _ Hc). auto with passkeys.
  - unfold rotate_session. destruct (k_sessions k !! old); by apply rows_same.
  - split; [|done]. intros row c. cbn. intros [Hc _]%map_lookup_filter_Some. left. eauto with passkeys.
Qed.

Lemma issue_challenge_rows new k session challenge expires now :
  let k' := fst (issue_challenge k session challenge expires now) in
  rows_outlast new k k' /\ rows_stay k k'.
Proof.
  cbn zeta. unfold issue_challenge. destruct (k_enrolments k !! session); [|by apply rows_same].
  destruct (now <? _); [destruct (_ <? 16)%nat|]; by apply rows_same.
Qed.

Lemma spend_challenge_rows new k session now :
  let k' := fst (spend_challenge k session now) in rows_outlast new k k' /\ rows_stay k k'.
Proof.
  cbn zeta. unfold spend_challenge. destruct (k_enrolments k !! session) as [e|]; [|by apply rows_same].
  destruct (e_challenge e); [destruct (now <? _)|]; by apply rows_same.
Qed.

(** One row per credential id. *)
Definition unique_ids (k : PasskeyDb) : Prop :=
  forall r r' c c', k_credentials k !! r = Some c -> k_credentials k !! r' = Some c' ->
    c_credential_id c = c_credential_id c' -> r = r'.

Lemma id_not_taken k id r c :
  id_taken k id = false -> k_credentials k !! r = Some c -> c_credential_id c <> id.
Proof.
  unfold id_taken. intros Hn%negb_false_iff%bool_decide_eq_true Hc He.
  apply (f_equal (fun m => m !! r)) in Hn. rewrite lookup_empty in Hn.
  apply map_lookup_filter_None in Hn as [Hn|Hn]; [congruence|]. exact (Hn c Hc He).
Qed.

Lemma register_Ok k p drawn now k' :
  register k p drawn now = Ok k' <->
  k_credentials k !! drawn = None /\ id_taken k (np_credential_id p) = false /\ np_user p ∈ k_users k /\
  k' = with_credentials k (<[drawn := registered_row p now]> (k_credentials k)).
Proof.
  unfold register. case_bool_decide; [|naive_solver]. destruct (id_taken _ _); [naive_solver|]. cbn [negb].
  case_bool_decide; naive_solver.
Qed.

Lemma rows_outlast_unique k k' : rows_outlast none_new k k' -> unique_ids k -> unique_ids k'.
Proof.
  intros Ho Hu r r' c c' Hc Hc' He. apply Ho in Hc as [(d & Hd & _ & Hid & _)|[_ []]].
  apply Ho in Hc' as [(d' & Hd' & _ & Hid' & _)|[_ []]]. apply (Hu r r' d d' Hd Hd'). congruence.
Qed.

Lemma register_unique k p drawn now k' :
  register k p drawn now = Ok k' -> unique_ids k -> unique_ids k'.
Proof.
  intros (_ & Ht & _ & ->)%register_Ok Hu r r' c c'. cbn [with_credentials k_credentials].
  rewrite !lookup_insert. repeat case_decide; subst; [done|..].
  - intros [= <-] Hc' He. by destruct (id_not_taken _ _ _ _ Ht Hc').
  - intros Hc [= <-] He. by destruct (id_not_taken _ _ _ _ Ht Hc).
  - apply Hu.
Qed.

(** A lookup by credential id is exact. *)
Lemma by_credential_id_exact k id found : unique_ids k ->
  by_credential_id k id = Some found <->
  exists c, k_credentials k !! row found = Some c /\ c_credential_id c = id /\ c_disabled_at c = None /\
    found = registered (row found, c).
Proof.
  intros Hu. unfold by_credential_id.
  assert (Ha : forall c, answers_to id c = true <-> c_credential_id c = id /\ c_disabled_at c = None).
  { intros c. unfold answers_to. rewrite andb_true_iff, bool_decide_eq_true. destruct (c_disabled_at c); naive_solver. }
  split.
  - destruct (select_row _ _) as [[r c]|] eqn:Hs; [|done]. cbn. intros [= <-]. cbn.
    apply select_row_Some in Hs as [Hc [Hid Hn]%Ha]. by exists c.
  - intros (c & Hc & Hid & Hn & He). destruct (select_row _ _) as [[r' c']|] eqn:Hs.
    + apply select_row_Some in Hs as [Hc' [Hid' _]%Ha].
      assert (Hr : r' = row found) by exact (Hu _ _ c' c Hc' Hc (eq_trans Hid' (eq_sym Hid))).
      rewrite Hr, Hc in Hc'. rewrite Hr. injection Hc' as <-. cbn [fmap option_fmap option_map]. by rewrite <- He.
    + rewrite select_row_None in Hs. specialize (Hs _ _ Hc). by rewrite (proj2 (Ha c)) in Hs.
Qed.

(** ** Challenges *)

Definition times {A} `{EqDecision A} (x : A) (l : list A) : nat :=
  length (List.filter (fun y => bool_decide (y = x)) l).

Lemma times_app {A} `{EqDecision A} (x : A) l l' : times x (l ++ l') = (times x l + times x l')%nat.
Proof. unfold times. by rewrite List.filter_app, length_app. Qed.
Lemma times_cons {A} `{EqDecision A} (x y : A) l :
  times x (y :: l) = (count_if (bool_decide (y = x)) + times x l)%nat.
Proof. unfold times. cbn. by destruct (bool_decide (y = x)). Qed.

Section Challenges.
Variable hex_decode : string -> option (list Z).
Variable hex_encode : list Z -> string.
Context {Proof : Type}.
Variable proof_ok : Proof -> string -> Z -> result () DomainError.
Implicit Types (db : Tables Proof).

(** The rows of either table that hold a challenge for an interaction. *)
Definition q_holds db (ic : list Z * list Z) : Prop :=
  exists d r, requests db !! d = Some r /\ q_interaction r = Some ic.1 /\ fst <$> q_challenge r = Some ic.2.
Definition f_holds db (ic : list Z * list Z) : Prop :=
  exists f, first_parties db !! ic.1 = Some f /\ fst <$> f_challenge f = Some ic.2.

Definition held db (ic : list Z * list Z) : nat :=
  count_if (negb (bool_decide (filter (fun kr => q_interaction kr.2 = Some ic.1 /\
                                 fst <$> q_challenge kr.2 = Some ic.2) (requests db) = ∅))) +
  count_if (bool_decide ((first_parties db !! ic.1 ≫= fun f => fst <$> f_challenge f) = Some ic.2)).

Lemma held_split db ic : exists a b : bool,
  held db ic = (count_if a + count_if b)%nat /\ (a = true <-> q_holds db ic) /\ (b = true <-> f_holds db ic).
Proof.
  unfold held. eexists _, _. split_and!; [reflexivity|..].
  - rewrite negb_true_iff, bool_decide_eq_false. split.
    + intros (d & r & [Hd [Hi Hc]]%map_lookup_filter_Some)%map_choose. by exists d, r.
    + intros (d & r & Hd & Hi & Hc) He. apply (f_equal (fun m => m !! d)) in He. rewrite lookup_empty in He.
      apply map_lookup_filter_None in He as [He|He]; [congruence|]. by apply (He r).
  - rewrite bool_decide_eq_true. unfold f_holds. destruct (first_parties db !! ic.1); naive_solver.
Qed.

Lemma held_le db db' ic :
  (q_holds db' ic -> q_holds db ic) -> (f_holds db' ic -> f_holds db ic) -> (held db' ic <= held db ic)%nat.
Proof.
  intros Hq Hf. destruct (held_split db ic) as (a & b & -> & Ha & Hb).
  destruct (held_split db' ic) as (a' & b' & -> & Ha' & Hb'). destruct a', b', a, b; cbn; try lia; naive_solver.
Qed.

(** A row that keeps its challenge, or has none. *)
Definition q_loses (r r' : AuthRequest) : Prop :=
  q_challenge r' = None \/ (q_interaction r' = q_interaction r /\ q_challenge r' = q_challenge r).
Definition f_loses (f f' : FirstPartyRow) : Prop := f_challenge f' = None \/ f_challenge f' = f_challenge f.

Lemma q_loses_refl r : q_loses r r.
Proof. by right. Qed.
Lemma f_loses_refl f : f_loses f f.
Proof. by right. Qed.
Hint Resolve q_loses_refl f_loses_refl : core.

Lemma follows_held db db' ic : follows q_loses f_loses db db' -> (held db' ic <= held db ic)%nat.
Proof.
  intros [Hq Hf]. apply held_le.
  - intros (d & r' & Hd & Hi & Hc). destruct (Hq d r' Hd) as [Hn|(r & Hr & [Hn|[Hi' Hc']])]; [congruence|..].
    + by rewrite Hn in Hc.
    + exists d, r. by rewrite <- Hi', <- Hc'.
  - intros (f' & Hd & Hc). destruct (Hf _ _ Hd) as (f & Hr & [Hn|Hc']); [by rewrite Hn in Hc|].
    exists f. by rewrite <- Hc'.
Qed.

Lemma other_ops_held db op ic :
  match op with IssueChallenge _ _ _ _ => False | _ => True end ->
  (held (exec hex_decode hex_encode proof_ok db op) ic <= held db ic)%nat.
Proof.
  intros Hop. assert (Hsame : forall db', requests db' = requests db -> first_parties db' = first_parties db ->
    (held db' ic <= held db ic)%nat) by (intros; by apply follows_held, follows_same).
  assert (Hfilter : forall (P : list Z * AuthRequest -> Prop) `{forall x, Decision (P x)} db',
    requests db' = filter P (requests db) ->
    (forall i f, first_parties db' !! i = Some f -> first_parties db !! i = Some f) ->
    (held db' ic <= held db ic)%nat) by (intros; by eapply follows_held, follows_filter).
  assert (Hinsert : forall db' d r r', requests db' = <[d := r']> (requests db) ->
    first_parties db' = first_parties db -> q_interaction r' = None \/ requests db !! d = Some r /\ q_loses r r' ->
    (held db' ic <= held db ic)%nat) by (intros; by eapply follows_held, follows_insert).
  destruct op; try done; cbn [exec]; try (by apply Hsame); try (by eapply Hfilter; eauto).
  - destruct (push hex_decode db request) as [db'|] eqn:Hp; [|done].
    apply ids_from_push in Hp as (d & Hd & Hm & Hf). eapply (Hinsert db' d (pushed_row request)); eauto.
  - unfold consume. destruct (digest_bytes _ _) as [d|]; [|done]. unfold consume_spend.
    destruct (requests db !! d) as [r|] eqn:Hd; [|done]. destruct (q_open now r); [|done].
    eapply (Hinsert _ d r (q_consumed now r)); [done..|]. right. split; [done|by right].
  - destruct (begin_interaction hex_decode db digest interaction now) as [db'|] eqn:Hb; [|done].
    apply begin_facts in Hb as (d & i & r & _ & _ & Hd & _ & _ & Hm & Hf). cbn [or_same].
    eapply (Hinsert _ d r (q_begun i r)); [done..|]. right. split; [done|by left].
  - apply follows_held, follows_either; auto; intros; by right.
  - apply follows_held, follows_either; auto; intros; by right.
  - apply follows_held, complete_with_device_follows; auto. intros r. by right.
  - unfold destroy_interaction. destruct (digest_bytes _ _) as [j|]; [|done].
    eapply (Hfilter (fun kr => q_interaction kr.2 <> Some j)); [done|]. cbn. by intros i f [_ ?]%lookup_delete_Some.
  - unfold begin_first_party_interaction. destruct (digest_bytes _ _) as [j|]; [|done]. cbn [rbind].
    destruct (bool_decide _); [|done]. cbn [or_same]. apply held_le; [done|].
    intros (f & Hd & Hc). cbn in Hd. rewrite lookup_insert in Hd. case_decide; [|by exists f].
    by injection Hd as <-.
  - apply follows_held. split; cbn; [eauto|]. intros i f' [Hf _]%map_lookup_filter_Some. eauto.
  - unfold spend_assertion_challenge. destruct (digest_bytes _ _) as [j|]; [|done].
    destruct (select_row _ _) as [[d r]|] eqn:Hsel.
    + apply select_row_Some in Hsel as [Hd _].
      eapply (Hinsert _ d r (q_challenged None r)); [done..|]. right. split; [done|by left].
    + destruct (first_parties db !! j) as [h|] eqn:Hh; [|done].
      destruct (if f_open now h then _ else None); [|done]. cbn [fst]. apply held_le; [done|].
      intros (f & Hd & Hc). cbn in Hd. rewrite lookup_insert in Hd. case_decide; [by injection Hd as <-|by exists f].
Qed.
Lemma update_unique db i now f : unique_interactions db ->
  update_rows (q_of i now) f (requests db) =
    match select_row (q_of i now) (requests db) with
    | Some (d, r) => (<[d := f r]> (requests db), 1%nat)
    | None => (requests db, 0%nat)
    end.
Proof.
  intros Hu. destruct (select_row _ _) as [[d r]|] eqn:Hs.
  - apply select_row_Some in Hs as [Hd Hq].
    assert (Hone : filter (fun kr => q_of i now kr.2 = true) (requests db) = {[ d := r ]}).
    { apply map_eq. intros d'. rewrite lookup_singleton. case_decide as He.
      - subst. by apply map_lookup_filter_Some.
      - apply map_lookup_filter_None. destruct (requests db !! d') as [r'|] eqn:Hd'; [right|by left].
        intros r0 [= <-] Hq'. cbn in Hq'. apply q_of_facts in Hq as [Hi _]. apply q_of_facts in Hq' as [Hi' _].
        by apply He, (Hu d d' r r' i). }
    destruct (update_rows (q_of i now) f (requests db)) as [m n] eqn:Hup.
    assert (n = 1%nat) as ->.
    { unfold update_rows in Hup. injection Hup as _ <-. rewrite Hone. apply map_size_singleton. }
    apply update_rows_one in Hup as (d' & r' & _ & Hd' & Hq' & ->).
    assert (d' = d) as ->.
    { apply q_of_facts in Hq as [Hi _]. apply q_of_facts in Hq' as [Hi' _]. by apply (Hu d' d r' r i). }
    rewrite Hd in Hd'. by injection Hd' as <-.
  - apply update_rows_none. by apply select_row_None.
Qed.

(** What an issue does, and what it reports. *)
Lemma issue_held db interaction challenge expires now ic : unique_interactions db ->
  (held (exec hex_decode hex_encode proof_ok db (IssueChallenge interaction challenge expires now)) ic <=
   times ic (issues hex_decode db (IssueChallenge interaction challenge expires now)) + held db ic)%nat.
Proof.
  intros Hu. cbn [exec issues]. unfold issue_assertion_challenge, update_either, digest_bytes.
  destruct (hex_decode interaction) as [i|]; cbn [ok_or]; [|cbn; lia].
  rewrite update_unique by done. destruct (length challenge <? 16)%nat.
  { destruct (select_row _ _) as [[d r]|]; cbn [Nat.eqb]; [cbn; lia|].
    destruct (first_parties _ !! i) as [h|]; [destruct (f_open now h)|]; cbn; lia. }
  destruct (select_row _ _) as [[d r]|] eqn:Hs; cbn [Nat.eqb fst snd].
  - apply select_row_Some in Hs as [Hd Hq]. apply q_of_facts in Hq as [Hi _]. rewrite times_cons.
    case_bool_decide as He; cbn [count_if].
    + destruct (held_split (with_requests db (<[d := q_challenged (Some (challenge, expires)) r]> (requests db))) ic)
        as (a' & b' & -> & Ha' & Hb').
      destruct (held_split db ic) as (a & b & -> & Ha & Hb).
      assert (b' = true -> b = true) by (rewrite Hb', Hb; done). destruct a', b', a, b; cbn; naive_solver lia.
    + rewrite Nat.add_comm. cbn. rewrite Nat.add_0_r. apply held_le; [|done].
      intros (d' & r' & Hd' & Hi' & Hc'). cbn in Hd'. rewrite lookup_insert in Hd'. case_decide as Hdd.
      * injection Hd' as <-. cbn in Hi', Hc'. destruct ic. cbn in *. congruence.
      * by exists d', r'.
  - cbn [with_requests first_parties].
    destruct (first_parties db !! i) as [h|] eqn:Hh; [destruct (f_open now h)|]; cbn [fst snd];
      [|cbn; apply Nat.le_refl..]. rewrite times_cons.
    case_bool_decide as He; cbn [count_if].
    + subst ic. set (db' := with_first_parties _ _).
      destruct (held_split db' (i, challenge)) as (a' & b' & -> & Ha' & Hb').
      destruct (held_split db (i, challenge)) as (a & b & -> & Ha & Hb).
      assert (a' = true -> a = true) by (rewrite Ha', Ha; done). destruct a', b', a, b; cbn; naive_solver lia.
    + rewrite Nat.add_comm. cbn. rewrite Nat.add_0_r. apply held_le; [done|].
      intros (f & Hf & Hc). cbn in Hf. rewrite lookup_insert in Hf. case_decide as Hii; [|by exists f].
      injection Hf as <-. cbn in Hc. destruct ic. cbn in *. congruence.
Qed.

(** A spent challenge was held once and no longer is. *)
Lemma spend_held db interaction now db' i spent ic : unique_interactions db ->
  hex_decode interaction = Some i ->
  spend_assertion_challenge hex_decode db interaction now = (db', Ok (Some spent)) ->
  (count_if (bool_decide ((i, spent) = ic)) + held db' ic <= held db ic)%nat.
Proof.
  intros Hu Hi. pose proof (other_ops_held db (SpendChallenge interaction now) ic I) as Hle. cbn [exec] in Hle.
  intros Hs. rewrite Hs in Hle. cbn [fst] in Hle. case_bool_decide as He; [subst ic|done].
  unfold spend_assertion_challenge, digest_bytes in Hs. rewrite Hi in Hs. cbn [ok_or] in Hs.
  destruct (held_split db (i, spent)) as (a & b & Hh & Ha & Hb).
  destruct (held_split db' (i, spent)) as (a' & b' & Hh' & Ha' & Hb'). rewrite Hh, Hh'.
  assert (Hout : forall now c, outstanding now c = Some spent -> fst <$> c = Some spent).
  { intros n [[bytes e]|]; cbn; [|done]. by destruct (n <? e); intros [= <-]. }
  destruct (select_row _ _) as [[d r]|] eqn:Hsel.
  - apply select_row_Some in Hsel as [Hd [Hq _]%andb_true_iff]. apply q_of_facts in Hq as [Hir _].
    injection Hs as <- Hs. apply Hout in Hs.
    assert (Hat : a = true) by (apply Ha; by exists d, r).
    assert (Haf : a' = false).
    { apply not_true_iff_false. rewrite Ha'. intros (d' & r' & Hd' & Hi' & Hc'). cbn in Hd', Hi', Hc'.
      rewrite lookup_insert in Hd'. case_decide as Hdd; [by injection Hd' as <-|]. by apply Hdd, (Hu d d' r r' i). }
    assert (b' = true -> b = true) by (rewrite Hb', Hb; done).
    rewrite Hat, Haf. destruct b, b'; cbn; naive_solver lia.
  - destruct (first_parties db !! i) as [h|] eqn:Hf; [|done].
    destruct (if f_open now h then outstanding now (f_challenge h) else None) as [bytes|] eqn:Ho; [|done].
    injection Hs as <- <-. destruct (f_open now h); [|done]. apply Hout in Ho.
    assert (Hbt : b = true) by (apply Hb; by exists h).
    assert (Hbf : b' = false).
    { apply not_true_iff_false. rewrite Hb'. intros (f & Hf' & Hc'). cbn in Hf'. rewrite lookup_insert in Hf'.
      case_decide; [|done]. by injection Hf' as <-. }
    assert (a' = true -> a = true) by (rewrite Ha', Ha; done).
    rewrite Hbt, Hbf. destruct a, a'; cbn; naive_solver lia.
Qed.
End Challenges.

(** ** Who a passkey signs in *)

Section System.
Variable sha256 : list Z -> list Z.
Variable sha256_hex : string -> string.
Variable from_slice : list Z -> option Parsed.
Variable base64_url : list Z -> string.
Variable base64_decode : string -> option (list Z).
Variable from_reader : list Z -> option Value.
Variable ecdsa_p256_sha256_asn1 : list Z -> list Z -> list Z -> bool.
Variable ed25519 : list Z -> list Z -> list Z -> bool.
Variable rsa_pkcs1_2048_8192_sha256 : list Z * list Z -> list Z -> list Z -> bool.
Variable hex_decode : string -> option (list Z).
Variable hex_encode : list Z -> string.
Context {Proof : Type}.
Variable proof_ok : Proof -> string -> Z -> result () DomainError.
Abbreviation Sys := (Sys (Proof := Proof)).
Abbreviation enrolled_passkey' := (enrolled_passkey from_slice base64_url base64_decode from_reader).
Abbreviation verdict := (assertion_verdict sha256 from_slice base64_url base64_decode from_reader
  ecdsa_p256_sha256_asn1 ed25519 rsa_pkcs1_2048_8192_sha256).
Abbreviation tick' := (tick sha256 sha256_hex from_slice base64_url base64_decode from_reader
  ecdsa_p256_sha256_asn1 ed25519 rsa_pkcs1_2048_8192_sha256 hex_decode).
Abbreviation step' := (step sha256 sha256_hex from_slice base64_url base64_decode from_reader
  ecdsa_p256_sha256_asn1 ed25519 rsa_pkcs1_2048_8192_sha256 hex_decode hex_encode proof_ok).
Implicit Types (s : Sys) (k : PasskeyDb) (t : Ceremony) (db : Tables Proof).

(** The ceremony of a sign-in, verified with the key of its credential. *)
Definition possessed (x : SignIn) : Prop :=
  exists challenge raw_id response key,
    new_challenge (si_challenge x) = Ok challenge /\
    assertion_response base64_decode (si_request x) = Some (raw_id, response) /\
    parse from_reader (stored_key (si_credential x)) = Ok key /\
    scoped_to (si_credential x) = rp_id (si_relying_party x) /\
    verify_assertion sha256 from_slice base64_url from_reader ecdsa_p256_sha256_asn1 ed25519
      rsa_pkcs1_2048_8192_sha256 (si_relying_party x) challenge response key
      (stored_count (si_credential x)) Block = Some (Ok (si_assertion x)).

Lemma verdict_Proved k rp request spent credential a :
  verdict k rp request spent = Proved credential a ->
  exists raw_id response, assertion_response base64_decode request = Some (raw_id, response) /\
    by_credential_id k raw_id = Some credential /\
    forall i, possessed {| si_interaction := i; si_challenge := spent; si_relying_party := rp;
                 si_request := request; si_credential := credential; si_assertion := a |}.
Proof.
  unfold assertion_verdict. destruct (new_challenge spent) as [challenge|] eqn:Hch; [|done].
  destruct (assertion_response _ request) as [[raw_id response]|] eqn:Hr; [|done].
  destruct (by_credential_id k raw_id) as [c|] eqn:Hc; [|done].
  destruct (String.eqb_spec (scoped_to c) (rp_id rp)) as [Hs|]; [|done]. cbn [negb].
  destruct (is_none_or _ _); [|done]. cbn [negb].
  destruct (parse from_reader (stored_key c)) as [key|] eqn:Hk; [|done].
  destruct (verify_assertion _ _ _ _ _ _ _ _ _ _ _ _ _) as [[v|[]]|] eqn:Hv; try done.
  intros [= <- <-]. exists raw_id, response. split_and!; [done|done|].
  intros i. exists challenge, raw_id, response, key. cbn. done.
Qed.

(** An enrolment whose ceremony was verified, for the account of its session. *)
Definition enrolment_proved (seen : list (string * list Z)) (session : string) (spent : list Z)
    (p : NewPasskey) : Prop :=
  (session, np_user p) ∈ seen /\
  exists rp request, enrolled_passkey' rp (np_user p) request spent = Some p.

Lemma enrolled_passkey_user rp u request spent p :
  enrolled_passkey' rp u request spent = Some p -> np_user p = u.
Proof.
  unfold enrolled_passkey. destruct (new_challenge spent); [|done].
  destruct (decode _ _); [|done]. destruct (decode _ _); [|done].
  destruct (verify_registration _ _ _ _ _ _ _ _) as [[v|]|]; [|done..]. by intros [= <-].
Qed.

Lemma enrolment_proved_more seen seen' session spent p :
  seen ⊆ seen' -> enrolment_proved seen session spent p -> enrolment_proved seen' session spent p.
Proof. intros Hs [Hin H]. split; [by apply Hs|done]. Qed.

(** A row, or a read of one, is what an enrolment stored. *)
Definition enrolled_as (log : list Enrolled) (row user : list Z) (key : list Z) (id : list Z) (rp : string) : Prop :=
  exists e, e ∈ log /\ en_row e = row /\ np_user (en_passkey e) = user /\
    np_public_key (en_passkey e) = key /\ np_credential_id (en_passkey e) = id /\
    np_rp_id (en_passkey e) = rp.

Lemma enrolled_as_more log log' row user key id rp :
  log ⊆ log' -> enrolled_as log row user key id rp -> enrolled_as log' row user key id rp.
Proof. intros Hl (e & He & H). exists e. split; [by apply Hl|done]. Qed.

Definition traced (log : list Enrolled) (x : SignIn) : Prop :=
  possessed x /\ exists id, decode base64_decode (fa_raw_id (si_request x)) = Some id /\
    enrolled_as log (row (si_credential x)) (user (si_credential x)) (stored_key (si_credential x)) id
      (scoped_to (si_credential x)).

Definition ceremony_ok (seen : list (string * list Z)) (log : list Enrolled) t : Prop :=
  match t with
  | CheckAccount x | RecordUse x => traced log x
  | CheckEnrolment session user _ _ | SpendEnrolment session user _ _ => (session, user) ∈ seen
  | StorePasskey session spent p => enrolment_proved seen session spent p
  | _ => True
  end.

Definition rows_traced (log : list Enrolled) k : Prop :=
  forall r c, k_credentials k !! r = Some c ->
    enrolled_as log r (c_user c) (c_public_key c) (c_credential_id c) (c_rp_id c).

Definition log_ok (seen : list (string * list Z)) (e : Enrolled) : Prop :=
  enrolment_proved seen (en_session e) (en_challenge e) (en_passkey e).

(** A session is of the account it was opened for, and of no other ever. *)
Definition owners_ok s : Prop :=
  (forall d u, k_sessions (passkeys s) !! d = Some u -> (d, u) ∈ owned s) /\ NoDup (owned s).*1.

Definition sys_ok s : Prop :=
  unique_ids (passkeys s) /\ rows_traced (enrolled s) (passkeys s) /\
  Forall (ceremony_ok (owned s) (enrolled s)) (ceremonies s) /\ Forall (traced (enrolled s)) (signed_in s) /\
  Forall (log_ok (owned s)) (enrolled s) /\ owners_ok s.

Lemma traced_more log log' x : log ⊆ log' -> traced log x -> traced log' x.
Proof. intros Hl [Hp (id & Hid & He)]. split; [done|]. exists id. split; [done|]. by eapply enrolled_as_more. Qed.

Lemma ceremony_ok_more seen seen' log log' t :
  seen ⊆ seen' -> log ⊆ log' -> ceremony_ok seen log t -> ceremony_ok seen' log' t.
Proof. intros Hs Hl. destruct t; cbn; eauto using traced_more, enrolment_proved_more. Qed.

(** What the operations leave of the sessions. *)
Lemma key_exec_owners k op (seen : list (string * list Z)) :
  (forall d u, k_sessions k !! d = Some u -> (d, u) ∈ seen) ->
  forall d u, k_sessions (key_exec k op) !! d = Some u -> (d, u) ∈ opens k op ++ seen.
Proof.
  intros Hseen d u. destruct op; cbn [key_exec opens app]; try apply Hseen.
  - unfold open_enrolment. destruct (bool_decide _); apply Hseen.
  - unfold disable_for_user. destruct (k_credentials k !! row); [destruct (_ && _)|]; apply Hseen.
  - unfold rename_for_user. destruct (k_credentials k !! row); [destruct (bool_decide _)|]; apply Hseen.
  - cbn. intros [_ H]%lookup_delete_Some. by apply Hseen.
  - unfold rotate_session. destruct (k_sessions k !! old) as [user|]; [|apply Hseen]. cbn.
    intros [[<- <-]|[_ [_ H]%lookup_delete_Some]]%lookup_insert_Some; [by left|right; by apply Hseen].
  - cbn. intros [H _]%map_lookup_filter_Some. by apply Hseen.
  - cbn. intros [[<- <-]|[_ H]]%lookup_insert_Some; [by left|right; by apply Hseen].
Qed.

Lemma key_step_owners s op :
  (forall session user, (session, user) ∈ opens (passkeys s) op -> session ∉ (owned s).*1) ->
  NoDup (owned s).*1 -> NoDup (opens (passkeys s) op ++ owned s).*1.
Proof.
  intros Hf Hn. destruct op; try exact Hn.
  - cbn [opens] in *. destruct (k_sessions _ !! old) as [user|]; [|exact Hn]. cbn. constructor; [|done].
    eapply Hf. by left.
  - cbn [opens] in *. cbn. constructor; [|done]. eapply Hf. by left.
Qed.

Lemma one_owner (l : list (string * list Z)) d u u' : NoDup l.*1 -> (d, u) ∈ l -> (d, u') ∈ l -> u = u'.
Proof.
  induction l as [|[d0 u0] l IH]; [by intros _ ?%elem_of_nil|]. cbn. intros [Hn Hnd]%NoDup_cons.
  assert (Hout : forall v, (d0, v) ∈ l -> False) by (intros v Hv; apply Hn, (list_elem_of_fmap_2 fst l _ Hv)).
  intros [H|H]%elem_of_cons [H'|H']%elem_of_cons; simplify_eq; eauto; by destruct (Hout _ ltac:(eassumption)).
Qed.

Lemma rows_traced_outlast log k k' : rows_outlast none_new k k' -> rows_traced log k -> rows_traced log k'.
Proof.
  intros Ho Ht r c' Hc'. apply Ho in Hc' as [(c & Hc & Hu & Hi & Hk & Hr & _)|[_ []]].
  rewrite Hu, Hi, Hk, Hr. by apply Ht.
Qed.

Lemma response_raw_id request raw_id response :
  assertion_response base64_decode request = Some (raw_id, response) ->
  decode base64_decode (fa_raw_id request) = Some raw_id.
Proof.
  unfold assertion_response. intros H. apply bind_Some in H as (id & Hid & H).
  do 3 apply bind_Some in H as (? & _ & H). by injection H as <- _.
Qed.

(** The effects a statement may have. *)
Inductive move (ch : Chance) db k : Ceremony -> Tables Proof -> PasskeyDb -> Ceremony -> list SignIn ->
    list Enrolled -> Prop :=
| move_over t : move ch db k t db k Over [] []
| move_spend i rp q j spent db' :
    hex_decode i = Some j -> spend_assertion_challenge hex_decode db i (ch_now ch) = (db', Ok (Some spent)) ->
    move ch db k (SpendFor i rp q) db' k (LookUp j rp q spent) [] []
| move_unspent i rp q db' r :
    spend_assertion_challenge hex_decode db i (ch_now ch) = (db', r) ->
    move ch db k (SpendFor i rp q) db' k Over [] []
| move_cloned j rp q spent c :
    verdict k rp q spent = Cloned c -> move ch db k (LookUp j rp q spent) db k (BlockRow (row c)) [] []
| move_proved j rp q spent c a :
    verdict k rp q spent = Proved c a ->
    move ch db k (LookUp j rp q spent) db k
      (CheckAccount {| si_interaction := j; si_challenge := spent; si_relying_party := rp; si_request := q;
                       si_credential := c; si_assertion := a |}) [] []
| move_block r : move ch db k (BlockRow r) db (disable k r (ch_now ch)) Over [] []
| move_active x : move ch db k (CheckAccount x) db k (RecordUse x) [] []
| move_use x k' :
    k' = k \/ k' = record_assertion k (row (si_credential x)) (advanced (si_assertion x)) (ch_now ch) ->
    move ch db k (RecordUse x) db k' Over [x] []
| move_checked se u rp q : move ch db k (CheckEnrolment se u rp q) db k (SpendEnrolment se u rp q) [] []
| move_enrol se u rp q k' spent p :
    spend_challenge k se (ch_now ch) = (k', Some spent) -> enrolled_passkey' rp u q spent = Some p ->
    move ch db k (SpendEnrolment se u rp q) db k' (StorePasskey se spent p) [] []
| move_unenrolled se u rp q k' r :
    spend_challenge k se (ch_now ch) = (k', r) -> move ch db k (SpendEnrolment se u rp q) db k' Over [] []
| move_stored se spent p k' :
    register k p (ch_drawn ch) (ch_now ch) = Ok k' ->
    move ch db k (StorePasskey se spent p) db k' Over []
      [{| en_session := se; en_challenge := spent; en_row := ch_drawn ch; en_passkey := p |}].

Lemma tick_move ch db k t db' k' t' signs enrols :
  tick' ch db k t = (db', k', t', signs, enrols) -> move ch db k t db' k' t' signs enrols.
Proof.
  intros Ht. destruct t; cbn [tick] in Ht.
  - destruct (negb _ || ch_fails ch); [injection Ht as <- <- <- <- <-; constructor|].
    destruct (spend_assertion_challenge _ _ _ _) as [db0 [[spent|]|]] eqn:Hs;
      [destruct (hex_decode interaction) eqn:Hi|..]; injection Ht as <- <- <- <- <-; by econstructor.
  - destruct (ch_fails ch); [injection Ht as <- <- <- <- <-; constructor|].
    destruct (verdict k rp request spent) eqn:Hv; injection Ht as <- <- <- <- <-; by constructor.
  - destruct (ch_fails ch); injection Ht as <- <- <- <- <-; constructor.
  - destruct (ch_fails ch || _); injection Ht as <- <- <- <- <-; constructor.
  - injection Ht as <- <- <- <- <-. constructor. destruct (ch_fails ch); auto.
  - destruct (ch_fails ch || _ || _); injection Ht as <- <- <- <- <-; constructor.
  - destruct (ch_fails ch); [injection Ht as <- <- <- <- <-; constructor|].
    destruct (spend_challenge k session (ch_now ch)) as [k0 [spent|]] eqn:Hs;
      [destruct (enrolled_passkey' rp user request spent) eqn:Hp|]; injection Ht as <- <- <- <- <-; by econstructor.
  - destruct (ch_fails ch); [injection Ht as <- <- <- <- <-; constructor|].
    destruct (register k passkey (ch_drawn ch) (ch_now ch)) eqn:Hr; injection Ht as <- <- <- <- <-; by constructor.
  - injection Ht as <- <- <- <- <-. constructor.
Qed.

Lemma move_rows ch db k t db' k' t' signs enrols :
  move ch db k t db' k' t' signs enrols ->
  rows_stay k k' /\
  (rows_outlast none_new k k' \/ enrols <> [] /\ exists p, register k p (ch_drawn ch) (ch_now ch) = Ok k').
Proof.
  assert (Hsame : forall l : list Enrolled, rows_stay k k /\ (rows_outlast none_new k k \/
    l <> [] /\ exists p, register k p (ch_drawn ch) (ch_now ch) = Ok k)).
  { intros l. destruct (rows_same none_new k k eq_refl). auto. }
  assert (Hspent : forall k' se r, spend_challenge k se (ch_now ch) = (k', r) ->
    rows_stay k k' /\ rows_outlast none_new k k').
  { intros k'' se r Hs. pose proof (spend_challenge_rows none_new k se (ch_now ch)) as H.
    rewrite Hs in H. split; apply H. }
  destruct 1 as [| | | | | | |x k' [->| ->]| |se u rp q k' spent p Hs|se u rp q k' r Hs|se spent p k' Hr]; try done.
  - destruct (update_row_outlasts none_new k r
      (fun c => c_disabled (match c_disabled_at c with Some t => Some t | None => Some (ch_now ch) end) c));
      auto with passkeys.
  - destruct (update_row_outlasts none_new k (row (si_credential x)) (c_used (advanced (si_assertion x)) (ch_now ch)));
      auto with passkeys.
  - destruct (Hspent _ _ _ Hs). auto.
  - destruct (Hspent _ _ _ Hs). auto.
  - split; [|right; split; [done|by exists p]]. apply register_Ok in Hr as (Hn & _ & _ & ->).
    intros r c Hc. exists c. split; [|auto with passkeys]. cbn. rewrite lookup_insert_ne; [done|congruence].
Qed.

(** One statement keeps the invariant, whatever fails. *)
Lemma move_sessions ch db k t db' k' t' signs enrols :
  move ch db k t db' k' t' signs enrols -> k_sessions k' = k_sessions k.
Proof.
  assert (Hspend : forall k' se r, spend_challenge k se (ch_now ch) = (k', r) -> k_sessions k' = k_sessions k).
  { intros k'' se r. unfold spend_challenge. destruct (k_enrolments k !! se) as [e|]; [|by intros [= <- _]].
    destruct (e_challenge e); [destruct (_ <? _)|]; by intros [= <- _]. }
  destruct 1 as [| | | | | | |x k' [->| ->]| |se u rp q k' spent p Hs|se u rp q k' r Hs|se spent p k' Hr];
    try done; [by eapply Hspend..|]. by apply register_Ok in Hr as (_ & _ & _ & ->).
Qed.

Lemma move_ok ch db k t db' k' t' signs enrols seen log :
  move ch db k t db' k' t' signs enrols ->
  unique_ids k -> rows_traced log k -> ceremony_ok seen log t ->
  let log' := enrols ++ log in
  unique_ids k' /\ rows_traced log' k' /\ ceremony_ok seen log' t' /\ Forall (traced log') signs /\
  Forall (log_ok seen) enrols.
Proof.
  intros Hm Hu Hr Hc. cbn zeta. pose proof (move_rows _ _ _ _ _ _ _ _ _ Hm) as [_ Hrows].
  assert (Hk : unique_ids k' /\ (enrols = [] -> rows_traced log k')).
  { destruct Hrows as [Ho|[Hne [p Hp]]]; (split; [by eauto using rows_outlast_unique, register_unique|]).
    - intros _. by eapply rows_traced_outlast.
    - done. }
  destruct Hk as [Hu' Hr']. split; [done|]. destruct Hm; cbn [app]; try (split_and!; by auto).
  - split_and!; [by apply Hr'| |constructor..]. apply verdict_Proved in H as (raw_id & response & Hresp & Hby & Hp).
    split; [apply Hp|]. exists raw_id. cbn [si_request si_credential]. split; [by eapply response_raw_id|].
    apply by_credential_id_exact in Hby as (c0 & Hc0 & <- & _ & ->); [|done]. cbn. by apply Hr.
  - split_and!; [by apply Hr'| |constructor..]. pose proof (enrolled_passkey_user _ _ _ _ _ H0) as Hpu.
    cbn in Hc |- *. rewrite <- Hpu in Hc, H0. split; [done|by exists rp, q].
  - split_and!; [|exact I|constructor|].
    + apply register_Ok in H as (_ & _ & _ & ->). intros r c. cbn [with_credentials k_credentials].
      rewrite lookup_insert. case_decide as Heq.
      * subst r. intros [= <-]. eexists. split; [by left|done].
      * intros Hc0. eapply enrolled_as_more; [|by apply Hr]. by apply list_subseteq_cons.
    + constructor; [exact Hc|constructor].
Qed.

Lemma step_ok s s' : step' s s' -> sys_ok s -> sys_ok s'.
Proof.
  intros Hs (Hu & Hr & Hc & Hx & He & Ho & Hn).
  destruct Hs as [s op _|s op Hfresh|s session ch e now k Hk|s i rp q|s se u rp q Hse|
    s before after t ch db k t' signs enrols Hsplit Ht]; unfold sys_ok, owners_ok;
    cbn [passkeys ceremonies signed_in enrolled owned].
  - done.
  - destruct (key_exec_rows (passkeys s) op) as [Hout _].
    assert (Hsub : owned s ⊆ opens (passkeys s) op ++ owned s) by (intros x Hin; apply elem_of_app; by right).
    split_and!; try done; [by eapply rows_outlast_unique|by eapply rows_traced_outlast|..].
    + eapply Forall_impl; [exact Hc|]. intros t. by apply ceremony_ok_more.
    + eapply Forall_impl; [exact He|]. intros x. by apply enrolment_proved_more.
    + by apply key_exec_owners.
    + by apply key_step_owners.
  - pose proof (issue_challenge_rows none_new (passkeys s) session ch e now) as [Hout _].
    assert (Hse : k_sessions k = k_sessions (passkeys s)).
    { revert Hk. unfold issue_challenge. destruct (k_enrolments _ !! session); [|done].
      destruct (_ <? _); [destruct (_ <? _)%nat|]; intros [= <-]; done. }
    rewrite Hk in Hout. cbn [fst] in Hout.
    split_and!; try done; [by eapply rows_outlast_unique|by eapply rows_traced_outlast|]. by rewrite Hse.
  - split_and!; try done. by constructor.
  - split_and!; try done. constructor; [by apply Ho|done].
  - rewrite Hsplit in Hc. apply Forall_app in Hc as [Hb [Hc Ha]%Forall_cons]. apply tick_move in Ht.
    pose proof (move_sessions _ _ _ _ _ _ _ _ _ Ht) as Hsess.
    apply (move_ok _ _ _ _ _ _ _ _ _ (owned s) (enrolled s)) in Ht as (Hu' & Hr' & Hc' & Hs' & He'); [|done..].
    assert (Hsub : enrolled s ⊆ enrols ++ enrolled s) by (intros x Hin; apply elem_of_app; by right).
    assert (Hmore : forall l, Forall (ceremony_ok (owned s) (enrolled s)) l ->
      Forall (ceremony_ok (owned s) (enrols ++ enrolled s)) l).
    { intros l Hl. eapply Forall_impl; [exact Hl|]. intros x. by apply ceremony_ok_more. }
    split_and!; try done.
    + apply Forall_app; split; [by apply Hmore|]. constructor; [done|by apply Hmore].
    + apply Forall_app; split; [done|]. eapply Forall_impl; [exact Hx|]. intros x. by apply traced_more.
    + apply Forall_app; split; [done|]. eapply Forall_impl; [exact He|]. done.
    + by rewrite Hsess.
Qed.

Lemma start_ok : sys_ok start.
Proof.
  unfold sys_ok. cbn. split_and!; try by constructor.
  - intros r r' c c'. cbn. by rewrite lookup_empty.
  - intros r c. cbn. by rewrite lookup_empty.
  - split; [|constructor]. intros d u. cbn. by rewrite lookup_empty.
Qed.

Lemma reachable_ok s : rtc step' start s -> sys_ok s.
Proof.
  intros Hr. pose proof start_ok as Hs. revert Hr Hs. generalize (start (Proof := Proof)).
  induction 1 as [|x y z Hxy _ IH]; intros Hx; [done|]. apply IH. by eapply step_ok.
Qed.

(** ** A blocked credential *)

(** A step after which the account still exists. *)
Definition step_of_user (u : list Z) s s' : Prop := step' s s' /\ u ∈ k_users (passkeys s').

(** The sign-ins a ceremony may still finish. *)
Definition pending t : option SignIn :=
  match t with CheckAccount x | RecordUse x => Some x | _ => None end.
Definition underway s x : Prop := x ∈ signed_in s \/ exists t, t ∈ ceremonies s /\ pending t = Some x.

(** A ceremony comes to name a credential only by reading it while it is enabled. *)
Lemma move_underway ch db k t db' k' t' signs enrols x :
  move ch db k t db' k' t' signs enrols -> unique_ids k ->
  pending t' = Some x \/ x ∈ signs ->
  pending t = Some x \/
  exists c, k_credentials k !! row (si_credential x) = Some c /\ c_disabled_at c = None.
Proof.
  intros Hm Hu. destruct Hm; cbn; try set_solver.
  intros [[= <-]|Hin]; [right|set_solver]. cbn.
  apply verdict_Proved in H as (raw_id & response & _ & Hby & _).
  apply by_credential_id_exact in Hby as (c0 & Hc0 & _ & Hn & _); [|done]. by exists c0.
Qed.

Definition blocked (r : list Z) (c : Credential) (at_ : Z) k : Prop :=
  exists c', k_credentials k !! r = Some c' /\ outlasts c c' /\ c_disabled_at c' = Some at_.

Lemma blocked_stays r c at_ k k' : rows_stay k k' -> blocked r c at_ k -> blocked r c at_ k'.
Proof.
  intros Hs (c1 & Hc & Ho & Hd). destruct (Hs _ _ Hc) as (c2 & Hc2 & Ho2). exists c2.
  split; [done|]. split; [by eapply outlasts_trans|]. by apply Ho2.
Qed.

Lemma step_blocked s s' r c at_ :
  step' s s' -> c_user c ∈ k_users (passkeys s') -> sys_ok s -> blocked r c at_ (passkeys s) ->
  blocked r c at_ (passkeys s') /\
  (forall x, row (si_credential x) = r -> underway s' x -> underway s x).
Proof.
  intros Hs Huser Hok Hb. pose proof Hok as (Hu & _). unfold underway.
  destruct Hs as [s op _|s op _|s session ch e now k Hk|s i rp q|s se u rp q _|
    s before after t ch db k t' signs enrols Hsplit Ht]; cbn [passkeys ceremonies signed_in enrolled] in *.
  - done.
  - split; [|done]. destruct (key_exec_rows (passkeys s) op) as [Ho Hst].
    destruct op; try (by eapply blocked_stays).
    destruct Hb as (c' & Hc & Hout & Hd). exists c'. split; [|done]. cbn in *.
    apply map_lookup_filter_Some. split; [done|]. cbn. destruct Hout as (-> & _). set_solver.
  - split; [|done]. pose proof (issue_challenge_rows none_new (passkeys s) session ch e now) as [_ Ho].
    rewrite Hk in Ho. by eapply blocked_stays.
  - split; [done|]. intros x _ [Hx|(t & Ht & Hp)]; [by left|].
    apply elem_of_cons in Ht as [->|Ht]; [done|]. right. eauto.
  - split; [done|]. intros x _ [Hx|(t & Ht & Hp)]; [by left|].
    apply elem_of_cons in Ht as [->|Ht]; [done|]. right. eauto.
  - apply tick_move in Ht. split; [eapply blocked_stays; [|done]; apply (move_rows _ _ _ _ _ _ _ _ _ Ht)|].
    intros x Hx Hund. rewrite Hsplit.
    assert (Hnew : pending t' = Some x \/ x ∈ signs ->
      x ∈ signed_in s \/ exists t0, t0 ∈ before ++ t :: after /\ pending t0 = Some x).
    { intros Hn. apply (move_underway _ _ _ _ _ _ _ _ _ x Ht Hu) in Hn as [Hp|(c1 & Hc1 & Hd1)].
      - right. exists t. split; [set_solver|done].
      - destruct Hb as (c2 & Hc2 & _ & Hd2). rewrite Hx in Hc1. congruence. }
    destruct Hund as [[Hin|Hin]%elem_of_app|(t0 & [Hin|[->|Hin]%elem_of_cons]%elem_of_app & Hp)]; auto;
      right; exists t0; (split; [set_solver|done]).
Qed.

(** A blocked passkey stays blocked while its account exists. Its row keeps account, id,
    key and the instant of the block; nobody finds it by its id, and nobody can enrol that
    id again; and the only sign-ins with it are those whose ceremony had read it before. *)
Theorem blocked_passkey_is_final s s' r c at_ :
  rtc step' start s -> k_credentials (passkeys s) !! r = Some c -> c_disabled_at c = Some at_ ->
  rtc (step_of_user (c_user c)) s s' ->
  (exists c', k_credentials (passkeys s') !! r = Some c' /\ outlasts c c' /\ c_disabled_at c' = Some at_) /\
  by_credential_id (passkeys s') (c_credential_id c) = None /\
  (forall p drawn now, np_credential_id p = c_credential_id c ->
     register (passkeys s') p drawn now = Err Conflict) /\
  (forall x, x ∈ signed_in s' -> row (si_credential x) = r -> underway s x).
Proof.
  intros Hr Hc Hd Hrun. apply reachable_ok in Hr.
  assert (Hb : blocked r c at_ (passkeys s)) by (exists c; auto with passkeys).
  assert (H : sys_ok s' /\ blocked r c at_ (passkeys s') /\
    (forall x, row (si_credential x) = r -> underway s' x -> underway s x)).
  { clear Hc. revert Hr Hb. induction Hrun as [x|x y z [Hxy Huser] _ IH]; intros Hok Hb; [by auto|].
    destruct (step_blocked _ _ _ _ _ Hxy Huser Hok Hb) as [Hb' Hund].
    destruct IH as (Hok' & Hb'' & Hund'); [by eapply step_ok|done|]. eauto. }
  destruct H as ((Hu & _) & Hb' & Hund). split; [exact Hb'|]. destruct Hb' as (c' & Hc' & Ho & Hd').
  destruct Ho as (_ & Hid & _). split_and!.
  - destruct (by_credential_id _ _) as [f|] eqn:Hf; [|done].
    apply by_credential_id_exact in Hf as (c1 & Hc1 & Hid1 & Hd1 & _); [|done].
    assert (Hrf : row f = r) by (eapply (Hu _ _ c1 c'); eauto; congruence). rewrite Hrf in Hc1. congruence.
  - intros p drawn now Hp. destruct (register _ _ _ _) as [k'|e] eqn:Hreg.
    + apply register_Ok in Hreg as (_ & Ht & _). destruct (id_not_taken _ _ _ _ Ht Hc'). congruence.
    + unfold register in Hreg. repeat case_match; congruence.
  - intros x Hin Hx. apply (Hund x Hx). by left.
Qed.

(** ** What a challenge is good for *)

(** The challenge a ceremony has spent and not yet used. *)
Definition ticket t : list (list Z * list Z) :=
  match t with
  | LookUp i _ _ spent => [(i, spent)]
  | CheckAccount x | RecordUse x => [(si_interaction x, si_challenge x)]
  | _ => []
  end.
Definition enrolment_ticket t : list (string * list Z) :=
  match t with StorePasskey se spent _ => [(se, spent)] | _ => [] end.
Definition answered_by (x : SignIn) : list Z * list Z := (si_interaction x, si_challenge x).
Definition stored_by (e : Enrolled) : string * list Z := (en_session e, en_challenge e).

Definition enrolment_held k (p : string * list Z) : nat :=
  count_if (bool_decide ((k_enrolments k !! p.1 ≫= e_challenge) = Some p.2)).

Lemma enrolment_held_le k k' p :
  (forall e', k_enrolments k' !! p.1 = Some e' -> e_challenge e' = None \/
     exists e, k_enrolments k !! p.1 = Some e /\ e_challenge e' = e_challenge e) ->
  (enrolment_held k' p <= enrolment_held k p)%nat.
Proof.
  intros H. unfold enrolment_held. destruct (k_enrolments k' !! p.1) as [e'|]; cbn [mbind option_bind];
    [|by rewrite bool_decide_false; [apply Nat.le_0_l|]].
  destruct (H e' eq_refl) as [->|(e & -> & ->)]; [|done].
  rewrite bool_decide_false by done. apply Nat.le_0_l.
Qed.

Lemma key_exec_held k op p : (enrolment_held (key_exec k op) p <= enrolment_held k p)%nat.
Proof.
  apply enrolment_held_le. intros e'. destruct op; cbn [key_exec]; try (intros H; right; exists e'; done).
  - unfold open_enrolment. destruct (bool_decide _); cbn; [|by right; exists e'].
    rewrite lookup_insert. case_decide; [intros [= <-]; by left|right; by exists e'].
  - unfold disable_for_user. destruct (k_credentials k !! row); [destruct (_ && _)|]; right; by exists e'.
  - unfold rename_for_user. destruct (k_credentials k !! row); [destruct (bool_decide _)|]; right; by exists e'.
  - cbn. intros [He _]%map_lookup_filter_Some. right. by exists e'.
  - cbn. intros [_ He]%lookup_delete_Some. right. by exists e'.
  - unfold rotate_session. destruct (k_sessions k !! old); [|right; by exists e']. cbn.
    intros [_ He]%lookup_delete_Some. right. by exists e'.
  - cbn. intros [He _]%map_lookup_filter_Some. right. by exists e'.
Qed.

Lemma issue_challenge_held k se challenge expires now k' p :
  issue_challenge k se challenge expires now = (k', Ok true) ->
  (enrolment_held k' p <= count_if (bool_decide ((se, challenge) = p)) + enrolment_held k p)%nat.
Proof.
  unfold issue_challenge. destruct (k_enrolments k !! se) as [e|] eqn:He; [|done].
  destruct (now <? _); [|done]. destruct (_ <? 16)%nat; [done|]. intros [= <-]. unfold enrolment_held. cbn.
  rewrite lookup_insert. destruct p as [se' c]. cbn. case_decide as Hs; cbn.
  - subst. do 2 case_bool_decide; cbn; try lia; exfalso; congruence.
  - lia.
Qed.

Lemma spend_challenge_held k se now k' r p :
  spend_challenge k se now = (k', r) ->
  (match r with Some spent => count_if (bool_decide ((se, spent) = p)) | None => 0 end +
   enrolment_held k' p <= enrolment_held k p)%nat.
Proof.
  unfold spend_challenge. destruct (k_enrolments k !! se) as [e|] eqn:He; [|by intros [= <- <-]].
  destruct (e_challenge e) as [c|] eqn:Hc; [|by intros [= <- <-]].
  destruct (now <? _); [|by intros [= <- <-]]. intros [= <- <-]. unfold enrolment_held. cbn.
  rewrite lookup_insert. destruct p as [se' c']. cbn. case_decide as Hs; cbn.
  - subst se'. rewrite He. cbn. rewrite Hc.
    do 3 case_bool_decide; cbn; try lia; exfalso; congruence.
  - rewrite bool_decide_false by congruence. done.
Qed.

Lemma move_counts ch db k t db' k' t' signs enrols p q :
  move ch db k t db' k' t' signs enrols -> unique_interactions db ->
  unique_interactions db' /\
  (times p (answered_by <$> signs) + times p (ticket t') + held db' p <= times p (ticket t) + held db p)%nat /\
  (times q (stored_by <$> enrols) + times q (enrolment_ticket t') + enrolment_held k' q
   <= times q (enrolment_ticket t) + enrolment_held k q)%nat.
Proof.
  intros Hm Hu.
  assert (Hspend : forall i now r, spend_assertion_challenge hex_decode db i now = (db', r) ->
    unique_interactions db' /\ (held db' p <= held db p)%nat).
  { intros i now r Hs. split.
    - pose proof (exec_unique hex_decode hex_encode proof_ok db (SpendChallenge i now) Hu) as H. cbn [exec] in H.
      by rewrite Hs in H.
    - pose proof (other_ops_held hex_decode hex_encode proof_ok db (SpendChallenge i now) p I) as H.
      cbn [exec] in H. by rewrite Hs in H. }
  assert (Hnil : forall A (EA : EqDecision A) (x : A), times x [] = 0%nat) by done.
  assert (Hother : forall k'', k_enrolments k'' = k_enrolments k -> enrolment_held k'' q = enrolment_held k q).
  { intros k'' E. unfold enrolment_held. by rewrite E. }
  destruct Hm as [t|i rp y j spent db' Hi Hs|i rp y db' r Hs|j rp y spent c Hv|j rp y spent c a Hv|r|x
    |x k' Hk|se u rp y|se u rp y k' spent e Hs Hp|se u rp y k' r Hs|se spent e k' Hr];
    cbn [ticket enrolment_ticket fmap list_fmap si_interaction si_challenge]; rewrite ?times_cons, ?Hnil; try (split_and!; [done|lia|lia]).
  - destruct (Hspend _ _ _ Hs) as [Hu' _].
    pose proof (spend_held hex_decode hex_encode proof_ok _ _ _ _ _ _ p Hu Hi Hs). split_and!; [done|lia|lia].
  - destruct (Hspend _ _ _ Hs) as [Hu' Hle]. split_and!; [done|lia|lia].
  - rewrite (Hother (disable k r (ch_now ch))) by done. split_and!; [done|lia|lia].
  - assert (Hk' : k_enrolments k' = k_enrolments k) by (by destruct Hk as [->| ->]).
    rewrite (Hother _ Hk'). unfold answered_by. split_and!; [done|lia|lia].
  - pose proof (spend_challenge_held _ _ _ _ _ q Hs). split_and!; [done|lia|lia].
  - pose proof (spend_challenge_held _ _ _ _ _ q Hs). split_and!; [done|lia|destruct r; lia].
  - apply register_Ok in Hr as (_ & _ & _ & ->).
    rewrite (Hother (with_credentials _ _)) by done. unfold stored_by.
    cbn [en_session en_challenge]. split_and!; [done|lia|lia].
Qed.

Definition counts_ok s : Prop :=
  unique_interactions (tables s) /\
  (forall p, (times p (answered_by <$> signed_in s) + times p (flat_map ticket (ceremonies s)) + held (tables s) p
              <= times p (issued s))%nat) /\
  (forall q, (times q (stored_by <$> enrolled s) + times q (flat_map enrolment_ticket (ceremonies s)) +
              enrolment_held (passkeys s) q <= times q (enrolment_issued s))%nat).

Lemma step_counts s s' : step' s s' -> counts_ok s -> counts_ok s'.
Proof.
  intros Hs (Hu & Hp & Hq). destruct Hs as [s op Hop|s op _|s session ch e now k Hk|s i rp y|s se u rp y _|
    s before after t ch db k t' signs enrols Hsplit Ht]; unfold counts_ok;
    cbn [tables passkeys ceremonies signed_in enrolled issued enrolment_issued flat_map ticket enrolment_ticket app];
    try done.
  - split_and!; [by apply exec_unique| |done]. intros p. specialize (Hp p). rewrite times_app.
    assert (Hle : (held (exec hex_decode hex_encode proof_ok (tables s) op) p
                   <= times p (issues hex_decode (tables s) op) + held (tables s) p)%nat); [|lia].
    destruct op; try (by apply other_ops_held). by apply issue_held.
  - split_and!; try done. intros q. specialize (Hq q). pose proof (key_exec_held (passkeys s) op q). lia.
  - split_and!; try done. intros q. specialize (Hq q). rewrite times_cons.
    pose proof (issue_challenge_held _ _ _ _ _ _ q Hk). lia.
  - apply tick_move in Ht. rewrite Hsplit in Hp, Hq. split_and!.
    + by apply (move_counts _ _ _ _ _ _ _ _ _ ([], []) (""%string, []) Ht).
    + intros p. pose proof (move_counts _ _ _ _ _ _ _ _ _ p (""%string, []) Ht Hu) as (_ & Hm & _).
      specialize (Hp p). rewrite fmap_app, times_app. rewrite flat_map_app, times_app in *.
      cbn [flat_map] in *. rewrite times_app in *. lia.
    + intros q. pose proof (move_counts _ _ _ _ _ _ _ _ _ ([], []) q Ht Hu) as (_ & _ & Hm).
      specialize (Hq q). rewrite fmap_app, times_app. rewrite flat_map_app, times_app in *.
      cbn [flat_map] in *. rewrite times_app in *. lia.
Qed.

Lemma start_counts : counts_ok start.
Proof.
  split_and!; [apply empty_unique| |]; intros p; apply Nat.le_0_r.
  - unfold held. cbn. rewrite lookup_empty. rewrite bool_decide_true by apply map_filter_empty. done.
  - unfold enrolment_held. cbn. by rewrite lookup_empty.
Qed.

Lemma reachable_counts s : rtc step' start s -> counts_ok s.
Proof.
  intros Hr. pose proof start_counts as Hs. revert Hr Hs. generalize (start (Proof := Proof)).
  induction 1 as [|x y z Hxy _ IH]; intros Hx; [done|]. apply IH. by eapply step_counts.
Qed.

(** C22: A challenge is good for one ceremony. Whatever runs at once, and however often a
    response is posted again, the sign-ins accepted on a challenge of an interaction are no
    more than the times it was issued to that interaction, and the passkeys stored on a
    challenge of a session no more than the times it was issued to that session. *)
Theorem challenge_answered_once s i challenge session :
  rtc step' start s ->
  (times (i, challenge) (answered_by <$> signed_in s) <= times (i, challenge) (issued s))%nat /\
  (times (session, challenge) (stored_by <$> enrolled s)
   <= times (session, challenge) (enrolment_issued s))%nat.
Proof.
  intros (_ & Hp & Hq)%reachable_counts. specialize (Hp (i, challenge)). specialize (Hq (session, challenge)). lia.
Qed.

Lemma times_pos {A} `{EqDecision A} (x : A) l : (0 < times x l)%nat <-> x ∈ l.
Proof.
  induction l as [|y l IH]; [split; [cbn; lia|by intros ?%elem_of_nil]|].
  rewrite times_cons, elem_of_cons, <- IH. case_bool_decide; cbn; naive_solver lia.
Qed.

(** What was answered was issued. *)
Lemma answered_issued s x : rtc step' start s -> x ∈ signed_in s -> (si_interaction x, si_challenge x) ∈ issued s.
Proof.
  intros (_ & Hp & _)%reachable_counts Hin. specialize (Hp (answered_by x)).
  assert (0 < times (answered_by x) (answered_by <$> signed_in s))%nat by (apply times_pos; by apply list_elem_of_fmap_2).
  apply times_pos. unfold answered_by in *. lia.
Qed.

Lemma stored_issued s e : rtc step' start s -> e ∈ enrolled s -> (en_session e, en_challenge e) ∈ enrolment_issued s.
Proof.
  intros (_ & _ & Hq)%reachable_counts Hin. specialize (Hq (stored_by e)).
  assert (0 < times (stored_by e) (stored_by <$> enrolled s))%nat by (apply times_pos; by apply list_elem_of_fmap_2).
  apply times_pos. unfold stored_by in *. lia.
Qed.

(** ** Who a passkey signs in *)

(** C21: A passkey signs in the account whose session enrolled it, and only with its key.
    However ceremonies, sweeps, removals, rotations and failures interleave, every sign-in
    was verified, with the key of the row it names and by the rule that a counter must
    move, over a challenge issued to its own interaction. That row, its account, its
    credential id, its key and its relying party are what an enrolment stored, verified
    over a challenge issued to the session that made it; and the account is that of this
    session, which has never been of another. *)
Theorem passkey_signs_in_its_enroller s x :
  rtc step' start s -> x ∈ signed_in s ->
  possessed x /\ (si_interaction x, si_challenge x) ∈ issued s /\
  exists e rp request, e ∈ enrolled s /\ en_row e = row (si_credential x) /\
    np_user (en_passkey e) = user (si_credential x) /\
    np_public_key (en_passkey e) = stored_key (si_credential x) /\
    decode base64_decode (fa_raw_id (si_request x)) = Some (np_credential_id (en_passkey e)) /\
    np_rp_id (en_passkey e) = rp_id (si_relying_party x) /\
    (en_session e, en_challenge e) ∈ enrolment_issued s /\
    enrolled_passkey' rp (user (si_credential x)) request (en_challenge e) = Some (en_passkey e) /\
    (forall u, (en_session e, u) ∈ owned s <-> u = user (si_credential x)).
Proof.
  intros Hr Hin. pose proof Hr as (_ & _ & _ & Hx & He & _ & Hn)%reachable_ok.
  rewrite Forall_forall in Hx. rewrite Forall_forall in He.
  destruct (Hx x Hin) as [Hp (id & Hid & e & Hine & H1 & H2 & H3 & H4 & H5)].
  destruct (He e Hine) as [Hown (rp & request & Hproved)]. rewrite H2 in Hown, Hproved.
  split; [done|]. split; [by apply answered_issued|].
  exists e, rp, request. rewrite H4, H5. destruct Hp as (c & raw & resp & key & _ & _ & _ & Hscope & _).
  split_and!; try done; [by apply stored_issued|]. intros u. split; [|by intros ->].
  intros Hu. by apply (one_owner (owned s) (en_session e)).
Qed.
End System.

(** ** A scheduler of the system *)

Section Play.
Variable sha256 : list Z -> list Z.
Variable sha256_hex : string -> string.
Variable from_slice : list Z -> option Parsed.
Variable base64_url : list Z -> string.
Variable base64_decode : string -> option (list Z).
Variable from_reader : list Z -> option Value.
Variable ecdsa_p256_sha256_asn1 : list Z -> list Z -> list Z -> bool.
Variable ed25519 : list Z -> list Z -> list Z -> bool.
Variable rsa_pkcs1_2048_8192_sha256 : list Z * list Z -> list Z -> list Z -> bool.
Variable hex_decode : string -> option (list Z).
Variable hex_encode : list Z -> string.
Context {Proof : Type}.
Variable proof_ok : Proof -> string -> Z -> result () DomainError.
Abbreviation tick' := (tick sha256 sha256_hex from_slice base64_url base64_decode from_reader
  ecdsa_p256_sha256_asn1 ed25519 rsa_pkcs1_2048_8192_sha256 hex_decode).
Abbreviation step' := (step sha256 sha256_hex from_slice base64_url base64_decode from_reader
  ecdsa_p256_sha256_asn1 ed25519 rsa_pkcs1_2048_8192_sha256 hex_decode hex_encode proof_ok).

Inductive Event : Type :=
| EvTables (op : Op Proof)
| EvKeys (op : KeyOp)
| EvOptions (session : string) (challenge : list Z) (expires_at now : Z)
| EvSignIn (interaction : string) (rp : RelyingParty) (request : FinishAssertion)
| EvEnrol (session : string) (rp : RelyingParty) (request : FinishRequest)
| EvTick (position : nat) (ch : Chance).

Definition play_event (s : Sys (Proof := Proof)) (ev : Event) : Sys :=
  match ev with
  | EvTables (SpendChallenge _ _) => s
  | EvTables op =>
      {| tables := exec hex_decode hex_encode proof_ok (tables s) op; passkeys := passkeys s;
         ceremonies := ceremonies s; signed_in := signed_in s; enrolled := enrolled s;
         issued := issues hex_decode (tables s) op ++ issued s; enrolment_issued := enrolment_issued s; owned := owned s |}
  | EvKeys op =>
      if forallb (fun su => negb (bool_decide (su.1 ∈ (owned s).*1))) (opens (passkeys s) op) then
        {| tables := tables s; passkeys := key_exec (passkeys s) op;
           ceremonies := ceremonies s; signed_in := signed_in s; enrolled := enrolled s;
           issued := issued s; enrolment_issued := enrolment_issued s;
           owned := opens (passkeys s) op ++ owned s |}
      else s
  | EvOptions session challenge expires_at now =>
      match issue_challenge (passkeys s) session challenge expires_at now with
      | (k, Ok true) =>
          {| tables := tables s; passkeys := k; ceremonies := ceremonies s; signed_in := signed_in s;
             enrolled := enrolled s; issued := issued s;
             enrolment_issued := (session, challenge) :: enrolment_issued s; owned := owned s |}
      | _ => s
      end
  | EvSignIn interaction rp request =>
      {| tables := tables s; passkeys := passkeys s;
         ceremonies := SpendFor interaction rp request :: ceremonies s;
         signed_in := signed_in s; enrolled := enrolled s;
         issued := issued s; enrolment_issued := enrolment_issued s; owned := owned s |}
  | EvEnrol session rp request =>
      match k_sessions (passkeys s) !! session with
      | Some user =>
          {| tables := tables s; passkeys := passkeys s;
             ceremonies := CheckEnrolment session user rp request :: ceremonies s;
             signed_in := signed_in s; enrolled := enrolled s;
             issued := issued s; enrolment_issued := enrolment_issued s; owned := owned s |}
      | None => s
      end
  | EvTick position ch =>
      match ceremonies s !! position with
      | Some c =>
          let '(db, k, c', signs, enrols) := tick' ch (tables s) (passkeys s) c in
          {| tables := db; passkeys := k;
             ceremonies := take position (ceremonies s) ++ c' :: drop (S position) (ceremonies s);
             signed_in := signs ++ signed_in s; enrolled := enrols ++ enrolled s;
             issued := issued s; enrolment_issued := enrolment_issued s; owned := owned s |}
      | None => s
      end
  end.

Lemma play_event_step s ev : play_event s ev = s \/ step' s (play_event s ev).
Proof.
  destruct ev as [op|op|session challenge expires_at now|i rp q|session rp q|n ch]; cbn [play_event].
  - destruct op; auto; right; by constructor.
  - destruct (forallb _ _) eqn:Hf; [right|by left]. constructor. intros d u Hin.
    rewrite forallb_forall in Hf. apply list_elem_of_In, Hf in Hin. cbn in Hin.
    by apply negb_true_iff, bool_decide_eq_false in Hin.
  - destruct (issue_challenge _ _ _ _ _) as [k [[]|]] eqn:Hk; auto. right. by eapply step_options.
  - right. constructor.
  - destruct (k_sessions (passkeys s) !! session) eqn:Hse; [right|by left]. by constructor.
  - destruct (ceremonies s !! n) as [c|] eqn:Hc; [|by left].
    destruct (tick' ch (tables s) (passkeys s) c) as [[[[db k] c'] signs] enrols] eqn:Ht.
    right. eapply step_tick; [|exact Ht]. symmetry. by apply take_drop_middle.
Qed.

Definition play_events (s : Sys) (events : list Event) : Sys := fold_left play_event events s.

(** Whether every state on the way satisfies a test. *)
Fixpoint all_along (test : Sys -> bool) (s : Sys) (events : list Event) : bool :=
  match events with
  | [] => true
  | ev :: events => test (play_event s ev) && all_along test (play_event s ev) events
  end.

Lemma play_events_along test events s : all_along test s events = true ->
  rtc (fun s s' => step' s s' /\ test s' = true) s (play_events s events).
Proof.
  revert s. unfold play_events. induction events as [|ev events IH]; intros s; [done|].
  cbn. intros [Ht Ha]%andb_true_iff. destruct (play_event_step s ev) as [He|Hs].
  - rewrite He in *. by apply IH.
  - eapply rtc_l; [by split|]. by apply IH.
Qed.

Lemma play_events_steps events s : rtc step' s (play_events s events).
Proof.
  assert (Ha : all_along (fun _ => true) s events = true).
  { revert s. by induction events as [|ev events IH]; intros s; [|apply IH]. }
  apply play_events_along in Ha. eapply rtc_subrel; [|exact Ha]. by intros x y [].
Qed.
End Play.

(** ** An enrolment and the sign-ins that follow *)

(** Two texts decode to the two halves of an enrolment; the others are those of sign-ins. *)
Definition sample_texts : list (string * list Z) :=
  [("id"%string, [9; 9; 9]); ("create"%string, [1]); ("attestation"%string, [163]); ("get"%string, [2]);
   ("data5"%string, repeat 5 32 ++ [5; 0; 0; 0; 5]); ("data6"%string, repeat 5 32 ++ [5; 0; 0; 0; 6]);
   ("signature"%string, [0])].
Definition sample_base64 (s : string) : option (list Z) :=
  snd <$> List.find (fun kv => String.eqb s kv.1) sample_texts.
Definition sample_client (b : list Z) : option Parsed :=
  match b with
  | [1] => Some {| p_ceremony := "webauthn.create"; p_challenge := "c"; p_origin := "https://id.example";
                   p_cross_origin := false |}
  | [2] => Some {| p_ceremony := "webauthn.get"; p_challenge := "c"; p_origin := "https://id.example";
                   p_cross_origin := false |}
  | _ => None
  end%string.
Definition sample_items (b : list Z) : option Value :=
  match b with
  | [163] => Some (Map [(Text "fmt", Text "none"); (Text "attStmt", Map []);
                        (Text "authData", Bytes (repeat 5 32 ++ [69; 0; 0; 0; 4] ++ repeat 0 16
                                                   ++ [0; 3; 9; 9; 9; 164; 1]))])
  | 164 :: 1 :: _ => Some (Map [(Integer 1, Integer 1); (Integer 3, Integer (-8)); (Integer (-1), Integer 6);
                                (Integer (-2), Bytes (repeat 7 32))])
  | _ => None
  end.
Definition sample_rp : RelyingParty := {|
  rp_id := "id.example"; rp_id_hash := repeat 5 32; rp_origins := ["https://id.example"%string];
  rp_user_verification := Required |}.
Definition sample_text (_ : list Z) : string := "c".
Definition sample_csrf (s : string) : string := s.
Definition at_time (now : Z) : Chance := {| ch_now := now; ch_active := true; ch_fails := false; ch_drawn := [77] |}.
Definition sample_sign_in (data : string) : FinishAssertion := {|
  fa_csrf := "t"; fa_kind := "public-key"; fa_raw_id := "id"; fa_client_data_json := "get";
  fa_authenticator_data := data; fa_signature := "signature"; fa_user_handle := None |}.
Abbreviation sample_play_events := (play_events (fun b => b) sample_csrf sample_client sample_text sample_base64
  sample_items accepts_all accepts_all accepts_all plain_hex (fun _ => "aa"%string) any_proof).

Definition sample_enrolment : list (Event (Proof := ())) := [
  EvKeys (AddUser [1]); EvKeys (AddSession "s" [1]); EvKeys (OpenEnrolment "s" "t" 100);
  EvOptions "s" (repeat 8 16) 100 1;
  EvEnrol "s" sample_rp {| fr_csrf := "t"; fr_kind := "public-key"; fr_client_data_json := "create";
                               fr_attestation_object := "attestation" |};
  EvTick 0 (at_time 2); EvTick 0 (at_time 2); EvTick 0 (at_time 2)].
Definition sample_offer (interaction : string) (challenge : list Z) : list (Event (Proof := ())) := [
  EvTables (BeginFirstParty interaction AccountHome 100 3);
  EvTables (IssueChallenge interaction challenge 100 4)].
Definition sample_arrival (interaction data : string) : Event (Proof := ()) :=
  EvSignIn interaction sample_rp (sample_sign_in data).
Definition sample_run : list (Event (Proof := ())) :=
  sample_enrolment ++ sample_offer "i" (repeat 3 16) ++ [sample_arrival "i" "data5"] ++ replicate 4 (EvTick 0 (at_time 5)).

Lemma sample_reachable events s :
  rtc (step (fun b => b) sample_csrf sample_client sample_text sample_base64 sample_items accepts_all accepts_all
         accepts_all plain_hex (fun _ => "aa"%string) any_proof) s (sample_play_events s events).
Proof. apply play_events_steps. Qed.

Definition sample_passkey : NewPasskey := {|
  np_user := [1]; np_credential_id := [9; 9; 9]; np_public_key := [164; 1]; np_sign_count := 4;
  np_aaguid := None; np_backup_eligible := false; np_backup_state := false; np_user_verified := true;
  np_rp_id := "id.example"; np_label := None |}.
Definition sample_signed_in : SignIn := {|
  si_interaction := bytes_of "i"; si_challenge := repeat 3 16; si_relying_party := sample_rp;
  si_request := sample_sign_in "data5";
  si_credential := registered ([77], registered_row sample_passkey 2);
  si_assertion := {| origin := "https://id.example"; ass_user_verified := true; ass_backup_eligible := false;
                     ass_backup_state := false; ass_sign_count := Advanced 5 |} |}.

Example sample_run_signs_in :
  let s := sample_play_events start sample_run in
  signed_in s = [sample_signed_in] /\ ceremonies s = [Over; Over] /\
  enrolled s = [{| en_session := "s"; en_challenge := repeat 8 16; en_row := [77]; en_passkey := sample_passkey |}] /\
  k_credentials (passkeys s) !! [77] = Some (c_used (Some 5) 5 (registered_row sample_passkey 2)).
Proof. vm_compute. repeat split. Qed.

Lemma passkey_signs_in_its_enroller_witness :
  exists e, e ∈ enrolled (sample_play_events start sample_run) /\ np_user (en_passkey e) = [1] /\
    (en_session e, [1]) ∈ owned (sample_play_events start sample_run).
Proof.
  edestruct (passkey_signs_in_its_enroller (fun b => b) sample_csrf sample_client sample_text sample_base64
    sample_items accepts_all accepts_all accepts_all plain_hex (fun _ => "aa"%string) any_proof
    (sample_play_events start sample_run) sample_signed_in) as (_ & _ & e & rp & q & He & _ & Hu & _ & _ & _ & _ & _ & Ho).
  - apply sample_reachable.
  - vm_compute. left.
  - exists e. split; [exact He|]. split; [exact Hu|]. apply Ho. reflexivity.
Defined.

Lemma challenge_answered_once_witness :
  times (bytes_of "i", repeat 3 16) (answered_by <$> signed_in (sample_play_events start sample_run)) = 1%nat /\
  (1 <= times (bytes_of "i", repeat 3%Z 16) (issued (sample_play_events start sample_run)))%nat.
Proof.
  assert (H : times (bytes_of "i", repeat 3 16)
    (answered_by <$> signed_in (sample_play_events start sample_run)) = 1%nat) by (vm_compute; reflexivity).
  split; [exact H|]. rewrite <- H.
  exact (proj1 (challenge_answered_once (fun b => b) sample_csrf sample_client sample_text sample_base64
    sample_items accepts_all accepts_all accepts_all plain_hex (fun _ => "aa"%string) any_proof
    (sample_play_events start sample_run) (bytes_of "i") (repeat 3 16) "s" (sample_reachable _ _))).
Defined.

(** The account blocks its passkey, and the browser tries it again. *)
Definition sample_block : list (Event (Proof := ())) := [EvKeys (DisableForUser [1] [77] 6)].
Definition sample_retry : list (Event (Proof := ())) :=
  sample_offer "j" (repeat 2 16) ++ [sample_arrival "j" "data6"] ++ replicate 4 (EvTick 0 (at_time 7)).

Lemma blocked_passkey_is_final_witness :
  exists c', by_credential_id (passkeys (sample_play_events start (sample_run ++ sample_block ++ sample_retry)))
               [9; 9; 9] = None /\
    k_credentials (passkeys (sample_play_events start (sample_run ++ sample_block ++ sample_retry))) !! [77] = Some c' /\
    c_disabled_at c' = Some 6.
Proof.
  assert (Heq : sample_play_events start (sample_run ++ sample_block ++ sample_retry) =
                sample_play_events (sample_play_events start (sample_run ++ sample_block)) sample_retry).
  { unfold play_events. by rewrite app_assoc, fold_left_app. }
  rewrite Heq.
  edestruct (blocked_passkey_is_final (fun b => b) sample_csrf sample_client sample_text sample_base64
    sample_items accepts_all accepts_all accepts_all plain_hex (fun _ => "aa"%string) any_proof
    (sample_play_events start (sample_run ++ sample_block))
    (sample_play_events (sample_play_events start (sample_run ++ sample_block)) sample_retry)
    [77] (c_disabled (Some 6) (c_used (Some 5) 5 (registered_row sample_passkey 2))) 6)
    as ((c' & Hc' & _ & Hd) & Hby & _).
  - apply sample_reachable.
  - vm_compute. reflexivity.
  - reflexivity.
  - eapply rtc_subrel; [|apply (play_events_along (fun b => b) sample_csrf sample_client sample_text sample_base64
      sample_items accepts_all accepts_all accepts_all plain_hex (fun _ => "aa"%string) any_proof
      (fun s => bool_decide ([1] ∈ k_users (passkeys s))))].
    + intros x y [Hs Hu%bool_decide_eq_true]. split; [exact Hs|exact Hu].
    + vm_compute. reflexivity.
  - exists c'. split_and!; [exact Hby|exact Hc'|exact Hd].
Defined.
