(* ===== verification/PasskeyCounters.v ===== *)
(** * Signature counters

    What the counter of a passkey is worth: strictly increasing where its ceremonies run
    one after the other, and not where two of them overlap, because the counter is read by
    one statement and written by another that does not compare. *)

From S2P Require Import Prelude Bytes BTree Json Session RateLimit Acr.
From S2P Require Import Refresh.
From S2P Require Import Grants.
From S2P Require Import GrantStore.
From S2P Require Import Codes.
From S2P Require Import Decision ConsentMemory.
From S2P Require Import Requests.
From S2P Require Import WebAuthn WebAuthnLaws Passkeys PasskeyLaws.
From Stdlib Require Import Sorting.Sorted.
Import PgPasskeyRepository.
Open Scope Z_scope.

(** The counters of the accepted assertions of a row, the latest first. *)
Definition accepted_counts (r : list Z) (log : list SignIn) : list Z :=
  omap (fun x => if bool_decide (row (si_credential x) = r) then advanced (si_assertion x) else None) log.

(** The ceremonies that have read a row and not written it yet. *)
Definition awaiting (r : list Z) (t : Ceremony) : bool :=
  match pending t with Some x => bool_decide (row (si_credential x) = r) | None => false end.
Definition waiting (r : list Z) (l : list Ceremony) : nat := length (List.filter (awaiting r) l).

Lemma waiting_app r l l' : waiting r (l ++ l') = (waiting r l + waiting r l')%nat.
Proof. unfold waiting. by rewrite List.filter_app, length_app. Qed.
Lemma waiting_cons r t l : waiting r (t :: l) = (count_if (awaiting r t) + waiting r l)%nat.
Proof. unfold waiting. cbn. by destruct (awaiting r t). Qed.

Lemma waiting_none r l t : waiting r l = 0%nat -> t ∈ l -> awaiting r t = false.
Proof.
  induction l as [|t' l IH]; [by intros _ ?%elem_of_nil|]. rewrite waiting_cons.
  intros Hn [->|Hin]%elem_of_cons; [by destruct (awaiting r t')|]. apply IH; [lia|done].
Qed.

(** A row that is still there, with its counter. *)
Definition stands (r u : list Z) (n : Z) (k : PasskeyDb) : Prop :=
  exists c, k_credentials k !! r = Some c /\ c_user c = u /\ c_sign_count c = n.

Lemma stands_update r u n k row f :
  (forall c, c_user (f c) = c_user c /\ c_sign_count (f c) = c_sign_count c) \/ row <> r ->
  stands r u n k -> stands r u n (update_row k row f).
Proof.
  intros Hf (c & Hc & Hu & Hn). unfold stands, update_row, with_credentials. cbn [k_credentials].
  destruct (decide (row = r)) as [->|Hne].
  - destruct Hf as [Hf|]; [|done]. destruct (Hf c) as [? ?].
    exists (f c). rewrite lookup_alter_eq, Hc. split_and!; [done|congruence|congruence].
  - exists c. by rewrite lookup_alter_ne.
Qed.

Lemma stands_same r u n k k' : k_credentials k' = k_credentials k -> stands r u n k -> stands r u n k'.
Proof. unfold stands. by intros ->. Qed.

Lemma key_exec_stands r u n k op :
  u ∈ k_users (key_exec k op) -> stands r u n k -> stands r u n (key_exec k op).
Proof.
  intros Hu Hs. destruct op; cbn [key_exec] in *; try (by eapply stands_same).
  - unfold open_enrolment. destruct (bool_decide _); [by eapply stands_same|done].
  - unfold disable_for_user. destruct (k_credentials k !! row) as [c|] eqn:Hc; [|done].
    destruct (_ && _); [|done]. destruct Hs as (c' & Hc' & Hs). unfold stands. cbn.
    rewrite lookup_insert. case_decide; [subst; exists (c_disabled (Some now) c)|by exists c'].
    split; [done|]. replace c with c' by congruence. done.
  - unfold rename_for_user. destruct (k_credentials k !! row) as [c|] eqn:Hc; [|done].
    destruct (bool_decide _); [|done]. destruct Hs as (c' & Hc' & Hs). unfold stands. cbn.
    rewrite lookup_insert. case_decide; [subst; exists (c_labelled label c)|by exists c'].
    split; [done|]. replace c with c' by congruence. done.
  - unfold rotate_session in *. destruct (k_sessions k !! old); [by eapply stands_same|done].
  - destruct Hs as (c & Hc & Hcu & Hn). exists c. split; [|done]. cbn in *.
    apply map_lookup_filter_Some. split; [done|]. cbn. set_solver.
Qed.

Section Counters.
Variable sha256 : list Z -> list Z.
Variable sha256_hex : string -> string.
Variable from_slice : list Z -> option Parsed.
Variable base64_url : list Z -> string.
Variable base64_decode : string -> option (list Z).
Variable from_reader : list Z -> option Value.
Variable ecdsa_p256_sha256_asn1 : list Z -> list Z -> list Z -> bool.
Variable ed25519 : list Z -> list Z -> list Z -> bool.
Variable rsa_pkcs1_2048_8192_sha256 : list Z * list Z -> list Z -> list Z -> bool.
Variable hex_decode : string -> option (list Z).
Variable hex_encode : list Z -> string.
Context {Proof : Type}.
Variable proof_ok : Proof -> string -> Z -> result () DomainError.
Abbreviation Sys := (Sys (Proof := Proof)).
Abbreviation step' := (step sha256 sha256_hex from_slice base64_url base64_decode from_reader
  ecdsa_p256_sha256_asn1 ed25519 rsa_pkcs1_2048_8192_sha256 hex_decode hex_encode proof_ok).
Abbreviation move' := (move (Proof := Proof) sha256 from_slice base64_url base64_decode from_reader
  ecdsa_p256_sha256_asn1 ed25519 rsa_pkcs1_2048_8192_sha256 hex_decode).
Abbreviation sys_ok' := (sys_ok sha256 from_slice base64_url base64_decode from_reader
  ecdsa_p256_sha256_asn1 ed25519 rsa_pkcs1_2048_8192_sha256).
Abbreviation verdict := (assertion_verdict sha256 from_slice base64_url base64_decode from_reader
  ecdsa_p256_sha256_asn1 ed25519 rsa_pkcs1_2048_8192_sha256).
Implicit Types (s : Sys) (k : PasskeyDb) (t : Ceremony) (db : Tables Proof).

(** What a decoded text holds are bytes. *)
Hypothesis decode_bytes : forall text b, base64_decode text = Some b -> Forall is_byte b.

(** The pending sign-ins of a row moved the counter it has. *)
Definition ahead (r : list Z) (n : Z) t : Prop :=
  forall x m, pending t = Some x -> row (si_credential x) = r -> advanced (si_assertion x) = Some m ->
    n < m < 2 ^ 32.

Lemma classify_Advanced presented stored m :
  classify presented stored = Advanced m -> m = presented /\ stored < presented.
Proof.
  unfold classify. destruct (_ && _); [done|]. destruct (Z.ltb_spec stored presented); [|done].
  by intros [= <-].
Qed.

Lemma assertion_advances rp challenge response key stored policy a m :
  Forall is_byte (ar_authenticator_data response) ->
  verify_assertion sha256 from_slice base64_url from_reader ecdsa_p256_sha256_asn1 ed25519
    rsa_pkcs1_2048_8192_sha256 rp challenge response key stored policy = good a ->
  ass_sign_count a = Advanced m -> stored < m < 2 ^ 32.
Proof.
  intros Hb. unfold verify_assertion. rewrite cbind_good. intros (client & _ & Ha).
  apply cbind_good in Ha as (asserted & Has%clift_good & Ha).
  apply assertion_data_good in Has as (flags & count & tail & Had & Hl & H4 & _ & ->).
  cbn [as_sign_count] in Ha. apply cbind_good in Ha as (_ & _ & Hg). intros Hm.
  assert (Hc : classify (from_be_bytes count) stored = Advanced m).
  { destruct (classify (from_be_bytes count) stored) as [|n|p s] eqn:Hk; [..|destruct policy; [done|]];
      injection Hg as <-; cbn [ass_sign_count] in Hm; congruence. }
  apply classify_Advanced in Hc as [-> Hlt]. split; [done|]. rewrite Had in Hb.
  apply Forall_app in Hb as [_ [_ [Hc _]%Forall_app]%Forall_cons].
  apply from_be_range in Hc. rewrite H4 in Hc. change (256 ^ Z.of_nat 4) with (2 ^ 32) in Hc. lia.
Qed.

Lemma proved_ahead k rp q spent c a m : verdict k rp q spent = Proved c a -> advanced a = Some m ->
  stored_count c < m < 2 ^ 32.
Proof.
  intros (raw_id & response & Hr & _ & Hp)%verdict_Proved Hm.
  destruct (Hp []) as (challenge & raw & resp & key & _ & Hr' & _ & _ & Hv). cbn [si_request] in Hr'.
  rewrite Hr in Hr'. injection Hr' as <- <-. eapply assertion_advances; [|exact Hv|].
  - unfold assertion_response in Hr. apply bind_Some in Hr as (x & _ & Hr). apply bind_Some in Hr as (y & _ & Hr).
    apply bind_Some in Hr as (z & Hz & Hr). apply bind_Some in Hr as (w & _ & Hr). injection Hr as <- <-.
    cbn. by eapply decode_bytes.
  - unfold advanced in Hm. cbn [si_assertion]. destruct (ass_sign_count a); congruence.
Qed.

(** One statement of the ceremonies of other rows, or a read of this one. *)
Lemma move_stands ch db k t db' k' t' signs enrols r u n :
  move' ch db k t db' k' t' signs enrols -> unique_ids k -> 0 <= n < 2 ^ 32 ->
  stands r u n k -> ahead r n t -> (forall x, t = RecordUse x -> row (si_credential x) <> r) ->
  stands r u n k' /\ ahead r n t' /\ accepted_counts r signs = [] /\
  (count_if (awaiting r t') <= 1)%nat.
Proof.
  intros Hm Hu Hn Hs Ha Huse. assert (H01 : forall b, (count_if b <= 1)%nat) by (intros []; cbn; lia).
  destruct Hm; try (split_and!; [done|done|done|apply H01]).
  - split_and!; [done| |done|apply H01]. intros x m [= <-] Hr Hm. cbn [si_credential si_assertion] in *.
    apply verdict_Proved in H as Hp. destruct Hp as (raw_id & response & _ & Hby & _).
    apply by_credential_id_exact in Hby as (c0 & Hc0 & _ & _ & Hc); [|done].
    apply (proved_ahead _ _ _ _ _ _ m) in H; [|done].
    destruct Hs as (c1 & Hc1 & _ & <-). rewrite Hr, Hc1 in Hc0. injection Hc0 as <-.
    rewrite Hc in H. cbn in H. unfold sign_count_of, in_range in H.
    rewrite (proj2 (Z.leb_le _ _)), (proj2 (Z.leb_le _ _)) in H by lia. cbn in H. lia.
  - split_and!; [|done|done|apply H01]. by apply stands_update; [left|].
  - specialize (Huse x eq_refl). split_and!; [|done| |apply H01].
    + destruct H as [->| ->]; [done|]. by apply stands_update; [right|].
    + cbn. by rewrite bool_decide_false.
  - split_and!; [|done|done|apply H01]. unfold spend_challenge in H.
    repeat case_match; injection H as <- _; done.
  - split_and!; [|done|done|apply H01]. unfold spend_challenge in H.
    repeat case_match; injection H as <- _; done.
  - split_and!; [|done|done|apply H01]. apply register_Ok in H as (Hnone & _ & _ & ->).
    destruct Hs as (c & Hc & Hs). exists c. split; [|done]. cbn. rewrite lookup_insert_ne; [done|]. congruence.
Qed.

(** ** One ceremony after the other *)

(** A step after which the account still exists, at most one ceremony is between its read
    of the row and its write, and a write that was due has been made. *)
Definition serial (r u : list Z) s s' : Prop :=
  step' s s' /\ u ∈ k_users (passkeys s') /\ (waiting r (ceremonies s') <= 1)%nat /\
  (forall x m, signed_in s' = x :: signed_in s -> row (si_credential x) = r ->
     advanced (si_assertion x) = Some m -> forall c, k_credentials (passkeys s') !! r = Some c ->
     c_sign_count c = m).

(** The counters accepted since, on top of the one the row had. *)
Definition counted (r u : list Z) (n : Z) (log : list SignIn) s : Prop :=
  exists new, signed_in s = new ++ log /\
    StronglySorted Z.gt (accepted_counts r new ++ [n]) /\
    stands r u (hd n (accepted_counts r new)) (passkeys s) /\
    0 <= hd n (accepted_counts r new) < 2 ^ 32 /\
    (waiting r (ceremonies s) <= 1)%nat /\
    (forall t, t ∈ ceremonies s -> ahead r (hd n (accepted_counts r new)) t).

Lemma counted_stands r u n log s s' :
  counted r u n log s -> signed_in s' = signed_in s -> (waiting r (ceremonies s') <= 1)%nat ->
  (forall t, t ∈ ceremonies s' -> t ∈ ceremonies s \/ pending t = None) ->
  (forall m, stands r u m (passkeys s) -> stands r u m (passkeys s')) -> counted r u n log s'.
Proof.
  intros (new & Hl & Hs & Hst & Hr & Hw & Ha) Hsame Hw' Hc Hk. exists new.
  split; [congruence|]. split; [done|]. split; [auto|]. split; [done|]. split; [done|]. intros t Ht. destruct (Hc t Ht) as [Hin|Hn]; [auto|].
  intros x m Hx. congruence.
Qed.

Lemma sorted_grows l n m : StronglySorted Z.gt (l ++ [n]) -> hd n l < m -> StronglySorted Z.gt (m :: l ++ [n]).
Proof.
  intros Hs Hm. constructor; [done|]. destruct l as [|x l]; cbn in *; [constructor; [lia|constructor]|].
  apply StronglySorted_inv in Hs as [_ Hx]. constructor; [lia|].
  eapply Forall_impl; [exact Hx|]. cbn. lia.
Qed.

(** The write of a counter this row was read for. *)
Lemma counted_write r u n log new k k' x now : 
  stands r u (hd n (accepted_counts r new)) k -> row (si_credential x) = r ->
  0 <= hd n (accepted_counts r new) < 2 ^ 32 -> StronglySorted Z.gt (accepted_counts r new ++ [n]) ->
  ahead r (hd n (accepted_counts r new)) (RecordUse x) ->
  k' = k \/ k' = record_assertion k r (advanced (si_assertion x)) now ->
  (forall m, advanced (si_assertion x) = Some m -> forall c, k_credentials k' !! r = Some c -> c_sign_count c = m) ->
  let l := accepted_counts r (x :: new) in
  [x] ++ new ++ log = (x :: new) ++ log /\ StronglySorted Z.gt (l ++ [n]) /\ stands r u (hd n l) k' /\
  0 <= hd n l < 2 ^ 32.
Proof.
  intros Hst Hx Hr Hs Ha Hk Hwrote. split; [done|]. unfold accepted_counts in *. cbn [omap list_omap].
  rewrite bool_decide_true by done. destruct (advanced (si_assertion x)) as [m|] eqn:Hm; cbn [hd app].
  - destruct (Ha x m eq_refl Hx Hm) as [Hlt Hmax]. split; [by apply sorted_grows|]. split; [|lia].
    assert (Hst' : exists c, k_credentials k' !! r = Some c /\ c_user c = u).
    { destruct Hst as (c & Hc & Hcu & _). destruct Hk as [->| ->]; [by exists c|].
      exists (c_used (Some m) now c). cbn. by rewrite lookup_alter_eq, Hc. }
    destruct Hst' as (c & Hc & Hcu). exists c. split_and!; [done|done|by eapply Hwrote].
  - split; [done|]. split; [|done]. destruct Hk as [->| ->]; [done|]. apply stands_update; [by left|done].
Qed.

Lemma counted_tick r u n log s before after t ch db k t' signs enrols :
  ceremonies s = before ++ t :: after -> unique_ids (passkeys s) ->
  move' ch (tables s) (passkeys s) t db k t' signs enrols ->
  let s' := {| tables := db; passkeys := k; ceremonies := before ++ t' :: after;
               signed_in := signs ++ signed_in s; enrolled := enrols ++ enrolled s;
               issued := issued s; enrolment_issued := enrolment_issued s; owned := owned s |} in
  (waiting r (ceremonies s') <= 1)%nat ->
  (forall x m, signed_in s' = x :: signed_in s -> row (si_credential x) = r ->
     advanced (si_assertion x) = Some m -> forall c, k_credentials k !! r = Some c -> c_sign_count c = m) ->
  counted r u n log s -> counted r u n log s'.
Proof.
  intros Hsplit Hu Hm s' Hw' Hwrote (new & Hl & Hs & Hst & Hr & Hw & Ha).
  assert (Hin : t ∈ ceremonies s) by (rewrite Hsplit; set_solver).
  assert (Hrest : forall t0, t0 ∈ before ++ t' :: after -> t0 = t' \/ t0 ∈ before ++ after) by set_solver.
  assert (Hold : forall t0, t0 ∈ before ++ after -> t0 ∈ ceremonies s) by (rewrite Hsplit; set_solver).
  assert (Hcase : (exists x, t = RecordUse x /\ row (si_credential x) = r) \/
    (forall x, t = RecordUse x -> row (si_credential x) <> r)).
  { destruct t as [| | | |x| | | |]; try by right.
    destruct (decide (row (si_credential x) = r)); [left; eauto|right; by intros y [= <-]]. }
  destruct Hcase as [(x & -> & Hx)|Hno].
  - inversion Hm; subst.
    + exists new. split; [done|]. split; [done|]. split; [done|]. split; [done|]. split; [done|].
      intros t0 [->|Hin0]%Hrest; auto. done.
    + assert (Hothers : forall t0, t0 ∈ before ++ after -> awaiting (row (si_credential x)) t0 = false).
      { intros t0. apply waiting_none. rewrite Hsplit, waiting_app, waiting_cons in Hw.
        rewrite waiting_app. cbn [awaiting pending] in Hw. rewrite bool_decide_true in Hw by done. cbn in Hw. lia. }
      destruct (counted_write (row (si_credential x)) u n log new (passkeys s) k x (ch_now ch)) as (H1 & H2 & H3 & H4); auto.
      { intros m Hx. by apply (Hwrote x m). }
      exists (x :: new). split; [cbn; by rewrite Hl|]. split; [done|]. split; [done|]. split; [done|]. split; [done|].
      intros t0 [->|Hin0]%Hrest; [done|]. intros y m Hy Hry. apply Hothers in Hin0. unfold awaiting in Hin0.
      rewrite Hy, bool_decide_true in Hin0 by done. done.
  
  - destruct (move_stands _ _ _ _ _ _ _ _ _ r u (hd n (accepted_counts r new)) Hm) as (Hk & Ht & Hnil & _); auto.
    exists (signs ++ new). unfold accepted_counts in *. rewrite omap_app, Hnil. cbn [app signed_in s'].
    split; [by rewrite Hl, app_assoc|]. split; [done|]. split; [done|]. split; [done|]. split; [done|]. intros t0 [->|Hin0]%Hrest; auto.
Qed.

Lemma serial_counted r u n log s s' :
  serial r u s s' -> sys_ok' s -> counted r u n log s -> counted r u n log s'.
Proof.
  intros (Hs & Hu & Hw & Hwrote) (Huniq & _) Hc.
  destruct Hs as [s op _|s op _|s session ch e now k Hk|s i rp q|s se us rp q _|
    s before after t ch db k t' signs enrols Hsplit Ht].
  - apply (counted_stands _ _ _ _ _ _ Hc); auto.
  - apply (counted_stands _ _ _ _ _ _ Hc); auto. intros m. by apply key_exec_stands.
  - apply (counted_stands _ _ _ _ _ _ Hc); auto. intros m. apply stands_same. cbn.
    unfold issue_challenge in Hk. repeat case_match; by simplify_eq.
  - apply (counted_stands _ _ _ _ _ _ Hc); auto. intros t [->|Hin]%elem_of_cons; auto.
  - apply (counted_stands _ _ _ _ _ _ Hc); auto. intros t [->|Hin]%elem_of_cons; auto.
  - apply tick_move in Ht. by eapply counted_tick.
Qed.

(** Where the ceremonies of a passkey do not overlap - none reads its row while another
    has yet to write it, and the writes succeed - its accepted counters strictly increase
    from the one it had, whatever else runs, so that no counter is accepted twice. *)
Theorem serial_counters_increase s s' r c :
  rtc step' start s -> k_credentials (passkeys s) !! r = Some c -> 0 <= c_sign_count c < 2 ^ 32 ->
  waiting r (ceremonies s) = 0%nat -> rtc (serial r (c_user c)) s s' ->
  exists new, signed_in s' = new ++ signed_in s /\
    StronglySorted Z.gt (accepted_counts r new ++ [c_sign_count c]).
Proof.
  intros Hr Hc Hn Hw Hrun. apply reachable_ok in Hr.
  assert (H : counted r (c_user c) (c_sign_count c) (signed_in s) s).
  { exists []. split; [done|]. split; [by repeat constructor|]. split; [by exists c|]. split; [done|].
    split; [lia|]. intros t Ht x m Hx Hrow. pose proof (waiting_none _ _ _ Hw Ht) as Hf. unfold awaiting in Hf.
    by rewrite Hx, bool_decide_true in Hf. }
  revert Hr H. generalize (c_user c) (c_sign_count c) (signed_in s) Hrun. clear -decode_bytes.
  intros u n log Hrun. induction Hrun as [s|x y z Hxy _ IH]; intros Hok H.
  - destruct H as (new & Hl & Hs & _). by exists new.
  - apply IH; [|by eapply serial_counted]. destruct Hxy as [Hs _]. by eapply step_ok.
Qed.
End Counters.

(** ** Two ceremonies at once *)

(** Both read the row when it counted four; the one that presented six writes first. *)
Definition sample_overlap : list (Event (Proof := ())) :=
  sample_enrolment ++ sample_offer "i" (repeat 3 16) ++ sample_offer "j" (repeat 2 16) ++
  [sample_arrival "i" "data6"; sample_arrival "j" "data5";
   EvTick 1 (at_time 5); EvTick 1 (at_time 5); EvTick 0 (at_time 5); EvTick 0 (at_time 5);
   EvTick 1 (at_time 6); EvTick 1 (at_time 6); EvTick 0 (at_time 7); EvTick 0 (at_time 7)].
Definition sample_again : list (Event (Proof := ())) :=
  sample_offer "l" (repeat 1 16) ++ [sample_arrival "l" "data6"] ++ replicate 4 (EvTick 0 (at_time 8)).

(** Where two ceremonies of a passkey overlap, its stored counter can go back, and a
    counter already accepted is accepted again: the write does not compare, so a copy of an
    authenticator that presents a counter the original has used is not noticed. *)
Theorem counter_accepted_twice : exists s1 s2,
  let step' := step (fun b => b) sample_csrf sample_client sample_text sample_base64 sample_items accepts_all
    accepts_all accepts_all plain_hex (fun _ => "aa"%string) any_proof in
  rtc step' start s1 /\ rtc step' s1 s2 /\
  accepted_counts [77] (signed_in s1) = [5; 6] /\
  c_sign_count <$> k_credentials (passkeys s1) !! [77] = Some 5 /\
  accepted_counts [77] (signed_in s2) = [6; 5; 6].
Proof.
  exists (sample_play_events start sample_overlap),
    (sample_play_events (sample_play_events start sample_overlap) sample_again).
  cbn zeta. split; [apply sample_reachable|]. split; [apply sample_reachable|].
  vm_compute. repeat split.
Qed.

Lemma sample_decode_bytes text b : sample_base64 text = Some b -> Forall is_byte b.
Proof.
  unfold sample_base64. intros (kv & Hf & ->)%fmap_Some. apply find_some in Hf as [Hin _].
  assert (H : Forall (fun kv : string * list Z => Forall is_byte kv.2) sample_texts)
    by (apply (bool_decide_unpack _); vm_compute; exact I).
  rewrite List.Forall_forall in H. exact (H _ Hin).
Qed.

Definition sample_turns : list (Event (Proof := ())) :=
  sample_offer "i" (repeat 3 16) ++ [sample_arrival "i" "data5"] ++ replicate 4 (EvTick 0 (at_time 5)) ++
  sample_offer "j" (repeat 2 16) ++ [sample_arrival "j" "data6"] ++ replicate 4 (EvTick 0 (at_time 6)).
Definition sample_serial (s : Sys (Proof := ())) : bool :=
  bool_decide ([1] ∈ k_users (passkeys s)) && (waiting [77%Z] (ceremonies s) <=? 1)%nat &&
  match signed_in s with
  | x :: _ => match advanced (si_assertion x) with
              | Some m => bool_decide (c_sign_count <$> k_credentials (passkeys s) !! [77] = Some m)
              | None => true
              end
  | [] => true
  end.

Lemma serial_counters_increase_witness :
  exists new, signed_in (sample_play_events (sample_play_events start sample_enrolment) sample_turns) = new /\
    accepted_counts [77] new = [6; 5] /\ StronglySorted Z.gt (accepted_counts [77] new ++ [4]).
Proof.
  edestruct (serial_counters_increase (fun b => b) sample_csrf sample_client sample_text sample_base64
    sample_items accepts_all accepts_all accepts_all plain_hex (fun _ => "aa"%string) any_proof sample_decode_bytes
    (sample_play_events start sample_enrolment)
    (sample_play_events (sample_play_events start sample_enrolment) sample_turns)
    [77] (registered_row sample_passkey 2)) as (new & Hnew & Hs).
  - apply sample_reachable.
  - vm_compute. reflexivity.
  - cbn. lia.
  - vm_compute. reflexivity.
  - eapply rtc_subrel; [|apply (play_events_along (fun b => b) sample_csrf sample_client sample_text sample_base64
      sample_items accepts_all accepts_all accepts_all plain_hex (fun _ => "aa"%string) any_proof sample_serial)].
    + intros x y [Hs [[Hu%bool_decide_eq_true Hw%Nat.leb_le]%andb_true_iff Hh]%andb_true_iff].
      split_and!; [exact Hs|exact Hu|exact Hw|]. intros z m Hz _ Hm c Hc. rewrite Hz, Hm in Hh.
      apply bool_decide_eq_true in Hh. rewrite Hc in Hh. by injection Hh.
    + vm_compute. reflexivity.
  - exists new. replace (signed_in (sample_play_events start sample_enrolment)) with (@nil SignIn) in Hnew
      by (vm_compute; reflexivity).
    rewrite app_nil_r in Hnew. split_and!; [exact Hnew| |exact Hs].
    rewrite <- Hnew. vm_compute. reflexivity.
Defined.
