(* ===== verification/Programs.v ===== *)
(** * Programs of statements

    Code that awaits one database statement after another is a program: a tree of
    statements, each with what follows for every answer. Programs run at once are turns
    taken in any order, in which a statement may fail and an answer may be lost. What a
    program may ask, and what it may count on, is a property of its tree that other
    programs do not disturb. *)

From S2P Require Import Prelude.
From S2P Require Import Grants.
From S2P Require Import GrantStore.

Section Programs.
(** Statements, and the answers to each. *)
Context {Q : Type} {R : Q -> Type}.

Inductive Prog (A : Type) : Type :=
| Ret (a : A)
| Ask (q : Q) (k : result (R q) DomainError -> Prog A).
Arguments Ret {A} a.
Arguments Ask {A} q k.

Fixpoint pbind {A B} (p : Prog A) (f : A -> Prog B) : Prog B :=
  match p with
  | Ret a => f a
  | Ask q k => Ask q (fun r => pbind (k r) f)
  end.

(** A statement by itself, and [.await?]. *)
Definition ask (q : Q) : Prog (result (R q) DomainError) := Ask q Ret.
Definition try_await {A B} (p : Prog (result A DomainError)) (f : A -> Prog (result B DomainError))
    : Prog (result B DomainError) :=
  pbind p (fun r => match r with Ok a => f a | Err e => Ret (Err e) end).

(** ** Runs *)

Section Runs.
Context {DB : Type} (exec : DB -> forall q, DB * result (R q) DomainError).

(** A program with nothing else running. *)
Fixpoint alone {A} (p : Prog A) (db : DB) : DB * A :=
  match p with
  | Ret a => (db, a)
  | Ask q k => let '(db, r) := exec db q in alone (k r) db
  end.

Lemma alone_bind {A B} (p : Prog A) (f : A -> Prog B) db :
  alone (pbind p f) db = let '(db, a) := alone p db in alone (f a) db.
Proof.
  revert db. induction p as [a|q k IH]; intros db; [done|]. cbn. destruct (exec db q) as [db' r]. apply IH.
Qed.

Lemma alone_try {A B} (p : Prog (result A DomainError)) (f : A -> Prog (result B DomainError)) db :
  alone (try_await p f) db =
  match alone p db with
  | (db, Ok a) => alone (f a) db
  | (db, Err e) => (db, Err e)
  end.
Proof. unfold try_await. rewrite alone_bind. destruct (alone p db) as [db' [a|e]]; done. Qed.

(** What a program comes to, whatever the answers. *)
Fixpoint always {A} (P : A -> Prop) (p : Prog A) : Prop :=
  match p with Ret a => P a | Ask q k => forall r, always P (k r) end.
Lemma always_then {A B} (P' : A -> Prop) (P : B -> Prop) (p : Prog A) (f : A -> Prog B) :
  always P' p -> (forall a, P' a -> always P (f a)) -> always P (pbind p f).
Proof. intros Hp Hf. induction p as [a|q k IH]; cbn; [by apply Hf|]. intros r. by apply IH. Qed.
Lemma always_bind {A B} (P : B -> Prop) (p : Prog A) (f : A -> Prog B) :
  (forall a, always P (f a)) -> always P (pbind p f).
Proof. intros Hf. by induction p as [a|q k IH]; cbn. Qed.
Lemma alone_always {A} (P : A -> Prop) (p : Prog A) db : always P p -> P (snd (alone p db)).
Proof.
  revert db. induction p as [a|q k IH]; intros db; [done|]. cbn. intros H. destruct (exec db q) as [db' r].
  apply IH, H.
Qed.

(** One turn: the statement runs, does not run, or runs and its answer is lost. *)
Inductive turn {A} (db : DB) : Prog A -> DB -> Prog A -> Prop :=
| turn_runs q k db' r : exec db q = (db', r) -> turn db (Ask q k) db' (k r)
| turn_fails q k : turn db (Ask q k) db (k (Err Storage))
| turn_lost q k db' r : exec db q = (db', r) -> turn db (Ask q k) db' (k (Err Storage)).
End Runs.

(** ** What a program may ask, and count on *)

Section Safety.
(** What is known grows; names are drawn for a program and it uses each once. *)
Context {K : Type} (le : relation K) `{!PreOrder le}.
Variable guard : K -> Q -> Prop.
Variable answer : K -> forall q, R q -> Prop.
Variable uses : Q -> gset string.

Fixpoint safe {A} (post : K -> gset string -> A -> Prop) (p : Prog A) (known : K) (mine : gset string) : Prop :=
  match p with
  | Ret a => post known mine a
  | Ask q k => forall known', le known known' ->
      guard known' q /\ uses q ⊆ mine /\
      forall r, (forall a, r = Ok a -> answer known' q a) -> safe post (k r) known' (mine ∖ uses q)
  end.

Lemma safe_grows {A} (post : K -> gset string -> A -> Prop) p known known' mine :
  (forall k k' m a, le k k' -> post k m a -> post k' m a) ->
  le known known' -> safe post p known mine -> safe post p known' mine.
Proof.
  intros Hpost Hle. destruct p as [a|q k]; cbn; [by apply Hpost|]. intros Hs known'' Hle'. apply Hs. by etrans.
Qed.

Lemma safe_weaken {A} (post post' : K -> gset string -> A -> Prop) p known mine :
  (forall k m a, post k m a -> post' k m a) -> safe post p known mine -> safe post' p known mine.
Proof.
  intros Hpost. revert known mine. induction p as [a|q k IH]; intros known mine; cbn; [apply Hpost|].
  intros Hs known' Hle. destruct (Hs known' Hle) as (Hg & Hu & Hk). split_and!; [done..|]. intros r Hr. by apply IH, Hk.
Qed.

Lemma safe_bind {A B} (post' : K -> gset string -> A -> Prop) (post : K -> gset string -> B -> Prop) p f known mine :
  safe post' p known mine ->
  (forall known' mine' a, le known known' -> mine' ⊆ mine -> post' known' mine' a -> safe post (f a) known' mine') ->
  safe post (pbind p f) known mine.
Proof.
  revert known mine. induction p as [a|q k IH]; intros known mine; cbn.
  - intros Ha Hf. by apply Hf.
  - intros Hs Hf known' Hle. destruct (Hs known' Hle) as (Hg & Hu & Hk). split_and!; [done..|].
    intros r Hr. apply IH; [by apply Hk|]. intros known'' mine'' a Hle' Hm. apply Hf; [by etrans|set_solver].
Qed.

Lemma safe_try {A B} (post' : K -> gset string -> A -> Prop)
    (post : K -> gset string -> result B DomainError -> Prop) p f known mine :
  safe (fun k m r => match r with Ok a => post' k m a | Err e => post k m (Err e) end) p known mine ->
  (forall known' mine' a, le known known' -> mine' ⊆ mine -> post' known' mine' a -> safe post (f a) known' mine') ->
  safe post (try_await p f) known mine.
Proof.
  intros Hp Hf. eapply safe_bind; [exact Hp|]. intros known' mine' [a|e] Hle Hm; cbn; [by apply Hf|done].
Qed.

Lemma safe_ask q (post : K -> gset string -> result (R q) DomainError -> Prop) known mine :
  (forall known', le known known' -> guard known' q /\ uses q ⊆ mine /\
     (forall e, post known' (mine ∖ uses q) (Err e)) /\
     (forall a, answer known' q a -> post known' (mine ∖ uses q) (Ok a))) ->
  safe post (ask q) known mine.
Proof.
  intros H known' Hle. destruct (H known' Hle) as (Hg & Hu & He & Ha). split_and!; [done..|].
  intros [a|e] Hr; cbn; [by apply Ha, Hr|apply He].
Qed.

(** A turn keeps a program safe, where the answer is one it may count on. *)
Lemma turn_safe {DB A} (exec : DB -> forall q, DB * result (R q) DomainError)
    (post : K -> gset string -> A -> Prop) db p db' p' known mine :
  turn exec db p db' p' -> safe post p known mine ->
  (forall q a, guard known q -> snd (exec db q) = Ok a -> answer known q a) ->
  exists mine', mine' ⊆ mine /\ safe post p' known mine' /\
    (db' = db \/ exists q, guard known q /\ uses q ⊆ mine /\ mine' = mine ∖ uses q /\ db' = fst (exec db q)).
Proof using PreOrder0.
  intros Ht Hs Hanswer. destruct Ht as [q k db' r He|q k|q k db' r He]; cbn in Hs;
    destruct (Hs known (reflexivity known)) as (Hg & Hu & Hk); exists (mine ∖ uses q); (split; [set_solver|]).
  - split; [|right; exists q; by rewrite He]. apply Hk. intros a ->. apply Hanswer; [done|by rewrite He].
  - split; [|by left]. by apply Hk.
  - split; [by apply Hk|]. right. exists q. by rewrite He.
Qed.
End Safety.
End Programs.

(** ** A program as part of one that may ask more *)

Section Hoist.
Context {Q Q' : Type} {R : Q -> Type} {R' : Q' -> Type} (f : Q -> Q') (g : forall q, R' (f q) -> R q).

Fixpoint hoist {A} (p : @Prog Q R A) : @Prog Q' R' A :=
  match p with
  | Ret _ a => Ret _ a
  | Ask _ q k =>
      Ask _ (f q) (fun r => hoist (k (match r with Ok a => Ok (g q a) | Err e => Err e end)))
  end.

Lemma safe_hoist {K A} (le : relation K) (guard : K -> Q -> Prop) (guard' : K -> Q' -> Prop)
    (answer : K -> forall q, R q -> Prop) (answer' : K -> forall q, R' q -> Prop) uses uses'
    (post : K -> gset string -> A -> Prop) p known mine :
  (forall k q, guard k q -> guard' k (f q)) ->
  (forall k q a, answer' k (f q) a -> answer k q (g q a)) ->
  (forall q, uses' (f q) = uses q) ->
  safe le guard answer uses post p known mine -> safe le guard' answer' uses' post (hoist p) known mine.
Proof.
  intros Hg Ha Hu. revert known mine. induction p as [a|q k IH]; intros known mine; cbn; [done|].
  intros Hs known' Hle. destruct (Hs known' Hle) as (Hq & Hm & Hk). rewrite Hu. split_and!; [auto|done|].
  intros r Hr. apply IH, Hk. intros a. destruct r as [a0|e]; [|done]. intros [= <-]. auto.
Qed.
End Hoist.
Arguments Prog {Q} R A.
Arguments Ret {Q R A} a.
Arguments Ask {Q R A} q k.

Notation "'await?' x ':=' p 'in' k" := (try_await p (fun x => k))
  (at level 10, x pattern, p at level 100, k at level 200) : idp_scope.
