(* ===== verification/Sessions.v ===== *)
(** * Browser sessions

    The repository of [store-pg/src/sessions.rs], the browser lookup of
    [domain/src/ports.rs], and what a verified credential is turned into by
    [server/src/http/step_up.rs]. A method of the repository that makes several statements
    is a program of them, since anything may run in between. *)

From S2P Require Import Prelude BTree Json Session Acr.
From S2P Require Import Grants.
From S2P Require Import GrantStore.
From S2P Require Import Decision.
From S2P Require Import Interaction.
From S2P Require Import Programs.
Open Scope Z_scope.

(** A row of [sessions], by its [session_id]. *)
Record SessionRow : Type := {
  r_public_sid : string;
  r_user : string;
  r_created_at : Z;
  r_authenticated_at : Z;
  r_last_seen_at : Z;
  r_expires_at : Z;
  r_idle_expires_at : Z;
  r_acr : option string;
  r_amr : list string;
  r_revoked_at : option Z;
  r_revocation_reason : option string
}.

(** A row of [session_assurance_proofs], by the same. *)
Record ProofRow : Type := {
  p_acr : option string;
  p_at : Z;
  p_revision : string;
  p_methods : list string
}.

(** Of a row of [grants] what a session's rotation reaches, with its rows of
    [grant_assurance_proofs] and [grant_session_lineage]. *)
Record GrantProof : Type := {
  gp_authenticated_at : Z;
  gp_acr : option string;
  gp_amr : list string;
  gp_at : Z;
  gp_revision : string;
  gp_methods : list string
}.
Record Lineage : Type := { li_user : string; li_public_sid : string; li_lookup : string }.
Record GrantRow : Type := {
  gr_user : string;
  gr_session : option string;
  gr_authenticated_at : option Z;
  gr_acr : option string;
  gr_amr : list string;
  gr_parent : option string;
  gr_proof : option GrantProof;
  gr_lineage : option Lineage
}.

Record SessionDb : Type := {
  d_users : gset string;
  d_policy : option Lifetimes;
  d_rows : gmap string SessionRow;
  d_proofs : gmap string ProofRow;
  d_clients : gmap (string * string) (Z * Z);
  d_grants : gmap string GrantRow
}.

Definition with_rows (db : SessionDb) (m : gmap string SessionRow) : SessionDb := {|
  d_users := d_users db; d_policy := d_policy db; d_rows := m; d_proofs := d_proofs db;
  d_clients := d_clients db; d_grants := d_grants db |}.
Definition with_proofs (db : SessionDb) (m : gmap string ProofRow) : SessionDb := {|
  d_users := d_users db; d_policy := d_policy db; d_rows := d_rows db; d_proofs := m;
  d_clients := d_clients db; d_grants := d_grants db |}.
Definition with_clients (db : SessionDb) (m : gmap (string * string) (Z * Z)) : SessionDb := {|
  d_users := d_users db; d_policy := d_policy db; d_rows := d_rows db; d_proofs := d_proofs db;
  d_clients := m; d_grants := d_grants db |}.
Definition with_grants (db : SessionDb) (m : gmap string GrantRow) : SessionDb := {|
  d_users := d_users db; d_policy := d_policy db; d_rows := d_rows db; d_proofs := d_proofs db;
  d_clients := d_clients db; d_grants := m |}.

Definition r_live (now : Z) (r : SessionRow) : bool :=
  match r_revoked_at r with None => true | Some _ => false end
  && (now <? r_expires_at r) && (now <? r_idle_expires_at r).

Definition r_touched (now idle_expires_at : Z) (r : SessionRow) : SessionRow := {|
  r_public_sid := r_public_sid r; r_user := r_user r; r_created_at := r_created_at r;
  r_authenticated_at := r_authenticated_at r;
  r_last_seen_at := Z.max (r_last_seen_at r) now; r_expires_at := r_expires_at r;
  r_idle_expires_at := Z.min (r_expires_at r) (Z.max (r_idle_expires_at r) idle_expires_at);
  r_acr := r_acr r; r_amr := r_amr r; r_revoked_at := r_revoked_at r;
  r_revocation_reason := r_revocation_reason r |}.

Definition r_rotated (now : Z) (amr : list string) (acr : option string) (r : SessionRow) : SessionRow := {|
  r_public_sid := r_public_sid r; r_user := r_user r; r_created_at := r_created_at r;
  r_authenticated_at := now;
  r_last_seen_at := Z.max (r_last_seen_at r) now; r_expires_at := r_expires_at r;
  r_idle_expires_at := r_idle_expires_at r;
  r_acr := acr; r_amr := amr; r_revoked_at := r_revoked_at r;
  r_revocation_reason := r_revocation_reason r |}.

(** [coalesce]. *)
Definition or_keep {A} (o : option A) (a : A) : option A := Some (default a o).

Definition r_revoked (now : Z) (reason : SessionRevocation) (r : SessionRow) : SessionRow := {|
  r_public_sid := r_public_sid r; r_user := r_user r; r_created_at := r_created_at r;
  r_authenticated_at := r_authenticated_at r; r_last_seen_at := r_last_seen_at r;
  r_expires_at := r_expires_at r; r_idle_expires_at := r_idle_expires_at r;
  r_acr := r_acr r; r_amr := r_amr r;
  r_revoked_at := or_keep (r_revoked_at r) now;
  r_revocation_reason := or_keep (r_revocation_reason r) (SessionRevocation.as_str reason) |}.

(** [VerifiedSessionRotation]. *)
Record VerifiedSessionRotation : Type := {
  v_methods : list AuthenticationMethod;
  v_acr : option string;
  v_assurance_authenticated_at : option Z;
  v_assurance_policy_revision : option string;
  v_assurance_methods : list AuthenticationMethod
}.

Record Participant : Type := { pa_client : string; pa_first_seen_at : Z; pa_last_seen_at : Z }.

Record SessionSummary : Type := {
  ss_public_sid : string;
  ss_created_at : Z;
  ss_authenticated_at : Z;
  ss_last_seen_at : Z;
  ss_expires_at : Z;
  ss_amr : list AuthenticationMethod;
  ss_acr : option string;
  ss_revoked : option (Z * string)
}.

Definition is_live (s : SessionSummary) (now : Z) : bool :=
  match ss_revoked s with None => true | Some _ => false end && (now <? ss_expires_at s).

(** ** Statements *)

Inductive Statement : Type :=
| ReadRow (id_digest : string)
| ReadProof (id_digest : string) (acr : option string) (authenticated_at : Z)
| ReadPolicy
| BeginSession (session : Session)
| TouchRow (id_digest : string) (now idle_expires_at : Z)
| RotateRow (old_digest new_digest user : string) (proof : VerifiedSessionRotation) (now : Z).

Definition Answer (q : Statement) : Type :=
  match q with
  | ReadRow _ => option SessionRow
  | ReadProof _ _ _ => option ProofRow
  | ReadPolicy => option Lifetimes
  | BeginSession _ => unit
  | TouchRow _ _ _ | RotateRow _ _ _ _ _ => bool
  end.

Abbreviation Prog := (Prog Answer).
Abbreviation ask := (ask (R := Answer)).

(** The schema's checks on a proof: a SHA-256 in hexadecimal, one to sixteen methods. *)
Definition is_hex (c : Ascii.ascii) : bool :=
  let n := Z.of_nat (Ascii.nat_of_ascii c) in in_range 48 57 n || in_range 97 102 n.
Definition is_revision (s : string) : bool :=
  (String.length s =? 64)%nat && forallb is_hex (String.list_ascii_of_string s).

Module PgSessionRepository.

Definition methods (stored : list string) : list AuthenticationMethod :=
  omap AuthenticationMethod.parse stored.

Definition store_proof (db : SessionDb) (digest : string) (proof : VerifiedSessionRotation) (now : Z)
    : result SessionDb DomainError :=
  let db := with_proofs db (delete digest (d_proofs db)) in
  match v_assurance_authenticated_at proof, v_assurance_policy_revision proof with
  | Some at_, Some revision =>
      if (now <? at_) || bool_decide (v_assurance_methods proof = []) then Err (Invalid "assurance_proof")
      else if is_revision revision && (length (v_assurance_methods proof) <=? 16)%nat then
        Ok (with_proofs db (<[digest := {|
              p_acr := v_acr proof; p_at := at_; p_revision := revision;
              p_methods := AuthenticationMethod.as_str <$> v_assurance_methods proof |}]> (d_proofs db)))
      else Err Storage
  | _, _ => Ok db
  end.

(** The deadlines [begin] gives a session under the policy it read. *)
Definition dated (policy : option Lifetimes) (s : Session) : Session :=
  match policy with
  | None => s
  | Some p =>
      let expires := s_created_at s + absolute p in
      {| s_tenant := s_tenant s; s_id_digest := s_id_digest s; s_public_sid := s_public_sid s;
         s_user := s_user s; s_created_at := s_created_at s; s_authenticated_at := s_authenticated_at s;
         s_assurance_authenticated_at := s_assurance_authenticated_at s;
         s_assurance_policy_revision := s_assurance_policy_revision s;
         s_assurance_methods := s_assurance_methods s; s_last_seen_at := s_last_seen_at s;
         s_expires_at := expires;
         s_idle_expires_at := Z.min (s_last_seen_at s + idle p) expires;
         s_acr := s_acr s; s_amr := s_amr s; s_revoked := s_revoked s |}
  end.

Definition inserted_row (s : Session) : SessionRow := {|
  r_public_sid := s_public_sid s; r_user := s_user s; r_created_at := s_created_at s;
  r_authenticated_at := s_authenticated_at s; r_last_seen_at := s_last_seen_at s;
  r_expires_at := s_expires_at s; r_idle_expires_at := s_idle_expires_at s;
  r_acr := s_acr s; r_amr := AuthenticationMethod.as_str <$> s_amr s;
  r_revoked_at := None; r_revocation_reason := None |}.

Definition sid_taken (db : SessionDb) (sid : string) : bool :=
  negb (bool_decide (filter (fun kr => r_public_sid kr.2 = sid) (d_rows db) = ∅)).

Definition rotation_of (s : Session) : VerifiedSessionRotation := {|
  v_methods := s_amr s; v_acr := s_acr s;
  v_assurance_authenticated_at := s_assurance_authenticated_at s;
  v_assurance_policy_revision := s_assurance_policy_revision s;
  v_assurance_methods := s_assurance_methods s |}.

(** The transaction of [begin]. *)
Definition begin_session (db : SessionDb) (s : Session) : result SessionDb DomainError :=
  guard? bool_decide (d_rows db !! s_id_digest s = None) else Conflict in
  guard? negb (sid_taken db (s_public_sid s)) else Conflict in
  guard? bool_decide (s_user s ∈ d_users db) else Conflict in
  store_proof (with_rows db (<[s_id_digest s := inserted_row s]> (d_rows db)))
    (s_id_digest s) (rotation_of s) (s_authenticated_at s).

Definition touch_row (db : SessionDb) (id_digest : string) (now idle_expires_at : Z) : SessionDb * bool :=
  match d_rows db !! id_digest with
  | Some r =>
      if r_live now r
      then (with_rows db (<[id_digest := r_touched now idle_expires_at r]> (d_rows db)), true)
      else (db, false)
  | None => (db, false)
  end.

(** The trigger [grants_capture_assurance_proof], where a rotation moves a grant: [clock]
    is the [clock_timestamp()] it reads. *)
Definition attested (rows : gmap string SessionRow) (old new : string) (clock : Z) (g : GrantRow) : bool :=
  match gr_lineage g, rows !! new with
  | Some l, Some s =>
      String.eqb (li_public_sid l) (r_public_sid s) && String.eqb (li_user l) (r_user s)
      && String.eqb (li_user l) (gr_user g) && String.eqb (li_lookup l) old && r_live clock s
  | _, _ => false
  end.

Definition moved_grant (rows : gmap string SessionRow) (old new user : string) (clock : Z) (g : GrantRow) : GrantRow :=
  if String.eqb (gr_user g) user && bool_decide (gr_session g = Some old) && negb (String.eqb old new) then
    let ok := attested rows old new clock g in
    {| gr_user := gr_user g; gr_session := Some new; gr_authenticated_at := gr_authenticated_at g;
       gr_acr := gr_acr g; gr_amr := gr_amr g; gr_parent := gr_parent g;
       gr_proof := if ok then gr_proof g else None;
       gr_lineage :=
         if ok then match gr_lineage g with
                    | Some l => Some {| li_user := li_user l; li_public_sid := li_public_sid l; li_lookup := new |}
                    | None => None
                    end
         else None |}
  else g.

(** The foreign keys follow a rotated id. *)
Definition rekeyed {V} (old new : string) (m : gmap string V) : gmap string V :=
  match m !! old with Some v => <[new := v]> (delete old m) | None => m end.
Definition rekeyed_clients (old new : string) (m : gmap (string * string) (Z * Z)) : gmap (string * string) (Z * Z) :=
  list_to_map ((fun kv => (if String.eqb kv.1.1 old then (new, kv.1.2) else kv.1, kv.2)) <$> map_to_list m).

(** The transaction of [rotate_verified]. *)
Definition rotate_row (db : SessionDb) (old new user : string) (proof : VerifiedSessionRotation) (now clock : Z)
    : SessionDb * result bool DomainError :=
  match d_rows db !! old with
  | Some r =>
      if r_live now r then
        if bool_decide (new <> old /\ is_Some (d_rows db !! new)) then (db, Err Conflict)
        else
          let rows := <[new := r_rotated now (AuthenticationMethod.as_str <$> v_methods proof) (v_acr proof) r]>
                        (delete old (d_rows db)) in
          match store_proof
                  {| d_users := d_users db; d_policy := d_policy db; d_rows := rows;
                     d_proofs := rekeyed old new (d_proofs db);
                     d_clients := rekeyed_clients old new (d_clients db);
                     d_grants := moved_grant rows old new user clock <$> d_grants db |} new proof now with
          | Ok db' => (db', Ok true)
          | Err e => (db, Err e)
          end
      else (db, Ok false)
  | None => (db, Ok false)
  end.

(** What a statement does. *)
Definition exec (clock : Z) (db : SessionDb) (q : Statement) : SessionDb * result (Answer q) DomainError :=
  match q with
  | ReadRow id_digest => (db, Ok (d_rows db !! id_digest))
  | ReadProof id_digest acr authenticated_at =>
      (db, Ok (p ← d_proofs db !! id_digest;
               if bool_decide (p_acr p = acr) && (p_at p <=? authenticated_at) then Some p else None))
  | ReadPolicy => (db, Ok (d_policy db))
  | BeginSession session =>
      match begin_session db session with Ok db' => (db', Ok tt) | Err e => (db, Err e) end
  | TouchRow id_digest now idle_expires_at =>
      let '(db', b) := touch_row db id_digest now idle_expires_at in (db', Ok b)
  | RotateRow old new user proof now => rotate_row db old new user proof now clock
  end.

(** ** Methods *)

Section Methods.
Variable tenant : string.

Definition begin (session : Session) : Prog (result unit DomainError) :=
  if negb (String.eqb (s_tenant session) tenant) then Ret (Err NotFound)
  else await? policy := ask ReadPolicy in ask (BeginSession (dated policy session)).

Definition loaded (id_digest : string) (row : SessionRow) : Session := {|
  s_tenant := tenant; s_id_digest := id_digest; s_public_sid := r_public_sid row; s_user := r_user row;
  s_created_at := r_created_at row; s_authenticated_at := r_authenticated_at row;
  s_assurance_authenticated_at := None; s_assurance_policy_revision := None; s_assurance_methods := [];
  s_last_seen_at := r_last_seen_at row; s_expires_at := r_expires_at row;
  s_idle_expires_at := r_idle_expires_at row; s_acr := r_acr row; s_amr := methods (r_amr row);
  s_revoked := at_ ← r_revoked_at row;
               Some (at_, default Administrative (r_revocation_reason row ≫= SessionRevocation.parse)) |}.

Definition proven (proof : option ProofRow) (s : Session) : Session :=
  match proof with
  | Some p =>
      match mapM AuthenticationMethod.parse (p_methods p) with
      | Some ms =>
          {| s_tenant := s_tenant s; s_id_digest := s_id_digest s; s_public_sid := s_public_sid s;
             s_user := s_user s; s_created_at := s_created_at s; s_authenticated_at := s_authenticated_at s;
             s_assurance_authenticated_at := Some (p_at p);
             s_assurance_policy_revision := Some (p_revision p); s_assurance_methods := ms;
             s_last_seen_at := s_last_seen_at s; s_expires_at := s_expires_at s;
             s_idle_expires_at := s_idle_expires_at s; s_acr := s_acr s; s_amr := s_amr s;
             s_revoked := s_revoked s |}
      | None => s
      end
  | None => s
  end.

Definition constrained (policy : option Lifetimes) (s : Session) : Session :=
  match policy with Some p => SessionPolicy.constrain p s | None => s end.

Definition find (id_digest : string) : Prog (result (option Session) DomainError) :=
  await? row := ask (ReadRow id_digest) in
  match row with
  | None => Ret (Ok None)
  | Some row =>
      let session := loaded id_digest row in
      await? proof := ask (ReadProof id_digest (s_acr session) (s_authenticated_at session)) in
      await? policy := ask ReadPolicy in
      Ret (Ok (Some (constrained policy (proven proof session))))
  end.

Definition touch_stored (id_digest : string) (now idle_expires_at : Z) : Prog (result unit DomainError) :=
  await? updated := ask (TouchRow id_digest now idle_expires_at) in
  Ret (if updated : bool then Ok tt else Err NotFound).

Definition touch (id_digest : string) (now idle_ : Z) : Prog (result unit DomainError) :=
  await? found := find id_digest in
  match found with
  | None => Ret (Err NotFound)
  | Some session =>
      if negb (is_usable (Session.status session now)) then Ret (Err NotFound)
      else
        await? policy := ask ReadPolicy in
        let idle_ := match policy with Some p => idle p | None => idle_ end in
        touch_stored id_digest now (Z.min (now + idle_) (s_expires_at session))
  end.

Definition rotate_verified (old_digest new_digest : string) (proof : VerifiedSessionRotation) (now : Z)
    : Prog (result unit DomainError) :=
  await? found := find old_digest in
  match found with
  | None => Ret (Err NotFound)
  | Some session =>
      if negb (is_usable (Session.status session now)) then Ret (Err NotFound)
      else
        await? updated := ask (RotateRow old_digest new_digest (s_user session) proof now) in
        Ret (if updated : bool then Ok tt else Err NotFound)
  end.

Definition rotate (old_digest new_digest : string) (methods : list AuthenticationMethod) (acr : option string)
    (now : Z) : Prog (result unit DomainError) :=
  rotate_verified old_digest new_digest
    {| v_methods := methods; v_acr := acr; v_assurance_authenticated_at := None;
       v_assurance_policy_revision := None; v_assurance_methods := [] |} now.

(** The default method of the port. *)
Definition find_for_browser (id_digest : string) (now : Z) : Prog (result (option Session) DomainError) :=
  await? found := find id_digest in
  match found with
  | None => Ret (Ok None)
  | Some session =>
      if negb (is_usable (Session.status session now)) then Ret (Ok None)
      else pbind (touch id_digest now DEFAULT_IDLE_TIMEOUT) (fun r =>
             Ret match r with
                 | Ok _ => Ok (Some session)
                 | Err NotFound => Ok None
                 | Err e => Err e
                 end)
  end.
End Methods.

(** Methods of one statement. *)

Definition revoke (db : SessionDb) (id_digest : string) (reason : SessionRevocation) (now : Z) : SessionDb :=
  with_rows db (alter (r_revoked now reason) id_digest (d_rows db)).

Definition revoke_all_for_user (db : SessionDb) (user : string) (reason : SessionRevocation) (now : Z)
    : SessionDb * nat :=
  let ends r := String.eqb (r_user r) user && match r_revoked_at r with None => true | Some _ => false end in
  (with_rows db ((fun r => if ends r then r_revoked now reason r else r) <$> d_rows db),
   length (List.filter (fun kr => ends kr.2) (map_to_list (d_rows db)))).

Definition record_participant (db : SessionDb) (id_digest client : string) (now : Z)
    : result SessionDb DomainError :=
  guard? bool_decide (is_Some (d_rows db !! id_digest)) else Conflict in
  let first := match d_clients db !! (id_digest, client) with Some (first, _) => first | None => now end in
  Ok (with_clients db (<[(id_digest, client) := (first, now)]> (d_clients db))).

(** [order by first_seen_at]. *)
Definition participants (db : SessionDb) (id_digest : string) : list Participant :=
  sort_by (fun a b => pa_first_seen_at a <=? pa_first_seen_at b)
    (omap (fun kv : string * string * (Z * Z) =>
             if String.eqb kv.1.1 id_digest
             then Some {| pa_client := kv.1.2; pa_first_seen_at := kv.2.1; pa_last_seen_at := kv.2.2 |}
             else None) (map_to_list (d_clients db))).

(** What is left when the rows that fail a test are deleted: proofs and participants go with
    their session, and the lineage of a grant with its public id. *)
Definition keep_rows (keep : string -> SessionRow -> bool) (db : SessionDb) : SessionDb :=
  let rows := filter (fun kr => keep kr.1 kr.2 = true) (d_rows db) in
  let sid_kept sid := negb (bool_decide (filter (fun kr => r_public_sid kr.2 = sid) rows = ∅)) in
  {| d_users := d_users db; d_policy := d_policy db; d_rows := rows;
     d_proofs := filter (fun kp => is_Some (rows !! kp.1)) (d_proofs db);
     d_clients := filter (fun kp => is_Some (rows !! kp.1.1)) (d_clients db);
     d_grants := (fun g => {| gr_user := gr_user g; gr_session := gr_session g;
                    gr_authenticated_at := gr_authenticated_at g; gr_acr := gr_acr g; gr_amr := gr_amr g;
                    gr_parent := gr_parent g; gr_proof := gr_proof g;
                    gr_lineage := l ← gr_lineage g; if sid_kept (li_public_sid l) then Some l else None |})
                   <$> d_grants db |}.

Definition purge_expired (db : SessionDb) (now : Z) : SessionDb :=
  keep_rows (fun _ r => now <? r_expires_at r) db.

(** The retention sweep, a batch of them. *)
Definition sweep_sessions (db : SessionDb) (now : Z) (picked : list string) : SessionDb :=
  keep_rows (fun d r => negb (in_strings d picked) || (now <? r_expires_at r)) db.

(** [order by created_at desc]. *)
Definition of_user (db : SessionDb) (user : string) : list (string * SessionRow) :=
  sort_by (fun a b => r_created_at b.2 <=? r_created_at a.2)
    (List.filter (fun kr => String.eqb (r_user kr.2) user) (map_to_list (d_rows db))).

Definition summary (r : SessionRow) : SessionSummary := {|
  ss_public_sid := r_public_sid r; ss_created_at := r_created_at r;
  ss_authenticated_at := r_authenticated_at r; ss_last_seen_at := r_last_seen_at r;
  ss_expires_at := r_expires_at r; ss_amr := methods (r_amr r); ss_acr := r_acr r;
  ss_revoked := at_ ← r_revoked_at r; reason ← r_revocation_reason r ≫= SessionRevocation.parse;
                Some (at_, SessionRevocation.as_str reason) |}.
Definition summaries_for_user (db : SessionDb) (user : string) : list SessionSummary :=
  (fun kr => summary kr.2) <$> of_user db user.

Definition digest_of_sid (db : SessionDb) (public_sid : string) : option string :=
  fst <$> head (map_to_list (filter (fun kr => r_public_sid kr.2 = public_sid) (d_rows db))).

Definition live_digests_for_user (db : SessionDb) (user : string) (now : Z) : list string :=
  fst <$> List.filter (fun kr => match r_revoked_at kr.2 with None => true | Some _ => false end
                                 && (now <? r_expires_at kr.2)) (of_user db user).
End PgSessionRepository.
Import PgSessionRepository.

(** ** Grants and the proof of a session *)

(** The trigger [grants_capture_assurance_proof], where a grant is inserted or its tuple
    of authentication changes. *)
Definition source_proof (db : SessionDb) (g : GrantRow) : option GrantProof :=
  at_ ← gr_authenticated_at g;
  digest ← gr_session g;
  s ← d_rows db !! digest;
  p ← d_proofs db !! digest;
  if String.eqb (r_user s) (gr_user g) && (r_authenticated_at s =? at_) && bool_decide (r_acr s = gr_acr g)
     && bool_decide (r_amr s = gr_amr g) && bool_decide (p_acr p = r_acr s) && (p_at p <=? r_authenticated_at s)
  then Some {| gp_authenticated_at := at_; gp_acr := gr_acr g; gp_amr := gr_amr g; gp_at := p_at p;
               gp_revision := p_revision p; gp_methods := p_methods p |}
  else None.

Definition parent_proof (db : SessionDb) (g : GrantRow) : option GrantProof :=
  at_ ← gr_authenticated_at g;
  parent ← gr_parent g ≫= fun id => d_grants db !! id;
  p ← gr_proof parent;
  if String.eqb (gr_user parent) (gr_user g) && bool_decide (gr_authenticated_at parent = Some at_)
     && bool_decide (gr_acr parent = gr_acr g) && bool_decide (gr_amr parent = gr_amr g)
     && (gp_authenticated_at p =? at_) && bool_decide (gp_acr p = gr_acr parent)
     && bool_decide (gp_amr p = gr_amr parent)
  then Some {| gp_authenticated_at := at_; gp_acr := gr_acr g; gp_amr := gr_amr g; gp_at := gp_at p;
               gp_revision := gp_revision p; gp_methods := gp_methods p |}
  else None.

Definition source_lineage (db : SessionDb) (g : GrantRow) : option Lineage :=
  at_ ← gr_authenticated_at g;
  digest ← gr_session g;
  s ← d_rows db !! digest;
  if String.eqb (r_user s) (gr_user g) && (r_authenticated_at s =? at_) && bool_decide (r_acr s = gr_acr g)
     && bool_decide (r_amr s = gr_amr g)
  then Some {| li_user := gr_user g; li_public_sid := r_public_sid s; li_lookup := digest |}
  else None.

Definition captured (db : SessionDb) (g : GrantRow) : GrantRow := {|
  gr_user := gr_user g; gr_session := gr_session g; gr_authenticated_at := gr_authenticated_at g;
  gr_acr := gr_acr g; gr_amr := gr_amr g; gr_parent := gr_parent g;
  gr_proof := match source_proof db g with Some p => Some p | None => parent_proof db g end;
  gr_lineage := source_lineage db g |}.

(** [hydrate_assurance]: the proof of a grant as it is read. *)
Definition hydrate_assurance (g : GrantRow) : option (Z * string * list AuthenticationMethod) :=
  at_ ← gr_authenticated_at g;
  p ← gr_proof g;
  if (gp_authenticated_at p =? at_) && bool_decide (gp_acr p = gr_acr g)
     && bool_decide (gp_amr p = AuthenticationMethod.as_str <$> methods (gr_amr g))
  then ms ← mapM AuthenticationMethod.parse (gp_methods p); Some (gp_at p, gp_revision p, ms)
  else None.

(** ** Turning a credential into a session *)

Record ClassProof : Type := {
  cp_at : Z;
  cp_revision : string;
  cp_methods : list AuthenticationMethod
}.

Record Established : Type := { es_digest : string; es_essential_satisfied : bool }.
Inductive Establishment : Type := WasEstablished (e : Established) | Insufficient.

(** A method that says nothing of when, or whether, a person did something here. *)
Definition elsewhere (m : AuthenticationMethod) : bool :=
  match m with FederatedOidc | ExistingSession => true | _ => false end.

Definition locally_proved (ms : list AuthenticationMethod) : bool :=
  match ms with [] => false | _ => negb (existsb elsewhere ms) end.

Definition merged (already just_used : list AuthenticationMethod) : list AuthenticationMethod :=
  fold_left (fun ms m => if bool_decide (m ∈ ms) then ms else ms ++ [m]) just_used
    (List.filter (fun m => negb (bool_decide (m = ExistingSession))) already).

Definition essential_satisfied (acr : option string) (requested : Requirements) : bool :=
  match essential_acr requested with
  | [] => true
  | essential => is_some_and (fun value => in_strings value essential) acr
  end.

Section StepUp.
Variable sha256_hex : string -> string.
Variable json_text : value -> string.
Variable tenant : string.

Definition revision_of (policy : AcrPolicy) : string := sha256_hex (json_text (AcrPolicy.to_json policy)).

Definition meets (policy : AcrPolicy) (assigned : option string) (ms : list AuthenticationMethod) : bool :=
  is_none_or (fun class => is_some_and (fun level => AcrLevel.is_met_by level ms) (AcrPolicy.level policy class))
    assigned.

Definition class_proof (policy : AcrPolicy) (session : Session) (proved : list AuthenticationMethod)
    (assigned : option string) (now : Z) : option ClassProof :=
  let revision := revision_of policy in
  if locally_proved proved && meets policy assigned proved then
    Some {| cp_at := now; cp_revision := revision; cp_methods := proved |}
  else if negb (bool_decide (s_assurance_policy_revision session = Some revision)) then None
  else
    at_ ← s_assurance_authenticated_at session;
    if (s_authenticated_at session <? at_) || (now <? at_) || negb (locally_proved (s_assurance_methods session))
    then None
    else
      let local := List.filter (fun m => negb (elsewhere m)) proved in
      let ms := merged (s_assurance_methods session) local in
      if meets policy assigned ms then Some {| cp_at := at_; cp_revision := revision; cp_methods := ms |} else None.

Definition rotation (ms : list AuthenticationMethod) (acr : option string) (proof : option ClassProof)
    : VerifiedSessionRotation := {|
  v_methods := ms; v_acr := acr;
  v_assurance_authenticated_at := cp_at <$> proof;
  v_assurance_policy_revision := cp_revision <$> proof;
  v_assurance_methods := match proof with Some p => cp_methods p | None => [] end |}.

Record Authentication : Type := {
  au_acr : AcrPolicy;
  au_lifetimes : Lifetimes;
  au_fresh_assurance : bool
}.

(** The session a fresh authentication begins; [id] and [sid] are the ids drawn for it. *)
Definition fresh_session (context : Authentication) (user : string) (proved : list AuthenticationMethod)
    (acr : option string) (id sid : string) (now : Z) : Session :=
  let s := Session.begin tenant id sid user proved now (au_lifetimes context) in
  let local := locally_proved (s_amr s) in
  {| s_tenant := s_tenant s; s_id_digest := s_id_digest s; s_public_sid := s_public_sid s; s_user := s_user s;
     s_created_at := s_created_at s; s_authenticated_at := s_authenticated_at s;
     s_assurance_authenticated_at := if local then Some now else None;
     s_assurance_policy_revision := if local then Some (revision_of (au_acr context)) else None;
     s_assurance_methods := if local then s_amr s else [];
     s_last_seen_at := s_last_seen_at s; s_expires_at := s_expires_at s;
     s_idle_expires_at := s_idle_expires_at s; s_acr := acr; s_amr := s_amr s; s_revoked := s_revoked s |}.

Definition log_in (context : Authentication) (stage : Stage) (user : string)
    (proved : list AuthenticationMethod) (requested : Requirements) (id sid : string) (now : Z)
    : Prog (result Establishment DomainError) :=
  let acr := AcrPolicy.assign (au_acr context) proved (essential_acr requested) (acr_values requested) in
  let satisfied := essential_satisfied acr requested in
  if bool_decide (stage = StStepUp) && negb satisfied then Ret (Ok Insufficient)
  else
    await? _ := begin tenant (fresh_session context user proved acr id sid now) in
    Ret (Ok (WasEstablished {| es_digest := id; es_essential_satisfied := satisfied |})).

Definition step_up (context : Authentication) (session : Session) (digest : string)
    (proved : list AuthenticationMethod) (requested : Requirements) (id : string) (now : Z)
    : Prog (result Establishment DomainError) :=
  let ms := if au_fresh_assurance context then proved else merged (s_amr session) proved in
  let acr := AcrPolicy.assign (au_acr context) ms (essential_acr requested) (acr_values requested) in
  if negb (essential_satisfied acr requested) then Ret (Ok Insufficient)
  else
    let proof := class_proof (au_acr context) session proved acr now in
    await? _ := rotate_verified tenant digest id (rotation ms acr proof) now in
    Ret (Ok (WasEstablished {| es_digest := id; es_essential_satisfied := true |})).

Definition establish (context : Authentication) (stage : Stage) (existing : option string) (user : string)
    (proved : list AuthenticationMethod) (requested : Requirements) (id sid : string) (now : Z)
    : Prog (result Establishment DomainError) :=
  let fresh := log_in context stage user proved requested id sid now in
  match existing with
  | Some digest =>
      if bool_decide (stage = StStepUp) then
        await? found := find tenant digest in
        match found with
        | Some session =>
            if is_usable (Session.status session now) then
              if String.eqb (s_user session) user then step_up context session digest proved requested id now
              else if bool_decide (FederatedOidc ∈ proved) then Ret (Ok Insufficient)
              else fresh
            else fresh
        | None => fresh
        end
      else fresh
  | None => fresh
  end.
End StepUp.

(** ** Everything at once *)

(** What the handlers verified: a person, a method, an instant. *)
Record Evidence : Type := { ev_user : string; ev_method : AuthenticationMethod; ev_at : Z }.

(** What a run has seen: the evidence, the ladders sessions were classed by, and whom each
    id was drawn for. *)
Record Known : Type := {
  evidence : list Evidence;
  ladders : list AcrPolicy;
  owners : gmap string string
}.

Inductive Outcome : Type :=
| OSession (r : result (option Session) DomainError)
| OUnit (r : result unit DomainError)
| OEstablishment (r : result Establishment DomainError).

Record Sys : Type := {
  store : SessionDb;
  programs : list (Prog Outcome);
  known : Known;
  drawn : gset string;
  seen : list Session           (** the sessions lookups have returned *)
}.

(** Operations of one statement, and the other writers of the same tables. *)
Inductive Op : Type :=
| Revoke (id_digest : string) (reason : SessionRevocation) (now : Z)
| RevokeAll (user : string) (reason : SessionRevocation) (now : Z)
| RecordParticipant (id_digest client : string) (now : Z)
| Purge (now : Z)
| Sweep (now : Z) (picked : list string)
| SetPolicy (policy : option Lifetimes)
| AddUser (user : string)
| DeleteUser (user : string)
| WriteGrant (id : string) (g : GrantRow)
| DeleteGrant (id : string).

Definition op_exec (db : SessionDb) (op : Op) : SessionDb :=
  match op with
  | Revoke d reason now => revoke db d reason now
  | RevokeAll user reason now => fst (revoke_all_for_user db user reason now)
  | RecordParticipant d client now =>
      match record_participant db d client now with Ok db' => db' | Err _ => db end
  | Purge now => purge_expired db now
  | Sweep now picked => sweep_sessions db now picked
  | SetPolicy policy => {| d_users := d_users db; d_policy := policy; d_rows := d_rows db;
      d_proofs := d_proofs db; d_clients := d_clients db; d_grants := d_grants db |}
  | AddUser user => {| d_users := d_users db ∪ {[ user ]}; d_policy := d_policy db; d_rows := d_rows db;
      d_proofs := d_proofs db; d_clients := d_clients db; d_grants := d_grants db |}
  | DeleteUser user =>
      let db := keep_rows (fun _ r => negb (String.eqb (r_user r) user)) db in
      {| d_users := d_users db ∖ {[ user ]}; d_policy := d_policy db; d_rows := d_rows db;
         d_proofs := d_proofs db; d_clients := d_clients db; d_grants := d_grants db |}
  | WriteGrant id g => with_grants db (<[id := captured db g]> (d_grants db))
  | DeleteGrant id => with_grants db (delete id (d_grants db))
  end.

Definition finished (p : Prog Outcome) : list Session :=
  match p with Ret (OSession (Ok (Some s))) => [s] | _ => [] end.

Definition empty_db : SessionDb := {|
  d_users := ∅; d_policy := None; d_rows := ∅; d_proofs := ∅; d_clients := ∅; d_grants := ∅ |}.
Definition start : Sys := {|
  store := empty_db; programs := []; known := {| evidence := []; ladders := []; owners := ∅ |};
  drawn := ∅; seen := [] |}.

Section Steps.
Variable sha256_hex : string -> string.
Variable json_text : value -> string.
Variable tenant : string.

Definition with_program (p : Prog Outcome) (s : Sys) : Sys := {|
  store := store s; programs := p :: programs s; known := known s; drawn := drawn s; seen := seen s |}.

Inductive step : Sys -> Sys -> Prop :=
| step_op s op :
    step s {| store := op_exec (store s) op; programs := programs s; known := known s; drawn := drawn s;
              seen := seen s |}
| step_find s id_digest :
    step s (with_program (pbind (find tenant id_digest) (fun r => Ret (OSession r))) s)
| step_browse s id_digest now :
    step s (with_program (pbind (find_for_browser tenant id_digest now) (fun r => Ret (OSession r))) s)
| step_touch s id_digest now idle_ :
    step s (with_program (pbind (touch tenant id_digest now idle_) (fun r => Ret (OUnit r))) s)
| step_establish s context stage existing user proved requested id sid now :
    id ∉ drawn s -> sid ∉ drawn s -> id <> sid -> policy_ok (au_acr context) ->
    step s {| store := store s;
              programs := pbind (establish sha256_hex json_text tenant context stage existing user proved
                                   requested id sid now) (fun r => Ret (OEstablishment r)) :: programs s;
              known := {| evidence := ((fun m => {| ev_user := user; ev_method := m; ev_at := now |}) <$> proved)
                                      ++ evidence (known s);
                          ladders := au_acr context :: ladders (known s);
                          owners := <[id := user]> (owners (known s)) |};
              drawn := {[ id; sid ]} ∪ drawn s; seen := seen s |}
| step_turn s before after p clock db p' :
    programs s = before ++ p :: after -> turn (exec clock) (store s) p db p' ->
    step s {| store := db; programs := before ++ p' :: after; known := known s; drawn := drawn s;
              seen := finished p' ++ seen s |}.
End Steps.
