(* ===== verification/SessionLaws.v ===== *)
(** * What every interleaving of browser sessions keeps

    Invariants of [Sessions.step]: ids that were replaced are dead, a revoked session is
    frozen, deadlines stay, and the assurance a session or a grant carries rests on what
    its person proved. *)

From S2P Require Import Prelude BTree Json Session Acr.
From S2P Require Import Grants.
From S2P Require Import GrantStore.
From S2P Require Import Decision.
From S2P Require Import Interaction.
From S2P Require Import Programs.
From S2P Require Import Sessions.
Import PgSessionRepository.
Open Scope Z_scope.

(** ** The rows *)

(** What a session keeps of itself from one state to a later one; a revoked one keeps all. *)
Definition continues (d : string) (r : SessionRow) (d' : string) (r' : SessionRow) : Prop :=
  r_public_sid r' = r_public_sid r /\ r_user r' = r_user r /\ r_created_at r' = r_created_at r /\
  r_expires_at r' = r_expires_at r /\ r_last_seen_at r <= r_last_seen_at r' /\
  (is_Some (r_revoked_at r) -> is_Some (r_revocation_reason r) -> d' = d /\ r' = r).

Lemma continues_refl d r : continues d r d r.
Proof. unfold continues. split_and!; try done; lia. Qed.

Lemma continues_trans d1 r1 d2 r2 d3 r3 :
  continues d1 r1 d2 r2 -> continues d2 r2 d3 r3 -> continues d1 r1 d3 r3.
Proof.
  intros (A1 & A2 & A3 & A4 & A5 & A6) (B1 & B2 & B3 & B4 & B5 & B6). unfold continues.
  split_and!; try congruence; try lia. intros Hr Hw. destruct (A6 Hr Hw) as [-> ->]. by apply B6.
Qed.

(** Every row comes from one with its public id, or was begun with names of its own. *)
Definition evolve (names : gset string) (m m' : gmap string SessionRow) : Prop :=
  forall d' r', m' !! d' = Some r' ->
    (exists d r, m !! d = Some r /\ continues d r d' r' /\ (d' = d \/ d' ∈ names)) \/
    (d' ∈ names /\ r_public_sid r' ∈ names).

Definition unique_sids (m : gmap string SessionRow) : Prop :=
  forall d d' r r', m !! d = Some r -> m !! d' = Some r' -> r_public_sid r = r_public_sid r' -> d = d'.

Lemma evolve_refl names m : evolve names m m.
Proof. intros d r Hd. left. exists d, r. auto using continues_refl. Qed.

Lemma evolve_insert names m d r r' :
  m !! d = Some r -> continues d r d r' -> evolve names m (<[d := r']> m).
Proof.
  intros Hd Hc d0 r0. rewrite lookup_insert. case_decide; intros He; left.
  - injection He as <-. subst. exists d0, r. auto.
  - exists d0, r0. auto using continues_refl.
Qed.

Lemma unique_insert m d r r' :
  m !! d = Some r -> r_public_sid r' = r_public_sid r -> unique_sids m -> unique_sids (<[d := r']> m).
Proof.
  intros Hd Hs Hu d1 d2 r1 r2 [[<- <-]|[_ H1]]%lookup_insert_Some [[<- <-]|[_ H2]]%lookup_insert_Some He.
  - done.
  - apply (Hu d d2 r r2 Hd H2). congruence.
  - apply (Hu d1 d r1 r H1 Hd). congruence.
  - by apply (Hu d1 d2 r1 r2).
Qed.

Lemma unique_filter m (P : string * SessionRow -> Prop) `{forall x, Decision (P x)} :
  unique_sids m -> unique_sids (filter P m).
Proof. intros Hu d d' r r' [Hd _]%map_lookup_filter_Some [Hd' _]%map_lookup_filter_Some. by apply Hu. Qed.

Lemma r_live_iff now r :
  r_live now r = true <-> r_revoked_at r = None /\ now < r_expires_at r /\ now < r_idle_expires_at r.
Proof.
  unfold r_live. rewrite !andb_true_iff, !Z.ltb_lt. destruct (r_revoked_at r); naive_solver.
Qed.

Lemma touched_continues d now i r : r_live now r = true -> continues d r d (r_touched now i r).
Proof.
  intros (Hr & _)%r_live_iff. unfold continues. cbn. split_and!; [done|done|done|done|lia|].
  rewrite Hr. by intros [? [=]].
Qed.

Lemma rotated_continues d d' now ms acr r : r_live now r = true -> continues d r d' (r_rotated now ms acr r).
Proof.
  intros (Hr & _)%r_live_iff. unfold continues. cbn. split_and!; [done|done|done|done|lia|].
  rewrite Hr. by intros [? [=]].
Qed.

Lemma revoked_continues d now reason r : continues d r d (r_revoked now reason r).
Proof.
  unfold continues. cbn. split_and!; [done|done|done|done|lia|]. intros [t Ht] [why Hw]. split; [done|].
  destruct r; cbn in *. subst. done.
Qed.

Create HintDb sessions.
#[export] Hint Resolve continues_refl evolve_refl touched_continues rotated_continues revoked_continues : sessions.

Lemma store_proof_rows db d proof now db' :
  store_proof db d proof now = Ok db' -> d_rows db' = d_rows db /\ d_grants db' = d_grants db /\ d_users db' = d_users db.
Proof.
  unfold store_proof. destruct (v_assurance_authenticated_at proof), (v_assurance_policy_revision proof);
    repeat case_match; by intros [= <-].
Qed.

Lemma begin_session_facts db s db' :
  begin_session db s = Ok db' ->
  d_rows db !! s_id_digest s = None /\ d_rows db' = <[s_id_digest s := inserted_row s]> (d_rows db) /\
  d_grants db' = d_grants db /\
  (forall d r, d_rows db !! d = Some r -> r_public_sid r <> s_public_sid s) /\
  store_proof (with_rows db (<[s_id_digest s := inserted_row s]> (d_rows db)))
    (s_id_digest s) (rotation_of s) (s_authenticated_at s) = Ok db'.
Proof.
  unfold begin_session. case_bool_decide as Hd; [|done]. destruct (sid_taken db (s_public_sid s)) eqn:Ht; [done|].
  cbn [negb]. case_bool_decide; [|done]. intros Hp. pose proof Hp as (Hr & Hg & _)%store_proof_rows.
  split_and!; [done|exact Hr|exact Hg| |exact Hp]. intros d r Hr' He.
  unfold sid_taken in Ht. apply negb_false_iff, bool_decide_eq_true in Ht.
  apply (f_equal (fun m => m !! d)) in Ht. rewrite lookup_empty in Ht.
  apply map_lookup_filter_None in Ht as [Ht|Ht]; [congruence|]. by apply (Ht r).
Qed.

Lemma rotate_row_facts db old new user proof now clock db' b :
  rotate_row db old new user proof now clock = (db', Ok b) ->
  (b = false /\ db' = db) \/
  (b = true /\ exists r, d_rows db !! old = Some r /\ r_live now r = true /\
     (new = old \/ d_rows db !! new = None) /\
     let rows := <[new := r_rotated now (AuthenticationMethod.as_str <$> v_methods proof) (v_acr proof) r]>
                   (delete old (d_rows db)) in
     d_rows db' = rows /\ d_grants db' = moved_grant rows old new user clock <$> d_grants db /\
     store_proof {| d_users := d_users db; d_policy := d_policy db; d_rows := rows;
                    d_proofs := rekeyed old new (d_proofs db);
                    d_clients := rekeyed_clients old new (d_clients db);
                    d_grants := moved_grant rows old new user clock <$> d_grants db |} new proof now = Ok db').
Proof.
  unfold rotate_row. destruct (d_rows db !! old) as [r|] eqn:Ho; [|intros [= <- <-]; auto].
  destruct (r_live now r) eqn:Hl; [|intros [= <- <-]; auto].
  case_bool_decide as Hn; [done|]. destruct (store_proof _ new proof now) as [db1|] eqn:Hp; [|done].
  intros [= <- <-]. right. split; [done|]. exists r. split; [done|]. split; [done|]. split.
  - destruct (decide (new = old)); [by left|]. right. destruct (d_rows db !! new) eqn:Hnew; [|done].
    exfalso. apply Hn. split; [done|by eexists].
  - pose proof (store_proof_rows _ _ _ _ _ Hp) as (Hr & Hg & _). split_and!; [exact Hr|exact Hg|done].
Qed.

Definition uses (q : Statement) : gset string :=
  match q with
  | BeginSession s => {[ s_id_digest s; s_public_sid s ]}
  | RotateRow _ new _ _ _ => {[ new ]}
  | _ => ∅
  end.

Lemma begin_session_rows names db s db' :
  begin_session db s = Ok db' -> {[ s_id_digest s; s_public_sid s ]} ⊆ names -> unique_sids (d_rows db) ->
  evolve names (d_rows db) (d_rows db') /\ unique_sids (d_rows db').
Proof.
  intros (Hn & Hr & _ & Hs & _)%begin_session_facts Hnames Hu. rewrite Hr. split.
  - intros d r [[<- <-]|[_ Hd]]%lookup_insert_Some.
    + right. cbn. split; apply Hnames; set_solver.
    + left. exists d, r. auto with sessions.
  - intros d1 d2 r1 r2 [[<- <-]|[_ H1]]%lookup_insert_Some [[<- <-]|[_ H2]]%lookup_insert_Some He.
    + done.
    + by destruct (Hs d2 r2 H2).
    + by destruct (Hs d1 r1 H1).
    + by apply (Hu d1 d2 r1 r2).
Qed.

Lemma rotated_rows names m old new r r' :
  m !! old = Some r -> new = old \/ m !! new = None -> continues old r new r' -> new ∈ names -> unique_sids m ->
  evolve names m (<[new := r']> (delete old m)) /\ unique_sids (<[new := r']> (delete old m)).
Proof.
  intros Ho Hn Hc Hnames Hu. split.
  - intros d0 r0 [[<- <-]|[_ [_ H0]%lookup_delete_Some]]%lookup_insert_Some; left.
    + exists old, r. auto.
    + exists d0, r0. auto with sessions.
  - pose proof Hc as (Hs & _).
    intros d1 d2 r1 r2 [[<- <-]|[_ [Hd H1]%lookup_delete_Some]]%lookup_insert_Some
      [[<- <-]|[_ [Hd' H2]%lookup_delete_Some]]%lookup_insert_Some He.
    + done.
    + exfalso. apply Hd', (Hu old d2 r r2 Ho H2). congruence.
    + exfalso. apply Hd, (Hu old d1 r r1 Ho H1). congruence.
    + by apply (Hu d1 d2 r1 r2).
Qed.

Lemma exec_rows clock db q : unique_sids (d_rows db) ->
  evolve (uses q) (d_rows db) (d_rows (fst (exec clock db q))) /\ unique_sids (d_rows (fst (exec clock db q))).
Proof.
  intros Hu. destruct q; cbn [exec fst]; try (by split; [apply evolve_refl|]).
  - destruct (begin_session db session) as [db'|e] eqn:Hb; cbn [fst]; [|by split; [apply evolve_refl|]].
    by eapply begin_session_rows.
  - unfold touch_row. destruct (d_rows db !! id_digest) as [r|] eqn:Hd; [|by split; [apply evolve_refl|]].
    destruct (r_live now r) eqn:Hl; [|by split; [apply evolve_refl|]]. cbn.
    split; [eapply evolve_insert|eapply unique_insert]; eauto with sessions.
  - destruct (rotate_row db old_digest new_digest user proof now clock) as [db' [b|e]] eqn:Hr.
    + apply rotate_row_facts in Hr as [[_ ->]|(_ & r & Ho & Hl & Hn & Hrows & _)]; [by split; [apply evolve_refl|]|].
      cbn [fst]. rewrite Hrows. eapply rotated_rows; eauto with sessions. set_solver.
    + cbn [fst]. unfold rotate_row in Hr. repeat case_match; simplify_eq; (split; [apply evolve_refl|done]).
Qed.

(** A change of rows in place, or of some of them. *)
Lemma mapped_rows (f : SessionRow -> SessionRow) m m' :
  (forall d r', m' !! d = Some r' -> exists r, m !! d = Some r /\ (r' = r \/ r' = f r)) ->
  (forall d r, continues d r d (f r)) -> unique_sids m -> evolve ∅ m m' /\ unique_sids m'.
Proof.
  intros Hm Hf Hu.
  assert (Hc : forall d r', m' !! d = Some r' -> exists r, m !! d = Some r /\ continues d r d r').
  { intros d r' (r & Hr & [->| ->])%Hm; eauto using continues_refl. }
  split.
  - intros d r' (r & Hr & H)%Hc. left. exists d, r. auto.
  - intros d1 d2 r1 r2 (s1 & H1 & E1 & _)%Hc (s2 & H2 & E2 & _)%Hc He. apply (Hu d1 d2 s1 s2 H1 H2). congruence.
Qed.

Lemma op_rows db op : unique_sids (d_rows db) ->
  evolve ∅ (d_rows db) (d_rows (op_exec db op)) /\ unique_sids (d_rows (op_exec db op)).
Proof.
  intros Hu. assert (Hid : forall d r, continues d r d (id r)) by (intros; apply continues_refl).
  assert (Hsame : evolve ∅ (d_rows db) (d_rows db) /\ unique_sids (d_rows db)) by (split; [apply evolve_refl|done]).
  destruct op; cbn [op_exec]; try exact Hsame.
  - eapply (mapped_rows (r_revoked now reason)); [|auto with sessions|done]. cbn.
    intros d r' [(_ & r & Hr & ->)|[_ Hr]]%lookup_alter_Some; eauto.
  - eapply (mapped_rows (r_revoked now reason)); [|auto with sessions|done]. cbn.
    intros d r'. rewrite lookup_fmap. intros (r & -> & Hr)%fmap_Some. destruct (_ && _) in Hr; eauto.
  - unfold record_participant. destruct (bool_decide _); exact Hsame.
  - eapply (mapped_rows id); [|done|done]. cbn. intros d r' [Hr _]%map_lookup_filter_Some. eauto.
  - eapply (mapped_rows id); [|done|done]. cbn. intros d r' [Hr _]%map_lookup_filter_Some. eauto.
  - eapply (mapped_rows id); [|done|done]. cbn. intros d r' [Hr _]%map_lookup_filter_Some. eauto.
Qed.

(** ** Methods and classes *)

Lemma methods_as_str ms : methods (AuthenticationMethod.as_str <$> ms) = ms.
Proof. induction ms as [|m ms IH]; [done|]. unfold methods in *. cbn. by rewrite AuthenticationMethod.parse_as_str, IH. Qed.

Lemma mapM_as_str ms : mapM AuthenticationMethod.parse (AuthenticationMethod.as_str <$> ms) = Some ms.
Proof.
  induction ms as [|m ms IH]; [done|]. cbn. rewrite AuthenticationMethod.parse_as_str. cbn.
  by rewrite IH.
Qed.

Lemma elem_of_merged already just_used m :
  m ∈ merged already just_used <-> (m ∈ already /\ m <> ExistingSession) \/ m ∈ just_used.
Proof.
  unfold merged. set (first := List.filter _ already).
  assert (Hf : m ∈ first <-> m ∈ already /\ m <> ExistingSession).
  { unfold first. rewrite list_elem_of_In, List.filter_In, <- list_elem_of_In, negb_true_iff, bool_decide_eq_false. done. }
  rewrite <- Hf. clearbody first. clear Hf. revert first.
  induction just_used as [|x l IH]; intros first; cbn; [set_solver|]. rewrite IH.
  case_bool_decide as Hx; [|set_solver]. set_solver.
Qed.

Lemma locally_proved_iff ms :
  locally_proved ms = true <-> ms <> [] /\ forall m, m ∈ ms -> elsewhere m = false.
Proof.
  destruct ms as [|x l]; [cbn; naive_solver|]. cbn [locally_proved]. rewrite negb_true_iff. split.
  - intros Hn. split; [done|]. intros m Hm. apply not_true_iff_false. intros He.
    apply not_true_iff_false in Hn. apply Hn, existsb_exists. exists m. by rewrite <- list_elem_of_In.
  - intros [_ H]. apply not_true_iff_false. intros (m & Hm & He)%existsb_exists.
    rewrite H in He; [done|by apply list_elem_of_In].
Qed.

Lemma level_of p l : policy_ok p -> In l (levels p) -> AcrPolicy.level p (lvl_value l) = Some l.
Proof.
  intros (_ & _ & Hd). unfold AcrPolicy.level. revert Hd. generalize (levels p). induction l0 as [|x r IH]; [done|].
  cbn. intros [Hx Hd]%NoDup_cons [->|Hin]; [by rewrite String.eqb_refl|].
  destruct (String.eqb_spec (lvl_value x) (lvl_value l)) as [He|]; [|by apply IH].
  exfalso. apply Hx. rewrite He. apply list_elem_of_In. by apply in_map.
Qed.

(** The class assigned is one the ladder gives these methods. *)
Lemma assign_meets p used essential voluntary :
  policy_ok p -> meets p (AcrPolicy.assign p used essential voluntary) used = true.
Proof.
  intros Hp. unfold AcrPolicy.assign, meets.
  assert (H : forall l, AcrPolicy.or_else (AcrPolicy.strongest_met p essential used)
      (AcrPolicy.or_else (AcrPolicy.strongest_met p voluntary used) (AcrPolicy.achieved p used)) = Some l ->
      In l (levels p) /\ AcrLevel.is_met_by l used = true).
  { assert (Hs : forall requested l, AcrPolicy.strongest_met p requested used = Some l ->
      In l (levels p) /\ AcrLevel.is_met_by l used = true).
    { intros requested l [Hin [_ Hm]%andb_true_iff]%List.find_some. by apply in_rev in Hin. }
    intros l. destruct (AcrPolicy.strongest_met p essential used) eqn:H1; cbn; [intros [= <-]; by eapply Hs|].
    destruct (AcrPolicy.strongest_met p voluntary used) eqn:H2; cbn; [intros [= <-]; by eapply Hs|].
    intros [Hin Hm]%List.find_some. by apply in_rev in Hin. }
  destruct (AcrPolicy.or_else _ _) as [l|]; [|done]. destruct (H l eq_refl) as [Hin Hm].
  cbn. by rewrite (level_of p l Hp Hin).
Qed.

(** ** What is known, and what rests on it *)

Section System.
Variable sha256_hex : string -> string.
Variable json_text : value -> string.
Variable tenant : string.
Abbreviation revision_of := (revision_of sha256_hex json_text).
Abbreviation step' := (step sha256_hex json_text tenant).

Definition knows_more (k k' : Known) : Prop :=
  (forall e, e ∈ evidence k -> e ∈ evidence k') /\ (forall p, p ∈ ladders k -> p ∈ ladders k') /\
  owners k ⊆ owners k'.
#[export] Instance knows_more_preorder : PreOrder knows_more.
Proof.
  split.
  - intros k. unfold knows_more. auto.
  - intros k1 k2 k3 (A1 & A2 & A3) (B1 & B2 & B3). unfold knows_more. split_and!; auto. by etrans.
Qed.

(** The person proved a method, not before an instant. *)
Definition proved_by (k : Known) (user : string) (m : AuthenticationMethod) : Prop :=
  exists e, e ∈ evidence k /\ ev_user e = user /\ ev_method e = m.
Definition proved_since (k : Known) (user : string) (since : Z) (m : AuthenticationMethod) : Prop :=
  exists e, e ∈ evidence k /\ ev_user e = user /\ ev_method e = m /\ since <= ev_at e.

(** A class that some ladder in use gives to these methods. *)
Definition earned (k : Known) (acr : option string) (ms : list AuthenticationMethod) : Prop :=
  acr = None \/ exists p, p ∈ ladders k /\ meets p acr ms = true.

(** An assurance: methods of this place alone, all proved by the person no earlier than it
    says, which the ladder it names gives the class. *)
Definition grounded (k : Known) (user : string) (acr : option string) (since : Z) (revision : string)
    (ms : list AuthenticationMethod) : Prop :=
  locally_proved ms = true /\ (forall m, m ∈ ms -> proved_since k user since m) /\
  exists p, p ∈ ladders k /\ revision = revision_of p /\ meets p acr ms = true.

(** What is read of a session rests on evidence. *)
Definition session_grounded (k : Known) (s : Session) : Prop :=
  (forall m, m ∈ s_amr s -> proved_by k (s_user s) m) /\ earned k (s_acr s) (s_amr s) /\
  forall since, s_assurance_authenticated_at s = Some since ->
    since <= s_authenticated_at s /\ exists revision, s_assurance_policy_revision s = Some revision /\
    grounded k (s_user s) (s_acr s) since revision (s_assurance_methods s).

Definition row_ok (k : Known) (d : string) (r : SessionRow) : Prop :=
  owners k !! d = Some (r_user r) /\ (forall m, m ∈ methods (r_amr r) -> proved_by k (r_user r) m) /\
  earned k (r_acr r) (methods (r_amr r)) /\
  (is_Some (r_revoked_at r) -> is_Some (r_revocation_reason r)).

Definition proof_grounded (k : Known) (user : string) (acr : option string) (since : Z) (revision : string)
    (stored : list string) : Prop :=
  exists ms, stored = AuthenticationMethod.as_str <$> ms /\ grounded k user acr since revision ms.
Definition proof_ok (k : Known) (d : string) (p : ProofRow) : Prop :=
  exists user, owners k !! d = Some user /\ proof_grounded k user (p_acr p) (p_at p) (p_revision p) (p_methods p).
Definition grant_ok (k : Known) (g : GrantRow) : Prop :=
  forall p, gr_proof g = Some p ->
    proof_grounded k (gr_user g) (gp_acr p) (gp_at p) (gp_revision p) (gp_methods p).

Lemma proved_by_more k k' user m : knows_more k k' -> proved_by k user m -> proved_by k' user m.
Proof. intros (He & _) (e & Hin & H). exists e. auto. Qed.
Lemma earned_more k k' acr ms : knows_more k k' -> earned k acr ms -> earned k' acr ms.
Proof. intros (_ & Hp & _) [?|(p & Hin & H)]; [by left|right; eauto]. Qed.
Lemma grounded_more k k' user acr since revision ms :
  knows_more k k' -> grounded k user acr since revision ms -> grounded k' user acr since revision ms.
Proof.
  intros (He & Hp & _) (Hl & Hm & p & Hin & H). split; [done|]. split; [|eauto].
  intros m (e & Hein & H')%Hm. exists e. auto.
Qed.
Lemma session_grounded_more k k' s : knows_more k k' -> session_grounded k s -> session_grounded k' s.
Proof.
  intros Hk (H1 & H2 & H3). split; [eauto using proved_by_more|]. split; [by eapply earned_more|].
  intros since (Ha & rev & Hr & Hg)%H3. split; [done|]. exists rev. split; [done|by eapply grounded_more].
Qed.
Lemma owners_more k k' d u : knows_more k k' -> owners k !! d = Some u -> owners k' !! d = Some u.
Proof. intros (_ & _ & Ho) Hd. by eapply lookup_weaken. Qed.
Lemma row_ok_more k k' d r : knows_more k k' -> row_ok k d r -> row_ok k' d r.
Proof.
  intros Hk (H1 & H2 & H3 & H4).
  split_and!; [by eapply owners_more|eauto using proved_by_more|by eapply earned_more|done].
Qed.
Lemma proof_grounded_more k k' user acr since revision stored :
  knows_more k k' -> proof_grounded k user acr since revision stored ->
  proof_grounded k' user acr since revision stored.
Proof. intros Hk (ms & H & Hg). exists ms. split; [done|by eapply grounded_more]. Qed.
Lemma proof_ok_more k k' d p : knows_more k k' -> proof_ok k d p -> proof_ok k' d p.
Proof. intros Hk (u & Ho & Hg). exists u. split; [by eapply owners_more|by eapply proof_grounded_more]. Qed.
Lemma grant_ok_more k k' g : knows_more k k' -> grant_ok k g -> grant_ok k' g.
Proof. intros Hk H p Hp. by eapply proof_grounded_more, H. Qed.

(** What the statements of a program write, and what it may count on of their answers. *)
Definition evidence_ok (k : Known) (user : string) (v : VerifiedSessionRotation) : Prop :=
  (forall m, m ∈ v_methods v -> proved_by k user m) /\ earned k (v_acr v) (v_methods v) /\
  forall since revision, v_assurance_authenticated_at v = Some since ->
    v_assurance_policy_revision v = Some revision ->
    grounded k user (v_acr v) since revision (v_assurance_methods v).

Definition guard (k : Known) (q : Statement) : Prop :=
  match q with
  | BeginSession s => owners k !! s_id_digest s = Some (s_user s) /\ evidence_ok k (s_user s) (rotation_of s)
  | RotateRow old new user proof _ =>
      owners k !! old = Some user /\ owners k !! new = Some user /\ evidence_ok k user proof
  | _ => True
  end.

Definition answer (k : Known) (q : Statement) : Answer q -> Prop :=
  match q return Answer q -> Prop with
  | ReadRow d => fun a => forall r, a = Some r -> row_ok k d r
  | ReadProof d acr authenticated_at => fun a => forall p, a = Some p ->
      proof_ok k d p /\ p_acr p = acr /\ p_at p <= authenticated_at
  | _ => fun _ => True
  end.

Abbreviation safe := (safe knows_more guard answer uses).
Abbreviation safe_try := (safe_try (R := Answer) knows_more guard answer uses).
Abbreviation safe_ask := (safe_ask (R := Answer) knows_more guard answer uses).

(** ** Programs *)

Lemma minus_none (mine : gset string) : mine ∖ ∅ = mine.
Proof. set_solver. Qed.

(** What a lookup of an id returns. *)
Definition found_ok (k : Known) (d : string) (s : Session) : Prop :=
  session_grounded k s /\ owners k !! d = Some (s_user s).

Lemma constrained_grounded k d policy s : found_ok k d s -> found_ok k d (constrained policy s).
Proof. by destruct policy. Qed.

Lemma loaded_found k d row proof :
  row_ok k d row ->
  (forall p, proof = Some p -> proof_ok k d p /\ p_acr p = r_acr row /\ p_at p <= r_authenticated_at row) ->
  found_ok k d (proven proof (loaded tenant d row)).
Proof.
  intros (Ho & Hm & He & _) Hp. unfold proven.
  assert (Hplain : found_ok k d (loaded tenant d row)) by (split; [split_and!; [exact Hm|exact He|done]|exact Ho]).
  destruct proof as [p|]; [|done]. destruct (Hp p eq_refl) as ((u & Hu & ms & Hs & Hg) & Ha & Hle).
  rewrite Hs, mapM_as_str. split; [|exact Ho]. split_and!; [exact Hm|exact He|].
  intros since [= <-]. cbn. split; [done|]. exists (p_revision p). split; [done|].
  replace (r_user row) with u by congruence. by rewrite <- Ha.
Qed.

Lemma safe_read q (post : Known -> gset string -> result (Answer q) DomainError -> Prop) k mine :
  uses q = ∅ -> (forall k', guard k' q) -> (forall k' e, post k' mine (Err e)) ->
  (forall k' a, knows_more k k' -> answer k' q a -> post k' mine (Ok a)) -> safe post (ask q) k mine.
Proof.
  intros Hu Hg He Ha. apply safe_ask. intros k' Hk. rewrite Hu, minus_none. split_and!; auto. apply empty_subseteq.
Qed.

(** [find] is a lookup that can be counted on, and uses no name. *)
Lemma find_post d k mine :
  safe (fun k' m r => match r with
                      | Ok o => m = mine /\ forall s, o = Some s -> found_ok k' d s
                      | Err _ => True
                      end) (find tenant d) k mine.
Proof.
  unfold find. apply (safe_try (fun k' m o => m = mine /\ forall r, o = Some r -> row_ok k' d r)).
  { by apply safe_read. }
  intros k1 m1 [row|] H1 _ [-> Hrow]; [|by split].
  apply (safe_try (fun k' m o => m = mine /\ row_ok k' d row /\
    forall p, o = Some p -> proof_ok k' d p /\ p_acr p = r_acr row /\ p_at p <= r_authenticated_at row)).
  { apply safe_read; [done..|]. intros k' a Hk' Ha. split_and!; [done|by eapply row_ok_more, Hrow|exact Ha]. }
  intros k2 m2 proof H2 _ (-> & Hrow2 & Hproof).
  apply (safe_try (fun k' m _ => m = mine /\ knows_more k2 k')).
  { by apply safe_read. }
  intros k3 m3 policy _ _ [-> H3]. split; [done|]. intros s [= <-]. apply constrained_grounded, loaded_found.
  - by eapply row_ok_more.
  - intros p (Hp & Hle)%Hproof. split; [by eapply proof_ok_more|done].
Qed.

Lemma find_safe {B} (post : Known -> gset string -> result B DomainError -> Prop) f d k mine :
  (forall k' m e, post k' m (Err e)) ->
  (forall k' o, knows_more k k' -> (forall s, o = Some s -> found_ok k' d s) -> safe post (f o) k' mine) ->
  safe post (try_await (find tenant d) f) k mine.
Proof.
  intros Herr Hf. apply (safe_try (fun k' m o => m = mine /\ forall s, o = Some s -> found_ok k' d s)).
  - eapply safe_weaken; [|apply find_post]. intros k' m [o|e]; auto.
  - intros k' m o Hk _ [-> Ho]. by apply Hf.
Qed.

Lemma evidence_ok_more k k' user v : knows_more k k' -> evidence_ok k user v -> evidence_ok k' user v.
Proof.
  intros Hk (H1 & H2 & H3). split; [eauto using proved_by_more|]. split; [by eapply earned_more|].
  intros since rev Hs Hr. eapply grounded_more; [exact Hk|by apply H3].
Qed.

Lemma begin_safe {B} (post : Known -> gset string -> result B DomainError -> Prop) f s k mine :
  (forall k' m e, post k' m (Err e)) -> (forall k' m, safe post (f tt) k' m) ->
  owners k !! s_id_digest s = Some (s_user s) -> evidence_ok k (s_user s) (rotation_of s) ->
  {[ s_id_digest s; s_public_sid s ]} ⊆ mine -> safe post (try_await (begin tenant s) f) k mine.
Proof.
  intros Herr Hf Ho He Hm. apply (safe_try (fun _ _ _ => True)); [|by intros ? ? [] _ _ _].
  unfold begin. destruct (negb _); [apply Herr|].
  apply (safe_try (fun k' m _ => m = mine /\ knows_more k k')); [by apply safe_read|].
  intros k' m policy _ _ [-> Hk]. apply safe_ask. intros k'' Hk'.
  assert (Hd : s_id_digest (dated policy s) = s_id_digest s /\ s_public_sid (dated policy s) = s_public_sid s /\
    s_user (dated policy s) = s_user s /\ rotation_of (dated policy s) = rotation_of s) by (by destruct policy).
  destruct Hd as (Hd & Hs & Hu & Hr). unfold guard, uses. rewrite Hd, Hs, Hu, Hr.
  assert (Hkk : knows_more k k'') by (by etrans).
  split_and!; [by eapply owners_more|by eapply evidence_ok_more|done|done|done].
Qed.

Lemma rotate_safe {B} (post : Known -> gset string -> result B DomainError -> Prop) f old new user v now k mine :
  (forall k' m e, post k' m (Err e)) -> (forall k' m, safe post (f tt) k' m) ->
  owners k !! old = Some user -> owners k !! new = Some user -> evidence_ok k user v -> new ∈ mine ->
  safe post (try_await (rotate_verified tenant old new v now) f) k mine.
Proof.
  intros Herr Hf Ho Hn He Hm. apply (safe_try (fun _ _ _ => True)); [|by intros ? ? [] _ _ _].
  unfold rotate_verified. apply find_safe; [auto|]. intros k' [s|] Hk Hs; [|apply Herr].
  destruct (negb _); [apply Herr|]. destruct (Hs s eq_refl) as [_ Hu].
  assert (Huser : s_user s = user). { apply (owners_more k k') in Ho; [|done]. congruence. }
  rewrite Huser. apply (safe_try (fun _ _ _ => True)).
  2:{ intros k1 m1 [] _ _ _; [done|apply Herr]. }
  apply safe_ask. intros k'' Hk'. assert (Hkk : knows_more k k'') by (by etrans). cbn [guard uses].
  split_and!; [by eapply owners_more|by eapply owners_more|by eapply evidence_ok_more|set_solver|auto|done].
Qed.

Lemma touch_safe (post : Known -> gset string -> result unit DomainError -> Prop) d now idle_ k mine :
  (forall k' m r, post k' m r) -> safe post (touch tenant d now idle_) k mine.
Proof.
  intros Hpost. unfold touch. apply find_safe; [auto|]. intros k' [s|] _ _; [|apply Hpost].
  destruct (negb _); [apply Hpost|].
  apply (safe_try (fun _ m _ => m = mine)); [by apply safe_read|]. intros k1 m1 policy _ _ ->. unfold touch_stored.
  apply (safe_try (fun _ m _ => m = mine)); [by apply safe_read|]. intros k2 m2 [] _ _ ->; apply Hpost.
Qed.

(** ** Step-up *)

Lemma proved_now k user (ms : list AuthenticationMethod) now m :
  (forall m, m ∈ ms -> {| ev_user := user; ev_method := m; ev_at := now |} ∈ evidence k) -> m ∈ ms ->
  proved_since k user now m.
Proof. intros H Hm. eexists. split; [by apply H|]. cbn. split_and!; [done..|lia]. Qed.

Lemma since_earlier k user t t' m : t <= t' -> proved_since k user t' m -> proved_since k user t m.
Proof. intros Ht (e & H1 & H2 & H3 & H4). exists e. split_and!; [done..|lia]. Qed.

Lemma since_by k user t m : proved_since k user t m -> proved_by k user m.
Proof. intros (e & H1 & H2 & H3 & _). by exists e. Qed.

(** A class proof is dated by evidence, and under the ladder that classed it. *)
Lemma class_proof_grounded k policy s proved assigned now p :
  policy ∈ ladders k -> session_grounded k s ->
  (forall m, m ∈ proved -> {| ev_user := s_user s; ev_method := m; ev_at := now |} ∈ evidence k) ->
  class_proof sha256_hex json_text policy s proved assigned now = Some p ->
  grounded k (s_user s) assigned (cp_at p) (cp_revision p) (cp_methods p).
Proof.
  intros Hpol (_ & _ & Hs) Hev. unfold class_proof.
  destruct (locally_proved proved && meets policy assigned proved) eqn:Hnow.
  { apply andb_true_iff in Hnow as [Hl Hm]. intros [= <-]. split; [done|]. split; [|by exists policy].
    intros m Hin. by eapply proved_now. }
  case_bool_decide as Hrev; [|done]. cbn [negb]. intros Hp.
  apply bind_Some in Hp as (at_ & Hat & Hp).
  destruct ((s_authenticated_at s <? at_) || (now <? at_)) eqn:Hlt; [done|]. cbn [orb] in Hp.
  destruct (locally_proved (s_assurance_methods s)) eqn:Hl; [|done]. cbn [negb] in Hp.
  destruct (meets policy assigned (merged _ _)) eqn:Hm; [|done]. injection Hp as <-. cbn.
  apply orb_false_iff in Hlt as [_ Hlt%Z.ltb_ge]. destruct (Hs at_ Hat) as (_ & rev & _ & Hg).
  destruct Hg as (_ & Hold & _). set (local := List.filter _ proved) in *.
  assert (Hloc : forall m, m ∈ local <-> m ∈ proved /\ elsewhere m = false).
  { intros m. unfold local. rewrite !list_elem_of_In, List.filter_In, negb_true_iff. done. }
  apply locally_proved_iff in Hl as [Hne Hl]. split; [|split; [|by exists policy]].
  - apply locally_proved_iff. split.
    + destruct (s_assurance_methods s) as [|m l] eqn:Hms; [done|]. intros Hnil.
      assert (Hin : m ∈ merged (m :: l) local).
      { apply elem_of_merged. left. split; [by left|]. intros ->. by specialize (Hl _ (list_elem_of_here _ _)). }
      rewrite Hnil in Hin. by apply elem_of_nil in Hin.
    + intros m [[Hin _]|[_ Hin]%Hloc]%elem_of_merged; [by apply Hl|done].
  - intros m [[Hin _]|[Hin _]%Hloc]%elem_of_merged; [by apply Hold|].
    apply (since_earlier _ _ _ now); [done|]. by eapply proved_now.
Qed.

Definition verified_now (k : Known) (user : string) (proved : list AuthenticationMethod) (now : Z) : Prop :=
  forall m, m ∈ proved -> {| ev_user := user; ev_method := m; ev_at := now |} ∈ evidence k.

Lemma verified_now_more k k' user proved now :
  knows_more k k' -> verified_now k user proved now -> verified_now k' user proved now.
Proof. intros (He & _) Hv m Hm. by apply He, Hv. Qed.

Lemma verified_by k user proved now m : verified_now k user proved now -> m ∈ proved -> proved_by k user m.
Proof. intros Hv Hm. by eapply since_by, proved_now. Qed.

Lemma fresh_evidence context user proved requested id sid now k :
  policy_ok (au_acr context) -> au_acr context ∈ ladders k -> verified_now k user proved now ->
  evidence_ok k user (rotation_of (fresh_session sha256_hex json_text tenant context user proved
    (AcrPolicy.assign (au_acr context) proved (essential_acr requested) (acr_values requested)) id sid now)).
Proof.
  intros Hp Hin Hv. unfold evidence_ok, rotation_of, fresh_session. cbn. split; [by intros; eapply verified_by|].
  split; [right; exists (au_acr context); split; [done|by apply assign_meets]|].
  intros since rev. destruct (locally_proved proved) eqn:Hl; [|done]. intros [= <-] [= <-].
  split; [done|]. split; [by intros; eapply proved_now|]. exists (au_acr context).
  split_and!; [done|done|by apply assign_meets].
Qed.

Lemma log_in_safe context stage user proved requested id sid now k mine :
  policy_ok (au_acr context) -> au_acr context ∈ ladders k -> verified_now k user proved now ->
  owners k !! id = Some user -> {[ id; sid ]} ⊆ mine ->
  safe (fun _ _ _ => True)
    (log_in sha256_hex json_text tenant context stage user proved requested id sid now) k mine.
Proof.
  intros Hp Hin Hv Ho Hm. unfold log_in. destruct (_ && _); [done|]. apply begin_safe; try done.
  by apply fresh_evidence.
Qed.

Lemma step_up_safe context s digest proved requested id now k mine :
  policy_ok (au_acr context) -> au_acr context ∈ ladders k -> verified_now k (s_user s) proved now ->
  found_ok k digest s -> owners k !! id = Some (s_user s) -> id ∈ mine ->
  safe (fun _ _ _ => True)
    (step_up sha256_hex json_text tenant context s digest proved requested id now) k mine.
Proof.
  intros Hp Hin Hv [Hg Hd] Ho Hm. unfold step_up. destruct (negb _); [done|].
  apply (rotate_safe _ _ _ _ (s_user s)); try done. pose proof Hg as (Hamr & _). split.
  - cbn [rotation v_methods]. destruct (au_fresh_assurance context); [by intros; eapply verified_by|].
    intros m [[Hm' _]|Hm']%elem_of_merged; [by apply Hamr|by eapply verified_by].
  - split; [right; exists (au_acr context); split; [done|by apply assign_meets]|].
    intros since rev. cbn. destruct (class_proof _ _ _ _ _ _ _) as [cp|] eqn:Hcp; [|done]. cbn.
    intros [= <-] [= <-]. by eapply class_proof_grounded.
Qed.

Lemma establish_safe context stage existing user proved requested id sid now k mine :
  policy_ok (au_acr context) -> au_acr context ∈ ladders k -> verified_now k user proved now ->
  owners k !! id = Some user -> {[ id; sid ]} ⊆ mine ->
  safe (fun _ _ _ => True)
    (establish sha256_hex json_text tenant context stage existing user proved requested id sid now) k mine.
Proof.
  intros Hp Hin Hv Ho Hm.
  assert (Hfresh : forall k', knows_more k k' -> safe (fun _ _ _ => True)
    (log_in sha256_hex json_text tenant context stage user proved requested id sid now) k' mine).
  { intros k' Hk. apply (safe_grows knows_more guard answer uses _ _ k); [done|done|]. by apply log_in_safe. }
  unfold establish. destruct existing as [digest|]; [|by apply Hfresh].
  destruct (bool_decide _); [|by apply Hfresh]. apply find_safe; [done|].
  intros k' [s|] Hk Hs; [|by apply Hfresh]. destruct (is_usable _); [|by apply Hfresh].
  destruct (String.eqb_spec (s_user s) user) as [He|]; [|destruct (bool_decide _); [done|by apply Hfresh]].
  rewrite <- He in *. apply step_up_safe; try done.
  - destruct Hk as (_ & Hl & _). by apply Hl.
  - by eapply verified_now_more.
  - by apply Hs.
  - by eapply owners_more.
  - apply Hm. set_solver.
Qed.

(** ** The tables *)

Definition db_ok (k : Known) (db : SessionDb) : Prop :=
  (forall d r, d_rows db !! d = Some r -> row_ok k d r) /\
  (forall d p, d_proofs db !! d = Some p -> proof_ok k d p) /\
  (forall id g, d_grants db !! id = Some g -> grant_ok k g).

Lemma db_ok_more k k' db : knows_more k k' -> db_ok k db -> db_ok k' db.
Proof. intros Hk (H1 & H2 & H3). split_and!; eauto using row_ok_more, proof_ok_more, grant_ok_more. Qed.

Lemma store_proof_ok k db d v now db' user :
  store_proof db d v now = Ok db' -> owners k !! d = Some user -> evidence_ok k user v ->
  (forall d' p, d' <> d -> d_proofs db !! d' = Some p -> proof_ok k d' p) ->
  forall d' p, d_proofs db' !! d' = Some p -> proof_ok k d' p.
Proof.
  intros Hs Ho (_ & _ & Hg) Hp.
  assert (Hdel : forall d' p, delete d (d_proofs db) !! d' = Some p -> proof_ok k d' p).
  { intros d' p [Hne Hd]%lookup_delete_Some. apply Hp; [by intros ->|done]. }
  unfold store_proof in Hs.
  destruct (v_assurance_authenticated_at v) as [since|]; [|injection Hs as <-; exact Hdel].
  destruct (v_assurance_policy_revision v) as [rev|]; [|injection Hs as <-; exact Hdel].
  destruct (_ || _); [done|]. destruct (_ && _); [|done]. injection Hs as <-.
  intros d' p. cbn. intros [[<- <-]|[_ Hd]]%lookup_insert_Some; [|by apply Hdel].
  exists user. split; [done|]. cbn. exists (v_assurance_methods v). split; [done|by apply Hg].
Qed.

Lemma moved_grant_ok k rows old new user clock g : grant_ok k g -> grant_ok k (moved_grant rows old new user clock g).
Proof.
  intros Hg. unfold moved_grant. destruct (_ && _); [|done]. intros p. cbn.
  destruct (attested _ _ _ _ _); [apply Hg|done].
Qed.

Lemma grants_ok_fmap k (f : GrantRow -> GrantRow) (m : gmap string GrantRow) :
  (forall g, grant_ok k g -> grant_ok k (f g)) -> (forall id g, m !! id = Some g -> grant_ok k g) ->
  forall id g, (f <$> m) !! id = Some g -> grant_ok k g.
Proof. intros Hf Hm id g. rewrite lookup_fmap. intros (g0 & Hg & ->)%fmap_Some. by eapply Hf, Hm. Qed.

Lemma exec_ok clock k db q :
  db_ok k db -> guard k q ->
  db_ok k (fst (exec clock db q)) /\ (forall a, snd (exec clock db q) = Ok a -> answer k q a).
Proof.
  intros Hdb Hg. pose proof Hdb as (Hr & Hp & Hgr). destruct q; cbn [exec fst snd answer].
  - split; [done|]. intros a [= <-] r. apply Hr.
  - split; [done|]. intros a [= <-] p Hp'. apply bind_Some in Hp' as (p0 & Hd & Hp').
    destruct (bool_decide_reflect (p_acr p0 = acr)) as [Ha|]; [|done]. cbn [andb] in Hp'.
    destruct (Z.leb_spec (p_at p0) authenticated_at); [|done]. injection Hp' as <-. eauto.
  - done.
  - destruct (begin_session db session) as [db'|e] eqn:Hb; [|done]. split; [|done]. cbn [fst].
    apply begin_session_facts in Hb as (_ & Hrows & Hgrants & _ & Hsp). destruct Hg as [Ho He]. split_and!.
    + intros d r. rewrite Hrows. intros [[<- <-]|[_ Hd]]%lookup_insert_Some; [|by apply Hr].
      destruct He as (H1 & H2 & _). unfold row_ok. cbn [inserted_row r_user r_acr r_amr r_revoked_at].
      rewrite methods_as_str. split_and!; [exact Ho|exact H1|exact H2|by intros [? [=]]].
    + eapply store_proof_ok; [exact Hsp|exact Ho|exact He|]. intros d' p _. apply Hp.
    + rewrite Hgrants. exact Hgr.
  - unfold touch_row. destruct (d_rows db !! id_digest) as [r|] eqn:Hd; [|done].
    destruct (r_live now r); [|done]. split; [|done]. split_and!; [|exact Hp|exact Hgr].
    intros d r'. cbn. intros [[<- <-]|[_ Hd']]%lookup_insert_Some; [|by apply Hr]. exact (Hr _ _ Hd).
  - destruct (rotate_row db old_digest new_digest user proof now clock) as [db' [b|e]] eqn:Hrot.
    2:{ cbn. unfold rotate_row in Hrot. repeat case_match; simplify_eq; done. }
    cbn [fst snd]. split; [|done]. apply rotate_row_facts in Hrot as [[_ ->]|(_ & r & Hold & _ & _ & Hrows & Hgrants & Hsp)]; [done|].
    destruct Hg as (Ho & Hn & He). destruct (Hr _ _ Hold) as (Hor & _ & _ & Hrev). split_and!.
    + intros d r'. rewrite Hrows. intros [[<- <-]|[_ [_ Hd]%lookup_delete_Some]]%lookup_insert_Some; [|by apply Hr].
      destruct He as (H1 & H2 & _). unfold row_ok. cbn [r_rotated r_user r_acr r_amr r_revoked_at r_revocation_reason].
      rewrite methods_as_str. replace (r_user r) with user by congruence. done.
    + eapply store_proof_ok; [exact Hsp|exact Hn|exact He|]. cbn [d_proofs]. intros d' p Hne.
      unfold rekeyed. destruct (d_proofs db !! old_digest) as [p0|]; [|apply Hp].
      rewrite lookup_insert_ne by done. intros [_ Hd]%lookup_delete_Some. by apply Hp.
    + rewrite Hgrants. apply grants_ok_fmap; [|exact Hgr]. intros g. apply moved_grant_ok.
Qed.

Lemma source_proof_ok k db g p :
  db_ok k db -> source_proof db g = Some p ->
  proof_grounded k (gr_user g) (gp_acr p) (gp_at p) (gp_revision p) (gp_methods p).
Proof.
  intros (Hr & Hp & _) Hs. unfold source_proof in Hs. apply bind_Some in Hs as (at_ & _ & Hs).
  apply bind_Some in Hs as (d & _ & Hs). apply bind_Some in Hs as (r & Hd & Hs).
  apply bind_Some in Hs as (pr & Hpr & Hs). destruct (_ && _) eqn:Hc; [|done]. injection Hs as <-. cbn.
  rewrite !andb_true_iff, !bool_decide_eq_true in Hc. destruct Hc as (((((Hu & _) & Ha) & _) & Hpa) & _).
  apply String.eqb_eq in Hu. destruct (Hr _ _ Hd) as (Ho & _). destruct (Hp _ _ Hpr) as (u & Ho' & Hg).
  replace (gr_user g) with u by congruence. by rewrite <- Ha, <- Hpa.
Qed.

Lemma parent_proof_ok k db g p :
  db_ok k db -> parent_proof db g = Some p ->
  proof_grounded k (gr_user g) (gp_acr p) (gp_at p) (gp_revision p) (gp_methods p).
Proof.
  intros (_ & _ & Hg) Hs. unfold parent_proof in Hs. apply bind_Some in Hs as (at_ & _ & Hs).
  apply bind_Some in Hs as (parent & Hpar & Hs). apply bind_Some in Hpar as (id & _ & Hid).
  apply bind_Some in Hs as (gp & Hgp & Hs). destruct (_ && _) eqn:Hc; [|done]. injection Hs as <-. cbn.
  rewrite !andb_true_iff, !bool_decide_eq_true in Hc.
  destruct Hc as ((((((Hu & _) & Ha) & _) & _) & Hpa) & _). apply String.eqb_eq in Hu.
  rewrite <- Hu, <- Ha, <- Hpa. by apply (Hg _ _ Hid).
Qed.

Lemma captured_ok k db g : db_ok k db -> grant_ok k (captured db g).
Proof.
  intros Hdb p. cbn. destruct (source_proof db g) as [p'|] eqn:Hs; [intros [= <-]; by eapply source_proof_ok|].
  intros Hp. by eapply parent_proof_ok.
Qed.

Lemma keep_rows_ok k keep db : db_ok k db -> db_ok k (keep_rows keep db).
Proof.
  intros (Hr & Hp & Hg). split_and!; cbn.
  - intros d r [Hd _]%map_lookup_filter_Some. by apply Hr.
  - intros d r [Hd _]%map_lookup_filter_Some. by apply Hp.
  - by apply grants_ok_fmap.
Qed.

Lemma revoked_ok k d now reason r : row_ok k d r -> row_ok k d (r_revoked now reason r).
Proof. intros (H1 & H2 & H3 & _). split_and!; [done..|]. by eexists. Qed.

Lemma op_ok k db op : db_ok k db -> db_ok k (op_exec db op).
Proof.
  intros Hdb. pose proof Hdb as (Hr & Hp & Hg). destruct op; cbn [op_exec]; try done.
  - split_and!; [|exact Hp|exact Hg]. intros d r. cbn. intros [(_ & r0 & H0 & ->)|[_ H0]]%lookup_alter_Some; [|by apply Hr].
    by apply revoked_ok, Hr.
  - split_and!; [|exact Hp|exact Hg]. intros d r. cbn. rewrite lookup_fmap. intros (r0 & H0 & ->)%fmap_Some.
    destruct (_ && _); [by apply revoked_ok, Hr|by apply Hr].
  - unfold record_participant. destruct (bool_decide _); done.
  - by apply keep_rows_ok.
  - by apply keep_rows_ok.
  - by apply (keep_rows_ok k _ db).
  - split_and!; [exact Hr|exact Hp|]. intros i g0. cbn.
    intros [[<- <-]|[_ H0]]%lookup_insert_Some; [by apply captured_ok|by apply (Hg i)].
  - split_and!; [exact Hr|exact Hp|]. intros i g0. cbn. intros [_ H0]%lookup_delete_Some. by apply (Hg i).
Qed.

(** ** Every reachable state *)

(** Names of different programs are different. *)
Definition apart (names : list (gset string)) : Prop :=
  forall i j a b, names !! i = Some a -> names !! j = Some b -> i <> j -> a ## b.

Lemma apart_cons m names : apart names -> (forall m', m' ∈ names -> m ## m') -> apart (m :: names).
Proof.
  intros Ha Hm [|i] [|j] a b; cbn; try done.
  - intros [= <-] Hb _. apply Hm. by eapply list_elem_of_lookup_2.
  - intros Hb [= <-] _. symmetry. apply Hm. by eapply list_elem_of_lookup_2.
  - intros Hi Hj Hne. apply (Ha i j a b Hi Hj). congruence.
Qed.

Lemma apart_shrinks before m m' after : m' ⊆ m -> apart (before ++ m :: after) -> apart (before ++ m' :: after).
Proof.
  intros Hm Ha i j a b.
  assert (H : forall i a, (before ++ m' :: after) !! i = Some a ->
    exists a0, (before ++ m :: after) !! i = Some a0 /\ a ⊆ a0).
  { intros i0 a0. destruct (decide (i0 = length before)) as [->|Hne].
    - rewrite !list_lookup_middle by done. intros [= <-]. by exists m.
    - intros Hi. exists a0. split; [|done]. rewrite <- Hi. rewrite !lookup_app.
      destruct (before !! i0) eqn:Hb; [done|]. apply lookup_ge_None in Hb.
      destruct (i0 - length before)%nat eqn:Hd; [lia|done]. }
  intros (a0 & Hi & Ha0)%H (b0 & Hj & Hb0)%H Hne. pose proof (Ha i j a0 b0 Hi Hj Hne). set_solver.
Qed.

Lemma apart_middle before m after m' : apart (before ++ m :: after) -> m' ∈ before ++ after -> m ## m'.
Proof.
  intros Ha [i Hi]%list_elem_of_lookup_1.
  assert (Hm : (before ++ m :: after) !! length before = Some m) by by rewrite list_lookup_middle.
  destruct (decide (i < length before)%nat) as [Hlt|Hge].
  - apply (Ha (length before) i); [done| |lia]. rewrite lookup_app_l in Hi |- * by done. done.
  - apply (Ha (length before) (S i)); [done| |lia]. rewrite lookup_app_r in Hi |- * by lia.
    replace (S i - length before)%nat with (S (i - length before)) by lia. done.
Qed.

Definition outcome_ok (k : Known) (_ : gset string) (o : Outcome) : Prop :=
  match o with OSession (Ok (Some s)) => session_grounded k s | _ => True end.

Definition programs_ok (spent : gset string) (s : Sys) : Prop :=
  exists names, apart names /\
    Forall2 (fun p m => safe outcome_ok p (known s) m /\ m ⊆ drawn s /\ m ## spent) (programs s) names.

(** The names that ids and public ids have used; [spent] only grows. *)
Definition sys_ok (spent : gset string) (s : Sys) : Prop :=
  unique_sids (d_rows (store s)) /\
  (forall d r, d_rows (store s) !! d = Some r -> d ∈ spent /\ r_public_sid r ∈ spent) /\
  db_ok (known s) (store s) /\ spent ⊆ drawn s /\
  (forall d u, owners (known s) !! d = Some u -> d ∈ drawn s) /\
  programs_ok spent s /\ Forall (session_grounded (known s)) (seen s).

(** What a step makes of the rows: names not spent before are the only new ones. *)
Definition grows (spent : gset string) (s s' : Sys) (spent' : gset string) : Prop :=
  exists names, names ## spent /\ spent' = names ∪ spent /\
    evolve names (d_rows (store s)) (d_rows (store s')) /\ knows_more (known s) (known s').

Lemma spent_evolve names spent m m' :
  evolve names m m' -> (forall d r, m !! d = Some r -> d ∈ spent /\ r_public_sid r ∈ spent) ->
  forall d r, m' !! d = Some r -> d ∈ names ∪ spent /\ r_public_sid r ∈ names ∪ spent.
Proof.
  intros He Hm d r Hd. destruct (He d r Hd) as [(d0 & r0 & H0 & (Hs & _) & Hd0)|[H1 H2]]; [|set_solver].
  rewrite Hs. destruct (Hm d0 r0 H0). destruct Hd0 as [->|]; set_solver.
Qed.

Lemma outcome_more k k' m o : knows_more k k' -> outcome_ok k m o -> outcome_ok k' m o.
Proof. intros Hk. unfold outcome_ok. repeat case_match; eauto using session_grounded_more. Qed.

Lemma programs_more spent s s' :
  knows_more (known s) (known s') -> drawn s ⊆ drawn s' -> programs s' = programs s ->
  programs_ok spent s -> programs_ok spent s'.
Proof.
  intros Hk Hd Hp (names & Ha & Hf). exists names. split; [done|]. rewrite Hp.
  eapply Forall2_impl; [exact Hf|]. intros p m (Hs & Hm & Hsp). split_and!; [|set_solver|done].
  apply (safe_grows knows_more guard answer uses _ _ (known s)); [by apply outcome_more|done|done].
Qed.

(** *** The programs a step starts *)

Definition session_post (k : Known) (_ : gset string) (r : result (option Session) DomainError) : Prop :=
  match r with Ok (Some s) => session_grounded k s | _ => True end.

Lemma lookup_outcome p k mine : safe session_post p k mine ->
  safe outcome_ok (pbind p (fun r => Ret (OSession r))) k mine.
Proof. intros Hp. apply (safe_bind knows_more guard answer uses session_post); [exact Hp|]. by intros k' m r _ _. Qed.

Lemma find_outcome d k mine : safe session_post (find tenant d) k mine.
Proof.
  eapply safe_weaken; [|apply find_post]. intros k' m [[s|]|e]; cbn; [|done..]. intros [_ Hs]. by apply Hs.
Qed.

Lemma browse_outcome d now k mine : safe session_post (find_for_browser tenant d now) k mine.
Proof.
  unfold find_for_browser. apply find_safe; [done|]. intros k' [s|] Hk Hs; [|done]. destruct (negb _); [done|].
  apply (safe_bind knows_more guard answer uses (fun _ _ _ => True)); [by apply touch_safe|].
  intros k'' m r Hk' _ _. destruct (Hs s eq_refl) as [Hg _].
  destruct r as [[]|[]]; cbn; try done. by eapply session_grounded_more.
Qed.

Lemma other_outcome {A} (p : Prog A) (f : A -> Outcome) k mine :
  (forall a, match f a with OSession _ => False | _ => True end) -> safe (fun _ _ _ => True) p k mine ->
  safe outcome_ok (pbind p (fun r => Ret (f r))) k mine.
Proof.
  intros Hf Hp. apply (safe_bind knows_more guard answer uses (fun _ _ _ => True)); [exact Hp|]. intros k' m r _ _ _. cbn. specialize (Hf r). by destruct (f r).
Qed.

Lemma program_starts spent s s' p mine :
  sys_ok spent s -> store s' = store s -> programs s' = p :: programs s -> seen s' = seen s ->
  knows_more (known s) (known s') -> drawn s ⊆ drawn s' ->
  (forall d u, owners (known s') !! d = Some u -> d ∈ drawn s') ->
  safe outcome_ok p (known s') mine -> mine ## drawn s -> mine ⊆ drawn s' ->
  sys_ok spent s' /\ grows spent s s' spent.
Proof.
  intros (Hu & Hrows & Hdb & Hsp & Ho & Hps & Hseen) Hstore Hprogs Hs Hk Hdr Ho' Hsafe Hm Hm'.
  unfold sys_ok, grows. rewrite Hstore, Hs. split.
  - split; [done|]. split; [done|]. split; [by eapply db_ok_more|]. split; [set_solver|]. split; [done|]. split.
    + destruct Hps as (names & Ha & Hf). exists (mine :: names). split.
      * apply apart_cons; [done|]. intros m' [i Hi]%list_elem_of_lookup_1.
        destruct (Forall2_lookup_r _ _ _ _ _ Hf Hi) as (p0 & _ & _ & Hd & _). set_solver.
      * rewrite Hprogs. constructor; [split_and!; [done|done|set_solver]|].
        eapply Forall2_impl; [exact Hf|]. intros p0 m (Hs0 & Hm0 & Hsp0). split_and!; [|set_solver|done].
        apply (safe_grows knows_more guard answer uses _ _ (known s)); [by apply outcome_more|done|done].
    + eapply Forall_impl; [exact Hseen|]. intros x. by apply session_grounded_more.
  - exists ∅. split_and!; [set_solver|set_solver|apply evolve_refl|done].
Qed.

Lemma lookup_starts spent s p :
  sys_ok spent s -> safe outcome_ok p (known s) ∅ ->
  sys_ok spent (with_program p s) /\ grows spent s (with_program p s) spent.
Proof.
  intros Hok Hp. pose proof Hok as (_ & _ & _ & _ & Ho & _).
  apply (program_starts spent s (with_program p s) p ∅); try done; set_solver.
Qed.

Lemma turn_ok spent s before after p clock db p' :
  sys_ok spent s -> programs s = before ++ p :: after -> turn (exec clock) (store s) p db p' ->
  let s' := {| store := db; programs := before ++ p' :: after; known := known s; drawn := drawn s;
               seen := finished p' ++ seen s |} in
  exists spent', sys_ok spent' s' /\ grows spent s s' spent'.
Proof.
  intros (Hu & Hrows & Hdb & Hsp & Ho & (names & Ha & Hf) & Hseen) Hp Ht s'. rewrite Hp in Hf.
  apply Forall2_app_inv_l in Hf as (nb & nrest & Hfb & Hfrest & Hn).
  apply Forall2_cons_inv_l in Hfrest as (m & na & (Hs & Hm & Hmsp) & Hfa & ->). subst names.
  destruct (turn_safe knows_more guard answer uses (exec clock) _ _ _ _ _ _ _ Ht Hs) as (m' & Hm' & Hs' & Hdb').
  { intros q a Hg Ha'. by apply (exec_ok clock (known s) (store s) q). }
  assert (Hnew : exists names, names ⊆ m /\ m' ## names /\ db_ok (known s) db /\ unique_sids (d_rows db) /\
    evolve names (d_rows (store s)) (d_rows db)).
  { destruct Hdb' as [->|(q & Hg & Hq & -> & ->)].
    - exists ∅. split_and!; [set_solver|set_solver|done|done|apply evolve_refl].
    - exists (uses q). destruct (exec_rows clock (store s) q Hu). split_and!; [done|set_solver| |done|done].
      by apply exec_ok. }
  destruct Hnew as (new & Hnew & Hdis & Hdbok & Huniq & Hev).
  assert (Hothers : forall l ps, l ⊆ nb ++ na -> Forall2 (fun p m => safe outcome_ok p (known s) m /\ m ⊆ drawn s /\ m ## spent) ps l ->
    Forall2 (fun p m => safe outcome_ok p (known s) m /\ m ⊆ drawn s /\ m ## new ∪ spent) ps l).
  { intros l ps Hl Hfl. apply Forall2_same_length_lookup_2; [by eapply Forall2_length|].
    intros i p0 m0 Hpi Hmi. destruct (Forall2_lookup_lr _ _ _ _ _ _ Hfl Hpi Hmi) as (H1 & H2 & H3).
    split_and!; [done|done|]. assert (m ## m0); [|set_solver].
    apply (apart_middle nb m na); [done|]. apply Hl. by eapply list_elem_of_lookup_2. }
  exists (new ∪ spent). split; [|exists new; split_and!; [set_solver|done|exact Hev|done]].
  split; [exact Huniq|]. split; [by eapply spent_evolve|]. split; [exact Hdbok|]. split; [set_solver|].
  split; [exact Ho|]. split.
  - exists (nb ++ m' :: na). split; [by eapply apart_shrinks|]. apply Forall2_app; [apply Hothers; [set_solver|done]|].
    constructor; [split_and!; [done|set_solver|set_solver]|]. apply Hothers; [set_solver|done].
  - apply Forall_app. split; [|done]. unfold finished. destruct p' as [[[[x|]|]| |]|]; try constructor; [|constructor].
    exact Hs'.
Qed.

Lemma session_step_ok spent s s' : step' s s' -> sys_ok spent s -> exists spent', sys_ok spent' s' /\ grows spent s s' spent'.
Proof.
  intros Hst Hok. pose proof Hok as (Hu & Hrows & Hdb & Hsp & Ho & Hps & Hseen).
  destruct Hst as [s op|s d|s d now|s d now i|s context stage existing user proved requested id sid now Hid Hsid Hne Hpol
    |s before after p clock db p' Hp Ht].
  - exists spent. destruct (op_rows (store s) op Hu) as [Hev Huniq]. split.
    + split; [exact Huniq|]. split; [|split; [by apply op_ok|done]].
      intros d r Hd. destruct (spent_evolve _ spent _ _ Hev Hrows d r Hd). set_solver.
    + exists ∅. split_and!; [set_solver|set_solver|exact Hev|done].
  - exists spent. apply lookup_starts; [done|]. apply lookup_outcome, find_outcome.
  - exists spent. apply lookup_starts; [done|]. apply lookup_outcome, browse_outcome.
  - exists spent. apply lookup_starts; [done|]. apply other_outcome; [done|by apply touch_safe].
  - exists spent. set (s' := Build_Sys _ _ _ _ _).
    assert (Hk : knows_more (known s) (known s')).
    { unfold knows_more. cbn. split_and!; [set_solver|set_solver|].
      apply insert_subseteq. destruct (owners (known s) !! id) eqn:E; [|done]. by apply Ho in E. }
    eapply (program_starts spent s s' _ {[ id; sid ]}); try done; [set_solver| | |set_solver|set_solver].
    + intros d u. cbn. intros [[<- <-]|[_ Hd]]%lookup_insert_Some; [set_solver|]. apply Ho in Hd. set_solver.
    + apply other_outcome; [done|]. apply establish_safe; [done|cbn; set_solver| |cbn; by rewrite lookup_insert_eq|done].
      intros m Hm. cbn. apply elem_of_app. left. apply list_elem_of_fmap. eauto.
  - by apply (turn_ok spent s before after p clock db p').
Qed.

Lemma session_start_ok : sys_ok ∅ start.
Proof.
  unfold sys_ok, db_ok, unique_sids. cbn. split; [by intros ? ? ? ? ?%lookup_empty_Some|].
  split; [by intros ? ? ?%lookup_empty_Some|].
  split; [split_and!; by intros ? ? ?%lookup_empty_Some|]. split; [done|].
  split; [by intros ? ? ?%lookup_empty_Some|]. split; [|constructor]. exists []. split; [|constructor].
  intros i j a b Hi. by rewrite lookup_nil in Hi.
Qed.

Lemma run_ok spent s s' : rtc step' s s' -> sys_ok spent s -> exists spent', spent ⊆ spent' /\ sys_ok spent' s'.
Proof.
  intros Hr. revert spent. induction Hr as [s|x y z Hxy _ IH]; intros spent Hok; [by exists spent|].
  destruct (session_step_ok _ _ _ Hxy Hok) as (sp & Hok' & (names & _ & -> & _)). destruct (IH _ Hok') as (sp' & Hsub & H).
  exists sp'. split; [set_solver|done].
Qed.

Lemma session_reachable_ok s : rtc step' start s -> exists spent, sys_ok spent s.
Proof. intros Hr. destruct (run_ok ∅ _ _ Hr session_start_ok) as (sp & _ & H). by exists sp. Qed.

(** ** The life of a session *)

Lemma run_continues spent s s' d' r' :
  rtc step' s s' -> sys_ok spent s -> d_rows (store s') !! d' = Some r' ->
  (r_public_sid r' ∈ spent -> exists d r, d_rows (store s) !! d = Some r /\ continues d r d' r') /\
  (d' ∈ spent -> exists r, d_rows (store s) !! d' = Some r /\ continues d' r d' r').
Proof.
  intros Hr. revert spent. induction Hr as [s|x y z Hxy _ IH]; intros spent Hok Hd.
  - split; intros _; eauto using continues_refl.
  - destruct (session_step_ok _ _ _ Hxy Hok) as (sp & Hok' & (names & Hdis & -> & Hev & _)).
    destruct (IH _ Hok' Hd) as [H1 H2]. split; intros Hin.
    + destruct H1 as (d & r & Hdr & Hc); [set_solver|]. pose proof Hc as (Hsid & _).
      destruct (Hev d r Hdr) as [(d0 & r0 & H0 & Hc0 & _)|[_ Hn]]; [|rewrite Hsid in Hin; set_solver].
      eauto using continues_trans.
    + destruct H2 as (r & Hdr & Hc); [set_solver|].
      destruct (Hev d' r Hdr) as [(d0 & r0 & H0 & Hc0 & [->|Hn])|[Hn _]]; [|set_solver..].
      eauto using continues_trans.
Qed.

(** C17: The id a session had before a rotation is dead. Whatever interleaves, a session has
    one id at a time; an id that stops resolving never resolves again, and while it does it
    is the same session, of the same person, with the creation and the absolute deadline it
    began with. *)
Theorem replaced_id_is_dead s s1 s2 d r :
  rtc step' start s -> d_rows (store s) !! d = Some r -> rtc step' s s1 -> rtc step' s1 s2 ->
  (forall d' r', d_rows (store s1) !! d' = Some r' -> r_public_sid r' = r_public_sid r ->
     (d' <> d -> d_rows (store s2) !! d = None) /\
     r_user r' = r_user r /\ r_created_at r' = r_created_at r /\ r_expires_at r' = r_expires_at r) /\
  (d_rows (store s1) !! d = None -> d_rows (store s2) !! d = None) /\
  (forall r', d_rows (store s1) !! d = Some r' -> r_public_sid r' = r_public_sid r).
Proof.
  intros Hs Hd H1 H2. destruct (session_reachable_ok _ Hs) as (sp & Hok). pose proof Hok as (Hu & Hrows & _).
  destruct (Hrows d r Hd) as [Hdsp Hsidsp]. destruct (run_ok sp _ _ H1 Hok) as (sp1 & Hsub & Hok1).
  pose proof Hok1 as (Hu1 & Hrows1 & _).
  assert (Hdead : d_rows (store s1) !! d = None -> d_rows (store s2) !! d = None).
  { intros Hn. destruct (d_rows (store s2) !! d) as [r2|] eqn:Hd2; [|done].
    destruct (run_continues sp1 s1 s2 d r2 H2 Hok1 Hd2) as [_ Hc].
    destruct Hc as (r0 & H0 & _); [set_solver|]. congruence. }
  assert (Hsame : forall r', d_rows (store s1) !! d = Some r' -> r_public_sid r' = r_public_sid r).
  { intros r' Hd1. destruct (run_continues sp s s1 d r' H1 Hok Hd1) as [_ Hc].
    destruct Hc as (r0 & H0 & (Hsid & _)); [done|]. congruence. }
  split; [|by split]. intros d' r' Hd' Hsid. split.
  - intros Hne. apply Hdead. destruct (d_rows (store s1) !! d) as [r0|] eqn:Hd1; [|done].
    exfalso. apply Hne, (Hu1 d' d r' r0 Hd' Hd1). rewrite (Hsame r0 eq_refl). done.
  - destruct (run_continues sp s s1 d' r' H1 Hok Hd') as [Hc _].
    destruct Hc as (d0 & r0 & H0 & (Hsid0 & Huser & Hcr & He & _)); [by rewrite Hsid|].
    assert (d0 = d) as -> by (apply (Hu d0 d r0 r H0 Hd); congruence).
    replace r with r0 by congruence. done.
Qed.

(** C18: A revoked session is frozen. No program that had read it before, no rotation, no
    activity and no second revocation changes anything of its row, the instant and the
    reason included: while the row is there it is the one that was revoked, under the same
    id, and every lookup of it says so. *)
Theorem revoked_session_is_frozen s s' d r at_ d' r' now :
  rtc step' start s -> d_rows (store s) !! d = Some r -> r_revoked_at r = Some at_ -> rtc step' s s' ->
  d_rows (store s') !! d' = Some r' -> r_public_sid r' = r_public_sid r ->
  d' = d /\ r' = r /\
  exists why, Session.status (constrained (d_policy (store s')) (loaded tenant d r')) now = SRevoked why.
Proof.
  intros Hs Hd Hat Hr Hd' Hsid. destruct (session_reachable_ok _ Hs) as (sp & Hok).
  pose proof Hok as (Hu & Hrows & (Hrow & _) & _).
  destruct (run_continues sp s s' d' r' Hr Hok Hd') as [Hc _].
  destruct Hc as (d0 & r0 & H0 & Hc); [rewrite Hsid; by apply (Hrows d r)|].
  assert (d0 = d) as -> by (apply (Hu d0 d r0 r H0 Hd); destruct Hc as (E & _); congruence).
  replace r0 with r in * by congruence. destruct Hc as (_ & _ & _ & _ & _ & Hf).
  destruct (Hrow d r Hd) as (_ & _ & _ & Hwhy).
  destruct Hf as [-> ->]; [by eexists|by apply Hwhy; eexists|].
  split_and!; [done|done|]. eexists. destruct (d_policy (store s')); unfold Session.status; cbn; by rewrite Hat.
Qed.

(** ** Assurance *)

(** C19: Assurance rests on evidence. However logins, step-ups, lookups, sweeps and changes of
    the ladder interleave, a session that a lookup returns lists only methods its person
    proved, and a class some ladder in use gives those methods. The assurance it carries, and
    the one read off a grant of that person, is of local methods alone, each proved no
    earlier than the instant it is dated, and the ladder named by its revision gives its
    class to those very methods. *)
Theorem assurance_is_grounded s :
  rtc step' start s ->
  (forall x, x ∈ seen s -> session_grounded (known s) x) /\
  (forall id g since revision ms, d_grants (store s) !! id = Some g ->
     hydrate_assurance g = Some (since, revision, ms) ->
     grounded (known s) (gr_user g) (gr_acr g) since revision ms).
Proof.
  intros Hs. destruct (session_reachable_ok _ Hs) as (sp & _ & _ & (_ & _ & Hg) & _ & _ & _ & Hseen). split.
  - by apply Forall_forall.
  - intros id g since revision ms Hid Hh. unfold hydrate_assurance in Hh.
    apply bind_Some in Hh as (at_ & _ & Hh). apply bind_Some in Hh as (p & Hp & Hh).
    destruct ((_ && _) && _) eqn:Hc; [|done]. rewrite !andb_true_iff, !bool_decide_eq_true in Hc.
    destruct Hc as [[_ Ha] _]. apply bind_Some in Hh as (ms' & Hms & [= <- <- <-]).
    destruct (Hg id g Hid p Hp) as (ms0 & Hst & Hgr). rewrite Hst, mapM_as_str in Hms. injection Hms as <-.
    by rewrite <- Ha.
Qed.

(** ** With nothing else running *)

Definition stored_proof (db : SessionDb) (d : string) (row : SessionRow) : option ProofRow :=
  p ← d_proofs db !! d;
  if bool_decide (p_acr p = r_acr row) && (p_at p <=? r_authenticated_at row) then Some p else None.
Definition stored_session (db : SessionDb) (d : string) : option Session :=
  row ← d_rows db !! d;
  Some (constrained (d_policy db) (proven (stored_proof db d row) (loaded tenant d row))).

Lemma alone_find clock db d : alone (exec clock) (find tenant d) db = (db, Ok (stored_session db d)).
Proof. unfold find, stored_session. cbn. destruct (d_rows db !! d) as [row|]; done. Qed.

(** What a lookup shows of a row besides its methods. *)
Lemma stored_session_row db d s : stored_session db d = Some s ->
  exists row, d_rows db !! d = Some row /\ s_user s = r_user row /\ s_expires_at s <= r_expires_at row /\
    (s_amr s = methods (r_amr row)) /\
    forall now, Session.status s now = SActive -> r_live now row = true.
Proof.
  unfold stored_session. intros Hs. apply bind_Some in Hs as (row & Hr & [= <-]). exists row. split; [done|].
  assert (Hp : forall proof, s_user (proven proof (loaded tenant d row)) = r_user row /\
    s_expires_at (proven proof (loaded tenant d row)) = r_expires_at row /\
    s_idle_expires_at (proven proof (loaded tenant d row)) = r_idle_expires_at row /\
    s_amr (proven proof (loaded tenant d row)) = methods (r_amr row) /\
    (s_revoked (proven proof (loaded tenant d row)) = None -> r_revoked_at row = None)).
  { intros [p|]; unfold proven; [destruct (mapM _ _)|]; cbn; split_and!; try done; by destruct (r_revoked_at row). }
  destruct (Hp (stored_proof db d row)) as (Hu & He & Hi & Ha & Hrev).
  destruct (d_policy db) as [p|]; cbn [constrained SessionPolicy.constrain s_user s_expires_at s_amr].
  - rewrite Hu, He, Ha. split_and!; [done|lia|done|]. intros now (Hn & H1 & H2)%status_active_iff. cbn in Hn, H1, H2.
    apply r_live_iff. rewrite He, Hi in *. split_and!; [by apply Hrev|lia|lia].
  - rewrite Hu, He, Ha. split_and!; [done|lia|done|]. intros now (Hn & H1 & H2)%status_active_iff.
    apply r_live_iff. rewrite He, Hi in *. split_and!; [by apply Hrev|done|done].
Qed.

Lemma usable_active st : is_usable st = true <-> st = SActive.
Proof. by destruct st. Qed.

(** A browser's session is accepted exactly where it is usable under the policy in
    force, and its acceptance renews it: the activity is recorded, and the idle deadline
    moves to the tenant's idle timeout from now, never back and never past the absolute
    deadlines of the row and of the policy. A session that is not accepted, idle ones
    included, is left as it was. *)
Theorem browser_lookup_renews clock db d now :
  alone (exec clock) (find_for_browser tenant d now) db =
  match stored_session db d with
  | Some s =>
      if is_usable (Session.status s now) then
        let timeout := match d_policy db with Some p => idle p | None => DEFAULT_IDLE_TIMEOUT end in
        (with_rows db (alter (r_touched now (Z.min (now + timeout) (s_expires_at s))) d (d_rows db)), Ok (Some s))
      else (db, Ok None)
  | None => (db, Ok None)
  end.
Proof.
  unfold find_for_browser. rewrite alone_try, alone_find. destruct (stored_session db d) as [s|] eqn:Hs; [|done].
  destruct (is_usable (Session.status s now)) eqn:Hus; [|done]. cbn [negb].
  rewrite alone_bind. unfold touch. rewrite alone_try, alone_find, Hs, Hus. cbn [negb].
  destruct (stored_session_row _ _ _ Hs) as (row & Hr & _ & _ & _ & Hlive). apply usable_active in Hus.
  assert (Halter : forall f, alter f d (d_rows db) = <[d := f row]> (d_rows db)).
  { intros f. apply map_eq. intros x. destruct (decide (d = x)) as [<-|Hne].
    - by rewrite lookup_alter_eq, Hr, lookup_insert_eq.
    - by rewrite lookup_alter_ne, lookup_insert_ne. }
  cbn [alone try_await pbind ask exec touch_stored]. unfold touch_row. rewrite Hr, (Hlive now Hus). cbn.
  by rewrite Halter.
Qed.

(** What an establishment leaves: a session begun, or one stepped up under its new id. *)
Definition began (db db' : SessionDb) (id : string) (proved : list AuthenticationMethod) (row : SessionRow) : Prop :=
  d_rows db !! id = None /\ d_rows db' = <[id := row]> (d_rows db) /\ methods (r_amr row) = proved.
Definition stepped_up (db db' : SessionDb) (old id : string) (fresh : bool) (proved : list AuthenticationMethod)
    (now : Z) (row : SessionRow) : Prop :=
  exists before, d_rows db !! old = Some before /\ r_live now before = true /\
    r_public_sid row = r_public_sid before /\ r_user row = r_user before /\
    r_expires_at row = r_expires_at before /\ d_rows db' = <[id := row]> (delete old (d_rows db)) /\
    methods (r_amr row) = if fresh then proved else merged (methods (r_amr before)) proved.

Definition left_by (db db' : SessionDb) (requested : Requirements) (id user : string)
    (how : Established -> SessionRow -> Prop) (r : result Establishment DomainError) : Prop :=
  match r with
  | Ok (WasEstablished e) =>
      es_digest e = id /\ exists row, d_rows db' !! id = Some row /\ r_user row = user /\
        es_essential_satisfied e = essential_satisfied (r_acr row) requested /\ how e row
  | _ => db' = db
  end.

Lemma left_by_weaken db db' requested id user (how how' : Established -> SessionRow -> Prop) r :
  (forall e row, how e row -> how' e row) ->
  left_by db db' requested id user how r -> left_by db db' requested id user how' r.
Proof.
  intros Hw. destruct r as [[e|]|]; cbn; [|done..]. intros (Hd & row & H1 & H2 & H3 & H4). eauto 8.
Qed.

Lemma log_in_leaves clock db context stage user proved requested id sid now db' r :
  alone (exec clock) (log_in sha256_hex json_text tenant context stage user proved requested id sid now) db = (db', r) ->
  left_by db db' requested id user
    (fun e row => began db db' id proved row /\ (stage = StStepUp -> es_essential_satisfied e = true)) r.
Proof.
  unfold log_in. destruct (bool_decide (stage = StStepUp) && negb _) eqn:Hc; [by intros [= <- <-]|].
  rewrite alone_try. unfold begin. cbn [fresh_session Session.begin s_tenant]. rewrite String.eqb_refl. cbn [negb].
  rewrite alone_try. cbn [alone ask exec]. set (fs := fresh_session _ _ _ _ _ _ _ _ _ _).
  destruct (begin_session db (dated (d_policy db) fs)) as [db1|e] eqn:Hb; cbn [alone]; [|by intros [= <- <-]].
  intros [= <- <-]. cbn. split; [done|]. apply begin_session_facts in Hb as (Hn & Hr & _).
  assert (Hd : s_id_digest (dated (d_policy db) fs) = id) by (by destruct (d_policy db)). rewrite Hd in *.
  exists (inserted_row (dated (d_policy db) fs)). rewrite Hr, lookup_insert_eq.
  split; [done|]. split; [by destruct (d_policy db)|]. split; [by destruct (d_policy db)|]. split.
  - split_and!; [done|exact Hr|]. cbn [inserted_row r_amr]. rewrite methods_as_str. by destruct (d_policy db).
  - intros ->. rewrite bool_decide_true in Hc by done. cbn in Hc. by apply negb_false_iff in Hc.
Qed.

Lemma step_up_leaves clock db context s old proved requested id now db' r :
  stored_session db old = Some s ->
  alone (exec clock) (step_up sha256_hex json_text tenant context s old proved requested id now) db = (db', r) ->
  left_by db db' requested id (s_user s)
    (fun e row => es_essential_satisfied e = true /\
       stepped_up db db' old id (au_fresh_assurance context) proved now row) r.
Proof.
  intros Hs. unfold step_up. destruct (essential_satisfied _ requested) eqn:He; cbn [negb]; [|by intros [= <- <-]].
  rewrite alone_try. unfold rotate_verified. rewrite alone_try, alone_find, Hs.
  destruct (is_usable _); cbn [negb]; [|by intros [= <- <-]]. rewrite alone_try. cbn [alone ask exec].
  destruct (rotate_row db old id (s_user s) _ now clock) as [db1 [[]|e]] eqn:Hr; cbn [alone].
  - intros [= <- <-]. cbn. split; [done|].
    apply rotate_row_facts in Hr as [[? _]|(_ & row & Ho & Hl & _ & Hrows & _)]; [done|].
    destruct (stored_session_row _ _ _ Hs) as (row' & Ho' & Hu & _ & Ha & _). rewrite Ho in Ho'. injection Ho' as <-.
    eexists. rewrite Hrows, lookup_insert_eq. split; [done|]. split; [done|]. split; [by rewrite <- He|]. split; [done|].
    exists row. split_and!; try done. cbn [r_rotated r_amr rotation v_methods]. rewrite methods_as_str.
    by rewrite Ha.
  - apply rotate_row_facts in Hr as [[_ ->]|(? & _)]; [|done]. by intros [= <- <-].
  - intros [= <- <-]. cbn. unfold rotate_row in Hr. repeat case_match; simplify_eq; done.
Qed.

(** C20: What establishing leaves, with nothing else running. Where it is refused or fails
    nothing is written. Where it succeeds the id drawn names a session of the person whose
    class answers the essential request as reported - always so in a step-up - and it is
    either a new session of what was proved, beside all the others, or the live session the
    step-up was about: the same session of the same person, its old id gone, its absolute
    deadline kept, worth what was proved before and now. *)
Theorem establish_leaves clock db context stage existing user proved requested id sid now db' r :
  alone (exec clock)
    (establish sha256_hex json_text tenant context stage existing user proved requested id sid now) db = (db', r) ->
  left_by db db' requested id user
    (fun e row => (stage = StStepUp -> es_essential_satisfied e = true) /\
       (began db db' id proved row \/
        exists old, existing = Some old /\ stage = StStepUp /\
          stepped_up db db' old id (au_fresh_assurance context) proved now row)) r.
Proof.
  assert (Hfresh : forall how, (forall e row, began db db' id proved row /\
      (stage = StStepUp -> es_essential_satisfied e = true) -> how e row) ->
    alone (exec clock) (log_in sha256_hex json_text tenant context stage user proved requested id sid now) db = (db', r) ->
    left_by db db' requested id user how r).
  { intros how Hhow Hl%log_in_leaves. eapply left_by_weaken; [|exact Hl]. exact Hhow. }
  unfold establish. destruct existing as [old|]; [|apply Hfresh; naive_solver].
  case_bool_decide as Hstage; [|apply Hfresh; naive_solver]. rewrite alone_try, alone_find.
  destruct (stored_session db old) as [s|] eqn:Hs; [|apply Hfresh; naive_solver].
  destruct (is_usable _); [|apply Hfresh; naive_solver].
  destruct (String.eqb_spec (s_user s) user) as [<-|];
    [|destruct (bool_decide _); [by intros [= <- <-]|apply Hfresh; naive_solver]].
  intros Hl%step_up_leaves; [|done]. eapply left_by_weaken; [|exact Hl]. intros e row [He Hup].
  split; [done|]. right. by exists old.
Qed.
End System.

(** ** A scheduler, and a run *)

Section Play.
Variable sha256_hex : string -> string.
Variable json_text : value -> string.
Variable tenant : string.
Abbreviation step' := (step sha256_hex json_text tenant).

Lemma default_ladder_ok : policy_ok AcrPolicy.default.
Proof.
  destruct default_levels_Ok as (ls & Hls & _ & Hnew).
  apply policy_new_ok in Hnew as (-> & Hlen & Hd). split; [|done]. cbn.
  vm_compute in Hls. injection Hls as <-. repeat (apply Forall_cons; split); [..|constructor].
  - by apply (level_new_ok PASSWORD [Password]).
  - by apply (level_new_ok PHISHING_RESISTANT [Passkey]).
  - by apply (level_new_ok PASSKEY [Passkey]).
  - by apply (level_new_ok PASSKEY_USER_VERIFIED [Passkey; UserVerified]).
Qed.

Inductive Event : Type :=
| EvOp (op : Op)
| EvFind (id_digest : string)
| EvBrowse (id_digest : string) (now : Z)
| EvEstablish (stage : Stage) (existing : option string) (user : string) (proved : list AuthenticationMethod)
    (id sid : string) (now : Z)
| EvTurn (position : nat) (clock : Z).

Definition plain_context : Authentication := {|
  au_acr := AcrPolicy.default; au_lifetimes := default_lifetimes; au_fresh_assurance := false |}.

Definition play_event (s : Sys) (ev : Event) : Sys :=
  match ev with
  | EvOp op => {| store := op_exec (store s) op; programs := programs s; known := known s; drawn := drawn s;
                  seen := seen s |}
  | EvFind d => with_program (pbind (find tenant d) (fun r => Ret (OSession r))) s
  | EvBrowse d now => with_program (pbind (find_for_browser tenant d now) (fun r => Ret (OSession r))) s
  | EvEstablish stage existing user proved id sid now =>
      if bool_decide (id ∉ drawn s) && bool_decide (sid ∉ drawn s) && negb (String.eqb id sid) then
        {| store := store s;
           programs := pbind (establish sha256_hex json_text tenant plain_context stage existing user proved
                                default_requirements id sid now) (fun r => Ret (OEstablishment r)) :: programs s;
           known := {| evidence := ((fun m => {| ev_user := user; ev_method := m; ev_at := now |}) <$> proved)
                                   ++ evidence (known s);
                       ladders := AcrPolicy.default :: ladders (known s);
                       owners := <[id := user]> (owners (known s)) |};
           drawn := {[ id; sid ]} ∪ drawn s; seen := seen s |}
      else s
  | EvTurn position clock =>
      match programs s !! position with
      | Some (Ask q k) =>
          let '(db, r) := exec clock (store s) q in
          {| store := db;
             programs := take position (programs s) ++ k r :: drop (S position) (programs s);
             known := known s; drawn := drawn s; seen := finished (k r) ++ seen s |}
      | _ => s
      end
  end.

Lemma session_play_event_step s ev : rtc step' s (play_event s ev).
Proof.
  destruct ev as [op|d|d now|stage existing user proved id sid now|n clock]; cbn [play_event].
  - apply rtc_once. constructor.
  - apply rtc_once. constructor.
  - apply rtc_once. constructor.
  - destruct (bool_decide (id ∉ drawn s) && _ && _) eqn:Hc; [|done]. apply rtc_once.
    rewrite !andb_true_iff, !bool_decide_eq_true, negb_true_iff in Hc. destruct Hc as [[H1 H2] H3%String.eqb_neq].
    apply (step_establish sha256_hex json_text tenant s plain_context); [done|done|done|apply default_ladder_ok].
  - destruct (programs s !! n) as [[a|q k]|] eqn:Hn; [done| |done].
    destruct (exec clock (store s) q) as [db r] eqn:He. apply rtc_once.
    eapply (step_turn _ _ _ s (take n (programs s)) (drop (S n) (programs s)) (Ask q k)).
    + symmetry. by apply take_drop_middle.
    + by apply turn_runs.
Qed.

Definition play (events : list Event) (s : Sys) : Sys := fold_left play_event events s.

Lemma play_steps events s : rtc step' s (play events s).
Proof.
  unfold play. revert s. induction events as [|ev events IH]; intros s; [done|].
  cbn. etrans; [apply session_play_event_step|apply IH].
Qed.
End Play.

Definition sample_hash (_ : string) : string := "0123456789abcdef0123456789abcdef0123456789abcdef0123456789abcdef".
Definition sample_json (_ : value) : string := "{}".
Abbreviation sample_play := (play sample_hash sample_json "t").

Definition sample_grant : GrantRow := {|
  gr_user := "u"; gr_session := Some "d1"%string; gr_authenticated_at := Some 10;
  gr_acr := Some PASSWORD; gr_amr := ["pwd"%string]; gr_parent := None; gr_proof := None; gr_lineage := None |}.

(** A login with a password, a grant of it, and a step-up with a passkey. *)
Definition sample_login : list Event :=
  [EvOp (AddUser "u"); EvEstablish StLogin None "u" [Password] "d1" "s1" 10; EvTurn 0 10; EvTurn 0 10;
   EvOp (WriteGrant "g" sample_grant)].
Definition sample_step_up : list Event :=
  EvEstablish StStepUp (Some "d1"%string) "u" [Passkey; UserVerified] "d2" "s2" 20 :: replicate 7 (EvTurn 0 20).
Definition sample_look : list Event := EvFind "d2" :: replicate 3 (EvTurn 0 25).
Definition sample_later : list Event :=
  [EvBrowse "d1" 30; EvTurn 0 30; EvOp (Revoke "d2" UserLogout 40)].

Definition sample_row : SessionRow := {|
  r_public_sid := "s1"; r_user := "u"; r_created_at := 10; r_authenticated_at := 10; r_last_seen_at := 10;
  r_expires_at := 10 + hours 12; r_idle_expires_at := 10 + hours 1; r_acr := Some PASSWORD;
  r_amr := ["pwd"%string]; r_revoked_at := None; r_revocation_reason := None |}.
Definition sample_stepped : SessionRow :=
  r_rotated 20 ["pwd"; "pop"; "user"]%string (Some PASSKEY_USER_VERIFIED) sample_row.

Example sample_run_steps_up :
  let s := sample_play (sample_login ++ sample_step_up ++ sample_look ++ sample_later) start in
  d_rows (store s) = {[ "d2"%string := r_revoked 40 UserLogout sample_stepped ]} /\
  (s_assurance_methods <$> seen s) = [[Passkey; UserVerified]] /\
  (hydrate_assurance <$> d_grants (store s) !! "g"%string) = Some (Some (10, sample_hash "", [Password])).
Proof. vm_compute. repeat split. Qed.

Lemma session_sample_reachable events s :
  rtc (step sample_hash sample_json "t") s (sample_play events s).
Proof. apply play_steps. Qed.

Lemma replaced_id_is_dead_witness :
  d_rows (store (sample_play (sample_login ++ sample_step_up) start)) !! "d1"%string = None /\
  d_rows (store (sample_play sample_look (sample_play (sample_login ++ sample_step_up) start))) !! "d1"%string = None.
Proof.
  assert (Hn : d_rows (store (sample_play (sample_login ++ sample_step_up) start)) !! "d1"%string = None)
    by (vm_compute; reflexivity).
  split; [exact Hn|].
  edestruct (replaced_id_is_dead sample_hash sample_json "t" (sample_play sample_login start)
    (sample_play (sample_login ++ sample_step_up) start)
    (sample_play sample_look (sample_play (sample_login ++ sample_step_up) start)) "d1" sample_row)
    as (_ & Hdead & _).
  - apply session_sample_reachable.
  - vm_compute. reflexivity.
  - replace (sample_play (sample_login ++ sample_step_up) start)
      with (sample_play sample_step_up (sample_play sample_login start)) by (unfold play; by rewrite fold_left_app).
    apply session_sample_reachable.
  - apply session_sample_reachable.
  - exact (Hdead Hn).
Defined.

Definition sample_revoked : Sys :=
  sample_play (sample_login ++ sample_step_up ++ sample_look ++ sample_later) start.

Lemma revoked_session_is_frozen_witness :
  exists r', d_rows (store (sample_play [EvOp (RevokeAll "u" CredentialChange 50)] sample_revoked)) !! "d2"%string = Some r' /\
    r' = r_revoked 40 UserLogout sample_stepped.
Proof.
  assert (Hd : d_rows (store (sample_play [EvOp (RevokeAll "u" CredentialChange 50)] sample_revoked)) !! "d2"%string
    = Some (r_revoked 40 UserLogout sample_stepped)) by (vm_compute; reflexivity).
  eexists. split; [exact Hd|].
  edestruct (revoked_session_is_frozen sample_hash sample_json "t" sample_revoked
    (sample_play [EvOp (RevokeAll "u" CredentialChange 50)] sample_revoked) "d2"
    (r_revoked 40 UserLogout sample_stepped) 40 "d2" (r_revoked 40 UserLogout sample_stepped) 60) as (_ & He & _).
  - apply session_sample_reachable.
  - vm_compute. reflexivity.
  - reflexivity.
  - apply session_sample_reachable.
  - exact Hd.
  - reflexivity.
  - exact He.
Defined.

Lemma assurance_is_grounded_witness :
  (exists x, x ∈ seen sample_revoked /\ s_assurance_methods x = [Passkey; UserVerified] /\
     session_grounded sample_hash sample_json (known sample_revoked) x) /\
  grounded sample_hash sample_json (known sample_revoked) "u" (Some PASSWORD) 10 (sample_hash "") [Password].
Proof.
  edestruct (assurance_is_grounded sample_hash sample_json "t" sample_revoked) as [Hseen Hgrant].
  - apply session_sample_reachable.
  - split.
    + destruct (seen sample_revoked) as [|x l] eqn:Hl; [vm_compute in Hl; discriminate|]. exists x.
      split; [left|]. split; [|apply Hseen; left]. vm_compute in Hl. injection Hl as <- _. reflexivity.
    + refine (Hgrant "g"%string (default sample_grant (d_grants (store sample_revoked) !! "g"%string)) _ _ _ _ _).
      * vm_compute. reflexivity.
      * vm_compute. reflexivity.
Defined.

Lemma establish_leaves_witness :
  let db := store (sample_play sample_login start) in
  let run := alone (exec 20) (establish sample_hash sample_json "t" plain_context StStepUp (Some "d1"%string) "u"
    [Passkey; UserVerified] default_requirements "d2" "s2" 20) db in
  exists row, d_rows (fst run) !! "d2"%string = Some row /\ r_user row = "u"%string /\ r_public_sid row = "s1"%string.
Proof.
  cbn zeta. set (run := alone _ _ _).
  assert (Hr : snd run = Ok (WasEstablished {| es_digest := "d2"; es_essential_satisfied := true |}))
    by (vm_compute; reflexivity).
  assert (Hrun : run = (fst run, snd run)) by (destruct run; reflexivity). rewrite Hr in Hrun.
  apply (establish_leaves sample_hash sample_json "t" 20 _ plain_context StStepUp (Some "d1"%string) "u"
    [Passkey; UserVerified] default_requirements "d2" "s2" 20) in Hrun.
  destruct Hrun as (_ & row & Hd & Hu & _ & _ & Hcase). exists row. split; [exact Hd|]. split; [exact Hu|].
  destruct Hcase as [(_ & Hrows & _)|(old & Ho & _ & before & Hb & _ & Hs & _)].
  - exfalso. apply (f_equal (fun m => m !! "d1"%string)) in Hrows. vm_compute in Hrows. discriminate.
  - injection Ho as <-. vm_compute in Hb. injection Hb as <-. exact Hs.
Defined.
