(* ===== verification/ClientKeys.v ===== *)
(** * The keys of clients

    The cache of [jose/src/client_keys.rs] over a client's [jwks_uri], and the negative cache
    replicas share in [store-pg/src/client_key_fetches.rs]. Finding keys is a program: two
    sections under the lock of the cache with the shared row, and the fetch, in between.

    The map of the cache is Rust's, whose order of iteration is a parameter. The counters and
    the reason of a failed fetch, which is text for an operator, are not modelled. *)

From S2P Require Import Prelude Bytes Json.
From S2P Require Import GrantStore.
From S2P Require Import Keys.
From S2P Require Import Jose.
From S2P Require Import Programs.
Open Scope Z_scope.

Definition DEFAULT_TTL : Z := minutes 10.
Definition DEFAULT_NEGATIVE_TTL : Z := seconds 60.
Definition DEFAULT_MIN_REFRESH_INTERVAL : Z := seconds 60.
Definition DEFAULT_MAX_ENTRIES : nat := Z.to_nat 4096.

Record CacheLimits : Type := {
  lm_ttl : Z;
  lm_negative_ttl : Z;
  lm_min_refresh_interval : Z;
  lm_max_entries : nat
}.
Definition default_limits : CacheLimits := {|
  lm_ttl := DEFAULT_TTL; lm_negative_ttl := DEFAULT_NEGATIVE_TTL;
  lm_min_refresh_interval := DEFAULT_MIN_REFRESH_INTERVAL; lm_max_entries := DEFAULT_MAX_ENTRIES |}.

(** [State] and [Entry]. *)
Inductive KeyState : Type :=
| HeldKeys (keys : ClientKeySet) (expires_at : Z)
| FailedUntil (until : Z).
Record Entry : Type := { en_uri : string; en_state : KeyState; en_last_attempt : Z }.

(** By tenant and client. *)
Abbreviation Entries := (gmap (string * string) Entry) (only parsing).

(** [ClientKeySet::contains]. *)
Definition contains (s : ClientKeySet) (kid : string) : bool :=
  existsb (fun key => bool_decide (ck_kid key = Some kid)) (ks_keys s).

Definition found_keys : Type := result ClientKeySet ClientKeyError.

Module Entry.
Definition serves (e : Entry) (kid : option string) (now : Z) : bool :=
  match en_state e with
  | HeldKeys keys expires_at => (now <? expires_at) && is_none_or (contains keys) kid
  | FailedUntil _ => false
  end.
Definition keys (e : Entry) : found_keys :=
  match en_state e with HeldKeys keys _ => Ok keys | FailedUntil _ => Err Unavailable end.
End Entry.

(** ** The sections under the lock *)

(** [min_by_key]: the first of the least. *)
Definition least (l : list ((string * string) * Entry)) : option (string * string) :=
  match l with
  | [] => None
  | first :: rest =>
      Some (fst (fold_left (fun m x => if en_last_attempt (snd x) <? en_last_attempt (snd m) then x else m) rest first))
  end.

Section Cache.
Variable limits : CacheLimits.
Variable iter : Entries -> list ((string * string) * Entry).

Definition evict_if_full (entries : Entries) (now : Z) : Entries :=
  if (size entries <? lm_max_entries limits)%nat then entries
  else
    let kept := filter (fun '(_, e) => Entry.serves e None now = true) entries in
    if (size kept <? lm_max_entries limits)%nat then kept
    else match least (iter kept) with Some oldest => delete oldest kept | None => kept end.

Definition attempted (now : Z) (e : Entry) : Entry :=
  {| en_uri := en_uri e; en_state := en_state e; en_last_attempt := now |}.

Definition reserve (entries : Entries) (key : string * string) (uri : string) (now : Z) : Entries :=
  match entries !! key with
  | Some e => <[key := attempted now e]> entries
  | None =>
      <[key := {| en_uri := uri; en_state := FailedUntil (now + lm_negative_ttl limits); en_last_attempt := now |}]>
        (evict_if_full entries now)
  end.

(** What the first section leaves to do. *)
Inductive Begun : Type := Served (answer : found_keys) | Fetching.

Definition of_another_uri (entries : Entries) (key : string * string) (uri : string) : bool :=
  match entries !! key with Some e => negb (String.eqb (en_uri e) uri) | None => false end.

Definition backing_off (e : Entry) (now : Z) : bool :=
  match en_state e with FailedUntil until => now <? until | HeldKeys _ _ => false end.

Definition begin (entries : Entries) (key : string * string) (uri : string) (kid : option string) (now : Z)
    : Entries * Begun :=
  let entries := if of_another_uri entries key uri then delete key entries else entries in
  match entries !! key with
  | Some e =>
      if Entry.serves e kid now then (entries, Served (Entry.keys e))
      else if backing_off e now then (entries, Served (Err Unavailable))
      else if now - en_last_attempt e <? lm_min_refresh_interval limits then (entries, Served (Entry.keys e))
      else (reserve entries key uri now, Fetching)
  | None => (reserve entries key uri now, Fetching)
  end.

(** The last section: what was fetched, for the next to find. *)
Definition finish (entries : Entries) (key : string * string) (uri : string) (parsed : found_keys) (now : Z) : Entries :=
  <[key := {|
      en_uri := uri;
      en_state := match parsed with
                  | Ok keys => HeldKeys keys (now + lm_ttl limits)
                  | Err _ => FailedUntil (now + lm_negative_ttl limits)
                  end;
      en_last_attempt := now |}]> entries.

Definition adopt_shared_backoff (entries : Entries) (key : string * string) (uri : string) (until now : Z)
    : Entries * found_keys :=
  let failed := {| en_uri := uri; en_state := FailedUntil until;
                   en_last_attempt := Z.min (until - lm_negative_ttl limits) now |} in
  match entries !! key with
  | Some e => if Entry.serves e None now then (entries, Entry.keys e) else (<[key := failed]> entries, Err Unavailable)
  | None => (<[key := failed]> entries, Err Unavailable)
  end.

Definition invalidate (entries : Entries) (key : string * string) : Entries := delete key entries.
End Cache.

(** ** What replicas share: [PgClientKeyFetches] *)

Record Backoff : Type := { bo_last_attempt_at : Z; bo_next_attempt_at : Z }.
Abbreviation Backoffs := (gmap (string * string * list Z) Backoff) (only parsing).

Module PgClientKeyFetches.
Section Env.
Context {E : JoseEnv}.
Definition row_of (tenant client uri : string) : string * string * list Z := (tenant, client, sha256 (bytes_of uri)).

Definition next_attempt_at (rows : Backoffs) (tenant client uri : string) : option Z :=
  bo_next_attempt_at <$> rows !! row_of tenant client uri.

(** [on conflict .. do update .. where]: a later attempt replaces an earlier one. *)
Definition record_failure (rows : Backoffs) (tenant client uri : string) (attempted_at next_attempt_at : Z) : Backoffs :=
  let row := {| bo_last_attempt_at := attempted_at; bo_next_attempt_at := next_attempt_at |} in
  match rows !! row_of tenant client uri with
  | Some old => if bo_last_attempt_at old <? attempted_at then <[row_of tenant client uri := row]> rows else rows
  | None => <[row_of tenant client uri := row]> rows
  end.

Definition clear (rows : Backoffs) (tenant client uri : string) : Backoffs := delete (row_of tenant client uri) rows.
End Env.
End PgClientKeyFetches.

(** ** Finding keys *)

(** [JwksSource]. *)
Inductive JwksSource : Type := NoJwks | Inline (document : value) | Uri (uri : string).

Inductive KeyStatement : Type :=
| Begin (tenant client uri : string) (kid : option string) (now : Z)
| NextAttemptAt (tenant client uri : string)
| Adopt (tenant client uri : string) (until now : Z)
| Fetch (uri : string)
| Clear (tenant client uri : string)
| RecordFailure (tenant client uri : string) (attempted_at next_attempt_at : Z)
| Finish (tenant client uri : string) (parsed : found_keys) (now : Z).

Definition KeyAnswer (q : KeyStatement) : Type :=
  match q with
  | Begin _ _ _ _ _ => Begun
  | NextAttemptAt _ _ _ => option Z
  | Adopt _ _ _ _ _ => found_keys
  | Fetch _ => list Z
  | Clear _ _ _ | RecordFailure _ _ _ _ _ | Finish _ _ _ _ _ => unit
  end.

(** The cache, the shared rows, and what each URL serves now. *)
Record KeyStore : Type := {
  st_entries : gmap (string * string) Entry;
  st_backoffs : gmap (string * string * list Z) Backoff;
  st_web : gmap string (list Z)
}.

Definition with_entries (s : KeyStore) (entries : gmap (string * string) Entry) : KeyStore :=
  {| st_entries := entries; st_backoffs := st_backoffs s; st_web := st_web s |}.
Definition with_backoffs (s : KeyStore) (rows : gmap (string * string * list Z) Backoff) : KeyStore :=
  {| st_entries := st_entries s; st_backoffs := rows; st_web := st_web s |}.

Section Programs.
Context {E : JoseEnv}.
Variable limits : CacheLimits.
Variable iter : Entries -> list ((string * string) * Entry).
(** Whether the deployment has a shared negative cache. *)
Variable sharing : bool.

Definition key_exec (s : KeyStore) (q : KeyStatement) : KeyStore * result (KeyAnswer q) DomainError :=
  match q return KeyStore * result (KeyAnswer q) DomainError with
  | Begin tenant client uri kid now =>
      let '(entries, begun) := begin limits iter (st_entries s) (tenant, client) uri kid now in
      (with_entries s entries, Ok begun)
  | NextAttemptAt tenant client uri =>
      (s, Ok (PgClientKeyFetches.next_attempt_at (st_backoffs s) tenant client uri))
  | Adopt tenant client uri until now =>
      let '(entries, answer) := adopt_shared_backoff limits (st_entries s) (tenant, client) uri until now in
      (with_entries s entries, Ok answer)
  | Fetch uri => (s, ok_or (st_web s !! uri) Storage)
  | Clear tenant client uri => (with_backoffs s (PgClientKeyFetches.clear (st_backoffs s) tenant client uri), Ok tt)
  | RecordFailure tenant client uri attempted_at next_attempt_at =>
      (with_backoffs s (PgClientKeyFetches.record_failure (st_backoffs s) tenant client uri attempted_at next_attempt_at),
       Ok tt)
  | Finish tenant client uri parsed now =>
      (with_entries s (finish limits (st_entries s) (tenant, client) uri parsed now), Ok tt)
  end.

Abbreviation program := (Prog KeyAnswer) (only parsing).

(** An error of a section is a lock some thread left poisoned. *)
Definition answered (r : result found_keys DomainError) : found_keys :=
  match r with Ok answer => answer | Err _ => Err Unavailable end.

Definition shared_backoff_until (tenant client uri : string) (now : Z) : program (option Z) :=
  if sharing then
    Ask (NextAttemptAt tenant client uri) (fun r =>
      Ret match r with
          | Ok (Some until) => if now <? until then Some until else None
          | _ => None
          end)
  else Ret None.

Definition write_through (tenant client uri : string) (parsed : found_keys) (now : Z) : program unit :=
  if sharing then
    match parsed with
    | Ok _ => Ask (Clear tenant client uri) (fun _ => Ret tt)
    | Err _ => Ask (RecordFailure tenant client uri now (now + lm_negative_ttl limits)) (fun _ => Ret tt)
    end
  else Ret tt.

(** What was fetched, published to the other replicas and filed. *)
Definition filed (tenant client uri : string) (parsed : found_keys) (now : Z) : program found_keys :=
  pbind (write_through tenant client uri parsed now) (fun _ =>
    Ask (Finish tenant client uri parsed now) (fun r =>
      Ret match r with Ok _ => parsed | Err _ => Err Unavailable end)).

Definition resolve_uri (tenant client uri : string) (kid : option string) (now : Z) : program found_keys :=
  Ask (Begin tenant client uri kid now) (fun begun =>
    match begun with
    | Err _ => Ret (Err Unavailable)
    | Ok (Served answer) => Ret answer
    | Ok Fetching =>
        pbind (shared_backoff_until tenant client uri now) (fun until =>
          match until with
          | Some until => Ask (Adopt tenant client uri until now) (fun r => Ret (answered r))
          | None =>
              Ask (Fetch uri) (fun fetched =>
                filed tenant client uri match fetched with Ok body => parse_jwk_set body | Err _ => Err Unavailable end now)
          end)
    end).

Definition resolve (tenant client : string) (source : JwksSource) (kid : option string) (now : Z) : program found_keys :=
  match source with
  | NoJwks => Ret (Err (MalformedKeySet "client authentication method has no JWK Set"))
  | Inline document => Ret (keys_from_jwk_set document)
  | Uri uri => resolve_uri tenant client uri kid now
  end.
End Programs.
