(* ===== verification/ClientKeysLaws.v ===== *)
(** * The keys of clients: where they come from, and how long they are served

    What finding keys returns whatever else runs, against any record of what was registered and
    served; and two ways in which the cache serves keys it says it would not. *)

From S2P Require Import Prelude Bytes Json.
From S2P Require Import GrantStore.
From S2P Require Import Keys.
From S2P Require Import Jose.
From S2P Require Import JoseLaws.
From S2P Require Import Programs.
From S2P Require Import ClientKeys.
Open Scope Z_scope.

(** ** Where keys come from *)

Section Provenance.
Context {E : JoseEnv}.
(** A record that grows: the documents served, and the URLs a client was registered with. *)
Context {K : Type} (le : relation K) `{!PreOrder le}.
Context (served : K -> string -> list Z -> Prop) (registered : K -> string * string -> string -> Prop).
Hypothesis served_more : forall k k' uri body, le k k' -> served k uri body -> served k' uri body.
Hypothesis registered_more : forall k k' key uri, le k k' -> registered k key uri -> registered k' key uri.
Variable limits : CacheLimits.
Variable iter : gmap (string * string) Entry -> list ((string * string) * Entry).
Variable sharing : bool.

(** Keys of a document the URL served, where the client was registered with it. *)
Definition published (k : K) (key : string * string) (uri : string) (keys : ClientKeySet) : Prop :=
  registered k key uri /\ exists body, served k uri body /\ parse_jwk_set body = Ok keys.

Lemma published_more k k' key uri keys : le k k' -> published k key uri keys -> published k' key uri keys.
Proof using served_more registered_more. intros Hk (Hr & body & Hs & Hp). split; [eauto|]. exists body. eauto. Qed.

Definition entry_ok (k : K) (key : string * string) (e : Entry) : Prop :=
  forall keys, Entry.keys e = Ok keys -> published k key (en_uri e) keys.
Definition store_ok (k : K) (s : KeyStore) : Prop :=
  (forall key e, st_entries s !! key = Some e -> entry_ok k key e) /\
  (forall uri body, st_web s !! uri = Some body -> served k uri body).

(** What a program finishes with is what it fetched; adopting needs the shared cache. *)
Definition key_guard (k : K) (q : KeyStatement) : Prop :=
  match q with
  | Finish tenant client uri parsed _ => forall keys, parsed = Ok keys -> published k (tenant, client) uri keys
  | Adopt _ _ _ _ _ => sharing = true
  | _ => True
  end.

Definition key_answer (k : K) (q : KeyStatement) : KeyAnswer q -> Prop :=
  match q return KeyAnswer q -> Prop with
  | Begin tenant client uri _ _ => fun a => forall keys, a = Served (Ok keys) -> published k (tenant, client) uri keys
  | Adopt tenant client _ _ _ => fun a => forall keys, a = Ok keys -> exists uri, published k (tenant, client) uri keys
  | Fetch uri => fun body => served k uri body
  | _ => fun _ => True
  end.

Definition no_names (q : KeyStatement) : gset string := ∅.

(** Keys found for a client registered with a URL: of that URL, or of another it was
    registered with where replicas share their failures. *)
Definition found_ok (uri : string) (k : K) (key : string * string) (r : found_keys) : Prop :=
  forall keys, r = Ok keys -> exists uri', (uri' = uri \/ sharing = true) /\ published k key uri' keys.

Lemma failed_ok k key uri until last : entry_ok k key {| en_uri := uri; en_state := FailedUntil until; en_last_attempt := last |}.
Proof. by intros keys. Qed.

Lemma evict_subset entries now : evict_if_full limits iter entries now ⊆ entries.
Proof.
  unfold evict_if_full. destruct (_ <? _)%nat; [done|]. cbn zeta.
  assert (Hf : filter (fun '(_, e) => Entry.serves e None now = true) entries ⊆ entries) by apply map_filter_subseteq.
  destruct (_ <? _)%nat; [done|]. destruct (least _); [|done]. etrans; [apply delete_subseteq|done].
Qed.

Lemma reserve_ok k entries key uri now :
  (forall key e, entries !! key = Some e -> entry_ok k key e) ->
  forall key' e, reserve limits iter entries key uri now !! key' = Some e -> entry_ok k key' e.
Proof.
  intros H key' e. unfold reserve. destruct (entries !! key) as [e0|] eqn:He; intros [[<- <-]|[_ Hl]]%lookup_insert_Some.
  - exact (H _ _ He).
  - by apply H.
  - apply failed_ok.
  - eapply H, lookup_weaken; [exact Hl|apply evict_subset].
Qed.

Lemma begin_ok k entries key uri kid now entries' begun :
  (forall key e, entries !! key = Some e -> entry_ok k key e) -> begin limits iter entries key uri kid now = (entries', begun) ->
  (forall key e, entries' !! key = Some e -> entry_ok k key e) /\
  (forall keys, begun = Served (Ok keys) -> published k key uri keys).
Proof.
  intros H. unfold begin. set (kept := if of_another_uri entries key uri then delete key entries else entries).
  assert (Hkept : forall key e, kept !! key = Some e -> entry_ok k key e).
  { unfold kept. destruct (of_another_uri _ _ _); [|done]. intros ? ? [_ Hl]%lookup_delete_Some. by apply H. }
  assert (Huri : forall e, kept !! key = Some e -> en_uri e = uri).
  { unfold kept. destruct (of_another_uri _ _ _) eqn:Ho; intros e He; [by rewrite lookup_delete_eq in He|].
    unfold of_another_uri in Ho. rewrite He in Ho. by apply negb_false_iff, String.eqb_eq in Ho. }
  assert (Hserved : forall e, kept !! key = Some e -> forall keys, Served (Entry.keys e) = Served (Ok keys) ->
    published k key uri keys).
  { intros e He keys [= Hk]. rewrite <- (Huri e He). by apply (Hkept _ _ He). }
  destruct (kept !! key) as [e|] eqn:He; [|intros [= <- <-]; split; [by apply reserve_ok|done]].
  destruct (Entry.serves e kid now); [intros [= <- <-]; eauto|]. destruct (backing_off e now); [by intros [= <- <-]|].
  destruct (_ <? _); intros [= <- <-]; [eauto|]. split; [by apply reserve_ok|done].
Qed.

Lemma adopt_ok k entries key uri until now entries' r :
  (forall key e, entries !! key = Some e -> entry_ok k key e) ->
  adopt_shared_backoff limits entries key uri until now = (entries', r) ->
  (forall key e, entries' !! key = Some e -> entry_ok k key e) /\
  (forall keys, r = Ok keys -> exists uri, published k key uri keys).
Proof.
  intros H. unfold adopt_shared_backoff.
  assert (Hf : forall key' e, <[key := {| en_uri := uri; en_state := FailedUntil until;
      en_last_attempt := Z.min (until - lm_negative_ttl limits) now |}]> entries !! key' = Some e -> entry_ok k key' e).
  { intros key' e [[<- <-]|[_ Hl]]%lookup_insert_Some; [apply failed_ok|by apply H]. }
  destruct (entries !! key) as [e|] eqn:He; [|by intros [= <- <-]].
  destruct (Entry.serves e None now); intros [= <- <-]; [|done]. split; [done|].
  intros keys Hk. exists (en_uri e). exact (H _ _ He _ Hk).
Qed.

Lemma key_exec_ok k s q :
  store_ok k s -> key_guard k q ->
  store_ok k (fst (key_exec limits iter s q)) /\
  (forall a, snd (key_exec limits iter s q) = Ok a -> key_answer k q a).
Proof.
  intros [He Hw] Hg. destruct q as [t c uri kid now|t c uri|t c uri until now|uri|t c uri|t c uri at_ next|t c uri parsed now];
    cbn [key_exec].
  - destruct (begin _ _ _ _ _ _ _) as [entries begun] eqn:Hb. destruct (begin_ok _ _ _ _ _ _ _ _ He Hb) as [He' Ha].
    split; [by split|]. cbn. by intros a [= <-].
  - by split.
  - destruct (adopt_shared_backoff _ _ _ _ _ _) as [entries r] eqn:Hb. destruct (adopt_ok _ _ _ _ _ _ _ _ He Hb) as [He' Ha].
    split; [by split|]. cbn. by intros a [= <-].
  - split; [by split|]. cbn. intros body Hb%ok_or_Ok. by apply Hw.
  - by split.
  - by split.
  - split; [|done]. split; [|exact Hw]. intros key e. cbn. unfold finish. cbn in Hg.
    intros [[<- <-]|[_ Hl]]%lookup_insert_Some; [|by apply He]. intros keys. destruct parsed as [ks|]; [|done].
    cbn. intros [= <-]. by apply Hg.
Qed.

Abbreviation safe := (safe le key_guard key_answer no_names) (only parsing).

Lemma safe_key {B} q (f : result (KeyAnswer q) DomainError -> Prog KeyAnswer B) (post : K -> gset string -> B -> Prop) k mine :
  (forall k', le k k' -> key_guard k' q) ->
  (forall k' r, le k k' -> (forall a, r = Ok a -> key_answer k' q a) -> safe post (f r) k' mine) ->
  safe post (Ask q f) k mine.
Proof.
  intros Hg Hf k' Hk. split; [by apply Hg|]. unfold no_names. rewrite difference_empty_L.
  split; [set_solver|]. intros r Hr. by apply Hf.
Qed.

Lemma filed_safe tenant client uri parsed now k mine :
  (forall k', le k k' -> forall keys, parsed = Ok keys -> published k' (tenant, client) uri keys) ->
  safe (fun k' _ r => found_ok uri k' (tenant, client) r) (filed limits sharing tenant client uri parsed now) k mine.
Proof using PreOrder0 registered_more served_more.
  intros Hparsed. apply (safe_bind le key_guard key_answer no_names (fun _ _ _ => True)).
  { unfold write_through. destruct sharing, parsed; try done; by apply safe_key. }
  intros k4 m4 [] H4 _ _. apply safe_key; [intros k' Hk; exact (Hparsed k' (transitivity H4 Hk))|].
  intros k5 [[]|e] H5 _; [|by intros keys]. intros keys Hk. exists uri. split; [by left|].
  exact (Hparsed k5 (transitivity H4 H5) keys Hk).
Qed.

(** Whatever else runs, the keys found are published ones. *)
Lemma resolve_uri_safe tenant client uri kid now k mine :
  registered k (tenant, client) uri ->
  safe (fun k' _ r => found_ok uri k' (tenant, client) r) (resolve_uri limits sharing tenant client uri kid now) k mine.
Proof using PreOrder0 registered_more served_more.
  intros Hr. unfold resolve_uri. apply safe_key; [done|]. intros k1 [[answer|]|e] H1 Hb; [|clear Hb|by intros keys].
  - intros keys ->. exists uri. split; [by left|by apply (Hb _ eq_refl)].
  - apply (safe_bind le key_guard key_answer no_names (fun _ _ until => is_Some until -> sharing = true)).
    { unfold shared_backoff_until. destruct sharing; [|by intros [? [=]]]. by apply safe_key. }
    intros k2 m2 [until|] H2 _ Hs.
    + apply safe_key; [intros k' _; apply Hs; by eexists|]. intros k3 [r|e] H3 Ha; [|by intros keys].
      cbn. intros keys ->. destruct (Ha _ eq_refl keys eq_refl) as (uri' & Hp). exists uri'. split; [right|done].
      apply Hs. by eexists.
    + apply safe_key; [done|]. intros k3 fetched H3 Hf. apply filed_safe. intros k' Hk keys Hp.
      destruct fetched as [body|]; [|done]. apply (published_more k3); [done|].
      split; [eapply registered_more, Hr; do 2 (etrans; [eassumption|]); done|]. exists body. split; [by apply Hf|done].
Qed.
End Provenance.

(** ** How long keys are served *)

Section Departures.
Context {E : JoseEnv}.
Variable limits : CacheLimits.
Variable iter : gmap (string * string) Entry -> list ((string * string) * Entry).

(** Requests dropped while they fetched: the caller closed the connection, or the request
    timed out. All that is left of each is its first section. *)
Fixpoint dropped (n : nat) (tenant client uri : string) (kid : option string) (first : Z) (s : KeyStore) : KeyStore :=
  let s := match n with
           | O => s
           | S m => dropped m tenant client uri kid first s
           end in
  fst (key_exec limits iter s (Begin tenant client uri kid (first + Z.of_nat n * lm_min_refresh_interval limits))).

Definition held (s : KeyStore) (key : string * string) (uri : string) (keys : ClientKeySet) (expires_at last : Z) : Prop :=
  st_entries s !! key = Some {| en_uri := uri; en_state := HeldKeys keys expires_at; en_last_attempt := last |}.

Lemma begin_held entries key uri keys expires_at last kid now :
  entries !! key = Some {| en_uri := uri; en_state := HeldKeys keys expires_at; en_last_attempt := last |} ->
  expires_at <= now ->
  begin limits iter entries key uri kid now =
  if now - last <? lm_min_refresh_interval limits then (entries, Served (Ok keys))
  else (<[key := {| en_uri := uri; en_state := HeldKeys keys expires_at; en_last_attempt := now |}]> entries, Fetching).
Proof.
  intros He Hx. unfold begin, of_another_uri. rewrite He. cbn [en_uri]. rewrite String.eqb_refl. cbn [negb].
  rewrite He. unfold Entry.serves, backing_off. cbn [en_state en_last_attempt].
  replace (now <? expires_at) with false by lia. cbn [andb]. destruct (_ <? _); [done|].
  unfold reserve. by rewrite He.
Qed.

Lemma dropped_held n tenant client uri keys expires_at last kid s :
  held s (tenant, client) uri keys expires_at last ->
  0 < lm_min_refresh_interval limits -> last + lm_min_refresh_interval limits <= expires_at ->
  held (dropped n tenant client uri kid expires_at s) (tenant, client) uri keys expires_at
    (expires_at + Z.of_nat n * lm_min_refresh_interval limits).
Proof.
  intros Hs Hi Hl. induction n as [|n IH]; cbn [dropped key_exec].
  - rewrite (begin_held _ _ _ _ _ _ _ _ Hs) by lia. destruct (Z.ltb_spec (expires_at + Z.of_nat 0 * lm_min_refresh_interval limits - last)
      (lm_min_refresh_interval limits)); [lia|]. unfold held. cbn. by rewrite lookup_insert_eq.
  - rewrite (begin_held _ _ _ _ _ _ _ _ IH) by nia. match goal with |- context [?a <? ?b] => destruct (Z.ltb_spec a b) end; [lia|].
    unfold held. cbn [fst with_entries st_entries]. by rewrite lookup_insert_eq.
Qed.

(** Withdrawn keys linger. Keys whose time has passed are served to whoever asks within an
    interval of the last attempt to fetch, and an attempt that is dropped counts: a request
    dropped every interval keeps them for as long as it goes on, whatever the client's URL
    serves by then. *)
Theorem withdrawn_keys_linger sharing n d tenant client uri keys expires_at last kid kid' s :
  held s (tenant, client) uri keys expires_at last ->
  last + lm_min_refresh_interval limits <= expires_at -> 0 <= d < lm_min_refresh_interval limits ->
  let now := expires_at + Z.of_nat n * lm_min_refresh_interval limits + d in
  snd (alone (key_exec limits iter) (resolve_uri limits sharing tenant client uri kid' now)
         (dropped n tenant client uri kid expires_at s)) = Ok keys.
Proof.
  intros Hs Hl Hd now. assert (Hn := dropped_held n _ _ _ _ _ _ kid _ Hs ltac:(lia) Hl).
  unfold resolve_uri. cbn [alone key_exec]. rewrite (begin_held _ _ _ _ _ _ _ _ Hn) by (unfold now; nia).
  unfold now. match goal with |- context [?a <? ?b] => destruct (Z.ltb_spec a b) end; [done|lia].
Qed.

Lemma begin_fresh entries key uri kid now :
  (forall e, entries !! key = Some e -> en_uri e <> uri) ->
  exists entries' e, begin limits iter entries key uri kid now = (entries', Fetching) /\ entries' !! key = Some e /\ en_uri e = uri.
Proof.
  intros Hu. unfold begin. set (kept := if of_another_uri entries key uri then delete key entries else entries).
  assert (Hk : kept !! key = None).
  { unfold kept, of_another_uri. destruct (entries !! key) as [e|] eqn:He; [|done].
    destruct (String.eqb_spec (en_uri e) uri) as [Heq|]; [by destruct (Hu e eq_refl Heq)|]. cbn. by rewrite lookup_delete_eq. }
  rewrite Hk. unfold reserve. rewrite Hk. do 2 eexists. split; [done|]. by rewrite lookup_insert_eq.
Qed.

Lemma fetch_alone {B} s uri body (f : result (KeyAnswer (Fetch uri)) DomainError -> Prog KeyAnswer B) :
  st_web s !! uri = Some body ->
  alone (key_exec limits iter) (Ask (Fetch uri) f) s = alone (key_exec limits iter) (f (Ok body)) s.
Proof. intros Hw. cbn [alone key_exec]. by rewrite Hw. Qed.

Lemma filed_alone tenant client uri keys now s :
  alone (key_exec limits iter) (filed limits true tenant client uri (Ok keys) now) s =
  (with_backoffs (with_entries s (finish limits (st_entries s) (tenant, client) uri (Ok keys) now))
     (PgClientKeyFetches.clear (st_backoffs s) tenant client uri), Ok keys).
Proof. done. Qed.

(** A client that registered another URL can be served the keys of the first. A request
    that read the new registration finds it backing off on account of another replica; one
    that read the old registration before has filed that URL's keys meanwhile, and they are
    what the first is given. *)
Theorem adopted_keys_of_another_url tenant client uri old body keys kid kid' now until s :
  uri <> old -> st_entries s !! (tenant, client) = None ->
  PgClientKeyFetches.next_attempt_at (st_backoffs s) tenant client uri = Some until -> now < until ->
  PgClientKeyFetches.next_attempt_at (st_backoffs s) tenant client old = None ->
  st_web s !! old = Some body -> parse_jwk_set body = Ok keys -> 0 < lm_ttl limits ->
  exists rest s1 s2,
    resolve_uri limits true tenant client uri kid now = Ask (Begin tenant client uri kid now) rest /\
    key_exec limits iter s (Begin tenant client uri kid now) = (s1, Ok Fetching) /\
    alone (key_exec limits iter) (resolve_uri limits true tenant client old kid' now) s1 = (s2, Ok keys) /\
    snd (alone (key_exec limits iter) (rest (Ok Fetching)) s2) = Ok keys.
Proof.
  intros Hne Hnone Hb Hlt Hold Hw Hp Httl.
  destruct (begin_fresh (st_entries s) (tenant, client) uri kid now) as (e1 & e & H1 & He1 & Hu1); [congruence|].
  destruct (begin_fresh e1 (tenant, client) old kid' now) as (e2 & e' & H2 & He2 & Hu2);
    [intros e0 He0; rewrite He1 in He0; by injection He0 as <-; rewrite Hu1|].
  unfold resolve_uri at 1. do 3 eexists. split; [reflexivity|]. cbn [key_exec]. rewrite H1. split; [done|].
  unfold resolve_uri at 1. cbn [alone key_exec with_entries st_entries]. rewrite H2.
  unfold shared_backoff_until. cbn [pbind alone key_exec with_entries st_backoffs]. rewrite Hold.
  rewrite (fetch_alone _ _ body) by exact Hw. rewrite Hp, filed_alone. split; [reflexivity|].
  cbn [pbind alone key_exec with_entries with_backoffs st_backoffs st_entries].
  assert (Hrow : PgClientKeyFetches.next_attempt_at (PgClientKeyFetches.clear (st_backoffs s) tenant client old) tenant client uri = Some until).
  { unfold PgClientKeyFetches.next_attempt_at, PgClientKeyFetches.clear in *. rewrite lookup_delete_ne; [done|].
    intros Hr. rewrite Hr in Hold. congruence. }
  rewrite Hrow. replace (now <? until) with true by lia. cbn [alone key_exec with_entries with_backoffs st_entries].
  unfold adopt_shared_backoff, finish. rewrite lookup_insert_eq. unfold Entry.serves. cbn [en_state is_none_or].
  replace (now <? now + lm_ttl limits) with true by lia. done.
Qed.
End Departures.

(** ** Both, of an empty key set *)

Definition no_keys : value := VObject [("keys", VArray [])]%string.
#[local] Instance serving_env : JoseEnv := plain_env (fun _ => None) (fun _ => Some no_keys).
Definition empty_set : ClientKeySet := {| ks_keys := []; ks_leaf_certificates := [] |}.

Definition filed_once : KeyStore := {|
  st_entries := {[ ("t", "c")%string := {| en_uri := "https://c/jwks"; en_state := HeldKeys empty_set (minutes 10);
                                           en_last_attempt := 0 |} ]};
  st_backoffs := ∅; st_web := ∅ |}.

Lemma withdrawn_keys_linger_witness :
  snd (alone (key_exec default_limits map_to_list)
         (resolve_uri default_limits false "t" "c" "https://c/jwks" None (minutes 10 + Z.of_nat 100 * seconds 60 + seconds 59))
         (dropped default_limits map_to_list 100 "t" "c" "https://c/jwks" None (minutes 10) filed_once)) = Ok empty_set.
Proof.
  apply (withdrawn_keys_linger default_limits map_to_list false 100 (seconds 59) "t" "c" "https://c/jwks" empty_set
           (minutes 10) 0 None None filed_once); [reflexivity|vm_compute; congruence|vm_compute; split; congruence].
Defined.

Definition moved : KeyStore := {|
  st_entries := ∅;
  st_backoffs := {[ PgClientKeyFetches.row_of "t" "c" "https://new" := {| bo_last_attempt_at := 0; bo_next_attempt_at := seconds 60 |} ]};
  st_web := {[ "https://old"%string := bytes_of "{}" ]} |}.

Lemma adopted_keys_of_another_url_witness : exists rest s1 s2,
  resolve_uri default_limits true "t" "c" "https://new" None 0 = Ask (Begin "t" "c" "https://new" None 0) rest /\
  key_exec default_limits map_to_list moved (Begin "t" "c" "https://new" None 0) = (s1, Ok Fetching) /\
  alone (key_exec default_limits map_to_list) (resolve_uri default_limits true "t" "c" "https://old" None 0) s1 = (s2, Ok empty_set) /\
  snd (alone (key_exec default_limits map_to_list) (rest (Ok Fetching)) s2) = Ok empty_set.
Proof.
  apply (adopted_keys_of_another_url default_limits map_to_list "t" "c" "https://new" "https://old" (bytes_of "{}") empty_set
           None None 0 (seconds 60) moved);
    [congruence|reflexivity|vm_compute; reflexivity|reflexivity|vm_compute; reflexivity|vm_compute; reflexivity|
     vm_compute; reflexivity|reflexivity].
Defined.
