(* ===== verification/ClientAuth.v ===== *)
(** * Client authentication

    The rules of [oidc/src/client_auth.rs] and the authenticator of
    [server/src/client_auth.rs] that every endpoint shares: which one method a request offers,
    and whether it proves who it says it is. Authenticating is a program over the client
    repository, the keys of [ClientKeys] and the replay guard of [Dpop].

    Form decoding, standard base64, JSON text and the path validation of [webpki] are the
    parameters of [AuthEnv]. The log line and the audit row of a refusal are not modelled, but
    for the rendering of an audience on the way to them, which does not always return; nor is
    the verification against a decoy key, whose result is discarded. *)

From S2P Require Import Prelude Text Bytes BTree Json.
From S2P Require Import GrantStore.
From S2P Require Import Keys.
From S2P Require Import Jose.
From S2P Require Import Dpop.
From S2P Require Import Mtls.
From S2P Require Import Programs.
From S2P Require Import ClientKeys.
Open Scope Z_scope.

Class AuthEnv : Type := {
  (** [url::form_urlencoded::parse]. *)
  form_parse : string -> list (string * string);
  standard_decode : string -> option (list Z);
  (** [Value::to_string]. *)
  json_text : value -> string;
  (** [webpki]: whether a certificate can be an anchor, and whether a chain verifies for
      client authentication at a second. *)
  anchor_from_trusted_cert : list Z -> bool;
  verify_for_usage : list (list Z) -> list Z -> list (list Z) -> Z -> bool
}.

(** ** Clients *)

Inductive TokenEndpointAuthMethod : Type :=
| NoAuth | ClientSecretBasic | PrivateKeyJwt | TlsClientAuth | SelfSignedTlsClientAuth.
Inductive ClientComplianceProfile : Type := Fapi | Oidc | Public.
Inductive ClientStatus : Type := ClientActive | ClientDisabled.
#[export] Instance token_endpoint_auth_method_eq_dec : EqDecision TokenEndpointAuthMethod.
Proof. solve_decision. Defined.
#[export] Instance client_status_eq_dec : EqDecision ClientStatus.
Proof. solve_decision. Defined.

Definition is_public (p : ClientComplianceProfile) : bool := match p with Public => true | Fapi | Oidc => false end.

(** Of a client and its registration, what authenticating it reads. *)
Record Client : Type := {
  c_id : string;
  c_status : ClientStatus;
  c_profile : ClientComplianceProfile;
  c_auth_method : TokenEndpointAuthMethod;
  c_jwks : JwksSource;
  c_tls_client_auth_subject : option TlsClientAuthSubject
}.
Definition is_active (c : Client) : bool := bool_decide (c_status c = ClientActive).
Definition authenticates_by (m : TokenEndpointAuthMethod) (c : Client) : bool := bool_decide (c_auth_method c = m).

(** ** [oidc/src/client_auth.rs] *)

Definition CLIENT_ASSERTION_TYPE : string := "urn:ietf:params:oauth:client-assertion-type:jwt-bearer".
Definition DEFAULT_MAX_ASSERTION_LIFETIME : Z := minutes 10.
Definition MAX_JTI_LEN : Z := 255.

Inductive ClientAuthError : Type :=
| MultipleMethods
| NoMethod
| IncompleteAssertion
| UnsupportedAssertionType
| ClientIdMismatch
| AssertionNotVerified
| MalformedAssertionClaim (claim : string)
| WrongSubject
| WrongAudience
| LifetimeTooLong
| AssertionExpired
| ReplayedAssertion
| UnknownClient
| WrongMethodForClient
| KeysUnavailable
| MalformedBasic.

Module ClientAuthError.
Definition code (e : ClientAuthError) : string :=
  match e with
  | MultipleMethods | IncompleteAssertion | UnsupportedAssertionType => "invalid_request"
  | _ => "invalid_client"
  end.
Definition status (e : ClientAuthError) : Z := if String.eqb (code e) "invalid_client" then 401 else 400.
End ClientAuthError.

Record Attempt : Type := {
  at_assertion : option string;
  at_assertion_type : option string;
  at_client_id : option string;
  at_authorization_header : option string;
  at_certificate : option (list Z)
}.

Inductive Method : Type := ByNothing | ByClientSecretBasic | ByPrivateKeyJwt | ByMtls.

Definition counted (b : bool) : nat := if b then 1 else 0.
Definition offered {A} (o : option A) : bool := bool_decide (is_Some o).

Module Attempt.
Definition assertion_offered (a : Attempt) : bool := offered (at_assertion a) || offered (at_assertion_type a).
Definition method (a : Attempt) : result Method ClientAuthError :=
  let n := (counted (assertion_offered a) + counted (offered (at_certificate a))
            + counted (offered (at_authorization_header a)))%nat in
  if (1 <? n)%nat then Err MultipleMethods
  else if assertion_offered a then
    match at_assertion a, at_assertion_type a with
    | Some _, Some kind =>
        if negb (String.eqb kind CLIENT_ASSERTION_TYPE) then Err UnsupportedAssertionType else Ok ByPrivateKeyJwt
    | _, _ => Err IncompleteAssertion
    end
  else if offered (at_certificate a) then Ok ByMtls
  else if offered (at_authorization_header a) then Ok ByClientSecretBasic
  else Ok ByNothing.
End Attempt.

Module Audiences.
Definition issuer_only (issuer : string) : list string := [issuer].
Definition ciba_backchannel (issuer token_endpoint backchannel_endpoint : string) : list string :=
  [issuer; token_endpoint; backchannel_endpoint].
Definition accepts (audiences : list string) (aud : option value) : bool :=
  is_some_and (fun found => in_strings found audiences) (aud ≫= as_str).
End Audiences.

Record AssertionRules : Type := { ar_audiences : list string; ar_max_lifetime : Z }.

Module AssertionRules.
Definition for_issuer (issuer : string) : AssertionRules :=
  {| ar_audiences := Audiences.issuer_only issuer; ar_max_lifetime := DEFAULT_MAX_ASSERTION_LIFETIME |}.
Definition with_max_lifetime (r : AssertionRules) (lifetime : Z) : AssertionRules :=
  {| ar_audiences := ar_audiences r; ar_max_lifetime := clamped lifetime 0 DEFAULT_MAX_ASSERTION_LIFETIME |}.
End AssertionRules.

Record Assertion : Type := { as_jti : string; as_expires_at : Z }.

Definition check_assertion (claims : value) (client_id : string) (rules : AssertionRules) (now : Z)
    : result Assertion ClientAuthError :=
  let? issuer := ok_or (vget "iss" claims ≫= as_str) (MalformedAssertionClaim "iss") in
  let? subject := ok_or (vget "sub" claims ≫= as_str) (MalformedAssertionClaim "sub") in
  if negb (String.eqb issuer client_id) || negb (String.eqb subject client_id) then Err WrongSubject
  else if negb (Audiences.accepts (ar_audiences rules) (vget "aud" claims)) then Err WrongAudience
  else
    let? jti := ok_or
      (jti ← vget "jti" claims ≫= as_str;
       if negb (is_empty jti) && (slen jti <=? MAX_JTI_LEN) then Some jti else None)
      (MalformedAssertionClaim "jti") in
    let? exp := ok_or (vget "exp" claims ≫= as_i64) (MalformedAssertionClaim "exp") in
    let? expires_at := ok_or (from_unix_timestamp exp) (MalformedAssertionClaim "exp") in
    if expires_at <=? now then Err AssertionExpired
    else if ar_max_lifetime rules <? expires_at - now then Err LifetimeTooLong
    else Ok {| as_jti := jti; as_expires_at := expires_at |}.

Section Basic.
Context {A : AuthEnv}.

(** The closure [decode]: the first pair of the name. *)
Definition decode_component (name v : string) : option string :=
  snd <$> List.find (fun pair => String.eqb (fst pair) name) (form_parse (name +:+ "=" +:+ v)).

Definition parse_basic_credentials (header : string) : option (string * string) :=
  if 2048 <? slen header then None
  else
    '(scheme, encoded) ← split_once " "%char header;
    if negb (eq_ignore_ascii_case scheme "basic") || is_empty encoded then None
    else
      decoded ← standard_decode encoded;
      if negb (utf8_valid decoded) then None
      else
        '(encoded_id, encoded_secret) ← split_once ":"%char (string_of_bytes decoded);
        client_id ← decode_component "client_id" encoded_id;
        secret ← decode_component "client_secret" encoded_secret;
        if is_empty client_id || is_empty secret then None else Some (client_id, secret).
End Basic.

(** ** [server/src/client_auth.rs] *)

Definition ASSERTION_TYP : TypRule := OptionalOneOf ["JWT"; "client-authentication+jwt"; "jwt-bearer"]%string.
Definition ASSERTION_POLICY : Policy := Policy.new ASSERTION_TYP SigningAlgorithm.ALL.

(** [Refusal], without the text of its detail. *)
Record AuthRefusal : Type := {
  re_error : ClientAuthError;
  re_client : option string;
  re_kid : option string
}.

Definition reason_for (e : ClientAuthError) : string :=
  match e with
  | MultipleMethods => "more_than_one_method_presented"
  | NoMethod => "no_client_authentication_presented"
  | IncompleteAssertion => "assertion_and_type_not_both_present"
  | UnsupportedAssertionType => "unsupported_client_assertion_type"
  | ClientIdMismatch => "client_id_does_not_match_assertion_sub"
  | AssertionNotVerified => "assertion_signature_or_envelope_rejected"
  | MalformedAssertionClaim _ => "assertion_claim_missing_or_malformed"
  | WrongSubject => "assertion_iss_or_sub_is_not_the_client"
  | WrongAudience => "aud_is_not_this_issuer"
  | LifetimeTooLong => "assertion_lifetime_too_long"
  | AssertionExpired => "assertion_expired"
  | ReplayedAssertion => "assertion_jti_replayed"
  | UnknownClient => "unknown_or_disabled_client"
  | WrongMethodForClient => "client_registered_for_another_method"
  | KeysUnavailable => "client_keys_unavailable"
  | MalformedBasic => "malformed_client_secret_basic"
  end.

(** What becomes of a call: it returns, or it panics. *)
Inductive Call (A : Type) : Type := Returned (a : A) | Panicked.
Arguments Returned {A} a.
Arguments Panicked {A}.

(** [str::is_char_boundary], and the prefix [&s[..n]], which panics off one. *)
Definition is_char_boundary (s : string) (i : nat) : bool :=
  match String.get i s with
  | Some c => negb (continuation (byte_of c))
  | None => (i =? String.length s)%nat
  end.
Definition prefix_of (s : string) (n : nat) : option string :=
  if is_char_boundary s n then Some (String.substring 0 n s) else None.

Definition AUDIENCE_MAX : nat := 200.

(** [TrustAnchors], as the DER of each. *)
Record TrustAnchors : Type := { ta_certificates : list (list Z) }.

Section Rendering.
Context {A : AuthEnv}.

Definition audience_of (claims : value) : option string :=
  let rendered := match vget "aud" claims with None => "no aud claim at all"%string | Some aud => json_text aud end in
  if (String.length rendered <=? AUDIENCE_MAX)%nat then Some rendered
  else
    shown ← prefix_of rendered AUDIENCE_MAX;
    Some (shown +:+ "… (" +:+ pretty (slen rendered : Z) +:+ " bytes)")%string.

Definition claim_refusal (e : ClientAuthError) (client_id : string) (kid : option string) (claims : value)
    : option AuthRefusal :=
  let refusal := {| re_error := e; re_client := Some client_id; re_kid := kid |} in
  match e with
  | WrongAudience => _ ← audience_of claims; Some refusal
  | _ => Some refusal
  end.

Definition anchors_accept (t : TrustAnchors) (certificate : list Z) (intermediates : list (list Z)) (now : Z) : bool :=
  let anchors := List.filter anchor_from_trusted_cert (ta_certificates t) in
  match anchors with
  | [] => false
  | _ => if unix_timestamp now <? 0 then false
         else verify_for_usage anchors certificate intermediates (unix_timestamp now)
  end.
End Rendering.

(** ** The statements *)

Inductive AuthStatement : Type :=
| OfKeys (q : KeyStatement)
| FindClient (tenant client : string)
| SecretDigest (tenant client : string)
| ClaimJti (tenant client jti : string) (expires_at : Z)
| RecordUse (tenant client : string) (now : Z).

Definition AuthAnswer (q : AuthStatement) : Type :=
  match q with
  | OfKeys q => KeyAnswer q
  | FindClient _ _ => option Client
  | SecretDigest _ _ => option (list Z)
  | ClaimJti _ _ _ _ => ReplayCheck
  | RecordUse _ _ _ => unit
  end.

Record AuthStore : Type := {
  au_clients : gmap (string * string) Client;
  au_digests : gmap (string * string) (list Z);
  au_last_used : gmap (string * string) Z;
  au_replay : ReplayRows;
  au_keys : KeyStore
}.

Definition GRANULARITY : Z := hours 1.

(** What a deployment configures: limits, a shared negative cache, a recorder of use, and
    the anchors of each tenant. *)
Record Deployment : Type := {
  dp_limits : CacheLimits;
  dp_sharing : bool;
  dp_recording : bool;
  dp_anchors : gmap string TrustAnchors
}.

Section Authenticator.
Context {E : JoseEnv} {A : AuthEnv}.
Variable deployment : Deployment.
Variable iter : gmap (string * string) Entry -> list ((string * string) * Entry).

Definition with_replay (s : AuthStore) (rows : ReplayRows) : AuthStore := {|
  au_clients := au_clients s; au_digests := au_digests s; au_last_used := au_last_used s;
  au_replay := rows; au_keys := au_keys s |}.
Definition with_keys (s : AuthStore) (keys : KeyStore) : AuthStore := {|
  au_clients := au_clients s; au_digests := au_digests s; au_last_used := au_last_used s;
  au_replay := au_replay s; au_keys := keys |}.

(** [PgClientUsage::record_use]. *)
Definition record_use (s : AuthStore) (tenant client : string) (now : Z) : AuthStore :=
  let stale := is_none_or (fun used => used <? now - GRANULARITY) (au_last_used s !! (tenant, client)) in
  if bool_decide (is_Some (au_clients s !! (tenant, client))) && stale then
    {| au_clients := au_clients s; au_digests := au_digests s;
       au_last_used := <[(tenant, client) := now]> (au_last_used s); au_replay := au_replay s; au_keys := au_keys s |}
  else s.

Definition auth_exec (s : AuthStore) (q : AuthStatement) : AuthStore * result (AuthAnswer q) DomainError :=
  match q return AuthStore * result (AuthAnswer q) DomainError with
  | OfKeys q => let '(keys, answer) := key_exec (dp_limits deployment) iter (au_keys s) q in (with_keys s keys, answer)
  | FindClient tenant client => (s, Ok (au_clients s !! (tenant, client)))
  | SecretDigest tenant client =>
      (s, match au_digests s !! (tenant, client) with
          | Some digest => if (length digest =? 32)%nat then Ok (Some digest) else Err (Invalid "client_secret_hash")
          | None => Ok None
          end)
  | ClaimJti tenant client jti expires_at =>
      let '(rows, check) := PgReplayGuard.claim (au_replay s) tenant ClientAssertion client jti expires_at in
      (with_replay s rows, Ok check)
  | RecordUse tenant client now => (record_use s tenant client now, Ok tt)
  end.
End Authenticator.

Module ClientAuthenticator.
Section Decide.
Context {E : JoseEnv} {A : AuthEnv}.
Variable deployment : Deployment.

Abbreviation program := (Prog AuthAnswer) (only parsing).
Abbreviation decided := (Call (result Client AuthRefusal)) (only parsing).

Definition refuse (e : ClientAuthError) (client kid : option string) : decided :=
  Returned (Err {| re_error := e; re_client := client; re_kid := kid |}).

Definition note_use (tenant client : string) (now : Z) : program unit :=
  if dp_recording deployment then Ask (RecordUse tenant client now) (fun _ => Ret tt) else Ret tt.

(** A client that authenticated, its use noted. *)
Definition accepted (tenant client_id : string) (client : Client) (now : Z) : program decided :=
  pbind (note_use tenant client_id now) (fun _ => Ret (Returned (Ok client))).

(** [Method::None]. *)
Definition public_client (tenant : string) (attempt : Attempt) (allow_public_profile : bool) (now : Z) : program decided :=
  if negb allow_public_profile then Ret (refuse NoMethod None None)
  else match at_client_id attempt with
  | None => Ret (refuse NoMethod None None)
  | Some client_id =>
      Ask (FindClient tenant client_id) (fun found =>
        match found with
        | Err _ => Ret (refuse KeysUnavailable (Some client_id) None)
        | Ok (Some client) =>
            if is_active client && is_public (c_profile client) && authenticates_by NoAuth client
            then accepted tenant client_id client now
            else Ret (refuse UnknownClient (Some client_id) None)
        | Ok None => Ret (refuse UnknownClient (Some client_id) None)
        end)
  end.

(** The digest is compared whether or not there is one. *)
Definition secret_matches (secret : string) (stored : option (list Z)) : bool :=
  ct_eq (sha256 (bytes_of secret)) (default (replicate 32 0) stored) && bool_decide (is_Some stored).

Definition authenticate_client_secret (tenant : string) (attempt : Attempt) (now : Z) : program decided :=
  match at_authorization_header attempt ≫= parse_basic_credentials with
  | None => Ret (refuse MalformedBasic None None)
  | Some (client_id, secret) =>
      Ask (FindClient tenant client_id) (fun found =>
        match found with
        | Err _ => Ret (refuse KeysUnavailable (Some client_id) None)
        | Ok found =>
            Ask (SecretDigest tenant client_id) (fun stored =>
              match stored with
              | Err _ => Ret (refuse KeysUnavailable (Some client_id) None)
              | Ok stored =>
                  match found with
                  | Some client =>
                      if negb (is_active client && authenticates_by ClientSecretBasic client)
                      then Ret (refuse UnknownClient (Some client_id) None)
                      else if negb (secret_matches secret stored)
                      then Ret (refuse AssertionNotVerified (Some client_id) None)
                      else accepted tenant client_id client now
                  | None => Ret (refuse UnknownClient (Some client_id) None)
                  end
              end)
        end)
  end.

(** *** Certificates *)

(** [RFC 8705] section 2.1: an anchor of the tenant first, then the registered name. *)
Definition check_chain (tenant client_id : string) (client : Client) (certificate : list Z) (now : Z) : decided :=
  let by_ e := refuse e (Some client_id) None in
  match dp_anchors deployment !! tenant with
  | None => by_ WrongMethodForClient
  | Some anchors =>
      if negb (anchors_accept anchors certificate [] now) then by_ AssertionNotVerified
      else match c_tls_client_auth_subject client with
           | None => by_ WrongMethodForClient
           | Some expected =>
               if ClientCertificate.matches certificate expected then Returned (Ok client) else by_ AssertionNotVerified
           end
  end.

Definition check_certificate (tenant client_id : string) (client : Client) (certificate : list Z) (now : Z)
    : program decided :=
  match c_auth_method client with
  | NoAuth | ClientSecretBasic | PrivateKeyJwt => Ret (refuse WrongMethodForClient (Some client_id) None)
  | TlsClientAuth => Ret (check_chain tenant client_id client certificate now)
  | SelfSignedTlsClientAuth =>
      pbind (hoist OfKeys (fun _ a => a)
               (resolve (dp_limits deployment) (dp_sharing deployment) tenant client_id (c_jwks client) None now))
        (fun key_set =>
           match key_set with
           | Err _ => Ret (refuse KeysUnavailable (Some client_id) None)
           | Ok key_set =>
               if ClientCertificate.is_one_of standard_decode certificate (ks_leaf_certificates key_set)
               then Ret (Returned (Ok client))
               else Ret (refuse AssertionNotVerified (Some client_id) None)
           end)
  end.

Definition authenticate_mtls (tenant : string) (attempt : Attempt) (certificate : list Z) (now : Z) : program decided :=
  match at_client_id attempt with
  | None => Ret (refuse UnknownClient None None)
  | Some client_id =>
      Ask (FindClient tenant client_id) (fun found =>
        match found with
        | Err _ => Ret (refuse KeysUnavailable (Some client_id) None)
        | Ok (Some client) =>
            if is_active client then
              pbind (check_certificate tenant client_id client certificate now) (fun checked =>
                match checked with
                | Returned (Ok client) => accepted tenant client_id client now
                | other => Ret other
                end)
            else Ret (refuse UnknownClient (Some client_id) None)
        | Ok None => Ret (refuse UnknownClient (Some client_id) None)
        end)
  end.

(** *** Assertions *)

(** [assertion_client]; [inr] is the client to go on with. *)
Definition assertion_client (client_id : string) (kid : option string) (found : result (option Client) DomainError)
    : decided + Client :=
  match found with
  | Ok (Some client) =>
      if negb (is_active client) then inl (refuse UnknownClient (Some client_id) kid)
      else if negb (authenticates_by PrivateKeyJwt client) then inl (refuse WrongMethodForClient (Some client_id) None)
      else inr client
  | Ok None => inl (refuse UnknownClient (Some client_id) kid)
  | Err _ => inl (refuse KeysUnavailable (Some client_id) None)
  end.

Definition spend_the_jti (tenant client_id : string) (client : Client) (assertion : Assertion) (now : Z) : program decided :=
  Ask (ClaimJti tenant client_id (as_jti assertion) (as_expires_at assertion)) (fun claimed =>
    match claimed with
    | Ok FirstUse => accepted tenant client_id client now
    | Ok Replay => Ret (refuse ReplayedAssertion (Some client_id) None)
    | Err _ => Ret (refuse KeysUnavailable (Some client_id) None)
    end).

(** What the keys and the rules make of an assertion; [inr] is what is left to spend. *)
Definition judge_assertion (assertion client_id : string) (kid : option string) (rules : AssertionRules) (now : Z)
    (key_set : found_keys) : decided + Assertion :=
  match key_set with
  | Err _ => inl (refuse KeysUnavailable (Some client_id) kid)
  | Ok key_set =>
      match verify assertion ASSERTION_POLICY (candidates key_set) now with
      | Err _ => inl (refuse AssertionNotVerified (Some client_id) kid)
      | Ok verified =>
          match check_assertion (v_claims verified) client_id rules now with
          | Ok checked => inr checked
          | Err e => inl match claim_refusal e client_id kid (v_claims verified) with
                         | Some refusal => Returned (Err refusal)
                         | None => Panicked
                         end
          end
      end
  end.

(** Whom an unverified assertion says it is from. *)
Definition claimed_client (assertion : string) : result (string * option string) AuthRefusal :=
  let refused kid := {| re_error := AssertionNotVerified; re_client := None; re_kid := kid |} in
  let? unverified := map_err (fun _ => refused None) (Jws.parse assertion) in
  let? claimed := ok_or (from_slice (u_payload unverified)) (refused (Jws.kid unverified)) in
  let? subject := ok_or (vget "sub" claimed ≫= as_str) (refused (Jws.kid unverified)) in
  Ok (subject, Jws.kid unverified).

Definition names_another (attempt : Attempt) (client_id : string) : bool :=
  is_some_and (fun named => negb (String.eqb named client_id)) (at_client_id attempt).

Definition authenticate_assertion (tenant : string) (attempt : Attempt) (rules : AssertionRules) (now : Z)
    : program decided :=
  match at_assertion attempt with
  | None => Ret (refuse IncompleteAssertion None None)
  | Some assertion =>
      match claimed_client assertion with
      | Err refusal => Ret (Returned (Err refusal))
      | Ok (client_id, kid) =>
          if names_another attempt client_id
          then Ret (refuse ClientIdMismatch None None)
          else
            Ask (FindClient tenant client_id) (fun found =>
              match assertion_client client_id kid found with
              | inl answer => Ret answer
              | inr client =>
                  pbind (hoist OfKeys (fun _ a => a)
                           (resolve (dp_limits deployment) (dp_sharing deployment) tenant client_id (c_jwks client) kid now))
                    (fun key_set =>
                       match judge_assertion assertion client_id kid rules now key_set with
                       | inl answer => Ret answer
                       | inr checked => spend_the_jti tenant client_id client checked now
                       end)
              end)
      end
  end.

Definition decide (tenant : string) (attempt : Attempt) (rules : AssertionRules) (now : Z) (allow_public_profile : bool)
    : program decided :=
  match Attempt.method attempt with
  | Err e => Ret (refuse e None None)
  | Ok ByNothing => public_client tenant attempt allow_public_profile now
  | Ok ByClientSecretBasic => authenticate_client_secret tenant attempt now
  | Ok ByPrivateKeyJwt => authenticate_assertion tenant attempt rules now
  | Ok ByMtls =>
      match at_certificate attempt with
      | None => Ret (refuse WrongMethodForClient None None)
      | Some certificate => authenticate_mtls tenant attempt certificate now
      end
  end.

(** [authenticate_request]: the client is told the error alone. *)
Definition authenticate_request (tenant : string) (attempt : Attempt) (rules : AssertionRules) (now : Z)
    (allow_public_profile : bool) : program (Call (result Client ClientAuthError)) :=
  pbind (decide tenant attempt rules now allow_public_profile) (fun decision =>
    Ret match decision with
        | Returned decision => Returned (map_err re_error decision)
        | Panicked => Panicked
        end).
Definition authenticate (tenant : string) (attempt : Attempt) (rules : AssertionRules) (now : Z)
    : program (Call (result Client ClientAuthError)) := authenticate_request tenant attempt rules now false.
Definition authenticate_public_profile (tenant : string) (attempt : Attempt) (rules : AssertionRules) (now : Z)
    : program (Call (result Client ClientAuthError)) := authenticate_request tenant attempt rules now true.
End Decide.
End ClientAuthenticator.

(** ** Everything at once *)

(** What has been so: rows and digests as they were written, latest first, and what was
    served at a URL. *)
Record Known : Type := {
  k_clients : list ((string * string) * option Client);
  k_digests : list ((string * string) * option (list Z));
  k_served : list (string * list Z)
}.

(** The last thing written. *)
Fixpoint current {V} (log : list ((string * string) * option V)) (key : string * string) : option V :=
  match log with
  | [] => None
  | (k, v) :: older => if decide (k = key) then v else current older key
  end.

(** The other writers: registration, what the web serves, other replicas, and the sweeps. *)
Inductive AuthOp : Type :=
| WriteClient (tenant : string) (client : Client)
| RemoveClient (tenant client : string)
| SetDigest (tenant client : string) (digest : option (list Z))
| Serve (uri : string) (body : list Z)
| StopServing (uri : string)
| ForgetKeys (tenant client : string)
| OtherReplica (rows : gmap (string * string * list Z) Backoff)
| OtherJti (tenant : string) (purpose : ReplayPurpose) (subject jti : string) (expires_at : Z)
| SweepJtis (tenant : string) (chosen : list (string * string * string * list Z)) (now : Z)
| PurgeJtis (tenant : string) (now : Z).

Definition write {V} (m : gmap (string * string) V) (key : string * string) (v : option V) : gmap (string * string) V :=
  partial_alter (fun _ => v) key m.

Definition written_client (s : AuthStore) (key : string * string) (row : option Client) : AuthStore := {|
  au_clients := write (au_clients s) key row; au_digests := au_digests s; au_last_used := au_last_used s;
  au_replay := au_replay s; au_keys := au_keys s |}.
Definition written_digest (s : AuthStore) (key : string * string) (digest : option (list Z)) : AuthStore := {|
  au_clients := au_clients s; au_digests := write (au_digests s) key digest; au_last_used := au_last_used s;
  au_replay := au_replay s; au_keys := au_keys s |}.
Definition with_web (s : KeyStore) (web : gmap string (list Z)) : KeyStore :=
  {| st_entries := st_entries s; st_backoffs := st_backoffs s; st_web := web |}.

Section Others.
Context {E : JoseEnv}.

Definition op_exec (s : AuthStore) (op : AuthOp) : AuthStore :=
  match op with
  | WriteClient tenant client => written_client s (tenant, c_id client) (Some client)
  | RemoveClient tenant client => written_digest (written_client s (tenant, client) None) (tenant, client) None
  | SetDigest tenant client digest => written_digest s (tenant, client) digest
  | Serve uri body => with_keys s (with_web (au_keys s) (<[uri := body]> (st_web (au_keys s))))
  | StopServing uri => with_keys s (with_web (au_keys s) (delete uri (st_web (au_keys s))))
  | ForgetKeys tenant client => with_keys s (with_entries (au_keys s) (invalidate (st_entries (au_keys s)) (tenant, client)))
  | OtherReplica rows => with_keys s (with_backoffs (au_keys s) rows)
  | OtherJti tenant purpose subject jti expires_at =>
      with_replay s (fst (PgReplayGuard.claim (au_replay s) tenant purpose subject jti expires_at))
  | SweepJtis tenant chosen now => with_replay s (purged (au_replay s) tenant chosen now)
  | PurgeJtis tenant now => with_replay s (PgReplayGuard.purge_expired (au_replay s) tenant now)
  end.

Definition learn (k : Known) (op : AuthOp) : Known :=
  match op with
  | WriteClient tenant client =>
      {| k_clients := ((tenant, c_id client), Some client) :: k_clients k; k_digests := k_digests k; k_served := k_served k |}
  | RemoveClient tenant client =>
      {| k_clients := ((tenant, client), None) :: k_clients k; k_digests := ((tenant, client), None) :: k_digests k;
         k_served := k_served k |}
  | SetDigest tenant client digest =>
      {| k_clients := k_clients k; k_digests := ((tenant, client), digest) :: k_digests k; k_served := k_served k |}
  | Serve uri body =>
      {| k_clients := k_clients k; k_digests := k_digests k; k_served := (uri, body) :: k_served k |}
  | _ => k
  end.
End Others.

Record Request : Type := {
  rq_tenant : string;
  rq_attempt : Attempt;
  rq_rules : AssertionRules;
  rq_now : Z;
  rq_public : bool
}.

(** A request since it was received: what was known then, and what is left of it. *)
Record Running : Type := {
  rn_request : Request;
  rn_since : Known;
  rn_rest : Prog AuthAnswer (Call (result Client ClientAuthError))
}.
Record Sys : Type := { sy_store : AuthStore; sy_known : Known; sy_running : list Running }.

Definition empty_store : AuthStore := {|
  au_clients := ∅; au_digests := ∅; au_last_used := ∅; au_replay := ∅;
  au_keys := {| st_entries := ∅; st_backoffs := ∅; st_web := ∅ |} |}.
Definition start : Sys := {|
  sy_store := empty_store; sy_known := {| k_clients := []; k_digests := []; k_served := [] |}; sy_running := [] |}.

Section Steps.
Context {E : JoseEnv} {A : AuthEnv}.
Variable deployment : Deployment.
Variable iter : gmap (string * string) Entry -> list ((string * string) * Entry).

Definition received (rq : Request) : Prog AuthAnswer (Call (result Client ClientAuthError)) :=
  ClientAuthenticator.authenticate_request deployment (rq_tenant rq) (rq_attempt rq) (rq_rules rq) (rq_now rq) (rq_public rq).

Inductive step : Sys -> Sys -> Prop :=
| step_op s op :
    step s {| sy_store := op_exec (sy_store s) op; sy_known := learn (sy_known s) op; sy_running := sy_running s |}
| step_receive s rq :
    step s {| sy_store := sy_store s; sy_known := sy_known s;
              sy_running := {| rn_request := rq; rn_since := sy_known s; rn_rest := received rq |} :: sy_running s |}
| step_turn s before after r store rest :
    sy_running s = before ++ r :: after -> turn (auth_exec deployment iter) (sy_store s) (rn_rest r) store rest ->
    step s {| sy_store := store; sy_known := sy_known s;
              sy_running := before ++ {| rn_request := rn_request r; rn_since := rn_since r; rn_rest := rest |} :: after |}
| step_drop s before after r :
    sy_running s = before ++ r :: after ->
    step s {| sy_store := sy_store s; sy_known := sy_known s; sy_running := before ++ after |}.
End Steps.
