(* ===== verification/ClientAuthLaws.v ===== *)
(** * Who has authenticated

    What a client that was let in has shown, however requests, registrations, documents served
    and sweeps interleave; the single use of an assertion; and a refusal that never returns. *)

From S2P Require Import Prelude Text Bytes BTree Json.
From S2P Require Import GrantStore.
From S2P Require Import Keys.
From S2P Require Import Jose.
From S2P Require Import JoseLaws.
From S2P Require Import Dpop.
From S2P Require Import DpopLaws.
From S2P Require Import Mtls.
From S2P Require Import Programs.
From S2P Require Import ClientKeys.
From S2P Require Import ClientKeysLaws.
From S2P Require Import ClientAuth.
Open Scope Z_scope.

(** ** What an assertion says *)

Record says (claims : value) (client_id : string) (rules : AssertionRules) (now : Z) (a : Assertion) : Prop := {
  sy_issuer : vget "iss" claims = Some (VString client_id);
  sy_subject : vget "sub" claims = Some (VString client_id);
  sy_audience : exists aud, vget "aud" claims = Some (VString aud) /\ In aud (ar_audiences rules);
  sy_jti : vget "jti" claims = Some (VString (as_jti a)) /\ 0 < slen (as_jti a) <= ClientAuth.MAX_JTI_LEN;
  sy_expiry : exists exp, vget "exp" claims ≫= as_i64 = Some exp /\ from_unix_timestamp exp = Some (as_expires_at a);
  sy_lifetime : now < as_expires_at a <= now + ar_max_lifetime rules
}.

Lemma str_claim name claims s : vget name claims ≫= as_str = Some s <-> vget name claims = Some (VString s).
Proof.
  split; [|by intros ->]. intros (v & -> & Hv)%bind_Some. by destruct v; simplify_eq/=.
Qed.

Lemma accepts_iff audiences aud : Audiences.accepts audiences aud = true <->
  exists a, aud = Some (VString a) /\ In a audiences.
Proof.
  unfold Audiences.accepts. split.
  - destruct aud as [[]|]; try done. cbn. intros H%in_strings_In. eauto.
  - intros (a & -> & H). cbn. by apply in_strings_In.
Qed.

Lemma nonempty_slen s : negb (is_empty s) = true <-> 0 < slen s.
Proof. rewrite negb_true_iff, is_empty_false. unfold slen. destruct s; cbn; [split; [done|lia]|split; [lia|done]]. Qed.

Lemma check_assertion_iff claims client_id rules now a :
  check_assertion claims client_id rules now = Ok a <-> says claims client_id rules now a.
Proof.
  unfold check_assertion. split.
  - intros H. apply rbind_Ok in H as (iss & Hi%ok_or_Ok%str_claim & H). apply rbind_Ok in H as (sub & Hs%ok_or_Ok%str_claim & H).
    destruct (String.eqb_spec iss client_id) as [->|]; [|done]. destruct (String.eqb_spec sub client_id) as [->|]; [|done].
    cbn [negb orb] in H. passed H Ha. apply negb_false_iff, accepts_iff in Ha.
    apply rbind_Ok in H as (jti & Hj%ok_or_Ok & H). apply bind_Some in Hj as (j & Hj%str_claim & Hl).
    destruct (negb (is_empty j) && _) eqn:Hb; [|done]. injection Hl as <-.
    apply andb_true_iff in Hb as [H0%nonempty_slen H1%Z.leb_le].
    apply rbind_Ok in H as (exp & He%ok_or_Ok & H). apply rbind_Ok in H as (x & Hx%ok_or_Ok & H).
    passed H Hn. passed H Hm. injection H as <-. apply Z.leb_gt in Hn. apply Z.ltb_ge in Hm.
    split; cbn; eauto; lia.
  - intros [Hi Hs (aud & Ha & Hin) (Hj & Hl) (exp & He & Hx) Ht]. rewrite Hi, Hs. cbn [mbind option_bind as_str ok_or rbind].
    rewrite String.eqb_refl. cbn [negb orb]. rewrite (proj2 (accepts_iff _ _)) by eauto. cbn [negb].
    rewrite Hj. cbn [mbind option_bind as_str]. rewrite (proj2 (nonempty_slen _)) by lia.
    replace (slen (as_jti a) <=? ClientAuth.MAX_JTI_LEN) with true by lia. cbn [andb ok_or rbind].
    cbn [mbind option_bind] in He. rewrite He. cbn [ok_or rbind]. rewrite Hx. cbn [ok_or rbind].
    replace (as_expires_at a <=? now) with false by lia.
    replace (ar_max_lifetime rules <? as_expires_at a - now) with false by lia. by destruct a.
Qed.

(** ** What is known *)

Definition knows_more (k k' : Known) : Prop :=
  suffix (k_clients k) (k_clients k') /\ suffix (k_digests k) (k_digests k') /\ suffix (k_served k) (k_served k').
#[export] Instance knows_more_preorder : PreOrder knows_more.
Proof.
  split; [by intros k|]. intros k1 k2 k3 (H1 & H2 & H3) (H4 & H5 & H6). split_and!; by etrans.
Qed.

Definition served (k : Known) (uri : string) (body : list Z) : Prop := In (uri, body) (k_served k).
Definition registered (k : Known) (key : string * string) (uri : string) : Prop :=
  exists c, In (key, Some c) (k_clients k) /\ c_jwks c = Uri uri.

Lemma suffix_In {B} (l l' : list B) x : suffix l l' -> In x l -> In x l'.
Proof. intros [l0 ->] H. apply in_or_app. by right. Qed.
Lemma served_more k k' uri body : knows_more k k' -> served k uri body -> served k' uri body.
Proof. intros (_ & _ & H). by apply suffix_In. Qed.
Lemma registered_more k k' key uri : knows_more k k' -> registered k key uri -> registered k' key uri.
Proof. intros (H & _) (c & Hc & Hu). exists c. split; [by eapply suffix_In|done]. Qed.

Lemma current_In {V} (log : list ((string * string) * option V)) key v :
  current log key = Some v -> In (key, Some v) log.
Proof.
  induction log as [|[key' v'] log IH]; [done|]. cbn. destruct (decide (key' = key)) as [->|]; [intros ->; by left|].
  intros H. right. auto.
Qed.

Section Auth.
Context {E : JoseEnv} {L : JoseLaws E} {A : AuthEnv}.
Variable deployment : Deployment.
Variable iter : gmap (string * string) Entry -> list ((string * string) * Entry).
Abbreviation sharing := (dp_sharing deployment) (only parsing).

Definition guard (k : Known) (q : AuthStatement) : Prop :=
  match q with OfKeys q => key_guard served registered sharing k q | _ => True end.

Definition answer (k : Known) (q : AuthStatement) : AuthAnswer q -> Prop :=
  match q return AuthAnswer q -> Prop with
  | OfKeys q => key_answer served registered k q
  | FindClient tenant client => fun found =>
      current (k_clients k) (tenant, client) = found /\ (forall c, found = Some c -> c_id c = client)
  | SecretDigest tenant client => fun stored => current (k_digests k) (tenant, client) = stored
  | _ => fun _ => True
  end.
Definition none_used (q : AuthStatement) : gset string := ∅.

Abbreviation safe := (safe knows_more guard answer none_used) (only parsing).

(** The store is what was written last, each client under its own id. *)
Definition db_ok (k : Known) (s : AuthStore) : Prop :=
  (forall key, au_clients s !! key = current (k_clients k) key) /\
  (forall key, au_digests s !! key = current (k_digests k) key) /\
  (forall tenant client c, In ((tenant, client), Some c) (k_clients k) -> c_id c = client) /\
  store_ok served registered k (au_keys s).

Lemma store_ok_more k k' s : knows_more k k' -> store_ok served registered k s -> store_ok served registered k' s.
Proof.
  intros Hk [He Hw]. split.
  - intros key e Hl keys Hkeys. eapply published_more; [exact served_more|exact registered_more|exact Hk|]. by eapply He.
  - intros uri body Hl. eapply served_more; [exact Hk|by apply Hw].
Qed.

Lemma current_written {V} (m : gmap (string * string) V) log key v :
  (forall key, m !! key = current log key) -> forall key', write m key v !! key' = current ((key, v) :: log) key'.
Proof.
  intros H key'. unfold write. cbn [current]. destruct (decide (key = key')) as [->|Hne].
  - by rewrite lookup_partial_alter_eq.
  - by rewrite lookup_partial_alter_ne.
Qed.

Lemma auth_exec_ok k s q :
  db_ok k s -> guard k q ->
  db_ok k (fst (auth_exec deployment iter s q)) /\
  (forall a, snd (auth_exec deployment iter s q) = Ok a -> answer k q a).
Proof.
  intros (Hc & Hd & Hi & Hs) Hg. destruct q as [q|t c|t c|t c jti x|t c now]; cbn [auth_exec].
  - destruct (key_exec _ _ _ _) as [keys r] eqn:Hq.
    destruct (key_exec_ok served registered (dp_limits deployment) iter sharing k _ q Hs Hg) as [Hs' Ha].
    rewrite Hq in Hs', Ha. by split.
  - split; [done|]. cbn. intros a [= <-]. rewrite Hc. split; [done|]. intros row Hrow%current_In. by eapply Hi.
  - split; [done|]. cbn. rewrite Hd. destruct (current _ _) as [digest|]; [|by intros a [= <-]].
    destruct (_ =? _)%nat; [|done]. by intros a [= <-].
  - destruct (PgReplayGuard.claim _ _ _ _ _ _) as [rows check]. by split.
  - split; [|done]. cbn [fst]. unfold record_use. by destruct (_ && _).
Qed.

Lemma auth_op_ok k s op : db_ok k s -> db_ok (learn k op) (op_exec s op).
Proof.
  intros (Hc & Hd & Hi & Hs). assert (Hm : knows_more k (learn k op)).
  { destruct op; split_and!; cbn; try done; try (by eexists [_]); by apply suffix_cons_r. }
  assert (Hs' := store_ok_more _ _ _ Hm Hs). destruct op as [t c|t c|t c d|uri body|uri|t c|rows|t p sb j x|t ch now|t now];
    cbn [op_exec learn] in *; split_and!; try done; cbn; try (by apply current_written).
  - intros t' c' c0 [[= <- <- <-]|Hin]; [done|by eapply Hi].
  - intros t' c' c0 [[=]|Hin]. by eapply Hi.
  - destruct Hs' as [He Hw]. split; [exact He|]. cbn. intros u b [[<- <-]|[_ Hl]]%lookup_insert_Some; [by left|by apply Hw].
  - destruct Hs' as [He Hw]. split; [exact He|]. cbn. intros u b [_ Hl]%lookup_delete_Some. by apply Hw.
  - destruct Hs' as [He Hw]. split; [|exact Hw]. cbn. unfold invalidate. intros key e [_ Hl]%lookup_delete_Some. by apply He.
Qed.

(** ** What a client let in has shown *)

(** The row was the tenant's at some instant since then. *)
Definition held_since (since k : Known) (tenant : string) (c : Client) : Prop :=
  exists k1, knows_more since k1 /\ knows_more k1 k /\ current (k_clients k1) (tenant, c_id c) = Some c.

(** Keys the client registered, or published where it registered to. *)
Definition own_keys (k : Known) (tenant : string) (c : Client) (keys : ClientKeySet) : Prop :=
  match c_jwks c with
  | NoJwks => False
  | Inline document => keys_from_jwk_set document = Ok keys
  | Uri uri => found_ok served registered sharing uri k (tenant, c_id c) (Ok keys)
  end.

Inductive proved (since k : Known) (rq : Request) (c : Client) : Prop :=
| proved_public :
    Attempt.method (rq_attempt rq) = Ok ByNothing -> rq_public rq = true ->
    at_client_id (rq_attempt rq) = Some (c_id c) -> is_public (c_profile c) = true -> c_auth_method c = NoAuth ->
    proved since k rq c
| proved_secret header secret k1 :
    Attempt.method (rq_attempt rq) = Ok ByClientSecretBasic ->
    at_authorization_header (rq_attempt rq) = Some header -> parse_basic_credentials header = Some (c_id c, secret) ->
    c_auth_method c = ClientSecretBasic ->
    knows_more since k1 -> knows_more k1 k ->
    current (k_digests k1) (rq_tenant rq, c_id c) = Some (sha256 (bytes_of secret)) -> proved since k rq c
| proved_assertion assertion keys v a :
    Attempt.method (rq_attempt rq) = Ok ByPrivateKeyJwt -> at_assertion (rq_attempt rq) = Some assertion ->
    (forall named, at_client_id (rq_attempt rq) = Some named -> named = c_id c) -> c_auth_method c = PrivateKeyJwt ->
    own_keys k (rq_tenant rq) c keys -> genuine assertion ASSERTION_POLICY (candidates keys) (rq_now rq) v ->
    says (v_claims v) (c_id c) (rq_rules rq) (rq_now rq) a -> proved since k rq c
| proved_chain certificate anchors name :
    Attempt.method (rq_attempt rq) = Ok ByMtls -> at_certificate (rq_attempt rq) = Some certificate ->
    at_client_id (rq_attempt rq) = Some (c_id c) -> c_auth_method c = TlsClientAuth ->
    dp_anchors deployment !! rq_tenant rq = Some anchors -> anchors_accept anchors certificate [] (rq_now rq) = true ->
    c_tls_client_auth_subject c = Some name -> ClientCertificate.matches certificate name = true -> proved since k rq c
| proved_certificate certificate keys :
    Attempt.method (rq_attempt rq) = Ok ByMtls -> at_certificate (rq_attempt rq) = Some certificate ->
    at_client_id (rq_attempt rq) = Some (c_id c) -> c_auth_method c = SelfSignedTlsClientAuth ->
    own_keys k (rq_tenant rq) c keys ->
    ClientCertificate.is_one_of standard_decode certificate (ks_leaf_certificates keys) = true -> proved since k rq c.

Record let_in (since k : Known) (rq : Request) (c : Client) : Prop := {
  li_row : held_since since k (rq_tenant rq) c;
  li_active : is_active c = true;
  li_proof : proved since k rq c
}.

Lemma own_keys_more k k' tenant c keys : knows_more k k' -> own_keys k tenant c keys -> own_keys k' tenant c keys.
Proof.
  intros Hk. unfold own_keys. destruct (c_jwks c) as [| |uri]; [done..|]. intros H ks Hks.
  destruct (H ks Hks) as (uri' & Hu & Hp). exists uri'. split; [done|].
  eapply published_more; [exact served_more|exact registered_more|exact Hk|exact Hp].
Qed.

Lemma let_in_more since k k' rq c : knows_more k k' -> let_in since k rq c -> let_in since k' rq c.
Proof.
  intros Hk [(k1 & H1 & H2 & H3) Ha Hp]. split; [exists k1; split_and!; [done|by etrans|done]|done|].
  destruct Hp; [by eapply proved_public|eapply proved_secret; try done; by etrans|
    eapply proved_assertion; try done; by eapply own_keys_more|by eapply proved_chain|
    eapply proved_certificate; try done; by eapply own_keys_more].
Qed.

(** ** Programs *)

Abbreviation decided := (Call (result Client AuthRefusal)) (only parsing).

Definition decision_ok (since : Known) (rq : Request) (k : Known) (_ : gset string) (d : decided) : Prop :=
  forall c, d = Returned (Ok c) -> let_in since k rq c.

Lemma safe_statement {B} q (f : result (AuthAnswer q) DomainError -> Prog AuthAnswer B)
    (post : Known -> gset string -> B -> Prop) k mine :
  match q with OfKeys _ => False | _ => True end ->
  (forall k' r, knows_more k k' -> (forall a, r = Ok a -> answer k' q a) -> safe post (f r) k' mine) ->
  safe post (Ask q f) k mine.
Proof.
  intros Hq Hf k' Hk. split; [by destruct q|]. unfold none_used. rewrite difference_empty_L.
  split; [set_solver|]. intros r Hr. by apply Hf.
Qed.

Lemma accepted_safe since rq k mine c :
  let_in since k rq c ->
  safe (decision_ok since rq) (ClientAuthenticator.accepted deployment (rq_tenant rq) (c_id c) c (rq_now rq)) k mine.
Proof.
  intros Hc. unfold ClientAuthenticator.accepted, ClientAuthenticator.note_use. destruct (dp_recording deployment).
  - apply safe_statement; [done|]. intros k' r Hk _ c' [= <-]. by eapply let_in_more.
  - by intros c' [= <-].
Qed.

Lemma keys_safe tenant c kid now k mine :
  In ((tenant, c_id c), Some c) (k_clients k) ->
  safe (fun k' _ r => forall keys, r = Ok keys -> own_keys k' tenant c keys)
    (hoist OfKeys (fun _ a => a)
       (resolve (dp_limits deployment) (dp_sharing deployment) tenant (c_id c) (c_jwks c) kid now)) k mine.
Proof.
  intros Hin. unfold own_keys. destruct (c_jwks c) as [|document|uri] eqn:Hj; [by intros keys|by intros keys|].
  apply (safe_hoist OfKeys (fun _ a => a) knows_more (key_guard served registered sharing) guard
           (key_answer served registered) answer no_names none_used); [done..|].
  eapply safe_weaken; [|apply (resolve_uri_safe knows_more served registered served_more registered_more)].
  - intros k' m r Hr keys ->. exact Hr.
  - exists c. by split.
Qed.

Definition row_found (since k : Known) (tenant : string) (c : Client) : Prop :=
  knows_more since k /\ current (k_clients k) (tenant, c_id c) = Some c.

Lemma row_held since k k' tenant c : row_found since k tenant c -> knows_more k k' -> held_since since k' tenant c.
Proof. intros [H Hc] Hk. by exists k. Qed.

(** A lookup: a refusal, or what follows for the client of that id. *)
Lemma client_safe since rq tenant client_id (f : result (option Client) DomainError -> Prog AuthAnswer decided) k mine :
  knows_more since k ->
  (forall e k', safe (decision_ok since rq) (f (Err e)) k' mine) ->
  (forall k', safe (decision_ok since rq) (f (Ok None)) k' mine) ->
  (forall k' c, c_id c = client_id -> row_found since k' tenant c -> safe (decision_ok since rq) (f (Ok (Some c))) k' mine) ->
  safe (decision_ok since rq) (Ask (FindClient tenant client_id) f) k mine.
Proof.
  intros Hk He Hn Hs. apply safe_statement; [done|]. intros k' [[c|]|e] Hk' Ha; [|done..].
  destruct (Ha _ eq_refl) as [Hc Hid]. specialize (Hid c eq_refl). apply Hs; [done|].
  split; [by etrans|]. by rewrite Hid.
Qed.

Lemma refuse_ok since rq e client kid k mine :
  safe (decision_ok since rq) (Ret (ClientAuthenticator.refuse e client kid)) k mine.
Proof. by intros c. Qed.

Lemma found_let_in since k rq c :
  row_found since k (rq_tenant rq) c -> is_active c = true -> proved since k rq c -> let_in since k rq c.
Proof. intros Hr Ha Hp. split; [by eapply row_held|done|done]. Qed.

Lemma public_safe since rq k mine :
  knows_more since k -> Attempt.method (rq_attempt rq) = Ok ByNothing ->
  safe (decision_ok since rq)
    (ClientAuthenticator.public_client deployment (rq_tenant rq) (rq_attempt rq) (rq_public rq) (rq_now rq)) k mine.
Proof.
  intros Hk Hm. unfold ClientAuthenticator.public_client. destruct (rq_public rq) eqn:Hp; cbn [negb]; [|by apply refuse_ok].
  destruct (at_client_id _) as [client_id|] eqn:Hid; [|by apply refuse_ok].
  apply client_safe; [done|intros; by apply refuse_ok..|]. intros k' c <- Hr.
  destruct (_ && _) eqn:Hc; [|by apply refuse_ok]. apply andb_true_iff in Hc as [[Ha Hpub]%andb_true_iff Hn%bool_decide_eq_true].
  apply accepted_safe, found_let_in; [done|done|]. by eapply proved_public.
Qed.

Lemma secret_safe since rq k mine :
  knows_more since k -> Attempt.method (rq_attempt rq) = Ok ByClientSecretBasic ->
  safe (decision_ok since rq)
    (ClientAuthenticator.authenticate_client_secret deployment (rq_tenant rq) (rq_attempt rq) (rq_now rq)) k mine.
Proof.
  intros Hk Hm. unfold ClientAuthenticator.authenticate_client_secret.
  destruct (_ ≫= _) as [[client_id secret]|] eqn:Hb; [|by apply refuse_ok].
  apply bind_Some in Hb as (header & Hh & Hb). apply safe_statement; [done|].
  intros k1 [found|e] H1 Hf; [|by apply refuse_ok]. apply safe_statement; [done|].
  intros k2 [stored|e] H2 Hs; [|by apply refuse_ok]. destruct found as [c|]; [|by apply refuse_ok].
  destruct (Hf _ eq_refl) as [Hc Hid]. specialize (Hid c eq_refl). specialize (Hs _ eq_refl). cbn in Hs. subst client_id.
  destruct (negb (_ && _)) eqn:Ha; [by apply refuse_ok|]. apply negb_false_iff, andb_true_iff in Ha as [Ha Hauth%bool_decide_eq_true].
  destruct (negb _) eqn:Hsec; [by apply refuse_ok|]. apply negb_false_iff in Hsec.
  unfold ClientAuthenticator.secret_matches in Hsec. apply andb_true_iff in Hsec as [Heq [digest Hd]%bool_decide_eq_true].
  subst stored. cbn [default] in Heq. apply bool_decide_eq_true in Heq.
  apply accepted_safe. split; [exists k1; split_and!; [by etrans|exact H2|exact Hc]|done|].
  apply (proved_secret _ _ _ _ header secret k2); try done; [exact (transitivity Hk (transitivity H1 H2))|].
  rewrite Hd in Heq |- *. by rewrite Heq.
Qed.

Lemma chain_ok since rq k c certificate :
  Attempt.method (rq_attempt rq) = Ok ByMtls -> at_certificate (rq_attempt rq) = Some certificate ->
  at_client_id (rq_attempt rq) = Some (c_id c) -> c_auth_method c = TlsClientAuth ->
  forall c', ClientAuthenticator.check_chain deployment (rq_tenant rq) (c_id c) c certificate (rq_now rq) = Returned (Ok c') ->
  c' = c /\ proved since k rq c.
Proof.
  intros Hm Hcert Hid Hauth c'. unfold ClientAuthenticator.check_chain.
  destruct (_ !! _) as [anchors|] eqn:Han; [|done]. destruct (anchors_accept _ _ _ _) eqn:Hacc; [|done]. cbn [negb].
  destruct (c_tls_client_auth_subject c) as [name|] eqn:Hs; [|done].
  destruct (ClientCertificate.matches _ _) eqn:Hmatch; [|done]. intros [= <-]. split; [done|].
  by eapply proved_chain.
Qed.

Lemma certificate_safe since rq k mine certificate c :
  Attempt.method (rq_attempt rq) = Ok ByMtls -> at_certificate (rq_attempt rq) = Some certificate ->
  at_client_id (rq_attempt rq) = Some (c_id c) -> row_found since k (rq_tenant rq) c ->
  safe (fun k' _ d => forall c', d = Returned (Ok c') -> c' = c /\ proved since k' rq c)
    (ClientAuthenticator.check_certificate deployment (rq_tenant rq) (c_id c) c certificate (rq_now rq)) k mine.
Proof.
  intros Hm Hcert Hid [_ Hrow%current_In]. unfold ClientAuthenticator.check_certificate.
  destruct (c_auth_method c) eqn:Hauth; try by intros c'.
  { intros c'. by apply chain_ok. }
  apply (safe_bind knows_more guard answer none_used (fun k' _ r => forall keys, r = Ok keys -> own_keys k' (rq_tenant rq) c keys)).
  { by apply keys_safe. }
  intros k' m [keys|e] Hk Hm' Hkeys; [|by intros c']. destruct (ClientCertificate.is_one_of _ _ _) eqn:Hone; [|by intros c'].
  intros c' [= <-]. split; [done|]. eapply proved_certificate; try done. by apply Hkeys.
Qed.

Lemma mtls_safe since rq k mine certificate :
  knows_more since k -> Attempt.method (rq_attempt rq) = Ok ByMtls -> at_certificate (rq_attempt rq) = Some certificate ->
  safe (decision_ok since rq)
    (ClientAuthenticator.authenticate_mtls deployment (rq_tenant rq) (rq_attempt rq) certificate (rq_now rq)) k mine.
Proof.
  intros Hk Hm Hcert. unfold ClientAuthenticator.authenticate_mtls.
  destruct (at_client_id _) as [client_id|] eqn:Hid; [|by apply refuse_ok].
  apply client_safe; [done|intros; by apply refuse_ok..|]. intros k' c <- Hr.
  destruct (is_active c) eqn:Ha; [|by apply refuse_ok].
  eapply (safe_bind knows_more guard answer none_used); [by apply certificate_safe|].
  intros k'' m d Hk'' Hm' Hd. destruct d as [[c'|e]|]; [|by intros c''..].
  destruct (Hd c' eq_refl) as [-> Hp]. apply accepted_safe. split; [by eapply row_held|done|done].
Qed.
Lemma judged assertion client_id kid rules now found checked :
  ClientAuthenticator.judge_assertion assertion client_id kid rules now found = inr checked ->
  exists keys v, found = Ok keys /\ genuine assertion ASSERTION_POLICY (candidates keys) now v /\
    says (v_claims v) client_id rules now checked.
Proof.
  unfold ClientAuthenticator.judge_assertion. destruct found as [keys|]; [|done].
  destruct (verify _ _ _ _) as [v|] eqn:Hv; [|done]. apply verify_iff in Hv.
  destruct (check_assertion _ _ _ _) as [a|e] eqn:Hc; [|by destruct (claim_refusal _ _ _ _)].
  intros [= <-]. apply check_assertion_iff in Hc. by exists keys, v.
Qed.

Lemma client_refused client_id kid found d :
  ClientAuthenticator.assertion_client client_id kid found = inl d -> forall c, d <> Returned (Ok c).
Proof. unfold ClientAuthenticator.assertion_client. intros H c ->. repeat case_match; simplify_eq. Qed.

Lemma assertion_refused assertion client_id kid rules now found d :
  ClientAuthenticator.judge_assertion assertion client_id kid rules now found = inl d -> forall c, d <> Returned (Ok c).
Proof. unfold ClientAuthenticator.judge_assertion. intros H c ->. repeat case_match; simplify_eq. Qed.

Lemma assertion_safe since rq k mine :
  knows_more since k -> Attempt.method (rq_attempt rq) = Ok ByPrivateKeyJwt ->
  safe (decision_ok since rq)
    (ClientAuthenticator.authenticate_assertion deployment (rq_tenant rq) (rq_attempt rq) (rq_rules rq) (rq_now rq)) k mine.
Proof.
  intros Hk Hm. unfold ClientAuthenticator.authenticate_assertion.
  destruct (at_assertion _) as [assertion|] eqn:Hat; [|by apply refuse_ok].
  destruct (ClientAuthenticator.claimed_client _) as [[client_id kid]|e]; [|by intros c].
  destruct (ClientAuthenticator.names_another _ _) eqn:Hnamed; [by apply refuse_ok|].
  assert (Hnames : forall named, at_client_id (rq_attempt rq) = Some named -> named = client_id).
  { intros named Hn. unfold ClientAuthenticator.names_another in Hnamed. rewrite Hn in Hnamed. cbn in Hnamed. by apply negb_false_iff, String.eqb_eq in Hnamed. }
  apply client_safe; [done|intros; by apply refuse_ok..|]. intros k' c Hid Hr. unfold ClientAuthenticator.assertion_client.
  destruct (is_active c) eqn:Ha; [|by apply refuse_ok]. cbn [negb].
  destruct (authenticates_by _ c) eqn:Hauth; [|by apply refuse_ok]. cbn [negb]. apply bool_decide_eq_true in Hauth. subst client_id.
  eapply (safe_bind knows_more guard answer none_used); [apply keys_safe, current_In, Hr|].
  intros k1 m found H1 _ Hkeys. cbn beta in Hkeys.
  destruct (ClientAuthenticator.judge_assertion _ _ _ _ _ _) as [d|checked] eqn:Hj.
  - intros c' ->. by destruct (assertion_refused _ _ _ _ _ _ _ Hj c').
  - apply judged in Hj as (keys & v & -> & Hg & Hs). unfold ClientAuthenticator.spend_the_jti.
    apply safe_statement; [done|]. intros k2 [[]|e] H2 _; [|by apply refuse_ok..].
    apply accepted_safe. split; [eapply row_held; [exact Hr|by etrans]|done|].
    eapply (proved_assertion _ _ _ _ assertion keys v checked); try done.
    apply (own_keys_more k1); [done|by apply Hkeys].
Qed.

Lemma decide_safe since rq mine :
  safe (decision_ok since rq)
    (ClientAuthenticator.decide deployment (rq_tenant rq) (rq_attempt rq) (rq_rules rq) (rq_now rq) (rq_public rq)) since mine.
Proof.
  unfold ClientAuthenticator.decide. destruct (Attempt.method _) as [[]|e] eqn:Hm; [| | | |by apply refuse_ok].
  - by apply public_safe.
  - by apply secret_safe.
  - by apply assertion_safe.
  - destruct (at_certificate _) as [certificate|] eqn:Hc; [|by apply refuse_ok]. by apply mtls_safe.
Qed.

Definition reply_ok (since : Known) (rq : Request) (k : Known) (_ : gset string)
    (d : Call (result Client ClientAuthError)) : Prop :=
  forall c, d = Returned (Ok c) -> let_in since k rq c.

Lemma received_safe since rq mine : safe (reply_ok since rq) (received deployment rq) since mine.
Proof.
  unfold received, ClientAuthenticator.authenticate_request.
  apply (safe_bind knows_more guard answer none_used (decision_ok since rq)); [apply decide_safe|].
  intros k m [[c|e]|] _ _ Hd c' [= <-]. by apply Hd.
Qed.

(** ** Every reachable state *)

Definition running_ok (k : Known) (r : Running) : Prop :=
  knows_more (rn_since r) k /\ safe (reply_ok (rn_since r) (rn_request r)) (rn_rest r) k ∅.
Definition sys_ok (s : Sys) : Prop := db_ok (sy_known s) (sy_store s) /\ Forall (running_ok (sy_known s)) (sy_running s).

Lemma running_more k k' r : knows_more k k' -> running_ok k r -> running_ok k' r.
Proof.
  intros Hk [H Hs]. split; [by etrans|].
  refine (safe_grows knows_more guard answer none_used _ _ k k' ∅ _ Hk Hs).
  intros k1 k2 m d H12 Hd c ->. eapply let_in_more; [exact H12|by apply Hd].
Qed.

Lemma learn_more k op : knows_more k (learn k op).
Proof. destruct op; split_and!; cbn; try done; by apply suffix_cons_r. Qed.

Lemma auth_step_ok s s' : sys_ok s -> step deployment iter s s' -> sys_ok s'.
Proof.
  intros [Hdb Hrun] Hstep. destruct Hstep as [s op|s rq|s before after r store rest Hr Ht|s before after r Hr].
  - split; [by apply auth_op_ok|]. eapply Forall_impl; [exact Hrun|]. intros r. apply running_more, learn_more.
  - split; [done|]. constructor; [|done]. split; [done|]. apply received_safe.
  - rewrite Hr in Hrun. apply Forall_app in Hrun as [Hb [[Hs Hsafe] Ha]%Forall_cons].
    destruct (turn_safe knows_more guard answer none_used (auth_exec deployment iter) _ _ _ _ _ _ _ Ht Hsafe)
      as (mine & Hm & Hrest & Hst).
    { intros q a Hg. by apply (auth_exec_ok (sy_known s) (sy_store s) q). }
    assert (mine = ∅) as -> by set_solver. split; cbn.
    + destruct Hst as [->|(q & Hg & _ & _ & ->)]; [done|]. by apply auth_exec_ok.
    + apply Forall_app. split; [done|]. by constructor.
  - split; [done|]. cbn. rewrite Hr in Hrun. apply Forall_app in Hrun as [Hb [_ Ha]%Forall_cons]. by apply Forall_app.
Qed.

Lemma auth_reachable_ok s : rtc (step deployment iter) start s -> sys_ok s.
Proof.
  intros H. remember start as s0 eqn:Hs0. assert (Hok : sys_ok s0).
  { subst s0. split; [|constructor]. split_and!; cbn; [by intros key; rewrite lookup_empty|by intros key; rewrite lookup_empty|done|].
    split; cbn; intros ? ?; by rewrite lookup_empty. }
  clear Hs0. induction H as [|s1 s2 s3 H1 _ IH]; [done|]. by apply IH, (auth_step_ok s1).
Qed.

(** C9: A client let in has proved who it is. However requests, registrations, rotations of
    keys, documents served and lost answers interleave, a request is let in only as a client
    that was registered and active at some instant since it was received, by the one method
    it offered and the client is registered for: with a genuine assertion of its own under its
    own keys, for this server and for no longer than allowed; with its secret, as stored at
    some instant since; with a certificate of the tenant's anchors in its registered name, or
    one it published; or, being public, where public clients are let in. *)
Theorem client_let_in_proved_itself s r c :
  rtc (step deployment iter) start s -> In r (sy_running s) -> rn_rest r = Ret (Returned (Ok c)) ->
  let_in (rn_since r) (sy_known s) (rn_request r) c.
Proof.
  intros [_ Hrun]%auth_reachable_ok Hin Hr. rewrite List.Forall_forall in Hrun. destruct (Hrun r Hin) as [_ Hs].
  rewrite Hr in Hs. by apply Hs.
Qed.
(** A request received can always run to its end. *)
Lemma runs_alone p s rq since others :
  sy_running s = {| rn_request := rq; rn_since := since; rn_rest := p |} :: others ->
  rtc (step deployment iter) s {|
    sy_store := fst (alone (auth_exec deployment iter) p (sy_store s)); sy_known := sy_known s;
    sy_running := {| rn_request := rq; rn_since := since;
                     rn_rest := Ret (snd (alone (auth_exec deployment iter) p (sy_store s))) |} :: others |}.
Proof.
  revert s. induction p as [a|q k IH]; intros s Hr; [cbn; rewrite <- Hr; by destruct s|]. cbn [alone].
  destruct (auth_exec deployment iter (sy_store s) q) as [store r] eqn:He. eapply rtc_l.
  - by apply (step_turn _ _ s [] others {| rn_request := rq; rn_since := since; rn_rest := Ask q k |} store (k r)); [exact Hr|apply turn_runs].
  - exact (IH r {| sy_store := store; sy_known := sy_known s;
                   sy_running := {| rn_request := rq; rn_since := since; rn_rest := k r |} :: others |} eq_refl).
Qed.

(** ** Once *)

(** Statements of anyone, and what else happens to the store. *)
Inductive AuthEvent : Type := Asked (q : AuthStatement) | Happened (op : AuthOp).
Definition after_event (s : AuthStore) (ev : AuthEvent) : AuthStore :=
  match ev with Asked q => fst (auth_exec deployment iter s q) | Happened op => op_exec s op end.
Definition sweeps_at (ev : AuthEvent) (x : Z) : Prop :=
  match ev with Happened (SweepJtis _ _ now) | Happened (PurgeJtis _ now) => x <= now | _ => False end.

Lemma event_loses_jti s ev key x :
  au_replay s !! key = Some x -> au_replay (after_event s ev) !! key <> Some x -> sweeps_at ev x.
Proof.
  intros Hr Hn. destruct ev as [q|op]; cbn [after_event] in Hn.
  - destruct Hn. destruct q as [q|t c|t c|t c jti y|t c now]; cbn [auth_exec]; try done.
    + by destruct (key_exec _ _ _ _).
    + pose proof (claim_keeps (au_replay s) t ClientAssertion c jti y key x Hr) as Hk.
      by destruct (PgReplayGuard.claim _ _ _ _ _ _).
    + cbn. unfold record_use. by destruct (_ && _).
  - destruct op as [| | | | | | |t p sb j y|t ch now|t now]; cbn [op_exec with_replay au_replay] in Hn; try done.
    + destruct Hn. by apply claim_keeps.
    + cbn. apply Z.nlt_ge. intros Hlt. apply Hn, map_lookup_filter_Some. split; [done|]. lia.
    + cbn. apply Z.nlt_ge. intros Hlt. apply Hn, map_lookup_filter_Some. split; [done|]. lia.
Qed.

Lemma keys_keep_jtis {B} (p : Prog KeyAnswer B) s :
  au_replay (fst (alone (auth_exec deployment iter) (hoist OfKeys (fun _ a => a) p) s)) = au_replay s.
Proof.
  revert s. induction p as [a|q k IH]; intros s; [done|]. cbn [hoist alone auth_exec].
  destruct (key_exec _ _ _ _) as [keys r]. by rewrite IH.
Qed.

Lemma accepted_alone tenant client_id c now s :
  exists s', alone (auth_exec deployment iter) (ClientAuthenticator.accepted deployment tenant client_id c now) s
    = (s', Returned (Ok c)) /\ au_replay s' = au_replay s.
Proof.
  unfold ClientAuthenticator.accepted, ClientAuthenticator.note_use. destruct (dp_recording deployment); cbn; [|by eexists].
  eexists. split; [done|]. unfold record_use. by destruct (_ && _).
Qed.

Definition jti_key (tenant client_id : string) (a : Assertion) : ReplayKey :=
  PgReplayGuard.key tenant ClientAssertion client_id (as_jti a).

(** A request let in with an assertion has spent its [jti]. *)
Lemma let_in_spends rq s s' c assertion :
  Attempt.method (rq_attempt rq) = Ok ByPrivateKeyJwt -> at_assertion (rq_attempt rq) = Some assertion ->
  alone (auth_exec deployment iter) (received deployment rq) s = (s', Returned (Ok c)) ->
  exists keys v a client_id, genuine assertion ASSERTION_POLICY (candidates keys) (rq_now rq) v /\
    says (v_claims v) client_id (rq_rules rq) (rq_now rq) a /\
    au_replay s !! jti_key (rq_tenant rq) client_id a = None /\
    au_replay s' = <[jti_key (rq_tenant rq) client_id a := as_expires_at a]> (au_replay s).
Proof.
  intros Hm Hat. unfold received, ClientAuthenticator.authenticate_request. rewrite alone_bind.
  unfold ClientAuthenticator.decide. rewrite Hm. unfold ClientAuthenticator.authenticate_assertion. rewrite Hat.
  destruct (ClientAuthenticator.claimed_client _) as [[client_id kid]|e]; [|done].
  destruct (ClientAuthenticator.names_another _ _); [done|]. cbn [alone auth_exec].
  destruct (ClientAuthenticator.assertion_client _ _ _) as [d|c0] eqn:Hc.
  { destruct d as [[c1|e]|]; [by destruct (client_refused _ _ _ _ Hc c1)|done..]. }
  rewrite alone_bind.
  destruct (alone _ (hoist _ _ _) s) as [s1 found] eqn:Hs1.
  assert (Hr1 : au_replay s1 = au_replay s) 
    by (change s1 with (fst (s1, found)); rewrite <- Hs1; apply keys_keep_jtis).
  destruct (ClientAuthenticator.judge_assertion _ _ _ _ _ _) as [d|a] eqn:Hj.
  { destruct d as [[c1|e]|]; [by destruct (assertion_refused _ _ _ _ _ _ _ Hj c1)|done..]. }
  apply judged in Hj as (keys & v & -> & Hg & Hsays). unfold ClientAuthenticator.spend_the_jti. cbn [alone auth_exec].
  unfold PgReplayGuard.claim. fold (jti_key (rq_tenant rq) client_id a).
  destruct (au_replay s1 !! _) eqn:Hl; [done|].
  destruct (accepted_alone (rq_tenant rq) client_id c0 (rq_now rq)
    (with_replay s1 (<[jti_key (rq_tenant rq) client_id a := as_expires_at a]> (au_replay s1)))) as (s2 & Hs2 & Hr2).
  rewrite Hs2. intros [= <- <-]. exists keys, v, a, client_id. split; [done|]. split; [done|].
  rewrite <- Hr1. split; [done|]. by rewrite Hr2.
Qed.

(** What an assertion says does not depend on who reads it. *)
Lemma says_same assertion keys keys' now now' v v' client_id client_id' rules rules' a a' :
  genuine assertion ASSERTION_POLICY keys now v -> genuine assertion ASSERTION_POLICY keys' now' v' ->
  says (v_claims v) client_id rules now a -> says (v_claims v') client_id' rules' now' a' ->
  client_id = client_id' /\ a = a'.
Proof.
  intros Hg Hg' [_ H1 _ (H2 & _) (x & H3 & H4) _] [_ H1' _ (H2' & _) (x' & H3' & H4') _].
  pose proof Hg as [_ (h & p & s & u & key & Heq & Hm & _) _ _ _].
  assert (Hu : Jws.parse assertion = Ok u) by (apply jws_parse_iff; by exists h, p, s).
  pose proof (genuine_payload _ _ _ _ _ _ Hu Hg) as Hv. pose proof (genuine_payload _ _ _ _ _ _ Hu Hg') as Hv'.
  rewrite Hv in Hv'. injection Hv' as Hv'. rewrite <- Hv' in *. split; [congruence|].
  destruct a, a'; cbn in *. congruence.
Qed.

(** C10: An assertion is used once. After a request was let in with it, whatever statements,
    registrations and sweeps follow, no other request of the tenant is let in with it, unless
    a sweep has run with a clock later than the instant that request goes by: there is no
    instant, as there is for a proof of possession, at which the row may be gone and the
    assertion still good. *)
Theorem assertion_used_once rq rq' s s1 s2 c c' assertion evs :
  Attempt.method (rq_attempt rq) = Ok ByPrivateKeyJwt -> Attempt.method (rq_attempt rq') = Ok ByPrivateKeyJwt ->
  at_assertion (rq_attempt rq) = Some assertion -> at_assertion (rq_attempt rq') = Some assertion ->
  rq_tenant rq = rq_tenant rq' ->
  alone (auth_exec deployment iter) (received deployment rq) s = (s1, Returned (Ok c)) ->
  alone (auth_exec deployment iter) (received deployment rq') (fold_left after_event evs s1) = (s2, Returned (Ok c')) ->
  exists ev x, In ev evs /\ sweeps_at ev x /\ rq_now rq' < x.
Proof.
  intros Hm Hm' Ha Ha' Ht H1 H2.
  destruct (let_in_spends _ _ _ _ _ Hm Ha H1) as (keys & v & a & client_id & Hg & Hs & _ & Hr).
  destruct (let_in_spends _ _ _ _ _ Hm' Ha' H2) as (keys' & v' & a' & client_id' & Hg' & Hs' & Hn & _).
  destruct (says_same _ _ _ _ _ _ _ _ _ _ _ _ _ Hg Hg' Hs Hs') as [<- <-]. rewrite <- Ht in Hn.
  destruct (fold_left_loses after_event (fun s => au_replay s !! jti_key (rq_tenant rq) client_id a = Some (as_expires_at a))
    (fun ev => sweeps_at ev (as_expires_at a)) (fun s ev => event_loses_jti s ev _ _) evs s1) as (ev & Hin & Hsw).
  - rewrite Hr. apply lookup_insert_eq.
  - congruence.
  - exists ev, (as_expires_at a). destruct Hs' as [_ _ _ _ _ Hl]. split; [done|]. split; [done|lia].
Qed.
(** ** What a wrong audience does *)

Definition returns (d : decided) : Prop := d <> Panicked.

Lemma accepted_returns tenant client_id c now :
  always returns (ClientAuthenticator.accepted deployment tenant client_id c now).
Proof. unfold ClientAuthenticator.accepted. by apply always_bind. Qed.
Ltac returning :=
  repeat first [done | apply accepted_returns | apply always_bind; intros ? | progress cbn [always] | intros ? | case_match].

Lemma public_returns tenant attempt p now :
  always returns (ClientAuthenticator.public_client deployment tenant attempt p now).
Proof. unfold ClientAuthenticator.public_client. returning. Qed.
Lemma secret_returns tenant attempt now :
  always returns (ClientAuthenticator.authenticate_client_secret deployment tenant attempt now).
Proof. unfold ClientAuthenticator.authenticate_client_secret. returning. Qed.
Lemma chain_returns tenant client_id c certificate now :
  returns (ClientAuthenticator.check_chain deployment tenant client_id c certificate now).
Proof. unfold ClientAuthenticator.check_chain. by repeat case_match. Qed.
Lemma certificate_returns tenant client_id c certificate now :
  always returns (ClientAuthenticator.check_certificate deployment tenant client_id c certificate now).
Proof. unfold ClientAuthenticator.check_certificate. destruct (c_auth_method c); try done; [apply chain_returns|returning]. Qed.

Lemma rendering_fails claims : audience_of claims = None <->
  exists aud, vget "aud" claims = Some aud /\ (AUDIENCE_MAX < String.length (json_text aud))%nat /\
    is_char_boundary (json_text aud) AUDIENCE_MAX = false.
Proof.
  unfold audience_of, prefix_of. destruct (vget "aud" claims) as [aud|].
  - destruct (Nat.leb_spec (String.length (json_text aud)) AUDIENCE_MAX) as [Hl|Hl].
    + split; [done|]. intros (a & [= <-] & Ha & _). lia.
    + destruct (is_char_boundary (json_text aud) AUDIENCE_MAX) eqn:Hb; cbn.
      * split; [done|]. intros (a & [= <-] & _ & Ha). congruence.
      * split; [intros _; by exists aud|done].
  - split; [done|by intros (a & [=] & _)].
Qed.
Lemma mtls_returns tenant attempt certificate now :
  always returns (ClientAuthenticator.authenticate_mtls deployment tenant attempt certificate now).
Proof.
  unfold ClientAuthenticator.authenticate_mtls. destruct (at_client_id attempt) as [client_id|]; [|done].
  intros [[c|]|e]; [|done..]. destruct (is_active c); [|done].
  apply (always_then returns); [apply certificate_returns|]. intros [[c'|e]|] Hd; [apply accepted_returns|done..].
Qed.

Definition keys_for (rq : Request) (client_id : string) (c : Client) (kid : option string) (s : AuthStore) : AuthStore * found_keys :=
  alone (auth_exec deployment iter)
    (hoist OfKeys (fun _ a => a)
       (resolve (dp_limits deployment) (dp_sharing deployment) (rq_tenant rq) client_id (c_jwks c) kid (rq_now rq))) s.

(** What judges an assertion ends the process exactly where it would write down a wrong
    audience it cannot cut. *)
Lemma judge_panics assertion client_id kid rules now found :
  ClientAuthenticator.judge_assertion assertion client_id kid rules now found = inl Panicked <->
  exists keys v aud, found = Ok keys /\ genuine assertion ASSERTION_POLICY (candidates keys) now v /\
    check_assertion (v_claims v) client_id rules now = Err WrongAudience /\ vget "aud" (v_claims v) = Some aud /\
    (AUDIENCE_MAX < String.length (json_text aud))%nat /\ is_char_boundary (json_text aud) AUDIENCE_MAX = false.
Proof.
  unfold ClientAuthenticator.judge_assertion. split.
  - destruct found as [keys|]; [|done]. destruct (verify _ _ _ _) as [v|] eqn:Hv; [|done]. apply verify_iff in Hv.
    destruct (check_assertion _ _ _ _) as [|e] eqn:Hc; [done|]. destruct (claim_refusal _ _ _ _) eqn:Hr; [done|]. intros _.
    unfold claim_refusal in Hr. destruct e; try done. destruct (audience_of _) eqn:Ha; [done|].
    apply rendering_fails in Ha as (aud & H). by exists keys, v, aud.
  - intros (keys & v & aud & -> & Hv%verify_iff & Hc & Ha). rewrite Hv, Hc. unfold claim_refusal.
    by rewrite (proj2 (rendering_fails (v_claims v)) (ex_intro _ aud Ha)).
Qed.

Lemma alone_spend tenant client_id c a now s :
  snd (alone (auth_exec deployment iter) (ClientAuthenticator.spend_the_jti deployment tenant client_id c a now) s) <> Panicked.
Proof.
  unfold ClientAuthenticator.spend_the_jti. apply (alone_always (auth_exec deployment iter) returns). intros [[]|]; [apply accepted_returns|done..].
Qed.

Ltac nothing :=
  try (split; [by idtac|]);
  intros (assertion' & client' & kid' & c' & keys' & v' & aud' & Hm' & Ha' & Hc' & Hn' & Hf' & Hrest'); congruence.

(** C13: A registered client can end the process. The prefix written down of an audience that
    is not this server's is cut at its two hundredth byte, which panics in the middle of a
    character (and the release profile aborts on a panic): alone, a request ends so exactly
    where its assertion is genuine, under the keys of the active client it names, and names
    such an audience. *)
Theorem wrong_audience_panics rq s :
  snd (alone (auth_exec deployment iter) (received deployment rq) s) = Panicked <->
  exists assertion client_id kid c keys v aud,
    Attempt.method (rq_attempt rq) = Ok ByPrivateKeyJwt /\ at_assertion (rq_attempt rq) = Some assertion /\
    ClientAuthenticator.claimed_client assertion = Ok (client_id, kid) /\
    ClientAuthenticator.names_another (rq_attempt rq) client_id = false /\
    ClientAuthenticator.assertion_client client_id kid (Ok (au_clients s !! (rq_tenant rq, client_id))) = inr c /\
    snd (keys_for rq client_id c kid s) = Ok keys /\
    genuine assertion ASSERTION_POLICY (candidates keys) (rq_now rq) v /\
    check_assertion (v_claims v) client_id (rq_rules rq) (rq_now rq) = Err WrongAudience /\
    vget "aud" (v_claims v) = Some aud /\ (AUDIENCE_MAX < String.length (json_text aud))%nat /\
    is_char_boundary (json_text aud) AUDIENCE_MAX = false.
Proof.
  unfold received, ClientAuthenticator.authenticate_request. rewrite alone_bind.
  destruct (alone _ (ClientAuthenticator.decide _ _ _ _ _ _) s) as [s1 d] eqn:Hd. cbn [alone snd].
  transitivity (d = Panicked); [by destruct d|].
  replace d with (snd (alone (auth_exec deployment iter) (ClientAuthenticator.decide deployment (rq_tenant rq) (rq_attempt rq)
    (rq_rules rq) (rq_now rq) (rq_public rq)) s)) by by rewrite Hd.
  clear s1 d Hd. unfold ClientAuthenticator.decide. destruct (Attempt.method _) as [[]|e] eqn:Hm.
  1,2,4,5: split; [|by intros (? & ? & ? & ? & ? & ? & ? & [=] & _)].
  - intros H. by destruct (alone_always (auth_exec deployment iter) returns _ s (public_returns _ _ _ _) H).
  - intros H. by destruct (alone_always (auth_exec deployment iter) returns _ s (secret_returns _ _ _) H).
  - destruct (at_certificate _) as [certificate|]; [|done].
    intros H. by destruct (alone_always (auth_exec deployment iter) returns _ s (mtls_returns _ _ _ _) H).
  - done.
  - unfold ClientAuthenticator.authenticate_assertion.
    destruct (at_assertion _) as [assertion|]; [|by nothing].
    destruct (ClientAuthenticator.claimed_client assertion) as [[client_id kid]|e] eqn:Hc; [|by nothing].
    destruct (ClientAuthenticator.names_another _ _) eqn:Hn; [by nothing|]. cbn [alone auth_exec].
    destruct (ClientAuthenticator.assertion_client _ _ _) as [d|c] eqn:Hf.
    { split; [|by nothing]. intros Hp. cbn in Hp. subst d. unfold ClientAuthenticator.assertion_client in Hf.
      repeat case_match; simplify_eq. }
    rewrite alone_bind. destruct (alone _ (hoist _ _ _) s) as [s1 found] eqn:Hk.
    assert (Hfound : snd (keys_for rq client_id c kid s) = found) by (unfold keys_for; by rewrite Hk).
    transitivity (ClientAuthenticator.judge_assertion assertion client_id kid (rq_rules rq) (rq_now rq) found = inl Panicked).
    { destruct (ClientAuthenticator.judge_assertion _ _ _ _ _ _) as [d|a]; cbn [alone snd]; [split; congruence|].
      split; [|done]. intros H. by destruct (alone_spend _ _ _ _ _ _ H). }
    rewrite judge_panics. split.
    + intros (keys & v & aud & -> & H). by exists assertion, client_id, kid, c, keys, v, aud.
    + intros (assertion' & client' & kid' & c' & keys & v & aud & _ & Ha' & Hc' & _ & Hf' & Hk' & H).
      assert (Heq : client_id = client' /\ kid = kid' /\ assertion = assertion') by (split_and!; congruence).
      destruct Heq as (-> & -> & ->). assert (c = c') as -> by congruence. exists keys, v, aud. split; [congruence|done].
Qed.
End Auth.

(** ** A client with one key, and its assertions *)

Definition text_of (v : value) : string :=
  match v with VString s => Jose.quote +:+ s +:+ Jose.quote | _ => "" end.
#[local] Instance plain_auth : AuthEnv := {|
  form_parse := fun _ => []; standard_decode := fun _ => None; json_text := text_of;
  anchor_from_trusted_cert := fun _ => false; verify_for_usage := fun _ _ _ _ => false |}.

Definition assertion_header : Header := {| h_alg := "EdDSA"; h_typ := None; h_kid := Some "k"%string; h_crit := None |}.
Definition assertion_claims (audience : string) : value :=
  jobj [("iss", VString "c"); ("sub", VString "c"); ("aud", VString audience); ("jti", VString "j");
        ("exp", VNumber (PosInt 200))]%string.
Definition assertion_env (audience : string) : JoseEnv :=
  plain_env (fun _ => Some assertion_header) (fun _ => Some (assertion_claims audience)).

Definition sample_key : list Z := repeat 0 32.
Definition sample_client : Client := {|
  c_id := "c"; c_status := ClientActive; c_profile := Fapi; c_auth_method := PrivateKeyJwt;
  c_jwks := Inline (VObject [("keys", VArray [VObject (jwk_of sample_key "k")])]%string);
  c_tls_client_auth_subject := None |}.
Definition sample_attempt : Attempt := {|
  at_assertion := Some ("A_.A_." +:+ plain_encode sample_key)%string; at_assertion_type := Some CLIENT_ASSERTION_TYPE;
  at_client_id := None; at_authorization_header := None; at_certificate := None |}.
Definition sample_request (at_ : Z) : Request := {|
  rq_tenant := "t"; rq_attempt := sample_attempt; rq_rules := AssertionRules.for_issuer "op"; rq_now := at_; rq_public := false |}.
Definition plain_deployment : Deployment :=
  {| dp_limits := default_limits; dp_sharing := false; dp_recording := false; dp_anchors := ∅ |}.

Definition registered_store : AuthStore := op_exec (E := assertion_env "op") empty_store (WriteClient "t" sample_client).

Definition handled (audience : string) (at_ : Z) (s : AuthStore) : AuthStore * Call (result Client ClientAuthError) :=
  alone (auth_exec (E := assertion_env audience) plain_deployment map_to_list)
    (received (E := assertion_env audience) plain_deployment (sample_request at_)) s.
Definition spent_store : AuthStore := fst (handled "op" (seconds 100) registered_store).
Definition swept_store : AuthStore :=
  op_exec (E := assertion_env "op") spent_store (PurgeJtis "t" (seconds 200)).

Lemma first_let_in : snd (handled "op" (seconds 100) registered_store) = Returned (Ok sample_client).
Proof. vm_compute. reflexivity. Qed.
Lemma second_refused : snd (handled "op" (seconds 150) spent_store) = Returned (Err ReplayedAssertion).
Proof. vm_compute. reflexivity. Qed.
Lemma late_let_in : snd (handled "op" (seconds 150) swept_store) = Returned (Ok sample_client).
Proof. vm_compute. reflexivity. Qed.

(** A hundred and ninety-eight letters, and one that is two bytes long. *)
Definition uncut_audience : string := String.concat "" (repeat "a"%string 198 ++ ["é"%string])%list.
Lemma registered_client_ends_the_process :
  snd (handled uncut_audience (seconds 100) registered_store) = Panicked.
Proof. vm_compute. reflexivity. Qed.

Lemma run_of {B} (run : AuthStore * B) b : snd run = b -> run = (fst run, b).
Proof. by destruct run as [s c]; intros <-. Qed.

Lemma assertion_used_once_witness : exists ev x,
  In ev [Happened (PurgeJtis "t" (seconds 200))] /\ sweeps_at ev x /\ seconds 150 < x.
Proof.
  apply (assertion_used_once (E := assertion_env "op") plain_deployment map_to_list (sample_request (seconds 100))
           (sample_request (seconds 150)) registered_store spent_store (fst (handled "op" (seconds 150) swept_store))
           sample_client sample_client ("A_.A_." +:+ plain_encode sample_key)%string [Happened (PurgeJtis "t" (seconds 200))]);
    [reflexivity|reflexivity|reflexivity|reflexivity|reflexivity|exact (run_of _ _ first_let_in)|exact (run_of _ _ late_let_in)].
Defined.

Lemma client_let_in_proved_itself_witness :
  exists k, let_in (E := assertion_env "op") plain_deployment k k (sample_request (seconds 100)) sample_client.
Proof.
  pose (k := learn (sy_known start) (WriteClient "t" sample_client)).
  pose (s := {| sy_store := registered_store; sy_known := k;
                sy_running := [{| rn_request := sample_request (seconds 100); rn_since := k;
                                  rn_rest := received (E := assertion_env "op") plain_deployment (sample_request (seconds 100)) |}] |}).
  pose (r := {| rn_request := sample_request (seconds 100); rn_since := k; rn_rest := Ret (Returned (Ok sample_client)) |}).
  pose (s' := {| sy_store := spent_store; sy_known := k; sy_running := [r] |}).
  exists k. apply (client_let_in_proved_itself (E := assertion_env "op") plain_deployment map_to_list s' r sample_client).
  - eapply rtc_l; [apply (step_op _ _ start (WriteClient "t" sample_client))|].
    eapply rtc_l; [apply (step_receive _ _ _ (sample_request (seconds 100)))|].
    pose proof (runs_alone (E := assertion_env "op") plain_deployment map_to_list _ s (sample_request (seconds 100)) k [] eq_refl) as Hs.
    change (snd _) with (snd (handled "op" (seconds 100) registered_store)) in Hs. rewrite first_let_in in Hs. exact Hs.
  - by left.
  - reflexivity.
Defined.

Lemma wrong_audience_panics_witness : exists v aud, vget "aud" (v_claims v) = Some aud /\
  (AUDIENCE_MAX < String.length (json_text aud))%nat /\ is_char_boundary (json_text aud) AUDIENCE_MAX = false.
Proof.
  pose proof registered_client_ends_the_process as Hp. unfold handled in Hp.
  apply (wrong_audience_panics (E := assertion_env uncut_audience)) in Hp.
  destruct Hp
    as (assertion & client_id & kid & c & keys & v & aud & _ & _ & _ & _ & _ & _ & _ & _ & H).
  exists v, aud. exact H.
Defined.
